(* ===== verification/_CoqProject ===== *)
-Q . S2P
Prelude.v
Addr.v
Frage.v
Block.v
Mmu.v
Bitmap.v
FrameAllocator.v
Range.v
PageAllocator.v
Mapping.v
MappingTree.v
MappingCopy.v
Pid.v
AddressSpace.v
Process.v
ProcessTable.v
Scheduler.v
Syscall.v
Elf.v
BigAllocator.v
Big.v
Grow.v
BigCopy.v
Pair.v
Bump.v
BumpPair.v
ElfLoader.v
ElfImage.v
Quarry.v
DynamicBitmap.v
AllocInfo.v
FixedSize.v
Dispatcher.v
DispatcherStats.v
Grid.v
Paper.v
TextInit.v
VgaCursor.v
Text.v
SystemTime.v
Rtc.v
Pci.v
Disk.v
FileSystem.v
CorrelationLock.v
Phys2Virt.v
Backtrace.v
