(* ===== verification/Prelude.v ===== *)
(** * Nikka: a verification library for the kernel and its core library

    Nikka is a teaching operating system kernel for x86-64 written in Rust.  This
    library translates its core into functions and proves them correct.  The
    Rust paths below are relative to [src/].

    ** The program

    The workspace has the library [ku], shared by the kernel and by user code
    (addresses, blocks of memory, page table entries, bitmaps, allocators, the
    loader of executables, time, the formats of the system calls), the [kernel]
    itself, drivers ([pci], [text], [serial], [pic8259]) and user programs.  The
    parts modelled here call each other as follows, from the hardware up.

    - [Addr], [Frage] (frames and pages) and [Block] are the vocabulary of all
      other parts: checked arithmetic on addresses, frames and blocks.
    - [Mmu] is the format of a page table entry.
    - [FrameAllocator] hands out physical frames and counts references to them.
    - [Mapping] (with [Path]) is the tree of page tables.  Its nodes and the pages
      it maps are frames of the frame allocator; each present entry owns one
      reference.  [Phys2Virt] is the window through which the kernel reaches
      physical memory.
    - [Range] divides the virtual pages into a kernel part and a user part;
      [PageAllocator] hands out virtual pages of one part.
    - [AddressSpace] joins a mapping with a page allocator and offers the
      operations on pages and blocks, and the permission check of system calls.
    - [BigAllocator] is the interface of an allocator of pages, [Pair] that of two
      of them that can copy mappings to each other; [Big] is the kernel's
      implementation on an address space.
    - [Quarry], [DynamicBitmap], [FixedSize], [AllocInfo] and [Dispatcher] build the
      allocator of small objects on that interface.
    - [Elf] computes where the segments of an executable go, [ElfLoader] loads them
      through a pair of page allocators.
    - [Process], [ProcessTable] and [Scheduler] create, find, run and release
      processes; [Syscall] is the system call that reads memory of the process.
    - [Grid], [VgaCursor] and [Text] print on the screen and the serial port.
    - [SystemTime] converts processor ticks to dates; [Rtc] reads the real time
      clock and keeps the system time in step with it.
    - [Backtrace] follows the frame pointers of a stack after a failure.
    - [Pci] finds out what a device needs; [Disk] transfers sectors; [FileSystem]
      is the layout of the file system, its bitmaps and directory entries.

    ** The files

    - [Prelude] (this file): outcomes, 64-bit words, generic lemmas.
    - [Addr]: [ku/src/memory/addr.rs], [port.rs].
    - [Frage]: [ku/src/memory/frage.rs], [size.rs].
    - [Block]: [ku/src/memory/block.rs].
    - [Mmu]: [ku/src/memory/mmu.rs].
    - [Bitmap]: [ku/src/collections/bitmap.rs].
    - [FrameAllocator]: [kernel/src/memory/frame_allocator.rs],
      [frame_guard.rs].
    - [Range]: [kernel/src/memory/range.rs].
    - [PageAllocator]: [kernel/src/memory/page_allocator.rs].
    - [Mapping]: [kernel/src/memory/mapping.rs] and [path.rs]; translation,
      mapping and unmapping of one page.
    - [MappingTree]: the recursive operations of [mapping.rs]: dropping and
      duplicating a mapping, freeing unused tables.  [MappingCopy] proves the
      copy correct.
    - [Phys2Virt]: [kernel/src/memory/phys2virt.rs].
    - [Pid]: [ku/src/process/pid.rs].
    - [AddressSpace]: [kernel/src/memory/address_space.rs].
    - [Process]: [kernel/src/process/process.rs], [registers.rs],
      [ku/src/process/syscall.rs], [mini_context.rs].
    - [ProcessTable]: [kernel/src/process/table.rs].
    - [Scheduler]: [kernel/src/process/scheduler.rs], the state changes of
      [Process::enter_user_mode], of the system calls [exit] and [sched_yield],
      and of the trap handler for traps out of user mode.
    - [Syscall]: [log_value] of [kernel/src/process/syscall.rs].
    - [Elf]: the conversion and the ordering of program headers in
      [ku/src/process/elf.rs]; [ElfLoader] is the loader of that file and
      [ElfImage] proves what it loads.
    - [BigAllocator]: the traits of [ku/src/allocator/big.rs] and [dry.rs], as a
      class of operations and a class of laws.  [Grow] proves the operations
      derived from them, [Pair] is [ku/src/allocator/big_pair.rs].
    - [Big]: [kernel/src/allocator/big.rs] and [big_pair.rs]; [BigCopy] proves its
      copying and growing and that it implements the interface.  [Bump] and
      [BumpPair] are small page allocators that satisfy the laws and serve as
      examples.
    - [Quarry]: [ku/src/allocator/quarry.rs]; [DynamicBitmap]:
      [ku/src/collections/dynamic_bitmap.rs]; [FixedSize]:
      [ku/src/allocator/fixed_size.rs] and the clips of [cache.rs]; [AllocInfo]:
      [ku/src/allocator/info.rs]; [Dispatcher] and [DispatcherStats]:
      [ku/src/allocator/dispatcher.rs].
    - [Grid], [Paper], [TextInit]: [text/src/grid.rs]; [VgaCursor]:
      [text/src/cursor.rs] and the port pairs of [ku/src/memory/port.rs]; [Text]:
      [text/src/lib.rs].
    - [SystemTime]: [ku/src/time]; [CorrelationLock]: the concurrent access to
      [ku/src/time/correlation_point.rs]; [Rtc]: [kernel/src/time/rtc.rs].
    - [Backtrace]: [ku/src/backtrace/mod.rs].
    - [Pci]: the crate [pci].
    - [Disk]: [kernel/src/fs/disk.rs]; [FileSystem]: [superblock.rs],
      [directory_entry.rs], [bitmap.rs] of that directory and the size limits of
      [inode.rs].

    ** Conventions

    - A [usize], [u64] or address is a [Z]; [is_usize] bounds it.  Arithmetic is
      written with the overflow behaviour of the development profile of the
      build, which is the one the tests run: an overflowing [+], [-] or [*], a
      failing [assert!], an out-of-range index and an [unwrap] of nothing are
      [Panic].  [wrapping_] operations wrap, [checked_] ones return [None].
    - A fallible operation returns an [outcome]: [Ok] of a value, [Err] of an
      [Error], or [Panic].  An operation on the state [S] of a component is an
      [M S A]: it returns the state together with the outcome, so that a theorem
      can also speak about the state a failing operation leaves behind.
    - A frame, page or address is the word that represents it; the type tags of
      the source are records of operations.
    - Physical memory is a finite map from frames to their 512 entries.  A Rust
      reference to an entry is its location.  Reading a frame outside that map is
      [Panic], as is [phys2virt().map(frame).expect("bad frame")].
    - The memory the loader writes is a finite map of bytes reached through the
      page tables; the operations of a page allocator do not touch the contents
      of the pages they map.
    - A [FrameGuard] is the frame it owns; dropping it, which Rust does
      implicitly, is an explicit [deallocate].
    - The kernel is modelled on one processor, where the spin locks are free
      whenever they are taken, since no modelled operation takes a lock it
      holds.  The exceptions are the two sequence locks: [AllocInfo] and
      [CorrelationLock] are step relations in which threads interleave between
      single accesses to memory, which is taken to be sequentially consistent.
    - Hardware is a machine behind the instructions [in] and [out]
      ([VgaCursor.PortIo]); what a driver relies on is a class of laws with a small
      device that satisfies it.

    ** Recursion

    Loops over a range of numbers are structural on the list of its elements or
    on the number of its steps.  Where the source follows links or decodes
    variable-length data the function has fuel: the iteration over a block
    ([Block.iterate]) takes one more than its count, the walk along a stack
    ([Backtrace.walk_fuel]) two more than the frames that fit, the decoding of UTF-8 the
    number of bytes, the draining of a cache ([FixedSize]) its length; the
    theorem or lemma beside the definition shows that this is enough.  The
    loops that poll a device ([Rtc.wait_update], [Disk.wait_loop]) take the
    number of polls, and their results tell a device that did not answer.  The
    walk through the page tables has four levels and needs none; the operations
    on whole trees are structural on the level.

    ** What the theorems show

    - Addresses to bitmaps: the conversions are exact and lossless, the accepted
      inputs are characterised, and the optimised count and search agree
      with the bits.
    - Frames: every sequence of operations keeps each reference count equal to
      the number of live references, no frame in use is handed out, and the free
      list stays well formed, from the construction out of a memory map on.
    - Page tables: [kernel_wf] says that the nodes reachable from the root form
      a tree without sharing and that the reference counts account for exactly
      the entries and the guards.  Mapping and unmapping preserve it, never
      panic from it, and change the resolution of exactly one page; failures
      leave the resolution of every page as it was and leak nothing.  Dropping a
      mapping releases exactly what it holds; freeing unused tables removes
      exactly those nothing is mapped through; a duplicate is a tree of its own that
      shares exactly the kernel pages, and is made exactly when there are frames for
      its tables.  The window on physical memory maps every physical address to one the
      processor translates back to it, if the root entries it takes were empty.
    - Address spaces: the same for blocks of pages, and the permission check
      accepts exactly the blocks that user code may access.
    - Allocators: [Big] implements the page allocator interface; the allocators
      above are proved against that interface only.  Allocations are mapped,
      aligned and apart from each other; a failed one takes no block, and harms at
      most the size class that was refused memory.  Statistics add up, and the
      reader of the statistics sees what one writer has written.
    - Executables: the scan over ordered segments yields disjoint ranges that
      cover the touched pages with the union of the flags, and the loader puts
      exactly the bytes of the file there, for every pair of page allocators.
    - Processes: the table refines a finite map whose keys are never reused;
      the scheduler is a fair queue in which stale identifiers are harmless.
    - System calls: [log_value] reads only what user code may read.
    - Screen: printing on the grid refines typing on a sheet of paper, whose last
      rows the screen shows.
    - Time: the conversion of ticks is linear interpolation as long as its
      product fits; the date read from a ticking chip is one it has shown; a
      reader of a correlation point sees a point that was stored.
    - Devices: the probing of a base address register is exact and leaves no
      trace; sectors written to the disk are read back; a write during which the disk
      reports errors changes only sectors it has transferred, of which at most the last
      is in doubt until the next flush; the regions of the file system are disjoint and
      large enough, its bitmaps never hand out an element twice or a reserved
      one, and names survive a round trip.
    - Stack traces: the walk ends, does not panic and reads only inside the stack,
      whatever the memory holds; on an intact stack it is exact.

    ** What is not modelled

    Inline assembly, the interrupt controllers, the boot of further processors,
    descriptor tables, formatting and logging; the memory ordering
    of the atomics; and the functions the source leaves as [unimplemented!()]
    (the block cache, the contents of inodes, most system calls, the pipe, [Lru],
    [SequenceLock], the checks of [DebugSpinlock]).  [FastSpinlock] delegates to
    the library [spin].  Of what could still be modelled: the creation and
    duplication of processes, the iteration over mapped pages, the slice
    wrappers of the address space, and the implementation of the pair of page
    allocators by two address spaces. *)

From stdpp Require Import base list numbers option tactics strings.
From Stdlib Require Import ZArith Lia.

Open Scope Z_scope.

(** ** Errors and outcomes *)

(** The fields of [ku::ipc::pipe::Error::Overflow], the only variant of that
    enumeration. *)
Inductive PipeError :=
  | PipeOverflow (capacity len exceeding_object_len : Z).

(** The error enumeration shared by the kernel and the user library.  The
    payloads of [Fmt], [Int] and [Postcard] are opaque values of other crates
    that no modelled function inspects, so they are erased. *)
Inductive Error :=
  | Elf (message : string)
  | FileExists
  | FileNotFound
  | Fmt
  | Int
  | InvalidAlignment
  | InvalidArgument
  | Medium
  | NoData
  | NoDisk
  | NoFrame
  | NoPage
  | NoProcess
  | NoProcessSlot
  | NotDirectory
  | NotFile
  | Null
  | Overflow
  | PermissionDenied
  | Pipe (e : PipeError)
  | Postcard
  | Timeout
  | Unimplemented.

#[export] Instance PipeError_eq_dec : EqDecision PipeError.
Proof. solve_decision. Defined.

#[export] Instance Error_eq_dec : EqDecision Error.
Proof. solve_decision. Defined.

(** The result of running a piece of Rust code: a value, an [Err], or a panic
    (a failed assertion, an [unwrap] of nothing, an out-of-range index, an
    arithmetic overflow under overflow checks). *)
Inductive outcome (A : Type) : Type :=
  | Ok (a : A)
  | Err (e : Error)
  | Panic.

Arguments Ok {A} a.
Arguments Err {A} e.
Arguments Panic {A}.

#[export] Instance outcome_eq_dec `{EqDecision A} : EqDecision (outcome A).
Proof. solve_decision. Defined.

Declare Scope outcome_scope.
Delimit Scope outcome_scope with outcome.
Open Scope outcome_scope.

Notation "'let?' x ':=' c 'in' k" :=
  (match c with
   | Ok x => k
   | Err e => Err e
   | Panic => Panic
   end)
  (at level 10, x pattern, c at level 100, k at level 200)
  : outcome_scope.

Notation "'assert!' b 'in' k" :=
  (if b then k else Panic)
  (at level 10, b at level 100, k at level 200)
  : outcome_scope.

(** [Option::ok_or], [Result::unwrap]/[expect], [Option::unwrap]/[expect],
    [Result::ok]. *)
Definition ok_or {A} (o : option A) (e : Error) : outcome A :=
  match o with Some a => Ok a | None => Err e end.

Definition unwrap {A} (r : outcome A) : outcome A :=
  match r with Ok a => Ok a | _ => Panic end.

Definition unwrap_some {A} (o : option A) : outcome A :=
  match o with Some a => Ok a | None => Panic end.

Definition is_ok {A} (r : outcome A) : bool :=
  match r with Ok _ => true | _ => false end.

(** The operations on a component's state [S]: they return the state they leave
    behind together with the outcome, because an [Err] of the code does not
    roll the state back. *)
Definition M (S A : Type) : Type := S -> S * outcome A.

Definition retM {S A} (a : A) : M S A := fun s => (s, Ok a).
Definition liftM {S A} (r : outcome A) : M S A := fun s => (s, r).
Definition getM {S} : M S S := fun s => (s, Ok s).
Definition putM {S} (s : S) : M S unit := fun _ => (s, Ok tt).

Definition bindM {S A B} (c : M S A) (k : A -> M S B) : M S B :=
  fun s =>
    match c s with
    | (s', Ok a) => k a s'
    | (s', Err e) => (s', Err e)
    | (s', Panic) => (s', Panic)
    end.

Notation "'let!' x ':=' c 'in' k" :=
  (bindM c (fun x => k))
  (at level 10, x pattern, c at level 100, k at level 200)
  : outcome_scope.

(** An operation on one component of a state that is a pair. *)
Definition on_fst {S T A} (c : M S A) : M (S * T) A := fun st =>
  let '(s, r) := c st.1 in ((s, st.2), r).
Definition on_snd {S T A} (c : M T A) : M (S * T) A := fun st =>
  let '(t, r) := c st.2 in ((st.1, t), r).

(** [.is_ok()], [.ok()] and [.expect()] on the result of an operation. *)
Definition succeeds {S A} (c : M S A) : M S bool := fun s =>
  match c s with
  | (s, Ok _) => (s, Ok true)
  | (s, Err _) => (s, Ok false)
  | (s, Panic) => (s, Panic)
  end.
Definition okM {S A} (c : M S A) : M S (option A) := fun s =>
  match c s with
  | (s, Ok a) => (s, Ok (Some a))
  | (s, Err _) => (s, Ok None)
  | (s, Panic) => (s, Panic)
  end.
Definition expectM {S A} (c : M S A) : M S A := fun s =>
  let '(s, r) := c s in (s, unwrap r).

(** A [for] loop whose body may fail, without and with an accumulator. *)
Fixpoint for_list {S A} (body : A -> M S unit) (l : list A) : M S unit :=
  match l with
  | [] => retM tt
  | x :: l => let! _ := body x in for_list body l
  end.
Fixpoint for_fold {S A B} (body : B -> A -> M S B) (acc : B) (l : list A) : M S B :=
  match l with
  | [] => retM acc
  | x :: l => let! acc := body acc x in for_fold body acc l
  end.

(** ** Machine integers

    A [usize] or [u64] is a [Z] in [0, 2^64).  The operators below are the ones
    the sources use: the plain ones panic on overflow (the [dev] and [ci]
    profiles enable overflow checks), the [checked_] ones return [None], the
    [wrapping_] ones reduce modulo the word. *)

Abbreviation USIZE_BITS := 64.
Abbreviation USIZE_MODULUS := 18446744073709551616.
Abbreviation USIZE_MAX := 18446744073709551615.

Definition is_usize (x : Z) : Prop := 0 <= x < USIZE_MODULUS.
Definition fits_usize (x : Z) : bool := (0 <=? x) && (x <? USIZE_MODULUS).

Definition usize_add (a b : Z) : outcome Z :=
  if fits_usize (a + b) then Ok (a + b) else Panic.
Definition usize_sub (a b : Z) : outcome Z :=
  if fits_usize (a - b) then Ok (a - b) else Panic.
Definition usize_mul (a b : Z) : outcome Z :=
  if fits_usize (a * b) then Ok (a * b) else Panic.

Definition checked_add (a b : Z) : option Z :=
  if fits_usize (a + b) then Some (a + b) else None.
Definition checked_sub (a b : Z) : option Z :=
  if fits_usize (a - b) then Some (a - b) else None.
Definition checked_mul (a b : Z) : option Z :=
  if fits_usize (a * b) then Some (a * b) else None.

Definition wrapping_add (a b : Z) : Z := (a + b) mod USIZE_MODULUS.
Definition wrapping_sub (a b : Z) : Z := (a - b) mod USIZE_MODULUS.
Definition saturating_sub (a b : Z) : Z := Z.max 0 (a - b).

Definition is_multiple_of (a b : Z) : bool :=
  if b =? 0 then a =? 0 else a mod b =? 0.

(** [div_ceil] and [next_multiple_of] of the unsigned integers. *)
Definition div_ceil (a b : Z) : Z :=
  a / b + (if 0 <? a mod b then 1 else 0).
Definition next_multiple_of (a b : Z) : Z :=
  if a mod b =? 0 then a else a + (b - a mod b).

(** Bitwise complement and the bit counts of a 64-bit word. *)
Definition lnot64 (x : Z) : Z := USIZE_MAX - x.
Definition shl64 (x n : Z) : Z := Z.shiftl x n mod USIZE_MODULUS.
Definition bit_length (x : Z) : Z := if x <=? 0 then 0 else Z.log2 x + 1.
Definition leading_zeros (x : Z) : Z := USIZE_BITS - bit_length x.
Definition leading_ones (x : Z) : Z := leading_zeros (lnot64 x).

(** The number of one bits below the lowest zero bit, the number of zero bits. *)
Fixpoint trailing_ones_from (fuel : nat) (x i : Z) : Z :=
  match fuel with
  | O => i
  | S fuel => if Z.testbit x i then trailing_ones_from fuel x (i + 1) else i
  end.
Definition trailing_ones (x : Z) : Z := trailing_ones_from 64 x 0.
Definition count_zeros (x : Z) : Z :=
  Z.of_nat (length (filter (fun i => Z.testbit x i = false) (seqZ 0 64))).

(** ** Slices

    Reading and writing a slice by index; an index out of range panics. *)
Definition index {A} (l : list A) (i : Z) : outcome A :=
  if 0 <=? i then unwrap_some (l !! Z.to_nat i) else Panic.

Definition index_set {A} (l : list A) (i : Z) (a : A) : outcome (list A) :=
  let? _ := index l i in Ok (<[Z.to_nat i := a]> l).

(** [Iterator::reduce(Add::add)] on an iterator of numbers, then [unwrap_or(0)]. *)
Definition sum (l : list Z) : Z := foldr Z.add 0 l.

(** ** Automation *)

(** Turns the boolean tests of the code that appear in the context into
    propositions, splitting conjunctions. *)
Ltac bool_simp :=
  repeat match goal with
  | H : (_ && _)%bool = true |- _ => apply andb_true_iff in H as [? ?]
  | H : (_ || _)%bool = false |- _ => apply orb_false_iff in H as [? ?]
  | H : negb _ = true |- _ => apply negb_true_iff in H
  | H : negb _ = false |- _ => apply negb_false_iff in H
  | H : (_ <=? _) = true |- _ => apply Z.leb_le in H
  | H : (_ <=? _) = false |- _ => apply Z.leb_gt in H
  | H : (_ <? _) = true |- _ => apply Z.ltb_lt in H
  | H : (_ <? _) = false |- _ => apply Z.ltb_ge in H
  | H : (_ =? _) = true |- _ => apply Z.eqb_eq in H
  | H : (_ =? _) = false |- _ => apply Z.eqb_neq in H
  | H : true = _ |- _ => symmetry in H
  | H : false = _ |- _ => symmetry in H
  end.

(** Case analysis on one test or match of the goal, keeping the equation. *)
Ltac split_case :=
  match goal with
  | |- context [match ?x with _ => _ end] =>
      lazymatch x with
      | context [match _ with _ => _ end] => fail
      | _ => destruct x eqn:?
      end
  end.

Ltac split_case_in H :=
  match type of H with
  | context [match ?x with _ => _ end] =>
      lazymatch x with
      | context [match _ with _ => _ end] => fail
      | _ => destruct x eqn:?
      end
  end.

Ltac split_cases_in H := repeat (split_case_in H; try discriminate H).

Ltac inv_ok H := injection H as H; subst.

(** Word-sized arithmetic: case split the overflow checks, then [lia]. *)
Ltac word_unfold :=
  unfold usize_add, usize_sub, usize_mul, checked_add, checked_sub, checked_mul,
    fits_usize, is_usize in *.

Ltac solve_word :=
  word_unfold; repeat split_case; bool_simp; simplify_eq; try reflexivity; try lia.

Create HintDb nikka.

(** ** Shared lemmas *)

Lemma fits_usize_true x : fits_usize x = true <-> is_usize x.
Proof.
  unfold fits_usize, is_usize.
  rewrite andb_true_iff, Z.leb_le, Z.ltb_lt. lia.
Qed.

Lemma fits_usize_false x : fits_usize x = false <-> ~ is_usize x.
Proof. rewrite <- fits_usize_true. destruct (fits_usize x); naive_solver. Qed.

Lemma usize_add_ok a b : is_usize (a + b) -> usize_add a b = Ok (a + b).
Proof. intros H%fits_usize_true. unfold usize_add. by rewrite H. Qed.

Lemma usize_sub_ok a b : is_usize (a - b) -> usize_sub a b = Ok (a - b).
Proof. intros H%fits_usize_true. unfold usize_sub. by rewrite H. Qed.

Lemma usize_mul_ok a b : is_usize (a * b) -> usize_mul a b = Ok (a * b).
Proof. intros H%fits_usize_true. unfold usize_mul. by rewrite H. Qed.

Lemma usize_add_inv a b c : usize_add a b = Ok c -> c = a + b /\ is_usize c.
Proof.
  unfold usize_add. destruct (fits_usize (a + b)) eqn:E; [|done].
  intros [= <-]. by apply fits_usize_true in E.
Qed.

Lemma usize_sub_inv a b c : usize_sub a b = Ok c -> c = a - b /\ is_usize c.
Proof.
  unfold usize_sub. destruct (fits_usize (a - b)) eqn:E; [|done].
  intros [= <-]. by apply fits_usize_true in E.
Qed.

Lemma checked_mul_inv a b c : checked_mul a b = Some c -> c = a * b /\ is_usize c.
Proof.
  unfold checked_mul. destruct (fits_usize (a * b)) eqn:E; [|done].
  intros [= <-]. by apply fits_usize_true in E.
Qed.

Lemma checked_mul_some a b : is_usize (a * b) -> checked_mul a b = Some (a * b).
Proof. intros H%fits_usize_true. unfold checked_mul. by rewrite H. Qed.

Lemma checked_mul_none a b : ~ is_usize (a * b) -> checked_mul a b = None.
Proof. intros H%fits_usize_false. unfold checked_mul. by rewrite H. Qed.

Lemma is_multiple_of_divide a b : b <> 0 -> is_multiple_of a b = true <-> (b | a).
Proof.
  intros Hb. unfold is_multiple_of. destruct (Z.eqb_spec b 0); [done|].
  rewrite Z.eqb_eq. by apply Z.mod_divide.
Qed.

Lemma div_ceil_spec a b : 0 < b -> (div_ceil a b - 1) * b < a <= div_ceil a b * b.
Proof.
  intros Hb. unfold div_ceil.
  pose proof (Z.div_mod a b ltac:(lia)). pose proof (Z.mod_pos_bound a b Hb).
  destruct (Z.ltb_spec 0 (a mod b)); nia.
Qed.

Lemma div_ceil_bound a b n : 0 < b -> div_ceil a b <= n <-> a <= n * b.
Proof.
  intros Hb. pose proof (div_ceil_spec a b Hb). split; intros; nia.
Qed.

Lemma div_ceil_nonneg a b : 0 < b -> 0 <= a -> 0 <= div_ceil a b.
Proof. intros Hb Ha. pose proof (div_ceil_spec a b Hb). nia. Qed.

Lemma bit_length_le x n : 0 <= n -> 0 <= x -> bit_length x <= n <-> x < 2 ^ n.
Proof.
  intros Hn Hx. unfold bit_length. destruct (Z.leb_spec x 0).
  - assert (0 < 2 ^ n) by (apply Z.pow_pos_nonneg; lia). lia.
  - rewrite Z.add_1_r, Z.le_succ_l. symmetry. apply Z.log2_lt_pow2. lia.
Qed.

Lemma bit_length_lt x n : 0 < n -> 0 <= x -> bit_length x < n <-> x < 2 ^ (n - 1).
Proof. intros Hn Hx. rewrite <- bit_length_le by lia. lia. Qed.

(** Shifting right by [n] yields zero exactly below [2^n]. *)
Lemma shiftr_eq_0_iff x n : 0 <= n -> 0 <= x -> Z.shiftr x n = 0 <-> x < 2 ^ n.
Proof.
  intros Hn Hx. rewrite Z.shiftr_div_pow2 by lia.
  assert (0 < 2 ^ n) by (apply Z.pow_pos_nonneg; lia).
  split; intros H0.
  - apply Z.div_small_iff in H0; lia.
  - apply Z.div_small; lia.
Qed.

Lemma lnot64_lnot x : is_usize x -> lnot64 x = Z.lnot x mod USIZE_MODULUS.
Proof.
  unfold lnot64, is_usize, Z.lnot. intros Hx.
  replace (Z.pred (- x)) with (USIZE_MAX - x + (-1) * USIZE_MODULUS) by lia.
  rewrite Z.mod_add by lia. symmetry. apply Z.mod_small. lia.
Qed.

Lemma lnot64_testbit x i :
  is_usize x -> 0 <= i -> Z.testbit (lnot64 x) i = (i <? 64) && negb (Z.testbit x i).
Proof.
  intros Hx Hi. rewrite lnot64_lnot by done.
  change USIZE_MODULUS with (2 ^ 64).
  destruct (Z.ltb_spec i 64).
  - rewrite Z.mod_pow2_bits_low, Z.lnot_spec by lia. done.
  - by rewrite Z.mod_pow2_bits_high by lia.
Qed.

(** A value below [2^n] has no bit at or above [n]. *)
Lemma testbit_high x n i : 0 <= x < 2 ^ n -> n <= i -> Z.testbit x i = false.
Proof.
  intros Hx Hi. destruct (decide (x = 0)) as [->|]; [apply Z.bits_0|].
  assert (0 <= n). { destruct (Z.le_gt_cases 0 n); [done|]. rewrite Z.pow_neg_r in Hx; lia. }
  apply Z.bits_above_log2; [lia|]. apply Z.log2_lt_pow2; [lia|].
  apply Z.lt_le_trans with (2 ^ n); [lia|]. apply Z.pow_le_mono_r; lia.
Qed.

(** Disjoint halves of a word: the bitwise or of a multiple of [2^n] and a value
    below [2^n] is their sum. *)
Lemma lor_shiftl_add x y n : 0 <= n -> 0 <= y < 2 ^ n -> Z.lor (Z.shiftl x n) y = x * 2 ^ n + y.
Proof.
  intros Hn Hy. rewrite <- Z.shiftl_mul_pow2 by lia.
  rewrite <- Z.add_lor_land.
  enough (Z.land (Z.shiftl x n) y = 0) by lia.
  apply Z.bits_inj'. intros i Hi. rewrite Z.bits_0, Z.land_spec.
  destruct (Z.lt_ge_cases i n).
  - by rewrite Z.shiftl_spec_low by lia.
  - rewrite (testbit_high y n i) by lia. by rewrite andb_false_r.
Qed.

(** The bind of the state monad, unfolded on each outcome of its head. *)
Lemma bindM_ok {S A B} (c : M S A) (k : A -> M S B) s s' a :
  c s = (s', Ok a) -> bindM c k s = k a s'.
Proof. unfold bindM. by intros ->. Qed.

Lemma bindM_err {S A B} (c : M S A) (k : A -> M S B) s s' e :
  c s = (s', Err e) -> bindM c k s = (s', Err e).
Proof. unfold bindM. by intros ->. Qed.

Lemma bindM_lift {S A B} (a : A) (k : A -> M S B) s : bindM (liftM (Ok a)) k s = k a s.
Proof. done. Qed.

Lemma bindM_inv_ok {S A B} (c : M S A) (k : A -> M S B) s s'' b :
  bindM c k s = (s'', Ok b) -> exists s' a, c s = (s', Ok a) /\ k a s' = (s'', Ok b).
Proof. unfold bindM. intros H. split_cases_in H; eauto. Qed.

(** [trailing_ones] is the position of the lowest zero bit. *)
Lemma trailing_ones_from_spec fuel x i :
  0 <= i -> (exists j, i <= j < i + Z.of_nat fuel /\ Z.testbit x j = false) ->
  let t := trailing_ones_from fuel x i in
  i <= t < i + Z.of_nat fuel /\ Z.testbit x t = false /\
  forall j, i <= j < t -> Z.testbit x j = true.
Proof.
  revert i. induction fuel as [|fuel IH]; intros i Hi (j & Hj & Hb); [lia|].
  cbn [trailing_ones_from]. destruct (Z.testbit x i) eqn:E.
  - destruct (IH (i + 1)) as (H1 & H2 & H3); [lia| |].
    { exists j. split; [|done]. assert (j <> i) by congruence. lia. }
    split; [lia|]. split; [done|]. intros k Hk. destruct (decide (k = i)) as [->|]; [done|].
    apply H3. lia.
  - split; [lia|]. split; [done|]. intros k Hk. lia.
Qed.

Lemma index_ok {A} (l : list A) i a :
  index l i = Ok a <-> 0 <= i /\ l !! Z.to_nat i = Some a.
Proof.
  unfold index, unwrap_some. destruct (Z.leb_spec 0 i).
  - destruct (l !! Z.to_nat i); split; [intros [= ->]|intros [_ [= ->]]|done|intros [_ ?]]; done.
  - split; [done|lia].
Qed.

Lemma index_in_range {A} (l : list A) i :
  0 <= i < Z.of_nat (length l) -> exists a, index l i = Ok a.
Proof.
  intros Hi. destruct (lookup_lt_is_Some_2 l (Z.to_nat i)) as [a Ha]; [lia|].
  exists a. apply index_ok. split; [lia|done].
Qed.

Lemma index_set_ok {A} (l : list A) i a :
  0 <= i < Z.of_nat (length l) -> index_set l i a = Ok (<[Z.to_nat i := a]> l).
Proof. intros Hi. unfold index_set. by destruct (index_in_range l i Hi) as [x ->]. Qed.

Lemma filter_ext_elem {A} (P Q : A -> Prop)
    `{!forall x, Decision (P x)} `{!forall x, Decision (Q x)} (l : list A) :
  (forall x, x ∈ l -> P x <-> Q x) -> filter P l = filter Q l.
Proof.
  induction l as [|x l IH]; intros Heq; [done|]. rewrite !filter_cons.
  rewrite (decide_ext (P x) (Q x)) by (apply Heq; left).
  rewrite IH; [done|]. intros y Hy. apply Heq. by right.
Qed.

Lemma filter_all_elem {A} (P : A -> Prop) `{!forall x, Decision (P x)} (l : list A) :
  (forall x, x ∈ l -> P x) -> filter P l = l.
Proof.
  induction l as [|x l IH]; intros Hall; [done|].
  rewrite filter_cons, decide_True by (apply Hall; left).
  f_equal. apply IH. intros y Hy. apply Hall. by right.
Qed.

Lemma sum_app a b : sum (a ++ b) = sum a + sum b.
Proof. unfold sum. induction a as [|x a IH]; cbn [app foldr]; lia. Qed.

(** Counting: emptying a predicate at one element of a duplicate-free list removes
    exactly one element from the filtered list. *)
Lemma length_filter_remove {A} (P Q : A -> Prop)
    `{!forall x, Decision (P x)} `{!forall x, Decision (Q x)} (l : list A) (n : A) :
  NoDup l -> n ∈ l -> P n -> ~ Q n -> (forall x, x ∈ l -> x <> n -> P x <-> Q x) ->
  length (filter P l) = S (length (filter Q l)).
Proof.
  intros Hnd Hin HP HQ Heq. induction l as [|x l IH]; [by apply not_elem_of_nil in Hin|].
  apply NoDup_cons in Hnd as [Hx Hnd]. rewrite !filter_cons.
  apply elem_of_cons in Hin as [->|Hin].
  - rewrite decide_True, decide_False by done. cbn. f_equal. f_equal.
    apply filter_ext_elem. intros y Hy. apply Heq; [by right|by intros ->].
  - assert (x <> n) by (by intros ->).
    rewrite (decide_ext (P x) (Q x)) by (apply Heq; [left|done]).
    assert (length (filter P l) = S (length (filter Q l))) as Hl.
    { apply IH; [done..|]. intros y Hy. apply Heq. by right. }
    destruct (decide (Q x)); cbn; lia.
Qed.

(** Cutting a list into pieces of one width and joining them again. *)
Lemma reshape_uniform {A} (width n : nat) (l : list A) :
  length l = (n * width)%nat ->
  Forall (fun row => length row = width) (reshape (replicate n width) l).
Proof.
  revert l. induction n as [|n IH]; intros l H; simpl; [constructor |].
  constructor; [rewrite length_take_le; lia |].
  apply IH. rewrite length_drop. lia.
Qed.

Lemma join_rows {A} (width n : nat) (l : list A) :
  length l = (n * width)%nat -> mjoin (reshape (replicate n width) l) = l.
Proof.
  revert l. induction n as [|n IH]; intros l H; simpl.
  - by destruct l.
  - rewrite IH by (rewrite length_drop; lia). apply take_drop.
Qed.

#[export] Hint Resolve usize_add_ok usize_sub_ok usize_mul_ok : nikka.
