(* ===== verification/Addr.v ===== *)
(** * Addr: physical, virtual and port addresses

    Models [ku/src/memory/addr.rs] and the address part of
    [ku/src/memory/port.rs].  An [Addr<T>] is a transparent wrapper around a
    [usize]; the phantom tag [T] selects which words are addresses.  Here the
    word is a [Z] and the trait [Tag] is a record of operations, so that the
    generic code takes the tag as an argument. *)

From S2P Require Import Prelude.
From stdpp Require Import base list numbers tactics.
From Stdlib Require Import ZArith Lia.

Open Scope Z_scope.
Open Scope outcome_scope.

(** ** MMU geometry *)

Definition PAGE_OFFSET_BITS : Z := 12.
Definition PAGE_TABLE_INDEX_BITS : Z := 9.
Definition PAGE_TABLE_ENTRY_COUNT : Z := 512.
Definition PAGE_TABLE_INDEX_MASK : Z := 511.
Definition PAGE_TABLE_LEAF_LEVEL : Z := 0.
Definition PAGE_TABLE_ROOT_LEVEL : Z := 3.
Definition PAGE_TABLE_LEVEL_COUNT : Z := 4.

(** ** The trait [Tag] *)

Record Tag := mkTag {
  tag_new : Z -> outcome Z;
  is_same_half : Z -> Z -> bool;
  BITS : Z;
}.

(** A word is an address of the tag when the checked constructor accepts it. *)
Definition valid (T : Tag) (a : Z) : Prop := is_usize a /\ tag_new T a = Ok a.

(** What the generic address, page and block code relies on: the constructor
    either accepts the word unchanged or answers [InvalidArgument], and the
    addresses of one half form an interval. *)
Class TagLaws (T : Tag) : Prop := {
  tag_new_cases a : tag_new T a = Ok a \/ tag_new T a = Err InvalidArgument;
  same_half_refl a : is_same_half T a a = true;
  same_half_sym a b : is_same_half T a b = is_same_half T b a;
  same_half_trans a b c :
    valid T a -> valid T b -> valid T c ->
    is_same_half T a b = true -> is_same_half T b c = true -> is_same_half T a c = true;
  half_convex a b c :
    valid T a -> valid T c -> is_same_half T a c = true -> a <= b <= c ->
    valid T b /\ is_same_half T a b = true;
}.

(** ** Physical addresses *)

Module Phys.

Definition PHYS_BITS : Z := 52.
Definition UNUSED_BITS : Z := USIZE_BITS - PHYS_BITS.

Definition new_impl (addr : Z) : outcome Z :=
  if UNUSED_BITS <=? leading_zeros addr then Ok addr else Err InvalidArgument.

Definition new_u32 (addr : Z) : Z := addr.

End Phys.

Definition PhysTag : Tag := {|
  tag_new := Phys.new_impl;
  is_same_half := fun _ _ => true;
  BITS := Phys.PHYS_BITS;
|}.

(** ** Virtual addresses *)

Module Virt.

Definition VIRT_BITS : Z :=
  PAGE_TABLE_INDEX_BITS * (PAGE_TABLE_ROOT_LEVEL + 1) + PAGE_OFFSET_BITS.
Definition UNUSED_BITS : Z := USIZE_BITS - VIRT_BITS.
Definition NEGATIVE_SIGN_EXTEND : Z := shl64 (lnot64 0) VIRT_BITS.

Definition new_impl (addr : Z) : outcome Z :=
  if (UNUSED_BITS <? leading_zeros addr) || (UNUSED_BITS <? leading_ones addr)
  then Ok addr
  else Err InvalidArgument.

Definition canonize (addr : Z) : Z :=
  if lnot64 NEGATIVE_SIGN_EXTEND / 2 <? addr
  then Z.lor addr NEGATIVE_SIGN_EXTEND
  else addr.

Definition half_size : Z := Z.shiftl 1 (VIRT_BITS - 1).
Definition higher_half : outcome Z := unwrap (new_impl (shl64 (lnot64 0) (VIRT_BITS - 1))).
Definition lower_half : Z := 0.

Definition is_lower_half (addr : Z) : bool := Z.shiftr addr VIRT_BITS =? 0.
Definition is_higher_half (addr : Z) : bool := negb (is_lower_half addr).

Definition same_half (x y : Z) : bool := Z.shiftr (Z.lxor x y) (VIRT_BITS - 1) =? 0.

Definition page_table_index (addr level : Z) : Z :=
  let shift := PAGE_OFFSET_BITS + level * PAGE_TABLE_INDEX_BITS in
  Z.land (Z.shiftr addr shift) PAGE_TABLE_INDEX_MASK.

(** [page_table_indexes] is indexed by level: its head is the leaf index. *)
Definition from_page_table_indexes (page_table_indexes : list Z) (offset : Z) : outcome Z :=
  assert! forallb (fun index => index <? PAGE_TABLE_ENTRY_COUNT) page_table_indexes in
  assert! offset <? shl64 1 PAGE_OFFSET_BITS in
  let virt :=
    foldl (fun virt index => Z.lor (shl64 virt PAGE_TABLE_INDEX_BITS) index)
      0 (reverse page_table_indexes) in
  let virt := Z.lor (shl64 virt PAGE_OFFSET_BITS) offset in
  Ok (canonize virt).

(** The pointer conversions, for a pointee of the given alignment; the pointer
    itself is the address. *)
Definition try_into_ptr (addr align : Z) : outcome Z :=
  if is_multiple_of addr align then Ok addr else Err InvalidAlignment.

Definition try_into_ref (addr align : Z) : outcome Z :=
  let? ptr := try_into_ptr addr align in
  if ptr =? 0 then Err Null else Ok ptr.

Definition try_into_slice (addr align len : Z) : outcome (Z * Z) :=
  let? ptr := try_into_ptr addr align in
  if ptr =? 0 then Err Null else Ok (ptr, len).

End Virt.

Definition VirtTag : Tag := {|
  tag_new := Virt.new_impl;
  is_same_half := Virt.same_half;
  BITS := Virt.VIRT_BITS;
|}.

(** ** Ports of a data type of [size] bytes *)

Module Port.

Definition PORT_BITS : Z := 16.
Definition UNUSED_BITS : Z := USIZE_BITS - PORT_BITS.

Definition new_impl (size addr : Z) : outcome Z :=
  if (UNUSED_BITS <=? leading_zeros addr) && is_multiple_of addr size
  then Ok addr
  else Err InvalidArgument.

Definition try_from_u16 (size port : Z) : outcome Z := new_impl size port.

(** [IndexDataPortPair::from_index_port]: the index port and the data port that
    follows it. *)
Definition from_index_port (size index_port : Z) : outcome (Z * Z) :=
  let? index := try_from_u16 size index_port in
  let? next := ok_or (if index_port + size <? 65536 then Some (index_port + size) else None)
                 Overflow in
  let? data := try_from_u16 size next in
  Ok (index, data).

End Port.

Definition PortTag (size : Z) : Tag := {|
  tag_new := Port.new_impl size;
  is_same_half := fun _ _ => true;
  BITS := Port.PORT_BITS;
|}.

(** ** Generic address arithmetic *)

Section AddrOps.
  Context (T : Tag).

Definition addr_new (addr : Z) : outcome Z := tag_new T addr.

Definition addr_zero : Z := 0.

Definition check_half (self addr : Z) : outcome Z :=
  if is_same_half T self addr then Ok addr else Err Overflow.

Definition addr_add (self rhs : Z) : outcome Z :=
  let? sum := ok_or (checked_add self rhs) Overflow in
  let? addr := addr_new sum in
  check_half self addr.

Definition addr_sub (self rhs : Z) : outcome Z :=
  let? diff := ok_or (checked_sub self rhs) Overflow in
  let? addr := addr_new diff in
  check_half self addr.

Definition addr_diff (self rhs : Z) : outcome Z :=
  if is_same_half T self rhs
  then ok_or (checked_sub self rhs) Overflow
  else Err Overflow.

End AddrOps.

(** ** Which words are addresses *)

Abbreviation LOWER_END := 140737488355328.
Abbreviation HIGHER_START := 18446603336221196288.
Abbreviation PHYS_END := 4503599627370496.

(** The addresses of the two halves, arithmetically. *)
Definition canonical (a : Z) : Prop := 0 <= a < LOWER_END \/ HIGHER_START <= a < USIZE_MODULUS.

Lemma leading_zeros_gt x n :
  0 <= n < 64 -> is_usize x -> (n <? leading_zeros x) = (x <? 2 ^ (63 - n)).
Proof.
  intros Hn Hx. unfold leading_zeros.
  pose proof (bit_length_le x (63 - n) ltac:(lia) ltac:(unfold is_usize in Hx; lia)).
  destruct (Z.ltb_spec n (64 - bit_length x)), (Z.ltb_spec x (2 ^ (63 - n))); lia.
Qed.

Lemma lnot64_usize x : is_usize x -> is_usize (lnot64 x).
Proof. unfold is_usize, lnot64. lia. Qed.

Lemma phys_new_spec a :
  is_usize a -> Phys.new_impl a = if a <? PHYS_END then Ok a else Err InvalidArgument.
Proof.
  intros Ha. unfold Phys.new_impl.
  replace (Phys.UNUSED_BITS <=? leading_zeros a) with (11 <? leading_zeros a).
  - by rewrite leading_zeros_gt by (auto; lia).
  - unfold Phys.UNUSED_BITS, Phys.PHYS_BITS.
    destruct (Z.ltb_spec 11 (leading_zeros a)), (Z.leb_spec (64 - 52) (leading_zeros a)); lia.
Qed.

Lemma virt_new_spec a :
  is_usize a ->
  Virt.new_impl a =
    if (a <? LOWER_END) || (HIGHER_START <=? a) then Ok a else Err InvalidArgument.
Proof.
  intros Ha. unfold Virt.new_impl, leading_ones. change Virt.UNUSED_BITS with 16.
  rewrite !leading_zeros_gt by (auto using lnot64_usize; lia).
  replace (lnot64 a <? 2 ^ (63 - 16)) with (HIGHER_START <=? a); [done|].
  unfold lnot64. change (2 ^ (63 - 16)) with LOWER_END.
  destruct (Z.leb_spec HIGHER_START a), (Z.ltb_spec (USIZE_MAX - a) LOWER_END); lia.
Qed.

Lemma virt_valid_iff a : valid VirtTag a <-> canonical a.
Proof.
  unfold valid, canonical, is_usize. cbn. split.
  - intros [Ha Hn]. rewrite virt_new_spec in Hn by done. split_cases_in Hn.
    apply orb_true_iff in Heqb as [?|?]; bool_simp; lia.
  - intros H. split; [lia|]. rewrite virt_new_spec by (unfold is_usize; lia).
    destruct (Z.ltb_spec a LOWER_END), (Z.leb_spec HIGHER_START a); cbn; [done..|lia].
Qed.

Lemma phys_valid_iff a : valid PhysTag a <-> 0 <= a < PHYS_END.
Proof.
  unfold valid. cbn. split.
  - intros [Ha Hn]. rewrite phys_new_spec in Hn by done. unfold is_usize in Ha.
    split_cases_in Hn. bool_simp. lia.
  - intros H. assert (is_usize a) by (unfold is_usize; lia). split; [done|].
    rewrite phys_new_spec by done. destruct (Z.ltb_spec a PHYS_END); [done|lia].
Qed.

(** The test of the code compares the bits from the sign bit up. *)
Lemma same_half_div a b : Virt.same_half a b = (a / LOWER_END =? b / LOWER_END).
Proof.
  unfold Virt.same_half. change (Virt.VIRT_BITS - 1) with 47.
  rewrite Z.shiftr_lxor, !Z.shiftr_div_pow2 by lia. change (2 ^ 47) with LOWER_END.
  apply eq_true_iff_eq. rewrite !Z.eqb_eq. apply Z.lxor_eq_0_iff.
Qed.

Lemma canonical_div a :
  canonical a ->
  (a < LOWER_END /\ a / LOWER_END = 0) \/ (HIGHER_START <= a /\ a / LOWER_END = 131071).
Proof.
  intros [Ha|Ha]; [left|right]; split; try lia.
  - apply Z.div_small. lia.
  - symmetry. apply Z.div_unique with (a - HIGHER_START); lia.
Qed.

(** Two canonical addresses are in the same half exactly when both are below or
    both are above the non-canonical hole. *)
Lemma virt_same_half_iff a b :
  canonical a -> canonical b ->
  Virt.same_half a b = true <->
    (a < LOWER_END /\ b < LOWER_END) \/ (HIGHER_START <= a /\ HIGHER_START <= b).
Proof.
  intros Ha%canonical_div Hb%canonical_div. rewrite same_half_div, Z.eqb_eq. lia.
Qed.

#[export] Instance VirtTag_laws : TagLaws VirtTag.
Proof.
  split; cbn -[Z.div].
  - intros a. unfold Virt.new_impl. case_match; auto.
  - intros a. by rewrite same_half_div, Z.eqb_refl.
  - intros a b. rewrite !same_half_div. apply Z.eqb_sym.
  - intros a b c _ _ _. rewrite !same_half_div, !Z.eqb_eq. lia.
  - intros a b c Ha%virt_valid_iff Hc%virt_valid_iff H Hb.
    apply virt_same_half_iff in H; [|done..].
    assert (canonical b) by (unfold canonical in *; lia).
    rewrite virt_valid_iff. split; [done|]. apply virt_same_half_iff; [done..|].
    unfold canonical in *. lia.
Qed.

#[export] Instance PhysTag_laws : TagLaws PhysTag.
Proof.
  split; cbn; try done.
  - intros a. unfold Phys.new_impl. case_match; auto.
  - intros a b c Ha%phys_valid_iff Hc%phys_valid_iff _ Hb. split; [|done].
    rewrite phys_valid_iff. lia.
Qed.

(** ** Address arithmetic *)

Section AddrLemmas.
  Context {T : Tag} `{!TagLaws T}.

Lemma valid_usize a : valid T a -> is_usize a.
Proof. by intros [? _]. Qed.

Lemma tag_new_ok_inv a b : tag_new T a = Ok b -> b = a.
Proof. destruct (tag_new_cases a) as [->| ->]; congruence. Qed.

Lemma tag_new_invalid a : is_usize a -> ~ valid T a -> tag_new T a = Err InvalidArgument.
Proof. intros Ha Hv. destruct (tag_new_cases a); [|done]. by destruct Hv. Qed.

Lemma valid_new a : valid T a -> tag_new T a = Ok a.
Proof. by intros [_ ?]. Qed.

(** The exact set of results of [Addr + usize]. *)
Lemma addr_add_spec a n b :
  valid T a -> 0 <= n ->
  addr_add T a n = Ok b <-> b = a + n /\ valid T (a + n) /\ is_same_half T a (a + n) = true.
Proof.
  intros Ha Hn. unfold addr_add, addr_new, check_half, checked_add, ok_or.
  apply valid_usize in Ha as Hu. split.
  - intros H. destruct (fits_usize (a + n)) eqn:Hf; [|done].
    apply fits_usize_true in Hf. split_cases_in H. simplify_eq.
    apply tag_new_ok_inv in Heqo as Heq. subst. unfold valid. done.
  - intros (-> & Hv & Hs). pose proof (valid_usize _ Hv) as Hf%fits_usize_true.
    by rewrite Hf, (valid_new _ Hv), Hs.
Qed.

Lemma addr_sub_spec a n b :
  valid T a -> 0 <= n ->
  addr_sub T a n = Ok b <-> b = a - n /\ valid T (a - n) /\ is_same_half T a (a - n) = true.
Proof.
  intros Ha Hn. unfold addr_sub, addr_new, check_half, checked_sub, ok_or.
  apply valid_usize in Ha as Hu. split.
  - intros H. destruct (fits_usize (a - n)) eqn:Hf; [|done].
    apply fits_usize_true in Hf. split_cases_in H. simplify_eq.
    apply tag_new_ok_inv in Heqo as Heq. subst. unfold valid. done.
  - intros (-> & Hv & Hs). pose proof (valid_usize _ Hv) as Hf%fits_usize_true.
    by rewrite Hf, (valid_new _ Hv), Hs.
Qed.

End AddrLemmas.

#[export] Hint Resolve valid_usize valid_new : nikka.

(** The checked constructor of virtual addresses accepts exactly the
    canonical words, the two halves [0, 2^47) and [2^64 - 2^47, 2^64), returns
    an accepted word unchanged, and answers every other word with
    [InvalidArgument]. *)
Theorem virt_new_canonical a :
  is_usize a ->
  (canonical a /\ addr_new VirtTag a = Ok a) \/
  (~ canonical a /\ addr_new VirtTag a = Err InvalidArgument).
Proof.
  intros Ha. unfold addr_new. rewrite <- virt_valid_iff. unfold valid.
  destruct (tag_new_cases (T := VirtTag) a) as [E|E]; [by left|right].
  split; [|done]. intros [_ ?]. congruence.
Qed.

Lemma virt_new_canonical_witness :
  addr_new VirtTag LOWER_END = Err InvalidArgument /\ addr_new VirtTag HIGHER_START = Ok HIGHER_START.
Proof.
  split.
  - destruct (virt_new_canonical LOWER_END) as [[H _]|[_ H]];
      [unfold is_usize; lia|unfold canonical in H; lia|exact H].
  - destruct (virt_new_canonical HIGHER_START) as [[_ H]|[H _]];
      [unfold is_usize; lia|exact H|exfalso; apply H; unfold canonical; lia].
Defined.

(** Address addition is exact or fails: when [a + n] succeeds the result is
    the mathematical sum, a valid address of the same half as [a] (so virtual
    arithmetic never crosses the non-canonical hole), and subtracting [n] again
    returns [a]. *)
Theorem addr_add_sub_roundtrip (T : Tag) `{!TagLaws T} a n b :
  valid T a -> 0 <= n -> addr_add T a n = Ok b ->
  b = a + n /\ valid T b /\ is_same_half T a b = true /\ addr_sub T b n = Ok a.
Proof.
  intros Ha Hn H. apply addr_add_spec in H as (-> & Hv & Hs); [|done..].
  repeat split; [apply Hv..|done|]. apply addr_sub_spec; [done..|].
  replace (a + n - n) with a by lia. by rewrite same_half_sym.
Qed.

Lemma addr_add_sub_roundtrip_witness :
  addr_sub VirtTag (LOWER_END - 1) 4095 = Ok (LOWER_END - 4096).
Proof.
  apply (addr_add_sub_roundtrip VirtTag (LOWER_END - 4096) 4095 (LOWER_END - 1)).
  - apply virt_valid_iff. unfold canonical. lia.
  - lia.
  - reflexivity.
Defined.

(** ** Canonization and page table indexes *)

Lemma canonize_spec a :
  is_usize a ->
  Virt.canonize a = if a <? LOWER_END then a else Z.lor a (Z.shiftl 65535 48).
Proof.
  intros Ha. unfold Virt.canonize. change Virt.NEGATIVE_SIGN_EXTEND with (Z.shiftl 65535 48).
  change (lnot64 (Z.shiftl 65535 48) / 2) with (LOWER_END - 1).
  destruct (Z.ltb_spec (LOWER_END - 1) a), (Z.ltb_spec a LOWER_END); lia || done.
Qed.

(** Canonization of a 48-bit word: sign extension. *)
Lemma canonize_48 w :
  0 <= w < 2 ^ 48 ->
  Virt.canonize w = if w <? LOWER_END then w else w + (USIZE_MODULUS - 2 ^ 48).
Proof.
  intros Hw. rewrite canonize_spec by (unfold is_usize; lia).
  destruct (Z.ltb_spec w LOWER_END); [done|].
  rewrite Z.lor_comm, lor_shiftl_add by lia. lia.
Qed.

Lemma canonize_48_canonical w : 0 <= w < 2 ^ 48 -> canonical (Virt.canonize w).
Proof.
  intros Hw. rewrite canonize_48 by done. unfold canonical.
  destruct (Z.ltb_spec w LOWER_END); lia.
Qed.

Lemma page_table_index_div a level :
  0 <= level -> Virt.page_table_index a level = a / 2 ^ (12 + level * 9) mod 512.
Proof.
  intros Hl. unfold Virt.page_table_index, PAGE_OFFSET_BITS, PAGE_TABLE_INDEX_BITS.
  change PAGE_TABLE_INDEX_MASK with (Z.ones 9).
  by rewrite Z.land_ones, Z.shiftr_div_pow2 by lia.
Qed.

Lemma page_table_index_bound a level :
  0 <= level -> 0 <= Virt.page_table_index a level < 512.
Proof. intros Hl. rewrite page_table_index_div by done. apply Z.mod_pos_bound. lia. Qed.

(** Sign extension leaves the four index fields and the offset alone. *)
Lemma page_table_index_canonize w level :
  0 <= w < 2 ^ 48 -> 0 <= level <= 3 ->
  Virt.page_table_index (Virt.canonize w) level = Virt.page_table_index w level.
Proof.
  intros Hw Hl. rewrite !page_table_index_div, canonize_48 by lia.
  destruct (Z.ltb_spec w LOWER_END); [done|].
  assert (level = 0 \/ level = 1 \/ level = 2 \/ level = 3) as Hc by lia.
  replace (USIZE_MODULUS - 2 ^ 48)
    with (65535 * 2 ^ (27 - level * 9) * 512 * 2 ^ (12 + level * 9))
    by (destruct Hc as [->|[->|[->| ->]]]; reflexivity).
  rewrite Z.div_add by (apply Z.pow_nonzero; lia).
  by rewrite Z.mod_add by lia.
Qed.

(** The word assembled by the loop of [from_page_table_indexes]. *)
Definition index_word (i0 i1 i2 i3 offset : Z) : Z :=
  (((i3 * 512 + i2) * 512 + i1) * 512 + i0) * 4096 + offset.

Lemma shl64_small x n : 0 <= n -> 0 <= x * 2 ^ n < USIZE_MODULUS -> shl64 x n = Z.shiftl x n.
Proof. intros Hn Hx. unfold shl64. rewrite Z.shiftl_mul_pow2 by lia. by apply Z.mod_small. Qed.

Lemma shl64_lor x y n :
  0 <= n -> 0 <= x * 2 ^ n < USIZE_MODULUS -> 0 <= y < 2 ^ n ->
  Z.lor (shl64 x n) y = x * 2 ^ n + y.
Proof. intros Hn Hx Hy. rewrite shl64_small by done. by apply lor_shiftl_add. Qed.

Lemma from_page_table_indexes_word i0 i1 i2 i3 offset :
  0 <= i0 < 512 -> 0 <= i1 < 512 -> 0 <= i2 < 512 -> 0 <= i3 < 512 -> 0 <= offset < 4096 ->
  Virt.from_page_table_indexes [i0; i1; i2; i3] offset =
    Ok (Virt.canonize (index_word i0 i1 i2 i3 offset)).
Proof.
  intros H0 H1 H2 H3 Ho. unfold Virt.from_page_table_indexes.
  change (shl64 1 PAGE_OFFSET_BITS) with 4096. change PAGE_TABLE_ENTRY_COUNT with 512.
  cbn [forallb]. rewrite !(proj2 (Z.ltb_lt _ _)) by lia. cbn [andb].
  change (reverse [i0; i1; i2; i3]) with [i3; i2; i1; i0]. cbn [foldl].
  unfold PAGE_TABLE_INDEX_BITS, PAGE_OFFSET_BITS, index_word.
  do 2 f_equal. rewrite (shl64_lor 0 i3), (shl64_lor _ i2), (shl64_lor _ i1), (shl64_lor _ i0),
    (shl64_lor _ offset) by lia.
  lia.
Qed.

Lemma index_word_index i0 i1 i2 i3 offset :
  0 <= i0 < 512 -> 0 <= i1 < 512 -> 0 <= i2 < 512 -> 0 <= i3 < 512 -> 0 <= offset < 4096 ->
  let w := index_word i0 i1 i2 i3 offset in
  0 <= w < 2 ^ 48 /\ w mod 4096 = offset /\
  Virt.page_table_index w 0 = i0 /\ Virt.page_table_index w 1 = i1 /\
  Virt.page_table_index w 2 = i2 /\ Virt.page_table_index w 3 = i3.
Proof.
  intros H0 H1 H2 H3 Ho w. unfold w, index_word.
  split; [lia|]. split; [symmetry; eapply Z.mod_unique with (q := ((i3 * 512 + i2) * 512 + i1) * 512 + i0); lia|].
  rewrite !page_table_index_div by lia. cbn [Z.mul Z.add Pos.mul Pos.add].
  assert (Hdiv : forall q r d, 0 <= r < d -> (q * d + r) / d = q).
  { intros q r d Hr. rewrite Z.div_add_l by lia. rewrite Z.div_small by lia. lia. }
  assert (Hmod : forall q r, 0 <= r < 512 -> (q * 512 + r) mod 512 = r).
  { intros q r Hr. rewrite Z.add_comm, Z.mod_add by lia. by apply Z.mod_small. }
  repeat split.
  - rewrite (Hdiv _ offset (2 ^ 12)) by lia. by apply Hmod.
  - replace (_ + offset) with (((i3 * 512 + i2) * 512 + i1) * 2 ^ 21 + (i0 * 4096 + offset)) by lia.
    rewrite Hdiv by lia. by apply Hmod.
  - replace (_ + offset) with ((i3 * 512 + i2) * 2 ^ 30 + (i1 * 512 * 4096 + i0 * 4096 + offset)) by lia.
    rewrite Hdiv by lia. by apply Hmod.
  - replace (_ + offset)
      with (i3 * 2 ^ 39 + (i2 * 512 * 512 * 4096 + i1 * 512 * 4096 + i0 * 4096 + offset)) by lia.
    rewrite Hdiv by lia. by apply Z.mod_small.
Qed.

(** A word below [2^48] is the word of its own fields. *)
Lemma index_word_fields w :
  0 <= w < 2 ^ 48 ->
  index_word (Virt.page_table_index w 0) (Virt.page_table_index w 1)
    (Virt.page_table_index w 2) (Virt.page_table_index w 3) (w mod 4096) = w.
Proof.
  intros Hw. rewrite !page_table_index_div by lia. unfold index_word.
  change (12 + 0 * 9) with 12. change (12 + 1 * 9) with 21.
  change (12 + 2 * 9) with 30. change (12 + 3 * 9) with 39.
  assert (Hs : forall n, 0 <= n -> w / 2 ^ n = 512 * (w / 2 ^ (n + 9)) + (w / 2 ^ n) mod 512).
  { intros n Hn. rewrite Z.pow_add_r, <- Z.div_div by lia. apply Z.div_mod. lia. }
  pose proof (Hs 12 ltac:(lia)) as E0. pose proof (Hs 21 ltac:(lia)) as E1.
  pose proof (Hs 30 ltac:(lia)) as E2.
  change (12 + 9) with 21 in E0. change (21 + 9) with 30 in E1. change (30 + 9) with 39 in E2.
  pose proof (Z.div_mod w 4096 ltac:(lia)) as Ew. change (2 ^ 12) with 4096 in *.
  assert (w / 2 ^ 39 mod 512 = w / 2 ^ 39) as E3.
  { apply Z.mod_small. split; [apply Z.div_pos; lia|]. apply Z.div_lt_upper_bound; lia. }
  rewrite E3. lia.
Qed.

(** A canonical address is the sign extension of its low 48 bits. *)
Lemma canonical_canonize a : canonical a -> Virt.canonize (a mod 2 ^ 48) = a.
Proof.
  intros Ha. pose proof (Z.mod_pos_bound a (2 ^ 48) ltac:(lia)). rewrite canonize_48 by done.
  destruct Ha as [Ha|Ha].
  - rewrite Z.mod_small by lia. destruct (Z.ltb_spec a LOWER_END); lia.
  - assert (a mod 2 ^ 48 = a - 65535 * 2 ^ 48) as ->
      by (symmetry; eapply Z.mod_unique with (q := 65535); lia).
    destruct (Z.ltb_spec (a - 65535 * 2 ^ 48) LOWER_END); lia.
Qed.

(** Page table indexes and virtual addresses are in bijection: assembling an
    address from four in-range indexes and an offset yields a valid (canonical)
    address whose index at each level and whose offset are the given ones, and
    every canonical address is rebuilt from its own indexes and offset. *)
Theorem page_table_indexes_roundtrip :
  (forall i0 i1 i2 i3 offset,
    0 <= i0 < 512 -> 0 <= i1 < 512 -> 0 <= i2 < 512 -> 0 <= i3 < 512 -> 0 <= offset < 4096 ->
    exists a, Virt.from_page_table_indexes [i0; i1; i2; i3] offset = Ok a /\ canonical a /\
      Virt.page_table_index a 0 = i0 /\ Virt.page_table_index a 1 = i1 /\
      Virt.page_table_index a 2 = i2 /\ Virt.page_table_index a 3 = i3) /\
  (forall a, canonical a ->
    Virt.from_page_table_indexes
      [Virt.page_table_index a 0; Virt.page_table_index a 1;
       Virt.page_table_index a 2; Virt.page_table_index a 3] (a mod 4096) = Ok a).
Proof.
  split.
  - intros i0 i1 i2 i3 offset H0 H1 H2 H3 Ho.
    destruct (index_word_index i0 i1 i2 i3 offset) as (Hw & _ & E0 & E1 & E2 & E3); [done..|].
    eexists. split; [by apply from_page_table_indexes_word|].
    split; [by apply canonize_48_canonical|].
    by rewrite !page_table_index_canonize by lia.
  - intros a Ha. pose proof (Z.mod_pos_bound a (2 ^ 48) ltac:(lia)) as Hw.
    rewrite from_page_table_indexes_word;
      [|apply page_table_index_bound; lia..|apply Z.mod_pos_bound; lia].
    assert (Hidx : forall l, 0 <= l <= 3 ->
              Virt.page_table_index a l = Virt.page_table_index (a mod 2 ^ 48) l).
    { intros l Hl. rewrite <- (page_table_index_canonize (a mod 2 ^ 48)) by lia.
      by rewrite canonical_canonize. }
    rewrite !Hidx by lia.
    replace (a mod 4096) with ((a mod 2 ^ 48) mod 4096)
      by (apply Z.mod_mod_divide; by exists (2 ^ 36)).
    by rewrite index_word_fields, canonical_canonize.
Qed.

(** [Virt::canonize] keeps the low 48 bits of its argument and yields a
    canonical address exactly when the argument is below [2^47] or has bit 47
    set; the remaining words (bit 47 clear, some higher bit set) are mapped to
    a word that is not a virtual address. *)
Theorem canonize_canonical_iff a :
  is_usize a ->
  Virt.canonize a mod 2 ^ 48 = a mod 2 ^ 48 /\
  (canonical (Virt.canonize a) <-> a < LOWER_END \/ Z.testbit a 47 = true).
Proof.
  intros Ha. rewrite canonize_spec by done. unfold is_usize in Ha.
  destruct (Z.ltb_spec a LOWER_END) as [Hlt|Hge].
  { split; [done|]. unfold canonical. lia. }
  pose proof (Z.mod_pos_bound a (2 ^ 48) ltac:(lia)) as Hw.
  assert (Hlor : Z.lor a (Z.shiftl 65535 48) = 65535 * 2 ^ 48 + a mod 2 ^ 48).
  { rewrite <- lor_shiftl_add by lia. apply Z.bits_inj'. intros i Hi. rewrite !Z.lor_spec.
    destruct (Z.lt_ge_cases i 48).
    - rewrite Z.shiftl_spec_low, Z.mod_pow2_bits_low by lia. apply orb_false_r.
    - rewrite Z.mod_pow2_bits_high, orb_false_r, Z.shiftl_spec by lia.
      destruct (Z.lt_ge_cases i 64).
      + change 65535 with (Z.ones 16). rewrite Z.ones_spec_low by lia. apply orb_true_r.
      + change 65535 with (Z.ones 16). rewrite Z.ones_spec_high, (testbit_high a 64) by lia. done. }
  rewrite Hlor. split.
  { rewrite Z.add_comm, Z.mod_add by lia. by apply Z.mod_mod. }
  rewrite <- (Z.mod_pow2_bits_low a 48) by lia.
  assert (Z.testbit (a mod 2 ^ 48) 47 = (LOWER_END <=? a mod 2 ^ 48)) as ->.
  { apply eq_true_iff_eq. rewrite Z.leb_le, Z.testbit_true by lia.
    change (2 ^ 47) with LOWER_END. destruct (Z.le_gt_cases LOWER_END (a mod 2 ^ 48)).
    - split; [done|]. intros _. replace (a mod 2 ^ 48 / LOWER_END) with 1; [done|].
      eapply Z.div_unique with (r := a mod 2 ^ 48 - LOWER_END); lia.
    - rewrite Z.div_small by lia. split; [done|lia]. }
  rewrite Z.leb_le. unfold canonical. lia.
Qed.

Lemma canonize_canonical_iff_witness :
  Virt.canonize (2 ^ 48) mod 2 ^ 48 = 0 /\ ~ canonical (Virt.canonize (2 ^ 48)).
Proof.
  destruct (canonize_canonical_iff (2 ^ 48)) as [H1 H2]; [unfold is_usize; lia|].
  split; [exact H1|]. intros H%H2. vm_compute in H. destruct H; discriminate.
Defined.
