(* ===== verification/Frage.v ===== *)
(** * Frage: frames and pages

    Models [ku/src/memory/frage.rs].  A [Frage<T, SIZE>], a physical frame or a
    virtual page, is a transparent wrapper around its start address, so it is
    represented by that address.  The tag and the size are arguments of every
    operation. *)

From S2P Require Import Prelude Addr.
From stdpp Require Import base list numbers tactics.
From Stdlib Require Import ZArith Lia.

Open Scope Z_scope.
Open Scope outcome_scope.

Definition L0_SIZE : Z := Z.shiftl 1 PAGE_OFFSET_BITS.
Definition L1_SIZE : Z := Z.shiftl 1 (PAGE_TABLE_INDEX_BITS + PAGE_OFFSET_BITS).
Definition L2_SIZE : Z := Z.shiftl 1 (2 * PAGE_TABLE_INDEX_BITS + PAGE_OFFSET_BITS).

Definition ISIZE_MAX : Z := 9223372036854775807.

(** [core::alloc::Layout]: a size and a power-of-two alignment. *)
Record Layout := mkLayout { layout_size : Z; layout_align : Z }.

(** [Layout::from_size_align]: the size rounded up to the alignment must not
    exceed [isize::MAX]; the error converts to [InvalidAlignment]. *)
Definition from_size_align (size align : Z) : outcome Layout :=
  if size <=? ISIZE_MAX + 1 - align then Ok (mkLayout size align) else Err InvalidAlignment.

Section FrageOps.
  Context (T : Tag) (SIZE : Z).

Definition validate_size : bool := (SIZE =? L0_SIZE) || (SIZE =? L1_SIZE) || (SIZE =? L2_SIZE).

Definition L0_COUNT : Z := SIZE / L0_SIZE.

Definition frage_new (addr : Z) : outcome Z :=
  assert! validate_size in
  if is_multiple_of addr SIZE then Ok addr else Err InvalidAlignment.

Definition frage_zero : outcome Z := assert! validate_size in Ok 0.

Definition frage_address (frage : Z) : Z := frage.

Definition frage_address_by_index (index : Z) : outcome Z :=
  assert! validate_size in
  let? address := ok_or (checked_mul index SIZE) Overflow in
  addr_new T address.

Definition containing (addr : Z) : outcome Z :=
  assert! validate_size in
  unwrap (addr_new T (Z.land addr (lnot64 (SIZE - 1)))).

Definition frage_from_index (index : Z) : outcome Z :=
  assert! validate_size in
  let? address := frage_address_by_index index in
  Ok address.

Definition from_index_unchecked (index : Z) : outcome Z :=
  assert! validate_size in usize_mul index SIZE.

Definition index_by_address (address : Z) : outcome Z :=
  assert! validate_size in Ok (address / SIZE).

Definition frage_index (frage : Z) : outcome Z :=
  assert! validate_size in index_by_address (frage_address frage).

Definition frage_layout (size : Z) : outcome Layout :=
  assert! validate_size in from_size_align size SIZE.

Definition layout_array (count : Z) : outcome Layout :=
  assert! validate_size in
  assert! count <=? ISIZE_MAX / SIZE in
  let? size := usize_mul count SIZE in
  Ok (mkLayout size SIZE).

Definition frage_offset (frage address : Z) : outcome Z :=
  assert! validate_size in
  unwrap (addr_add T (frage_address frage) (address mod SIZE)).

Definition frage_add (frage rhs : Z) : outcome Z :=
  let? bytes := usize_mul rhs SIZE in
  let? addr := addr_add T frage bytes in
  frage_new addr.

Definition frage_sub (frage rhs : Z) : outcome Z :=
  let? bytes := usize_mul rhs SIZE in
  let? addr := addr_sub T frage bytes in
  frage_new addr.

Definition frage_diff (frage rhs : Z) : outcome Z :=
  let? bytes := addr_diff T frage rhs in
  Ok (bytes / SIZE).

End FrageOps.

(** ** Virtual pages of any size: the two halves and the [Step] trait *)

Section ElasticPage.
  Context (SIZE : Z).

Definition page_higher_half : outcome Z :=
  let? virt := Virt.higher_half in containing VirtTag SIZE virt.

Definition page_lower_half : outcome Z := containing VirtTag SIZE Virt.lower_half.

Definition higher_half_start_index : outcome Z :=
  let? page := page_higher_half in frage_index SIZE page.

Definition higher_half_end_index : outcome Z := usize_add (USIZE_MAX / SIZE) 1.

Definition lower_half_start_index : outcome Z :=
  let? page := page_lower_half in frage_index SIZE page.

Definition lower_half_end_index : outcome Z :=
  let? start := lower_half_start_index in
  usize_add start (Virt.half_size / SIZE).

(** The number of non-canonical page indexes between the halves. *)
Definition non_canonical_count : outcome Z :=
  let? start := lower_half_end_index in
  let? end_ := higher_half_start_index in
  Ok (Z.max 0 (end_ - start)).

Definition page_is_higher_half (page : Z) : outcome bool :=
  let? start := higher_half_start_index in
  let? index := frage_index SIZE page in
  Ok (start <=? index).

Definition page_is_lower_half (page : Z) : outcome bool :=
  let? index := frage_index SIZE page in
  let? end_ := lower_half_end_index in
  Ok (index <? end_).

Definition steps_between (start end_ : Z) : outcome (Z * option Z) :=
  if start <=? end_ then
    let? start_lower := page_is_lower_half start in
    let? end_lower := page_is_lower_half end_ in
    let? end_index := frage_index SIZE end_ in
    let? start_index := frage_index SIZE start in
    let? distance := usize_sub end_index start_index in
    let? steps :=
      (if Bool.eqb start_lower end_lower then Ok distance
       else let? hole := non_canonical_count in usize_sub distance hole) in
    Ok (steps, Some steps)
  else Ok (0, None).

Definition forward_checked (start count : Z) : outcome (option Z) :=
  let? start_index := frage_index SIZE start in
  match checked_add start_index count with
  | None => Ok None
  | Some advanced =>
      let? lower_end := lower_half_end_index in
      let? advanced :=
        (if (start_index <? lower_end) && (lower_end <=? advanced)
         then let? hole := non_canonical_count in Ok (checked_add advanced hole)
         else Ok (Some advanced)) in
      match advanced with
      | None => Ok None
      | Some advanced =>
          match frage_from_index VirtTag SIZE advanced with
          | Ok page => Ok (Some page)
          | Err _ => Ok None
          | Panic => Panic
          end
      end
  end.

Definition backward_checked (start count : Z) : outcome (option Z) :=
  let? start_index := frage_index SIZE start in
  match checked_sub start_index count with
  | None => Ok None
  | Some advanced =>
      let? higher_start := higher_half_start_index in
      let? advanced :=
        (if (advanced <? higher_start) && (higher_start <=? start_index)
         then let? hole := non_canonical_count in Ok (checked_sub advanced hole)
         else Ok (Some advanced)) in
      match advanced with
      | None => Ok None
      | Some advanced =>
          let? page := unwrap (frage_from_index VirtTag SIZE advanced) in
          Ok (Some page)
      end
  end.

Definition advance_index (page page_count : Z) : outcome Z :=
  let? advanced := forward_checked page page_count in
  match advanced with
  | Some page => frage_index SIZE page
  | None => higher_half_end_index
  end.

End ElasticPage.

(** ** The sizes the MMU supports *)

(** The sizes accepted by [validate_size]. *)
Class SupportedSize (SIZE : Z) : Prop := supported_size : validate_size SIZE = true.

#[export] Instance L0_supported : SupportedSize L0_SIZE.
Proof. done. Qed.

#[export] Instance L1_supported : SupportedSize L1_SIZE.
Proof. done. Qed.

#[export] Instance L2_supported : SupportedSize L2_SIZE.
Proof. done. Qed.

Lemma supported_cases SIZE :
  SupportedSize SIZE -> SIZE = 4096 \/ SIZE = 2097152 \/ SIZE = 1073741824.
Proof.
  unfold SupportedSize, validate_size. rewrite !orb_true_iff, !Z.eqb_eq.
  intros [[->| ->]| ->]; auto.
Qed.

Lemma supported_log2 SIZE :
  SupportedSize SIZE -> exists n, 12 <= n <= 30 /\ SIZE = 2 ^ n.
Proof.
  intros [->|[->| ->]]%supported_cases; [exists 12|exists 21|exists 30]; split; done.
Qed.

(** Evaluates the quotients of literals in the goal and the context. *)
Ltac eval_div :=
  repeat match goal with
  | |- context [Zpos ?a / Zpos ?b] =>
      let v := eval vm_compute in (Zpos a / Zpos b) in change (Zpos a / Zpos b) with v
  | H : context [Zpos ?a / Zpos ?b] |- _ =>
      let v := eval vm_compute in (Zpos a / Zpos b) in change (Zpos a / Zpos b) with v in H
  end.

(** Case analysis on the three page sizes, down to linear arithmetic. *)
Ltac size_cases HS :=
  destruct (supported_cases _ HS) as [->|[->| ->]]; eval_div;
  Z.to_euclidean_division_equations; lia.

Section FrageLemmas.
  Context {T : Tag} `{!TagLaws T} {SIZE : Z} `{HS : !SupportedSize SIZE}.

Lemma supported_pos : 0 < SIZE.
Proof using HS. destruct (supported_cases SIZE HS) as [->|[->| ->]]; lia. Qed.

Lemma frage_index_ok f : frage_index SIZE f = Ok (f / SIZE).
Proof using HS. unfold frage_index, index_by_address. by rewrite supported_size. Qed.

Lemma frage_from_index_spec i f :
  0 <= i -> frage_from_index T SIZE i = Ok f <-> f = i * SIZE /\ valid T f.
Proof using HS TagLaws0.
  intros Hi. unfold frage_from_index, frage_address_by_index, addr_new.
  rewrite supported_size. split.
  - intros H. destruct (checked_mul i SIZE) as [a|] eqn:Hm; [|done].
    apply checked_mul_inv in Hm as [-> Hu]. cbn in H. split_cases_in H. simplify_eq.
    pose proof (tag_new_ok_inv _ _ Heqo) as ->. unfold valid. done.
  - intros [-> Hv]. rewrite checked_mul_some by eauto with nikka. cbn.
    by rewrite (valid_new _ Hv).
Qed.

Lemma frage_from_index_err i :
  0 <= i -> ~ valid T (i * SIZE) ->
  frage_from_index T SIZE i = Err (if fits_usize (i * SIZE) then InvalidArgument else Overflow).
Proof using HS TagLaws0.
  intros Hi Hv. unfold frage_from_index, frage_address_by_index, addr_new, checked_mul.
  rewrite supported_size. destruct (fits_usize (i * SIZE)) eqn:Hf; cbn; [|done].
  apply fits_usize_true in Hf. by rewrite tag_new_invalid.
Qed.

(** Clearing the offset bits is rounding down to a multiple of the size. *)
Lemma land_lnot64_align a : is_usize a -> Z.land a (lnot64 (SIZE - 1)) = a / SIZE * SIZE.
Proof using HS.
  intros Ha. destruct (supported_log2 SIZE HS) as (n & Hn & ->).
  rewrite <- Z.shiftr_div_pow2, <- Z.shiftl_mul_pow2, <- Z.ldiff_ones_r by lia.
  rewrite Z.ones_equiv, <- Z.sub_1_r.
  assert (is_usize (2 ^ n - 1)).
  { unfold is_usize. assert (0 < 2 ^ n) by (apply Z.pow_pos_nonneg; lia).
    assert (2 ^ n <= 2 ^ 30) by (apply Z.pow_le_mono_r; lia). lia. }
  apply Z.bits_inj'. intros i Hi. rewrite Z.land_spec, Z.ldiff_spec, lnot64_testbit by done.
  destruct (Z.ltb_spec i 64); [done|]. by rewrite (testbit_high a 64) by (unfold is_usize in Ha; lia).
Qed.

End FrageLemmas.

Section FrageAlign.
  Context {T : Tag} `{!TagLaws T} {SIZE : Z} `{HS : !SupportedSize SIZE}.

(** Rounding an address down stays within the half: both halves of the virtual
    space and the physical space start at a multiple of every page size. *)
Class AlignedHalves : Prop := {
  round_down_valid a :
    valid T a -> valid T (a / SIZE * SIZE) /\ is_same_half T (a / SIZE * SIZE) a = true;
}.

End FrageAlign.

Arguments AlignedHalves T SIZE : clear implicits.

#[export] Instance VirtTag_aligned SIZE : SupportedSize SIZE -> AlignedHalves VirtTag SIZE.
Proof.
  intros HS. split. intros a Ha%virt_valid_iff.
  assert (canonical (a / SIZE * SIZE) /\
          (a < LOWER_END <-> a / SIZE * SIZE < LOWER_END)) as [Hc Hh].
  { unfold canonical in *. size_cases HS. }
  rewrite virt_valid_iff. split; [done|]. apply virt_same_half_iff; [done..|].
  unfold canonical in *. lia.
Qed.

#[export] Instance PhysTag_aligned SIZE : SupportedSize SIZE -> AlignedHalves PhysTag SIZE.
Proof.
  intros HS. split. intros a Ha%phys_valid_iff. split; [|done]. apply phys_valid_iff.
  size_cases HS.
Qed.

(** The checked conversion of a page or frame number to a page or frame and
    [index] are inverse: a successful conversion of [i] yields the aligned valid
    address [i * SIZE] whose number is [i], and every aligned valid address is
    obtained from its own number. *)
Theorem frage_index_roundtrip (T : Tag) `{!TagLaws T} SIZE `{!SupportedSize SIZE} :
  (forall i f, 0 <= i -> frage_from_index T SIZE i = Ok f ->
     valid T f /\ frage_new SIZE f = Ok f /\ frage_index SIZE f = Ok i) /\
  (forall f, valid T f -> frage_new SIZE f = Ok f ->
     exists i, frage_index SIZE f = Ok i /\ frage_from_index T SIZE i = Ok f).
Proof.
  pose proof (supported_pos (SIZE := SIZE)) as Hpos. split.
  - intros i f Hi [-> Hv]%frage_from_index_spec; [|done]. split; [done|].
    unfold frage_new. rewrite supported_size. split.
    + rewrite (proj2 (is_multiple_of_divide _ SIZE ltac:(lia))); [done|]. by exists i.
    + rewrite frage_index_ok. by rewrite Z.div_mul by lia.
  - intros f Hv Hf. exists (f / SIZE). split; [apply frage_index_ok|].
    apply frage_from_index_spec.
    + apply Z.div_pos; [|lia]. apply valid_usize in Hv. unfold is_usize in Hv. lia.
    + unfold frage_new in Hf. rewrite supported_size in Hf. split_cases_in Hf.
      apply is_multiple_of_divide in Heqb as [q ->]; [|lia]. by rewrite Z.div_mul by lia.
Qed.

Lemma frage_index_roundtrip_witness :
  frage_index L1_SIZE (3 * L1_SIZE) = Ok 3 /\ frage_from_index PhysTag L0_SIZE 7 = Ok 28672.
Proof.
  destruct (frage_index_roundtrip VirtTag L1_SIZE) as [H _].
  destruct (frage_index_roundtrip PhysTag L0_SIZE) as [_ H2].
  split.
  - apply (H 3 (3 * L1_SIZE)); [lia|reflexivity].
  - destruct (H2 28672) as (i & Hi & Hf);
      [apply phys_valid_iff; lia|reflexivity|].
    vm_compute in Hi. injection Hi as <-. exact Hf.
Defined.

(** [containing] never panics on a valid address and returns the page or
    frame that covers it: an aligned valid address of the same half, at most
    [SIZE - 1] bytes below the given one. *)
Theorem containing_covers (T : Tag) `{!TagLaws T} SIZE `{!SupportedSize SIZE}
    `{!AlignedHalves T SIZE} a :
  valid T a ->
  exists f, containing T SIZE a = Ok f /\ frage_new SIZE f = Ok f /\ valid T f /\
    is_same_half T f a = true /\ f <= a < f + SIZE.
Proof.
  intros Ha. pose proof (supported_pos (SIZE := SIZE)) as Hpos.
  destruct (round_down_valid a Ha) as [Hv Hs].
  exists (a / SIZE * SIZE). unfold containing, frage_new, addr_new. rewrite supported_size.
  rewrite land_lnot64_align by eauto with nikka. rewrite (valid_new _ Hv). cbn.
  rewrite (proj2 (is_multiple_of_divide _ SIZE ltac:(lia))) by (by exists (a / SIZE)).
  pose proof (Z.div_mod a SIZE ltac:(lia)). pose proof (Z.mod_pos_bound a SIZE Hpos).
  repeat split; [apply Hv..|done| |]; nia.
Qed.

Lemma containing_covers_witness : exists f, containing VirtTag L2_SIZE (LOWER_END - 1) = Ok f.
Proof.
  destruct (containing_covers VirtTag L2_SIZE (LOWER_END - 1)) as (f & Hf & _);
    [apply virt_valid_iff; unfold canonical; lia|].
  exists f. exact Hf.
Defined.

(** ** The [Step] trait of virtual pages

    The canonical pages, in address order, are numbered without the hole. *)

Definition page_count (SIZE : Z) : Z := 2 ^ 48 / SIZE.
Definition rank (SIZE page : Z) : Z :=
  if page <? LOWER_END then page / SIZE else page / SIZE - (HIGHER_START - LOWER_END) / SIZE.
Definition unrank (SIZE r : Z) : Z :=
  if r <? LOWER_END / SIZE then r * SIZE else r * SIZE + (HIGHER_START - LOWER_END).

Definition is_page (SIZE page : Z) : Prop := canonical page /\ (SIZE | page).

Section StepLemmas.
  Context {SIZE : Z} `{HS : !SupportedSize SIZE}.

Lemma lower_half_end_index_ok : lower_half_end_index SIZE = Ok (LOWER_END / SIZE).
Proof using HS. destruct (supported_cases SIZE HS) as [->|[->| ->]]; reflexivity. Qed.

Lemma higher_half_start_index_ok : higher_half_start_index SIZE = Ok (HIGHER_START / SIZE).
Proof using HS. destruct (supported_cases SIZE HS) as [->|[->| ->]]; reflexivity. Qed.

Lemma higher_half_end_index_ok : higher_half_end_index SIZE = Ok (USIZE_MODULUS / SIZE).
Proof using HS. destruct (supported_cases SIZE HS) as [->|[->| ->]]; reflexivity. Qed.

Lemma non_canonical_count_ok :
  non_canonical_count SIZE = Ok (HIGHER_START / SIZE - LOWER_END / SIZE).
Proof using HS. destruct (supported_cases SIZE HS) as [->|[->| ->]]; reflexivity. Qed.

Lemma page_from_index i :
  0 <= i ->
  frage_from_index VirtTag SIZE i =
    if (i <? LOWER_END / SIZE) || ((HIGHER_START / SIZE <=? i) && (i <? USIZE_MODULUS / SIZE))
    then Ok (i * SIZE)
    else Err (if fits_usize (i * SIZE) then InvalidArgument else Overflow).
Proof using HS.
  intros Hi. case_match eqn:E.
  - apply frage_from_index_spec; [done|]. split; [done|]. apply virt_valid_iff.
    unfold canonical. apply orb_true_iff in E as [E|E]; bool_simp;
      size_cases HS.
  - apply frage_from_index_err; [done|]. rewrite virt_valid_iff.
    unfold canonical. apply orb_false_iff in E as [E E2]. apply andb_false_iff in E2.
    destruct E2; bool_simp; size_cases HS.
Qed.

Lemma is_page_index p :
  is_page SIZE p ->
  p = p / SIZE * SIZE /\
  (0 <= p / SIZE < LOWER_END / SIZE \/ HIGHER_START / SIZE <= p / SIZE < USIZE_MODULUS / SIZE).
Proof using HS.
  intros [Hc [q ->]]. pose proof (supported_pos (SIZE := SIZE)). rewrite Z.div_mul by lia.
  split; [done|]. unfold canonical in Hc.
  size_cases HS.
Qed.

Lemma rank_spec p :
  is_page SIZE p ->
  rank SIZE p =
    if p / SIZE <? LOWER_END / SIZE then p / SIZE
    else p / SIZE - (HIGHER_START / SIZE - LOWER_END / SIZE).
Proof using HS.
  intros Hp. unfold rank. destruct (is_page_index p Hp) as [E H].
  destruct (Z.ltb_spec p LOWER_END), (Z.ltb_spec (p / SIZE) (LOWER_END / SIZE)); try done;
    size_cases HS.
Qed.

Lemma unrank_page r :
  0 <= r < page_count SIZE -> is_page SIZE (unrank SIZE r) /\ rank SIZE (unrank SIZE r) = r.
Proof using HS.
  intros Hr. assert (is_page SIZE (unrank SIZE r)) as Hp.
  { unfold is_page, canonical, unrank, page_count in *. split.
    - destruct (Z.ltb_spec r (LOWER_END / SIZE)); change (2 ^ 48) with 281474976710656 in *;
        size_cases HS.
    - case_match; [by exists r|]. exists (r + (HIGHER_START - LOWER_END) / SIZE).
      rewrite Z.mul_add_distr_r. f_equal.
      destruct (supported_cases _ HS) as [->|[->| ->]]; reflexivity. }
  split; [done|]. rewrite rank_spec by done. unfold unrank, page_count in *.
  change (2 ^ 48) with 281474976710656 in *.
  destruct (Z.ltb_spec r (LOWER_END / SIZE)).
  - pose proof (supported_pos (SIZE := SIZE)). rewrite Z.div_mul by lia.
    by rewrite (proj2 (Z.ltb_lt _ _)) by done.
  - case_match; bool_simp; size_cases HS.
Qed.

(** The page indexes of the borders of the halves, and how they relate. *)
Lemma border_facts :
  let L := LOWER_END / SIZE in
  let H := HIGHER_START / SIZE in
  let E := USIZE_MODULUS / SIZE in
  0 < L /\ 2 * L < H /\ E = H + L /\ 4 * E < USIZE_MODULUS /\ page_count SIZE = 2 * L /\
  H * SIZE = HIGHER_START /\ L * SIZE = LOWER_END.
Proof using HS. destruct (supported_cases SIZE HS) as [->|[->| ->]]; vm_compute; repeat split; done. Qed.

Lemma unrank_index r :
  unrank SIZE r =
    (if r <? LOWER_END / SIZE then r else r + (HIGHER_START / SIZE - LOWER_END / SIZE)) * SIZE.
Proof using HS. 
  unfold unrank. pose proof border_facts as (_ & _ & _ & _ & _ & EH & EL).
  case_match; [done|]. by rewrite Z.mul_add_distr_r, Z.mul_sub_distr_r, EH, EL.
Qed.

Lemma forward_checked_rank s n :
  is_page SIZE s -> is_usize n ->
  forward_checked SIZE s n =
    Ok (if rank SIZE s + n <? page_count SIZE then Some (unrank SIZE (rank SIZE s + n)) else None).
Proof using HS.
  intros Hs Hn. unfold is_usize in Hn. rewrite rank_spec, unrank_index by done.
  destruct (is_page_index s Hs) as [_ Hi]. unfold forward_checked.
  rewrite frage_index_ok, lower_half_end_index_ok, non_canonical_count_ok.
  pose proof border_facts as (HL & HH & HE & HU & -> & _). revert HL HH HE HU Hi.
  generalize (s / SIZE) as i. intros i HL HH HE HU Hi. unfold checked_add.
  destruct (fits_usize (i + n)) eqn:Hf; [apply fits_usize_true in Hf|apply fits_usize_false in Hf];
    unfold is_usize in Hf; cycle 1.
  { destruct (Z.ltb_spec i (LOWER_END / SIZE));
      rewrite (proj2 (Z.ltb_ge _ _)) by lia; done. }
  destruct (Z.ltb_spec i (LOWER_END / SIZE)), (Z.leb_spec (LOWER_END / SIZE) (i + n)); cbn [andb].
  - destruct (fits_usize _) eqn:Hf2;
      [|apply fits_usize_false in Hf2; unfold is_usize in Hf2;
        rewrite (proj2 (Z.ltb_ge (i + n) _)) by lia; done].
    rewrite page_from_index by lia. rewrite (proj2 (Z.ltb_ge (i + n) (LOWER_END / SIZE))) by lia.
    rewrite (proj2 (Z.ltb_ge (i + n + _) (LOWER_END / SIZE))) by lia. cbn [orb].
    rewrite (proj2 (Z.leb_le _ _)) by lia. cbn [andb].
    destruct (Z.ltb_spec (i + n) (2 * (LOWER_END / SIZE)));
      [rewrite (proj2 (Z.ltb_lt _ _)) by lia|rewrite (proj2 (Z.ltb_ge _ _)) by lia]; done.
  - rewrite page_from_index by lia. rewrite !(proj2 (Z.ltb_lt _ _)) by lia. done.
  - rewrite page_from_index by lia. rewrite (proj2 (Z.ltb_ge (i + n) (LOWER_END / SIZE))) by lia.
    rewrite (proj2 (Z.leb_le _ _)) by lia. cbn [orb andb].
    destruct (Z.ltb_spec (i + n) (USIZE_MODULUS / SIZE));
      [rewrite (proj2 (Z.ltb_lt _ (2 * _))) by lia|rewrite (proj2 (Z.ltb_ge _ (2 * _))) by lia];
      [|done]. rewrite (proj2 (Z.ltb_ge _ (LOWER_END / SIZE))) by lia. do 3 f_equal. lia.
  - lia.
Qed.

Lemma backward_checked_rank s n :
  is_page SIZE s -> is_usize n ->
  backward_checked SIZE s n =
    Ok (if n <=? rank SIZE s then Some (unrank SIZE (rank SIZE s - n)) else None).
Proof using HS.
  intros Hs Hn. unfold is_usize in Hn. rewrite rank_spec, unrank_index by done.
  destruct (is_page_index s Hs) as [_ Hi]. unfold backward_checked.
  rewrite frage_index_ok, higher_half_start_index_ok, non_canonical_count_ok.
  pose proof border_facts as (HL & HH & HE & HU & _ & _). revert HL HH HE HU Hi.
  generalize (s / SIZE) as i. intros i HL HH HE HU Hi. unfold checked_sub.
  destruct (fits_usize (i - n)) eqn:Hf; [apply fits_usize_true in Hf|apply fits_usize_false in Hf];
    unfold is_usize in Hf; cycle 1.
  { destruct (Z.ltb_spec i (LOWER_END / SIZE)); rewrite (proj2 (Z.leb_gt _ _)) by lia; done. }
  destruct (Z.ltb_spec i (LOWER_END / SIZE)) as [Hil|Hil].
  { rewrite (proj2 (Z.leb_gt _ i)), andb_false_r by lia. rewrite page_from_index by lia.
    rewrite (proj2 (Z.leb_le n _)), (proj2 (Z.ltb_lt (i - n) _)) by lia. done. }
  rewrite (proj2 (Z.leb_le _ i)), andb_true_r by lia.
  destruct (Z.ltb_spec (i - n) (HIGHER_START / SIZE)).
  - destruct (fits_usize _) eqn:Hf2; [apply fits_usize_true in Hf2|apply fits_usize_false in Hf2];
      unfold is_usize in Hf2.
    + rewrite page_from_index by lia. rewrite (proj2 (Z.ltb_lt _ (LOWER_END / SIZE))) by lia. cbn.
      rewrite (proj2 (Z.leb_le n _)) by lia. rewrite (proj2 (Z.ltb_lt _ (LOWER_END / SIZE))) by lia.
      do 3 f_equal. lia.
    + rewrite (proj2 (Z.leb_gt _ _)) by lia. done.
  - rewrite page_from_index by lia. rewrite (proj2 (Z.ltb_ge _ (LOWER_END / SIZE))) by lia.
    rewrite (proj2 (Z.leb_le (HIGHER_START / SIZE) _)), (proj2 (Z.ltb_lt _ (USIZE_MODULUS / SIZE))) by lia.
    cbn. rewrite (proj2 (Z.leb_le n _)) by lia. rewrite (proj2 (Z.ltb_ge _ (LOWER_END / SIZE))) by lia.
    do 3 f_equal. lia.
Qed.

Lemma steps_between_rank s e :
  is_page SIZE s -> is_page SIZE e -> s <= e ->
  steps_between SIZE s e = Ok (rank SIZE e - rank SIZE s, Some (rank SIZE e - rank SIZE s)).
Proof using HS.
  intros Hs He Hle. rewrite !rank_spec by done. unfold steps_between, page_is_lower_half.
  rewrite (proj2 (Z.leb_le s e)) by done.
  rewrite !frage_index_ok, lower_half_end_index_ok, non_canonical_count_ok.
  pose proof border_facts as (HL & HH & HE & HU & _ & _).
  assert (s / SIZE <= e / SIZE) as Hd by (apply Z.div_le_mono; [apply supported_pos|done]).
  destruct (is_page_index s Hs) as [_ His], (is_page_index e He) as [_ Hie].
  rewrite usize_sub_ok by (unfold is_usize; lia).
  destruct (Z.ltb_spec (s / SIZE) (LOWER_END / SIZE)), (Z.ltb_spec (e / SIZE) (LOWER_END / SIZE));
    cbn [Bool.eqb]; try done; try lia.
  - rewrite usize_sub_ok by (unfold is_usize; lia).
    match goal with |- Ok (?a, Some ?a) = Ok (?b, Some ?b) => by replace a with b by lia end.
  - match goal with |- Ok (?a, Some ?a) = Ok (?b, Some ?b) => by replace a with b by lia end.
Qed.

End StepLemmas.

(** Stepping over virtual pages of any size is counting on the canonical
    pages with the non-canonical hole removed: [unrank] enumerates the pages in
    order, [forward_checked] and [backward_checked] move by exactly [n] ranks
    and answer [None] exactly at the ends of the address space (never panicking),
    and [steps_between] is the difference of the ranks. *)
Theorem page_step_rank SIZE `{!SupportedSize SIZE} s n :
  is_page SIZE s -> is_usize n ->
  forward_checked SIZE s n =
    Ok (if rank SIZE s + n <? page_count SIZE then Some (unrank SIZE (rank SIZE s + n)) else None) /\
  backward_checked SIZE s n =
    Ok (if n <=? rank SIZE s then Some (unrank SIZE (rank SIZE s - n)) else None) /\
  (forall e, is_page SIZE e -> s <= e ->
    steps_between SIZE s e = Ok (rank SIZE e - rank SIZE s, Some (rank SIZE e - rank SIZE s))) /\
  (forall r, 0 <= r < page_count SIZE ->
    is_page SIZE (unrank SIZE r) /\ rank SIZE (unrank SIZE r) = r).
Proof.
  intros Hs Hn. split; [by apply forward_checked_rank|]. split; [by apply backward_checked_rank|].
  split; [intros; by apply steps_between_rank|]. apply unrank_page.
Qed.

Lemma page_step_rank_witness :
  forward_checked L0_SIZE (LOWER_END - 4096) 1 = Ok (Some HIGHER_START) /\
  forward_checked L0_SIZE (USIZE_MODULUS - 4096) 1 = Ok None.
Proof.
  assert (is_page L0_SIZE (LOWER_END - 4096)) as H1
    by (split; [unfold canonical; lia|by exists 34359738367]).
  assert (is_page L0_SIZE (USIZE_MODULUS - 4096)) as H2
    by (split; [unfold canonical; lia|by exists 4503599627370495]).
  assert (is_usize 1) as Hn by (unfold is_usize; lia).
  split.
  - rewrite (proj1 (page_step_rank L0_SIZE _ 1 H1 Hn)). reflexivity.
  - rewrite (proj1 (page_step_rank L0_SIZE _ 1 H2 Hn)). reflexivity.
Defined.
