(* ===== verification/Block.v ===== *)
(** * Block: contiguous blocks of addresses, frames or pages

    Models [ku/src/memory/block.rs].  A [Block<T>] is a half-open interval of
    element numbers; the trait [Memory] of its element type is a record of
    operations with two constructors, [AddrMem] for blocks of addresses and
    [FrageMem] for blocks of frames or pages. *)

From S2P Require Import Prelude Addr Frage.
From stdpp Require Import base list numbers tactics.
From Stdlib Require Import ZArith Lia.

Open Scope Z_scope.
Open Scope outcome_scope.

(** ** The trait [Memory] *)

Record Memory := mkMemory {
  SIZE_OF : Z;
  mem_tag : Tag;
  mem_address : Z -> Z;
  address_by_index : Z -> outcome Z;
  address_by_index_unchecked : Z -> outcome Z;
  mem_from_index : Z -> outcome Z;
  mem_index : Z -> outcome Z;
}.

Definition AddrMem (T : Tag) : Memory := {|
  SIZE_OF := 1;
  mem_tag := T;
  mem_address := fun element => element;
  address_by_index := addr_new T;
  address_by_index_unchecked := fun index => Ok index;
  mem_from_index := addr_new T;
  mem_index := fun element => Ok element;
|}.

Definition FrageMem (T : Tag) (SIZE : Z) : Memory := {|
  SIZE_OF := SIZE;
  mem_tag := T;
  mem_address := frage_address;
  address_by_index := frage_address_by_index T SIZE;
  address_by_index_unchecked := fun index =>
    let? frage := from_index_unchecked SIZE index in Ok (frage_address frage);
  mem_from_index := frage_from_index T SIZE;
  mem_index := frage_index SIZE;
|}.

(** [SizeOf::count_up]. *)
Definition count_up (M : Memory) (size : Z) : Z := div_ceil size (SIZE_OF M).

(** ** Blocks *)

Record Block := mkBlock { b_start : Z; b_end : Z }.

#[export] Instance Block_eq_dec : EqDecision Block.
Proof. solve_decision. Defined.

Definition block_zero : Block := mkBlock 0 0.

Section BlockOps.
  Context (M : Memory).

Definition block_from_index (start end_ : Z) : outcome Block :=
  let? start_address := address_by_index M start in
  let? last_address := address_by_index M (if start <? end_ then end_ - 1 else end_) in
  if (start <=? end_) && is_same_half (mem_tag M) start_address last_address
  then Ok (mkBlock start end_)
  else Err InvalidArgument.

Definition block_new (start end_ : Z) : outcome Block :=
  let? start := mem_index M start in
  let? end_ := mem_index M end_ in
  block_from_index start end_.

Definition block_from_index_u64 (start end_ : Z) : outcome Block := block_from_index start end_.

Definition from_element (element : Z) : outcome Block :=
  let? start := mem_index M element in
  let? index := mem_index M element in
  let? end_ := usize_add index 1 in
  block_from_index start end_.

Definition from_index_count_unchecked (start count : Z) : outcome Block :=
  let? end_ := usize_add start count in
  Ok (mkBlock start end_).

Definition from_count_unchecked (start count : Z) : outcome Block :=
  let? start := mem_index M start in
  from_index_count_unchecked start count.

Definition count (b : Block) : outcome Z := usize_sub (b_end b) (b_start b).

Definition size (b : Block) : outcome Z :=
  let? n := count b in usize_mul n (SIZE_OF M).

(** [Block::layout]: its assertions are on the element type only. *)
Definition layout (b : Block) : outcome Layout :=
  assert! 0 <? SIZE_OF M in
  assert! Z.land (SIZE_OF M) (SIZE_OF M - 1) =? 0 in
  assert! SIZE_OF M <=? ISIZE_MAX in
  assert! BITS (mem_tag M) <? 63 in
  assert! next_multiple_of (shl64 1 (BITS (mem_tag M))) (SIZE_OF M) <=? ISIZE_MAX in
  let? bytes := size b in
  Ok (mkLayout bytes (SIZE_OF M)).

Definition start_address (b : Block) : outcome Z := address_by_index_unchecked M (b_start b).

Definition end_address (b : Block) : outcome Z := address_by_index M (b_end b).

Definition end_address_u128 (b : Block) : Z := b_end b * SIZE_OF M.

Definition address (b : Block) (offset : Z) : outcome Z :=
  let? bytes := size b in
  if offset <? bytes then
    let? start := start_address b in
    let? addr := usize_add start offset in
    unwrap (addr_new (mem_tag M) addr)
  else Err Overflow.

Definition address_unchecked (b : Block) (offset : Z) : outcome Z :=
  let? start := start_address b in
  Ok (wrapping_add start offset).

Definition contains_address (b : Block) (addr : Z) : outcome bool :=
  let? start := start_address b in
  if addr <? start then Ok false
  else
    match end_address b with
    | Ok end_address => Ok (addr <? end_address)
    | Err _ => Ok true
    | Panic => Panic
    end.

Definition offset (b : Block) (addr : Z) : outcome Z :=
  let? inside := contains_address b addr in
  if inside : bool then let? start := start_address b in usize_sub addr start
  else Err Overflow.

Definition offset_unchecked (b : Block) (addr : Z) : outcome Z :=
  let? start := start_address b in usize_sub addr start.

Definition start_element (b : Block) : outcome Z := unwrap (mem_from_index M (b_start b)).

Definition end_element (b : Block) : outcome Z := mem_from_index M (b_end b).

Definition contains (b : Block) (element : Z) : outcome bool :=
  contains_address b (mem_address M element).

Definition contains_block (b block : Block) : bool :=
  (b_start b <=? b_start block) && (b_end block <=? b_end b).

Definition contains_index (b : Block) (index : Z) : bool :=
  (b_start b <=? index) && (index <? b_end b).

Definition is_adjacent (b block : Block) : outcome bool :=
  let? start := start_address block in
  match end_address b with
  | Ok end_address => Ok (end_address =? start)
  | Err _ => Ok false
  | Panic => Panic
  end.

Definition is_empty (b : Block) : bool := b_start b =? b_end b.

Definition is_disjoint (b block : Block) : outcome bool :=
  if is_empty b then Ok true
  else if is_empty block then Ok true
  else
    let? other_start := start_address block in
    let? inside := contains_address b other_start in
    if inside : bool then Ok false
    else
      let? own_start := start_address b in
      let? inside := contains_address block own_start in
      Ok (negb inside).

Definition coalesce (b block : Block) : outcome Block :=
  let? adjacent := is_adjacent b block in
  if adjacent : bool then unwrap (block_from_index (b_start b) (b_end block))
  else Err InvalidArgument.

Definition intersection (b block : Block) : outcome Block :=
  let start := Z.max (b_start b) (b_start block) in
  let end_ := Z.min (b_end b) (b_end block) in
  if start <=? end_ then unwrap (block_from_index start end_) else Ok block_zero.

Definition slice (b : Block) (range_start range_end : Z) : outcome (option Block) :=
  let? fits :=
    (if range_start <=? range_end then let? n := count b in Ok (range_end <=? n) else Ok false) in
  if fits : bool then
    let? s := usize_add (b_start b) range_start in
    let? e := usize_add (b_start b) range_end in
    match block_from_index s e with
    | Ok block => Ok (Some block)
    | Err _ => Ok None
    | Panic => Panic
    end
  else Ok None.

(** [tail] mutates the block: the result is the new value of [self] and the
    block cut off its end. *)
Definition tail (b : Block) (n : Z) : outcome (Block * option Block) :=
  let? total := count b in
  if n <=? total then
    let? new_start := usize_sub (b_end b) n in
    match block_from_index new_start (b_end b) with
    | Ok new_block => Ok (mkBlock (b_start b) new_start, Some new_block)
    | Err _ => Ok (b, None)
    | Panic => Panic
    end
  else Ok (b, None).

Definition block_partial_cmp (b other : Block) : option comparison :=
  if b_end b <=? b_start other then Some Lt
  else if b_end other <=? b_start b then Some Gt
  else if decide (b = other) then Some Eq
  else None.

(** [IntoIter::next]: the iterator is the remaining index range. *)
Definition into_iter_next (b : Block) : outcome (option (Z * Block)) :=
  if b_start b <? b_end b then
    match mem_from_index M (b_start b) with
    | Ok element => Ok (Some (element, mkBlock (b_start b + 1) (b_end b)))
    | Err _ => Ok None
    | Panic => Panic
    end
  else Ok None.

(** The conversions of a virtual block to pointers: [q_size] and [q_align]
    describe the pointee type. *)
Definition block_try_into_ptr (b : Block) (q_size q_align : Z) : outcome Z :=
  let? bytes := size b in
  if bytes =? q_size then
    let? start := start_address b in Virt.try_into_ptr start q_align
  else Err InvalidArgument.

Definition block_try_into_ref (b : Block) (q_size q_align : Z) : outcome Z :=
  let? bytes := size b in
  if bytes =? q_size then
    let? start := start_address b in Virt.try_into_ref start q_align
  else Err InvalidArgument.

(** A pointee of size zero passes the first test only for an empty block, and the
    division then panics. *)
Definition block_try_into_slice (b : Block) (q_size q_align : Z) : outcome (Z * Z) :=
  let? bytes := size b in
  if is_multiple_of bytes q_size then
    let? start := start_address b in
    assert! negb (q_size =? 0) in
    Virt.try_into_slice start q_align (bytes / q_size)
  else Err InvalidArgument.

Definition block_try_into_non_null_slice (b : Block) (q_size q_align : Z) : outcome (Z * Z) :=
  let? slice := block_try_into_slice b q_size q_align in
  Ok slice.

End BlockOps.

(** The elements a [for] loop over the block visits. *)
Definition block_indices (b : Block) : list Z := seqZ (b_start b) (b_end b - b_start b).

(** Running [IntoIter::next] until it answers [None]; [None] of the model is an
    exhausted budget. *)
Fixpoint iterate (M : Memory) (fuel : nat) (b : Block) : outcome (option (list Z)) :=
  match fuel with
  | O => Ok None
  | S fuel =>
      let? next := into_iter_next M b in
      match next with
      | None => Ok (Some [])
      | Some (element, b) =>
          let? rest := iterate M fuel b in
          Ok (match rest with Some rest => Some (element :: rest) | None => None end)
      end
  end.

(** [Block<Addr<T>>::enclosing]: the smallest block of 4 KiB frames or pages. *)
Definition enclosing (T : Tag) (b : Block) : outcome Block :=
  let? start := start_address (AddrMem T) b in
  let? start_frage := index_by_address L0_SIZE start in
  let? end_frage :=
    (if b_start b =? b_end b then Ok start_frage
     else
       let? end_ := unwrap (end_address (AddrMem T) b) in
       let? last := unwrap (addr_sub T end_ 1) in
       let? last_frage := index_by_address L0_SIZE last in
       usize_add last_frage 1) in
  unwrap (block_from_index (FrageMem T L0_SIZE) start_frage end_frage).

(** The conversion of a block of frames or pages to a block of addresses. *)
Definition block_of_frages (T : Tag) (SIZE : Z) (b : Block) : outcome Block :=
  let? start := start_address (FrageMem T SIZE) b in
  let? end_ := unwrap (end_address (FrageMem T SIZE) b) in
  unwrap (block_new (AddrMem T) start end_).

(** The element types of the kernel. *)
Abbreviation Page := (FrageMem VirtTag L0_SIZE).
Abbreviation Frame := (FrageMem PhysTag L0_SIZE).
Abbreviation Virtual := (AddrMem VirtTag).
Abbreviation Physical := (AddrMem PhysTag).

(** ** What a block relies on *)

(** The laws of [Memory]: element [i] lives at address [i * SIZE_OF], the checked
    conversions accept exactly the elements with a valid address, and
    neighbouring elements are in the same half. *)
Class MemoryLaws (M : Memory) : Prop := {
  mem_tag_laws :: TagLaws (mem_tag M);
  size_of_pos : 0 < SIZE_OF M;
  address_by_index_spec i a :
    is_usize i -> address_by_index M i = Ok a <-> a = i * SIZE_OF M /\ valid (mem_tag M) a;
  address_by_index_total i : address_by_index M i <> Panic;
  address_unchecked_ok i :
    is_usize (i * SIZE_OF M) -> address_by_index_unchecked M i = Ok (i * SIZE_OF M);
  mem_from_index_spec i e :
    is_usize i -> mem_from_index M i = Ok e <-> e = i * SIZE_OF M /\ valid (mem_tag M) e;
  mem_index_ok e : mem_index M e = Ok (e / SIZE_OF M);
  neighbour_same_half i :
    valid (mem_tag M) (i * SIZE_OF M) -> valid (mem_tag M) ((i + 1) * SIZE_OF M) ->
    is_same_half (mem_tag M) (i * SIZE_OF M) ((i + 1) * SIZE_OF M) = true;
  element_bytes i a :
    valid (mem_tag M) (i * SIZE_OF M) -> i * SIZE_OF M <= a < i * SIZE_OF M + SIZE_OF M ->
    valid (mem_tag M) a /\ is_same_half (mem_tag M) (i * SIZE_OF M) a = true;
  span_usize i j :
    valid (mem_tag M) (i * SIZE_OF M) -> valid (mem_tag M) (j * SIZE_OF M) ->
    is_same_half (mem_tag M) (i * SIZE_OF M) (j * SIZE_OF M) = true -> i <= j ->
    is_usize ((j + 1 - i) * SIZE_OF M);
}.

(** The geometry of the halves: addresses closer than the non-canonical hole are
    in the same half, and a half is far smaller than the word. *)
Class HalfGeometry (T : Tag) : Prop := {
  near_same_half a b :
    valid T a -> valid T b -> a <= b <= a + 1073741824 -> is_same_half T a b = true;
  half_aligned SIZE i a :
    SupportedSize SIZE -> valid T (i * SIZE) -> i * SIZE <= a < i * SIZE + SIZE ->
    valid T a /\ is_same_half T (i * SIZE) a = true;
  half_span a b :
    valid T a -> valid T b -> is_same_half T a b = true -> b - a < PHYS_END;
}.

#[export] Instance VirtTag_geometry : HalfGeometry VirtTag.
Proof.
  split.
  - intros a b Ha%virt_valid_iff Hb%virt_valid_iff H.
    apply virt_same_half_iff; [done..|]. unfold canonical in *. lia.
  - intros SIZE i a HS Hi%virt_valid_iff Ha.
    assert (canonical a /\ (i * SIZE < LOWER_END <-> a < LOWER_END)) as [Hc Hl].
    { unfold canonical in *. destruct (supported_cases SIZE HS) as [->|[->| ->]]; lia. }
    split; [by apply virt_valid_iff|]. apply virt_same_half_iff; [done..|].
    unfold canonical in *. lia.
  - intros a b Ha%virt_valid_iff Hb%virt_valid_iff H.
    apply virt_same_half_iff in H; [|done..]. unfold canonical in *. lia.
Qed.

#[export] Instance PhysTag_geometry : HalfGeometry PhysTag.
Proof.
  split; [done| |intros a b Ha%phys_valid_iff Hb%phys_valid_iff _; lia].
  intros SIZE i a HS Hi%phys_valid_iff Ha. split; [|done]. apply phys_valid_iff.
  destruct (supported_cases SIZE HS) as [->|[->| ->]]; lia.
Qed.

#[export] Instance AddrMem_laws T : TagLaws T -> HalfGeometry T -> MemoryLaws (AddrMem T).
Proof.
  intros HT HN.
  assert (forall i a, is_usize i -> addr_new T i = Ok a <-> a = i * 1 /\ valid T a) as Hspec.
  { intros i a Hi. rewrite Z.mul_1_r. unfold addr_new. split.
    - intros H. pose proof (tag_new_ok_inv _ _ H) as ->. unfold valid. done.
    - intros [-> Hv]. by apply valid_new. }
  split; cbn; try done; try (intros; f_equal; lia).
  - intros i. unfold addr_new. destruct (tag_new_cases (T := T) i) as [->| ->]; done.
  - intros e. by rewrite Z.div_1_r.
  - intros i Hi Hi1. apply near_same_half; [done..|lia].
  - intros i a Hi Ha. replace a with (i * 1) by lia. split; [done|apply same_half_refl].
  - intros i j Hi Hj Hh Hij. pose proof (half_span _ _ Hi Hj Hh). unfold is_usize. lia.
Qed.

#[export] Instance FrageMem_laws T SIZE :
  TagLaws T -> HalfGeometry T -> SupportedSize SIZE -> MemoryLaws (FrageMem T SIZE).
Proof.
  intros HT HN HS. pose proof (supported_pos (SIZE := SIZE)) as Hpos.
  assert (forall i, frage_address_by_index T SIZE i = frage_from_index T SIZE i) as Heq.
  { intros i. unfold frage_from_index, frage_address_by_index. rewrite supported_size.
    by destruct (let? _ := _ in _). }
  split; cbn; try done.
  - intros i a Hi. rewrite Heq. apply frage_from_index_spec. unfold is_usize in Hi. lia.
  - intros i. unfold frage_address_by_index, addr_new. rewrite supported_size.
    destruct (checked_mul i SIZE) as [a|]; cbn; [|done].
    destruct (tag_new_cases (T := T) a) as [->| ->]; done.
  - intros i Hi. unfold from_index_unchecked. rewrite supported_size. by rewrite usize_mul_ok.
  - intros i e Hi. apply frage_from_index_spec. unfold is_usize in Hi. lia.
  - intros e. apply frage_index_ok.
  - intros i Hi Hi1. apply near_same_half; [done..|].
    destruct (supported_cases SIZE HS) as [->|[->| ->]]; lia.
  - intros i a. by apply half_aligned.
  - intros i j Hi Hj Hh Hij. pose proof (half_span _ _ Hi Hj Hh). unfold is_usize.
    destruct (supported_cases SIZE HS) as [->|[->| ->]]; lia.
Qed.

(** ** The invariant of blocks *)

Definition last_index (b : Block) : Z := if b_start b <? b_end b then b_end b - 1 else b_end b.

(** A well-formed block: ordered, with its first and last element in one half. *)
Record block_wf (M : Memory) (b : Block) : Prop := {
  wf_usize : is_usize (b_start b) /\ is_usize (b_end b);
  wf_order : b_start b <= b_end b;
  wf_start : valid (mem_tag M) (b_start b * SIZE_OF M);
  wf_last : valid (mem_tag M) (last_index b * SIZE_OF M);
  wf_half :
    is_same_half (mem_tag M) (b_start b * SIZE_OF M) (last_index b * SIZE_OF M) = true;
}.

Section BlockLemmas.
  Context {M : Memory} `{HM : !MemoryLaws M}.

Lemma block_from_index_spec s e b :
  is_usize s -> is_usize e ->
  block_from_index M s e = Ok b <-> b = mkBlock s e /\ block_wf M (mkBlock s e).
Proof using HM.
  intros Hs He. unfold block_from_index.
  assert (is_usize (if s <? e then e - 1 else e)) as Hl
    by (unfold is_usize in *; case_match; bool_simp; lia).
  split.
  - intros H. destruct (address_by_index M s) eqn:E1; [|done..].
    destruct (address_by_index M (if s <? e then e - 1 else e)) eqn:E2; [|done..].
    apply address_by_index_spec in E1 as [-> V1]; [|done].
    apply address_by_index_spec in E2 as [-> V2]; [|done].
    destruct (_ && _) eqn:E; [|done]. simplify_eq. bool_simp. by split.
  - intros [-> [[_ _] Ho V1 V2 Hh]]. unfold last_index in *. cbn in *.
    rewrite (proj2 (address_by_index_spec s _ Hs) (conj eq_refl V1)).
    rewrite (proj2 (address_by_index_spec _ _ Hl) (conj eq_refl V2)).
    by rewrite (proj2 (Z.leb_le s e) Ho), Hh.
Qed.

Lemma wf_from_index s e : block_wf M (mkBlock s e) -> block_from_index M s e = Ok (mkBlock s e).
Proof using HM. intros Hb. pose proof (wf_usize _ _ Hb) as [Us Ue]. by apply block_from_index_spec. Qed.

Lemma block_from_index_total s e : block_from_index M s e <> Panic.
Proof using HM.
  unfold block_from_index.
  pose proof (address_by_index_total s). destruct (address_by_index M s); [|done..].
  pose proof (address_by_index_total (if s <? e then e - 1 else e)).
  destruct (address_by_index M _); [|done..]. by case_match.
Qed.

Lemma wf_start_address b : block_wf M b -> start_address M b = Ok (b_start b * SIZE_OF M).
Proof using HM. intros Hb. apply address_unchecked_ok. eapply valid_usize, (wf_start _ _ Hb). Qed.

Lemma wf_count b : block_wf M b -> count b = Ok (b_end b - b_start b).
Proof.
  intros [[Hs He] Ho _ _ _]. unfold count. apply usize_sub_ok. unfold is_usize in *. lia.
Qed.

(** The bytes of a block fit in a word: its last element does. *)
Lemma wf_size b :
  block_wf M b -> size M b = Ok ((b_end b - b_start b) * SIZE_OF M).
Proof using HM.
  intros Hb. unfold size. rewrite wf_count by done. apply usize_mul_ok.
  destruct Hb as [_ Ho Vs Vl Hh]. unfold last_index in *.
  destruct (Z.ltb_spec (b_start b) (b_end b)).
  - replace (b_end b - b_start b) with (b_end b - 1 + 1 - b_start b) by lia.
    apply span_usize; [done..|lia].
  - replace (b_end b - b_start b) with 0 by lia. unfold is_usize. lia.
Qed.

(** Every element of a well-formed block is valid and in the half of its first. *)
Lemma wf_element b i :
  block_wf M b -> b_start b <= i < b_end b ->
  valid (mem_tag M) (i * SIZE_OF M) /\
  is_same_half (mem_tag M) (b_start b * SIZE_OF M) (i * SIZE_OF M) = true.
Proof using HM.
  intros [_ _ Vs Vl Hh] Hi. pose proof size_of_pos.
  eapply half_convex; [exact Vs|exact Vl|done|]. unfold last_index.
  rewrite (proj2 (Z.ltb_lt _ _)) by lia. nia.
Qed.

(** Any sub-interval of a well-formed block is well formed, if non-empty or
    placed at an element of the block. *)
Lemma wf_sub b s e :
  block_wf M b -> b_start b <= s -> s <= e -> e <= b_end b -> (s < b_end b \/ s = b_start b) ->
  block_wf M (mkBlock s e).
Proof using HM.
  intros Hb Hs Hse He Hne. pose proof (wf_usize _ _ Hb) as [Us Ue].
  assert (valid (mem_tag M) (s * SIZE_OF M) /\
          is_same_half (mem_tag M) (b_start b * SIZE_OF M) (s * SIZE_OF M) = true) as [Vs Hhs].
  { destruct (decide (s = b_start b)) as [->|].
    - split; [apply (wf_start _ _ Hb)|apply same_half_refl].
    - apply wf_element; [done|lia]. }
  assert (last_index (mkBlock s e) = s \/ b_start b <= last_index (mkBlock s e) < b_end b) as Hl.
  { unfold last_index. cbn. destruct (Z.ltb_spec s e); lia. }
  assert (valid (mem_tag M) (last_index (mkBlock s e) * SIZE_OF M) /\
          is_same_half (mem_tag M) (b_start b * SIZE_OF M)
            (last_index (mkBlock s e) * SIZE_OF M) = true) as [Vl Hhl].
  { destruct Hl as [->|Hl]; [done|]. by apply wf_element. }
  split; cbn; try done.
  - unfold is_usize in *. lia.
  - apply same_half_trans with (b_start b * SIZE_OF M); try done.
    + apply (wf_start _ _ Hb).
    + by rewrite same_half_sym.
Qed.

(** So does every byte of its elements, when the half is aligned. *)
Lemma wf_address b a :
  block_wf M b -> b_start b * SIZE_OF M <= a < b_end b * SIZE_OF M ->
  valid (mem_tag M) a /\ is_same_half (mem_tag M) (b_start b * SIZE_OF M) a = true.
Proof using HM.
  intros Hb Ha. pose proof (size_of_pos (M := M)) as Hpos.
  assert (b_start b <= a / SIZE_OF M < b_end b) as Hi.
  { split; [apply Z.div_le_lower_bound; lia|apply Z.div_lt_upper_bound; lia]. }
  destruct (wf_element b _ Hb Hi) as [Vi Hhi].
  destruct (element_bytes (a / SIZE_OF M) a Vi) as [Va Hh].
  { pose proof (Z.div_mod a (SIZE_OF M) ltac:(lia)).
    pose proof (Z.mod_pos_bound a (SIZE_OF M) Hpos). lia. }
  split; [done|]. eapply same_half_trans; [apply (wf_start _ _ Hb)|exact Vi|done..].
Qed.

End BlockLemmas.

(** ** Theorems about blocks of any element type *)

Section BlockTheorems.
  Context (M : Memory) `{HM : !MemoryLaws M}.

(** The block constructor accepts an index range exactly when it is ordered
    and all its elements are valid addresses of one half (for an empty range,
    when its position is a valid address); it never panics. *)
Theorem block_from_index_exact s e b :
  is_usize s -> is_usize e ->
  block_from_index M s e <> Panic /\
  (block_from_index M s e = Ok b <->
    b = mkBlock s e /\ s <= e /\ valid (mem_tag M) (s * SIZE_OF M) /\
    forall i, s <= i < e ->
      valid (mem_tag M) (i * SIZE_OF M) /\
      is_same_half (mem_tag M) (s * SIZE_OF M) (i * SIZE_OF M) = true).
Proof using HM.
  intros Hs He. split; [apply block_from_index_total|]. rewrite block_from_index_spec by done. split.
  - intros [-> Hb]. split; [done|]. split; [apply (wf_order _ _ Hb)|].
    split; [apply (wf_start _ _ Hb)|]. intros i Hi. by apply (wf_element (mkBlock s e)).
  - intros (-> & Ho & Vs & Hel). split; [done|].
    assert (valid (mem_tag M) (last_index (mkBlock s e) * SIZE_OF M) /\
            is_same_half (mem_tag M) (s * SIZE_OF M) (last_index (mkBlock s e) * SIZE_OF M) = true)
      as [Vl Hl].
    { unfold last_index. cbn. destruct (Z.ltb_spec s e); [apply Hel; lia|].
      replace e with s by lia. split; [done|apply same_half_refl]. }
    by split.
Qed.

(** The end address, when there is one. *)
Lemma end_address_ok b a :
  block_wf M b -> end_address M b = Ok a <-> a = b_end b * SIZE_OF M /\ valid (mem_tag M) a.
Proof using HM. intros Hb. apply address_by_index_spec, (wf_usize _ _ Hb). Qed.

Lemma end_address_invalid b :
  block_wf M b -> ~ valid (mem_tag M) (b_end b * SIZE_OF M) -> exists e, end_address M b = Err e.
Proof using HM.
  intros Hb Hv. destruct (end_address M b) as [a|e|] eqn:E; [|by eauto|].
  - apply end_address_ok in E as [-> ?]; done.
  - by apply address_by_index_total in E.
Qed.

Lemma contains_address_spec b a :
  block_wf M b -> valid (mem_tag M) a ->
  is_same_half (mem_tag M) (b_start b * SIZE_OF M) a = true \/
    valid (mem_tag M) (b_end b * SIZE_OF M) ->
  b_start b < b_end b ->
  contains_address M b a =
    Ok ((b_start b * SIZE_OF M <=? a) && (a / SIZE_OF M <? b_end b)).
Proof using HM.
  intros Hb Ha Hor Hne. unfold contains_address. rewrite wf_start_address by done.
  pose proof (size_of_pos (M := M)) as Hpos.
  destruct (Z.ltb_spec a (b_start b * SIZE_OF M)) as [Hlt|Hge].
  { by rewrite (proj2 (Z.leb_gt _ _)) by lia. }
  rewrite (proj2 (Z.leb_le _ _)) by lia. cbn [andb].
  assert (a / SIZE_OF M < b_end b <-> a < b_end b * SIZE_OF M) as Hdiv.
  { pose proof (Z.div_mod a (SIZE_OF M) ltac:(lia)).
    pose proof (Z.mod_pos_bound a (SIZE_OF M) Hpos). split; intros; nia. }
  destruct (end_address M b) as [e|e|] eqn:E.
  - apply end_address_ok in E as [-> Ve]; [|done]. f_equal. apply eq_true_iff_eq.
    by rewrite !Z.ltb_lt, Hdiv.
  - f_equal. symmetry. apply Z.ltb_lt, Hdiv.
    assert (~ valid (mem_tag M) (b_end b * SIZE_OF M)) as Hnv.
    { intros Hv. pose proof (proj2 (end_address_ok b _ Hb) (conj eq_refl Hv)). congruence. }
    destruct Hor as [Hh|Hv]; [|done].
    destruct (Z.lt_ge_cases a (b_end b * SIZE_OF M)) as [|Hle]; [done|exfalso].
    apply Hnv. eapply (half_convex (b_start b * SIZE_OF M) _ a);
      [apply (wf_start _ _ Hb)|done..|]. nia.
  - by apply address_by_index_total in E.
Qed.

(** The address just past the block does not exist: [contains_address] then
    accepts every address from the start of the block on, whatever its half. *)
Lemma contains_address_unbounded b a :
  block_wf M b -> ~ valid (mem_tag M) (b_end b * SIZE_OF M) -> b_start b * SIZE_OF M <= a ->
  contains_address M b a = Ok true.
Proof using HM.
  intros Hb Hv Ha. unfold contains_address. rewrite wf_start_address by done.
  rewrite (proj2 (Z.ltb_ge _ _)) by lia. by destruct (end_address_invalid b Hb Hv) as [e ->].
Qed.

Lemma contains_index_iff b i : contains_index b i = true <-> b_start b <= i < b_end b.
Proof. unfold contains_index. rewrite andb_true_iff, Z.leb_le, Z.ltb_lt. lia. Qed.

(** Disjointness of two non-empty blocks of one half. *)
Lemma is_disjoint_spec b1 b2 :
  block_wf M b1 -> block_wf M b2 ->
  is_same_half (mem_tag M) (b_start b1 * SIZE_OF M) (b_start b2 * SIZE_OF M) = true ->
  b_start b1 < b_end b1 -> b_start b2 < b_end b2 ->
  is_disjoint M b1 b2 = Ok ((b_end b1 <=? b_start b2) || (b_end b2 <=? b_start b1)).
Proof using HM.
  intros H1 H2 Hh N1 N2. unfold is_disjoint, is_empty. pose proof (size_of_pos (M := M)).
  rewrite !(proj2 (Z.eqb_neq _ _)), !wf_start_address by (done || lia).
  rewrite (contains_address_spec b1), (contains_address_spec b2), !Z.div_mul
    by (done || lia || apply (wf_start _ _ H1) || apply (wf_start _ _ H2) || (left; done) || (left; by rewrite same_half_sym)).
  destruct (Z.leb_spec (b_start b1 * SIZE_OF M) (b_start b2 * SIZE_OF M)),
    (Z.leb_spec (b_start b2 * SIZE_OF M) (b_start b1 * SIZE_OF M)),
    (Z.ltb_spec (b_start b2) (b_end b1)), (Z.ltb_spec (b_start b1) (b_end b2)),
    (Z.leb_spec (b_end b1) (b_start b2)), (Z.leb_spec (b_end b2) (b_start b1)); cbn; try done; nia.
Qed.

Lemma intersection_spec b1 b2 :
  valid (mem_tag M) 0 -> block_wf M b1 -> block_wf M b2 ->
  exists b, intersection M b1 b2 = Ok b /\ block_wf M b /\
    forall i, contains_index b i = true <-> b_start b1 <= i < b_end b1 /\ b_start b2 <= i < b_end b2.
Proof using HM.
  intros V0 H1 H2. unfold intersection.
  pose proof (wf_order _ _ H1). pose proof (wf_order _ _ H2).
  destruct (Z.leb_spec (Z.max (b_start b1) (b_start b2)) (Z.min (b_end b1) (b_end b2))) as [Hle|Hgt].
  - set (s := Z.max _ _) in *. set (e := Z.min _ _) in *.
    assert (block_wf M (mkBlock s e)) as Hb.
    { destruct (Z.le_gt_cases (b_start b1) (b_start b2)).
      - apply (wf_sub b2); [done|lia..].
      - apply (wf_sub b1); [done|lia..]. }
    exists (mkBlock s e). pose proof (wf_usize _ _ Hb) as [Us Ue].
    rewrite (proj2 (block_from_index_spec s e _ Us Ue) (conj eq_refl Hb)).
    split; [done|]. split; [done|]. intros i. rewrite contains_index_iff. cbn. lia.
  - exists block_zero. split; [done|]. split.
    + split; cbn; rewrite ?Z.mul_0_l; try done; apply same_half_refl.
    + intros i. rewrite contains_index_iff. cbn. lia.
Qed.

(** Two well-formed blocks, the second starting where the first ends, form a
    well-formed block. *)
Lemma wf_join b1 b2 :
  block_wf M b1 -> block_wf M b2 -> b_end b1 = b_start b2 ->
  block_wf M (mkBlock (b_start b1) (b_end b2)).
Proof using HM.
  intros H1 H2 Heq. pose proof (wf_order _ _ H1). pose proof (wf_order _ _ H2).
  destruct (decide (b_start b1 = b_end b1)) as [E1|E1].
  { replace (b_start b1) with (b_start b2) by lia. destruct b2. exact H2. }
  destruct (decide (b_start b2 = b_end b2)) as [E2|E2].
  { replace (b_end b2) with (b_end b1) by lia. destruct b1. exact H1. }
  assert (last_index b1 + 1 = b_start b2 /\
          last_index b2 = last_index (mkBlock (b_start b1) (b_end b2)))
    as [El1 El2] by (unfold last_index; cbn; rewrite !(proj2 (Z.ltb_lt _ _)) by lia; lia).
  pose proof (wf_start _ _ H1) as Vs1. pose proof (wf_start _ _ H2) as Vs2.
  pose proof (wf_last _ _ H1) as Vl1. pose proof (wf_last _ _ H2) as Vl2.
  split; cbn; [split; [apply (wf_usize _ _ H1)|apply (wf_usize _ _ H2)]|lia|done| |];
    rewrite <- El2; [done|].
  apply same_half_trans with (b_start b2 * SIZE_OF M); [done..| |apply (wf_half _ _ H2)].
  apply same_half_trans with (last_index b1 * SIZE_OF M); [done..|apply (wf_half _ _ H1)|].
  rewrite <- El1 in *. by apply neighbour_same_half.
Qed.

Lemma is_adjacent_iff b1 b2 :
  block_wf M b1 -> block_wf M b2 -> is_adjacent M b1 b2 = Ok (b_end b1 =? b_start b2).
Proof using HM.
  intros H1 H2. pose proof (size_of_pos (M := M)) as Hpos.
  unfold is_adjacent. rewrite wf_start_address by done.
  destruct (end_address M b1) as [a|e|] eqn:E; [| |by apply address_by_index_total in E].
  - apply end_address_ok in E as [-> _]; [|done]. f_equal. apply eq_true_iff_eq.
    rewrite !Z.eqb_eq. nia.
  - f_equal. symmetry. apply Z.eqb_neq. intros Heq.
    pose proof (proj2 (end_address_ok b1 (b_end b1 * SIZE_OF M) H1)) as Hok.
    rewrite E, Heq in Hok. by specialize (Hok (conj eq_refl (wf_start _ _ H2))).
Qed.

(** [coalesce] succeeds exactly for adjacent blocks (the second starts where
    the first ends), its internal [expect] never fires, and the result is well
    formed and contains exactly the indexes of the two. *)
Theorem coalesce_exact b1 b2 :
  block_wf M b1 -> block_wf M b2 ->
  (b_end b1 = b_start b2 /\ exists b, coalesce M b1 b2 = Ok b /\ block_wf M b /\
     forall i, contains_index b i = contains_index b1 i || contains_index b2 i) \/
  (b_end b1 <> b_start b2 /\ coalesce M b1 b2 = Err InvalidArgument).
Proof using HM.
  intros H1 H2. pose proof (wf_order _ _ H1). pose proof (wf_order _ _ H2).
  unfold coalesce. rewrite is_adjacent_iff by done.
  destruct (Z.eqb_spec (b_end b1) (b_start b2)) as [Heq|Hne]; [left|by right].
  split; [done|]. pose proof (wf_join b1 b2 H1 H2 Heq) as Hb.
  eexists. split; [|split; [exact Hb|]].
  - by rewrite (proj2 (block_from_index_spec _ _ _ (proj1 (wf_usize _ _ H1)) (proj2 (wf_usize _ _ H2)))
      (conj eq_refl Hb)).
  - intros i. apply eq_true_iff_eq. rewrite orb_true_iff, !contains_index_iff. cbn. lia.
Qed.

Lemma wf_next b : block_wf M b -> b_start b + 1 < b_end b -> block_wf M (mkBlock (b_start b + 1) (b_end b)).
Proof using HM. intros Hb Hlt. apply (wf_sub b); [done|lia..]. Qed.

Lemma iterate_spec fuel b :
  (b_start b < b_end b -> block_wf M b) -> b_start b <= b_end b ->
  b_end b - b_start b < Z.of_nat fuel ->
  iterate M fuel b = Ok (Some ((fun i => i * SIZE_OF M) <$> block_indices b)).
Proof using HM.
  revert b. induction fuel as [|fuel IH]; intros b Hb Ho Hf; [lia|].
  cbn [iterate]. unfold into_iter_next, block_indices.
  destruct (Z.ltb_spec (b_start b) (b_end b)) as [Hlt|Hge]; [|by rewrite seqZ_nil by lia].
  specialize (Hb Hlt). destruct (wf_element b (b_start b) Hb ltac:(lia)) as [Hv _].
  rewrite (proj2 (mem_from_index_spec (b_start b) _ (proj1 (wf_usize _ _ Hb))) (conj eq_refl Hv)).
  rewrite (IH (mkBlock (b_start b + 1) (b_end b))); cbn; [|intros; by apply wf_next|lia|lia].
  rewrite (seqZ_cons (b_start b)) by lia. cbn. unfold block_indices. cbn. do 5 f_equal. lia.
Qed.

(** A [for] loop over a well-formed block terminates without a panic after
    visiting each of its elements once, in increasing order of address. *)
Theorem block_iteration b fuel :
  block_wf M b -> b_end b - b_start b < Z.of_nat fuel ->
  iterate M fuel b = Ok (Some ((fun i => i * SIZE_OF M) <$> block_indices b)).
Proof using HM. intros Hb Hf. apply iterate_spec; [done|apply (wf_order _ _ Hb)|done]. Qed.

(** Cutting the last [n > 0] elements off a block: [tail] answers [None] and
    leaves the block unchanged when there are fewer than [n] elements; otherwise
    it splits the block into two well-formed adjacent parts, the second with
    exactly [n] elements, and [coalesce] restores the original block. *)
Theorem tail_splits b n :
  block_wf M b -> 0 < n < USIZE_MODULUS ->
  (b_end b - b_start b < n /\ tail M b n = Ok (b, None)) \/
  (n <= b_end b - b_start b /\ exists rest cut,
     tail M b n = Ok (rest, Some cut) /\ block_wf M rest /\ block_wf M cut /\
     count cut = Ok n /\ coalesce M rest cut = Ok b).
Proof using HM.
  intros Hb Hn. pose proof (wf_order _ _ Hb). pose proof (wf_usize _ _ Hb) as [Us Ue].
  unfold tail. rewrite wf_count by done.
  destruct (Z.leb_spec n (b_end b - b_start b)) as [Hle|Hgt]; [right|by left].
  split; [done|]. assert (is_usize (b_end b - n)) by (unfold is_usize in *; lia).
  rewrite usize_sub_ok by done.
  assert (block_wf M (mkBlock (b_end b - n) (b_end b))) as Hcut by (apply (wf_sub b); [done|lia..]).
  assert (block_wf M (mkBlock (b_start b) (b_end b - n))) as Hrest by (apply (wf_sub b); [done|lia..]).
  rewrite (proj2 (block_from_index_spec _ _ _ ltac:(done) Ue) (conj eq_refl Hcut)).
  eexists _, _. split; [done|]. split; [done|]. split; [done|]. split.
  - rewrite wf_count by done. f_equal. cbn. lia.
  - unfold coalesce. rewrite is_adjacent_iff by done. cbn. rewrite Z.eqb_refl.
    destruct b as [s e]. cbn in *.
    by rewrite (proj2 (block_from_index_spec _ _ _ Us Ue) (conj eq_refl Hb)).
Qed.

(** Byte offsets and addresses of a block correspond: an offset inside the
    block gives the address that many bytes after its start, and [offset] of
    that address returns the offset; an offset at or past the end is
    [Overflow].  Neither conversion panics. *)
Theorem address_offset_roundtrip b off :
  block_wf M b -> 0 <= off ->
  (off < (b_end b - b_start b) * SIZE_OF M /\
     address M b off = Ok (b_start b * SIZE_OF M + off) /\
     offset M b (b_start b * SIZE_OF M + off) = Ok off) \/
  ((b_end b - b_start b) * SIZE_OF M <= off /\ address M b off = Err Overflow).
Proof using HM.
  intros Hb Hoff. pose proof (size_of_pos (M := M)) as Hpos.
  unfold address. rewrite wf_size by done.
  destruct (Z.ltb_spec off ((b_end b - b_start b) * SIZE_OF M)) as [Hlt|Hge]; [left|by right].
  split; [done|]. set (S := SIZE_OF M) in *. set (a := b_start b * S + off).
  assert (b_start b < b_end b) as Hne by nia.
  assert (valid (mem_tag M) a /\ is_same_half (mem_tag M) (b_start b * S) a = true) as [Va Ha].
  { apply (wf_address b); [done|]. fold S. unfold a. nia. }
  rewrite wf_start_address by done. fold S.
  pose proof (valid_usize _ Va) as Ua.
  rewrite usize_add_ok by done. fold a. unfold addr_new.
  rewrite (valid_new _ Va). split; [done|].
  unfold offset. rewrite contains_address_spec by auto. fold S.
  rewrite (proj2 (Z.leb_le _ _)) by lia.
  rewrite (proj2 (Z.ltb_lt _ _)) by (apply Z.div_lt_upper_bound; unfold a; lia). cbn [andb].
  rewrite wf_start_address by done. fold S. rewrite usize_sub_ok.
  - f_equal. lia.
  - apply valid_usize in Va. pose proof (valid_usize _ (wf_start _ _ Hb)) as Us. fold S in Us.
    unfold is_usize in *. unfold a in *. lia.
Qed.

End BlockTheorems.

(** ** Enclosing pages of a block of addresses *)

Section Enclosing.
  Context (T : Tag) `{!TagLaws T} `{!HalfGeometry T} `{!AlignedHalves T L0_SIZE}.

(** The pages from the one of [a] to the one of [c] form a well-formed block. *)
Lemma enclosing_wf a c :
  valid T a -> valid T c -> is_same_half T a c = true -> a <= c ->
  block_wf (FrageMem T L0_SIZE) (mkBlock (a / L0_SIZE) (c / L0_SIZE + 1)).
Proof using TagLaws0 AlignedHalves0.
  intros Va Vc Hh Hle. destruct (round_down_valid a Va) as [Va' Ha].
  destruct (round_down_valid c Vc) as [Vc' Hc].
  assert (a / L0_SIZE <= c / L0_SIZE) as Hord by (apply Z.div_le_mono; [done|lia]).
  assert (last_index (mkBlock (a / L0_SIZE) (c / L0_SIZE + 1)) = c / L0_SIZE) as Hl.
  { unfold last_index. cbn -[Z.div]. rewrite (proj2 (Z.ltb_lt _ _)) by lia. lia. }
  assert (is_usize (a / L0_SIZE) /\ is_usize (c / L0_SIZE + 1)) as Hu.
  { apply valid_usize in Va, Vc. unfold is_usize in *. change L0_SIZE with 4096 in *.
    split; Z.div_mod_to_equations; lia. }
  split; rewrite ?Hl; cbn -[Z.div]; [done|lia|done..|].
  apply same_half_trans with a; [done..|]. apply same_half_trans with c; [done..|].
  by rewrite same_half_sym.
Qed.

Lemma enclosing_empty b :
  block_wf (AddrMem T) b -> b_start b = b_end b ->
  enclosing T b = Ok (mkBlock (b_start b / L0_SIZE) (b_start b / L0_SIZE)).
Proof using TagLaws0 HalfGeometry0 AlignedHalves0.
  intros Hb Heq. unfold enclosing. cbn -[L0_SIZE block_from_index Z.div].
  unfold index_by_address. rewrite supported_size, (proj2 (Z.eqb_eq _ _) Heq).
  pose proof (wf_start _ _ Hb) as Vs. cbn in Vs. rewrite Z.mul_1_r in Vs.
  pose proof (enclosing_wf _ _ Vs Vs (same_half_refl _) (Z.le_refl _)) as Hw.
  set (f := b_start b / L0_SIZE) in *.
  assert (block_wf (FrageMem T L0_SIZE) (mkBlock f f)) as Hf by (apply (wf_sub _ _ _ Hw); cbn; lia).
  pose proof (wf_usize _ _ Hf) as [U1 U2]. cbn in U1, U2.
  by rewrite (proj2 (block_from_index_spec (M := FrageMem T L0_SIZE) f f _ U1 U2) (conj eq_refl Hf)).
Qed.

Lemma enclosing_spec b :
  block_wf (AddrMem T) b -> b_start b < b_end b ->
  (valid T (b_end b) /\ exists p, enclosing T b = Ok p /\ block_wf (FrageMem T L0_SIZE) p /\
     (forall a, b_start b <= a < b_end b -> contains_index p (a / L0_SIZE) = true) /\
     (forall i, contains_index p i = true ->
        exists a, b_start b <= a < b_end b /\ a / L0_SIZE = i)) \/
  (~ valid T (b_end b) /\ enclosing T b = Panic).
Proof using TagLaws0 HalfGeometry0 AlignedHalves0.
  intros Hb Hne. pose proof (wf_start _ _ Hb) as Vs. pose proof (wf_last _ _ Hb) as Vl.
  pose proof (wf_half _ _ Hb) as Hh. pose proof (wf_usize _ _ Hb) as [_ Ue].
  unfold last_index in *. rewrite (proj2 (Z.ltb_lt _ _) Hne) in *.
  cbn in Vs, Vl, Hh. rewrite !Z.mul_1_r in *.
  unfold enclosing, end_address. cbn -[L0_SIZE block_from_index Z.div].
  unfold index_by_address, addr_new. rewrite supported_size.
  rewrite (proj2 (Z.eqb_neq _ _)) by lia.
  destruct (tag_new_cases (b_end b)) as [E|E]; rewrite E; cbn -[L0_SIZE block_from_index Z.div];
    [left|right; split; [|done]; intros [_ ?]; congruence].
  assert (valid T (b_end b)) as Ve by done. split; [done|].
  assert (addr_sub T (b_end b) 1 = Ok (b_end b - 1)) as ->.
  { apply addr_sub_spec; [done|lia|]. split; [done|]. split; [done|].
    rewrite same_half_sym. apply near_same_half; [done..|lia]. }
  cbn -[L0_SIZE block_from_index Z.div].
  pose proof (enclosing_wf _ _ Vs Vl Hh ltac:(lia)) as Hp.
  pose proof (wf_usize _ _ Hp) as [U1 U2]. cbn -[Z.div] in U1, U2.
  rewrite usize_add_ok by done.
  rewrite (proj2 (block_from_index_spec (M := FrageMem T L0_SIZE) _ _ _ U1 U2) (conj eq_refl Hp)).
  eexists. split; [done|]. split; [done|]. split.
  - intros a Ha. apply contains_index_iff. cbn -[Z.div].
    change L0_SIZE with 4096. Z.div_mod_to_equations; lia.
  - intros i Hi%contains_index_iff. cbn -[Z.div] in Hi.
    exists (Z.max (b_start b) (i * L0_SIZE)). change L0_SIZE with 4096 in *.
    destruct (Z.max_spec (b_start b) (i * 4096)) as [[? ->]|[? ->]];
      repeat split; try lia; Z.div_mod_to_equations; lia.
Qed.

(** The pages enclosing a non-empty block of addresses: when the address just
    past the block exists, the result is well formed, covers every address of
    the block and every page of it holds such an address, so it is the smallest; when that address does
    not exist (the block reaches the end of a half), the code panics. *)
Theorem enclosing_exact b :
  block_wf (AddrMem T) b -> b_start b < b_end b ->
  (valid T (b_end b) /\ exists p, enclosing T b = Ok p /\ block_wf (FrageMem T L0_SIZE) p /\
     (forall a, b_start b <= a < b_end b -> contains_index p (a / L0_SIZE) = true) /\
     (forall i, contains_index p i = true ->
        exists a, b_start b <= a < b_end b /\ a / L0_SIZE = i)) \/
  (~ valid T (b_end b) /\ enclosing T b = Panic).
Proof using TagLaws0 HalfGeometry0 AlignedHalves0. apply enclosing_spec. Qed.

End Enclosing.

(** ** Witnesses *)

(** A page block that is well formed because the constructor accepts it. *)
Lemma wf_by_check (M : Memory) `{!MemoryLaws M} s e :
  fits_usize s && fits_usize e = true -> is_ok (block_from_index M s e) = true ->
  block_wf M (mkBlock s e).
Proof.
  intros Hu Hok. apply andb_true_iff in Hu as [Us%fits_usize_true Ue%fits_usize_true].
  destruct (block_from_index M s e) as [b| |] eqn:E; [|done..].
  by apply block_from_index_spec in E as [_ ?].
Qed.

Ltac wf_check := apply wf_by_check; [apply _|vm_compute; reflexivity..].

Lemma block_from_index_exact_witness :
  block_from_index Page 34359738367 34359738369 <> Panic /\
  block_from_index Page 34359738360 34359738368 = Ok (mkBlock 34359738360 34359738368).
Proof.
  split; [apply (block_from_index_exact Page _ _ block_zero); split; lia|].
  apply (block_from_index_exact Page 34359738360 34359738368); [split; lia..|].
  split; [reflexivity|]. split; [lia|]. change (SIZE_OF Page) with 4096.
  split; [apply virt_valid_iff; unfold canonical; lia|]. intros i Hi.
  assert (canonical (i * 4096)) as Hc by (unfold canonical; lia).
  split; [by apply virt_valid_iff|]. apply virt_same_half_iff; [unfold canonical; lia|done|lia].
Defined.

Lemma coalesce_exact_witness :
  exists b, coalesce Frame (mkBlock 2 5) (mkBlock 5 9) = Ok b /\ contains_index b 5 = true.
Proof.
  destruct (coalesce_exact Frame (mkBlock 2 5) (mkBlock 5 9)) as [(_ & b & Hb & _ & Hi)|[H _]];
    [wf_check|wf_check| |cbn in H; lia].
  exists b. split; [exact Hb|]. rewrite Hi. reflexivity.
Defined.

Lemma block_iteration_witness :
  iterate Page 4 (mkBlock 34359738366 34359738368) = Ok (Some [LOWER_END - 8192; LOWER_END - 4096]).
Proof. apply (block_iteration Page (mkBlock 34359738366 34359738368) 4); [wf_check|cbn; lia]. Defined.

Lemma tail_splits_witness :
  exists rest cut, tail Page (mkBlock 34359738360 34359738368) 3 = Ok (rest, Some cut).
Proof.
  destruct (tail_splits Page (mkBlock 34359738360 34359738368) 3)
    as [[H _]|(_ & rest & cut & H & _)]; [wf_check|lia|cbn in H; lia|].
  exists rest, cut. exact H.
Defined.

Lemma address_offset_roundtrip_witness :
  offset Page (mkBlock 2 5) (8192 + 4100) = Ok 4100 /\
  address Page (mkBlock 2 5) 12288 = Err Overflow.
Proof.
  split.
  - destruct (address_offset_roundtrip Page (mkBlock 2 5) 4100) as [(_ & _ & H)|[H _]];
      [wf_check|lia|exact H|change (SIZE_OF Page) with 4096 in H; cbn in H; lia].
  - destruct (address_offset_roundtrip Page (mkBlock 2 5) 12288) as [(H & _ & _)|[_ H]];
      [wf_check|lia|change (SIZE_OF Page) with 4096 in H; cbn in H; lia|exact H].
Defined.

Lemma enclosing_exact_witness :
  (exists p, enclosing VirtTag (mkBlock 4095 4097) = Ok p) /\
  enclosing VirtTag (mkBlock 140737488355327 LOWER_END) = Panic.
Proof.
  split.
  - destruct (enclosing_exact VirtTag (mkBlock 4095 4097)) as [(_ & p & Hp & _)|[H _]];
      [wf_check|cbn; lia|exists p; exact Hp|].
    exfalso. apply H, virt_valid_iff. unfold canonical. cbn. lia.
  - destruct (enclosing_exact VirtTag (mkBlock 140737488355327 LOWER_END)) as [(H & _)|[_ H]];
      [wf_check|cbn; lia| |exact H].
    apply virt_valid_iff in H. unfold canonical in H. cbn in H. lia.
Defined.
