(* ===== verification/Mmu.v ===== *)
(** * Mmu: page table entries and their flags

    Models [PageTableEntry] and [PageTableFlags] of [ku/src/memory/mmu.rs].  An
    entry is a 64-bit word: the physical address in bits 12..52, the flags in the
    other bits, with the executable bit stored inverted.  A set of flags is the
    word of its bits. *)

From S2P Require Import Prelude Addr Frage.
From stdpp Require Import base list numbers tactics.
From Stdlib Require Import ZArith Lia.

Open Scope Z_scope.
Open Scope outcome_scope.

(** ** [PageTableFlags] *)

Module PageTableFlags.

Definition PRESENT : Z := Z.shiftl 1 0.
Definition WRITABLE : Z := Z.shiftl 1 1.
Definition USER : Z := Z.shiftl 1 2.
Definition WRITE_THROUGH : Z := Z.shiftl 1 3.
Definition NO_CACHE : Z := Z.shiftl 1 4.
Definition ACCESSED : Z := Z.shiftl 1 5.
Definition DIRTY : Z := Z.shiftl 1 6.
Definition HUGE : Z := Z.shiftl 1 7.
Definition GLOBAL : Z := Z.shiftl 1 8.
Definition AVAILABLE : Z := Z.shiftl 7 9.
Definition AVAILABLE_0 : Z := Z.shiftl 1 9.
Definition AVAILABLE_1 : Z := Z.shiftl 1 10.
Definition AVAILABLE_2 : Z := Z.shiftl 1 11.
Definition COPY_ON_WRITE : Z := Z.shiftl 1 9.
Definition EXECUTABLE : Z := Z.shiftl 1 63.

(** The operations the [bitflags] macro derives. *)
Definition all : Z :=
  foldr Z.lor 0
    [PRESENT; WRITABLE; USER; WRITE_THROUGH; NO_CACHE; ACCESSED; DIRTY; HUGE; GLOBAL;
     AVAILABLE; AVAILABLE_0; AVAILABLE_1; AVAILABLE_2; COPY_ON_WRITE; EXECUTABLE].

Definition contains (flags other : Z) : bool := Z.land flags other =? other.

Definition from_bits (bits : Z) : option Z :=
  if Z.land bits (lnot64 all) =? 0 then Some bits else None.

Definition from_bits_truncate (bits : Z) : Z := Z.land bits all.

Definition is_empty (flags : Z) : bool := flags =? 0.

(** The getters. *)
Definition is_dirty (flags : Z) : bool := contains flags DIRTY.
Definition is_executable (flags : Z) : bool := contains flags EXECUTABLE.
Definition is_huge (flags : Z) : bool := contains flags HUGE.
Definition is_present (flags : Z) : bool := contains flags PRESENT.
Definition is_writable (flags : Z) : bool := contains flags WRITABLE.
Definition is_user (flags : Z) : bool := contains flags USER.

End PageTableFlags.

Definition KERNEL_R : Z := PageTableFlags.from_bits_truncate PageTableFlags.PRESENT.
Definition KERNEL_RW : Z :=
  PageTableFlags.from_bits_truncate (Z.lor KERNEL_R PageTableFlags.WRITABLE).
Definition KERNEL_RX : Z :=
  PageTableFlags.from_bits_truncate (Z.lor KERNEL_R PageTableFlags.EXECUTABLE).
Definition KERNEL_MMIO : Z :=
  PageTableFlags.from_bits_truncate
    (Z.lor (Z.lor KERNEL_RW PageTableFlags.NO_CACHE) PageTableFlags.WRITE_THROUGH).
Definition USER_R : Z :=
  PageTableFlags.from_bits_truncate (Z.lor PageTableFlags.PRESENT PageTableFlags.USER).
Definition USER_RW : Z :=
  PageTableFlags.from_bits_truncate (Z.lor USER_R PageTableFlags.WRITABLE).
Definition USER_RX : Z :=
  PageTableFlags.from_bits_truncate (Z.lor USER_R PageTableFlags.EXECUTABLE).
Definition FULL_ACCESS : Z :=
  PageTableFlags.from_bits_truncate
    (Z.lor (Z.lor (Z.lor PageTableFlags.EXECUTABLE PageTableFlags.PRESENT) PageTableFlags.USER)
       PageTableFlags.WRITABLE).
Definition SYSCALL_ALLOWED_FLAGS : Z :=
  PageTableFlags.from_bits_truncate
    (Z.lor (Z.lor (Z.lor FULL_ACCESS PageTableFlags.ACCESSED) PageTableFlags.COPY_ON_WRITE)
       PageTableFlags.DIRTY).

(** ** [PageTableEntry] *)

Module Pte.

Definition ADDRESS_MASK : Z :=
  Z.land (Z.shiftl 1 Phys.PHYS_BITS - 1) (lnot64 (Z.shiftl 1 PAGE_OFFSET_BITS - 1)).

Definition flags (pte : Z) : outcome Z :=
  match PageTableFlags.from_bits (Z.land pte (lnot64 ADDRESS_MASK)) with
  | Some flags => Ok (Z.lxor flags PageTableFlags.EXECUTABLE)
  | None => Panic
  end.

Definition phys (pte : Z) : outcome Z := unwrap (addr_new PhysTag (Z.land pte ADDRESS_MASK)).

(** The methods that take [&mut self] return the new value of the entry. *)
Definition set_phys (phys flags : Z) : Z := Z.lor phys (Z.lxor flags PageTableFlags.EXECUTABLE).

Definition set_flags (pte flags : Z) : outcome Z :=
  let? phys := phys pte in Ok (set_phys phys flags).

Definition is_huge (pte : Z) : outcome bool :=
  let? flags := flags pte in Ok (PageTableFlags.is_huge flags).
Definition is_present (pte : Z) : outcome bool :=
  let? flags := flags pte in Ok (PageTableFlags.is_present flags).
Definition is_writable (pte : Z) : outcome bool :=
  let? flags := flags pte in Ok (PageTableFlags.is_writable flags).
Definition is_user (pte : Z) : outcome bool :=
  let? flags := flags pte in Ok (PageTableFlags.is_user flags).

Definition frame (pte : Z) : outcome Z :=
  let? huge := is_huge pte in
  assert! negb huge in
  let? present := is_present pte in
  if present : bool then
    let? phys := phys pte in unwrap (frage_new L0_SIZE phys)
  else Err NoPage.

Definition set_frame (frame flags : Z) : outcome Z :=
  assert! negb (PageTableFlags.contains flags PageTableFlags.HUGE) in
  Ok (set_phys (frage_address frame) (Z.lor flags PageTableFlags.PRESENT)).

Definition huge_frame (SIZE pte : Z) : outcome Z :=
  let? huge := is_huge pte in
  assert! (huge : bool) in
  let? present := is_present pte in
  if present : bool then
    let? phys := phys pte in unwrap (frage_new SIZE phys)
  else Err NoPage.

Definition set_huge_frame (frame flags : Z) : Z :=
  set_phys (frage_address frame)
    (Z.lor (Z.lor flags PageTableFlags.HUGE) PageTableFlags.PRESENT).

Definition clear : Z := 0.

Definition take (pte : Z) : outcome (Z * Z) :=
  let? huge := is_huge pte in
  assert! negb huge in
  let? present := is_present pte in
  if present : bool then
    let? phys := phys pte in
    let? frame := unwrap (frage_new L0_SIZE phys) in
    Ok (frame, clear)
  else Err NoPage.

End Pte.

(** ** Bits of entries *)

(** A set of flags, and the address of a 4 KiB frame. *)
Definition is_flags (f : Z) : Prop := is_usize f /\ PageTableFlags.from_bits f = Some f.
Definition is_frame (p : Z) : Prop := valid PhysTag p /\ (L0_SIZE | p).

(** The bit positions of flags and of frame addresses. *)
Definition flag_bit (i : Z) : bool := (i <? 12) || (i =? 63).
Definition addr_bit (i : Z) : bool := (12 <=? i) && (i <? 52).

Lemma all_testbit i : 0 <= i -> Z.testbit PageTableFlags.all i = flag_bit i.
Proof.
  intros Hi. change PageTableFlags.all with (Z.lor (Z.ones 12) (2 ^ 63)).
  rewrite Z.lor_spec, Z.testbit_ones_nonneg, Z.pow2_bits_eqb by lia.
  unfold flag_bit. f_equal. apply Z.eqb_sym.
Qed.

Lemma mask_testbit i : 0 <= i -> Z.testbit Pte.ADDRESS_MASK i = addr_bit i.
Proof.
  intros Hi. change Pte.ADDRESS_MASK with (Z.shiftl (Z.ones 40) 12).
  rewrite Z.shiftl_spec by lia. unfold addr_bit.
  destruct (Z.leb_spec 12 i).
  - rewrite Z.testbit_ones_nonneg by lia. cbn [andb].
    destruct (Z.ltb_spec (i - 12) 40), (Z.ltb_spec i 52); lia.
  - rewrite Z.testbit_neg_r by lia. done.
Qed.

Lemma is_flags_bit f i : is_flags f -> 0 <= i -> flag_bit i = false -> Z.testbit f i = false.
Proof.
  intros [Hu Hf] Hi Hb. unfold PageTableFlags.from_bits in Hf. split_cases_in Hf. bool_simp.
  destruct (Z.lt_ge_cases i 64); [|by apply (testbit_high f 64); [exact Hu|]].
  assert (Z.testbit (Z.land f (lnot64 PageTableFlags.all)) i = false) as Hl.
  { rewrite Heqb. apply Z.bits_0. }
  rewrite Z.land_spec, lnot64_testbit, all_testbit, Hb in Hl by (done || lia).
  rewrite (proj2 (Z.ltb_lt i 64)) in Hl by lia. by rewrite andb_true_r in Hl.
Qed.

Lemma is_frame_bit p i : is_frame p -> 0 <= i -> addr_bit i = false -> Z.testbit p i = false.
Proof.
  intros [Hp%phys_valid_iff [q ->]] Hi Hb. change L0_SIZE with (2 ^ 12) in *.
  unfold addr_bit in Hb. apply andb_false_iff in Hb as [Hb|Hb]; bool_simp.
  - rewrite <- Z.shiftl_mul_pow2 by lia. by apply Z.shiftl_spec_low.
  - apply (testbit_high _ 52); [exact Hp|lia].
Qed.

Lemma is_flags_intro f :
  is_usize f -> (forall i, 0 <= i -> flag_bit i = false -> Z.testbit f i = false) -> is_flags f.
Proof.
  intros Hu Hb. split; [done|]. unfold PageTableFlags.from_bits.
  rewrite (proj2 (Z.eqb_eq _ _)); [done|]. apply Z.bits_inj'. intros i Hi.
  rewrite Z.bits_0, Z.land_spec, lnot64_testbit, all_testbit by done.
  destruct (flag_bit i) eqn:E; [by rewrite andb_false_r, andb_false_r|by rewrite Hb].
Qed.

Lemma word_of_bits x :
  0 <= x -> (forall i, 64 <= i -> Z.testbit x i = false) -> is_usize x.
Proof.
  intros Hx Hb. split; [done|]. destruct (decide (x = 0)); [lia|].
  change USIZE_MODULUS with (2 ^ 64). apply Z.log2_lt_pow2; [lia|].
  destruct (Z.lt_ge_cases (Z.log2 x) 64) as [|Hge]; [done|].
  pose proof (Hb _ Hge) as H. rewrite Z.bit_log2 in H by lia. done.
Qed.

Lemma is_flags_op (op : Z -> Z -> Z) (bop : bool -> bool -> bool) f g :
  (forall a b i, Z.testbit (op a b) i = bop (Z.testbit a i) (Z.testbit b i)) ->
  bop false false = false -> (forall a b, 0 <= a -> 0 <= b -> 0 <= op a b) ->
  is_flags f -> is_flags g -> is_flags (op f g).
Proof.
  intros Hop Hff Hpos Hf Hg.
  assert (forall i, 0 <= i -> flag_bit i = false -> Z.testbit (op f g) i = false) as Hb.
  { intros i Hi Hb. by rewrite Hop, !is_flags_bit. }
  apply is_flags_intro; [|done]. apply word_of_bits.
  - apply Hpos; [apply (proj1 Hf)|apply (proj1 Hg)].
  - intros i Hi. apply Hb; [lia|]. unfold flag_bit.
    rewrite (proj2 (Z.ltb_ge _ _)), (proj2 (Z.eqb_neq _ _)) by lia. done.
Qed.

Lemma is_flags_lor f g : is_flags f -> is_flags g -> is_flags (Z.lor f g).
Proof. apply (is_flags_op Z.lor orb); [apply Z.lor_spec|done|intros; by apply Z.lor_nonneg]. Qed.

Lemma is_flags_land f g : is_flags f -> is_flags g -> is_flags (Z.land f g).
Proof. apply (is_flags_op Z.land andb); [apply Z.land_spec|done|intros; apply Z.land_nonneg; auto]. Qed.

Lemma is_flags_lxor f g : is_flags f -> is_flags g -> is_flags (Z.lxor f g).
Proof.
  apply (is_flags_op Z.lxor xorb); [apply Z.lxor_spec|done|]. intros a b Ha Hb.
  apply Z.lxor_nonneg. lia.
Qed.

Lemma is_flags_const f : fits_usize f && (Z.land f (lnot64 PageTableFlags.all) =? 0) = true -> is_flags f.
Proof.
  intros [Hu Hf]%andb_true_iff. split; [by apply fits_usize_true|].
  unfold PageTableFlags.from_bits. by rewrite Hf.
Qed.

(** ** Entries built by [set_phys] *)

Section SetPhys.
  Context (p f : Z) (Hp : is_frame p) (Hf : is_flags f).

Lemma executable_flags : is_flags PageTableFlags.EXECUTABLE.
Proof. by apply is_flags_const. Qed.

Lemma set_phys_flags : Pte.flags (Pte.set_phys p f) = Ok f.
Proof using Hp Hf.
  unfold Pte.flags, Pte.set_phys. set (g := Z.lxor f PageTableFlags.EXECUTABLE).
  assert (is_flags g) as Hg by (apply is_flags_lxor; [done|apply executable_flags]).
  assert (Z.land (Z.lor p g) (lnot64 Pte.ADDRESS_MASK) = g) as ->.
  { apply Z.bits_inj'. intros i Hi.
    rewrite Z.land_spec, Z.lor_spec, lnot64_testbit, mask_testbit by done.
    destruct (addr_bit i) eqn:Ea.
    - rewrite andb_false_r, andb_false_r. symmetry. apply is_flags_bit; [done..|].
      unfold addr_bit, flag_bit in *. bool_simp.
      rewrite (proj2 (Z.ltb_ge _ _)), (proj2 (Z.eqb_neq _ _)) by lia. done.
    - rewrite (is_frame_bit p i) by done. cbn [orb negb]. rewrite andb_true_r.
      destruct (Z.ltb_spec i 64); [by rewrite andb_true_r|].
      rewrite andb_false_r. symmetry. apply (testbit_high g 64); [apply (proj1 Hg)|lia]. }
  destruct Hg as [_ ->]. unfold g.
  by rewrite Z.lxor_assoc, Z.lxor_nilpotent, Z.lxor_0_r.
Qed.

Lemma set_phys_phys : Pte.phys (Pte.set_phys p f) = Ok p.
Proof using Hp Hf.
  unfold Pte.phys, Pte.set_phys. set (g := Z.lxor f PageTableFlags.EXECUTABLE).
  assert (is_flags g) as Hg by (apply is_flags_lxor; [done|apply executable_flags]).
  assert (Z.land (Z.lor p g) Pte.ADDRESS_MASK = p) as ->.
  { apply Z.bits_inj'. intros i Hi. rewrite Z.land_spec, Z.lor_spec, mask_testbit by done.
    destruct (addr_bit i) eqn:Ea.
    - rewrite (is_flags_bit g i); [by rewrite orb_false_r, andb_true_r|done..|].
      unfold addr_bit, flag_bit in *. bool_simp.
      rewrite (proj2 (Z.ltb_ge _ _)), (proj2 (Z.eqb_neq _ _)) by lia. done.
    - rewrite andb_false_r. symmetry. by apply is_frame_bit. }
  unfold addr_new. by rewrite (valid_new _ (proj1 Hp)).
Qed.

Lemma frame_new : frage_new L0_SIZE p = Ok p.
Proof using Hp.
  unfold frage_new. rewrite supported_size.
  by rewrite (proj2 (is_multiple_of_divide p L0_SIZE ltac:(done)) (proj2 Hp)).
Qed.

(** What the entry answers, by the flags it was written with. *)
Lemma set_phys_frame :
  PageTableFlags.is_huge f = false ->
  Pte.frame (Pte.set_phys p f) = if PageTableFlags.is_present f then Ok p else Err NoPage.
Proof using Hp Hf.
  intros Hh. unfold Pte.frame, Pte.is_huge, Pte.is_present.
  rewrite set_phys_flags, Hh. cbn [negb].
  destruct (PageTableFlags.is_present f); [|done]. by rewrite set_phys_phys, frame_new.
Qed.

Lemma set_phys_take :
  PageTableFlags.is_huge f = false ->
  Pte.take (Pte.set_phys p f) =
    if PageTableFlags.is_present f then Ok (p, Pte.clear) else Err NoPage.
Proof using Hp Hf.
  intros Hh. unfold Pte.take, Pte.is_huge, Pte.is_present.
  rewrite set_phys_flags, Hh. cbn [negb].
  destruct (PageTableFlags.is_present f); [|done]. by rewrite set_phys_phys, frame_new.
Qed.

End SetPhys.

Lemma contains_lor_r f g : PageTableFlags.contains (Z.lor f g) g = true.
Proof.
  unfold PageTableFlags.contains. apply Z.eqb_eq. rewrite Z.land_lor_distr_l, Z.land_diag.
  apply Z.bits_inj'. intros i Hi. rewrite Z.lor_spec, Z.land_spec.
  by destruct (Z.testbit f i), (Z.testbit g i).
Qed.

(** A single-bit flag is contained exactly when its bit is set. *)
Lemma contains_bit f n : 0 <= n -> PageTableFlags.contains f (2 ^ n) = Z.testbit f n.
Proof.
  intros Hn. unfold PageTableFlags.contains. apply eq_true_iff_eq. rewrite Z.eqb_eq. split.
  - intros H. assert (Z.testbit (Z.land f (2 ^ n)) n = true) as Hb
      by (rewrite H; apply Z.pow2_bits_true; lia).
    rewrite Z.land_spec in Hb. by apply andb_true_iff in Hb as [? _].
  - intros H. apply Z.bits_inj'. intros i Hi. rewrite Z.land_spec, Z.pow2_bits_eqb by lia.
    destruct (Z.eqb_spec n i) as [->|]; [by rewrite H|by rewrite andb_false_r].
Qed.

(** An entry determines its frame and flags. *)
Lemma set_phys_inj p f p' f' :
  is_frame p -> is_flags f -> is_frame p' -> is_flags f' ->
  Pte.set_phys p f = Pte.set_phys p' f' -> p = p' /\ f = f'.
Proof.
  intros Hp Hf Hp' Hf' Heq. pose proof (set_phys_flags p f Hp Hf) as H1. pose proof (set_phys_phys p f Hp Hf) as H2.
  rewrite Heq in H1, H2. rewrite set_phys_flags in H1 by done. rewrite set_phys_phys in H2 by done.
  split; congruence.
Qed.

Lemma clear_frame : Pte.frame Pte.clear = Err NoPage.
Proof. reflexivity. Qed.

(** ** Theorems *)

(** Page table entries store what they are given: after [set_frame] with a
    4 KiB frame and any flags but [HUGE], the entry reads back exactly that
    frame and those flags plus [PRESENT], the hardware's no-execute bit 63 is
    the inverse of [EXECUTABLE], [take] yields the frame and leaves an entry
    without a frame, and no accessor panics. *)
Theorem set_frame_roundtrip p f :
  is_frame p -> is_flags f -> PageTableFlags.is_huge f = false ->
  exists pte, Pte.set_frame p f = Ok pte /\
    Pte.flags pte = Ok (Z.lor f PageTableFlags.PRESENT) /\
    Pte.frame pte = Ok p /\
    Z.testbit pte 63 = negb (PageTableFlags.is_executable f) /\
    Pte.take pte = Ok (p, Pte.clear) /\ Pte.frame Pte.clear = Err NoPage.
Proof.
  intros Hp Hf Hh. unfold Pte.set_frame, frage_address. unfold PageTableFlags.is_huge in *.
  rewrite Hh. cbn [negb]. set (g := Z.lor f PageTableFlags.PRESENT).
  assert (is_flags g) as Hg by (apply is_flags_lor; [done|by apply is_flags_const]).
  assert (PageTableFlags.is_huge g = false) as Hgh.
  { unfold PageTableFlags.is_huge, g. change PageTableFlags.HUGE with (2 ^ 7) in *.
    rewrite contains_bit in * by lia. by rewrite Z.lor_spec, Hh. }
  assert (PageTableFlags.is_present g = true) as Hgp by apply contains_lor_r.
  eexists. split; [done|]. split; [by apply set_phys_flags|].
  split; [by rewrite set_phys_frame, Hgp|].
  split; [|split; [by rewrite set_phys_take, Hgp|apply clear_frame]].
  unfold Pte.set_phys, PageTableFlags.is_executable. change PageTableFlags.EXECUTABLE with (2 ^ 63).
  rewrite contains_bit, Z.lor_spec, Z.lxor_spec, (is_frame_bit p 63), Z.pow2_bits_true by (done || lia).
  unfold g. rewrite Z.lor_spec. cbn [orb]. change (Z.testbit PageTableFlags.PRESENT 63) with false.
  by rewrite orb_false_r, xorb_true_r.
Qed.

Lemma is_frame_check p : (0 <=? p) && (p <? PHYS_END) && (p mod L0_SIZE =? 0) = true -> is_frame p.
Proof.
  intros H. bool_simp. split; [by apply phys_valid_iff|]. by apply Z.mod_divide.
Qed.

Lemma set_frame_roundtrip_witness :
  exists pte, Pte.set_frame 28672 USER_RW = Ok pte /\ Pte.frame pte = Ok 28672.
Proof.
  destruct (set_frame_roundtrip 28672 USER_RW) as (pte & H1 & _ & H2 & _);
    [by apply is_frame_check|by apply is_flags_const|reflexivity|].
  exists pte. split; [exact H1|exact H2].
Defined.

(** Changing the flags of an entry replaces all of them and keeps the frame:
    [set_flags] of an entry made by [set_phys] reads back the new flags and the
    old physical address. *)
Theorem set_flags_keeps_frame p f g :
  is_frame p -> is_flags f -> is_flags g ->
  exists pte, Pte.set_flags (Pte.set_phys p f) g = Ok pte /\
    Pte.flags pte = Ok g /\ Pte.phys pte = Ok p.
Proof.
  intros Hp Hf Hg. unfold Pte.set_flags. rewrite set_phys_phys by done.
  eexists. split; [done|]. split; [by apply set_phys_flags|by apply set_phys_phys].
Qed.

Lemma set_flags_keeps_frame_witness :
  exists pte, Pte.set_flags (Pte.set_phys 28672 USER_RW) KERNEL_RX = Ok pte /\
    Pte.flags pte = Ok KERNEL_RX.
Proof.
  destruct (set_flags_keeps_frame 28672 USER_RW KERNEL_RX) as (pte & H1 & H2 & _);
    [by apply is_frame_check|by apply is_flags_const..|].
  exists pte. split; [exact H1|exact H2].
Defined.
