(* ===== verification/Bitmap.v ===== *)
(** * Bitmap: the allocation bitmap

    Models [ku/src/collections/bitmap.rs]: a slice of 64-bit words in which the
    bit of an allocated element is set, a cursor at which the search for a free
    element starts, and the number of free elements, kept redundantly. *)

From S2P Require Import Prelude.
From stdpp Require Import base list numbers tactics.
From Stdlib Require Import ZArith Lia.

Open Scope Z_scope.
Open Scope outcome_scope.

Record Bitmap := mkBitmap {
  bitmap : list Z;
  cursor : Z;
  free : Z;
  len : Z;
}.

Definition BITS_PER_ENTRY : Z := 64.

Definition bitmap_zero : Bitmap := mkBitmap [] 0 0 0.

Definition bit (words : list Z) (number : Z) : outcome bool :=
  let? word := index words (number / BITS_PER_ENTRY) in
  Ok (negb (Z.land word (shl64 1 (number mod BITS_PER_ENTRY)) =? 0)).

(** The free bits of the first [len mod 64] elements of the last, partial word. *)
Fixpoint count_last (words : list Z) (numbers : list Z) : outcome Z :=
  match numbers with
  | [] => Ok 0
  | number :: numbers =>
      let? allocated := bit words number in
      let? rest := count_last words numbers in
      Ok ((if allocated : bool then 0 else 1) + rest)
  end.

Definition count_free (words : list Z) (len : Z) : outcome Z :=
  assert! div_ceil len BITS_PER_ENTRY <=? Z.of_nat (length words) in
  let full_elements_count := len / BITS_PER_ENTRY in
  let full_elements_free_count :=
    sum (map count_zeros (take (Z.to_nat full_elements_count) words)) in
  let? last_element_free_count :=
    count_last words
      (map (fun number => full_elements_count * BITS_PER_ENTRY + number)
         (seqZ 0 (len mod BITS_PER_ENTRY))) in
  Ok (full_elements_free_count + last_element_free_count).

Definition bitmap_new (words : list Z) (len : Z) (free : option Z) : outcome Bitmap :=
  let entry_count := div_ceil len BITS_PER_ENTRY in
  let? free := match free with Some free => Ok free | None => count_free words len end in
  let? allocated := usize_sub len free in
  let cursor := allocated / BITS_PER_ENTRY in
  let cursor := if entry_count <=? cursor then 0 else cursor in
  assert! entry_count <=? Z.of_nat (length words) in
  assert! free <=? len in
  Ok (mkBitmap (take (Z.to_nat entry_count) words) cursor free len).

Definition is_free (b : Bitmap) (number : Z) : outcome bool :=
  assert! number <? len b in
  let? allocated := bit (bitmap b) number in
  Ok (negb allocated).

Definition set_free (b : Bitmap) (number : Z) : outcome Bitmap :=
  assert! number <? len b in
  let? was_free := is_free b number in
  assert! negb was_free in
  let? word := index (bitmap b) (number / BITS_PER_ENTRY) in
  let? words :=
    index_set (bitmap b) (number / BITS_PER_ENTRY)
      (Z.land word (lnot64 (shl64 1 (number mod BITS_PER_ENTRY)))) in
  let? free := usize_add (free b) 1 in
  Ok (mkBitmap words (cursor b) free (len b)).

(** One iteration of the search of [allocate]: the entry at [offset] from the
    cursor and its lowest free bit, if it has one below [len]. *)
Definition examine (b : Bitmap) (offset : Z) : outcome (option (Z * Z * Z)) :=
  let bitmap_len := Z.of_nat (length (bitmap b)) in
  let? position := usize_add (cursor b) offset in
  let index_ := position mod bitmap_len in
  let? entry := index (bitmap b) index_ in
  if negb (entry =? USIZE_MAX) then
    let bit_position := trailing_ones entry in
    let? first := usize_mul index_ BITS_PER_ENTRY in
    let? element_number := usize_add first bit_position in
    if element_number <? len b then Ok (Some (index_, bit_position, element_number)) else Ok None
  else Ok None.

Fixpoint search (b : Bitmap) (offsets : list Z) : outcome (option (Z * Z * Z)) :=
  match offsets with
  | [] => Ok None
  | offset :: offsets =>
      let? found := examine b offset in
      match found with Some hit => Ok (Some hit) | None => search b offsets end
  end.

(** [allocate] ends in [unreachable_unchecked] when the search fails although
    [free] is not zero; the model panics there. *)
Definition allocate (b : Bitmap) : outcome (Bitmap * option Z) :=
  if free b =? 0 then Ok (b, None)
  else
    let? found := search b (seqZ 0 (Z.of_nat (length (bitmap b)))) in
    match found with
    | Some (index_, bit_position, element_number) =>
        let? word := index (bitmap b) index_ in
        let? words := index_set (bitmap b) index_ (Z.lor word (shl64 1 bit_position)) in
        let? free := usize_sub (free b) 1 in
        Ok (mkBitmap words index_ free (len b), Some element_number)
    | None => Panic
    end.

Fixpoint allocate_times (b : Bitmap) (times : nat) : outcome (Bitmap * list Z) :=
  match times with
  | O => Ok (b, [])
  | S times =>
      let? (b', element) := allocate b in
      match element with
      | Some element =>
          let? (b'', elements) := allocate_times b' times in
          Ok (b'', element :: elements)
      | None => Ok (b', [])
      end
  end.

Definition bulk_allocate (SIZE : Z) (b : Bitmap) (count : Z) : outcome (Bitmap * list Z) :=
  assert! count <=? SIZE in
  allocate_times b (Z.to_nat (Z.min count (free b))).

Definition validate (b : Bitmap) : outcome unit :=
  let? counted := count_free (bitmap b) (len b) in
  if free b =? counted then Ok tt else Err InvalidArgument.

(** ** The set a bitmap represents *)

(** Whether an element is allocated, read off the bits. *)
Definition allocated (words : list Z) (number : Z) : bool :=
  Z.testbit (default 0 (words !! Z.to_nat (number / 64))) (number mod 64).

(** The free elements, in increasing order. *)
Definition free_elements (words : list Z) (len : Z) : list Z :=
  filter (fun number => allocated words number = false) (seqZ 0 len).

Record bitmap_wf (b : Bitmap) : Prop := {
  wf_len : is_usize (len b);
  wf_entries : Z.of_nat (length (bitmap b)) = div_ceil (len b) 64;
  wf_words : Forall is_usize (bitmap b);
  wf_cursor : 0 <= cursor b /\ (cursor b < Z.of_nat (length (bitmap b)) \/ cursor b = 0);
  wf_free : free b = Z.of_nat (length (free_elements (bitmap b) (len b)));
}.

Lemma elem_of_free_elements words l n :
  n ∈ free_elements words l <-> 0 <= n < l /\ allocated words n = false.
Proof. unfold free_elements. rewrite list_elem_of_filter, elem_of_seqZ. intuition lia. Qed.

Lemma bit_testbit word n :
  0 <= n < 64 -> negb (Z.land word (shl64 1 n) =? 0) = Z.testbit word n.
Proof.
  intros Hn. unfold shl64. rewrite Z.shiftl_1_l, Z.mod_small
    by (split; [apply Z.pow_nonneg; lia|change USIZE_MODULUS with (2 ^ 64); apply Z.pow_lt_mono_r; lia]).
  destruct (Z.eqb_spec (Z.land word (2 ^ n)) 0) as [E|E]; symmetry.
  - assert (Z.testbit (Z.land word (2 ^ n)) n = false) as H by (rewrite E; apply Z.bits_0).
    rewrite Z.land_spec, Z.pow2_bits_true, andb_true_r in H by lia. done.
  - destruct (Z.testbit word n) eqn:Hw; [done|exfalso]. apply E, Z.bits_inj'. intros i Hi.
    rewrite Z.land_spec, Z.bits_0, Z.pow2_bits_eqb by lia.
    destruct (Z.eqb_spec n i) as [->|]; [by rewrite Hw|by rewrite andb_false_r].
Qed.

Lemma bit_spec words n :
  0 <= n -> n / 64 < Z.of_nat (length words) -> bit words n = Ok (allocated words n).
Proof.
  intros Hn Hl. unfold bit, allocated. change BITS_PER_ENTRY with 64.
  assert (0 <= n / 64) by (apply Z.div_pos; lia).
  destruct (index_in_range words (n / 64)) as [w Hw]; [lia|]. rewrite Hw.
  apply index_ok in Hw as [_ Hw]. rewrite Hw. cbn [from_option id].
  by rewrite bit_testbit by (apply Z.mod_pos_bound; lia).
Qed.

Lemma shl64_1 n : 0 <= n < 64 -> shl64 1 n = 2 ^ n.
Proof.
  intros Hn. unfold shl64. rewrite Z.shiftl_1_l. apply Z.mod_small.
  split; [apply Z.pow_nonneg; lia|]. change USIZE_MODULUS with (2 ^ 64). apply Z.pow_lt_mono_r; lia.
Qed.

(** Setting or clearing the bit of one element changes that element only. *)
Lemma allocated_update words n w m :
  0 <= n -> 0 <= m -> n / 64 < Z.of_nat (length words) ->
  (forall i, 0 <= i < 64 -> i <> n mod 64 ->
     Z.testbit w i = Z.testbit (default 0 (words !! Z.to_nat (n / 64))) i) ->
  allocated (<[Z.to_nat (n / 64) := w]> words) m =
    if m =? n then Z.testbit w (n mod 64) else allocated words m.
Proof.
  intros Hn Hm Hl Hw. unfold allocated.
  assert (0 <= n / 64 /\ 0 <= m / 64) as [] by (split; apply Z.div_pos; lia).
  pose proof (Z.mod_pos_bound m 64 ltac:(lia)) as Hmod.
  destruct (Z.eqb_spec m n) as [->|Hne].
  { by rewrite list_lookup_insert_eq by lia. }
  destruct (decide (m / 64 = n / 64)) as [Hd|Hd].
  - rewrite Hd, list_lookup_insert_eq by lia. cbn [from_option id]. apply Hw; [lia|].
    pose proof (Z.div_mod m 64 ltac:(lia)). pose proof (Z.div_mod n 64 ltac:(lia)). lia.
  - rewrite list_lookup_insert_ne by lia. done.
Qed.

Lemma number_entry n l : 0 <= n < l -> n / 64 < div_ceil l 64.
Proof.
  intros Hn. pose proof (div_ceil_spec l 64 ltac:(lia)).
  apply Z.div_lt_upper_bound; lia.
Qed.

Lemma lookup_word words i w : Forall is_usize words -> index words i = Ok w -> is_usize w.
Proof.
  intros Hf [_ Hi]%index_ok. rewrite Forall_lookup in Hf. by eapply Hf.
Qed.

Lemma lor_bit_usize w n : is_usize w -> 0 <= n < 64 -> is_usize (Z.lor w (2 ^ n)).
Proof.
  intros Hw Hn. assert (0 < 2 ^ n) by (apply Z.pow_pos_nonneg; lia).
  destruct Hw as [Hw0 Hw]. split; [apply Z.lor_nonneg; lia|].
  destruct (decide (Z.lor w (2 ^ n) = 0)) as [->|]; [lia|].
  change USIZE_MODULUS with (2 ^ 64) in *.
  apply Z.log2_lt_pow2; [pose proof (proj2 (Z.lor_nonneg w (2 ^ n)) ltac:(lia)); lia|].
  rewrite Z.log2_lor, Z.log2_pow2 by lia. apply Z.max_lub_lt; [|lia].
  destruct (decide (w = 0)) as [->|]; [cbn; lia|]. apply Z.log2_lt_pow2; lia.
Qed.

Lemma land_usize w m : is_usize w -> 0 <= m -> is_usize (Z.land w m).
Proof.
  intros [Hw0 Hw] Hm. split; [apply Z.land_nonneg; lia|].
  destruct (decide (Z.land w m = 0)) as [->|Hne]; [lia|].
  change USIZE_MODULUS with (2 ^ 64) in *.
  pose proof (proj2 (Z.land_nonneg w m) ltac:(lia)).
  apply Z.log2_lt_pow2; [lia|]. pose proof (Z.log2_land w m Hw0 Hm).
  assert (w <> 0) by (intros ->; by rewrite Z.land_0_l in Hne).
  assert (Z.log2 w < 64) by (apply Z.log2_lt_pow2; lia). lia.
Qed.

(** ** Counting free elements *)

Lemma allocated_word words k i :
  0 <= k -> 0 <= i < 64 ->
  allocated words (k * 64 + i) = Z.testbit (default 0 (words !! Z.to_nat k)) i.
Proof.
  intros Hk Hi. unfold allocated.
  replace ((k * 64 + i) / 64) with k by (rewrite Z.add_comm, Z.div_add, Z.div_small; lia).
  replace ((k * 64 + i) mod 64) with i by (rewrite Z.add_comm, Z.mod_add, Z.mod_small; lia).
  done.
Qed.

Lemma length_filter_fmap {A B} (f : A -> B) (P : B -> Prop) `{!forall x, Decision (P x)} l :
  length (filter P (f <$> l)) = length (filter (fun x => P (f x)) l).
Proof.
  induction l as [|x l IH]; [done|]. cbn [fmap list_fmap]. rewrite !filter_cons.
  destruct (decide (P (f x))); cbn; lia.
Qed.

(** The free elements of one full word. *)
Lemma count_zeros_word words k w :
  0 <= k -> words !! Z.to_nat k = Some w ->
  count_zeros w =
    Z.of_nat (length (filter (fun n => allocated words n = false) (seqZ (k * 64) 64))).
Proof.
  intros Hk Hw. unfold count_zeros. f_equal.
  replace (seqZ (k * 64) 64) with ((fun i => k * 64 + i) <$> seqZ 0 64).
  - rewrite length_filter_fmap. f_equal. apply filter_ext_elem. intros i Hi%elem_of_seqZ.
    rewrite allocated_word, Hw by lia. done.
  - rewrite fmap_add_seqZ. f_equal. lia.
Qed.

Lemma count_full words k :
  0 <= k <= Z.of_nat (length words) ->
  sum (map count_zeros (take (Z.to_nat k) words)) =
    Z.of_nat (length (free_elements words (k * 64))).
Proof.
  intros Hk. unfold free_elements. rewrite <- (Z2Nat.id k) in * by lia.
  generalize dependent (Z.to_nat k). intros m Hm. rewrite Nat2Z.id.
  induction m as [|m IH]; [done|].
  destruct (lookup_lt_is_Some_2 words m) as [w Hw]; [lia|].
  rewrite (take_S_r _ _ w Hw), map_app.
  rewrite sum_app, IH by lia.
  replace (Z.of_nat (S m) * 64) with (Z.of_nat m * 64 + 64) by lia.
  rewrite (seqZ_app 0 (Z.of_nat m * 64) 64), list.filter_app, length_app by lia.
  cbn [map sum foldr]. rewrite (count_zeros_word words (Z.of_nat m) w) by (rewrite ?Nat2Z.id; lia || done).
  rewrite Z.add_0_l. lia.
Qed.

Lemma count_last_spec words numbers :
  (forall n, n ∈ numbers -> 0 <= n /\ n / 64 < Z.of_nat (length words)) ->
  count_last words numbers =
    Ok (Z.of_nat (length (filter (fun n => allocated words n = false) numbers))).
Proof.
  induction numbers as [|n numbers IH]; intros Hn; [done|]. cbn [count_last].
  rewrite bit_spec by (apply Hn; left). rewrite IH by (intros; apply Hn; by right).
  rewrite filter_cons. destruct (allocated words n); cbn [decide]; f_equal.
  rewrite decide_True by done. cbn. lia.
Qed.

(** The optimised count of the code is the number of free elements. *)
Lemma count_free_spec words l :
  0 <= l -> div_ceil l 64 <= Z.of_nat (length words) ->
  count_free words l = Ok (Z.of_nat (length (free_elements words l))).
Proof.
  intros Hl Hlen. unfold count_free. change BITS_PER_ENTRY with 64.
  rewrite (proj2 (Z.leb_le _ _) Hlen).
  pose proof (Z.div_mod l 64 ltac:(lia)) as Hdm.
  pose proof (Z.mod_pos_bound l 64 ltac:(lia)).
  assert (0 <= l / 64) by (apply Z.div_pos; lia).
  assert (l / 64 <= div_ceil l 64) by (unfold div_ceil; destruct (0 <? _); lia).
  rewrite count_full by lia.
  assert (map (fun number => l / 64 * 64 + number) (seqZ 0 (l mod 64)) = seqZ (l / 64 * 64) (l mod 64)) as ->.
  { change (map ?f ?x) with (f <$> x). rewrite fmap_add_seqZ. f_equal. lia. }
  rewrite count_last_spec.
  - f_equal. rewrite <- Nat2Z.inj_add, <- length_app. f_equal. f_equal.
    unfold free_elements. rewrite <- list.filter_app. f_equal.
    transitivity (seqZ 0 (l / 64 * 64 + l mod 64)); [|f_equal; lia].
    by rewrite seqZ_app, Z.add_0_l by lia.
  - intros n Hn%elem_of_seqZ. split; [lia|].
    pose proof (number_entry n l ltac:(lia)). lia.
Qed.

(** ** The operations preserve the invariant *)

Lemma free_elements_flip words words' l n :
  0 <= n < l -> allocated words n = false -> allocated words' n = true ->
  (forall m, 0 <= m < l -> m <> n -> allocated words' m = allocated words m) ->
  Z.of_nat (length (free_elements words l)) = Z.of_nat (length (free_elements words' l)) + 1.
Proof.
  intros Hn H0 H1 Heq. unfold free_elements.
  rewrite (length_filter_remove (fun m => allocated words m = false)
             (fun m => allocated words' m = false) _ n); [lia|apply NoDup_seqZ| |done| |].
  - apply elem_of_seqZ. lia.
  - by rewrite H1.
  - intros m Hm%elem_of_seqZ Hne. by rewrite Heq by lia.
Qed.

Lemma free_elements_length words l :
  0 <= l -> Z.of_nat (length (free_elements words l)) <= l.
Proof.
  intros Hl. unfold free_elements.
  pose proof (length_filter (fun m => allocated words m = false) (seqZ 0 l)).
  rewrite length_seqZ in *. lia.
Qed.

Section Ops.
  Context (b : Bitmap) (Hb : bitmap_wf b).

Lemma number_in_range n : 0 <= n < len b -> 0 <= n / 64 < Z.of_nat (length (bitmap b)).
Proof using Hb.
  intros Hn. rewrite (wf_entries _ Hb). split; [apply Z.div_pos; lia|]. by apply number_entry.
Qed.

Lemma is_free_spec n : 0 <= n < len b -> is_free b n = Ok (negb (allocated (bitmap b) n)).
Proof using Hb.
  intros Hn. unfold is_free. rewrite (proj2 (Z.ltb_lt _ _)) by lia.
  pose proof (number_in_range n Hn). by rewrite bit_spec by lia.
Qed.

(** Flipping the bit of one element, with the count adjusted: the step shared by
    [set_free] and [allocate]. *)
Lemma wf_update n w w' c f :
  0 <= n < len b -> bitmap b !! Z.to_nat (n / 64) = Some w -> is_usize w' ->
  (forall i, 0 <= i < 64 ->
     Z.testbit w' i =
       if n mod 64 =? i then negb (allocated (bitmap b) n) else Z.testbit w i) ->
  0 <= c < Z.of_nat (length (bitmap b)) ->
  f = free b + (if allocated (bitmap b) n then 1 else -1) ->
  bitmap_wf (mkBitmap (<[Z.to_nat (n / 64) := w']> (bitmap b)) c f (len b)) /\
  (forall m, 0 <= m ->
     allocated (<[Z.to_nat (n / 64) := w']> (bitmap b)) m =
       if m =? n then negb (allocated (bitmap b) n) else allocated (bitmap b) m) /\
  0 <= f <= len b.
Proof using Hb.
  intros Hn Hw Uw Hbits Hc Hf. pose proof (number_in_range n Hn) as Hr.
  pose proof (Z.mod_pos_bound n 64 ltac:(lia)) as Hmod. pose proof (wf_len _ Hb) as Ul.
  set (words := <[Z.to_nat (n / 64) := w']> (bitmap b)).
  assert (forall m, 0 <= m -> allocated words m =
    if m =? n then negb (allocated (bitmap b) n) else allocated (bitmap b) m) as Hall.
  { intros m Hm. unfold words. rewrite allocated_update; [|lia..|].
    - destruct (m =? n); [|done]. by rewrite Hbits, Z.eqb_refl by lia.
    - intros i Hi Hne. rewrite Hw, Hbits by lia. by rewrite (proj2 (Z.eqb_neq _ _)) by lia. }
  assert (f = Z.of_nat (length (free_elements words (len b)))) as Hfree.
  { rewrite Hf, (wf_free _ Hb). destruct (allocated (bitmap b) n) eqn:Ha; cbn [negb] in *.
    - symmetry. apply (free_elements_flip _ _ _ n); [done|by rewrite Hall, Z.eqb_refl by lia|done|].
      intros m Hm Hne. by rewrite Hall, (proj2 (Z.eqb_neq _ _)) by lia.
    - rewrite (free_elements_flip _ words _ n); [lia|done..| |].
      + by rewrite Hall, Z.eqb_refl by lia.
      + intros m Hm Hne. by rewrite Hall, (proj2 (Z.eqb_neq _ _)) by lia. }
  pose proof (free_elements_length words (len b) ltac:(unfold is_usize in Ul; lia)).
  split; [|split; [done|lia]].
  split; cbn -[free_elements]; unfold words; rewrite ?length_insert;
    [done|apply (wf_entries _ Hb)| |lia|done].
  apply Forall_insert; [apply (wf_words _ Hb)|done].
Qed.

Lemma set_free_spec n :
  0 <= n < len b -> allocated (bitmap b) n = true ->
  exists b', set_free b n = Ok b' /\ bitmap_wf b' /\ free b' = free b + 1 /\ len b' = len b /\
    forall m, 0 <= m ->
      allocated (bitmap b') m = if m =? n then false else allocated (bitmap b) m.
Proof using Hb.
  intros Hn Ha. pose proof (number_in_range n Hn) as Hr.
  pose proof (Z.mod_pos_bound n 64 ltac:(lia)) as Hmod.
  unfold set_free. rewrite is_free_spec, Ha by done. cbn [negb].
  rewrite (proj2 (Z.ltb_lt _ _)) by lia. change BITS_PER_ENTRY with 64.
  destruct (index_in_range (bitmap b) (n / 64) Hr) as [w Hw]. rewrite Hw, index_set_ok by done.
  pose proof (lookup_word _ _ _ (wf_words _ Hb) Hw) as Uw. apply index_ok in Hw as [_ Hw].
  assert (is_usize (2 ^ (n mod 64))) as Up.
  { split; [apply Z.pow_nonneg; lia|]. change USIZE_MODULUS with (2 ^ 64). apply Z.pow_lt_mono_r; lia. }
  rewrite shl64_1 by lia.
  destruct (wf_update n w (Z.land w (lnot64 (2 ^ (n mod 64)))) (cursor b) (free b + 1))
    as (Hwf & Hall & Hf); [done..| | | |by rewrite Ha|].
  - apply land_usize; [done|]. unfold lnot64. unfold is_usize in Up. lia.
  - intros i Hi. rewrite Z.land_spec, lnot64_testbit, Z.pow2_bits_eqb, Ha by (done || lia).
    rewrite (proj2 (Z.ltb_lt i 64)) by lia. cbn [andb].
    by destruct (n mod 64 =? i); [rewrite andb_false_r|rewrite andb_true_r].
  - pose proof (wf_cursor _ Hb). lia.
  - pose proof (wf_len _ Hb) as Ul. rewrite usize_add_ok by (unfold is_usize in *; lia).
    eexists. split; [done|]. split; [done|]. split; [done|]. split; [done|]. cbn.
    by rewrite Ha in Hall.
Qed.

(** ** The search of [allocate] *)

Lemma max_testbit w : is_usize w -> w <> USIZE_MAX -> exists i, 0 <= i < 64 /\ Z.testbit w i = false.
Proof.
  intros Hw Hne. destruct (decide (Exists (fun i => Z.testbit w i = false) (seqZ 0 64))) as [H|H].
  - apply list.Exists_exists in H as (i & Hi%elem_of_seqZ & Hb0). exists i. split; [lia|done].
  - exfalso. apply Hne. change USIZE_MAX with (Z.ones 64). apply Z.bits_inj'. intros i Hi.
    rewrite Z.testbit_ones_nonneg by lia. destruct (Z.ltb_spec i 64).
    + destruct (Z.testbit w i) eqn:E; [done|]. exfalso. apply H, list.Exists_exists. exists i.
      split; [apply elem_of_seqZ; lia|done].
    + apply (testbit_high w 64); [exact Hw|lia].
Qed.

(** Examining an entry finds its lowest free element, or shows it has none. *)
Lemma examine_spec offset :
  0 <= offset < Z.of_nat (length (bitmap b)) ->
  let k := (cursor b + offset) mod Z.of_nat (length (bitmap b)) in
  (exists i, examine b offset = Ok (Some (k, i, k * 64 + i)) /\ 0 <= i < 64 /\
     k * 64 + i < len b /\ allocated (bitmap b) (k * 64 + i) = false) \/
  (examine b offset = Ok None /\
     forall n, 0 <= n < len b -> n / 64 = k -> allocated (bitmap b) n = true).
Proof using Hb.
  intros Ho k. pose proof (wf_len _ Hb) as Ul. pose proof (wf_cursor _ Hb).
  pose proof (wf_entries _ Hb) as He. pose proof (div_ceil_spec (len b) 64 ltac:(lia)) as Hceil.
  rewrite <- He in Hceil. set (L := Z.of_nat (length (bitmap b))) in *.
  assert (0 <= k < L) as Hk by (apply Z.mod_pos_bound; lia).
  unfold examine. fold L. unfold is_usize in Ul.
  rewrite usize_add_ok by (unfold is_usize; lia). fold k.
  destruct (index_in_range (bitmap b) k Hk) as [w Hw]. rewrite Hw.
  pose proof (lookup_word _ _ _ (wf_words _ Hb) Hw) as Uw. apply index_ok in Hw as [_ Hw].
  change BITS_PER_ENTRY with 64.
  destruct (Z.eqb_spec w USIZE_MAX) as [->|Hne]; cbn [negb].
  { right. split; [done|]. intros n Hn Hdiv. unfold allocated. rewrite Hdiv, Hw. cbn [from_option id].
    pose proof (Z.mod_pos_bound n 64 ltac:(lia)). change USIZE_MAX with (Z.ones 64).
    rewrite Z.testbit_ones_nonneg by lia. apply Z.ltb_lt. lia. }
  destruct (trailing_ones_from_spec 64 w 0) as (Ht & Hfree & Hbelow); [lia| |].
  { destruct (max_testbit w Uw Hne) as (i & Hi & Hbit). exists i. split; [lia|done]. }
  fold (trailing_ones w) in *. set (i := trailing_ones w) in *.
  rewrite usize_mul_ok, usize_add_ok by (unfold is_usize; lia).
  destruct (Z.ltb_spec (k * 64 + i) (len b)) as [Hlt|Hge]; [left|right].
  - exists i. split; [done|]. split; [lia|]. split; [done|].
    by rewrite allocated_word, Hw by lia.
  - split; [done|]. intros n Hn Hdiv. unfold allocated. rewrite Hdiv, Hw. cbn [from_option id].
    apply Hbelow. pose proof (Z.div_mod n 64 ltac:(lia)). pose proof (Z.mod_pos_bound n 64 ltac:(lia)). lia.
Qed.

Lemma search_spec offsets :
  (forall o, o ∈ offsets -> 0 <= o < Z.of_nat (length (bitmap b))) ->
  (exists k i, search b offsets = Ok (Some (k, i, k * 64 + i)) /\
     0 <= k < Z.of_nat (length (bitmap b)) /\ 0 <= i < 64 /\ k * 64 + i < len b /\
     allocated (bitmap b) (k * 64 + i) = false) \/
  (search b offsets = Ok None /\
     forall o n, o ∈ offsets -> 0 <= n < len b ->
       n / 64 = (cursor b + o) mod Z.of_nat (length (bitmap b)) -> allocated (bitmap b) n = true).
Proof using Hb.
  induction offsets as [|o offsets IH]; intros Ho.
  { right. split; [done|]. intros o n Hin. by apply not_elem_of_nil in Hin. }
  cbn [search]. assert (0 <= o < Z.of_nat (length (bitmap b))) as Ho0 by (apply Ho; left).
  destruct (examine_spec o Ho0) as [(i & -> & Hi & Hlt & Hf)|[-> Hnone]].
  { left. eexists _, i. split; [done|]. split; [apply Z.mod_pos_bound; lia|done]. }
  destruct IH as [H|[-> Hrest]]; [intros; apply Ho; by right|by left|right].
  split; [done|]. intros o' n Hin Hn Hdiv. apply elem_of_cons in Hin as [->|Hin]; eauto.
Qed.

Lemma allocate_spec :
  (free b = 0 /\ allocate b = Ok (b, None)) \/
  (0 < free b /\ exists b' n, allocate b = Ok (b', Some n) /\ 0 <= n < len b /\
     allocated (bitmap b) n = false /\ bitmap_wf b' /\ free b' = free b - 1 /\ len b' = len b /\
     forall m, 0 <= m ->
       allocated (bitmap b') m = if m =? n then true else allocated (bitmap b) m).
Proof using Hb.
  unfold allocate. destruct (Z.eqb_spec (free b) 0) as [H0|H0]; [by left|right].
  pose proof (wf_free _ Hb) as Hf. pose proof (wf_cursor _ Hb) as Hc. split; [lia|].
  destruct (search_spec (seqZ 0 (Z.of_nat (length (bitmap b)))))
    as [(k & i & -> & Hk & Hi & Hlt & Hfr)|[_ Hnone]]; [intros o Ho%elem_of_seqZ; lia| |exfalso].
  - destruct (index_in_range (bitmap b) k Hk) as [w Hw]. rewrite Hw, index_set_ok, shl64_1 by lia.
    pose proof (lookup_word _ _ _ (wf_words _ Hb) Hw) as Uw. apply index_ok in Hw as [_ Hw].
    assert ((k * 64 + i) / 64 = k /\ (k * 64 + i) mod 64 = i) as [Ed Em].
    { rewrite Z.add_comm, Z.div_add, Z.div_small, Z.mod_add, Z.mod_small by lia. lia. }
    destruct (wf_update (k * 64 + i) w (Z.lor w (2 ^ i)) k (free b - 1))
      as (Hwf & Hall & Hfb); rewrite ?Ed, ?Em; [lia|done|by apply lor_bit_usize| |done|by rewrite Hfr|].
    + intros j Hj. rewrite Z.lor_spec, Z.pow2_bits_eqb, Hfr by lia. cbn [negb].
      by destruct (i =? j); [rewrite orb_true_r|rewrite orb_false_r].
    + rewrite Ed in *. pose proof (wf_len _ Hb) as Ul.
      rewrite usize_sub_ok by (unfold is_usize in *; lia).
      eexists _, (k * 64 + i). split; [done|]. rewrite Hfr in Hall.
      split; [lia|]. do 4 (split; [done|]). exact Hall.
  - (* the first free element is in an entry the search visits *)
    destruct (free_elements (bitmap b) (len b)) as [|n rest] eqn:En; [cbn in Hf; lia|].
    assert (n ∈ free_elements (bitmap b) (len b)) as [Hn Ha]%elem_of_free_elements
      by (rewrite En; left).
    pose proof (number_in_range n Hn) as Hr. set (L := Z.of_nat (length (bitmap b))) in *.
    rewrite (Hnone ((n / 64 - cursor b) mod L) n) in Ha; [done| |done|].
    + apply elem_of_seqZ. pose proof (Z.mod_pos_bound (n / 64 - cursor b) L). lia.
    + rewrite Z.add_mod_idemp_r by lia. replace (cursor b + (n / 64 - cursor b)) with (n / 64) by lia.
      symmetry. by apply Z.mod_small.
Qed.

End Ops.

(** ** Bulk allocation *)

Lemma allocate_times_spec times b :
  bitmap_wf b -> Z.of_nat times <= free b ->
  exists b' l, allocate_times b times = Ok (b', l) /\ length l = times /\ NoDup l /\
    (forall n, n ∈ l -> 0 <= n < len b /\ allocated (bitmap b) n = false) /\
    bitmap_wf b' /\ free b' = free b - Z.of_nat times /\ len b' = len b /\
    (forall m, 0 <= m ->
       allocated (bitmap b') m = if bool_decide (m ∈ l) then true else allocated (bitmap b) m).
Proof.
  revert b. induction times as [|times IH]; intros b Hb Ht.
  { exists b, []. cbn. split; [done|]. split; [done|]. split; [constructor|].
    split; [by intros n Hn%not_elem_of_nil|]. split; [done|]. split; [lia|]. done. }
  cbn [allocate_times].
  destruct (allocate_spec b Hb) as [[H0 _]|(_ & b1 & n & -> & Hn & Ha & Hb1 & Hf1 & Hl1 & Hall1)]; [lia|].
  destruct (IH b1 Hb1 ltac:(lia)) as (b2 & l & -> & Hlen & Hnd & Hin & Hb2 & Hf2 & Hl2 & Hall2).
  rewrite Hl1 in *. exists b2, (n :: l). split; [done|]. split; [cbn; lia|]. split.
  { constructor; [|done]. intros [Hr Hx]%Hin. rewrite Hall1, Z.eqb_refl in Hx by lia. done. }
  split.
  { intros m [->|Hm]%elem_of_cons; [done|]. destruct (Hin m Hm) as [Hr Hx]. split; [done|].
    rewrite Hall1 in Hx by lia. by destruct (m =? n). }
  split; [done|]. split; [lia|]. split; [done|]. intros m Hm. rewrite Hall2, Hall1 by done.
  destruct (Z.eqb_spec m n) as [->|Hne].
  - rewrite (bool_decide_eq_true_2 (n ∈ n :: l)) by left. by destruct (bool_decide _).
  - rewrite (bool_decide_ext (m ∈ n :: l) (m ∈ l)); [done|].
    rewrite elem_of_cons. split; [by intros [?|?]|by right].
Qed.

(** ** Theorems *)

(** Allocation from the bitmap: with no free element the answer is [None] and
    nothing changes; otherwise the search always succeeds (the code's
    [unreachable_unchecked] is never reached and no index panics), it returns an
    element that was free, marks exactly that element, decrements the count, and
    the invariant (count = number of clear bits) is kept. *)
Theorem bitmap_allocate_correct b :
  bitmap_wf b ->
  (free b = 0 /\ allocate b = Ok (b, None)) \/
  (exists b' n, allocate b = Ok (b', Some n) /\ 0 <= n < len b /\
     is_free b n = Ok true /\ bitmap_wf b' /\ free b' = free b - 1 /\
     forall m, 0 <= m < len b -> is_free b' m = if m =? n then Ok false else is_free b m).
Proof.
  intros Hb. destruct (allocate_spec b Hb) as [H|(_ & b' & n & -> & Hn & Ha & Hb' & Hf & Hl & Hall)];
    [by left|right]. exists b', n. split; [done|]. split; [done|].
  split; [by rewrite is_free_spec, Ha|]. split; [done|]. split; [done|].
  intros m Hm. rewrite !is_free_spec, Hall by (done || lia). by destruct (m =? n).
Qed.

(** Freeing an allocated element never panics, clears exactly its bit,
    increments the count and keeps the invariant; freeing an element that is
    already free panics (the double-free check). *)
Theorem bitmap_set_free_correct b n :
  bitmap_wf b -> 0 <= n < len b ->
  (is_free b n = Ok true /\ set_free b n = Panic) \/
  (is_free b n = Ok false /\ exists b', set_free b n = Ok b' /\ bitmap_wf b' /\
     free b' = free b + 1 /\
     forall m, 0 <= m < len b -> is_free b' m = if m =? n then Ok true else is_free b m).
Proof.
  intros Hb Hn. destruct (allocated (bitmap b) n) eqn:Ha.
  - right. split; [by rewrite is_free_spec, Ha|].
    destruct (set_free_spec b Hb n Hn Ha) as (b' & -> & Hb' & Hf & Hl & Hall).
    exists b'. split; [done|]. split; [done|]. split; [done|].
    intros m Hm. rewrite !is_free_spec, Hall by (done || lia). by destruct (m =? n).
  - left. split; [by rewrite is_free_spec, Ha|]. unfold set_free.
    rewrite is_free_spec, Ha, (proj2 (Z.ltb_lt _ _)) by (done || lia). done.
Qed.

(** Bulk allocation returns [min(count, free)] distinct elements, each of them
    free before, marks exactly those and keeps the invariant. *)
Theorem bulk_allocate_correct SIZE b n :
  bitmap_wf b -> 0 <= n <= SIZE ->
  exists b' l, bulk_allocate SIZE b n = Ok (b', l) /\
    Z.of_nat (length l) = Z.min n (free b) /\ NoDup l /\
    (forall m, m ∈ l -> is_free b m = Ok true) /\
    bitmap_wf b' /\ free b' = free b - Z.of_nat (length l) /\
    forall m, 0 <= m < len b -> is_free b' m = if bool_decide (m ∈ l) then Ok false else is_free b m.
Proof.
  intros Hb Hn. unfold bulk_allocate. rewrite (proj2 (Z.leb_le _ _)) by lia.
  pose proof (wf_free _ Hb).
  destruct (allocate_times_spec (Z.to_nat (Z.min n (free b))) b Hb ltac:(lia))
    as (b' & l & -> & Hlen & Hnd & Hin & Hb' & Hf & Hl & Hall).
  exists b', l. split; [done|]. split; [lia|]. split; [done|].
  split; [intros m [Hr Ha]%Hin; by rewrite is_free_spec, Ha|]. split; [done|]. split; [lia|].
  intros m Hm. rewrite !is_free_spec, Hall by (done || lia). by destruct (bool_decide _).
Qed.

Lemma bitmap_new_spec words l :
  Forall is_usize words -> is_usize l -> div_ceil l 64 <= Z.of_nat (length words) ->
  exists b, bitmap_new words l None = Ok b /\ bitmap_wf b /\ len b = l /\ validate b = Ok tt /\
    (forall m, 0 <= m < l -> is_free b m = Ok (negb (allocated words m))) /\
    forall f, f <> free b -> validate (mkBitmap (bitmap b) (cursor b) f (len b)) = Err InvalidArgument.
Proof.
  intros Hw Hl Hlen. unfold is_usize in Hl. unfold bitmap_new. rewrite count_free_spec by lia.
  change BITS_PER_ENTRY with 64. pose proof (free_elements_length words l ltac:(lia)) as Hfl.
  set (f := Z.of_nat (length (free_elements words l))) in *.
  assert (0 <= f) by lia. rewrite usize_sub_ok by (unfold is_usize; lia).
  rewrite (proj2 (Z.leb_le _ _) Hlen), (proj2 (Z.leb_le _ _) Hfl).
  pose proof (div_ceil_nonneg l 64 ltac:(lia) ltac:(lia)).
  set (words' := take (Z.to_nat (div_ceil l 64)) words).
  assert (Z.of_nat (length words') = div_ceil l 64) as Hlen'.
  { unfold words'. rewrite length_take. lia. }
  assert (forall m, 0 <= m < l -> allocated words' m = allocated words m) as Heq.
  { intros m Hm. unfold allocated, words'. rewrite lookup_take_lt; [done|].
    pose proof (number_entry m l Hm). assert (0 <= m / 64) by (apply Z.div_pos; lia). lia. }
  assert (f = Z.of_nat (length (free_elements words' l))) as Hf.
  { unfold f, free_elements. f_equal. f_equal. apply filter_ext_elem.
    intros m Hm%elem_of_seqZ. by rewrite Heq by lia. }
  set (c := if div_ceil l 64 <=? (l - f) / 64 then 0 else (l - f) / 64).
  assert (bitmap_wf (mkBitmap words' c f l)) as Hwf.
  { split; cbn -[free_elements]; [done|done|by apply Forall_take| |done]. rewrite Hlen'. unfold c.
    assert (0 <= (l - f) / 64) by (apply Z.div_pos; lia).
    destruct (Z.leb_spec (div_ceil l 64) ((l - f) / 64)); lia. }
  eexists. split; [done|]. split; [done|]. split; [done|]. unfold validate. cbn [bitmap free len].
  rewrite count_free_spec, <- Hf by lia. split; [by rewrite Z.eqb_refl|]. split.
  - intros m Hm. by rewrite is_free_spec, Heq.
  - intros g Hg. by rewrite (proj2 (Z.eqb_neq _ _)).
Qed.

(** C40.  A bitmap made by [new] without a stated count is well formed: the count it
    computes word by word is the number of clear bits among the first [len], and
    [validate] accepts exactly the bitmaps whose count is right. *)
Theorem bitmap_new_valid words l :
  Forall is_usize words -> is_usize l -> div_ceil l 64 <= Z.of_nat (length words) ->
  exists b, bitmap_new words l None = Ok b /\ bitmap_wf b /\ validate b = Ok tt /\
    (forall m, 0 <= m < l -> is_free b m = Ok (negb (allocated words m))) /\
    forall f, f <> free b -> validate (mkBitmap (bitmap b) (cursor b) f (len b)) = Err InvalidArgument.
Proof.
  intros Hw Hl Hlen. destruct (bitmap_new_spec words l Hw Hl Hlen) as (b & ? & ? & _ & ?).
  by exists b.
Qed.

(** ** Witnesses *)

(** A bitmap is well formed when a computation says so. *)
Definition bitmap_wf_check (b : Bitmap) : bool :=
  fits_usize (len b) && (Z.of_nat (length (bitmap b)) =? div_ceil (len b) 64) &&
  forallb fits_usize (bitmap b) && (0 <=? cursor b) &&
  ((cursor b <? Z.of_nat (length (bitmap b))) || (cursor b =? 0)) &&
  (free b =? Z.of_nat (length (free_elements (bitmap b) (len b)))).

Lemma bitmap_wf_by_check b : bitmap_wf_check b = true -> bitmap_wf b.
Proof.
  unfold bitmap_wf_check. intros H. bool_simp. split; [by apply fits_usize_true|done| | |done].
  - apply Forall_forall. intros x Hx. apply fits_usize_true. by eapply forallb_forall.
  - split; [done|]. apply orb_true_iff in H1 as [?|?]; bool_simp; lia.
Qed.

(** Seventy elements, the first word full but for element 5. *)
Definition sample : Bitmap := mkBitmap [USIZE_MAX - 32; 0] 1 7 70.

Lemma bitmap_allocate_correct_witness :
  exists b n, allocate sample = Ok (b, Some n) /\ is_free sample n = Ok true.
Proof.
  destruct (bitmap_allocate_correct sample) as [[H _]|(b & n & H1 & _ & H2 & _)];
    [by apply bitmap_wf_by_check|cbn in H; lia|]. exists b, n. split; [exact H1|exact H2].
Defined.

Lemma bitmap_set_free_correct_witness :
  set_free sample 5 = Panic /\ exists b, set_free sample 6 = Ok b.
Proof.
  split.
  - destruct (bitmap_set_free_correct sample 5) as [[_ H]|[H _]];
      [by apply bitmap_wf_by_check|cbn; lia|exact H|vm_compute in H; discriminate H].
  - destruct (bitmap_set_free_correct sample 6) as [[H _]|[_ (b & H & _)]];
      [by apply bitmap_wf_by_check|cbn; lia|vm_compute in H; discriminate H|exists b; exact H].
Defined.

Lemma bulk_allocate_correct_witness :
  exists b l, bulk_allocate 16 sample 9 = Ok (b, l) /\ Z.of_nat (length l) = 7.
Proof.
  destruct (bulk_allocate_correct 16 sample 9) as (b & l & H1 & H2 & _);
    [by apply bitmap_wf_by_check|lia|]. exists b, l. split; [exact H1|exact H2].
Defined.

Lemma bitmap_new_valid_witness : exists b, bitmap_new [USIZE_MAX - 32; 0; 0] 70 None = Ok b.
Proof.
  destruct (bitmap_new_valid [USIZE_MAX - 32; 0; 0] 70) as (b & H & _);
    [repeat (constructor; [split; lia|]); constructor|split; lia|vm_compute; discriminate|].
  exists b. exact H.
Defined.
