(* ===== verification/FrameAllocator.v ===== *)
(** * FrameAllocator: reference-counted physical frames

    Models [kernel/src/memory/frame_allocator.rs] and the ownership discipline of
    [kernel/src/memory/frame_guard.rs].  The allocator keeps one [FrameInfo] per
    frame number; the free frames form an intrusive singly linked list.  A frame
    is represented by its address, a [FrameGuard] by the frame it owns, so that
    dropping a guard is [deallocate]. *)

From Stdlib Require Import ZArith Lia.
From stdpp Require Import base list numbers tactics sets relations.
From S2P Require Import Prelude Addr Frage Block Mmu.

Open Scope Z_scope.
Open Scope outcome_scope.

(** ** State *)

Inductive FrameInfo :=
  | Absent
  | Free (next_free : option Z)
  | Used (reference_count : Z).

#[export] Instance FrameInfo_eq_dec : EqDecision FrameInfo.
Proof. solve_decision. Defined.

Record FrameAllocator := mkFrameAllocator {
  absent : FrameInfo;
  access_beyond_frame_info : bool;
  frame_info : list FrameInfo;
  free_count : Z;
  free_frame : option Z;
}.

(** The memory map of the boot loader: half-open ranges of frame numbers with a
    type; the allocator treats all the types it does not name alike. *)
Inductive MemoryRegionType := Usable | Kernel | KernelStack | PageTable | OtherRegion.

Record MemoryRegion := mkRegion {
  start_frame_number : Z;
  end_frame_number : Z;
  region_type : MemoryRegionType;
}.

(** ** Operations *)

Definition with_info (fa : FrameAllocator) (info : list FrameInfo) : FrameAllocator :=
  mkFrameAllocator (absent fa) (access_beyond_frame_info fa) info (free_count fa) (free_frame fa).

Definition count (fa : FrameAllocator) : Z := free_count fa.

Definition allocate : M FrameAllocator Z := fun fa =>
  match free_frame fa with
  | None => (fa, Err NoFrame)
  | Some frame_index =>
      if free_count fa =? 0 then (fa, Err NoFrame)
      else
        match index (frame_info fa) frame_index with
        | Ok (Free next_free) =>
            let fa' :=
              mkFrameAllocator (absent fa) (access_beyond_frame_info fa)
                (<[Z.to_nat frame_index := Used 1]> (frame_info fa))
                (free_count fa - 1) next_free in
            (fa', unwrap (frage_from_index PhysTag L0_SIZE frame_index))
        | _ => (fa, Panic)
        end
  end.

(** Puts a frame at the head of the list of free frames. *)
Definition push_free (fa : FrameAllocator) (frame_index : Z) : FrameAllocator :=
  mkFrameAllocator (absent fa) (access_beyond_frame_info fa)
    (<[Z.to_nat frame_index := Free (free_frame fa)]> (frame_info fa))
    (free_count fa + 1) (Some frame_index).

Definition set_used (fa : FrameAllocator) (frame_index reference_count : Z) : FrameAllocator :=
  with_info fa (<[Z.to_nat frame_index := Used reference_count]> (frame_info fa)).

Definition deallocate (frame : Z) : M FrameAllocator unit := fun fa =>
  match frage_index L0_SIZE frame with
  | Ok frame_index =>
      if Z.of_nat (length (frame_info fa)) <=? frame_index then (fa, Ok tt)
      else
        match index (frame_info fa) frame_index with
        | Ok Absent => (fa, Ok tt)
        | Ok (Free _) => (fa, Panic)
        | Ok (Used reference_count) =>
            match usize_sub reference_count 1 with
            | Ok reference_count =>
                if reference_count =? 0 then
                  match usize_add (free_count fa) 1 with
                  | Ok _ => (push_free fa frame_index, Ok tt)
                  | _ => (fa, Panic)
                  end
                else (set_used fa frame_index reference_count, Ok tt)
            | _ => (fa, Panic)
            end
        | _ => (fa, Panic)
        end
  | _ => (fa, Panic)
  end.

(** The result is the [FrameGuard] that owns the new reference. *)
Definition reference (frame : Z) : M FrameAllocator Z := fun fa =>
  match frage_index L0_SIZE frame with
  | Ok frame_index =>
      if Z.of_nat (length (frame_info fa)) <=? frame_index then (fa, Ok frame)
      else
        match index (frame_info fa) frame_index with
        | Ok Absent => (fa, Ok frame)
        | Ok (Free _) => (fa, Panic)
        | Ok (Used reference_count) =>
            match usize_add reference_count 1 with
            | Ok reference_count => (set_used fa frame_index reference_count, Ok frame)
            | _ => (fa, Panic)
            end
        | _ => (fa, Panic)
        end
  | _ => (fa, Panic)
  end.

(** The getters [frame_info] and [frame_info_mut]; the second one also records the
    access beyond the slice. *)
Definition frame_info_of (fa : FrameAllocator) (frame : Z) : outcome FrameInfo :=
  let? i := frage_index L0_SIZE frame in
  if i <? Z.of_nat (length (frame_info fa)) then index (frame_info fa) i else Ok (absent fa).

Definition frame_info_mut (frame : Z) : M FrameAllocator FrameInfo := fun fa =>
  match frage_index L0_SIZE frame with
  | Ok i =>
      if i <? Z.of_nat (length (frame_info fa)) then (fa, index (frame_info fa) i)
      else
        (mkFrameAllocator (absent fa) true (frame_info fa) (free_count fa) (free_frame fa),
         Ok (absent fa))
  | _ => (fa, Panic)
  end.

Definition reference_count (fa : FrameAllocator) (frame : Z) : outcome Z :=
  let? info := frame_info_of fa frame in
  match info with
  | Absent => Err NoFrame
  | Free _ => Ok 0
  | Used reference_count => Ok reference_count
  end.

Definition is_used (fa : FrameAllocator) (frame : Z) : outcome bool :=
  let? info := frame_info_of fa frame in
  match info with Free _ => Ok false | _ => Ok true end.

(** The body of the loop over the frames of one region. *)
Definition init_frame (region_type : MemoryRegionType) (fa : FrameAllocator) (frame_index : Z)
    : FrameAllocator :=
  if frame_index <? Z.of_nat (length (frame_info fa)) then
    match region_type with
    | Usable => push_free fa frame_index
    | Kernel | KernelStack | PageTable => set_used fa frame_index 1
    | OtherRegion => fa
    end
  else fa.

Definition init_region (start end_ : Z) (region : MemoryRegion) (fa : FrameAllocator)
    : outcome FrameAllocator :=
  let? region_frames :=
    unwrap (block_from_index_u64 Frame (start_frame_number region) (end_frame_number region)) in
  let? frames := unwrap (block_from_index Frame start end_) in
  let? common := Block.intersection Frame region_frames frames in
  if is_empty common then Ok fa
  else Ok (foldl (init_frame (region_type region)) fa (block_indices common)).

Fixpoint init_frame_info (memory_map : list MemoryRegion) (start end_ : Z) (fa : FrameAllocator)
    : outcome FrameAllocator :=
  match memory_map with
  | [] => Ok fa
  | region :: memory_map =>
      let? fa := init_region start end_ region fa in
      init_frame_info memory_map start end_ fa
  end.

Definition frame_allocator_new (info : list FrameInfo) (memory_map : list MemoryRegion)
    : outcome FrameAllocator :=
  let fa := mkFrameAllocator Absent false info 0 None in
  init_frame_info memory_map 0 (Z.of_nat (length info)) fa.

(** [resize] returns the allocator on the new storage and the old storage.
    Slicing the new storage at the old length panics when it is shorter. *)
Definition resize (new_info : list FrameInfo) (memory_map : list MemoryRegion)
    (fa : FrameAllocator) : outcome (FrameAllocator * list FrameInfo) :=
  assert! negb (access_beyond_frame_info fa) in
  let old_len := length (frame_info fa) in
  let new_len := length new_info in
  assert! (old_len <=? new_len)%nat in
  let fa' := with_info fa (frame_info fa ++ drop old_len new_info) in
  let? fa' :=
    (if (old_len <? new_len)%nat
     then init_frame_info memory_map (Z.of_nat old_len) (Z.of_nat new_len) fa'
     else Ok fa') in
  Ok (fa', frame_info fa).

(** [FrameGuard::load] and [FrameGuard::store] move a reference out of and into a
    page table entry. *)
Definition guard_load (pte : Z) : outcome (Z * Z) := Pte.take pte.
Definition guard_store (guard flags : Z) : outcome Z := Pte.set_frame guard flags.

(** ** The invariant *)

(** [chain info head l]: following [next_free] from [head] visits exactly [l]. *)
Fixpoint chain (info : list FrameInfo) (head : option Z) (l : list Z) : Prop :=
  match l with
  | [] => head = None
  | i :: l =>
      head = Some i /\ 0 <= i /\
      exists next, info !! Z.to_nat i = Some (Free next) /\ chain info next l
  end.

(** The largest number of frames a physical address space has. *)
Abbreviation MAX_FRAMES := 1099511627776.

Record fa_wf (fa : FrameAllocator) : Prop := {
  wf_length : Z.of_nat (length (frame_info fa)) <= MAX_FRAMES;
  wf_absent : absent fa = Absent;
  wf_chain : exists l,
    chain (frame_info fa) (free_frame fa) l /\ NoDup l /\ free_count fa = Z.of_nat (length l) /\
    forall i next, frame_info fa !! i = Some (Free next) -> Z.of_nat i ∈ l;
  wf_used : forall i rc, frame_info fa !! i = Some (Used rc) -> 0 < rc < USIZE_MODULUS;
}.

(** The state of a frame, by its number. *)
Definition info_at (fa : FrameAllocator) (i : Z) : option FrameInfo := frame_info fa !! Z.to_nat i.

Definition is_free_info (info : FrameInfo) : bool := match info with Free _ => true | _ => false end.

Lemma chain_range info head l i : chain info head l -> i ∈ l -> 0 <= i < Z.of_nat (length info).
Proof.
  revert head. induction l as [|j l IH]; intros head Hc Hi; [by apply not_elem_of_nil in Hi|].
  destruct Hc as (_ & Hj & next & Hn & Hc). apply elem_of_cons in Hi as [->|Hi]; [|by eapply IH].
  apply lookup_lt_Some in Hn. lia.
Qed.

Lemma chain_free info head l i :
  chain info head l -> i ∈ l -> exists next, info !! Z.to_nat i = Some (Free next).
Proof.
  revert head. induction l as [|j l IH]; intros head Hc Hi; [by apply not_elem_of_nil in Hi|].
  destruct Hc as (_ & Hj & next & Hn & Hc). apply elem_of_cons in Hi as [->|Hi]; [eauto|by eapply IH].
Qed.

(** Writing an entry outside the list leaves the list intact. *)
Lemma chain_insert info head l i x :
  chain info head l -> 0 <= i -> i ∉ l -> chain (<[Z.to_nat i := x]> info) head l.
Proof.
  revert head. induction l as [|j l IH]; intros head Hc Hi Hni; [done|].
  apply not_elem_of_cons in Hni as [Hne Hni].
  destruct Hc as (Hh & Hj & next & Hn & Hc). split; [done|]. split; [done|].
  exists next. rewrite list_lookup_insert_ne by lia. split; [done|]. by apply IH.
Qed.

Lemma chain_app info extra head l : chain info head l -> chain (info ++ extra) head l.
Proof.
  revert head. induction l as [|j l IH]; intros head Hc; [done|].
  destruct Hc as (Hh & Hj & next & Hn & Hc). split; [done|]. split; [done|].
  exists next. split; [by apply lookup_app_l_Some|by apply IH].
Qed.

Lemma not_free_not_in info head l i :
  chain info head l -> (forall next, info !! Z.to_nat i <> Some (Free next)) -> i ∉ l.
Proof. intros Hc Hf Hi. destruct (chain_free _ _ _ _ Hc Hi) as [next Hn]. by apply (Hf next). Qed.

Section Steps.
  Context (fa : FrameAllocator) (Hfa : fa_wf fa).

(** The three ways the operations change the table. *)
Lemma wf_push_free i :
  0 <= i < Z.of_nat (length (frame_info fa)) ->
  (forall next, info_at fa i <> Some (Free next)) -> fa_wf (push_free fa i).
Proof using Hfa.
  intros Hi Hnf. destruct Hfa as [Hlen Habs (l & Hc & Hnd & Hcnt & Hall) Hused].
  pose proof (not_free_not_in _ _ _ i Hc Hnf) as Hni.
  split; cbn; rewrite ?length_insert; [done|done| |].
  - exists (i :: l). split; [|split; [by constructor|split; [cbn; lia|]]].
    + split; [done|]. split; [lia|]. eexists. rewrite list_lookup_insert_eq by lia.
      split; [done|]. by apply chain_insert; [|lia|].
    + intros j next Hj. apply list_lookup_insert_Some in Hj as [(<- & _ & _)|[_ Hj]].
      * rewrite Z2Nat.id by lia. left.
      * right. by eapply Hall.
  - intros j rc Hj. apply list_lookup_insert_Some in Hj as [(_ & ? & _)|[_ Hj]]; [done|]. by eapply Hused.
Qed.

Lemma wf_set_used i rc :
  0 <= i -> 0 < rc < USIZE_MODULUS -> (forall next, info_at fa i <> Some (Free next)) ->
  fa_wf (set_used fa i rc).
Proof using Hfa.
  intros Hi Hrc Hnf. destruct Hfa as [Hlen Habs (l & Hc & Hnd & Hcnt & Hall) Hused].
  pose proof (not_free_not_in _ _ _ i Hc Hnf) as Hni.
  split; cbn; rewrite ?length_insert; [done|done| |].
  - exists l. split; [by apply chain_insert|]. split; [done|]. split; [done|].
    intros j next Hj. apply list_lookup_insert_Some in Hj as [(_ & ? & _)|[_ Hj]]; [done|]. by eapply Hall.
  - intros j rc' Hj. apply list_lookup_insert_Some in Hj as [(_ & [= <-] & _)|[_ Hj]]; [done|].
    by eapply Hused.
Qed.

(** Popping the head of the list of free frames. *)
Lemma allocate_cases :
  (free_count fa = 0 /\ free_frame fa = None /\ allocate fa = (fa, Err NoFrame)) \/
  (0 < free_count fa /\ exists i next fa',
     free_frame fa = Some i /\ 0 <= i < Z.of_nat (length (frame_info fa)) /\
     info_at fa i = Some (Free next) /\ allocate fa = (fa', Ok (i * L0_SIZE)) /\
     frame_info fa' = <[Z.to_nat i := Used 1]> (frame_info fa) /\
     free_count fa' = free_count fa - 1 /\ free_frame fa' = next /\
     access_beyond_frame_info fa' = access_beyond_frame_info fa /\ fa_wf fa').
Proof using Hfa.
  destruct Hfa as [Hlen Habs (l & Hc & Hnd & Hcnt & Hall) Hused]. unfold allocate.
  destruct l as [|i l].
  { left. cbn in Hc, Hcnt. by rewrite Hc. }
  right. destruct Hc as (Hh & Hi & next & Hn & Hc). split; [cbn in Hcnt; lia|].
  apply lookup_lt_Some in Hn as Hlt. rewrite Hh.
  rewrite (proj2 (Z.eqb_neq _ _)) by (cbn in Hcnt; lia).
  rewrite (proj2 (index_ok (frame_info fa) i (Free next))) by done.
  assert (frage_from_index PhysTag L0_SIZE i = Ok (i * L0_SIZE)) as ->.
  { apply frage_from_index_spec; [lia|]. split; [done|]. apply phys_valid_iff.
    change L0_SIZE with 4096. lia. }
  exists i, next. eexists. split; [done|]. split; [lia|]. split; [done|]. split; [done|]. cbn [unwrap].
  do 4 (split; [done|]). apply list.NoDup_cons in Hnd as [Hni Hnd].
  split; cbn; rewrite ?length_insert; [done|done| |].
  - exists l. split; [by apply chain_insert|]. split; [done|]. split; [cbn in Hcnt; lia|].
    intros j next' Hj. apply list_lookup_insert_Some in Hj as [(_ & ? & _)|[Hne Hj]]; [done|].
    apply Hall in Hj. apply elem_of_cons in Hj as [Heq|Hj]; [lia|done].
  - intros j rc' Hj. apply list_lookup_insert_Some in Hj as [(_ & [= <-] & _)|[_ Hj]]; [lia|].
    by eapply Hused.
Qed.

End Steps.

(** ** What each operation does *)

Lemma free_count_bound fa : fa_wf fa -> 0 <= free_count fa <= Z.of_nat (length (frame_info fa)).
Proof.
  intros [_ _ (l & Hc & Hnd & -> & _) _]. split; [lia|].
  assert (l ⊆+ seqZ 0 (Z.of_nat (length (frame_info fa)))) as Hs.
  { apply NoDup_submseteq; [done|]. intros i Hi%(chain_range _ _ _ _ Hc). apply elem_of_seqZ. lia. }
  apply submseteq_length in Hs. rewrite length_seqZ in Hs. lia.
Qed.

Lemma frame_index_range f : is_frame f -> 0 <= f / L0_SIZE < MAX_FRAMES /\ f = f / L0_SIZE * L0_SIZE.
Proof.
  intros [Hv%phys_valid_iff [q ->]]. rewrite Z.div_mul by done. change L0_SIZE with 4096 in *. lia.
Qed.

Lemma info_at_beyond fa i : Z.of_nat (length (frame_info fa)) <= i -> info_at fa i = None.
Proof. intros Hi. unfold info_at. apply lookup_ge_None. lia. Qed.

Lemma index_info fa i info : 0 <= i -> info_at fa i = Some info -> index (frame_info fa) i = Ok info.
Proof. intros Hi H. by apply index_ok. Qed.

Lemma deallocate_spec fa f :
  fa_wf fa -> is_frame f ->
  deallocate f fa =
    match info_at fa (f / L0_SIZE) with
    | None | Some Absent => (fa, Ok tt)
    | Some (Free _) => (fa, Panic)
    | Some (Used rc) =>
        (if rc =? 1 then push_free fa (f / L0_SIZE) else set_used fa (f / L0_SIZE) (rc - 1), Ok tt)
    end.
Proof.
  intros Hfa Hf. destruct (frame_index_range f Hf) as [Hi _].
  unfold deallocate. rewrite frage_index_ok. set (i := f / L0_SIZE) in *.
  destruct (Z.leb_spec (Z.of_nat (length (frame_info fa))) i) as [Hle|Hlt].
  { by rewrite info_at_beyond. }
  destruct (info_at fa i) as [info|] eqn:E; [|apply lookup_ge_None in E; lia].
  rewrite (index_info fa i info) by (done || lia). destruct info as [|next|rc]; [done..|].
  pose proof (wf_used _ Hfa _ _ E) as Hrc. rewrite usize_sub_ok by (unfold is_usize; lia).
  destruct (Z.eqb_spec (rc - 1) 0), (Z.eqb_spec rc 1); try lia; [|done].
  pose proof (free_count_bound fa Hfa). pose proof (wf_length _ Hfa).
  by rewrite usize_add_ok by (unfold is_usize; lia).
Qed.

Lemma deallocate_length f fa fa' r : deallocate f fa = (fa', r) -> length (frame_info fa') = length (frame_info fa).
Proof.
  unfold deallocate, push_free, set_used, with_info. repeat case_match; intros [= <- <-]; cbn; by rewrite ?length_insert.
Qed.

Lemma reference_spec fa f :
  fa_wf fa -> is_frame f ->
  reference f fa =
    match info_at fa (f / L0_SIZE) with
    | None | Some Absent => (fa, Ok f)
    | Some (Free _) => (fa, Panic)
    | Some (Used rc) =>
        if rc =? USIZE_MAX then (fa, Panic) else (set_used fa (f / L0_SIZE) (rc + 1), Ok f)
    end.
Proof.
  intros Hfa Hf. destruct (frame_index_range f Hf) as [Hi _].
  unfold reference. rewrite frage_index_ok. set (i := f / L0_SIZE) in *.
  destruct (Z.leb_spec (Z.of_nat (length (frame_info fa))) i) as [Hle|Hlt].
  { by rewrite info_at_beyond. }
  destruct (info_at fa i) as [info|] eqn:E; [|apply lookup_ge_None in E; lia].
  rewrite (index_info fa i info) by (done || lia). destruct info as [|next|rc]; [done..|].
  pose proof (wf_used _ Hfa _ _ E) as Hrc. unfold usize_add.
  destruct (Z.eqb_spec rc USIZE_MAX) as [->|Hne]; [done|].
  by rewrite (proj2 (fits_usize_true (rc + 1))) by (unfold is_usize; lia).
Qed.

Lemma reference_count_spec fa f :
  fa_wf fa -> is_frame f ->
  reference_count fa f =
    match info_at fa (f / L0_SIZE) with
    | None | Some Absent => Err NoFrame
    | Some (Free _) => Ok 0
    | Some (Used rc) => Ok rc
    end.
Proof.
  intros Hfa Hf. destruct (frame_index_range f Hf) as [Hi _].
  unfold reference_count, frame_info_of. rewrite frage_index_ok. set (i := f / L0_SIZE) in *.
  destruct (Z.ltb_spec i (Z.of_nat (length (frame_info fa)))) as [Hlt|Hge].
  - destruct (info_at fa i) as [info|] eqn:E; [|apply lookup_ge_None in E; lia].
    by rewrite (index_info fa i info) by (done || lia).
  - by rewrite info_at_beyond, (wf_absent _ Hfa).
Qed.

(** The tables after the two kinds of writes. *)
Lemma info_at_insert fa i j x :
  0 <= i < Z.of_nat (length (frame_info fa)) -> 0 <= j ->
  <[Z.to_nat i := x]> (frame_info fa) !! Z.to_nat j = if j =? i then Some x else info_at fa j.
Proof.
  intros Hi Hj. destruct (Z.eqb_spec j i) as [->|Hne].
  - by rewrite list_lookup_insert_eq by lia.
  - by rewrite list_lookup_insert_ne by lia.
Qed.

Lemma info_at_range fa i info : 0 <= i -> info_at fa i = Some info -> 0 <= i < Z.of_nat (length (frame_info fa)).
Proof. intros Hi H%lookup_lt_Some. lia. Qed.

(** ** Ownership

    The references in circulation: [guards] lists the frame of every live
    [FrameGuard] and of every page table entry a guard was stored into. *)

Definition references (guards : list Z) (f : Z) : Z := Z.of_nat (count_occ Z.eq_dec guards f).

Record owned (fa : FrameAllocator) (guards : list Z) : Prop := {
  own_wf : fa_wf fa;
  own_frames : forall f, f ∈ guards -> is_frame f;
  own_counts : forall i rc, 0 <= i -> info_at fa i = Some (Used rc) -> rc = references guards (i * L0_SIZE);
  own_not_free : forall f next, f ∈ guards -> info_at fa (f / L0_SIZE) <> Some (Free next);
}.

Inductive guard_step : FrameAllocator * list Z -> FrameAllocator * list Z -> Prop :=
  | step_allocate fa guards fa' f :
      allocate fa = (fa', Ok f) -> guard_step (fa, guards) (fa', f :: guards)
  | step_reference fa guards fa' f :
      f ∈ guards -> reference f fa = (fa', Ok f) -> guard_step (fa, guards) (fa', f :: guards)
  | step_drop fa before f after fa' :
      deallocate f fa = (fa', Ok tt) -> guard_step (fa, before ++ f :: after) (fa', before ++ after).

Lemma references_cons f g guards :
  references (f :: guards) g = references guards g + if f =? g then 1 else 0.
Proof.
  unfold references. cbn [count_occ]. destruct (Z.eq_dec f g) as [->|Hne].
  - rewrite Z.eqb_refl. lia.
  - rewrite (proj2 (Z.eqb_neq _ _)) by done. lia.
Qed.

Lemma references_app a b g : references (a ++ b) g = references a g + references b g.
Proof. unfold references. rewrite count_occ_app. lia. Qed.

Lemma references_in f guards : f ∈ guards -> 0 < references guards f.
Proof.
  intros H. apply list_elem_of_In, (count_occ_In Z.eq_dec) in H. unfold references. lia.
Qed.

Lemma references_zero f guards : references guards f = 0 -> f ∉ guards.
Proof. intros H Hin%references_in. lia. Qed.

Lemma index_of_frame i : (i * L0_SIZE) / L0_SIZE = i.
Proof. by apply Z.div_mul. Qed.

Lemma frame_of_index i : 0 <= i < MAX_FRAMES -> is_frame (i * L0_SIZE).
Proof.
  intros Hi. split; [|by exists i]. apply phys_valid_iff. change L0_SIZE with 4096. lia.
Qed.

(** The references change at frame number [i] only. *)
Definition same_but (guards guards' : list Z) (i : Z) : Prop :=
  (forall g, g ∈ guards' -> is_frame g) /\
  (forall j, 0 <= j -> j <> i ->
     references guards' (j * L0_SIZE) = references guards (j * L0_SIZE)) /\
  (forall g, g ∈ guards' -> g / L0_SIZE <> i -> g ∈ guards).

Lemma owned_write fa guards fa' guards' i info :
  owned fa guards -> fa_wf fa' -> 0 <= i < Z.of_nat (length (frame_info fa)) ->
  frame_info fa' = <[Z.to_nat i := info]> (frame_info fa) -> same_but guards guards' i ->
  match info with
  | Used rc => rc = references guards' (i * L0_SIZE)
  | Free _ => references guards' (i * L0_SIZE) = 0
  | Absent => True
  end -> owned fa' guards'.
Proof.
  intros [Hwf Hfr Hcnt Hnf] Hwf' Hi Hinfo (Hfr' & Href & Hin) Hcase. split; [done|done| |].
  - intros j rc Hj. unfold info_at. rewrite Hinfo, info_at_insert by done.
    destruct (Z.eqb_spec j i) as [->|Hne]; [by intros [= ->]|].
    intros H. rewrite Href by done. by apply Hcnt.
  - intros g next Hg. destruct (frame_index_range g (Hfr' g Hg)) as [Hr Hgi].
    unfold info_at. rewrite Hinfo, info_at_insert by lia.
    destruct (Z.eqb_spec (g / L0_SIZE) i) as [Heq|Hne]; [|by apply Hnf, Hin].
    intros [= ->]. rewrite Heq in Hgi. rewrite <- Hgi in Hcase. by apply references_zero in Hcase.
Qed.

Lemma owned_ignored fa guards guards' i :
  owned fa guards -> (info_at fa i = None \/ info_at fa i = Some Absent) ->
  same_but guards guards' i -> owned fa guards'.
Proof.
  intros [Hwf Hfr Hcnt Hnf] Hi (Hfr' & Href & Hin). split; [done|done| |].
  - intros j rc Hj H. destruct (decide (j = i)) as [->|Hne]; [by destruct Hi; congruence|].
    rewrite Href by done. by apply Hcnt.
  - intros g next Hg H. destruct (decide (g / L0_SIZE = i)) as [<-|Hne]; [by destruct Hi; congruence|].
    by apply (Hnf g next (Hin g Hg Hne)).
Qed.

Lemma same_but_cons guards f :
  (forall g, g ∈ guards -> is_frame g) -> is_frame f -> same_but guards (f :: guards) (f / L0_SIZE).
Proof.
  intros Hfr Hf. destruct (frame_index_range f Hf) as [_ Hfi]. split; [|split].
  - intros g [->|Hg]%elem_of_cons; auto.
  - intros j Hj Hne. rewrite references_cons, (proj2 (Z.eqb_neq _ _)); [lia|].
    intros ->. by rewrite index_of_frame in Hne.
  - intros g [->|Hg]%elem_of_cons Hne; done.
Qed.

Lemma same_but_drop before f after :
  (forall g, g ∈ before ++ f :: after -> is_frame g) ->
  same_but (before ++ f :: after) (before ++ after) (f / L0_SIZE).
Proof.
  intros Hfr. split; [|split].
  - intros g Hg. apply Hfr. rewrite elem_of_app in *. rewrite elem_of_cons. tauto.
  - intros j Hj Hne. rewrite !references_app, references_cons, (proj2 (Z.eqb_neq _ _)); [lia|].
    intros ->. by rewrite index_of_frame in Hne.
  - intros g Hg _. rewrite elem_of_app in *. rewrite elem_of_cons. tauto.
Qed.

Lemma owned_allocate fa guards fa' f :
  owned fa guards -> allocate fa = (fa', Ok f) -> (f ∉ guards) /\ owned fa' (f :: guards).
Proof.
  intros Ho Ha. pose proof (own_wf _ _ Ho) as Hwf.
  destruct (allocate_cases fa Hwf) as
    [(_ & _ & E)|(_ & i & next & fa'' & _ & Hi & Hinfo & E & Hfi & _ & _ & _ & Hwf')];
    rewrite E in Ha; [done|]. injection Ha as -> <-. pose proof (wf_length _ Hwf).
  assert (is_frame (i * L0_SIZE)) as Hf by (apply frame_of_index; lia).
  assert (i * L0_SIZE ∉ guards) as Hni.
  { intros Hg. apply (own_not_free _ _ Ho _ next Hg). by rewrite index_of_frame. }
  split; [done|]. pose proof (same_but_cons guards _ (own_frames _ _ Ho) Hf) as Hs.
  rewrite index_of_frame in Hs.
  apply (owned_write fa guards fa' _ i (Used 1)); [done..|].
  rewrite references_cons, Z.eqb_refl. unfold references.
  rewrite (proj1 (count_occ_not_In Z.eq_dec guards (i * L0_SIZE))); [done|].
  by rewrite <- list_elem_of_In.
Qed.

Lemma owned_reference fa guards fa' f :
  owned fa guards -> f ∈ guards -> reference f fa = (fa', Ok f) -> owned fa' (f :: guards).
Proof.
  intros Ho Hg Hr. pose proof (own_wf _ _ Ho) as Hwf. pose proof (own_frames _ _ Ho f Hg) as Hf.
  destruct (frame_index_range f Hf) as [Hi Hfi]. pose proof (same_but_cons guards f (own_frames _ _ Ho) Hf) as Hs.
  rewrite reference_spec in Hr by done.
  destruct (info_at fa (f / L0_SIZE)) as [[|next|rc]|] eqn:E; [| | |].
  - injection Hr as <-. by apply (owned_ignored fa guards _ (f / L0_SIZE)); [|right|].
  - done.
  - destruct (Z.eqb_spec rc USIZE_MAX); [done|]. injection Hr as <-.
    pose proof (wf_used _ Hwf _ _ E) as Hrc.
    apply (owned_write fa guards _ _ (f / L0_SIZE) (Used (rc + 1))); [done| |..|done|].
    + apply wf_set_used; [done|lia|lia|]. by rewrite E.
    + apply (info_at_range fa _ _ (proj1 Hi) E).
    + done.
    + rewrite references_cons, <- Hfi, Z.eqb_refl.
      rewrite (own_counts _ _ Ho _ _ (proj1 Hi) E), <- Hfi. done.
  - injection Hr as <-. by apply (owned_ignored fa guards _ (f / L0_SIZE)); [|left|].
Qed.

(** A reference that is held can be duplicated unless its count would overflow. *)
Lemma owned_refer fa guards f :
  owned fa guards -> f ∈ guards -> references guards f < USIZE_MAX ->
  exists fa', reference f fa = (fa', Ok f) /\ owned fa' (f :: guards) /\
    length (frame_info fa') = length (frame_info fa).
Proof.
  intros Ho Hin Hcnt. pose proof (own_wf _ _ Ho) as Hwf. pose proof (own_frames _ _ Ho f Hin) as Hf.
  destruct (frame_index_range f Hf) as [Hi Hfi].
  assert (exists fa', reference f fa = (fa', Ok f) /\ length (frame_info fa') = length (frame_info fa))
    as (fa' & E & Hlen).
  { rewrite reference_spec by done. destruct (info_at fa (f / L0_SIZE)) as [[|next|rc]|] eqn:E; [by eauto| | |by eauto].
    - by apply (own_not_free _ _ Ho) in E.
    - pose proof (own_counts _ _ Ho _ _ (proj1 Hi) E) as Hrc. rewrite <- Hfi in Hrc.
      rewrite (proj2 (Z.eqb_neq _ _)) by lia. eexists. split; [done|]. cbn. by rewrite length_insert. }
  exists fa'. split; [done|]. split; [|done]. by apply (owned_reference fa).
Qed.

Lemma references_length guards f : references guards f <= Z.of_nat (length guards).
Proof. unfold references. pose proof (count_occ_bound Z.eq_dec f guards). lia. Qed.

Lemma owned_drop fa before f after :
  owned fa (before ++ f :: after) ->
  exists fa', deallocate f fa = (fa', Ok tt) /\ owned fa' (before ++ after).
Proof.
  intros Ho. pose proof (own_wf _ _ Ho) as Hwf.
  assert (f ∈ before ++ f :: after) as Hg by set_solver.
  pose proof (own_frames _ _ Ho f Hg) as Hf. destruct (frame_index_range f Hf) as [Hi Hfi].
  pose proof (same_but_drop before f after (own_frames _ _ Ho)) as Hs.
  rewrite deallocate_spec by done. destruct (info_at fa (f / L0_SIZE)) as [[|next|rc]|] eqn:E.
  - eexists. split; [done|]. by apply (owned_ignored fa _ _ (f / L0_SIZE) Ho); [right|].
  - by apply (own_not_free _ _ Ho) in E.
  - pose proof (wf_used _ Hwf _ _ E) as Hrc. pose proof (info_at_range fa _ _ (proj1 Hi) E) as Hr.
    pose proof (own_counts _ _ Ho _ _ (proj1 Hi) E) as Hcnt.
    rewrite <- Hfi, references_app, references_cons, Z.eqb_refl, Z.add_assoc, <- references_app in Hcnt.
    eexists. split; [done|]. destruct (Z.eqb_spec rc 1) as [->|Hne].
    + apply (owned_write fa _ _ _ (f / L0_SIZE) (Free (free_frame fa)) Ho);
        [|done|done|done|rewrite <- Hfi; lia]. apply wf_push_free; [done|done|by rewrite E].
    + apply (owned_write fa _ _ _ (f / L0_SIZE) (Used (rc - 1)) Ho);
        [|done|done|done|rewrite <- Hfi; lia]. apply wf_set_used; [done|lia|lia|by rewrite E].
  - eexists. split; [done|]. by apply (owned_ignored fa _ _ (f / L0_SIZE) Ho); [left|].
Qed.

(** ** Initialisation from the memory map *)

(** The state the memory map prescribes for the frames of a region. *)
Definition has_kind (info : option FrameInfo) (t : MemoryRegionType) : Prop :=
  match t with
  | Usable => exists next, info = Some (Free next)
  | Kernel | KernelStack | PageTable => info = Some (Used 1)
  | OtherRegion => info = Some Absent
  end.

Definition in_region (r : MemoryRegion) (i : Z) : Prop :=
  start_frame_number r <= i < end_frame_number r.

(** What the boot loader guarantees: regions of valid frame numbers, disjoint. *)
Definition region_valid (r : MemoryRegion) : Prop :=
  0 <= start_frame_number r <= end_frame_number r /\ end_frame_number r <= MAX_FRAMES /\
  start_frame_number r < MAX_FRAMES.

Definition regions_disjoint (r1 r2 : MemoryRegion) : Prop :=
  forall i, in_region r1 i -> in_region r2 i -> False.

Lemma frame_block_wf s e : 0 <= s <= e -> e <= MAX_FRAMES -> s < MAX_FRAMES -> block_wf Frame (mkBlock s e).
Proof.
  intros H He Hs. assert (forall i, 0 <= i < MAX_FRAMES -> valid PhysTag (i * L0_SIZE)) as Hv.
  { intros i Hi. apply phys_valid_iff. change L0_SIZE with 4096. lia. }
  split; unfold last_index; cbn -[L0_SIZE Z.mul]; try done.
  - unfold is_usize. lia.
  - lia.
  - apply Hv. lia.
  - apply Hv. destruct (Z.ltb_spec s e); lia.
Qed.

Lemma frame_block_ok s e :
  0 <= s <= e -> e <= MAX_FRAMES -> s < MAX_FRAMES -> block_from_index Frame s e = Ok (mkBlock s e).
Proof.
  intros H He Hs. pose proof (frame_block_wf s e H He Hs) as Hb.
  by apply block_from_index_spec; [unfold is_usize; lia..|].
Qed.

Lemma init_frame_spec t fa i :
  fa_wf fa -> 0 <= i < Z.of_nat (length (frame_info fa)) -> info_at fa i = Some Absent ->
  let fa' := init_frame t fa i in
  fa_wf fa' /\ length (frame_info fa') = length (frame_info fa) /\ has_kind (info_at fa' i) t /\
  forall j, 0 <= j -> j <> i -> info_at fa' j = info_at fa j.
Proof.
  intros Hfa Hi Habs. unfold init_frame. rewrite (proj2 (Z.ltb_lt _ _)) by lia.
  assert (forall x j, 0 <= j -> j <> i ->
            <[Z.to_nat i := x]> (frame_info fa) !! Z.to_nat j = info_at fa j) as Hother.
  { intros x j Hj Hne. by rewrite info_at_insert, (proj2 (Z.eqb_neq _ _)). }
  assert (forall x, <[Z.to_nat i := x]> (frame_info fa) !! Z.to_nat i = Some x) as Hself.
  { intros x. by rewrite info_at_insert, Z.eqb_refl by lia. }
  assert (forall rc, 0 < rc < USIZE_MODULUS -> fa_wf (set_used fa i rc)) as Hused.
  { intros rc Hrc. apply wf_set_used; [done|lia|done|]. by rewrite Habs. }
  assert (fa_wf (push_free fa i)) as Hpush by (apply wf_push_free; [done..|by rewrite Habs]).
  assert (0 < 1 < USIZE_MODULUS) as H1 by lia.
  destruct t; cbn; (split; [auto|split; [by rewrite ?length_insert|split; [|auto]]]);
    unfold info_at; cbn; rewrite ?Hself; eauto.
Qed.

Lemma init_frames_spec t l fa :
  fa_wf fa -> NoDup l ->
  (forall i, i ∈ l -> 0 <= i < Z.of_nat (length (frame_info fa)) /\ info_at fa i = Some Absent) ->
  let fa' := foldl (init_frame t) fa l in
  fa_wf fa' /\ length (frame_info fa') = length (frame_info fa) /\
  (forall i, i ∈ l -> has_kind (info_at fa' i) t) /\
  forall j, 0 <= j -> j ∉ l -> info_at fa' j = info_at fa j.
Proof.
  revert fa. induction l as [|i l IH]; intros fa Hfa Hnd Hl; cbn.
  { split; [done|]. split; [done|]. split; [by intros i Hi%not_elem_of_nil|done]. }
  apply list.NoDup_cons in Hnd as [Hni Hnd]. destruct (Hl i ltac:(left)) as [Hi Habs].
  destruct (init_frame_spec t fa i Hfa Hi Habs) as (Hwf & Hlen & Hk & Hoth).
  destruct (IH (init_frame t fa i) Hwf Hnd) as (Hwf' & Hlen' & Hk' & Hoth').
  { intros j Hj. destruct (Hl j ltac:(by right)) as [Hr Ha]. rewrite Hlen, Hoth; [done|lia|].
    by intros ->. }
  split; [done|]. split; [congruence|]. split.
  - intros j [->|Hj]%elem_of_cons; [|by apply Hk']. rewrite Hoth'; [done|lia|done].
  - intros j Hj [Hne Hnj]%not_elem_of_cons. by rewrite Hoth', Hoth.
Qed.

Section Init.
  Context (start end_ : Z) (Hrange : 0 <= start <= end_) (Hmax : end_ <= MAX_FRAMES) (Hs : start < MAX_FRAMES).

Lemma init_region_spec r fa :
  fa_wf fa -> region_valid r -> end_ <= Z.of_nat (length (frame_info fa)) ->
  (forall i, start <= i < end_ -> in_region r i -> info_at fa i = Some Absent) ->
  exists fa', init_region start end_ r fa = Ok fa' /\
    fa_wf fa' /\ length (frame_info fa') = length (frame_info fa) /\
    (forall i, start <= i < end_ -> in_region r i -> has_kind (info_at fa' i) (region_type r)) /\
    forall j, 0 <= j -> ~ (start <= j < end_ /\ in_region r j) -> info_at fa' j = info_at fa j.
Proof using Hrange Hmax Hs.
  intros Hfa (Hr1 & Hr2 & Hr3) Hlen Habs. unfold init_region, block_from_index_u64.
  rewrite !frame_block_ok by done. cbn [unwrap].
  destruct (intersection_spec Frame (mkBlock (start_frame_number r) (end_frame_number r))
              (mkBlock start end_)) as (b & -> & Hb & Hin);
    [apply phys_valid_iff; lia|by apply frame_block_wf..|]. cbn in Hin.
  assert (forall i, i ∈ block_indices b <-> start <= i < end_ /\ in_region r i) as Hel.
  { intros i. unfold block_indices, in_region. rewrite elem_of_seqZ.
    specialize (Hin i). rewrite contains_index_iff in Hin. pose proof (wf_order _ _ Hb). lia. }
  destruct (init_frames_spec (region_type r) (block_indices b) fa Hfa (NoDup_seqZ _ _))
    as (Hwf & Hlen' & Hk & Hoth).
  { intros i [Hi Hr]%Hel. split; [lia|auto]. }
  unfold is_empty. destruct (Z.eqb_spec (b_start b) (b_end b)) as [E|E].
  - exists fa. do 3 (split; [done|]). split; [|done]. intros i Hi Hr.
    assert (i ∈ block_indices b) as H by (by apply Hel). unfold block_indices in H.
    apply elem_of_seqZ in H. lia.
  - eexists. do 3 (split; [done|]). split; [intros; by apply Hk, Hel|].
    intros j Hj Hn. apply Hoth; [done|]. by rewrite Hel.
Qed.

Lemma init_frame_info_spec memory_map fa :
  fa_wf fa -> Forall region_valid memory_map -> ForallOrdPairs regions_disjoint memory_map ->
  end_ <= Z.of_nat (length (frame_info fa)) ->
  (forall i, start <= i < end_ -> info_at fa i = Some Absent \/ Forall (fun r => ~ in_region r i) memory_map) ->
  exists fa', init_frame_info memory_map start end_ fa = Ok fa' /\
    fa_wf fa' /\ length (frame_info fa') = length (frame_info fa) /\
    (forall r i, r ∈ memory_map -> start <= i < end_ -> in_region r i ->
       has_kind (info_at fa' i) (region_type r)) /\
    forall j, 0 <= j -> ~ (start <= j < end_ /\ Exists (fun r => in_region r j) memory_map) ->
      info_at fa' j = info_at fa j.
Proof using Hrange Hmax Hs.
  revert fa. induction memory_map as [|r memory_map IH]; intros fa Hfa Hv Hd Hlen Habs; cbn.
  { exists fa. do 3 (split; [done|]). split; [by intros ? ? ?%not_elem_of_nil|done]. }
  inversion Hv as [|? ? Hv1 Hv2]. inversion Hd as [|? ? Hd1 Hd2]. subst.
  destruct (init_region_spec r fa Hfa Hv1 Hlen) as (fa1 & -> & Hwf1 & Hlen1 & Hk1 & Hoth1).
  { intros i Hi Hr. destruct (Habs i Hi) as [|Hn]; [done|]. by inversion Hn. }
  destruct (IH fa1 Hwf1 Hv2 Hd2) as (fa2 & -> & Hwf2 & Hlen2 & Hk2 & Hoth2); [lia| |].
  { intros i Hi. destruct (decide (start_frame_number r <= i < end_frame_number r)) as [Hr|Hr].
    - right. apply list.Forall_forall. intros r' Hr' Hin.
      rewrite list.Forall_forall in Hd1. by apply (Hd1 r' Hr' i).
    - rewrite Hoth1 by (unfold in_region; lia). destruct (Habs i Hi) as [|Hn]; [by left|right].
      by inversion Hn. }
  exists fa2. split; [done|]. split; [done|]. split; [lia|]. split.
  - intros r' i [->|Hr']%elem_of_cons Hi Hin; [|by eapply Hk2].
    rewrite Hoth2; [by apply Hk1|lia|]. intros [_ He]. apply list.Exists_exists in He as (r' & Hr' & Hin').
    rewrite list.Forall_forall in Hd1. by apply (Hd1 r' Hr' i).
  - intros j Hj Hn. rewrite Hoth2, Hoth1; [done|done| |done|].
    + intros [? ?]. apply Hn. split; [done|]. by left.
    + intros [? ?]. apply Hn. split; [done|]. by right.
Qed.

End Init.

(** ** Theorems *)

(** C11.  Ownership of frames.  In any state reached from a consistent one by
    allocating frames, taking further references to held frames and dropping
    held references in any order: every reference count equals the number of
    references in circulation, a frame handed out by [allocate] is not held by
    anyone, and dropping any held reference succeeds (never the double-free
    panic). *)
Theorem frame_ownership fa guards fa' guards' :
  owned fa guards -> rtc guard_step (fa, guards) (fa', guards') ->
  owned fa' guards' /\
  (forall fa'' f, allocate fa' = (fa'', Ok f) -> ~ f ∈ guards') /\
  (forall f, f ∈ guards' -> exists fa'', deallocate f fa' = (fa'', Ok tt)).
Proof.
  intros Ho Hsteps.
  assert (forall s s', rtc guard_step s s' -> owned s.1 s.2 -> owned s'.1 s'.2) as Hinv.
  { intros s s'. induction 1 as [|s1 s2 s3 Hstep _ IH]; [done|]. intros H1. apply IH.
    destruct Hstep as [? ? ? ? Ha|? ? ? ? Hg Hr|? ? ? ? ? Hdrop]; cbn in *.
    - by eapply owned_allocate.
    - by eapply owned_reference.
    - destruct (owned_drop _ _ _ _ H1) as (fa2 & E & Ho2). rewrite Hdrop in E. by injection E as <-. }
  pose proof (Hinv _ _ Hsteps Ho) as Ho'. cbn in Ho'. split; [done|]. split.
  - intros fa'' f Ha. by apply (owned_allocate fa' guards' fa'' f Ho' Ha).
  - intros f Hf. apply list_elem_of_split in Hf as (before & after & ->).
    destruct (owned_drop _ _ _ _ Ho') as (fa2 & E & _). by exists fa2.
Qed.

(** Allocation never fails while frames are free, hands out a free frame with
    reference count 1 and changes no other frame; returning the frame restores
    the exact allocator state.  With no free frame the answer is [NoFrame] and
    nothing changes. *)
Theorem frame_allocate_roundtrip fa :
  fa_wf fa ->
  (free_count fa = 0 /\ allocate fa = (fa, Err NoFrame)) \/
  (exists fa' f, allocate fa = (fa', Ok f) /\ is_frame f /\ fa_wf fa' /\
     reference_count fa f = Ok 0 /\ reference_count fa' f = Ok 1 /\
     free_count fa' = free_count fa - 1 /\
     (forall g, is_frame g -> g <> f -> reference_count fa' g = reference_count fa g) /\
     deallocate f fa' = (fa, Ok tt)).
Proof.
  intros Hfa. destruct (allocate_cases fa Hfa) as
    [(H0 & _ & Ha)|(_ & i & next & fa' & Hh & Hi & Hinfo & Ha & Hfi & Hfc & Hff & Hacc & Hwf')];
    [by left|right]. pose proof (wf_length _ Hfa).
  assert (is_frame (i * L0_SIZE)) as Hf by (apply frame_of_index; lia).
  assert (forall j, 0 <= j -> info_at fa' j = if j =? i then Some (Used 1) else info_at fa j) as Hinfo'.
  { intros j Hj. unfold info_at. by rewrite Hfi, info_at_insert. }
  exists fa', (i * L0_SIZE). do 3 (split; [done|]).
  split; [by rewrite reference_count_spec, index_of_frame, Hinfo|].
  split; [by rewrite reference_count_spec, index_of_frame, Hinfo', Z.eqb_refl by (done || lia)|].
  split; [done|]. split.
  - intros g Hg Hne. destruct (frame_index_range g Hg) as [Hr Hgi].
    rewrite !reference_count_spec, Hinfo' by (done || lia).
    destruct (Z.eqb_spec (g / L0_SIZE) i); [congruence|done].
  - rewrite deallocate_spec, index_of_frame, Hinfo', Z.eqb_refl by (done || lia). cbn.
    unfold push_free. rewrite Hfi, Hfc, Hff, Hacc, list_insert_insert_eq.
    rewrite list_insert_id by exact Hinfo.
    rewrite (wf_absent _ Hwf'), <- (wf_absent _ Hfa), <- Hh. do 2 f_equal.
    destruct fa. cbn. f_equal. lia.
Qed.

(** C38.  Building the allocator from a memory map of disjoint regions: no step
    panics, the invariant holds, every frame of a usable region is free, every
    frame of a kernel, kernel stack or page table region is in use with one
    reference, and frames no region names stay absent. *)
Theorem frame_allocator_new_correct n memory_map :
  0 <= Z.of_nat n <= MAX_FRAMES -> Forall region_valid memory_map ->
  ForallOrdPairs regions_disjoint memory_map ->
  exists fa, frame_allocator_new (replicate n Absent) memory_map = Ok fa /\ fa_wf fa /\
    (forall r i, r ∈ memory_map -> 0 <= i < Z.of_nat n -> in_region r i ->
       has_kind (info_at fa i) (region_type r)) /\
    (forall i, 0 <= i < Z.of_nat n -> Forall (fun r => ~ in_region r i) memory_map ->
       info_at fa i = Some Absent).
Proof.
  intros Hn Hv Hd. unfold frame_allocator_new. rewrite length_replicate.
  set (fa0 := mkFrameAllocator Absent false (replicate n Absent) 0 None).
  assert (fa_wf fa0) as Hwf0.
  { split; cbn; rewrite ?length_replicate; [lia|done| |].
    - exists []. repeat split; [constructor|]. intros i next [Hi _]%lookup_replicate. done.
    - intros i rc [Hi _]%lookup_replicate. done. }
  assert (forall i, 0 <= i < Z.of_nat n -> info_at fa0 i = Some Absent) as Habs.
  { intros i Hi. apply lookup_replicate_2. lia. }
  destruct (init_frame_info_spec 0 (Z.of_nat n) ltac:(lia) ltac:(lia) ltac:(lia) memory_map fa0 Hwf0 Hv Hd)
    as (fa & Hinit & Hwf & _ & Hk & Hoth); [cbn; rewrite length_replicate; lia|auto|].
  exists fa. do 3 (split; [done|]). intros i Hi Hn'. rewrite Hoth; [by apply Habs|lia|].
  intros [_ He]. apply list.Exists_exists in He as (r & Hr & Hin).
  rewrite list.Forall_forall in Hn'. by apply (Hn' r Hr).
Qed.

(** Moving the allocator to a larger table: the state of every frame of the old
    table is kept, every new frame gets the state the memory map prescribes, the
    invariant is kept and the old table is returned. *)
Theorem resize_correct fa n memory_map :
  fa_wf fa -> access_beyond_frame_info fa = false ->
  (length (frame_info fa) < n)%nat -> Z.of_nat n <= MAX_FRAMES ->
  Forall region_valid memory_map -> ForallOrdPairs regions_disjoint memory_map ->
  exists fa', resize (replicate n Absent) memory_map fa = Ok (fa', frame_info fa) /\ fa_wf fa' /\
    length (frame_info fa') = n /\
    (forall i, 0 <= i < Z.of_nat (length (frame_info fa)) -> info_at fa' i = info_at fa i) /\
    (forall r i, r ∈ memory_map -> Z.of_nat (length (frame_info fa)) <= i < Z.of_nat n ->
       in_region r i -> has_kind (info_at fa' i) (region_type r)).
Proof.
  intros Hfa Hacc Hlt Hn Hv Hd. unfold resize. rewrite Hacc, length_replicate. cbn [negb].
  set (old := length (frame_info fa)) in *.
  rewrite (proj2 (Nat.leb_le old n)), (proj2 (Nat.ltb_lt old n)) by lia.
  rewrite drop_replicate. set (fa1 := with_info fa (frame_info fa ++ replicate (n - old) Absent)).
  assert (forall i x, frame_info fa1 !! i = Some x ->
            frame_info fa !! i = Some x \/ (x = Absent /\ (old <= i)%nat)) as Hlook.
  { intros i x [H|[H1 H2]]%lookup_app_Some; [by left|right]. by apply lookup_replicate in H2 as [-> _]. }
  assert (forall i, (i < old)%nat -> frame_info fa1 !! i = frame_info fa !! i) as Hold.
  { intros i Hi. by apply lookup_app_l. }
  assert (length (frame_info fa1) = n) as Hlen1.
  { cbn. rewrite length_app, length_replicate. fold old. lia. }
  assert (fa_wf fa1) as Hwf1.
  { destruct Hfa as [Hlen Habs (l & Hc & Hnd & Hcnt & Hall) Hused].
    split; [lia|done| |].
    - exists l. split; [|split; [done|split; [done|]]].
      + by apply chain_app.
      + intros i next [H|[? _]]%Hlook; [by eapply Hall|done].
    - intros i rc [H|[? _]]%Hlook; [by eapply Hused|done]. }
  destruct (init_frame_info_spec (Z.of_nat old) (Z.of_nat n) ltac:(lia) ltac:(lia) ltac:(lia)
              memory_map fa1 Hwf1 Hv Hd) as (fa' & -> & Hwf & Hlen & Hk & Hoth); [lia| |].
  { intros i Hi. left. unfold info_at. cbn. rewrite lookup_app_r by (fold old; lia).
    apply lookup_replicate_2. fold old. lia. }
  exists fa'. split; [done|]. split; [done|]. split; [lia|]. split; [|done].
  intros i Hi. rewrite Hoth by lia. apply Hold. lia.
Qed.

(** A reference to a frame beyond the table leaves the allocator unchanged; in
    particular the flag that [resize] checks is not raised, although the getter
    written for this purpose would raise it. *)
Lemma reference_beyond_unrecorded fa f :
  fa_wf fa -> is_frame f -> Z.of_nat (length (frame_info fa)) <= f / L0_SIZE ->
  reference f fa = (fa, Ok f) /\ access_beyond_frame_info (frame_info_mut f fa).1 = true.
Proof.
  intros Hfa Hf Hi. split.
  - by rewrite reference_spec, info_at_beyond.
  - unfold frame_info_mut. rewrite frage_index_ok. by rewrite (proj2 (Z.ltb_ge _ _)) by lia.
Qed.

(** ** Witnesses *)

(** Frames 0 and 1 belong to the kernel, 2, 3 and 4 are free, 5 is absent. *)
Definition sample_map : list MemoryRegion :=
  [mkRegion 0 2 Kernel; mkRegion 2 5 Usable; mkRegion 6 9 OtherRegion].

Definition sample : FrameAllocator :=
  mkFrameAllocator Absent false
    [Used 1; Used 1; Free None; Free (Some 2); Free (Some 3); Absent] 3 (Some 4).

Lemma sample_wf : fa_wf sample.
Proof.
  split; cbn -[Z.of_nat]; [lia|done| |].
  - exists [4; 3; 2]. split; [|split; [|split; [done|]]].
    + cbn. split; [done|split; [lia|]]. eexists. split; [done|].
      split; [done|split; [lia|]]. eexists. split; [done|].
      split; [done|split; [lia|]]. eexists. by split.
    + repeat constructor; set_solver.
    + intros i next H. do 6 (destruct i as [|i]; [cbn in *; set_solver|]). done.
  - intros i rc H. do 6 (destruct i as [|i]; [cbn in *; simplify_eq; lia|]). done.
Qed.

Lemma sample_owned : owned sample [0; 4096].
Proof.
  split; [apply sample_wf|..].
  - intros f Hf. apply elem_of_cons in Hf as [->|Hf]; [by apply is_frame_check|].
    apply list_elem_of_singleton in Hf as ->. by apply is_frame_check.
  - intros i rc Hi H. apply (info_at_range sample) in H as Hr; [|done]. cbn in Hr.
    assert (i = 0 \/ i = 1 \/ 2 <= i < 6) as [->|[->|Hge]] by lia; [vm_compute in *; congruence..|].
    assert (i = 2 \/ i = 3 \/ i = 4 \/ i = 5) as [->|[->|[->| ->]]] by lia; vm_compute in H; congruence.
  - intros f next Hf. apply elem_of_cons in Hf as [->|Hf]; [done|].
    by apply list_elem_of_singleton in Hf as ->.
Qed.

Lemma frame_ownership_witness :
  exists fa, rtc guard_step (sample, [0; 4096]) (fa, [16384; 4096]) /\ owned fa [16384; 4096].
Proof.
  assert (rtc guard_step (sample, [0; 4096])
    ((deallocate 0 (allocate sample).1).1, [16384; 4096])) as Hs.
  { eapply rtc_l; [apply (step_allocate sample [0; 4096] (allocate sample).1 16384); reflexivity|].
    eapply rtc_l; [apply (step_drop (allocate sample).1 [16384] 0 [4096]); reflexivity|].
    apply rtc_refl. }
  eexists. split; [exact Hs|]. apply (frame_ownership _ _ _ _ sample_owned Hs).
Defined.

Lemma frame_allocate_roundtrip_witness :
  exists fa f, allocate sample = (fa, Ok f) /\ deallocate f fa = (sample, Ok tt).
Proof.
  destruct (frame_allocate_roundtrip sample sample_wf) as [[H _]|(fa & f & H1 & H)]; [discriminate H|].
  exists fa, f. split; [exact H1|]. apply H.
Defined.

Lemma sample_map_valid : Forall region_valid sample_map /\ ForallOrdPairs regions_disjoint sample_map.
Proof.
  split.
  - repeat constructor; cbn; lia.
  - repeat constructor; intros i; unfold in_region; cbn; lia.
Qed.

Lemma frame_allocator_new_correct_witness :
  exists fa, frame_allocator_new (replicate 6 Absent) sample_map = Ok fa /\
    has_kind (info_at fa 3) Usable.
Proof.
  destruct sample_map_valid as [Hv Hd].
  destruct (frame_allocator_new_correct 6 sample_map) as (fa & H & _ & Hk & _); [cbn; lia|done..|].
  exists fa. split; [exact H|]. apply (Hk (mkRegion 2 5 Usable) 3); [set_solver|lia|].
  unfold in_region. cbn. lia.
Defined.

Lemma resize_correct_witness :
  exists fa, resize (replicate 9 Absent) sample_map sample = Ok (fa, frame_info sample) /\
    info_at fa 4 = Some (Free (Some 3)).
Proof.
  destruct sample_map_valid as [Hv Hd].
  destruct (resize_correct sample 9 sample_map) as (fa & H & _ & _ & Hold & _);
    [apply sample_wf|done|cbn; lia|cbn; lia|done..|].
  exists fa. split; [exact H|]. rewrite (Hold 4) by (cbn; lia). reflexivity.
Defined.
