(* ===== verification/Range.v ===== *)
(** * Range: the division of the address space

    Models [kernel/src/memory/range.rs]: which pages belong to the kernel and
    which to user space, and the size of the physical memory described by the
    memory map of the boot loader. *)

From Stdlib Require Import ZArith Lia.
From stdpp Require Import base list numbers tactics.
From S2P Require Import Prelude Addr Frage Block Mmu FrameAllocator.

Open Scope Z_scope.
Open Scope outcome_scope.

Definition LOWER_HALF_ROOT_LEVEL_ENTRY_COUNT : Z := PAGE_TABLE_ENTRY_COUNT / 2.
Definition KERNEL_ROOT_LEVEL_ENTRY_COUNT : Z := 32.
Definition PAGES_PER_ROOT_LEVEL_ENTRY : Z := PAGE_TABLE_ENTRY_COUNT ^ PAGE_TABLE_ROOT_LEVEL.

Definition kernel_root_level_entries : Z * Z := (0, KERNEL_ROOT_LEVEL_ENTRY_COUNT).
Definition user_root_level_entries : Z * Z :=
  (KERNEL_ROOT_LEVEL_ENTRY_COUNT, LOWER_HALF_ROOT_LEVEL_ENTRY_COUNT).

Definition user_pages : outcome Block :=
  unwrap (block_from_index Page
    (user_root_level_entries.1 * PAGES_PER_ROOT_LEVEL_ENTRY)
    (user_root_level_entries.2 * PAGES_PER_ROOT_LEVEL_ENTRY)).

Definition is_user_block (pages : Block) : outcome bool :=
  let? user := user_pages in Ok (contains_block user pages).

Definition is_kernel_block (pages : Block) : outcome bool :=
  let? user_block := is_user_block pages in
  if negb user_block then
    let? user := user_pages in is_disjoint Page user pages
  else Ok false.

Definition is_user_page (page : Z) : outcome bool :=
  let? user := user_pages in contains Page user page.

Definition validate_block (pages : Block) : outcome unit :=
  let? kernel := is_kernel_block pages in
  let? user := is_user_block pages in
  if negb (Bool.eqb kernel user) then Ok tt else Err PermissionDenied.

Definition validate_block_flags (pages : Block) (flags : Z) : outcome unit :=
  let? _ := validate_block pages in
  let? user := is_user_block pages in
  if Bool.eqb user (PageTableFlags.is_user flags) then Ok tt else Err PermissionDenied.

Definition validate_page_flags (page : Z) (flags : Z) : outcome unit :=
  let? user := is_user_page page in
  if Bool.eqb user (PageTableFlags.is_user flags) then Ok tt else Err PermissionDenied.

(** The loop of [physical] carries the previous region and the two counters; the
    tests that only choose a log message are evaluated and dropped. *)
Fixpoint physical_loop (memory_map : list MemoryRegion) (prev : Block) (total usable_total : Z)
    : outcome (Z * Z) :=
  match memory_map with
  | [] => Ok (total, usable_total)
  | region :: memory_map =>
      let usable := match region_type region with Usable => true | _ => false end in
      let start := start_frame_number region in
      let end_ := end_frame_number region in
      let? physical_region := unwrap (block_from_index_u64 Frame start end_) in
      let? adjacent := is_adjacent Frame prev physical_region in
      let? (total, usable_total) :=
        (if usable || adjacent then
           let? n := usize_sub end_ start in
           let? usable_total := usize_add usable_total n in
           Ok (Z.max total end_, usable_total)
         else Ok (total, usable_total)) in
      let? _ := is_disjoint Frame prev physical_region in
      physical_loop memory_map physical_region total usable_total
  end.

Definition physical (memory_map : list MemoryRegion) : outcome Block :=
  let? (total_frame_count, _) := physical_loop memory_map block_zero 0 0 in
  unwrap (block_from_index_u64 Frame 0 total_frame_count).

(** ** Classification of blocks *)

(** The first page of user space and the first page past the lower half. *)
Abbreviation USER_START := 4294967296.
Abbreviation USER_END := 34359738368.

Lemma user_pages_ok : user_pages = Ok (mkBlock USER_START USER_END).
Proof. vm_compute. reflexivity. Qed.

Lemma user_pages_wf : block_wf Page (mkBlock USER_START USER_END).
Proof. wf_check. Qed.

(** The page numbers of a non-empty well-formed block are in one half. *)
Lemma page_block_half b :
  block_wf Page b -> b_start b < b_end b ->
  0 <= b_start b /\
  (b_end b <= USER_END \/ HIGHER_START / 4096 <= b_start b /\ b_end b <= USIZE_MODULUS / 4096).
Proof.
  intros Hb Hne. pose proof (wf_start _ _ Hb) as Vs. pose proof (wf_last _ _ Hb) as Vl.
  pose proof (wf_half _ _ Hb) as Hh. pose proof (wf_usize _ _ Hb) as [Us _].
  unfold last_index in *. rewrite (proj2 (Z.ltb_lt _ _)) in * by done.
  change (mem_tag Page) with VirtTag in *. change (SIZE_OF Page) with 4096 in *.
  apply virt_valid_iff in Vs, Vl. apply virt_same_half_iff in Hh; [|done..].
  change (HIGHER_START / 4096) with 4503565267632128. change (USIZE_MODULUS / 4096) with 4503599627370496.
  unfold canonical, is_usize in *. lia.
Qed.

Lemma contains_address_user a :
  canonical a -> contains_address Page (mkBlock USER_START USER_END) a = Ok (17592186044416 <=? a).
Proof.
  intros Ha. destruct (Z.leb_spec 17592186044416 a).
  - apply (contains_address_unbounded Page); [apply user_pages_wf| |].
    + rewrite virt_valid_iff. change (SIZE_OF Page) with 4096. unfold canonical. cbn. lia.
    + change (SIZE_OF Page) with 4096. cbn. lia.
  - unfold contains_address. rewrite wf_start_address by apply user_pages_wf.
    change (SIZE_OF Page) with 4096. cbn [b_start].
    by rewrite (proj2 (Z.ltb_lt _ _)) by lia.
Qed.

Lemma is_user_block_ok b : is_user_block b = Ok ((USER_START <=? b_start b) && (b_end b <=? USER_END)).
Proof. unfold is_user_block. by rewrite user_pages_ok. Qed.

(** Disjointness from user space, for a non-empty block. *)
Lemma user_disjoint b :
  block_wf Page b -> b_start b < b_end b ->
  is_disjoint Page (mkBlock USER_START USER_END) b = Ok (b_end b <=? USER_START).
Proof.
  intros Hb Hne. destruct (page_block_half b Hb Hne) as [H0 Hhalf].
  change (HIGHER_START / 4096) with 4503565267632128 in *.
  unfold is_disjoint, is_empty. cbn [b_start b_end]. rewrite (proj2 (Z.eqb_neq USER_START USER_END)) by lia.
  rewrite (proj2 (Z.eqb_neq (b_start b) _)) by lia.
  pose proof (wf_start _ _ Hb) as Vs. rewrite wf_start_address by done.
  change (SIZE_OF Page) with 4096 in *. change (mem_tag Page) with VirtTag in *.
  rewrite contains_address_user by (by apply virt_valid_iff).
  destruct (Z.leb_spec 17592186044416 (b_start b * 4096)).
  { by rewrite (proj2 (Z.leb_gt _ _)) by lia. }
  rewrite wf_start_address by apply user_pages_wf. change (SIZE_OF Page) with 4096. cbn [b_start].
  assert (b_start b < USER_START) as Hlow by lia.
  rewrite (contains_address_spec Page); [| done | |left|done]; change (SIZE_OF Page) with 4096.
  - rewrite (proj2 (Z.leb_le _ _)) by lia. change (USER_START * 4096 / 4096) with USER_START. cbn [andb].
    f_equal. destruct (Z.ltb_spec USER_START (b_end b)), (Z.leb_spec (b_end b) USER_START); lia.
  - apply virt_valid_iff. unfold canonical. lia.
  - change (mem_tag Page) with VirtTag. apply virt_same_half_iff;
      [by apply virt_valid_iff|unfold canonical; lia|lia].
Qed.

Lemma is_kernel_block_ok b :
  block_wf Page b -> b_start b < b_end b -> is_kernel_block b = Ok (b_end b <=? USER_START).
Proof.
  intros Hb Hne. destruct (page_block_half b Hb Hne) as [H0 Hhalf].
  change (HIGHER_START / 4096) with 4503565267632128 in *.
  unfold is_kernel_block. rewrite is_user_block_ok, user_pages_ok, user_disjoint by done.
  destruct (Z.leb_spec USER_START (b_start b)), (Z.leb_spec (b_end b) USER_END); cbn [andb negb]; try done.
  by rewrite (proj2 (Z.leb_gt _ _)) by lia.
Qed.

(** ** Theorems *)

(** Lower-half blocks of pages are classified exactly: a non-empty block is
    accepted by [validate_block] if and only if it lies entirely in the kernel's
    part (below page 2^32) or entirely in the user's part, the two tests tell
    which, and nothing panics. *)
Theorem validate_block_lower_half b :
  block_wf Page b -> b_start b < b_end b -> b_end b <= USER_END ->
  is_user_block b = Ok (USER_START <=? b_start b) /\
  is_kernel_block b = Ok (b_end b <=? USER_START) /\
  validate_block b =
    if (b_end b <=? USER_START) || (USER_START <=? b_start b) then Ok tt else Err PermissionDenied.
Proof.
  intros Hb Hne Hlow. unfold validate_block. rewrite is_kernel_block_ok, is_user_block_ok by done.
  rewrite (proj2 (Z.leb_le _ _) Hlow), andb_true_r. split; [done|]. split; [done|].
  destruct (Z.leb_spec (b_end b) USER_START), (Z.leb_spec USER_START (b_start b)); cbn; done || lia.
Qed.

Lemma validate_block_lower_half_witness :
  validate_block (mkBlock 4294967295 4294967297) = Err PermissionDenied /\
  validate_block (mkBlock 4294967296 4294967297) = Ok tt.
Proof.
  split.
  - apply (validate_block_lower_half (mkBlock 4294967295 4294967297)); [wf_check|cbn; lia|cbn; lia].
  - apply (validate_block_lower_half (mkBlock 4294967296 4294967297)); [wf_check|cbn; lia|cbn; lia].
Defined.

(** Higher-half pages are misclassified: every non-empty block of the higher
    half is neither a kernel nor a user block and is refused by [validate_block],
    while each of its pages passes the user-page test, because the end of user
    space, 2^47, is not an address and [contains_address] then has no upper
    bound. *)
Theorem higher_half_misclassified b page :
  block_wf Page b -> b_start b < b_end b -> HIGHER_START <= b_start b * 4096 ->
  canonical page -> HIGHER_START <= page ->
  is_user_block b = Ok false /\ is_kernel_block b = Ok false /\
  validate_block b = Err PermissionDenied /\ is_user_page page = Ok true.
Proof.
  intros Hb Hne Hhigh Hp Hhp. unfold validate_block. rewrite is_kernel_block_ok, is_user_block_ok by done.
  rewrite (proj2 (Z.leb_gt (b_end b) USER_END)), (proj2 (Z.leb_gt (b_end b) USER_START)), andb_false_r by lia.
  do 3 (split; [done|]). unfold is_user_page. rewrite user_pages_ok. unfold contains.
  change (mem_address Page page) with page. rewrite contains_address_user by done.
  by rewrite (proj2 (Z.leb_le _ _)) by lia.
Qed.

Lemma higher_half_misclassified_witness :
  validate_block (mkBlock 4503565267632128 4503565267632129) = Err PermissionDenied /\
  is_user_page HIGHER_START = Ok true.
Proof.
  destruct (higher_half_misclassified (mkBlock 4503565267632128 4503565267632129) HIGHER_START)
    as (_ & _ & H1 & H2); [wf_check|cbn; lia|cbn; lia|unfold canonical; lia|lia|].
  split; [exact H1|exact H2].
Defined.

(** ** Physical memory *)

Section Physical.

Lemma frame_is_adjacent b1 b2 :
  block_wf Frame b1 -> block_wf Frame b2 -> is_adjacent Frame b1 b2 = Ok (b_end b1 =? b_start b2).
Proof. apply (is_adjacent_iff Frame). Qed.

Lemma frame_is_disjoint_total b1 b2 :
  block_wf Frame b1 -> block_wf Frame b2 -> is_ok (is_disjoint Frame b1 b2) = true.
Proof.
  intros H1 H2. unfold is_disjoint, contains_address. rewrite !wf_start_address by done.
  pose proof (address_by_index_total (M := Frame) (b_end b1)) as T1.
  pose proof (address_by_index_total (M := Frame) (b_end b2)) as T2.
  unfold end_address. repeat (case_match; try done).
Qed.

Lemma physical_loop_spec memory_map prev total usable_total :
  block_wf Frame prev -> Forall region_valid memory_map ->
  0 <= total <= MAX_FRAMES -> 0 <= usable_total ->
  usable_total + MAX_FRAMES * Z.of_nat (length memory_map) < USIZE_MODULUS ->
  exists total' usable_total', physical_loop memory_map prev total usable_total = Ok (total', usable_total') /\
    total <= total' <= MAX_FRAMES /\
    forall r, r ∈ memory_map -> region_type r = Usable -> end_frame_number r <= total'.
Proof.
  revert prev total usable_total.
  induction memory_map as [|r memory_map IH]; intros prev total usable_total Hp Hv Ht Hu Hsum; cbn.
  { exists total, usable_total. split; [done|]. split; [lia|]. by intros r Hr%not_elem_of_nil. }
  inversion Hv as [|? ? (Hr1 & Hr2 & Hr3) Hv2]. subst. unfold block_from_index_u64.
  pose proof (frame_block_wf _ _ Hr1 Hr2 Hr3) as Hb. rewrite frame_block_ok by done. cbn [unwrap].
  rewrite frame_is_adjacent by done. pose proof (frame_is_disjoint_total prev _ Hp Hb) as Hd.
  destruct (is_disjoint Frame prev _) as [d| |]; [|done..].
  rewrite usize_sub_ok by (unfold is_usize; lia).
  set (u := match region_type r with Usable => true | _ => false end). cbn [length] in Hsum.
  destruct (u || (b_end prev =? b_start (mkBlock (start_frame_number r) (end_frame_number r)))) eqn:Eu.
  - rewrite usize_add_ok by (unfold is_usize; lia).
    destruct (IH _ (Z.max total (end_frame_number r)) (usable_total + (end_frame_number r - start_frame_number r)) Hb Hv2)
      as (t' & u' & -> & Ht' & Hall); [lia..|]. exists t', u'. split; [done|]. split; [lia|].
    intros r' [->|Hr']%elem_of_cons Hty; [lia|by apply Hall].
  - destruct (IH _ total usable_total Hb Hv2) as (t' & u' & -> & Ht' & Hall); [lia..|].
    exists t', u'. split; [done|]. split; [lia|].
    intros r' [->|Hr']%elem_of_cons Hty; [|by apply Hall].
    unfold u in Eu. by rewrite Hty in Eu.
Qed.

End Physical.

(** The physical memory computed from a valid memory map starts at frame zero
    and covers every usable region; the computation never panics. *)
Theorem physical_covers_usable memory_map :
  Forall region_valid memory_map -> Z.of_nat (length memory_map) < 1000000 ->
  exists b, physical memory_map = Ok b /\ b_start b = 0 /\ block_wf Frame b /\
    forall r i, r ∈ memory_map -> region_type r = Usable -> in_region r i -> contains_index b i = true.
Proof.
  intros Hv Hlen. unfold physical.
  destruct (physical_loop_spec memory_map block_zero 0 0) as (t & u & -> & Ht & Hall);
    [by wf_check|done|lia..|].
  unfold block_from_index_u64. rewrite frame_block_ok by lia.
  exists (mkBlock 0 t). split; [done|]. split; [done|]. split; [apply frame_block_wf; lia|].
  intros r i Hr Hty Hi. apply contains_index_iff. cbn. pose proof (Hall r Hr Hty).
  rewrite list.Forall_forall in Hv. destruct (Hv r Hr) as (Hr1 & _). unfold in_region in Hi. lia.
Qed.

Lemma physical_covers_usable_witness :
  exists b, physical sample_map = Ok b /\ contains_index b 4 = true.
Proof.
  destruct (physical_covers_usable sample_map) as (b & H & _ & _ & Hc);
    [apply sample_map_valid|cbn; lia|].
  exists b. split; [exact H|]. apply (Hc (mkRegion 2 5 Usable) 4);
    [right; left|reflexivity|unfold in_region; cbn; lia].
Defined.
