(* ===== verification/PageAllocator.v ===== *)
(** * PageAllocator: the allocator of virtual pages

    Models [kernel/src/memory/page_allocator.rs].  The allocator keeps one block
    of never-used pages and cuts every allocation off its end; pages are not
    reused. *)

From Stdlib Require Import ZArith Lia.
From stdpp Require Import base list numbers tactics.
From S2P Require Import Prelude Addr Frage Block Mmu Range.

Open Scope Z_scope.
Open Scope outcome_scope.

Record PageAllocator := mkPageAllocator {
  block : Block;
  initial_block : Block;
}.

(** [Stack::GUARD_ZONE_SIZE]. *)
Definition GUARD_ZONE_SIZE : Z := L0_SIZE.

Definition page_allocator_zero : PageAllocator := mkPageAllocator block_zero block_zero.

Definition duplicate (pa : PageAllocator) : PageAllocator :=
  mkPageAllocator (initial_block pa) (initial_block pa).

Definition duplicate_allocator_state (original : PageAllocator) : M PageAllocator unit := fun pa =>
  if contains_block (block pa) (block original)
  then (mkPageAllocator (block original) (initial_block pa), Ok tt)
  else (pa, Err InvalidArgument).

Definition or_no_page {A} (r : outcome A) : outcome A :=
  match r with Err _ => Err NoPage | _ => r end.

(** The part of [allocate] after the pages are cut off: skip the pages before the
    first aligned one, then drop the pages that are not needed. *)
Definition align_block (allocated : Block) (alignment pages_needed : Z) : outcome Block :=
  let? allocated :=
    (if L0_SIZE <? alignment then
       let? start_address := start_address Page allocated in
       if negb (is_multiple_of start_address alignment) then
         let misalignment := start_address mod alignment in
         let? adjustment := usize_sub alignment misalignment in
         let pages_to_skip := div_ceil adjustment L0_SIZE in
         let? n := count allocated in
         if pages_to_skip <? n then
           let? new_start_index := usize_add (b_start allocated) pages_to_skip in
           let? aligned := or_no_page (block_from_index Page new_start_index (b_end allocated)) in
           let? m := count aligned in
           if m <? pages_needed then Err NoPage else Ok aligned
         else Err NoPage
       else Ok allocated
     else Ok allocated) in
  let? n := count allocated in
  if pages_needed <? n then
    let? final_end_index := usize_add (b_start allocated) pages_needed in
    or_no_page (block_from_index Page (b_start allocated) final_end_index)
  else Ok allocated.

Definition allocate (layout : Layout) : M PageAllocator Block := fun pa =>
  let pages_needed := count_up Page (layout_size layout) in
  if pages_needed =? 0 then (pa, Ok block_zero)
  else
    let alignment := layout_align layout in
    let extra_pages_for_alignment :=
      if L0_SIZE <? alignment then div_ceil alignment L0_SIZE else 0 in
    match usize_add pages_needed extra_pages_for_alignment, count (block pa) with
    | Ok total_pages_needed, Ok n =>
        if n <? total_pages_needed then (pa, Err NoPage)
        else
          match tail Page (block pa) total_pages_needed with
          | Ok (rest, Some allocated) =>
              (mkPageAllocator rest (initial_block pa), align_block allocated alignment pages_needed)
          | Ok (rest, None) => (mkPageAllocator rest (initial_block pa), Err NoPage)
          | _ => (pa, Panic)
          end
    | _, _ => (pa, Panic)
    end.

Definition deallocate (pages : Block) : M PageAllocator unit := fun pa =>
  (pa,
   if contains_block (initial_block pa) pages then
     let? disjoint := is_disjoint Page (block pa) pages in
     if disjoint : bool then Ok tt else Err InvalidArgument
   else Err InvalidArgument).

Definition reserve (pages : Block) : M PageAllocator unit := fun pa =>
  if contains_block (block pa) pages then
    match
      (let? before := usize_sub (b_start pages) (b_start (block pa)) in
       let? after := usize_sub (b_end (block pa)) (b_end pages) in
       if before <? after
       then block_from_index Page (b_end pages) (b_end (block pa))
       else block_from_index Page (b_start (block pa)) (b_start pages))
    with
    | Ok b => (mkPageAllocator b (initial_block pa), Ok tt)
    | Err e => (pa, Err e)
    | Panic => (pa, Panic)
    end
  else (pa, Err NoPage).

(** The variables of the scan of [find_unused_block]. *)
Record Scan := mkScan {
  longest_start : option Z;
  longest_length : Z;
  current_start : option Z;
  current_length : Z;
}.

Definition scan_entry (page_table_root : list Z) (s : Scan) (i : Z) : outcome Scan :=
  let? pte := index page_table_root i in
  let? present := Pte.is_present pte in
  if negb present then
    let '(start, length) :=
      match current_start s with
      | None => (Some i, 1)
      | Some start => (Some start, current_length s + 1)
      end in
    if longest_length s <? length then Ok (mkScan start length start length)
    else Ok (mkScan (longest_start s) (longest_length s) start length)
  else Ok (mkScan (longest_start s) (longest_length s) None 0).

Fixpoint scan (page_table_root : list Z) (s : Scan) (entries : list Z) : outcome Scan :=
  match entries with
  | [] => Ok s
  | i :: entries => let? s := scan_entry page_table_root s i in scan page_table_root s entries
  end.

Definition find_unused_block (page_table_root : list Z) (allowed_elements : Z * Z)
    : outcome (option Block) :=
  let? s := scan page_table_root (mkScan None 0 None 0)
              (seqZ allowed_elements.1 (allowed_elements.2 - allowed_elements.1)) in
  match longest_start s with
  | Some start =>
      let? page_start := usize_mul start PAGES_PER_ROOT_LEVEL_ENTRY in
      let? length := usize_mul (longest_length s) PAGES_PER_ROOT_LEVEL_ENTRY in
      let? page_end := usize_add page_start length in
      match block_from_index Page page_start page_end with
      | Ok b => Ok (Some b)
      | Err _ => Ok None
      | Panic => Panic
      end
  | None => Ok None
  end.

Definition page_allocator_new (page_table_root : list Z) (allowed_elements : Z * Z)
    : outcome PageAllocator :=
  let? found := find_unused_block page_table_root allowed_elements in
  match found with
  | Some b =>
      let? layout := unwrap (frage_layout L0_SIZE GUARD_ZONE_SIZE) in
      match allocate layout (mkPageAllocator b block_zero) with
      | (pa, Ok _) => Ok (mkPageAllocator (block pa) (block pa))
      | _ => Panic
      end
  | None => Panic
  end.

(** ** Invariant *)

Record pa_wf (pa : PageAllocator) : Prop := {
  wf_block : block_wf Page (block pa);
  wf_initial : block_wf Page (initial_block pa);
  wf_inside : b_start (initial_block pa) <= b_start (block pa) /\
              b_end (block pa) <= b_end (initial_block pa);
}.

(** What [Layout] guarantees. *)
Definition layout_valid (l : Layout) : Prop :=
  0 <= layout_size l <= ISIZE_MAX /\ exists k, 0 <= k <= 62 /\ layout_align l = 2 ^ k.

Definition pages_of (l : Layout) : Z := count_up Page (layout_size l).
Definition extra_of (l : Layout) : Z :=
  if L0_SIZE <? layout_align l then div_ceil (layout_align l) L0_SIZE else 0.

Lemma div_ceil_mul q b : 0 < b -> div_ceil (q * b) b = q.
Proof. intros Hb. unfold div_ceil. rewrite Z.mod_mul, Z.div_mul by lia. cbn. lia. Qed.

(** The alignment step: from [total] pages with one alignment's worth to spare it
    returns [n] pages that start at an aligned address. *)
Lemma align_block_spec b n q :
  block_wf Page b -> 0 < n -> 1 < q -> q * 4096 < USIZE_MODULUS -> b_end b - b_start b = n + q ->
  exists b', align_block b (q * 4096) n = Ok b' /\ block_wf Page b' /\
    b_start b <= b_start b' /\ b_end b' <= b_end b /\ b_end b' - b_start b' = n /\
    (q * 4096 | b_start b' * 4096).
Proof.
  intros Hb Hn Hq Hu Hc. pose proof (wf_usize _ _ Hb) as [Us Ue]. unfold is_usize in Us, Ue.
  pose proof (valid_usize _ (wf_start _ _ Hb)) as Ua. change (SIZE_OF Page) with 4096 in Ua.
  unfold align_block. change (L0_SIZE <? q * 4096) with (4096 <? q * 4096).
  rewrite (proj2 (Z.ltb_lt _ _)) by lia.
  rewrite wf_start_address, wf_count by done. change (SIZE_OF Page) with 4096.
  pose proof (Z.mod_pos_bound (b_start b) q ltac:(lia)) as Hm.
  pose proof (Z.div_mod (b_start b) q ltac:(lia)) as Hdm.
  set (skip := if b_start b mod q =? 0 then 0 else q - b_start b mod q).
  assert (0 <= skip < q /\ (q | b_start b + skip)) as [Hskip Hdiv].
  { unfold skip. destruct (Z.eqb_spec (b_start b mod q) 0) as [E|E]; (split; [lia|]).
    - exists (b_start b / q). lia.
    - exists (b_start b / q + 1). lia. }
  assert (forall e, b_start b + skip <= e <= b_end b -> b_start b + skip < b_end b ->
            block_from_index Page (b_start b + skip) e = Ok (mkBlock (b_start b + skip) e) /\
            block_wf Page (mkBlock (b_start b + skip) e)) as Hsub.
  { intros e He Hlt. assert (block_wf Page (mkBlock (b_start b + skip) e)) as Hw
      by (apply (wf_sub b); [done|lia..]).
    split; [by apply wf_from_index|done]. }
  destruct (Hsub (b_start b + skip + n)) as [Hf Hw]; [lia..|].
  destruct (Hsub (b_end b)) as [Hf2 Hw2]; [lia..|].
  exists (mkBlock (b_start b + skip) (b_start b + skip + n)). cbn [b_start b_end].
  split; [|split; [done|split; [lia|split; [lia|split; [lia|]]]]].
  2: { destruct Hdiv as [d ->]. exists d. lia. }
  assert (is_multiple_of (b_start b * 4096) (q * 4096) = (b_start b mod q =? 0)) as ->.
  { unfold is_multiple_of. rewrite (proj2 (Z.eqb_neq _ _)) by lia.
    rewrite Z.mul_mod_distr_r by lia. apply eq_true_iff_eq. rewrite !Z.eqb_eq. lia. }
  unfold skip in *. destruct (Z.eqb_spec (b_start b mod q) 0) as [E|E]; cbn [negb].
  - rewrite Z.add_0_r in *. rewrite wf_count, (proj2 (Z.ltb_lt _ _)) by (done || lia).
    rewrite usize_add_ok by (unfold is_usize; lia). by rewrite Hf.
  - rewrite Z.mul_mod_distr_r, usize_sub_ok by (unfold is_usize; lia || lia).
    replace (q * 4096 - b_start b mod q * 4096) with ((q - b_start b mod q) * 4096) by lia.
    change (div_ceil ?x L0_SIZE) with (div_ceil x 4096).
    rewrite div_ceil_mul, (proj2 (Z.ltb_lt _ _)), usize_add_ok by (unfold is_usize; lia).
    rewrite Hf2. cbn [or_no_page]. rewrite wf_count by done. cbn [b_start b_end].
    rewrite (proj2 (Z.ltb_ge _ _)) by lia. rewrite wf_count by done. cbn [b_start b_end].
    rewrite (proj2 (Z.ltb_lt _ _)), usize_add_ok by (unfold is_usize; lia). by rewrite Hf.
Qed.

Lemma align_block_small b n a :
  block_wf Page b -> a <= 4096 -> b_end b - b_start b = n -> align_block b a n = Ok b.
Proof.
  intros Hb Ha Hc. unfold align_block. change (L0_SIZE <? a) with (4096 <? a).
  rewrite (proj2 (Z.ltb_ge _ _)) by lia. rewrite wf_count by done.
  by rewrite (proj2 (Z.ltb_ge _ _)) by lia.
Qed.

Lemma tail_spec b n :
  block_wf Page b -> 0 < n <= b_end b - b_start b ->
  tail Page b n = Ok (mkBlock (b_start b) (b_end b - n), Some (mkBlock (b_end b - n) (b_end b))) /\
  block_wf Page (mkBlock (b_start b) (b_end b - n)) /\ block_wf Page (mkBlock (b_end b - n) (b_end b)).
Proof.
  intros Hb Hn. pose proof (wf_usize _ _ Hb) as [Us Ue]. unfold is_usize in Us, Ue.
  assert (block_wf Page (mkBlock (b_end b - n) (b_end b))) as Hcut by (apply (wf_sub b); [done|lia..]).
  split; [|split; [apply (wf_sub b); [done|lia..]|done]].
  unfold tail. rewrite wf_count, (proj2 (Z.leb_le _ _)), usize_sub_ok by (done || unfold is_usize; lia).
  by rewrite wf_from_index.
Qed.

(** An alignment is at most a page, or a whole number [q] of pages, of which [q]
    are reserved. *)
Lemma align_cases l :
  layout_valid l -> exists q, extra_of l = q /\
    ((q = 0 /\ layout_align l <= 4096 /\ (layout_align l | 4096)) \/
     (1 < q /\ layout_align l = q * 4096 /\ q * 4096 < USIZE_MODULUS)).
Proof.
  intros (_ & k & Hk & Ha). unfold extra_of. change L0_SIZE with 4096. rewrite Ha.
  destruct (Z.le_gt_cases k 12).
  - assert (2 ^ k <= 2 ^ 12) as Hle by (apply Z.pow_le_mono_r; lia). change (2 ^ 12) with 4096 in Hle.
    exists 0. rewrite (proj2 (Z.ltb_ge _ _)) by lia. split; [done|]. left. split; [done|]. split; [done|].
    change 4096 with (2 ^ 12). exists (2 ^ (12 - k)). rewrite <- Z.pow_add_r by lia. f_equal. lia.
  - assert (2 ^ k = 2 ^ (k - 12) * 4096) as Hq.
    { change 4096 with (2 ^ 12). rewrite <- Z.pow_add_r by lia. f_equal. lia. }
    assert (1 < 2 ^ (k - 12)) by (apply (Z.pow_lt_mono_r 2 0 (k - 12)); lia).
    exists (2 ^ (k - 12)). rewrite Hq, (proj2 (Z.ltb_lt _ _)), div_ceil_mul by lia.
    split; [done|]. right. split; [done|]. split; [done|]. rewrite <- Hq.
    change USIZE_MODULUS with (2 ^ 64). apply Z.pow_lt_mono_r; lia.
Qed.

(** ** The scan for the longest run of unused root entries *)

Definition unused (root : list Z) (i : Z) : bool :=
  match index root i with
  | Ok pte => match Pte.is_present pte with Ok present => negb present | _ => false end
  | _ => false
  end.

(** The entry exists and its flags are well formed, so that reading it does not
    panic. *)
Definition readable (root : list Z) (i : Z) : Prop :=
  exists pte present, index root i = Ok pte /\ Pte.is_present pte = Ok present.

Definition is_run (P : Z -> bool) (start length : Z) : Prop :=
  forall i, start <= i < start + length -> P i = true.

Section Scan.
  Context (root : list Z) (a : Z).

(** The state of the scan after the entries [a, k). *)
Record scan_inv (k : Z) (s : Scan) : Prop := {
  cur_bounds : 0 <= current_length s <= k - a;
  cur_start : current_start s =
    if current_length s =? 0 then None else Some (k - current_length s);
  cur_run : is_run (unused root) (k - current_length s) (current_length s);
  cur_maximal : k - current_length s = a \/ unused root (k - current_length s - 1) = false;
  long_bounds : current_length s <= longest_length s;
  long_run : match longest_start s with
    | Some st => 0 < longest_length s /\ a <= st /\ st + longest_length s <= k /\
                 is_run (unused root) st (longest_length s)
    | None => longest_length s = 0
    end;
  long_maximal : forall st l, a <= st -> st + l <= k -> is_run (unused root) st l ->
    l <= longest_length s;
}.

Lemma scan_entry_inv k s :
  a <= k -> readable root k -> scan_inv k s ->
  exists s', scan_entry root s k = Ok s' /\ scan_inv (k + 1) s'.
Proof.
  intros Hk (pte & p & Hi & Hp) [Hcb Hcs Hcr Hcm Hlb Hlr Hlm].
  assert (unused root k = negb p) as Hu by (unfold unused; by rewrite Hi, Hp).
  unfold scan_entry. rewrite Hi, Hp. destruct p; cbn [negb] in *.
  - eexists. split; [done|]. split; cbn; [lia|done|intros i; lia|right; by replace (k + 1 - 0 - 1) with k by lia|lia| |].
    + destruct (longest_start s); [|done]. destruct Hlr as (? & ? & ? & ?). do 2 (split; [done|]). split; [lia|done].
    + intros st l Hst Hl Hr. destruct (decide (st + l <= k)); [by apply (Hlm st)|].
      destruct (Z.le_gt_cases l 0); [lia|]. specialize (Hr k ltac:(lia)). congruence.
  - set (cl := current_length s + 1).
    assert ((match current_start s with
             | None => (Some k, 1) | Some start => (Some start, cl) end)
            = (Some (k + 1 - cl), cl)) as ->.
    { rewrite Hcs. unfold cl. destruct (Z.eqb_spec (current_length s) 0) as [->|]; do 2 f_equal; lia. }
    assert (is_run (unused root) (k + 1 - cl) cl) as Hrun.
    { intros i Hi'. destruct (decide (i = k)) as [->|]; [done|]. apply Hcr. unfold cl in *. lia. }
    assert (forall st l, a <= st -> st + l <= k + 1 -> is_run (unused root) st l ->
              l <= Z.max cl (longest_length s)) as Hmax.
    { intros st l Hst Hl Hr. destruct (decide (st + l <= k)); [specialize (Hlm st l Hst ltac:(done) Hr); lia|].
      destruct (Z.le_gt_cases l cl); [lia|]. destruct Hcm as [Hcm|Hcm]; [unfold cl in *; lia|].
      rewrite Hr in Hcm by (unfold cl in *; lia). done. }
    assert (forall ls ll, ls = Some (k + 1 - cl) /\ ll = cl /\ longest_length s < cl \/
                          ls = longest_start s /\ ll = longest_length s /\ cl <= longest_length s ->
              scan_inv (k + 1) (mkScan ls ll (Some (k + 1 - cl)) cl)) as Hinv.
    { intros ls ll Hcase. split; cbn; [unfold cl; lia| |done| | | |].
      - by rewrite (proj2 (Z.eqb_neq _ _)) by (unfold cl; lia).
      - destruct Hcm; [left|right]; unfold cl; [lia|]. by replace (k + 1 - (current_length s + 1) - 1) with (k - current_length s - 1) by lia.
      - lia.
      - destruct Hcase as [(-> & -> & _)|(-> & -> & _)].
        + split; [unfold cl; lia|]. split; [unfold cl; lia|]. split; [lia|done].
        + destruct (longest_start s); [|done]. destruct Hlr as (? & ? & ? & ?). do 2 (split; [done|]). split; [lia|done].
      - intros st l Hst Hl Hr. specialize (Hmax st l Hst Hl Hr). lia. }
    destruct (Z.ltb_spec (longest_length s) cl); eexists; (split; [done|]); apply Hinv; auto.
Qed.

Lemma scan_spec n k s :
  a <= k -> (forall i, k <= i < k + Z.of_nat n -> readable root i) -> scan_inv k s ->
  exists s', scan root s (seqZ k (Z.of_nat n)) = Ok s' /\ scan_inv (k + Z.of_nat n) s'.
Proof.
  revert k s. induction n as [|n IH]; intros k s Hk Hr Hinv.
  { exists s. rewrite seqZ_nil, Z.add_0_r by lia. done. }
  rewrite seqZ_cons by lia. cbn [scan].
  destruct (scan_entry_inv k s Hk (Hr k ltac:(lia)) Hinv) as (s1 & -> & Hinv1).
  replace (Z.pred (Z.of_nat (S n))) with (Z.of_nat n) by lia.
  replace (k + Z.of_nat (S n)) with (k + 1 + Z.of_nat n) by lia.
  apply (IH (k + 1)); [lia| |done]. intros i Hi. apply Hr. lia.
Qed.

Lemma scan_inv_init : scan_inv a (mkScan None 0 None 0).
Proof.
  split; cbn; [lia|done|intros i; lia|left; lia|lia|done|].
  intros st l Hst Hl _. lia.
Qed.

End Scan.

(** ** Theorems *)

Lemma page_allocate_spec pa l :
  pa_wf pa -> layout_valid l ->
  (pages_of l = 0 /\ allocate l pa = (pa, Ok block_zero)) \/
  (0 < pages_of l /\ b_end (block pa) - b_start (block pa) < pages_of l + extra_of l /\
     allocate l pa = (pa, Err NoPage)) \/
  (0 < pages_of l /\ exists pa' b, allocate l pa = (pa', Ok b) /\ pa_wf pa' /\ block_wf Page b /\
     count b = Ok (pages_of l) /\ (layout_align l | b_start b * L0_SIZE) /\
     b_start (block pa') = b_start (block pa) /\ b_end (block pa') <= b_start b /\
     b_end b <= b_end (block pa) /\ initial_block pa' = initial_block pa).
Proof.
  intros [Hb Hib Hin] ([Hs0 Hs1] & k & Hk & Ha). unfold allocate, pages_of, extra_of.
  set (n := count_up Page (layout_size l)).
  assert (0 <= n /\ n * 4096 < USIZE_MODULUS / 2 + 4096) as [Hn0 Hn1].
  { unfold n, count_up. change (SIZE_OF Page) with 4096.
    pose proof (div_ceil_spec (layout_size l) 4096 ltac:(lia)).
    pose proof (div_ceil_nonneg (layout_size l) 4096 ltac:(lia) Hs0).
    unfold ISIZE_MAX in Hs1. change (USIZE_MODULUS / 2) with 9223372036854775808. lia. }
  change (USIZE_MODULUS / 2) with 9223372036854775808 in *.
  destruct (Z.eqb_spec n 0) as [E0|E0]; [by left|right].
  change (L0_SIZE <? layout_align l) with (4096 <? layout_align l).
  change (div_ceil (layout_align l) L0_SIZE) with (div_ceil (layout_align l) 4096).
  destruct (align_cases l) as (q & Hextra & Hq); [by split; [|exists k]|].
  unfold extra_of in Hextra. change (L0_SIZE <? layout_align l) with (4096 <? layout_align l) in Hextra.
  change (div_ceil (layout_align l) L0_SIZE) with (div_ceil (layout_align l) 4096) in Hextra.
  rewrite Hextra.
  rewrite usize_add_ok, wf_count by (done || unfold is_usize; lia).
  destruct (Z.ltb_spec (b_end (block pa) - b_start (block pa)) (n + q)) as [Hlt|Hge]; [left; split; [lia|done]|right].
  split; [lia|]. destruct (tail_spec (block pa) (n + q) Hb ltac:(lia)) as (-> & Hrest & Hcut).
  assert (exists b, align_block (mkBlock (b_end (block pa) - (n + q)) (b_end (block pa))) (layout_align l) n = Ok b /\
            block_wf Page b /\ b_end (block pa) - (n + q) <= b_start b /\ b_end b <= b_end (block pa) /\
            b_end b - b_start b = n /\ (layout_align l | b_start b * 4096)) as (b & -> & Hwb & H1 & H2 & H3 & H4).
  { destruct Hq as [(-> & Hq & Hd)|(Hq & -> & Hqu)].
    - rewrite align_block_small; [|done|lia|cbn; lia]. eexists. split; [done|]. split; [done|]. cbn.
      split; [lia|]. split; [lia|]. split; [lia|]. by apply Z.divide_mul_r.
    - destruct (align_block_spec _ n q Hcut) as (b & Hb' & Hw & Hrest'); [lia|lia|lia|cbn; lia|].
      exists b. cbn in Hrest'. done. }
  eexists _, b. split; [done|]. split; [split; cbn; [done|done|lia]|]. split; [done|].
  rewrite wf_count by done. split; [by rewrite H3|]. cbn. split; [done|]. split; [done|]. split; [lia|]. by split; [lia|].
Qed.

(** C39.  Allocation of virtual pages.  An empty layout gets the empty block; a
    layout that does not fit, counting the pages reserved for alignment, is
    answered [NoPage] without change; every other layout gets exactly the pages
    it needs, starting at an address of the requested alignment, all of them
    taken from the end of the free block and none left in it. *)
Theorem page_allocate_exact pa l :
  pa_wf pa -> layout_valid l ->
  (pages_of l = 0 /\ allocate l pa = (pa, Ok block_zero)) \/
  (0 < pages_of l /\ b_end (block pa) - b_start (block pa) < pages_of l + extra_of l /\
     allocate l pa = (pa, Err NoPage)) \/
  (0 < pages_of l /\ exists pa' b, allocate l pa = (pa', Ok b) /\ pa_wf pa' /\ block_wf Page b /\
     count b = Ok (pages_of l) /\ (layout_align l | b_start b * L0_SIZE) /\
     b_start (block pa') = b_start (block pa) /\ b_end (block pa') <= b_start b /\
     b_end b <= b_end (block pa) /\ initial_block pa' = initial_block pa).
Proof. apply page_allocate_spec. Qed.

Lemma reserve_spec pa pages :
  pa_wf pa -> block_wf Page pages ->
  (contains_block (block pa) pages = false /\ reserve pages pa = (pa, Err NoPage)) \/
  (contains_block (block pa) pages = true /\ exists pa', reserve pages pa = (pa', Ok tt) /\ pa_wf pa' /\
     initial_block pa' = initial_block pa /\
     (forall i, contains_index (block pa') i = true ->
        contains_index (block pa) i = true /\ contains_index pages i = false) /\
     b_end (block pa') - b_start (block pa') =
       Z.max (b_start pages - b_start (block pa)) (b_end (block pa) - b_end pages)).
Proof.
  intros [Hb Hib Hin] Hp. unfold reserve. destruct (contains_block (block pa) pages) eqn:E; [right|by left].
  split; [done|]. unfold contains_block in E. bool_simp.
  pose proof (wf_order _ _ Hp). pose proof (wf_usize _ _ Hb) as [Us Ue]. pose proof (wf_usize _ _ Hp) as [Ups Upe].
  unfold is_usize in *. rewrite !usize_sub_ok by (unfold is_usize; lia).
  destruct (Z.ltb_spec (b_start pages - b_start (block pa)) (b_end (block pa) - b_end pages)).
  - assert (block_wf Page (mkBlock (b_end pages) (b_end (block pa)))) as Hw by (apply (wf_sub (block pa)); [done|lia..]).
    rewrite wf_from_index by done. eexists. split; [done|]. split; [split; cbn; [done|done|lia]|]. split; [done|]. cbn [block]. split; [|cbn; lia].
    intros i Hi%contains_index_iff. cbn in Hi. unfold contains_index.
    rewrite !andb_true_iff, andb_false_iff, !Z.leb_le, !Z.ltb_lt, Z.ltb_ge. lia.
  - assert (block_wf Page (mkBlock (b_start (block pa)) (b_start pages))) as Hw by (apply (wf_sub (block pa)); [done|lia..]).
    rewrite wf_from_index by done. eexists. split; [done|]. split; [split; cbn; [done|done|lia]|]. split; [done|]. cbn [block]. split; [|cbn; lia].
    intros i Hi%contains_index_iff. cbn in Hi. unfold contains_index.
    rewrite !andb_true_iff, andb_false_iff, !Z.leb_le, !Z.ltb_lt, Z.leb_gt. lia.
Qed.

(** Reserving a block of pages succeeds exactly when all its pages are free;
    then none of its pages stays free, no other page becomes free, and of the two
    remainders the larger one is kept.  Otherwise [NoPage] and no change. *)
Theorem reserve_exact pa pages :
  pa_wf pa -> block_wf Page pages ->
  (contains_block (block pa) pages = false /\ reserve pages pa = (pa, Err NoPage)) \/
  (contains_block (block pa) pages = true /\ exists pa', reserve pages pa = (pa', Ok tt) /\ pa_wf pa' /\
     (forall i, contains_index (block pa') i = true ->
        contains_index (block pa) i = true /\ contains_index pages i = false) /\
     b_end (block pa') - b_start (block pa') =
       Z.max (b_start pages - b_start (block pa)) (b_end (block pa) - b_end pages)).
Proof.
  intros Hpa Hp. destruct (reserve_spec pa pages Hpa Hp) as [?|(? & pa' & E & Hw & _ & H)]; [by left|right].
  split; [done|]. by exists pa'.
Qed.

(** The search for virtual memory returns the longest run of unused entries of
    the allowed part of the root table: every entry of the run is unused, no run
    is longer, and [None] is answered exactly when no entry is unused. *)
Theorem find_unused_block_longest root a b :
  0 <= a <= b -> b <= LOWER_HALF_ROOT_LEVEL_ENTRY_COUNT ->
  (forall i, a <= i < b -> readable root i) ->
  (find_unused_block root (a, b) = Ok None /\ forall i, a <= i < b -> unused root i = false) \/
  (exists st l pages, find_unused_block root (a, b) = Ok (Some pages) /\
     0 < l /\ a <= st /\ st + l <= b /\ is_run (unused root) st l /\
     (forall st' l', a <= st' -> st' + l' <= b -> is_run (unused root) st' l' -> l' <= l) /\
     pages = mkBlock (st * PAGES_PER_ROOT_LEVEL_ENTRY) ((st + l) * PAGES_PER_ROOT_LEVEL_ENTRY) /\
     block_wf Page pages).
Proof.
  intros Hab Hmax Hr. change LOWER_HALF_ROOT_LEVEL_ENTRY_COUNT with 256 in Hmax. unfold find_unused_block. cbn [fst snd].
  destruct (scan_spec root a (Z.to_nat (b - a)) a (mkScan None 0 None 0)) as (s & Hs & Hinv);
    [lia|intros i Hi; apply Hr; lia|apply scan_inv_init|].
  rewrite Z2Nat.id in Hs, Hinv by lia. replace (a + (b - a)) with b in Hinv by lia. rewrite Hs.
  destruct Hinv as [_ _ _ _ _ Hlr Hlm]. destruct (longest_start s) as [st|] eqn:E; [right|left].
  - destruct Hlr as (Hl & Hst & Hend & Hrun). change PAGES_PER_ROOT_LEVEL_ENTRY with 134217728.
    rewrite !usize_mul_ok, usize_add_ok by (unfold is_usize; lia).
    replace (st * 134217728 + longest_length s * 134217728) with ((st + longest_length s) * 134217728) by lia.
    assert (block_wf Page (mkBlock (st * 134217728) ((st + longest_length s) * 134217728))) as Hw.
    { apply (wf_sub (mkBlock 0 USER_END)); [wf_check|cbn; lia..]. }
    rewrite wf_from_index by done. by exists st, (longest_length s), (mkBlock (st * 134217728) ((st + longest_length s) * 134217728)).
  - split; [done|]. intros i Hi. destruct (unused root i) eqn:Eu; [|done].
    specialize (Hlm i 1 ltac:(lia) ltac:(lia)). rewrite Hlr in Hlm.
    assert (1 <= 0); [|lia]. apply Hlm. intros j Hj. by replace j with i by lia.
Qed.

(** ** Witnesses *)

Definition sample_allocator : PageAllocator := mkPageAllocator (mkBlock 100 2000) (mkBlock 100 3000).

Lemma sample_allocator_wf : pa_wf sample_allocator.
Proof. split; cbn; [wf_check|wf_check|lia]. Qed.

Lemma page_allocate_exact_witness :
  exists pa b, allocate (mkLayout 5000 65536) sample_allocator = (pa, Ok b) /\ count b = Ok 2 /\
    (65536 | b_start b * L0_SIZE).
Proof.
  destruct (page_allocate_exact sample_allocator (mkLayout 5000 65536))
    as [[H _]|[(_ & H & _)|(_ & pa & b & H1 & _ & _ & H2 & H3 & _)]];
    [apply sample_allocator_wf|split; [unfold ISIZE_MAX; cbn; lia|exists 16; split; [lia|reflexivity]]
    |vm_compute in H; discriminate H|vm_compute in H; discriminate H|].
  exists pa, b. split; [exact H1|]. split; [exact H2|exact H3].
Defined.

Lemma reserve_exact_witness :
  (exists pa, reserve (mkBlock 200 300) sample_allocator = (pa, Ok tt)) /\
  reserve (mkBlock 50 300) sample_allocator = (sample_allocator, Err NoPage).
Proof.
  split.
  - destruct (reserve_exact sample_allocator (mkBlock 200 300)) as [[H _]|(_ & pa & H & _)];
      [apply sample_allocator_wf|wf_check|discriminate H|exists pa; exact H].
  - destruct (reserve_exact sample_allocator (mkBlock 50 300)) as [[_ H]|[H _]];
      [apply sample_allocator_wf|wf_check|exact H|discriminate H].
Defined.

Lemma find_unused_block_longest_witness :
  exists b, find_unused_block [0; 3; 0; 0; 3] (0, 5) = Ok (Some b).
Proof.
  destruct (find_unused_block_longest [0; 3; 0; 0; 3] 0 5) as [[_ H]|(_ & _ & b & H & _)].
  - lia.
  - vm_compute. discriminate.
  - intros i Hi. assert (i = 0 \/ i = 1 \/ i = 2 \/ i = 3 \/ i = 4) as [->|[->|[->|[->| ->]]]] by lia;
      eexists _, _; (split; [reflexivity|vm_compute; reflexivity]).
  - specialize (H 0 ltac:(lia)). vm_compute in H. discriminate H.
  - exists b. exact H.
Defined.
