(* ===== verification/Mapping.v ===== *)
(** * Mapping: the page tables

    Models [kernel/src/memory/mapping.rs] and [kernel/src/memory/path.rs].  The
    state is the frame allocator together with the physical memory the kernel
    sees through [phys2virt]: a table of 512 entries for each frame it can reach.
    A reference to a page table entry is its location, a frame and an index. *)

From Stdlib Require Import ZArith Lia.
From stdpp Require Import base list numbers tactics gmap sorting.
From S2P Require Import Prelude Addr Frage Block Mmu FrameAllocator.

Open Scope Z_scope.
Open Scope outcome_scope.

Record Kmem := mkKmem {
  frames : FrameAllocator;
  memory : gmap Z (list Z);
}.

(** Runs an operation of the global [FRAME_ALLOCATOR]. *)
Definition with_frames {A} (c : M FrameAllocator A) : M Kmem A := fun st =>
  let '(fa, r) := c (frames st) in (mkKmem fa (memory st), r).

(** A location of a page table entry. *)
Definition Location : Type := Z * Z.

Definition empty_table : list Z := replicate 512 0.

(** ** [Mapping]: access to the tables *)

(** [page_table_ref], [page_table_mut]: a frame that [phys2virt] does not map makes
    the [expect] panic. *)
Definition page_table (frame : Z) : M Kmem (list Z) := fun st =>
  (st, unwrap_some (memory st !! frame)).

Definition read_pte (loc : Location) : M Kmem Z :=
  let! table := page_table loc.1 in liftM (index table loc.2).

Definition write_pte (loc : Location) (pte : Z) : M Kmem unit := fun st =>
  match (let? table := unwrap_some (memory st !! loc.1) in index_set table loc.2 pte) with
  | Ok table => (mkKmem (frames st) (<[loc.1 := table]> (memory st)), Ok tt)
  | Err e => (st, Err e)
  | Panic => (st, Panic)
  end.

(** [pte_ref], [pte_mut]. *)
Definition pte_location (virt level page_table_frame : Z) : Location :=
  (page_table_frame, Virt.page_table_index virt level).

Definition allocate_node : M Kmem Z :=
  let! frame := with_frames allocate in
  let! _ := page_table frame in
  fun st => (mkKmem (frames st) (<[frame := empty_table]> (memory st)), Ok frame).

(** ** [Path] *)

Record Path := mkPath {
  path_root : Z;
  nodes : list (option Location);
  virt : Z;
}.

(** [deepest_pte]: the first recorded entry counting from the leaf level. *)
Fixpoint position (nodes : list (option Location)) (level : Z) : option (Z * Location) :=
  match nodes with
  | [] => None
  | Some loc :: _ => Some (level, loc)
  | None :: nodes => position nodes (level + 1)
  end.

Definition deepest_pte (path : Path) : outcome (Z * Location) :=
  unwrap_some (position (nodes path) 0).

Fixpoint all_present (nodes : list (option Location)) : M Kmem bool :=
  match nodes with
  | [] => retM true
  | node :: nodes =>
      let! loc := liftM (unwrap_some node) in
      let! pte := read_pte loc in
      let! present := liftM (Pte.is_present pte) in
      if present : bool then all_present nodes else retM false
  end.

Definition path_validate (path : Path) : M Kmem unit :=
  let! (level, loc) := liftM (deepest_pte path) in
  let! pte := read_pte loc in
  let! present := all_present (drop (Z.to_nat level + 1) (nodes path)) in
  if present : bool then
    if PAGE_TABLE_LEAF_LEVEL <? level then
      if forallb (fun node => bool_decide (node = None)) (take (Z.to_nat level) (nodes path)) then
        let! is_present := liftM (Pte.is_present pte) in
        let! is_huge := liftM (Pte.is_huge pte) in
        liftM (if Bool.eqb is_present is_huge then Ok tt else Panic)
      else liftM Panic
    else retM tt
  else liftM Panic.

(** [get], [get_mut]. *)
Definition path_get (path : Path) : M Kmem Location :=
  let! (level, loc) := liftM (deepest_pte path) in
  if level =? PAGE_TABLE_LEAF_LEVEL then retM loc
  else
    let! pte := read_pte loc in
    let! huge := liftM (Pte.is_huge pte) in
    liftM (if huge : bool then Err Unimplemented else Err NoPage).

(** The levels of a walk, from the root. *)
Definition LEVELS : list Z := [3; 2; 1; 0].

(** The loop of [Mapping::path] (and the second loop of [Path::map]): record the
    entry of each level and follow present entries. *)
Fixpoint walk (virt : Z) (levels : list Z) (current_frame : Z) (nodes : list (option Location))
    : M Kmem (list (option Location)) :=
  match levels with
  | [] => retM nodes
  | level :: levels =>
      let loc := pte_location virt level current_frame in
      let! pte := read_pte loc in
      let nodes := <[Z.to_nat level := Some loc]> nodes in
      if PAGE_TABLE_LEAF_LEVEL <? level then
        let! is_present := liftM (Pte.is_present pte) in
        let! is_huge := liftM (Pte.is_huge pte) in
        if is_present && negb is_huge then
          match Pte.frame pte with
          | Ok frame => walk virt levels frame nodes
          | Err _ => retM nodes
          | Panic => liftM Panic
          end
        else retM nodes
      else retM nodes
  end.

Definition path_new (root : Z) (nodes : list (option Location)) (virt : Z) : M Kmem Path :=
  let path := mkPath root nodes virt in
  let! _ := path_validate path in
  retM path.

Definition mapping_path (root virt : Z) : M Kmem Path :=
  let! nodes := walk virt LEVELS root [None; None; None; None] in
  path_new root nodes virt.

(** [Translate::translate]. *)
Definition translate (root virt : Z) : M Kmem Location :=
  let! path := mapping_path root virt in path_get path.

(** An early return of [Path::map] drops the guard it was given. *)
Definition fail_dropping {A} (frame : Z) (e : Error) : M Kmem A :=
  let! _ := with_frames (deallocate frame) in liftM (Err e).

(** The two branches of the first loop of [Path::map]: a missing table is allocated
    and linked, the flags of a present one are widened. *)
Definition create_table (frame : Z) (loc : Location) (required_flags : Z) : M Kmem Z := fun st =>
  match allocate_node st with
  | (st, Ok new_frame) =>
      (let! pte := liftM (guard_store new_frame required_flags) in
       let! _ := write_pte loc pte in
       retM new_frame) st
  | (st, Err e) => fail_dropping frame e st
  | (st, Panic) => (st, Panic)
  end.

Definition follow_table (frame : Z) (loc : Location) (pte required_flags : Z) : M Kmem Z :=
  match Pte.frame pte with
  | Ok next_frame =>
      let! current_flags := liftM (Pte.flags pte) in
      if negb (Z.land current_flags required_flags =? required_flags) then
        let! pte := liftM (Pte.set_flags pte (Z.lor current_flags required_flags)) in
        let! _ := write_pte loc pte in
        retM next_frame
      else retM next_frame
  | Err _ => fail_dropping frame NoPage
  | Panic => liftM Panic
  end.

(** One iteration of that loop: the frame of the next table. *)
Definition map_level (virt frame flags level current_frame : Z) : M Kmem Z :=
  let loc := pte_location virt level current_frame in
  let! pte := read_pte loc in
  let! is_present := liftM (Pte.is_present pte) in
  let! is_huge := liftM (Pte.is_huge pte) in
  let required_flags := Z.lor (Z.land flags FULL_ACCESS) PageTableFlags.PRESENT in
  if negb is_present then create_table frame loc required_flags
  else if is_huge : bool then fail_dropping frame Unimplemented
  else follow_table frame loc pte required_flags.

Fixpoint map_levels (virt frame flags : Z) (levels : list Z) (current_frame : Z) : M Kmem Z :=
  match levels with
  | [] => retM current_frame
  | level :: levels =>
      let! next_frame := map_level virt frame flags level current_frame in
      map_levels virt frame flags levels next_frame
  end.

(** [FrameGuard::load(pte).ok()]: the frame the entry held, if it was present. *)
Definition load_ok (loc : Location) : M Kmem (option Z) :=
  let! pte := read_pte loc in
  match guard_load pte with
  | Ok (frame, pte) => let! _ := write_pte loc pte in retM (Some frame)
  | Err _ => retM None
  | Panic => liftM Panic
  end.

(** [Path::map]: the result is the path with its refreshed nodes.  The old frame is
    dropped last, when the function returns. *)
Definition path_map (path : Path) (frame flags : Z) : M Kmem Path :=
  let! (_, loc) := liftM (deepest_pte path) in
  let! pte := read_pte loc in
  let! huge := liftM (Pte.is_huge pte) in
  if huge : bool then fail_dropping frame Unimplemented
  else
    let! leaf_frame := map_levels (virt path) frame flags [3; 2; 1] (path_root path) in
    let loc := pte_location (virt path) PAGE_TABLE_LEAF_LEVEL leaf_frame in
    let! old_frame := load_ok loc in
    let! pte := liftM (guard_store frame flags) in
    let! _ := write_pte loc pte in
    let! nodes := walk (virt path) LEVELS (path_root path) (nodes path) in
    let path := mkPath (path_root path) nodes (virt path) in
    let! _ := path_validate path in
    let! _ :=
      match old_frame with
      | Some old_frame => with_frames (deallocate old_frame)
      | None => retM tt
      end in
    retM path.

(** [Path::unmap]. *)
Definition path_unmap (path : Path) : M Kmem unit :=
  let! loc := path_get path in
  let! pte := read_pte loc in
  let! (frame, pte) := liftM (guard_load pte) in
  let! _ := write_pte loc pte in
  let! _ := path_validate path in
  with_frames (deallocate frame).

(** [Path::pages]: the pages the entry of [level] on the path covers. *)
Definition path_pages (path : Path) (level : Z) : outcome Block :=
  let page_count := PAGE_TABLE_ENTRY_COUNT ^ level in
  let? page := containing VirtTag L0_SIZE (virt path) in
  let? page_index := frage_index L0_SIZE page in
  let? next := usize_add page_index 1 in
  let end_ := next_multiple_of next page_count in
  let? start := usize_sub end_ page_count in
  unwrap (block_from_index Page start end_).

(** [Path::is_recursive_entry]. *)
Definition is_recursive_entry (path : Path) : M Kmem bool :=
  let! loc := liftM (unwrap_some (mjoin (nodes path !! 3%nat))) in
  let! pte := read_pte loc in
  liftM (match Pte.frame pte with
         | Ok frame => Ok (frame =? path_root path)
         | Err _ => Ok false
         | Panic => Panic
         end).

(** [remove_recursive_mappings]: clears the root entries that point to the root. *)
Fixpoint clear_recursive (root : Z) (table : list Z) : outcome (list Z) :=
  match table with
  | [] => Ok []
  | pte :: table =>
      let? pte :=
        match Pte.frame pte with
        | Ok frame => Ok (if frame =? root then Pte.clear else pte)
        | Err _ => Ok pte
        | Panic => Panic
        end in
      let? table := clear_recursive root table in
      Ok (pte :: table)
  end.

Definition remove_recursive_mappings (root : Z) : M Kmem unit :=
  let! table := page_table root in
  let! table := liftM (clear_recursive root table) in
  fun st => (mkKmem (frames st) (<[root := table]> (memory st)), Ok tt).

(** ** The tree of tables *)

(** The frame a present, non-huge entry leads to. *)
Definition target (pte : Z) : option Z :=
  match Pte.is_huge pte, Pte.frame pte with
  | Ok false, Ok frame => Some frame
  | _, _ => None
  end.

(** Following the entry [i] of the table in [frame], and a list of entries. *)
Definition child (mem : gmap Z (list Z)) (frame : Z) (i : nat) : option Z :=
  table ← mem !! frame; pte ← table !! i; target pte.

Fixpoint node (mem : gmap Z (list Z)) (frame : Z) (l : list nat) : option Z :=
  match l with
  | [] => Some frame
  | i :: l => next ← child mem frame i; node mem next l
  end.

(** A well-formed entry: a frame address and known flags; a huge entry is present,
    and at the leaf level there are no huge entries. *)
Definition entry_ok (leaf : bool) (pte : Z) : Prop :=
  exists p f, is_frame p /\ is_flags f /\ pte = Pte.set_phys p f /\
    if leaf then PageTableFlags.is_huge f = false
    else PageTableFlags.is_huge f = true -> PageTableFlags.is_present f = true.

Definition table_ok (leaf : bool) (table : list Z) : Prop :=
  length table = 512%nat /\ Forall (entry_ok leaf) table.

Definition is_leaf (l : list nat) : bool := (length l =? 3)%nat.

(** Every table of the tree is well formed, and no table is reached on two paths. *)
Record tree_wf (mem : gmap Z (list Z)) (root : Z) : Prop := {
  tw_table : forall l f, (length l <= 3)%nat -> node mem root l = Some f ->
    exists table, mem !! f = Some table /\ table_ok (is_leaf l) table;
  tw_inj : forall l1 l2 f, (length l1 <= 3)%nat -> (length l2 <= 3)%nat ->
    node mem root l1 = Some f -> node mem root l2 = Some f -> l1 = l2;
}.

(** The entries of a virtual address, from the root level. *)
Definition idx (virt level : Z) : nat := Z.to_nat (Virt.page_table_index virt level).
Definition indexes (virt : Z) : list nat := [idx virt 3; idx virt 2; idx virt 1; idx virt 0].

(** *** Entries *)

Lemma entry_view leaf pte :
  entry_ok leaf pte -> exists p f, is_frame p /\ is_flags f /\
    pte = Pte.set_phys p f /\
    Pte.flags pte = Ok f /\ Pte.phys pte = Ok p /\
    Pte.is_present pte = Ok (PageTableFlags.is_present f) /\
    Pte.is_huge pte = Ok (PageTableFlags.is_huge f) /\
    (PageTableFlags.is_huge f = false ->
       Pte.frame pte = (if PageTableFlags.is_present f then Ok p else Err NoPage) /\
       Pte.take pte = (if PageTableFlags.is_present f then Ok (p, Pte.clear) else Err NoPage)) /\
    (if leaf then PageTableFlags.is_huge f = false
     else PageTableFlags.is_huge f = true -> PageTableFlags.is_present f = true) /\
    target pte = (if PageTableFlags.is_present f && negb (PageTableFlags.is_huge f) then Some p else None).
Proof.
  intros (p & f & Hp & Hf & -> & Hh). exists p, f. do 3 (split; [done|]).
  pose proof (set_phys_flags p f Hp Hf) as Hfl.
  split; [done|]. split; [by apply set_phys_phys|]. unfold Pte.is_present, Pte.is_huge.
  rewrite Hfl. do 2 (split; [done|]).
  assert (PageTableFlags.is_huge f = false ->
    Pte.frame (Pte.set_phys p f) = (if PageTableFlags.is_present f then Ok p else Err NoPage) /\
    Pte.take (Pte.set_phys p f) = (if PageTableFlags.is_present f then Ok (p, Pte.clear) else Err NoPage))
    as Hframe by (intros; split; [by apply set_phys_frame|by apply set_phys_take]).
  split; [done|]. split; [done|]. unfold target, Pte.is_huge. rewrite Hfl.
  destruct (PageTableFlags.is_huge f); [by rewrite andb_false_r|].
  destruct (Hframe eq_refl) as [-> _]. by destruct (PageTableFlags.is_present f).
Qed.

Lemma zero_entry_ok leaf : entry_ok leaf 0.
Proof.
  exists 0, PageTableFlags.EXECUTABLE. split; [by apply is_frame_check|].
  split; [by apply is_flags_const|]. split; [done|]. by destruct leaf.
Qed.

Lemma empty_table_ok leaf : table_ok leaf empty_table.
Proof. split; [done|]. apply Forall_replicate, zero_entry_ok. Qed.

(** *** Walks and writes *)

Lemma node_app mem f l1 l2 : node mem f (l1 ++ l2) = (g ← node mem f l1; node mem g l2).
Proof.
  revert f. induction l1 as [|i l1 IH]; intros f; [done|]. cbn.
  by destruct (child mem f i); cbn.
Qed.

Lemma node_snoc mem f l i : node mem f (l ++ [i]) = (g ← node mem f l; child mem g i).
Proof. rewrite node_app. destruct (node mem f l) as [g|]; [|done]. cbn. by destruct (child mem g i). Qed.

Lemma node_prefix mem root l1 l2 : node mem root l1 = None -> node mem root (l1 ++ l2) = None.
Proof. intros H. by rewrite node_app, H. Qed.

(** Two memories that agree on every link agree on every walk. *)
Lemma node_ext mem mem' root l :
  (forall g i, child mem' g i = child mem g i) -> node mem' root l = node mem root l.
Proof.
  intros H. revert root. induction l as [|i l IH]; intros root; [done|]. cbn. rewrite H.
  destruct (child mem root i); [|done]. apply IH.
Qed.

(** Two memories whose tables differ only off the walk agree on the walk. *)
Lemma node_agree mem mem' root q :
  (forall p g i r, q = p ++ i :: r -> node mem root p = Some g -> child mem' g i = child mem g i) ->
  node mem' root q = node mem root q.
Proof.
  intros H. assert (forall r p g, q = p ++ r -> node mem root p = Some g -> node mem' g r = node mem g r) as Hr.
  { induction r as [|i r IH]; intros p g Hq Hg; [done|]. cbn. rewrite (H p g i r Hq Hg).
    destruct (child mem g i) as [g'|] eqn:E; [|done]. apply (IH (p ++ [i])).
    - by rewrite <- app_assoc.
    - by rewrite node_snoc, Hg. }
  by apply (Hr q []).
Qed.

Lemma child_write mem f table i pte g j :
  mem !! f = Some table -> (i < length table)%nat ->
  child (<[f := <[i := pte]> table]> mem) g j =
    if decide (g = f /\ j = i) then target pte else child mem g j.
Proof.
  intros Hf Hi. unfold child. destruct (decide (g = f)) as [->|Hne].
  - rewrite lookup_insert_eq. destruct (decide (j = i)) as [->|Hj].
    + rewrite decide_True by done. cbn. by rewrite list_lookup_insert_eq.
    + rewrite decide_False by tauto. cbn. by rewrite list_lookup_insert_ne, Hf.
  - rewrite decide_False by tauto. by rewrite lookup_insert_ne.
Qed.

Section Write.
  Context (mem : gmap Z (list Z)) (root : Z) (Htree : tree_wf mem root).
  Context (l : list nat) (f : Z) (table : list Z) (i : nat) (old pte : Z).
  Context (Hl : (length l <= 3)%nat) (Hf : node mem root l = Some f).
  Context (Htable : mem !! f = Some table) (Hold : table !! i = Some old).

Let mem' := <[f := <[i := pte]> table]> mem.

Lemma write_index : (i < length table)%nat.
Proof using Hold. by apply lookup_lt_Some in Hold. Qed.

(** Walks that do not go through the written entry are unchanged. *)
Lemma node_write q :
  (length q <= 4)%nat -> ~ (l ++ [i]) `prefix_of` q -> node mem' root q = node mem root q.
Proof using Htree Hl Hf Htable Hold.
  intros Hq Hp. apply node_agree. intros p g j r -> Hg. unfold mem'.
  rewrite child_write by (done || apply write_index).
  destruct (decide (g = f /\ j = i)) as [[-> ->]|]; [|done]. exfalso. apply Hp.
  rewrite length_app in Hq. cbn in Hq.
  rewrite (tw_inj _ _ Htree p l f ltac:(lia) Hl Hg Hf). exists r. by rewrite <- app_assoc.
Qed.

Lemma node_write_self : node mem' root l = Some f.
Proof using Htree Hl Hf Htable Hold.
  rewrite node_write; [done|lia|]. intros [r Hr]. apply (f_equal length) in Hr.
  rewrite !length_app in Hr. cbn in Hr. lia.
Qed.

(** The written entry leads to its new target. *)
Lemma node_write_at r : node mem' root (l ++ [i] ++ r) = (g ← target pte; node mem' g r).
Proof using Htree Hl Hf Htable Hold.
  assert (child mem' f i = target pte) as Hc.
  { unfold mem'. rewrite child_write by (done || apply write_index). by rewrite decide_True. }
  rewrite node_app, node_write_self. cbn. by rewrite Hc.
Qed.

Lemma node_before r : node mem root (l ++ [i] ++ r) = (g ← target old; node mem g r).
Proof using Hf Htable Hold. rewrite node_app, Hf. cbn. unfold child. by rewrite Htable; cbn; rewrite Hold. Qed.

(** Writing an entry that leads where the old one led changes no walk. *)
Lemma node_write_same q : target pte = target old -> node mem' root q = node mem root q.
Proof using Htable Hold.
  intros Heq. apply node_ext. intros g j. unfold mem'.
  rewrite child_write by (done || apply write_index).
  destruct (decide (g = f /\ j = i)) as [[-> ->]|]; [|done].
  unfold child. by rewrite Htable; cbn; rewrite Hold.
Qed.

Lemma table_ok_write leaf : table_ok leaf table -> entry_ok leaf pte -> table_ok leaf (<[i := pte]> table).
Proof. intros [Hlen Hall] Hp. split; [by rewrite length_insert|]. by apply Forall_insert. Qed.

(** A write that leaves the tables of the tree in place keeps it well formed. *)
Lemma tree_write :
  entry_ok (is_leaf l) pte ->
  (forall q, (length q <= 3)%nat -> node mem' root q = node mem root q) -> tree_wf mem' root.
Proof using Htree Hl Hf Htable.
  intros Hp Hsame. split.
  - intros q g Hq Hg. rewrite Hsame in Hg by done.
    destruct (tw_table _ _ Htree q g Hq Hg) as (t & Ht & Hok).
    unfold mem'. destruct (decide (g = f)) as [->|Hne].
    + rewrite (tw_inj _ _ Htree q l f Hq Hl Hg Hf) in *. rewrite Htable in Ht. injection Ht as <-.
      rewrite lookup_insert_eq. eexists. split; [done|]. by apply table_ok_write.
    + rewrite lookup_insert_ne by done. eauto.
  - intros q1 q2 g H1 H2. rewrite !Hsame by done. by apply (tw_inj _ _ Htree).
Qed.

End Write.

(** Filling a frame that is not a table of the tree changes no walk. *)
Lemma node_fresh mem root n t q :
  (forall l, (length l <= 3)%nat -> node mem root l <> Some n) -> (length q <= 4)%nat ->
  node (<[n := t]> mem) root q = node mem root q.
Proof.
  intros Hn Hq. apply node_agree. intros p g i r -> Hg. unfold child.
  rewrite lookup_insert_ne; [done|]. intros ->. rewrite length_app in Hq. cbn in Hq.
  apply (Hn p); [lia|done].
Qed.

Lemma tree_fresh mem root n t :
  tree_wf mem root -> (forall l, (length l <= 3)%nat -> node mem root l <> Some n) ->
  tree_wf (<[n := t]> mem) root.
Proof.
  intros Htree Hn. split.
  - intros l f Hl. rewrite node_fresh by (done || lia). intros Hf.
    rewrite lookup_insert_ne by (intros ->; by apply (Hn l)). by apply (tw_table _ _ Htree).
  - intros l1 l2 f H1 H2. rewrite !node_fresh by (done || lia). by apply (tw_inj _ _ Htree).
Qed.

(** Linking a fresh, empty table under an unused entry adds exactly one node. *)
Section Link.
  Context (mem : gmap Z (list Z)) (root : Z) (Htree : tree_wf mem root).
  Context (l : list nat) (f : Z) (table : list Z) (i : nat) (old pte n : Z).
  Context (Hl : (length l <= 2)%nat) (Hf : node mem root l = Some f).
  Context (Htable : mem !! f = Some table) (Hold : table !! i = Some old).
  Context (Htold : target old = None) (Htpte : target pte = Some n) (Hpte : entry_ok false pte).
  Context (Hfresh : forall q, (length q <= 3)%nat -> node mem root q <> Some n).

Let mem1 := <[n := empty_table]> mem.
Let mem' := <[f := <[i := pte]> table]> mem1.

Lemma link_ne : n <> f.
Proof using Hl Hf Hfresh. intros Heq. apply (Hfresh l); [lia|by rewrite Heq]. Qed.

Lemma link_table : mem1 !! f = Some table.
Proof using Hl Hf Htable Hfresh. unfold mem1. by rewrite lookup_insert_ne by apply link_ne. Qed.

Lemma link_parent : node mem1 root l = Some f.
Proof using Hl Hf Hfresh. unfold mem1. rewrite node_fresh by (done || lia). done. Qed.

Lemma link_node q :
  (length q <= 4)%nat -> node mem' root q = if decide (q = l ++ [i]) then Some n else node mem root q.
Proof using Htree Hl Hf Htable Hold Htold Htpte Hfresh.
  intros Hq. pose proof (tree_fresh mem root n empty_table Htree Hfresh) as Htree1. fold mem1 in Htree1.
  destruct (decide ((l ++ [i]) `prefix_of` q)) as [[r ->]|Hnp].
  - rewrite <- app_assoc. unfold mem'.
    rewrite (node_write_at mem1 root Htree1 l f table i old pte ltac:(lia) link_parent link_table Hold), Htpte.
    cbn [mbind option_bind]. fold mem'. destruct r as [|j r].
    + by rewrite decide_True by by rewrite app_nil_r.
    + rewrite decide_False by (intros H%(f_equal length); rewrite !length_app in H; cbn in H; lia).
      rewrite (node_before mem root l f table i old Hf Htable Hold), Htold. cbn.
      assert (child mem' n j = None) as ->; [|done]. unfold child, mem', mem1.
      pose proof link_ne. rewrite lookup_insert_ne, lookup_insert_eq by done. cbn [mbind option_bind].
      destruct (empty_table !! j) as [x|] eqn:Ex; [|done]. by apply lookup_replicate in Ex as [-> _].
  - rewrite decide_False by (intros ->; by apply Hnp). unfold mem'.
    rewrite (node_write mem1 root Htree1 l f table i old pte ltac:(lia) link_parent link_table Hold) by done.
    unfold mem1. by apply node_fresh.
Qed.

Lemma link_tree : tree_wf mem' root.
Proof using Htree Hl Hf Htable Hold Htold Htpte Hpte Hfresh.
  assert (length (l ++ [i]) <= 3)%nat as Hli by (rewrite length_app; cbn; lia).
  assert (is_leaf l = false) as Hleaf by (unfold is_leaf; apply Nat.eqb_neq; lia).
  split.
  - intros q g Hq. rewrite link_node by lia. destruct (decide (q = l ++ [i])) as [->|Hne]; intros Hg.
    + injection Hg as <-. exists empty_table. split; [|apply empty_table_ok].
      pose proof link_ne. unfold mem', mem1. by rewrite lookup_insert_ne, lookup_insert_eq.
    + destruct (tw_table _ _ Htree q g Hq Hg) as (t & Ht & Hok). unfold mem'.
      destruct (decide (g = f)) as [->|Hgf].
      * rewrite lookup_insert_eq. eexists. split; [done|]. rewrite Htable in Ht. injection Ht as <-.
        rewrite (tw_inj _ _ Htree q l f Hq ltac:(lia) Hg Hf) in *. rewrite Hleaf in *. by apply table_ok_write.
      * rewrite lookup_insert_ne by done. unfold mem1.
        rewrite lookup_insert_ne by (intros ->; by apply (Hfresh q)). eauto.
  - intros q1 q2 g H1 H2. rewrite !link_node by lia.
    destruct (decide (q1 = l ++ [i])) as [->|]; destruct (decide (q2 = l ++ [i])) as [->|]; try done.
    + intros [= <-] H. by destruct (Hfresh q2 H2).
    + intros H [= <-]. by destruct (Hfresh q1 H1).
    + by apply (tw_inj _ _ Htree).
Qed.

End Link.

(** ** The invariant of the kernel's memory

    [paths] enumerates the entries of the tree that are in use; each of them owns
    one reference to its frame, the mapping owns one to the root, and [rest] are
    the references held elsewhere. *)

Definition refs (mem : gmap Z (list Z)) (root : Z) (paths : list (list nat)) : list Z :=
  (fun l => default 0 (node mem root l)) <$> paths.

Record kernel_wf (st : Kmem) (root : Z) (paths : list (list nat)) (rest : list Z) : Prop := {
  kw_tree : tree_wf (memory st) root;
  kw_owned : owned (frames st) (rest ++ root :: refs (memory st) root paths);
  kw_nodup : NoDup paths;
  kw_paths : forall l, l ∈ paths <-> (1 <= length l <= 4)%nat /\ is_Some (node (memory st) root l);
  kw_memory : forall i, 0 <= i < Z.of_nat (length (frame_info (frames st))) ->
    is_Some (memory st !! (i * L0_SIZE));
}.

Lemma references_perm guards guards' f : guards ≡ₚ guards' -> references guards f = references guards' f.
Proof.
  unfold references. intros H. f_equal.
  induction H as [|x a b _ IH|x y a|a b c _ IH1 _ IH2]; cbn; [done| | |congruence];
    repeat case_match; congruence || lia.
Qed.

Lemma owned_perm fa guards guards' : guards ≡ₚ guards' -> owned fa guards -> owned fa guards'.
Proof.
  intros Hp [Hwf Hfr Hcnt Hnf]. split; [done|..].
  - intros f Hf. apply Hfr. by rewrite Hp.
  - intros i rc Hi Hinfo. rewrite <- (references_perm _ _ _ Hp). by apply Hcnt.
  - intros f next Hf. apply Hnf. by rewrite Hp.
Qed.

(** A frame the allocator hands out is not a table of the tree. *)
Lemma kernel_fresh st root paths rest n :
  kernel_wf st root paths rest -> n ∉ rest ++ root :: refs (memory st) root paths ->
  forall q, (length q <= 4)%nat -> node (memory st) root q <> Some n.
Proof.
  intros Hk Hn q Hq Hnode. apply Hn. apply elem_of_app. right.
  destruct q as [|j q]; [injection Hnode as <-; left|right].
  apply list_elem_of_fmap. exists (j :: q). rewrite Hnode. split; [done|].
  apply (kw_paths _ _ _ _ Hk). cbn in *. split; [lia|by eexists].
Qed.

Lemma refs_ext mem mem' root paths :
  (forall l, l ∈ paths -> node mem' root l = node mem root l) -> refs mem' root paths = refs mem root paths.
Proof.
  intros H. apply list_fmap_ext. intros i l Hl. rewrite H; [done|]. by apply list_elem_of_lookup_2 in Hl.
Qed.

Lemma kernel_drop st root paths f rest :
  kernel_wf st root paths (f :: rest) ->
  exists st', with_frames (deallocate f) st = (st', Ok tt) /\ memory st' = memory st /\
    kernel_wf st' root paths rest.
Proof.
  intros [Ht Ho Hnd Hp Hm]. destruct (owned_drop (frames st) [] f _ Ho) as (fa & Hd & Ho').
  unfold with_frames. rewrite Hd. eexists. split; [done|]. split; [done|].
  split; [done|done|done|done|]. cbn. by rewrite (deallocate_length _ _ _ _ Hd).
Qed.

(** ** Steps of the operations *)

(** The leaf entry that maps a page, if it is mapped. *)
Definition leaf_pte (mem : gmap Z (list Z)) (root : Z) (l : list nat) (i : nat) : option Z :=
  g ← node mem root l; table ← mem !! g; pte ← table !! i;
  match target pte with Some _ => Some pte | None => None end.

Definition same_leaves (mem mem' : gmap Z (list Z)) (root : Z) : Prop :=
  forall l i, length l = 3%nat -> leaf_pte mem' root l i = leaf_pte mem root l i.

Lemma same_leaves_refl mem root : same_leaves mem mem root.
Proof. done. Qed.

Lemma same_leaves_trans mem1 mem2 mem3 root :
  same_leaves mem1 mem2 root -> same_leaves mem2 mem3 root -> same_leaves mem1 mem3 root.
Proof. intros H1 H2 l i Hl. by rewrite H2, H1. Qed.

Lemma target_set_phys p f :
  is_frame p -> is_flags f ->
  target (Pte.set_phys p f) =
    if PageTableFlags.is_present f && negb (PageTableFlags.is_huge f) then Some p else None.
Proof.
  intros Hp Hf. unfold target, Pte.is_huge. rewrite set_phys_flags by done.
  destruct (PageTableFlags.is_huge f) eqn:Eh; [by rewrite andb_false_r|].
  rewrite set_phys_frame by done. by destruct (PageTableFlags.is_present f).
Qed.

Lemma huge_lor f g :
  PageTableFlags.is_huge (Z.lor f g) = PageTableFlags.is_huge f || PageTableFlags.is_huge g.
Proof.
  unfold PageTableFlags.is_huge. change PageTableFlags.HUGE with (2 ^ 7).
  by rewrite !contains_bit, Z.lor_spec by lia.
Qed.

Lemma present_lor f g :
  PageTableFlags.is_present (Z.lor f g) = PageTableFlags.is_present f || PageTableFlags.is_present g.
Proof.
  unfold PageTableFlags.is_present. change PageTableFlags.PRESENT with (2 ^ 0).
  by rewrite !contains_bit, Z.lor_spec by lia.
Qed.

(** The flags [Path::map] gives to intermediate entries. *)
Definition intermediate (flags : Z) : Z := Z.lor (Z.land flags FULL_ACCESS) PageTableFlags.PRESENT.

Lemma intermediate_flags flags :
  is_flags flags ->
  is_flags (intermediate flags) /\ PageTableFlags.is_huge (intermediate flags) = false /\
  PageTableFlags.is_present (intermediate flags) = true.
Proof.
  intros Hf. unfold intermediate. split; [|split].
  - apply is_flags_lor; [apply is_flags_land; [done|]|]; by apply is_flags_const.
  - rewrite huge_lor. unfold PageTableFlags.is_huge. change PageTableFlags.HUGE with (2 ^ 7).
    rewrite !contains_bit, Z.land_spec by lia. by rewrite andb_false_r.
  - rewrite present_lor. by rewrite orb_true_r.
Qed.

(** Reading the entry of a table of the tree. *)
Lemma read_entry st root l cur virt level :
  tree_wf (memory st) root -> (length l <= 3)%nat -> node (memory st) root l = Some cur -> 0 <= level ->
  exists table pte, memory st !! cur = Some table /\ table !! idx virt level = Some pte /\
    read_pte (pte_location virt level cur) st = (st, Ok pte) /\ entry_ok (is_leaf l) pte /\
    node (memory st) root (l ++ [idx virt level]) = target pte.
Proof.
  intros Ht Hl Hn Hlev. destruct (tw_table _ _ Ht l cur Hl Hn) as (table & Htab & Hlen & Hall).
  pose proof (page_table_index_bound virt level Hlev) as Hb.
  destruct (lookup_lt_is_Some_2 table (idx virt level)) as [pte Hpte]; [unfold idx; lia|].
  exists table, pte. split; [done|]. split; [done|]. split; [|split].
  - unfold read_pte, pte_location, page_table, bindM. cbn. rewrite Htab. cbn. unfold liftM. f_equal.
    apply index_ok. split; [lia|done].
  - rewrite Forall_lookup in Hall. by eapply Hall.
  - rewrite node_snoc, Hn. cbn. unfold child. by rewrite Htab; cbn; rewrite Hpte.
Qed.

(** Writing it. *)
Lemma write_entry st cur virt level table old pte :
  memory st !! cur = Some table -> table !! idx virt level = Some old -> 0 <= level ->
  write_pte (pte_location virt level cur) pte st =
    (mkKmem (frames st) (<[cur := <[idx virt level := pte]> table]> (memory st)), Ok tt).
Proof.
  intros Htab Hold Hlev. pose proof (page_table_index_bound virt level Hlev) as Hb.
  unfold write_pte, pte_location. cbn [fst snd]. rewrite Htab. cbn [unwrap_some].
  rewrite index_set_ok; [done|]. apply lookup_lt_Some in Hold. unfold idx in Hold. lia.
Qed.

Lemma owned_alloc_node st guards :
  owned (frames st) guards ->
  (forall i, 0 <= i < Z.of_nat (length (frame_info (frames st))) -> is_Some (memory st !! (i * L0_SIZE))) ->
  (free_count (frames st) = 0 /\ allocate_node st = (st, Err NoFrame)) \/
  (exists n fa, allocate_node st = (mkKmem fa (<[n := empty_table]> (memory st)), Ok n) /\ is_frame n /\
     (n ∉ guards) /\ owned fa (n :: guards) /\ length (frame_info fa) = length (frame_info (frames st))).
Proof.
  intros Ho Hm. pose proof (own_wf _ _ Ho) as Hwf. unfold allocate_node, with_frames, bindM.
  destruct (allocate_cases (frames st) Hwf) as
    [(H0 & _ & E)|(_ & i & next & fa & _ & Hi & _ & E & Hfi & _)]; rewrite E.
  - left. split; [done|]. by destruct st.
  - right. destruct (owned_allocate _ _ _ _ Ho E) as [Hni Ho'].
    unfold page_table. cbn [memory frames]. destruct (Hm i Hi) as [t ->]. cbn [unwrap_some].
    exists (i * L0_SIZE), fa. split; [done|]. split; [|split; [done|split; [done|]]].
    + apply (own_frames _ _ Ho'). left.
    + by rewrite Hfi, length_insert.
Qed.

Lemma kernel_alloc_node st root paths rest :
  kernel_wf st root paths rest ->
  (free_count (frames st) = 0 /\ allocate_node st = (st, Err NoFrame)) \/
  (exists n fa, allocate_node st = (mkKmem fa (<[n := empty_table]> (memory st)), Ok n) /\ is_frame n /\
     (n ∉ rest ++ root :: refs (memory st) root paths) /\
     owned fa (n :: rest ++ root :: refs (memory st) root paths) /\
     length (frame_info fa) = length (frame_info (frames st))).
Proof. intros Hk. apply owned_alloc_node; [by eapply kw_owned|by eapply kw_memory]. Qed.

Lemma kernel_fail {A} st root paths frame rest e :
  kernel_wf st root paths (frame :: rest) ->
  exists st', @fail_dropping A frame e st = (st', Err e) /\ memory st' = memory st /\
    kernel_wf st' root paths rest.
Proof.
  intros Hk. destruct (kernel_drop _ _ _ _ _ Hk) as (st' & Hd & Hm & Hk'). exists st'.
  unfold fail_dropping, bindM. rewrite Hd. done.
Qed.

(** Tables away from the leaves can be rewritten without touching leaf entries. *)
Lemma same_leaves_upper mem mem' root f l :
  tree_wf mem root -> (length l <= 2)%nat -> node mem root l = Some f ->
  (forall q, length q = 3%nat -> node mem' root q = node mem root q \/
     (node mem root q = None /\ exists n, node mem' root q = Some n /\ mem' !! n = Some empty_table)) ->
  (forall g, is_Some (mem !! g) -> g <> f -> (exists q, (length q = 3)%nat /\ node mem root q = Some g) ->
     mem' !! g = mem !! g) ->
  same_leaves mem mem' root.
Proof.
  intros Ht Hl Hf Hnodes Hmem q i Hq. unfold leaf_pte.
  destruct (Hnodes q Hq) as [->|(-> & n & -> & Hn)]; cbn [mbind option_bind].
  - destruct (node mem root q) as [g|] eqn:Eg; [|done]. cbn.
    destruct (tw_table _ _ Ht q g ltac:(lia) Eg) as (tg & Htg & _).
    rewrite Hmem; [done|by eexists| |by exists q].
    intros ->. pose proof (tw_inj _ _ Ht q l f ltac:(lia) ltac:(lia) Eg Hf). subst. lia.
  - rewrite Hn. cbn [mbind option_bind]. destruct (empty_table !! i) as [x|] eqn:Ex; [|done].
    by apply lookup_replicate in Ex as [-> _].
Qed.

Lemma kernel_link st root paths rest fa n l cur table i old pte :
  kernel_wf st root paths rest -> (length l <= 2)%nat -> node (memory st) root l = Some cur ->
  memory st !! cur = Some table -> table !! i = Some old -> target old = None ->
  target pte = Some n -> entry_ok false pte ->
  (n ∉ rest ++ root :: refs (memory st) root paths) ->
  owned fa (n :: rest ++ root :: refs (memory st) root paths) ->
  length (frame_info fa) = length (frame_info (frames st)) ->
  let mem' := <[cur := <[i := pte]> table]> (<[n := empty_table]> (memory st)) in
  kernel_wf (mkKmem fa mem') root ((l ++ [i]) :: paths) rest /\ same_leaves (memory st) mem' root /\
  node mem' root (l ++ [i]) = Some n.
Proof.
  intros Hk Hl Hcur Htab Hold Hto Htp Hok Hni Ho Hlen mem'.
  assert (forall q, (length q <= 4)%nat -> node (memory st) root q <> Some n) as Hfresh
    by (by eapply kernel_fresh).
  destruct Hk as [Ht _ Hnd Hp Hm].
  assert (forall q, (length q <= 3)%nat -> node (memory st) root q <> Some n) as Hfresh3
    by (intros; apply Hfresh; lia).
  pose proof (link_node _ _ Ht l cur table i old pte n Hl Hcur Htab Hold Hto Htp Hfresh3) as Hnode. fold mem' in Hnode.
  pose proof (link_tree _ _ Ht l cur table i old pte n Hl Hcur Htab Hold Hto Htp Hok Hfresh3) as Htree. fold mem' in Htree.
  assert (length (l ++ [i]) <= 3)%nat as Hli by (rewrite length_app; cbn; lia).
  assert (node (memory st) root (l ++ [i]) = None) as Hnone.
  { rewrite node_snoc, Hcur. cbn. unfold child. rewrite Htab. cbn. by rewrite Hold. }
  assert ((l ++ [i]) ∉ paths) as Hnew by (rewrite Hp, Hnone; intros [_ [? ?]]; done).
  assert (mem' !! n = Some empty_table) as Hmn.
  { unfold mem'. rewrite lookup_insert_ne, lookup_insert_eq; [done|]. intros ->. by apply (Hfresh3 l); [lia|]. }
  assert (node mem' root (l ++ [i]) = Some n) as Hself by (by rewrite Hnode, decide_True by (done || lia)).
  split; [|split; [|done]].
  - split; cbn [frames memory]; [done| |by constructor| |].
    + assert (refs mem' root ((l ++ [i]) :: paths) = n :: refs mem' root paths) as ->.
      { unfold refs. rewrite fmap_cons. by rewrite Hself. }
      eapply owned_perm; [|exact Ho].
      rewrite (refs_ext (memory st) mem' root paths).
      { rewrite <- !Permutation_middle. apply perm_swap. }
      intros q Hq. rewrite Hnode by (apply Hp in Hq; lia). rewrite decide_False; [done|]. by intros ->.
    + intros q. rewrite elem_of_cons, Hp. destruct (decide (q = l ++ [i])) as [->|Hne].
      * rewrite Hself. split; [|by left]. intros _.
        rewrite length_app. cbn. split; [lia|by eexists].
      * split; [intros [?|[? ?]]; [done|]|intros [? ?]; right]; (split; [done|]);
          rewrite Hnode, decide_False in * by (done || lia); done.
    + rewrite Hlen. intros j Hj. unfold mem'. destruct (Hm j Hj) as [t Hjt].
      rewrite !lookup_insert_is_Some'. rewrite Hjt. by right; right.
  - eapply same_leaves_upper; [done|exact Hl|exact Hcur| |].
    + intros q Hq. destruct (decide (q = l ++ [i])) as [->|Hne].
      * right. split; [done|]. by exists n.
      * left. by rewrite Hnode, decide_False by (lia || done).
    + intros g _ Hg (q & Hq & Hqg). unfold mem'. rewrite lookup_insert_ne, lookup_insert_ne; [done|..|done].
      intros ->. by apply (Hfresh q); [lia|].
Qed.

Lemma kernel_reflag st root paths rest l cur table i old pte :
  kernel_wf st root paths rest -> (length l <= 2)%nat -> node (memory st) root l = Some cur ->
  memory st !! cur = Some table -> table !! i = Some old -> target pte = target old -> entry_ok false pte ->
  let mem' := <[cur := <[i := pte]> table]> (memory st) in
  kernel_wf (mkKmem (frames st) mem') root paths rest /\ same_leaves (memory st) mem' root /\
  node mem' root (l ++ [i]) = target old.
Proof.
  intros [Ht Ho Hnd Hp Hm] Hl Hcur Htab Hold Htg Hok mem'.
  assert (forall q, node mem' root q = node (memory st) root q) as Hnode
    by (intros q; by apply (node_write_same _ _ _ _ _ old)).
  split; [split; cbn [frames memory]; [| |done| |]|split].
  - apply (tree_write _ _ Ht l cur table i pte); [lia|done|done| |intros; apply Hnode].
    replace (is_leaf l) with false; [done|]. symmetry. apply Nat.eqb_neq. lia.
  - by rewrite (refs_ext (memory st) mem' root paths) by (intros; apply Hnode).
  - intros q. by rewrite Hp, Hnode.
  - intros j Hj. unfold mem'. rewrite lookup_insert_is_Some'. right. by apply Hm.
  - eapply same_leaves_upper; [done|exact Hl|exact Hcur|by left|].
    intros g _ Hg _. unfold mem'. by rewrite lookup_insert_ne.
  - rewrite Hnode, node_snoc, Hcur. cbn. unfold child. rewrite Htab. cbn. by rewrite Hold.
Qed.

(** The outcome of one level of [Path::map]: it descends to the table at [l], with
    the leaves and the tables above unchanged, or it gives the guard back and
    fails. *)
Definition descends (st : Kmem) (root frame : Z) (rest : list Z) (paths : list (list nat))
    (l : list nat) (r : Kmem * outcome Z) : Prop :=
  (exists st' next paths', r = (st', Ok next) /\
     kernel_wf st' root paths' (frame :: rest) /\ same_leaves (memory st) (memory st') root /\
     node (memory st') root l = Some next /\
     (forall q, (length q < length l)%nat -> node (memory st') root q = node (memory st) root q)) \/
  (exists st' e, r = (st', Err e) /\ (e = NoFrame \/ e = Unimplemented) /\
     kernel_wf st' root paths rest /\ memory st' = memory st).

Lemma descends_fail st root paths frame rest l e :
  kernel_wf st root paths (frame :: rest) -> e = NoFrame \/ e = Unimplemented ->
  descends st root frame rest paths l (fail_dropping frame e st).
Proof.
  intros Hk He. destruct (@kernel_fail Z st root paths frame rest e Hk) as (st' & Hd & Hm & Hk').
  right. exists st', e. done.
Qed.

Section MapLevel.
  Context (st : Kmem) (root : Z) (paths : list (list nat)) (frame : Z) (rest : list Z) (flags virt level : Z).
  Context (l : list nat) (cur : Z) (table : list Z) (pte : Z).
  Context (Hk : kernel_wf st root paths (frame :: rest)) (Hfl : is_flags flags) (Hlev : 0 < level).
  Context (Hl : (length l <= 2)%nat) (Hcur : node (memory st) root l = Some cur).
  Context (Htab : memory st !! cur = Some table) (Hpte : table !! idx virt level = Some pte).

Let loc := pte_location virt level cur.

Lemma create_table_spec :
  target pte = None ->
  descends st root frame rest paths (l ++ [idx virt level]) (create_table frame loc (intermediate flags) st).
Proof using Hk Hfl Hlev Hl Hcur Htab Hpte.
  intros Htn. destruct (intermediate_flags flags Hfl) as (Hif & Hih & Hip). unfold create_table.
  destruct (kernel_alloc_node st root paths (frame :: rest) Hk) as [[_ ->]|(n & fa & -> & Hn & Hni & Ho & Hlen)].
  { apply descends_fail; [done|by left]. }
  left. set (pte' := Pte.set_phys n (Z.lor (intermediate flags) PageTableFlags.PRESENT)).
  assert (guard_store n (intermediate flags) = Ok pte') as Hset.
  { unfold guard_store, Pte.set_frame. unfold PageTableFlags.is_huge in Hih. by rewrite Hih. }
  assert (is_flags (Z.lor (intermediate flags) PageTableFlags.PRESENT)) as Hif2
    by (apply is_flags_lor; [done|by apply is_flags_const]).
  assert (entry_ok false pte' /\ target pte' = Some n) as [Hok' Htg'].
  { split.
    - eexists _, _. do 2 (split; [done|]). split; [done|]. by rewrite huge_lor, Hih.
    - unfold pte'. by rewrite target_set_phys, huge_lor, present_lor, Hih, Hip. }
  destruct (kernel_link st root paths (frame :: rest) fa n l cur table (idx virt level) pte pte'
              Hk Hl Hcur Htab Hpte Htn Htg' Hok' Hni Ho Hlen) as (Hk' & Hs & Hn').
  pose proof (kernel_fresh _ _ _ _ _ Hk Hni) as Hfresh.
  assert (n <> cur) as Hne by (intros Heq; apply (Hfresh l); [lia|by rewrite Heq]).
  unfold liftM, bindM. rewrite Hset. rewrite (write_entry _ cur virt level table pte);
    [|cbn; by rewrite lookup_insert_ne|done|lia].
  eexists _, n, _. split; [done|]. split; [exact Hk'|]. split; [exact Hs|]. split; [exact Hn'|].
  intros q Hq. rewrite length_app in Hq. cbn [memory length] in *.
  rewrite (link_node _ _ (kw_tree _ _ _ _ Hk) l cur table (idx virt level) pte pte' n Hl Hcur Htab Hpte Htn Htg');
    [|intros q' Hq'; apply Hfresh; lia|lia].
  rewrite decide_False; [done|]. intros ->. rewrite length_app in Hq. cbn in Hq. lia.
Qed.

Lemma follow_table_spec p f :
  is_frame p -> is_flags f -> pte = Pte.set_phys p f ->
  PageTableFlags.is_present f = true -> PageTableFlags.is_huge f = false ->
  descends st root frame rest paths (l ++ [idx virt level]) (follow_table frame loc pte (intermediate flags) st).
Proof using Hk Hfl Hlev Hl Hcur Htab Hpte.
  intros Hp Hf Heq Ep Eh. destruct (intermediate_flags flags Hfl) as (Hif & Hih & Hip).
  assert (target pte = Some p) as Htg by (by rewrite Heq, target_set_phys, Ep, Eh).
  assert (node (memory st) root (l ++ [idx virt level]) = Some p) as Hnode.
  { rewrite node_snoc, Hcur. cbn. unfold child. rewrite Htab. cbn. by rewrite Hpte. }
  assert (Pte.frame pte = Ok p) as Hfr by (by rewrite Heq, set_phys_frame, Ep).
  assert (Pte.flags pte = Ok f) as Hfg by (by rewrite Heq, set_phys_flags).
  left. unfold follow_table. rewrite Hfr. unfold liftM, bindM. rewrite Hfg.
  destruct (Z.eqb_spec (Z.land f (intermediate flags)) (intermediate flags)) as [E|E]; cbn [negb].
  { eexists st, p, paths. done. }
  set (pte' := Pte.set_phys p (Z.lor f (intermediate flags))).
  assert (Pte.set_flags pte (Z.lor f (intermediate flags)) = Ok pte') as ->
    by (unfold Pte.set_flags; by rewrite Heq, set_phys_phys).
  assert (is_flags (Z.lor f (intermediate flags))) as Hif2 by (by apply is_flags_lor).
  assert (entry_ok false pte' /\ target pte' = Some p) as [Hok' Htg'].
  { split.
    - eexists _, _. do 2 (split; [done|]). split; [done|]. by rewrite huge_lor, Eh, Hih.
    - unfold pte'. by rewrite target_set_phys, huge_lor, present_lor, Eh, Hih, Ep. }
  destruct (kernel_reflag st root paths (frame :: rest) l cur table (idx virt level) pte pte'
              Hk Hl Hcur Htab Hpte ltac:(congruence) Hok') as (Hk' & Hs & Hn').
  rewrite (write_entry _ cur virt level table pte) by (done || lia).
  eexists _, p, _. split; [done|]. split; [exact Hk'|]. split; [exact Hs|].
  split; [by rewrite <- Htg|]. intros q _. cbn [memory].
  apply (node_write_same _ _ _ _ _ pte); [done|done|congruence].
Qed.

End MapLevel.

Lemma map_level_spec st root paths frame rest flags virt level l cur :
  kernel_wf st root paths (frame :: rest) -> is_flags flags -> 0 < level ->
  (length l <= 2)%nat -> node (memory st) root l = Some cur ->
  descends st root frame rest paths (l ++ [idx virt level]) (map_level virt frame flags level cur st).
Proof.
  intros Hk Hfl Hlev Hl Hcur. pose proof (kw_tree _ _ _ _ Hk) as Ht.
  destruct (read_entry st root l cur virt level Ht ltac:(lia) Hcur ltac:(lia))
    as (table & pte & Htab & Hpte & Hread & Hok & Hnode).
  assert (is_leaf l = false) as Hleaf by (apply Nat.eqb_neq; lia). rewrite Hleaf in Hok.
  destruct (entry_view _ _ Hok) as (p & f & Hp & Hf & Heq & _ & _ & Hpr & Hhu & _ & _ & Htg).
  unfold map_level. rewrite (bindM_ok _ _ _ _ _ Hread). rewrite Hpr, Hhu. unfold bindM, liftM.
  change (Z.lor (Z.land flags FULL_ACCESS) PageTableFlags.PRESENT) with (intermediate flags).
  destruct (PageTableFlags.is_present f) eqn:Ep; cbn [negb].
  - destruct (PageTableFlags.is_huge f) eqn:Eh; [apply descends_fail; [done|by right]|].
    by apply (follow_table_spec st root paths frame rest flags virt level l cur table pte) with p f.
  - by apply (create_table_spec st root paths frame rest flags virt level l cur table pte).
Qed.

Lemma map_levels_spec levels st root paths frame rest flags virt l cur :
  kernel_wf st root paths (frame :: rest) -> is_flags flags -> Forall (fun level => 0 < level) levels ->
  (length l + length levels <= 3)%nat -> node (memory st) root l = Some cur ->
  (exists st' leaf paths', map_levels virt frame flags levels cur st = (st', Ok leaf) /\
     kernel_wf st' root paths' (frame :: rest) /\ same_leaves (memory st) (memory st') root /\
     node (memory st') root (l ++ (idx virt <$> levels)) = Some leaf) \/
  (exists st' e paths', map_levels virt frame flags levels cur st = (st', Err e) /\
     (e = NoFrame \/ e = Unimplemented) /\ kernel_wf st' root paths' rest /\
     same_leaves (memory st) (memory st') root).
Proof.
  revert st paths l cur. induction levels as [|level levels IH]; intros st paths l cur Hk Hfl Hlev Hlen Hcur.
  { left. exists st, cur, paths. cbn. rewrite app_nil_r. done. }
  inversion Hlev as [|? ? Hl1 Hl2]. subst. cbn [map_levels length] in *.
  destruct (map_level_spec st root paths frame rest flags virt level l cur Hk Hfl Hl1 ltac:(lia) Hcur)
    as [(st1 & next & paths1 & E & Hk1 & Hs1 & Hn1 & _)|(st1 & e & E & He & Hk1 & Hm)].
  - rewrite (bindM_ok _ _ _ _ _ E).
    destruct (IH st1 paths1 (l ++ [idx virt level]) next Hk1 Hfl Hl2) as
      [(st2 & leaf & paths2 & E2 & Hk2 & Hs2 & Hn2)|(st2 & e & paths2 & E2 & He & Hk2 & Hs2)];
      [rewrite length_app; cbn; lia|done|left|right].
    + exists st2, leaf, paths2. split; [done|]. split; [done|].
      split; [by eapply same_leaves_trans|]. by rewrite <- app_assoc in Hn2.
    + exists st2, e, paths2. do 3 (split; [done|]). by eapply same_leaves_trans.
  - right. rewrite (bindM_err _ _ _ _ _ E). exists st1, e, paths. do 3 (split; [done|]).
    rewrite Hm. apply same_leaves_refl.
Qed.

(** ** Leaf entries *)

Definition opt_list (o : option Z) : list Z := match o with Some x => [x] | None => [] end.

(** Writing a leaf entry moves references between the tree and the rest of the
    kernel, changes that leaf and no other, and keeps the invariant. *)
Section LeafWrite.
  Context (st : Kmem) (root : Z) (paths : list (list nat)) (rest : list Z).
  Context (l : list nat) (g : Z) (table : list Z) (i : nat) (old pte : Z).
  Context (Hk : kernel_wf st root paths rest) (Hl : length l = 3%nat) (Hg : node (memory st) root l = Some g).
  Context (Htab : memory st !! g = Some table) (Hold : table !! i = Some old) (Hok : entry_ok true pte).

Let mem' := <[g := <[i := pte]> table]> (memory st).
Let L := l ++ [i].

Lemma leaf_length : length L = 4%nat.
Proof using Hl. unfold L. rewrite length_app, Hl. done. Qed.

Lemma leaf_node q : (length q <= 4)%nat -> node mem' root q = if decide (q = L) then target pte else node (memory st) root q.
Proof using Hk Hl Hg Htab Hold.
  intros Hq. pose proof (kw_tree _ _ _ _ Hk) as Ht. destruct (decide (q = L)) as [->|Hne].
  - unfold L. replace (l ++ [i]) with (l ++ [i] ++ []) by by rewrite app_nil_r. unfold mem'.
    rewrite (node_write_at _ _ Ht l g table i old pte ltac:(lia) Hg Htab Hold). by destruct (target pte).
  - apply (node_write _ _ Ht l g table i old pte ltac:(lia) Hg Htab Hold); [lia|].
    intros [r ->]. fold L in Hne. rewrite !length_app in Hq. cbn in Hq. destruct r; [|cbn in Hq; lia].
    by rewrite app_nil_r in Hne.
Qed.

Lemma leaf_before : node (memory st) root L = target old.
Proof using Hg Htab Hold. unfold L. rewrite node_snoc, Hg. cbn. unfold child. rewrite Htab. cbn. by rewrite Hold. Qed.

(** The references of the tree, with the written leaf taken out. *)
Lemma refs_split mem ps x :
  NoDup ps -> node mem root L = x -> (L ∈ ps <-> is_Some x) ->
  refs mem root ps ≡ₚ opt_list x ++ refs mem root (filter (fun q => q <> L) ps).
Proof.
  intros Hnd Hx Hin. destruct (decide (L ∈ ps)) as [HL|HL].
  - destruct (proj1 Hin HL) as [y ->]. cbn.
    destruct (elem_of_Permutation ps L) as [[ps0 Hps] _]; [done|].
    assert (L ∉ ps0) as Hn0 by (rewrite Hps in Hnd; by apply list.NoDup_cons in Hnd as [? _]).
    unfold refs. rewrite Hps, filter_cons_False by tauto. cbn. rewrite Hx. cbn. f_equiv.
    rewrite filter_all_elem; [done|]. intros q Hq ->. done.
  - destruct x; [exfalso; apply HL, Hin; by eexists|]. cbn.
    rewrite filter_all_elem; [done|]. intros q Hq ->. done.
Qed.

Lemma kernel_write_leaf rest' :
  opt_list (target old) ++ rest ≡ₚ opt_list (target pte) ++ rest' ->
  exists paths', kernel_wf (mkKmem (frames st) mem') root paths' rest' /\
    node mem' root l = Some g /\ mem' !! g = Some (<[i := pte]> table) /\
    (forall l' j, length l' = 3%nat -> leaf_pte mem' root l' j =
       if decide (l' = l /\ j = i) then match target pte with Some _ => Some pte | None => None end
       else leaf_pte (memory st) root l' j).
Proof using Hk Hl Hg Htab Hold Hok.
  intros Hrest. destruct Hk as [Ht Ho Hnd Hp Hm].
  assert (forall q, (length q <= 3)%nat -> node mem' root q = node (memory st) root q) as Hupper.
  { intros q Hq. rewrite leaf_node by lia. rewrite decide_False; [done|]. intros ->. rewrite leaf_length in Hq. lia. }
  set (others := filter (fun q => q <> L) paths).
  set (paths' := if target pte is Some _ then L :: others else others).
  assert (forall q, q ∈ others <-> q ∈ paths /\ q <> L) as Hothers
    by (intros q; unfold others; rewrite list_elem_of_filter; tauto).
  assert (NoDup others) as Hndo by (by apply NoDup_filter).
  assert (refs mem' root others = refs (memory st) root others) as Hro.
  { apply refs_ext. intros q [Hq Hne]%Hothers. rewrite leaf_node by (apply Hp in Hq; lia). by rewrite decide_False. }
  assert (refs mem' root paths' = opt_list (target pte) ++ refs (memory st) root others) as Hr'.
  { unfold paths'. rewrite <- Hro. destruct (target pte) eqn:E; [|done]. unfold refs. rewrite fmap_cons.
    by rewrite leaf_node, decide_True, E by (done || rewrite leaf_length; lia). }
  exists paths'. split; [split; cbn [frames memory]|split; [|split; [apply lookup_insert_eq|]]].
  - apply (tree_write _ _ Ht l g table i pte); [lia|done|done| |done].
    unfold is_leaf. by rewrite Hl.
  - rewrite Hr'. eapply owned_perm; [|exact Ho].
    rewrite (refs_split (memory st) paths (target old)); [|done|apply leaf_before|].
    + fold others. rewrite <- !Permutation_middle. f_equiv.
      rewrite !app_assoc. apply Permutation_app_tail.
      rewrite (Permutation_app_comm rest), (Permutation_app_comm rest'). exact Hrest.
    + rewrite Hp, leaf_before, leaf_length. split; [by intros [_ ?]|intros; split; [lia|done]].
  - unfold paths'. destruct (target pte); [|done]. constructor; [|done]. by rewrite Hothers; intros [_ ?].
  - intros q. assert (q ∈ paths' <-> (q ∈ others \/ q = L /\ is_Some (target pte))) as ->.
    { unfold paths'. destruct (target pte); [rewrite elem_of_cons|]; split; intros H; try tauto.
      - destruct H as [H|H]; [right; split; [done|by eexists]|by left].
      - by destruct H as [H|[_ [? ?]]]. }
    rewrite Hothers, Hp. destruct (decide (q = L)) as [->|Hne].
    + rewrite leaf_node, decide_True, leaf_length by (done || rewrite leaf_length; lia). intuition lia.
    + split; [intros [[[? ?] _]|[? _]]; [|done]|intros [? ?]; left; split; [|done]];
        (split; [done|]); rewrite leaf_node, decide_False in * by (done || lia); done.
  - intros j Hj. unfold mem'. rewrite lookup_insert_is_Some'. right. by apply Hm.
  - by rewrite Hupper by lia.
  - intros l' j Hl'. unfold leaf_pte. rewrite Hupper by lia.
    destruct (decide (l' = l)) as [->|Hne].
    + rewrite Hg. cbn. unfold mem'. rewrite lookup_insert_eq. cbn. destruct (decide (j = i)) as [->|Hj].
      * rewrite decide_True by done. rewrite list_lookup_insert_eq by by apply lookup_lt_Some in Hold. done.
      * rewrite decide_False by tauto. by rewrite list_lookup_insert_ne, Htab by done.
    + rewrite decide_False by tauto. destruct (node (memory st) root l') as [g'|] eqn:Eg; [|done]. cbn.
      unfold mem'. rewrite lookup_insert_ne; [done|]. intros ->.
      apply Hne. by apply (tw_inj _ _ Ht l' l g'); [lia|lia|..].
Qed.

End LeafWrite.

(** ** Paths *)

Lemma walk_cons st root virt level levels l cur nodes :
  tree_wf (memory st) root -> (length l <= 3)%nat -> node (memory st) root l = Some cur -> 0 <= level ->
  (is_leaf l = true -> level = 0) ->
  walk virt (level :: levels) cur nodes st =
    let nodes := <[Z.to_nat level := Some (pte_location virt level cur)]> nodes in
    if 0 <? level then
      match node (memory st) root (l ++ [idx virt level]) with
      | Some next => walk virt levels next nodes st
      | None => (st, Ok nodes)
      end
    else (st, Ok nodes).
Proof.
  intros Ht Hl Hcur Hlev Hleaf. cbn [walk].
  destruct (read_entry st root l cur virt level Ht Hl Hcur Hlev) as (table & pte & _ & _ & Hread & Hok & ->).
  rewrite (bindM_ok _ _ _ _ _ Hread). change PAGE_TABLE_LEAF_LEVEL with 0.
  destruct (Z.ltb_spec 0 level); [|done].
  destruct (entry_view _ _ Hok) as (p & f & _ & _ & _ & _ & _ & -> & -> & Hfr & _ & ->).
  unfold bindM, liftM. destruct (PageTableFlags.is_present f); [|done].
  destruct (PageTableFlags.is_huge f); [done|]. cbn [andb negb]. by destruct (Hfr eq_refl) as [-> _].
Qed.

(** The entries a path records: those of the tables that exist, the others are
    left as they were. *)
Definition node_at (mem : gmap Z (list Z)) (root virt level : Z) (l : list nat) (d : option Location)
    : option Location :=
  match node mem root l with Some g => Some (pte_location virt level g) | None => d end.

Definition path_nodes (mem : gmap Z (list Z)) (root virt : Z) (n0 n1 n2 : option Location)
    : list (option Location) :=
  [node_at mem root virt 0 [idx virt 3; idx virt 2; idx virt 1] n0;
   node_at mem root virt 1 [idx virt 3; idx virt 2] n1;
   node_at mem root virt 2 [idx virt 3] n2;
   Some (pte_location virt 3 root)].

Lemma walk_spec st root virt n0 n1 n2 n3 :
  tree_wf (memory st) root ->
  walk virt LEVELS root [n0; n1; n2; n3] st = (st, Ok (path_nodes (memory st) root virt n0 n1 n2)).
Proof.
  intros Ht. unfold LEVELS, path_nodes, node_at.
  rewrite (walk_cons st root virt 3 _ [] root) by (done || cbn; lia). cbn [app Z.ltb Z.compare Pos.compare Pos.compare_cont].
  destruct (node (memory st) root [idx virt 3]) as [g2|] eqn:E2.
  2:{ rewrite (node_prefix _ _ _ [idx virt 2] E2 : node (memory st) root [idx virt 3; idx virt 2] = None).
      by rewrite (node_prefix _ _ _ [idx virt 2; idx virt 1] E2 : node (memory st) root [idx virt 3; idx virt 2; idx virt 1] = None). }
  rewrite (walk_cons st root virt 2 _ [idx virt 3] g2) by (done || cbn; lia). cbn [app Z.ltb Z.compare Pos.compare Pos.compare_cont].
  destruct (node (memory st) root [idx virt 3; idx virt 2]) as [g1|] eqn:E1.
  2:{ by rewrite (node_prefix _ _ _ [idx virt 1] E1 : node (memory st) root [idx virt 3; idx virt 2; idx virt 1] = None). }
  rewrite (walk_cons st root virt 1 _ [idx virt 3; idx virt 2] g1) by (done || cbn; lia).
  cbn [app Z.ltb Z.compare Pos.compare Pos.compare_cont].
  destruct (node (memory st) root [idx virt 3; idx virt 2; idx virt 1]) as [g0|] eqn:E0; [|done].
  by rewrite (walk_cons st root virt 0 _ [idx virt 3; idx virt 2; idx virt 1] g0) by (done || cbn; lia).
Qed.

(** Reading a recorded entry of an existing table. *)
Lemma read_recorded st root virt level l cur :
  tree_wf (memory st) root -> (length l <= 3)%nat -> node (memory st) root l = Some cur -> 0 <= level ->
  exists pte, read_pte (pte_location virt level cur) st = (st, Ok pte) /\ entry_ok (is_leaf l) pte /\
    node (memory st) root (l ++ [idx virt level]) = target pte.
Proof.
  intros Ht Hl Hc Hlev. destruct (read_entry st root l cur virt level Ht Hl Hc Hlev) as (? & pte & _ & _ & ? & ? & ?).
  eauto.
Qed.

Lemma target_present pte f : entry_ok false pte -> target pte = Some f -> Pte.is_present pte = Ok true.
Proof.
  intros Hok Ht. destruct (entry_view _ _ Hok) as (p & fl & _ & _ & _ & _ & _ & -> & _ & _ & _ & E).
  rewrite E in Ht. by destruct (PageTableFlags.is_present fl).
Qed.

(** An entry above the leaf level that leads nowhere is unused or huge. *)
Lemma dead_end pte :
  entry_ok false pte -> target pte = None ->
  exists b, Pte.is_present pte = Ok b /\ Pte.is_huge pte = Ok b.
Proof.
  intros Hok Ht. destruct (entry_view _ _ Hok) as (p & fl & _ & _ & _ & _ & _ & -> & -> & _ & Hh & E).
  rewrite E in Ht. destruct (PageTableFlags.is_present fl), (PageTableFlags.is_huge fl); eauto; try done.
  by specialize (Hh eq_refl).
Qed.

Section Validate.
  Context (st : Kmem) (root virt : Z) (Ht : tree_wf (memory st) root).

(** The recorded entries from [level] up to the root are present. *)
Lemma above_present :
  (is_Some (node (memory st) root [idx virt 3]) ->
     all_present [Some (pte_location virt 3 root)] st = (st, Ok true)) /\
  (forall g2, node (memory st) root [idx virt 3] = Some g2 ->
     is_Some (node (memory st) root [idx virt 3; idx virt 2]) ->
     all_present [Some (pte_location virt 2 g2); Some (pte_location virt 3 root)] st = (st, Ok true)) /\
  (forall g1 g2, node (memory st) root [idx virt 3] = Some g2 ->
     node (memory st) root [idx virt 3; idx virt 2] = Some g1 ->
     is_Some (node (memory st) root [idx virt 3; idx virt 2; idx virt 1]) ->
     all_present [Some (pte_location virt 1 g1); Some (pte_location virt 2 g2);
                  Some (pte_location virt 3 root)] st = (st, Ok true)).
Proof using Ht.
  assert (forall l level g rest, (length l <= 2)%nat -> 0 <= level -> node (memory st) root l = Some g ->
            is_Some (node (memory st) root (l ++ [idx virt level])) ->
            all_present rest st = (st, Ok true) ->
            all_present (Some (pte_location virt level g) :: rest) st = (st, Ok true)) as Hstep.
  { intros l level g rest Hl Hlev Hg [f Hf] Hrest. cbn [all_present].
    destruct (read_recorded st root virt level l g Ht ltac:(lia) Hg Hlev) as (pte & Hread & Hok & Htg).
    replace (is_leaf l) with false in Hok by (symmetry; apply Nat.eqb_neq; lia).
    unfold bindM, liftM. cbn [unwrap_some]. rewrite Hread, (target_present pte f); [done|done|congruence]. }
  assert (forall i, is_Some (node (memory st) root [i]) -> all_present [] st = (st, Ok true)) by done.
  split; [|split].
  - intros H3. apply (Hstep [] 3 root); [cbn; lia|lia|done|done|done].
  - intros g2 H3 H2. apply (Hstep [idx virt 3] 2 g2); [cbn; lia|lia|done|done|].
    apply (Hstep [] 3 root); [cbn; lia|lia|done|by eexists|done].
  - intros g1 g2 H3 H2 H1. apply (Hstep [idx virt 3; idx virt 2] 1 g1); [cbn; lia|lia|done|done|].
    apply (Hstep [idx virt 3] 2 g2); [cbn; lia|lia|done|by eexists|].
    apply (Hstep [] 3 root); [cbn; lia|lia|done|by eexists|done].
Qed.

(** Validation of the dead end at which a path stops above the leaf level. *)
Lemma dead_end_valid level l g :
  0 < level -> (length l <= 2)%nat -> node (memory st) root l = Some g ->
  node (memory st) root (l ++ [idx virt level]) = None ->
  exists pte b, read_pte (pte_location virt level g) st = (st, Ok pte) /\
    Pte.is_present pte = Ok b /\ Pte.is_huge pte = Ok b.
Proof using Ht.
  intros Hlev Hl Hg Hn.
  destruct (read_recorded st root virt level l g Ht ltac:(lia) Hg ltac:(lia)) as (pte & Hread & Hok & Htg).
  replace (is_leaf l) with false in Hok by (symmetry; apply Nat.eqb_neq; lia).
  destruct (dead_end pte Hok ltac:(congruence)) as (b & Hp & Hh). eauto.
Qed.

(** Evaluates the positions of [validate] on a path of known depth. *)
Ltac validate_simpl :=
  unfold bindM, liftM; cbn -[read_pte pte_location all_present];
  change (0 + 1 + 1 + 1) with 3; change (0 + 1 + 1) with 2; change (0 + 1) with 1;
  change (Z.to_nat 0) with 0%nat; change (Z.to_nat 3) with 3%nat; change (Z.to_nat 2) with 2%nat; change (Z.to_nat 1) with 1%nat;
  cbn -[read_pte pte_location all_present].

(** A freshly walked path passes [validate]. *)
Lemma validate_path :
  path_validate (mkPath root (path_nodes (memory st) root virt None None None) virt) st = (st, Ok tt).
Proof using Ht.
  destruct above_present as (H3 & H2 & H1).
  unfold path_validate, path_nodes, node_at, deepest_pte. cbn [nodes].
  destruct (node (memory st) root [idx virt 3]) as [g2|] eqn:E2.
  2:{ rewrite (node_prefix _ _ _ [idx virt 2] E2 : node (memory st) root [idx virt 3; idx virt 2] = None).
      rewrite (node_prefix _ _ _ [idx virt 2; idx virt 1] E2 : node (memory st) root [idx virt 3; idx virt 2; idx virt 1] = None).
      destruct (dead_end_valid 3 [] root) as (pte & b & Hread & Hp & Hh); [lia|cbn; lia|done|done|].
      validate_simpl. rewrite Hread.
      change (all_present [] st) with (st, @Ok bool true). cbn -[Pte.is_present Pte.is_huge].
      rewrite Hp, Hh. by destruct b. }
  destruct (node (memory st) root [idx virt 3; idx virt 2]) as [g1|] eqn:E1.
  2:{ rewrite (node_prefix _ _ _ [idx virt 1] E1 : node (memory st) root [idx virt 3; idx virt 2; idx virt 1] = None).
      destruct (dead_end_valid 2 [idx virt 3] g2) as (pte & b & Hread & Hp & Hh); [lia|cbn; lia|done|done|].
      validate_simpl. rewrite Hread, H3, Hp, Hh by by eexists. by destruct b. }
  destruct (node (memory st) root [idx virt 3; idx virt 2; idx virt 1]) as [g0|] eqn:E0.
  2:{ destruct (dead_end_valid 1 [idx virt 3; idx virt 2] g1) as (pte & b & Hread & Hp & Hh); [lia|cbn; lia|done|done|].
      validate_simpl. rewrite Hread, (H2 g2), Hp, Hh by (done || by eexists). by destruct b. }
  destruct (read_recorded st root virt 0 [idx virt 3; idx virt 2; idx virt 1] g0 Ht) as (pte & Hread & _ & _);
    [cbn; lia|done|lia|].
  validate_simpl. rewrite Hread, (H1 g1 g2) by (done || by eexists). done.
Qed.

End Validate.

(** The path of the table that holds the leaf entry of an address. *)
Definition leaf_path (virt : Z) : list nat := [idx virt 3; idx virt 2; idx virt 1].

Definition fresh_path (mem : gmap Z (list Z)) (root virt : Z) : Path :=
  mkPath root (path_nodes mem root virt None None None) virt.

Lemma mapping_path_spec st root virt :
  tree_wf (memory st) root -> mapping_path root virt st = (st, Ok (fresh_path (memory st) root virt)).
Proof.
  intros Ht. unfold mapping_path. rewrite (bindM_ok _ _ _ _ _ (walk_spec st root virt _ _ _ _ Ht)).
  unfold path_new. by rewrite (bindM_ok _ _ _ _ _ (validate_path st root virt Ht)).
Qed.

Lemma path_get_spec st root virt :
  tree_wf (memory st) root ->
  match node (memory st) root (leaf_path virt) with
  | Some g => path_get (fresh_path (memory st) root virt) st = (st, Ok (pte_location virt 0 g))
  | None => exists e, path_get (fresh_path (memory st) root virt) st = (st, Err e) /\
              (e = NoPage \/ e = Unimplemented)
  end.
Proof.
  intros Ht. unfold path_get, fresh_path, path_nodes, node_at, deepest_pte, leaf_path. cbn [nodes].
  destruct (node (memory st) root [idx virt 3; idx virt 2; idx virt 1]) as [g0|] eqn:E0; [done|].
  assert (forall level l g, 0 < level -> (length l <= 2)%nat -> node (memory st) root l = Some g ->
            node (memory st) root (l ++ [idx virt level]) = None ->
            exists e, (let! pte := read_pte (pte_location virt level g) in
                       let! huge := liftM (Pte.is_huge pte) in
                       liftM (if huge : bool then @Err Location Unimplemented else Err NoPage)) st = (st, Err e) /\
              (e = NoPage \/ e = Unimplemented)) as Hend.
  { intros level l g Hlev Hl Hg Hn.
    destruct (dead_end_valid st root virt Ht level l g Hlev Hl Hg Hn) as (pte & b & Hread & _ & Hh).
    rewrite (bindM_ok _ _ _ _ _ Hread), Hh. unfold bindM, liftM. destruct b; eauto. }
  destruct (node (memory st) root [idx virt 3; idx virt 2]) as [g1|] eqn:E1.
  { by apply (Hend 1 [idx virt 3; idx virt 2] g1); [lia|cbn; lia|..]. }
  destruct (node (memory st) root [idx virt 3]) as [g2|] eqn:E2.
  { by apply (Hend 2 [idx virt 3] g2); [lia|cbn; lia|..]. }
  by apply (Hend 3 [] root); [lia|cbn; lia|..].
Qed.

(** What a page is mapped to, observed through the code: the frame and the flags of
    the entry [translate] returns. *)
Definition resolve (root virt : Z) : M Kmem (Z * Z) :=
  let! loc := translate root virt in
  let! pte := read_pte loc in
  let! frame := liftM (Pte.frame pte) in
  let! flags := liftM (Pte.flags pte) in
  retM (frame, flags).

Lemma resolve_spec st root virt :
  tree_wf (memory st) root ->
  match leaf_pte (memory st) root (leaf_path virt) (idx virt 0) with
  | Some pte => exists p f, is_frame p /\ is_flags f /\ pte = Pte.set_phys p f /\ resolve root virt st = (st, Ok (p, f))
  | None => exists e, resolve root virt st = (st, Err e)
  end.
Proof.
  intros Ht. pose proof (path_get_spec st root virt Ht) as Hget. unfold leaf_pte, resolve, translate, bindM.
  rewrite mapping_path_spec by done.
  destruct (node (memory st) root (leaf_path virt)) as [g|] eqn:Eg; cbn [mbind option_bind].
  2:{ destruct Hget as (e & -> & _). eauto. }
  rewrite Hget. destruct (read_entry st root (leaf_path virt) g virt 0 Ht) as (table & pte & Htab & Hpte & Hread & Hok & _);
    [cbn; lia|done|lia|].
  rewrite Htab. cbn [mbind option_bind]. rewrite Hpte, Hread. cbn [mbind option_bind].
  change (is_leaf (leaf_path virt)) with true in Hok.
  destruct (entry_view _ _ Hok) as (p & f & Hp & Hf & Heq & Hfl & _ & _ & _ & Hfr & Hh & ->).
  destruct (Hfr Hh) as [-> _]. rewrite Hh, Hfl. unfold liftM, retM.
  destruct (PageTableFlags.is_present f); cbn; [|by eauto]. eauto 10.
Qed.

(** Addresses of different pages have different entries. *)
Lemma indexes_page a b :
  canonical a -> canonical b -> leaf_path a = leaf_path b -> idx a 0 = idx b 0 -> a / 4096 = b / 4096.
Proof.
  intros Ha Hb Hl H0. unfold leaf_path in Hl. injection Hl as H3 H2 H1. unfold idx in *.
  assert (forall lv, 0 <= lv -> Z.to_nat (Virt.page_table_index a lv) = Z.to_nat (Virt.page_table_index b lv) ->
            Virt.page_table_index a lv = Virt.page_table_index b lv) as Hinj.
  { intros lv Hlv H. pose proof (page_table_index_bound a lv Hlv). pose proof (page_table_index_bound b lv Hlv). lia. }
  apply Hinj in H0, H1, H2, H3; [|lia..]. rewrite !page_table_index_div in * by lia.
  change (2 ^ (12 + 0 * 9)) with 4096 in *. change (2 ^ (12 + 1 * 9)) with 2097152 in *.
  change (2 ^ (12 + 2 * 9)) with 1073741824 in *. change (2 ^ (12 + 3 * 9)) with 549755813888 in *.
  unfold canonical in *. Z.div_mod_to_equations. lia.
Qed.

(** ** [Path::map] and [Path::unmap] *)

Lemma deepest_spec st root virt :
  tree_wf (memory st) root -> exists level loc pte huge,
    deepest_pte (fresh_path (memory st) root virt) = Ok (level, loc) /\
    read_pte loc st = (st, Ok pte) /\ Pte.is_huge pte = Ok huge.
Proof.
  intros Ht. unfold deepest_pte, fresh_path, path_nodes, node_at. cbn [nodes].
  assert (forall level l g, (length l <= 3)%nat -> 0 <= level -> node (memory st) root l = Some g ->
            exists pte huge, read_pte (pte_location virt level g) st = (st, Ok pte) /\ Pte.is_huge pte = Ok huge) as Hr.
  { intros level l g Hl Hlev Hg. destruct (read_recorded st root virt level l g Ht Hl Hg Hlev) as (pte & Hread & Hok & _).
    destruct (entry_view _ _ Hok) as (p & f & _ & _ & _ & _ & _ & _ & Hh & _). eauto. }
  destruct (node (memory st) root [idx virt 3; idx virt 2; idx virt 1]) as [g0|] eqn:E0.
  { destruct (Hr 0 [idx virt 3; idx virt 2; idx virt 1] g0 ltac:(cbn; lia) ltac:(lia) E0) as (pte & b & ? & ?). eauto 10. }
  destruct (node (memory st) root [idx virt 3; idx virt 2]) as [g1|] eqn:E1.
  { destruct (Hr 1 [idx virt 3; idx virt 2] g1 ltac:(cbn; lia) ltac:(lia) E1) as (pte & b & ? & ?). by exists 1, (pte_location virt 1 g1), pte, b. }
  destruct (node (memory st) root [idx virt 3]) as [g2|] eqn:E2.
  { destruct (Hr 2 [idx virt 3] g2 ltac:(cbn; lia) ltac:(lia) E2) as (pte & b & ? & ?). by exists 2, (pte_location virt 2 g2), pte, b. }
  destruct (Hr 3 [] root ltac:(cbn; lia) ltac:(lia) eq_refl) as (pte & b & ? & ?). by exists 3, (pte_location virt 3 root), pte, b.
Qed.

(** Reading the leaf entry of an address and the page it holds. *)
Lemma read_leaf st root virt g :
  tree_wf (memory st) root -> node (memory st) root (leaf_path virt) = Some g ->
  exists table pte p f, memory st !! g = Some table /\ table !! idx virt 0 = Some pte /\
    read_pte (pte_location virt 0 g) st = (st, Ok pte) /\ is_frame p /\ is_flags f /\
    pte = Pte.set_phys p f /\
    target pte = (if PageTableFlags.is_present f then Some p else None) /\
    guard_load pte = (if PageTableFlags.is_present f then Ok (p, 0) else Err NoPage).
Proof.
  intros Ht Hg.
  destruct (read_entry st root (leaf_path virt) g virt 0 Ht) as (table & pte & Htab & Hpte & Hread & Hok & _);
    [cbn; lia|done|lia|]. change (is_leaf (leaf_path virt)) with true in Hok.
  destruct (entry_view _ _ Hok) as (p & f & Hp & Hf & Heq & _ & _ & _ & _ & Hfr & Hh & Htg).
  destruct (Hfr Hh) as [_ Htk]. rewrite Hh, andb_true_r in Htg. exists table, pte, p, f. done.
Qed.

(** [load_ok] takes the frame out of the leaf entry, if there is one. *)
Lemma load_ok_spec st root paths rest virt g :
  kernel_wf st root paths rest -> node (memory st) root (leaf_path virt) = Some g ->
  exists st' old paths', load_ok (pte_location virt 0 g) st = (st', Ok old) /\
    kernel_wf st' root paths' (opt_list old ++ rest) /\
    node (memory st') root (leaf_path virt) = Some g /\
    leaf_pte (memory st') root (leaf_path virt) (idx virt 0) = None /\
    (forall l i, length l = 3%nat -> ~ (l = leaf_path virt /\ i = idx virt 0) ->
       leaf_pte (memory st') root l i = leaf_pte (memory st) root l i).
Proof.
  intros Hk Hg. pose proof (kw_tree _ _ _ _ Hk) as Ht.
  destruct (read_leaf st root virt g Ht Hg) as (table & pte & p & f & Htab & Hpte & Hread & Hp & Hf & Heq & Htg & Htk).
  unfold load_ok. rewrite (bindM_ok _ _ _ _ _ Hread), Htk.
  destruct (PageTableFlags.is_present f) eqn:Ep.
  - destruct (kernel_write_leaf st root paths rest (leaf_path virt) g table (idx virt 0) pte 0 Hk eq_refl Hg
                Htab Hpte (zero_entry_ok true) (p :: rest)) as (paths' & Hk' & Hn' & _ & Hleaf);
      [by rewrite Htg|].
    exists (mkKmem (frames st) (<[g := <[idx virt 0 := 0]> table]> (memory st))), (Some p), paths'.
    unfold bindM. rewrite (write_entry st g virt 0 table pte) by (done || lia).
    split; [done|]. split; [done|]. split; [done|]. split.
    + rewrite Hleaf by done. by rewrite decide_True.
    + intros l i Hl Hne. rewrite Hleaf by done. by rewrite decide_False.
  - exists st, None, paths. do 3 (split; [done|]). split; [|done].
    unfold leaf_pte. rewrite Hg. cbn. rewrite Htab. cbn. rewrite Hpte. cbn. by rewrite Htg.
Qed.

(** Storing a guard into an unused leaf entry. *)
Lemma store_leaf_spec st root paths frame rest flags virt g :
  kernel_wf st root paths (frame :: rest) -> is_flags flags -> PageTableFlags.is_huge flags = false ->
  node (memory st) root (leaf_path virt) = Some g ->
  leaf_pte (memory st) root (leaf_path virt) (idx virt 0) = None ->
  exists st' pte paths', guard_store frame flags = Ok pte /\
    write_pte (pte_location virt 0 g) pte st = (st', Ok tt) /\
    kernel_wf st' root paths' rest /\
    node (memory st') root (leaf_path virt) = Some g /\
    leaf_pte (memory st') root (leaf_path virt) (idx virt 0) =
      Some (Pte.set_phys frame (Z.lor flags PageTableFlags.PRESENT)) /\
    (forall l i, length l = 3%nat -> ~ (l = leaf_path virt /\ i = idx virt 0) ->
       leaf_pte (memory st') root l i = leaf_pte (memory st) root l i).
Proof.
  intros Hk Hfl Hh Hg Hnone. pose proof (kw_tree _ _ _ _ Hk) as Ht.
  destruct (read_leaf st root virt g Ht Hg) as (table & old & p & f & Htab & Hpte & _ & _ & _ & _ & Htg & _).
  assert (is_frame frame) as Hframe by (apply (own_frames _ _ (kw_owned _ _ _ _ Hk)); left).
  set (pte := Pte.set_phys frame (Z.lor flags PageTableFlags.PRESENT)).
  assert (is_flags (Z.lor flags PageTableFlags.PRESENT)) as Hfl2
    by (apply is_flags_lor; [done|by apply is_flags_const]).
  assert (entry_ok true pte /\ target pte = Some frame) as [Hok Htp].
  { split.
    - eexists _, _. do 2 (split; [done|]). split; [done|]. by rewrite huge_lor, Hh.
    - unfold pte. by rewrite target_set_phys, huge_lor, present_lor, Hh, orb_true_r. }
  assert (target old = None) as Hto.
  { unfold leaf_pte in Hnone. rewrite Hg in Hnone. cbn in Hnone. rewrite Htab in Hnone. cbn in Hnone.
    rewrite Hpte in Hnone. cbn in Hnone. by destruct (target old). }
  destruct (kernel_write_leaf st root paths (frame :: rest) (leaf_path virt) g table (idx virt 0) old pte Hk eq_refl Hg
              Htab Hpte Hok rest) as (paths' & Hk' & Hn' & _ & Hleaf); [by rewrite Hto, Htp|].
  eexists _, pte, paths'. split.
  { unfold guard_store, Pte.set_frame. unfold PageTableFlags.is_huge in Hh. by rewrite Hh. }
  split; [by rewrite (write_entry st g virt 0 table old) by (done || lia)|]. split; [done|]. split; [done|]. split.
  - cbn [memory]. rewrite Hleaf by done. by rewrite decide_True, Htp.
  - intros l i Hl Hne. cbn [memory]. rewrite Hleaf by done. by rewrite decide_False.
Qed.

(** The second walk of [Path::map] records a complete path. *)
Lemma full_path mem root virt n0 n1 n2 g :
  node mem root (leaf_path virt) = Some g ->
  path_nodes mem root virt n0 n1 n2 = path_nodes mem root virt None None None.
Proof.
  intros Hg. unfold path_nodes, node_at. unfold leaf_path in Hg.
  destruct (node mem root [idx virt 3]) as [g2|] eqn:E2.
  2:{ by rewrite (node_prefix _ _ [idx virt 3] [idx virt 2; idx virt 1] E2 : node mem root [idx virt 3; idx virt 2; idx virt 1] = None) in Hg. }
  destruct (node mem root [idx virt 3; idx virt 2]) as [g1|] eqn:E1.
  2:{ by rewrite (node_prefix _ _ [idx virt 3; idx virt 2] [idx virt 1] E1 : node mem root [idx virt 3; idx virt 2; idx virt 1] = None) in Hg. }
  by rewrite Hg.
Qed.

Lemma walk_any st root virt old :
  tree_wf (memory st) root -> length old = 4%nat -> is_Some (node (memory st) root (leaf_path virt)) ->
  walk virt LEVELS root old st = (st, Ok (path_nodes (memory st) root virt None None None)).
Proof.
  intros Ht Hlen [g Hg]. destruct old as [|n0 [|n1 [|n2 [|n3 [|? ?]]]]]; try done.
  rewrite walk_spec by done. by rewrite (full_path _ _ _ n0 n1 n2 g).
Qed.

Lemma path_map_spec st root paths frame rest flags virt :
  kernel_wf st root paths (frame :: rest) -> is_flags flags -> PageTableFlags.is_huge flags = false ->
  (exists st' paths', path_map (fresh_path (memory st) root virt) frame flags st =
       (st', Ok (fresh_path (memory st') root virt)) /\
     kernel_wf st' root paths' rest /\
     leaf_pte (memory st') root (leaf_path virt) (idx virt 0) =
       Some (Pte.set_phys frame (Z.lor flags PageTableFlags.PRESENT)) /\
     (forall l i, length l = 3%nat -> ~ (l = leaf_path virt /\ i = idx virt 0) ->
        leaf_pte (memory st') root l i = leaf_pte (memory st) root l i)) \/
  (exists st' e paths', path_map (fresh_path (memory st) root virt) frame flags st = (st', Err e) /\
     (e = NoFrame \/ e = Unimplemented) /\ kernel_wf st' root paths' rest /\
     same_leaves (memory st) (memory st') root).
Proof.
  intros Hk Hfl Hh. pose proof (kw_tree _ _ _ _ Hk) as Ht. unfold path_map.
  destruct (deepest_spec st root virt Ht) as (level & loc & pte & huge & Hd & Hread & Hhuge).
  rewrite Hd, bindM_lift, (bindM_ok _ _ _ _ _ Hread), Hhuge, bindM_lift. destruct huge.
  { right. destruct (@kernel_fail Path st root paths frame rest Unimplemented Hk) as (st' & E & Hm & Hk').
    exists st', Unimplemented, paths. rewrite Hm. split; [done|]. split; [by right|]. split; [done|apply same_leaves_refl]. }
  cbn [Mapping.virt path_root fresh_path Mapping.nodes].
  destruct (map_levels_spec [3; 2; 1] st root paths frame rest flags virt [] root Hk Hfl) as
    [(st1 & g & paths1 & E1 & Hk1 & Hs1 & Hn1)|(st1 & e & paths1 & E1 & He & Hk1 & Hs1)];
    [repeat constructor; lia|cbn; lia|done| |].
  2:{ right. rewrite (bindM_err _ _ _ _ _ E1). eauto 10. }
  left. rewrite (bindM_ok _ _ _ _ _ E1). change (node (memory st1) root (leaf_path virt) = Some g) in Hn1.
  destruct (load_ok_spec st1 root paths1 (frame :: rest) virt g Hk1 Hn1)
    as (st2 & old & paths2 & E2 & Hk2 & Hn2 & Hnone & Hl2).
  rewrite (bindM_ok _ _ _ _ _ E2).
  assert (kernel_wf st2 root paths2 (frame :: opt_list old ++ rest)) as Hk2'.
  { destruct Hk2 as [? Ho ? ? ?]. split; [done| |done..]. eapply owned_perm; [|exact Ho].
    destruct old; [|done]. cbn. apply perm_swap. }
  destruct (store_leaf_spec st2 root paths2 frame (opt_list old ++ rest) flags virt g Hk2' Hfl Hh Hn2 Hnone)
    as (st3 & pte' & paths3 & E3 & E4 & Hk3 & Hn3 & Hpte & Hl3).
  pose proof (kw_tree _ _ _ _ Hk3) as Ht3.
  rewrite E3, bindM_lift, (bindM_ok _ _ _ _ _ E4).
  rewrite (bindM_ok _ _ _ _ _ (walk_any st3 root virt (path_nodes (memory st) root virt None None None)
             Ht3 eq_refl ltac:(by eexists))).
  rewrite (bindM_ok _ _ _ _ _ (validate_path st3 root virt Ht3)).
  assert (forall l i, length l = 3%nat -> ~ (l = leaf_path virt /\ i = idx virt 0) ->
            leaf_pte (memory st3) root l i = leaf_pte (memory st) root l i) as Hothers.
  { intros l i Hl Hne. by rewrite Hl3, Hl2, Hs1. }
  destruct old as [o|]; cbn [opt_list app] in Hk3.
  - destruct (kernel_drop st3 root paths3 o rest Hk3) as (st4 & E5 & Hm & Hk4).
    rewrite (bindM_ok _ _ _ _ _ E5). exists st4, paths3. rewrite Hm. done.
  - exists st3, paths3. done.
Qed.

Lemma path_unmap_spec st root paths rest virt :
  kernel_wf st root paths rest ->
  match leaf_pte (memory st) root (leaf_path virt) (idx virt 0) with
  | Some _ => exists st' paths', path_unmap (fresh_path (memory st) root virt) st = (st', Ok tt) /\
      kernel_wf st' root paths' rest /\
      leaf_pte (memory st') root (leaf_path virt) (idx virt 0) = None /\
      (forall l i, length l = 3%nat -> ~ (l = leaf_path virt /\ i = idx virt 0) ->
         leaf_pte (memory st') root l i = leaf_pte (memory st) root l i)
  | None => exists e, path_unmap (fresh_path (memory st) root virt) st = (st, Err e) /\
      (e = NoPage \/ e = Unimplemented)
  end.
Proof.
  intros Hk. pose proof (kw_tree _ _ _ _ Hk) as Ht. pose proof (path_get_spec st root virt Ht) as Hget.
  unfold path_unmap, leaf_pte at 1.
  destruct (node (memory st) root (leaf_path virt)) as [g|] eqn:Eg; cbn [mbind option_bind].
  2:{ destruct Hget as (e & E & He). rewrite (bindM_err _ _ _ _ _ E). eauto. }
  rewrite (bindM_ok _ _ _ _ _ Hget).
  destruct (read_leaf st root virt g Ht Eg) as (table & pte & p & f & Htab & Hpte & Hread & Hp & Hf & Heq & Htg & Htk).
  rewrite Htab. cbn [mbind option_bind]. rewrite Hpte. cbn [mbind option_bind]. rewrite Htg.
  rewrite (bindM_ok _ _ _ _ _ Hread), Htk.
  destruct (PageTableFlags.is_present f); [|by exists NoPage; auto]. rewrite bindM_lift.
  destruct (kernel_write_leaf st root paths rest (leaf_path virt) g table (idx virt 0) pte 0 Hk eq_refl Eg
              Htab Hpte (zero_entry_ok true) (p :: rest)) as (paths' & Hk' & Hn' & _ & Hleaf); [by rewrite Htg|].
  set (st1 := mkKmem (frames st) (<[g := <[idx virt 0 := 0]> table]> (memory st))) in *.
  rewrite (bindM_ok _ _ st st1 tt) by (by rewrite (write_entry st g virt 0 table pte) by (done || lia)).
  assert (fresh_path (memory st) root virt = fresh_path (memory st1) root virt) as ->.
  { unfold fresh_path, path_nodes, node_at. f_equal.
    assert (forall q, (length q <= 3)%nat -> node (memory st1) root q = node (memory st) root q) as Hq.
    { intros q Hq. unfold st1. cbn [memory].
      rewrite (leaf_node st root paths rest (leaf_path virt) g table (idx virt 0) pte 0 Hk eq_refl Eg Htab Hpte) by lia.
      rewrite decide_False; [done|]. intros ->. cbn in Hq. lia. }
    by rewrite !Hq by (cbn; lia). }
  rewrite (bindM_ok _ _ _ _ _ (validate_path st1 root virt (kw_tree _ _ _ _ Hk'))).
  destruct (kernel_drop st1 root paths' p rest Hk') as (st2 & -> & Hm & Hk2).
  exists st2, paths'. rewrite Hm. split; [done|]. split; [done|]. split.
  - rewrite Hleaf by done. by rewrite decide_True.
  - intros l i Hl Hne. rewrite Hleaf by done. by rewrite decide_False.
Qed.

(** What a page is mapped to is the same in two states, errors not distinguished. *)
Definition same_mapping (st st' : Kmem) (root virt : Z) : Prop :=
  match resolve root virt st with
  | (_, Ok r) => resolve root virt st' = (st', Ok r)
  | _ => exists e, resolve root virt st' = (st', Err e)
  end.

Lemma same_mapping_leaf st st' root virt :
  tree_wf (memory st) root -> tree_wf (memory st') root ->
  leaf_pte (memory st') root (leaf_path virt) (idx virt 0) = leaf_pte (memory st) root (leaf_path virt) (idx virt 0) ->
  same_mapping st st' root virt.
Proof.
  intros Ht Ht' Heq. unfold same_mapping.
  pose proof (resolve_spec st root virt Ht) as H. pose proof (resolve_spec st' root virt Ht') as H'. rewrite Heq in H'.
  destruct (leaf_pte (memory st) root (leaf_path virt) (idx virt 0)) as [pte|].
  - destruct H as (p & f & Hp & Hf & E & ->). destruct H' as (p' & f' & Hp' & Hf' & E' & ->).
    subst pte. by destruct (set_phys_inj p f p' f' Hp Hf Hp' Hf' E') as [-> ->].
  - destruct H as (e & ->). done.
Qed.

(** ** Mapping and unmapping at an address *)

Lemma idx_page a b level : 0 <= level -> a / 4096 = b / 4096 -> idx a level = idx b level.
Proof.
  intros Hl H. unfold idx. rewrite !page_table_index_div by done.
  assert (forall x, x / 2 ^ (12 + level * 9) = x / 4096 / 2 ^ (level * 9)) as Hdiv.
  { intros x. rewrite Z.pow_add_r by lia. change (2 ^ 12) with 4096.
    rewrite Z.div_div; [done|lia|]. apply Z.pow_pos_nonneg; lia. }
  by rewrite !Hdiv, H.
Qed.

Lemma page_differs a b :
  canonical a -> canonical b -> a / 4096 <> b / 4096 -> ~ (leaf_path a = leaf_path b /\ idx a 0 = idx b 0).
Proof. intros Ha Hb Hne [Hl H0]. by apply Hne, indexes_page. Qed.

(** The composition the kernel uses to map and to unmap a page. *)
Definition map_at (root virt frame flags : Z) : M Kmem Path :=
  let! path := mapping_path root virt in path_map path frame flags.

Definition unmap_at (root virt : Z) : M Kmem unit :=
  let! path := mapping_path root virt in path_unmap path.

Lemma map_at_spec st root paths frame rest flags virt :
  kernel_wf st root paths (frame :: rest) -> is_flags flags ->
  PageTableFlags.is_huge flags = false -> canonical virt ->
  (exists st' path paths', map_at root virt frame flags st = (st', Ok path) /\
     kernel_wf st' root paths' rest /\
     (forall v, canonical v -> v / 4096 = virt / 4096 ->
        resolve root v st' = (st', Ok (frame, Z.lor flags PageTableFlags.PRESENT))) /\
     (forall v, canonical v -> v / 4096 <> virt / 4096 -> same_mapping st st' root v)) \/
  (exists st' e paths', map_at root virt frame flags st = (st', Err e) /\
     (e = NoFrame \/ e = Unimplemented) /\ kernel_wf st' root paths' rest /\
     forall v, same_mapping st st' root v).
Proof.
  intros Hk Hfl Hh Hv. pose proof (kw_tree _ _ _ _ Hk) as Ht. unfold map_at.
  rewrite (bindM_ok _ _ _ _ _ (mapping_path_spec st root virt Ht)).
  destruct (path_map_spec st root paths frame rest flags virt Hk Hfl Hh) as
    [(st' & paths' & E & Hk' & Hpte & Hoth)|(st' & e & paths' & E & He & Hk' & Hs)]; [left|right].
  - pose proof (kw_tree _ _ _ _ Hk') as Ht'. exists st', (fresh_path (memory st') root virt), paths'.
    split; [done|]. split; [done|]. split.
    + intros v Hcv Hp. pose proof (resolve_spec st' root v Ht') as Hr.
      unfold leaf_path in *. rewrite !(idx_page v virt) in Hr by (done || lia). rewrite Hpte in Hr.
      destruct Hr as (p & f & Hp' & Hf' & Heq & ->).
      apply set_phys_inj in Heq as [<- <-]; [done| | |done|done].
      * apply (own_frames _ _ (kw_owned _ _ _ _ Hk)). left.
      * apply is_flags_lor; [done|by apply is_flags_const].
    + intros v Hcv Hp. apply same_mapping_leaf; [done..|]. apply Hoth; [done|]. by apply page_differs.
  - exists st', e, paths'. do 3 (split; [done|]). intros v.
    apply same_mapping_leaf; [done|apply (kw_tree _ _ _ _ Hk')|]. by apply Hs.
Qed.

Lemma unmap_at_spec st root paths rest virt :
  kernel_wf st root paths rest -> canonical virt ->
  (exists r st' paths', resolve root virt st = (st, Ok r) /\ unmap_at root virt st = (st', Ok tt) /\
     kernel_wf st' root paths' rest /\
     (forall v, canonical v -> v / 4096 = virt / 4096 -> exists e, resolve root v st' = (st', Err e)) /\
     (forall v, canonical v -> v / 4096 <> virt / 4096 -> same_mapping st st' root v)) \/
  (exists e e', resolve root virt st = (st, Err e) /\ unmap_at root virt st = (st, Err e') /\
     (e' = NoPage \/ e' = Unimplemented)).
Proof.
  intros Hk Hv. pose proof (kw_tree _ _ _ _ Hk) as Ht. unfold unmap_at.
  rewrite (bindM_ok _ _ _ _ _ (mapping_path_spec st root virt Ht)).
  pose proof (path_unmap_spec st root paths rest virt Hk) as Hu. pose proof (resolve_spec st root virt Ht) as Hr.
  destruct (leaf_pte (memory st) root (leaf_path virt) (idx virt 0)) as [pte|]; [left|right].
  - destruct Hr as (p & f & _ & _ & _ & Hr). destruct Hu as (st' & paths' & E & Hk' & Hnone & Hoth).
    pose proof (kw_tree _ _ _ _ Hk') as Ht'. exists (p, f), st', paths'. do 3 (split; [done|]). split.
    + intros v Hcv Hp. pose proof (resolve_spec st' root v Ht') as Hr'.
      unfold leaf_path in *. rewrite !(idx_page v virt) in Hr' by (done || lia). by rewrite Hnone in Hr'.
    + intros v Hcv Hp. apply same_mapping_leaf; [done..|]. apply Hoth; [done|]. by apply page_differs.
  - destruct Hr as (e & Hr). destruct Hu as (e' & E & He). eauto 10.
Qed.

(** ** Facts the clients of a mapping use *)

Lemma same_mapping_refl st root v : tree_wf (memory st) root -> same_mapping st st root v.
Proof. intros Ht. by apply same_mapping_leaf. Qed.

Lemma same_mapping_trans st1 st2 st3 root v :
  same_mapping st1 st2 root v -> same_mapping st2 st3 root v -> same_mapping st1 st3 root v.
Proof.
  unfold same_mapping. intros H1 H2. destruct (resolve root v st1) as [s1 [r|e|]].
  - by rewrite H1 in H2.
  - destruct H1 as (e1 & H1). by rewrite H1 in H2.
  - destruct H1 as (e1 & H1). by rewrite H1 in H2.
Qed.

(** The addresses of a page resolve alike. *)
Lemma resolve_page st root a b :
  tree_wf (memory st) root -> a / 4096 = b / 4096 ->
  forall r, resolve root a st = (st, Ok r) -> resolve root b st = (st, Ok r).
Proof.
  intros Ht Hp r Hr. pose proof (resolve_spec st root a Ht) as Ha. pose proof (resolve_spec st root b Ht) as Hb.
  unfold leaf_path in *. rewrite !(idx_page a b) in Ha by (done || lia).
  destruct (leaf_pte _ _ _ _) as [pte|].
  - destruct Ha as (p & f & Hp1 & Hf1 & -> & Ha). destruct Hb as (p' & f' & Hp2 & Hf2 & Heq & ->).
    apply set_phys_inj in Heq as [<- <-]; [|done..]. by rewrite Hr in Ha.
  - destruct Ha as (e & Ha). by rewrite Hr in Ha.
Qed.

Lemma resolve_total st root v :
  tree_wf (memory st) root ->
  (exists p f, resolve root v st = (st, Ok (p, f)) /\ is_frame p /\ is_flags f) \/
  (exists e, resolve root v st = (st, Err e)).
Proof.
  intros Ht. pose proof (resolve_spec st root v Ht) as Hr. destruct (leaf_pte _ _ _ _) as [pte|]; [left|by right].
  destruct Hr as (p & f & Hp & Hf & _ & Hr). eauto.
Qed.

(** The frame of a mapped page is one of the references the mapping owns. *)
Lemma resolve_in_refs st root paths rest v g fl :
  kernel_wf st root paths rest -> resolve root v st = (st, Ok (g, fl)) -> g ∈ refs (memory st) root paths.
Proof.
  intros Hk Hr. pose proof (resolve_spec st root v (kw_tree _ _ _ _ Hk)) as Hs.
  destruct (leaf_pte (memory st) root (leaf_path v) (idx v 0)) as [pte|] eqn:E.
  2:{ destruct Hs as (e & Hs). by rewrite Hr in Hs. }
  destruct Hs as (p & f & Hp & Hf & -> & Hs). rewrite Hr in Hs. injection Hs as <- <-.
  unfold leaf_pte in E. destruct (node (memory st) root (leaf_path v)) as [t|] eqn:En; [|done]. cbn [mbind option_bind] in E.
  destruct (memory st !! t) as [table|] eqn:Et; [|done]. cbn [mbind option_bind] in E.
  destruct (table !! idx v 0) as [pte|] eqn:Ep; [|done]. cbn [mbind option_bind] in E.
  destruct (target pte) as [x|] eqn:Ex; [|done]. injection E as ->.
  assert (node (memory st) root (leaf_path v ++ [idx v 0]) = Some x) as Hn.
  { rewrite node_snoc, En. cbn [mbind option_bind]. unfold child. rewrite Et. cbn [mbind option_bind]. by rewrite Ep. }
  assert (x = g) as ->.
  { pose proof (set_phys_frame g fl Hp Hf) as Hfr. unfold target in Ex.
    destruct (Pte.is_huge _) as [[|]| |] eqn:Eh; [done| |done..].
    unfold Pte.is_huge in Eh. rewrite set_phys_flags in Eh by done. injection Eh as Eh.
    rewrite (Hfr Eh) in Ex. destruct (PageTableFlags.is_present fl); [by injection Ex|done]. }
  apply list_elem_of_fmap. exists (leaf_path v ++ [idx v 0]). rewrite Hn. split; [done|].
  apply (kw_paths _ _ _ _ Hk). split; [cbn; lia|by eexists].
Qed.

(** Taking a frame from the allocator. *)
Lemma kernel_allocate st root paths rest :
  kernel_wf st root paths rest ->
  with_frames allocate st = (st, Err NoFrame) \/
  exists st' f, with_frames allocate st = (st', Ok f) /\ memory st' = memory st /\
    (f ∉ rest ++ root :: refs (memory st) root paths) /\ kernel_wf st' root paths (f :: rest).
Proof.
  intros [Ht Ho Hnd Hp Hm]. pose proof (own_wf _ _ Ho) as Hwf. unfold with_frames.
  destruct (allocate_cases (frames st) Hwf) as
    [(_ & _ & ->)|(_ & i & next & fa' & _ & _ & _ & E & Hfi & _)]; [left; by destruct st|right].
  destruct (owned_allocate _ _ _ _ Ho E) as [Hf Ho']. rewrite E. eexists _, _. split; [done|].
  split; [done|]. split; [done|]. split; [done|done|done|done|]. cbn. by rewrite Hfi, length_insert.
Qed.

(** Duplicating a reference that is held. *)
Lemma kernel_reference st root paths rest f :
  kernel_wf st root paths rest -> f ∈ rest ++ root :: refs (memory st) root paths ->
  references (rest ++ root :: refs (memory st) root paths) f < USIZE_MAX ->
  exists st', with_frames (reference f) st = (st', Ok f) /\ memory st' = memory st /\
    kernel_wf st' root paths (f :: rest).
Proof.
  intros [Ht Ho Hnd Hp Hm] Hin Hcnt.
  destruct (owned_refer _ _ _ Ho Hin Hcnt) as (fa' & E & Ho' & Hlen).
  unfold with_frames. rewrite E. eexists. split; [done|]. split; [done|].
  by split; [done|exact Ho'|done|done|cbn; rewrite Hlen].
Qed.

(** ** Theorems *)

(** C1.  Mapping a page.  From any consistent state, mapping a frame at a virtual
    address never panics and keeps every invariant (the tables form a tree, every
    entry owns one reference to its frame).  On success every address of the page
    resolves to the given frame with the given flags and every other page resolves
    as before.  On failure, [NoFrame] or [Unimplemented], the caller's reference
    is released and every page resolves as before. *)
Theorem map_page_correct st root paths frame rest flags virt :
  kernel_wf st root paths (frame :: rest) -> is_flags flags ->
  PageTableFlags.is_huge flags = false -> canonical virt ->
  (exists st' path paths', map_at root virt frame flags st = (st', Ok path) /\
     kernel_wf st' root paths' rest /\
     (forall v, canonical v -> v / 4096 = virt / 4096 ->
        resolve root v st' = (st', Ok (frame, Z.lor flags PageTableFlags.PRESENT))) /\
     (forall v, canonical v -> v / 4096 <> virt / 4096 -> same_mapping st st' root v)) \/
  (exists st' e paths', map_at root virt frame flags st = (st', Err e) /\
     (e = NoFrame \/ e = Unimplemented) /\ kernel_wf st' root paths' rest /\
     forall v, same_mapping st st' root v).
Proof. apply map_at_spec. Qed.

(** C2.  Unmapping a page.  If the page is mapped, unmapping succeeds, afterwards no
    address of the page resolves, every other page resolves as before, the
    reference the entry owned is released and all invariants are kept.  If it is
    not mapped, the answer is [NoPage] or [Unimplemented] and nothing changes. *)
Theorem unmap_page_correct st root paths rest virt :
  kernel_wf st root paths rest -> canonical virt ->
  (exists r st' paths', resolve root virt st = (st, Ok r) /\ unmap_at root virt st = (st', Ok tt) /\
     kernel_wf st' root paths' rest /\
     (forall v, canonical v -> v / 4096 = virt / 4096 -> exists e, resolve root v st' = (st', Err e)) /\
     (forall v, canonical v -> v / 4096 <> virt / 4096 -> same_mapping st st' root v)) \/
  (exists e e', resolve root virt st = (st, Err e) /\ unmap_at root virt st = (st, Err e') /\
     (e' = NoPage \/ e' = Unimplemented)).
Proof. apply unmap_at_spec. Qed.

(** ** Witnesses *)

(** Six frames of physical memory; frame 0 is an empty root table, frame 1 is held
    by the caller, frames 2, 3 and 4 are free. *)
Definition sample_kmem : Kmem :=
  mkKmem FrameAllocator.sample
    (list_to_map ((fun i => (i * L0_SIZE, empty_table)) <$> [0; 1; 2; 3; 4; 5])).

Lemma sample_kernel_wf : kernel_wf sample_kmem 0 [] [4096].
Proof.
  assert (memory sample_kmem !! 0 = Some empty_table) as H0 by (vm_compute; reflexivity).
  assert (forall i, child (memory sample_kmem) 0 i = None) as Hc.
  { intros i. unfold child. rewrite H0. cbn [mbind option_bind].
    destruct (empty_table !! i) as [x|] eqn:Ex; [|done]. by apply lookup_replicate in Ex as [-> _]. }
  assert (forall l f, node (memory sample_kmem) 0 l = Some f -> l = [] /\ f = 0) as Hn.
  { intros [|i l] f; cbn; [by intros [= <-]|]. by rewrite Hc. }
  split.
  - split.
    + intros l f _ [-> ->]%Hn. exists empty_table. split; [done|apply empty_table_ok].
    + intros l1 l2 f _ _ [-> _]%Hn [-> _]%Hn. done.
  - eapply owned_perm; [|apply sample_owned]. cbn. apply perm_swap.
  - constructor.
  - intros l. split; [by intros H%not_elem_of_nil|]. intros [Hl [f [-> _]%Hn]]. cbn in Hl. lia.
  - intros i Hi. cbn in Hi. assert (i = 0 \/ i = 1 \/ i = 2 \/ i = 3 \/ i = 4 \/ i = 5) as Hcases by lia.
    destruct Hcases as [->|[->|[->|[->|[->| ->]]]]]; vm_compute; eauto.
Qed.

Lemma map_page_correct_witness :
  exists st path, map_at 0 20480 4096 USER_RW sample_kmem = (st, Ok path) /\
    resolve 0 20500 st = (st, Ok (4096, USER_RW)).
Proof.
  destruct (map_page_correct sample_kmem 0 [] 4096 [] USER_RW 20480)
    as [(st & path & ps & H1 & _ & H2 & _)|(st & e & ps & H & _)].
  - apply sample_kernel_wf.
  - by apply is_flags_const.
  - reflexivity.
  - unfold canonical. lia.
  - exists st, path. split; [exact H1|]. apply H2; [unfold canonical; lia|reflexivity].
  - exfalso. assert (is_ok (map_at 0 20480 4096 USER_RW sample_kmem).2 = true) as Hok by (vm_compute; reflexivity).
    rewrite H in Hok. discriminate Hok.
Defined.

Lemma unmap_page_correct_witness : unmap_at 0 20480 sample_kmem = (sample_kmem, Err NoPage).
Proof.
  destruct (unmap_page_correct sample_kmem 0 [] [4096] 20480)
    as [(r & st & ps & H & _)|(e & e' & _ & H & _)].
  - apply sample_kernel_wf.
  - unfold canonical. lia.
  - exfalso. assert (is_ok (resolve 0 20480 sample_kmem).2 = false) as Hok by (vm_compute; reflexivity).
    rewrite H in Hok. discriminate Hok.
  - rewrite H. f_equal. assert ((unmap_at 0 20480 sample_kmem).2 = Err NoPage) as Hok by (vm_compute; reflexivity).
    rewrite H in Hok. exact Hok.
Defined.
