(* ===== verification/MappingTree.v ===== *)
(** * MappingTree: operations on whole page table trees

    Models the recursive operations of [kernel/src/memory/mapping.rs]:
    [drop_subtree], which releases a mapping or the tables nothing is mapped
    through, and [duplicate_subtree], which copies the kernel part of a mapping.
    Both recurse over the four levels of the tree, so they are structural on the
    level of the node. *)

From Stdlib Require Import ZArith Lia.
From stdpp Require Import base list numbers tactics gmap sorting.
From S2P Require Import Prelude Addr Frage Block Mmu FrameAllocator Mapping.

Open Scope Z_scope.
Open Scope outcome_scope.

(** ** Operations *)

(** One iteration of the loop of [drop_subtree]: [descend] is the recursive call,
    absent at the leaf level.  The result is [has_used_entries]. *)
Definition drop_entry (descend : option (Z -> M Kmem bool)) (drop_used : bool) (node i : Z)
    (has_used_entries : bool) : M Kmem bool :=
  let! pte := read_pte (node, i) in
  let! present := liftM (Pte.is_present pte) in
  if negb present then retM has_used_entries
  else
    let! huge := liftM (Pte.is_huge pte) in
    if huge : bool then retM (if drop_used then has_used_entries else true)
    else
      match Pte.frame pte with
      | Ok frame =>
          let! delete :=
            match descend with
            | Some descend => let! child_deleted := descend frame in retM (drop_used || child_deleted)
            | None => retM drop_used
            end in
          if delete : bool then
            let! _ := with_frames (deallocate frame) in
            let! _ := write_pte (node, i) Pte.clear in
            retM has_used_entries
          else retM true
      | Err _ => retM has_used_entries
      | Panic => liftM Panic
      end.

Fixpoint drop_entries (descend : option (Z -> M Kmem bool)) (drop_used : bool) (node : Z)
    (entries : list Z) (has_used_entries : bool) : M Kmem bool :=
  match entries with
  | [] => retM has_used_entries
  | i :: entries =>
      let! has_used_entries := drop_entry descend drop_used node i has_used_entries in
      drop_entries descend drop_used node entries has_used_entries
  end.

Definition ENTRIES : list Z := seqZ 0 PAGE_TABLE_ENTRY_COUNT.

Fixpoint drop_subtree (level : nat) (drop_used : bool) (node : Z) : M Kmem bool :=
  let descend :=
    match level with
    | O => None
    | S level => Some (drop_subtree level drop_used)
    end in
  let! has_used_entries := drop_entries descend drop_used node ENTRIES false in
  retM (drop_used || negb has_used_entries).

(** [Drop] of a mapping; [current] is the root of the page table the processor
    uses. *)
Definition mapping_drop (current root : Z) : M Kmem unit :=
  if current =? root then liftM Panic
  else
    let! _ := drop_subtree 3 true root in
    with_frames (deallocate root).

Definition unmap_unused_intermediate (root : Z) : M Kmem unit :=
  let! deleted := drop_subtree 3 false root in
  liftM (if deleted : bool then Panic else Ok tt).

(** The branches of the loop of [duplicate_subtree] that do not recurse. *)
Definition duplicate_leaf (dst_frame i src_pte : Z) : M Kmem unit :=
  let! user := liftM (Pte.is_user src_pte) in
  if user : bool then write_pte (dst_frame, i) Pte.clear
  else
    let! _ := write_pte (dst_frame, i) src_pte in
    match Pte.frame src_pte with
    | Ok frame => let! _ := with_frames (reference frame) in retM tt
    | Err _ => retM tt
    | Panic => liftM Panic
    end.

Definition duplicate_child (descend : Z -> M Kmem Z) (dst_frame i src_pte : Z) : M Kmem unit :=
  match Pte.frame src_pte with
  | Ok child_frame =>
      let! child_dst_frame := descend child_frame in
      let! flags := liftM (Pte.flags src_pte) in
      let! pte := liftM (Pte.set_frame child_dst_frame flags) in
      write_pte (dst_frame, i) pte
  | Err _ => write_pte (dst_frame, i) Pte.clear
  | Panic => liftM Panic
  end.

Definition duplicate_entry (descend : option (Z -> M Kmem Z)) (src_frame dst_frame i : Z) : M Kmem unit :=
  let! src_pte := read_pte (src_frame, i) in
  let! present := liftM (Pte.is_present src_pte) in
  if negb present then write_pte (dst_frame, i) Pte.clear
  else
    let! huge := liftM (Pte.is_huge src_pte) in
    if huge : bool then write_pte (dst_frame, i) src_pte
    else
      match descend with
      | None => duplicate_leaf dst_frame i src_pte
      | Some descend => duplicate_child descend dst_frame i src_pte
      end.

Fixpoint duplicate_entries (descend : option (Z -> M Kmem Z)) (src_frame dst_frame : Z)
    (entries : list Z) : M Kmem unit :=
  match entries with
  | [] => retM tt
  | i :: entries =>
      let! _ := duplicate_entry descend src_frame dst_frame i in
      duplicate_entries descend src_frame dst_frame entries
  end.

(** An error inside the loop drops the guard of the node under construction. *)
Fixpoint duplicate_subtree (level : nat) (src_frame : Z) : M Kmem Z :=
  let descend :=
    match level with
    | O => None
    | S level => Some (duplicate_subtree level)
    end in
  let! dst_frame := allocate_node in
  fun st =>
    match duplicate_entries descend src_frame dst_frame ENTRIES st with
    | (st, Ok _) => (st, Ok dst_frame)
    | (st, Err e) => fail_dropping dst_frame e st
    | (st, Panic) => (st, Panic)
    end.

(** [Mapping::duplicate]: the result under construction is a mapping whose root is
    [Frame::default()], the frame 0, until the copy is complete; an error drops
    it as a mapping. *)
Definition duplicate (current root : Z) : M Kmem Z := fun st =>
  match duplicate_subtree 3 root st with
  | (st, Ok dst) => (st, Ok dst)
  | (st, Err e) => (let! _ := mapping_drop current 0 in liftM (Err e)) st
  | (st, Panic) => (st, Panic)
  end.

(** ** Entries of the tree *)

(** The entry [j] of the table at [q]. *)
Definition entry (mem : gmap Z (list Z)) (root : Z) (q : list nat) (j : nat) : option Z :=
  g ← node mem root q; table ← mem !! g; table !! j.

Lemma node_entry mem root q j : node mem root (q ++ [j]) = (entry mem root q j ≫= target).
Proof.
  rewrite node_snoc. unfold entry, child. destruct (node mem root q) as [g|]; [|done]. cbn.
  by destruct (mem !! g).
Qed.

Lemma leaf_entry mem root q j :
  leaf_pte mem root q j = (pte ← entry mem root q j; match target pte with Some _ => Some pte | None => None end).
Proof.
  unfold leaf_pte, entry. destruct (node mem root q) as [g|]; [|done]. cbn. by destruct (mem !! g).
Qed.

(** An entry that maps memory: a present huge entry, or a present entry of a leaf
    table. *)
Definition used (q : list nat) (pte : Z) : Prop :=
  Pte.is_present pte = Ok true /\ (Pte.is_huge pte = Ok true \/ length q = 3%nat).

(** Some memory is mapped through the entry or table at [L]. *)
Definition useful (mem : gmap Z (list Z)) (root : Z) (L : list nat) : Prop :=
  exists q j pte, L `prefix_of` q ++ [j] /\ (length q <= 3)%nat /\
    entry mem root q j = Some pte /\ used q pte.

(** Two memories that have the same mapped memory. *)
Definition keeps (mem mem' : gmap Z (list Z)) (root : Z) : Prop :=
  forall q j pte, (length q <= 3)%nat -> used q pte ->
    (entry mem' root q j = Some pte <-> entry mem root q j = Some pte).

(** No table or page is reached that was not reached before. *)
Definition shrinks (mem mem' : gmap Z (list Z)) (root : Z) : Prop :=
  forall q f, (length q <= 4)%nat -> node mem' root q = Some f -> node mem root q = Some f.

Lemma shrinks_refl mem root : shrinks mem mem root.
Proof. by intros q f _. Qed.

(** Two memories that differ only below [L], and only below or at [L]. *)
Definition same_outside (mem mem' : gmap Z (list Z)) (root : Z) (L : list nat) : Prop :=
  forall q j, (length q <= 3)%nat -> ~ L `prefix_of` q -> entry mem' root q j = entry mem root q j.

Definition same_beside (mem mem' : gmap Z (list Z)) (root : Z) (L : list nat) : Prop :=
  forall q j, (length q <= 3)%nat -> ~ L `prefix_of` q ++ [j] -> entry mem' root q j = entry mem root q j.

(** Something is mapped through each table below [L]. *)
Definition tidy (mem : gmap Z (list Z)) (root : Z) (L : list nat) : Prop :=
  forall q, L `prefix_of` q -> (length q <= 3)%nat -> is_Some (node mem root q) -> useful mem root q.

Lemma keeps_refl mem root : keeps mem mem root.
Proof. done. Qed.

Lemma keeps_trans mem1 mem2 mem3 root : keeps mem1 mem2 root -> keeps mem2 mem3 root -> keeps mem1 mem3 root.
Proof. intros H1 H2 q j pte Hq Hu. by rewrite (H2 q j pte Hq Hu), (H1 q j pte Hq Hu). Qed.

Lemma useful_up mem root L L' : L `prefix_of` L' -> useful mem root L' -> useful mem root L.
Proof. intros Hp (q & j & pte & Hq & H). exists q, j, pte. split; [by etrans|done]. Qed.

(** Two memories that agree at and below [L]. *)
Definition agree (mem mem' : gmap Z (list Z)) (root : Z) (L : list nat) : Prop :=
  forall q j, (length q <= 3)%nat -> L `prefix_of` q ++ [j] -> entry mem' root q j = entry mem root q j.

Section Agree.
  Context (mem mem' : gmap Z (list Z)) (root : Z) (L : list nat) (Ha : agree mem mem' root L).

Lemma agree_node q :
  (1 <= length L)%nat -> L `prefix_of` q -> (length q <= 4)%nat -> node mem' root q = node mem root q.
Proof using Ha.
  intros HL Hp Hq. destruct q as [|j q _] using rev_ind.
  - apply prefix_length in Hp. cbn in Hp. lia.
  - rewrite length_app in Hq. cbn in Hq. by rewrite !node_entry, Ha by (done || lia).
Qed.

Lemma agree_useful : useful mem' root L <-> useful mem root L.
Proof using Ha.
  split; intros (q & j & pte & Hq & Hl & He & Hu); exists q, j, pte; (do 2 (split; [done|])); (split; [|done]).
  - by rewrite <- Ha.
  - by rewrite Ha.
Qed.

Lemma agree_below L' : L `prefix_of` L' -> agree mem mem' root L'.
Proof using Ha. intros Hp q j Hq HL. apply Ha; [done|by etrans]. Qed.

End Agree.

Lemma agree_tidy mem mem' root L :
  agree mem mem' root L -> (1 <= length L)%nat -> tidy mem root L -> tidy mem' root L.
Proof.
  intros Ha HL Ht q Hq Hlen HS. rewrite (agree_node _ _ _ _ Ha) in HS by (done || lia).
  apply (agree_useful mem mem'); [by apply (agree_below _ _ _ L)|]. by apply Ht.
Qed.

(** Nothing is mapped through an entry that leads nowhere and maps nothing itself. *)
Lemma dead_useless mem root l i pte :
  node mem root (l ++ [i]) = None -> entry mem root l i = Some pte -> ~ used l pte ->
  ~ useful mem root (l ++ [i]).
Proof.
  intros Hn He Hu (q & j & pte' & [r Hr] & Hlen & He' & Hu'). destruct r as [|x r _] using rev_ind.
  - rewrite app_nil_r in Hr. apply app_inj_tail in Hr as [-> ->]. apply Hu. by simplify_eq.
  - rewrite app_assoc in Hr. apply app_inj_tail in Hr as [-> _]. unfold entry in He'.
    by rewrite (node_prefix _ _ _ r Hn) in He'.
Qed.

Lemma dead_tidy mem root L : node mem root L = None -> tidy mem root L.
Proof. intros Hn q [r ->] _ [x Hx]. by rewrite (node_prefix _ _ _ r Hn) in Hx. Qed.

(** ** Clearing an entry

    The entry [i] of the table at [l] leads to the frame [f], through which no
    further table or page is reached. *)
Section Clear.
  Context (st : Kmem) (root : Z) (paths : list (list nat)) (rest : list Z).
  Context (l : list nat) (g : Z) (table : list Z) (i : nat) (old f : Z).
  Context (Hk : kernel_wf st root paths rest) (Hl : (length l <= 3)%nat) (Hg : node (memory st) root l = Some g).
  Context (Htab : memory st !! g = Some table) (Hold : table !! i = Some old) (Hf : target old = Some f).
  Context (Hbarren : (length l <= 2)%nat -> forall j, node (memory st) root ((l ++ [i]) ++ [j]) = None).

Let L := l ++ [i].
Let mem' := <[g := <[i := Pte.clear]> table]> (memory st).

Lemma clear_entry : entry (memory st) root l i = Some old.
Proof using Hg Htab Hold. unfold entry. rewrite Hg. cbn. by rewrite Htab. Qed.

Lemma clear_before : node (memory st) root L = Some f.
Proof using Hg Htab Hold Hf. unfold L. by rewrite node_entry, clear_entry. Qed.

Lemma clear_node q :
  (length q <= 4)%nat -> node mem' root q = if decide (q = L) then None else node (memory st) root q.
Proof using Hk Hl Hg Htab Hold Hbarren.
  intros Hq. pose proof (kw_tree _ _ _ _ Hk) as Ht.
  destruct (decide (L `prefix_of` q)) as [[r ->]|Hnp].
  - unfold L at 1. rewrite <- app_assoc. unfold mem'.
    rewrite (node_write_at _ _ Ht l g table i old Pte.clear Hl Hg Htab Hold).
    change (target Pte.clear) with (@None Z). cbn [mbind option_bind].
    destruct (decide (L ++ r = L)) as [|Hne]; [done|]. destruct r as [|j r]; [by rewrite app_nil_r in Hne|].
    unfold L in Hq. rewrite !length_app in Hq. cbn in Hq. symmetry.
    replace (L ++ j :: r) with ((L ++ [j]) ++ r) by by rewrite <- app_assoc.
    apply node_prefix. unfold L. apply Hbarren. lia.
  - rewrite decide_False by (intros ->; by apply Hnp).
    by apply (node_write _ _ Ht l g table i old Pte.clear Hl Hg Htab Hold).
Qed.

Lemma clear_tree : tree_wf mem' root.
Proof using Hk Hl Hg Htab Hold Hbarren.
  pose proof (kw_tree _ _ _ _ Hk) as Ht. split.
  - intros q h Hq. rewrite clear_node by lia. destruct (decide (q = L)); [done|]. intros Hh.
    destruct (tw_table _ _ Ht q h Hq Hh) as (t & Htt & Hok). unfold mem'. destruct (decide (h = g)) as [->|Hne].
    + rewrite lookup_insert_eq. eexists. split; [done|]. rewrite Htab in Htt. injection Htt as <-.
      apply table_ok_write; [done|]. apply zero_entry_ok.
    + rewrite lookup_insert_ne by done. eauto.
  - intros q1 q2 h H1 H2. rewrite !clear_node by lia.
    destruct (decide (q1 = L)), (decide (q2 = L)); try done. by apply (tw_inj _ _ Ht).
Qed.

Lemma kernel_clear : exists paths', kernel_wf (mkKmem (frames st) mem') root paths' (f :: rest).
Proof using Hk Hl Hg Htab Hold Hf Hbarren.
  pose proof clear_tree as Htree. pose proof clear_before as Hb. pose proof clear_node as Hnode.
  destruct Hk as [Ht Ho Hnd Hp Hm].
  exists (filter (fun q => q <> L) paths). split; cbn [frames memory]; [done| | | |].
  - rewrite (refs_ext (memory st)).
    + eapply owned_perm; [|exact Ho].
      rewrite (refs_split root l i (memory st) paths (Some f)); [|done|done|].
      * cbn. fold L. rewrite <- !Permutation_middle. rewrite perm_swap. done.
      * rewrite Hp. fold L. rewrite Hb. unfold L. rewrite length_app. cbn.
        split; [by intros [_ ?]|intros; split; [lia|done]].
    + intros q [Hne Hq]%list_elem_of_filter. rewrite Hnode by (apply Hp in Hq; lia). by rewrite decide_False.
  - by apply NoDup_filter.
  - intros q. rewrite list_elem_of_filter, Hp. split.
    + intros (Hne & ? & ?). split; [done|]. by rewrite Hnode, decide_False by (done || lia).
    + intros [? HS]. rewrite Hnode in HS by lia. destruct (decide (q = L)); [by destruct HS|done].
  - intros j Hj. unfold mem'. rewrite lookup_insert_is_Some'. right. by apply Hm.
Qed.

Lemma clear_beside : same_beside (memory st) mem' root L.
Proof using Hk Hl Hg Htab Hold Hbarren.
  intros q j Hq Hnp. unfold entry. pose proof (kw_tree _ _ _ _ Hk) as Ht.
  rewrite clear_node by lia. rewrite decide_False by (intros ->; apply Hnp; by apply prefix_app_r).
  destruct (node (memory st) root q) as [h|] eqn:Eh; [|done]. cbn. unfold mem'.
  destruct (decide (h = g)) as [->|Hne]; [|by rewrite lookup_insert_ne].
  rewrite (tw_inj _ _ Ht q l g Hq Hl Eh Hg) in Hnp. rewrite lookup_insert_eq, Htab. cbn.
  apply list_lookup_insert_ne. intros <-. by apply Hnp.
Qed.

(** Nothing is left below the entry. *)
Lemma clear_below q j pte :
  (length q <= 3)%nat -> L `prefix_of` q ++ [j] -> entry mem' root q j = Some pte -> pte = Pte.clear.
Proof using Hk Hl Hg Htab Hold Hbarren.
  intros Hq [r Hr] He. destruct (decide (q = l)) as [->|Hne].
  - unfold L in Hr. rewrite <- app_assoc in Hr. apply app_inv_head in Hr. injection Hr as -> _.
    unfold entry in He. rewrite clear_node in He by lia.
    rewrite decide_False, Hg in He by (intros Heq%(f_equal length); unfold L in Heq; rewrite length_app in Heq; cbn in Heq; lia).
    cbn in He. unfold mem' in He. rewrite lookup_insert_eq in He. cbn in He.
    rewrite list_lookup_insert_eq in He by by apply lookup_lt_Some in Hold. by injection He.
  - exfalso. destruct r as [|x r _] using rev_ind.
    + rewrite app_nil_r in Hr. unfold L in Hr. apply app_inj_tail in Hr as [-> _]. done.
    + rewrite app_assoc in Hr. apply app_inj_tail in Hr as [-> _]. unfold entry in He.
      assert (node mem' root (L ++ r) = None) as Hn; [|by rewrite Hn in He].
      apply node_prefix. rewrite clear_node; [by rewrite decide_True|].
      rewrite length_app in Hq. lia.
Qed.

Lemma clear_useless : ~ useful mem' root L.
Proof using Hk Hl Hg Htab Hold Hbarren.
  intros (q & j & pte & Hq & Hlen & He & Hu). rewrite (clear_below q j pte) in Hu by done. by destruct Hu.
Qed.

(** Clearing a table entry nothing is mapped through keeps the mapped memory. *)
Lemma clear_keeps :
  (length l <= 2)%nat -> (forall j, ~ useful (memory st) root (L ++ [j])) -> keeps (memory st) mem' root.
Proof using Hk Hl Hg Htab Hold Hf Hbarren.
  intros Hl2 Hun q j pte Hq Hu. destruct (decide (L `prefix_of` q ++ [j])) as [Hp|Hnp];
    [|by rewrite clear_beside].
  split; intros He; exfalso.
  - rewrite (clear_below q j pte) in Hu by done. by destruct Hu.
  - destruct Hp as [r Hr]. destruct r as [|x r].
    + rewrite app_nil_r in Hr. unfold L in Hr. apply app_inj_tail in Hr as [-> ->].
      rewrite clear_entry in He. injection He as <-. destruct Hu as [_ [Hh|?]]; [|lia].
      unfold target in Hf. by rewrite Hh in Hf.
    + apply (Hun x). exists q, j, pte. split; [|done]. exists r. by rewrite Hr, <- app_assoc.
Qed.

End Clear.

(** ** The loop of [drop_subtree] *)

Lemma read_index st root l g i :
  tree_wf (memory st) root -> (length l <= 3)%nat -> node (memory st) root l = Some g -> 0 <= i < 512 ->
  exists table pte, memory st !! g = Some table /\ table !! Z.to_nat i = Some pte /\
    read_pte (g, i) st = (st, Ok pte) /\ entry_ok (is_leaf l) pte /\
    entry (memory st) root l (Z.to_nat i) = Some pte.
Proof.
  intros Ht Hl Hn Hi. destruct (tw_table _ _ Ht l g Hl Hn) as (table & Htab & Hlen & Hall).
  destruct (lookup_lt_is_Some_2 table (Z.to_nat i)) as [pte Hpte]; [lia|].
  exists table, pte. split; [done|]. split; [done|]. split; [|split].
  - unfold read_pte, page_table, bindM. cbn. rewrite Htab. cbn. unfold liftM. f_equal.
    apply index_ok. split; [lia|done].
  - rewrite Forall_lookup in Hall. by eapply Hall.
  - unfold entry. rewrite Hn. cbn. by rewrite Htab.
Qed.

(** Releasing a frame and clearing the entry that held it. *)
Lemma release_entry st root paths rest l g i f :
  kernel_wf st root paths rest -> (length l <= 3)%nat -> node (memory st) root l = Some g -> 0 <= i < 512 ->
  node (memory st) root (l ++ [Z.to_nat i]) = Some f ->
  ((length l <= 2)%nat -> forall j, node (memory st) root ((l ++ [Z.to_nat i]) ++ [j]) = None) ->
  exists st' paths' table old, memory st !! g = Some table /\ table !! Z.to_nat i = Some old /\
    target old = Some f /\ memory st' = <[g := <[Z.to_nat i := Pte.clear]> table]> (memory st) /\
    kernel_wf st' root paths' rest /\
    forall A (k : M Kmem A),
      (let! _ := with_frames (deallocate f) in let! _ := write_pte (g, i) Pte.clear in k) st = k st'.
Proof.
  intros Hk Hl Hg Hi Hf Hb.
  destruct (read_index st root l g i (kw_tree _ _ _ _ Hk) Hl Hg Hi) as (table & old & Htab & Hold & _ & _ & He).
  assert (target old = Some f) as Ht by (rewrite node_entry, He in Hf; done).
  destruct (kernel_clear st root paths rest l g table (Z.to_nat i) old f Hk Hl Hg Htab Hold Ht Hb) as [paths1 Hk1].
  destruct (kernel_drop _ _ _ _ _ Hk1) as (st2 & Hd & Hm & Hk2).
  exists st2, paths1, table, old. do 3 (split; [done|]). split; [done|]. split; [done|]. intros A k.
  unfold with_frames, bindM in *. cbn [frames memory] in *.
  destruct (deallocate f (frames st)) as [fa [[]|e|]]; try done.
  injection Hd as <-. unfold write_pte. cbn [fst snd memory frames]. rewrite Htab. cbn [unwrap_some].
  by rewrite index_set_ok by (apply lookup_lt_Some in Hold; lia).
Qed.

(** What the loop does to the entry at [L], and what the call does to the table at
    [l]. *)
Record entry_dropped (drop_used : bool) (mem mem' : gmap Z (list Z)) (root : Z) (L : list nat)
    (has_used has_used' : bool) : Prop := {
  ed_beside : same_beside mem mem' root L;
  ed_shrinks : shrinks mem mem' root;
  ed_barren : has_used' = false -> node mem' root L = None;
  ed_all : drop_used = true -> has_used' = has_used;
  ed_keeps : drop_used = false -> keeps mem mem' root;
  ed_tidy : drop_used = false -> tidy mem' root L;
  ed_used : drop_used = false -> (has_used' = true <-> has_used = true \/ useful mem' root L);
}.

Record subtree_dropped (drop_used : bool) (mem mem' : gmap Z (list Z)) (root : Z) (l : list nat)
    (deleted : bool) : Prop := {
  sd_outside : same_outside mem mem' root l;
  sd_shrinks : shrinks mem mem' root;
  sd_barren : deleted = true -> forall j, node mem' root (l ++ [j]) = None;
  sd_all : drop_used = true -> deleted = true;
  sd_keeps : drop_used = false -> keeps mem mem' root;
  sd_tidy : drop_used = false -> forall j, tidy mem' root (l ++ [j]);
  sd_used : drop_used = false -> (deleted = false <-> exists j, useful mem' root (l ++ [j]));
}.

(** Entries the loop leaves as they are. *)
Lemma skip_unused drop_used mem root l i pte has_used :
  entry mem root l i = Some pte -> target pte = None -> (drop_used = false -> ~ used l pte) ->
  entry_dropped drop_used mem mem root (l ++ [i]) has_used has_used.
Proof.
  intros He Ht Hu. assert (node mem root (l ++ [i]) = None) as Hn by (by rewrite node_entry, He).
  split; try done; try apply shrinks_refl.
  - intros _. by apply dead_tidy.
  - intros Hd. pose proof (dead_useless mem root l i pte Hn He (Hu Hd)). tauto.
Qed.

Lemma skip_used mem root l i pte has_used :
  (length l <= 3)%nat -> entry mem root l i = Some pte -> used l pte -> target pte = None ->
  entry_dropped false mem mem root (l ++ [i]) has_used true.
Proof.
  intros Hl He Hu Ht. split; try done; try apply shrinks_refl.
  - intros _. apply dead_tidy. by rewrite node_entry, He.
  - intros _. split; [|done]. intros _. right. by exists l, i, pte.
Qed.

Lemma skip_mapped mem root l i pte has_used :
  (length l = 3)%nat -> entry mem root l i = Some pte -> used l pte ->
  entry_dropped false mem mem root (l ++ [i]) has_used true.
Proof.
  intros Hl He Hu. split; try done; try apply shrinks_refl.
  - intros _ q Hp Hq. apply prefix_length in Hp. rewrite length_app in Hp. cbn in Hp. lia.
  - intros _. split; [|done]. intros _. right. exists l, i, pte. repeat split; (done || lia || apply Hu).
Qed.

(** The recursive call kept the child. *)
Lemma keep_child mem mem' root L has_used :
  (length L <= 3)%nat -> subtree_dropped false mem mem' root L false ->
  entry_dropped false mem mem' root L has_used true.
Proof.
  intros HL [Ho Hsh _ _ Hkeep Ht Hu]. destruct (proj1 (Hu eq_refl) eq_refl) as [j Hj].
  assert (useful mem' root L) as HuL by (by eapply useful_up, Hj; apply prefix_app_r).
  split; try done.
  - intros q k Hq Hp. apply Ho; [done|]. intros H. apply Hp. by apply prefix_app_r.
  - intros _ q [r ->] Hq HS. destruct r as [|x r]; [by rewrite app_nil_r|].
    apply (Ht eq_refl x); [exists r; by rewrite <- app_assoc|done|done].
  - intros _. tauto.
Qed.

(** The child was deleted; its entry is cleared. *)
Lemma delete_child drop_used st st' root paths rest l g table i old f mem0 has_used :
  kernel_wf st root paths rest -> (length l <= 3)%nat -> node (memory st) root l = Some g ->
  memory st !! g = Some table -> table !! i = Some old -> target old = Some f ->
  memory st' = <[g := <[i := Pte.clear]> table]> (memory st) ->
  ((length l <= 2)%nat -> subtree_dropped drop_used mem0 (memory st) root (l ++ [i]) true) ->
  (length l = 3%nat -> drop_used = true /\ memory st = mem0) ->
  entry_dropped drop_used mem0 (memory st') root (l ++ [i]) has_used has_used.
Proof.
  intros Hk Hl Hg Htab Hold Ht Hm Hsub Hleaf.
  assert ((length l <= 2)%nat -> forall j, node (memory st) root ((l ++ [i]) ++ [j]) = None) as Hb
    by (intros H; by apply (sd_barren _ _ _ _ _ _ (Hsub H))).
  pose proof (clear_node st root paths rest l g table i old Hk Hl Hg Htab Hold Hb) as Hnode.
  pose proof (clear_beside st root paths rest l g table i old Hk Hl Hg Htab Hold Hb) as Hbeside.
  pose proof (clear_useless st root paths rest l g table i old Hk Hl Hg Htab Hold Hb) as Huseless.
  pose proof (clear_keeps st root paths rest l g table i old f Hk Hl Hg Htab Hold Ht Hb) as Hkeeps.
  rewrite <- Hm in *.
  assert (node (memory st') root (l ++ [i]) = None) as Hnone
    by (rewrite Hnode, decide_True; [done|done|rewrite length_app; cbn; lia]).
  assert (drop_used = false -> (length l <= 2)%nat) as Hl2
    by (intros ->; destruct (decide (length l = 3%nat)) as [E|]; [by destruct (Hleaf E)|lia]).
  split; try done.
  - intros q j Hq Hp. rewrite Hbeside by done.
    destruct (decide (length l = 3%nat)) as [E|E]; [by destruct (Hleaf E) as [_ ->]|].
    apply (sd_outside _ _ _ _ _ _ (Hsub ltac:(lia))); [done|]. intros H. apply Hp. by apply prefix_app_r.
  - intros q x Hq Hx. rewrite Hnode in Hx by done. destruct (decide _); [done|].
    destruct (decide (length l = 3%nat)) as [E|E]; [by destruct (Hleaf E) as [_ <-]|].
    by apply (sd_shrinks _ _ _ _ _ _ (Hsub ltac:(lia))).
  - intros Hd. specialize (Hsub (Hl2 Hd)). eapply keeps_trans; [by apply (sd_keeps _ _ _ _ _ _ Hsub)|].
    apply Hkeeps; [auto|]. intros j Hj.
    by assert (true = false) by (apply (sd_used _ _ _ _ _ _ Hsub Hd); by exists j).
  - intros _. by apply dead_tidy.
  - intros _. tauto.
Qed.

(** What the recursive call is expected to do, at the tables below [l]. *)
Definition descends_well (descend : option (Z -> M Kmem bool)) (drop_used : bool) (root : Z) (l : list nat) : Prop :=
  match descend with
  | None => length l = 3%nat
  | Some descend => (length l <= 2)%nat /\
      forall st paths rest i f, kernel_wf st root paths rest -> node (memory st) root (l ++ [i]) = Some f ->
        exists st' deleted paths', descend f st = (st', Ok deleted) /\ kernel_wf st' root paths' rest /\
          subtree_dropped drop_used (memory st) (memory st') root (l ++ [i]) deleted
  end.

Lemma outside_node mem mem' root L q :
  same_outside mem mem' root L -> (length q <= 4)%nat -> ~ (exists j r, q = L ++ j :: r) ->
  node mem' root q = node mem root q.
Proof.
  intros Ho Hq Hn. destruct q as [|j q _] using rev_ind; [done|].
  rewrite length_app in Hq. cbn in Hq. rewrite !node_entry, Ho; [done|lia|].
  intros [r ->]. apply Hn. destruct r as [|x r].
  - exists j, []. by rewrite app_nil_r.
  - exists x, (r ++ [j]). by rewrite <- !app_assoc.
Qed.

Lemma not_below (q L : list nat) : (length q <= length L)%nat -> ~ (exists j r, q = L ++ j :: r).
Proof. intros H (j & r & ->). rewrite length_app in H. cbn in H. lia. Qed.

Section DropEntry.
  Context (descend : option (Z -> M Kmem bool)) (drop_used : bool) (root : Z) (l : list nat).
  Context (Hdesc : descends_well descend drop_used root l).

Lemma descend_length : (length l <= 3)%nat.
Proof using Hdesc. destruct descend; cbn in Hdesc; [destruct Hdesc; lia|lia]. Qed.

Lemma drop_entry_spec st paths rest g i has_used :
  kernel_wf st root paths rest -> node (memory st) root l = Some g -> 0 <= i < 512 ->
  exists st' has_used' paths', drop_entry descend drop_used g i has_used st = (st', Ok has_used') /\
    kernel_wf st' root paths' rest /\
    entry_dropped drop_used (memory st) (memory st') root (l ++ [Z.to_nat i]) has_used has_used'.
Proof using Hdesc.
  intros Hk Hg Hi. pose proof descend_length as Hl.
  destruct (read_index st root l g i (kw_tree _ _ _ _ Hk) Hl Hg Hi) as (table & pte & Htab & Hpte & Hread & Hok & He).
  destruct (entry_view _ _ Hok) as (p & f & _ & _ & _ & _ & _ & Hpr & Hhu & Hfr & Hleaf & Ht).
  unfold drop_entry. rewrite (bindM_ok _ _ _ _ _ Hread), Hpr, Hhu. unfold bindM at 1, liftM at 1.
  destruct (PageTableFlags.is_present f) eqn:Ep; cbn [negb].
  2: { exists st, has_used, paths. do 2 (split; [done|]). apply (skip_unused _ _ _ _ _ pte); [done|done|].
       intros _ [H _]. congruence. }
  unfold bindM at 1, liftM at 1. destruct (PageTableFlags.is_huge f) eqn:Eh.
  { exists st, (if drop_used then has_used else true), paths. do 2 (split; [done|]).
    destruct drop_used; [by apply (skip_unused _ _ _ _ _ pte)|].
    apply (skip_used _ _ _ _ pte); [done|done|split; [done|by left]|done]. }
  destruct (Hfr eq_refl) as [-> _]. cbn in Ht.
  assert (node (memory st) root (l ++ [Z.to_nat i]) = Some p) as Hp by (by rewrite node_entry, He).
  destruct descend as [d|]; cbn in Hdesc.
  - destruct Hdesc as [Hl2 Hd]. destruct (Hd st paths rest _ p Hk Hp) as (st1 & del & paths1 & Ed & Hk1 & Hs1).
    rewrite (bindM_ok _ _ _ st1 (drop_used || del)) by (unfold bindM; by rewrite Ed).
    assert (length (l ++ [Z.to_nat i]) = S (length l)) as HL by (rewrite length_app; cbn; lia).
    destruct (drop_used || del)%bool eqn:E.
    + assert (del = true) as -> by (destruct drop_used; [by apply (sd_all _ _ _ _ _ _ Hs1)|done]).
      pose proof (sd_outside _ _ _ _ _ _ Hs1) as Ho.
      assert (node (memory st1) root l = Some g) as Hg1.
      { rewrite (outside_node _ _ _ _ _ Ho); [done|lia|]. apply not_below. lia. }
      assert (node (memory st1) root (l ++ [Z.to_nat i]) = Some p) as Hp1.
      { rewrite (outside_node _ _ _ _ _ Ho); [done|lia|]. apply not_below. lia. }
      destruct (release_entry st1 root paths1 rest l g i p Hk1 Hl Hg1 Hi Hp1
                  (fun _ => sd_barren _ _ _ _ _ _ Hs1 eq_refl))
        as (st2 & paths2 & table1 & old & Htab1 & Hold & Htg & Hm & Hk2 & Hrun).
      rewrite Hrun. exists st2, has_used, paths2. do 2 (split; [done|]).
      apply (delete_child _ st1 _ _ paths1 rest _ g table1 _ old p); try done. lia.
    + destruct drop_used; [done|]. cbn in E. subst del. exists st1, true, paths1. do 2 (split; [done|]).
      apply keep_child; [lia|done].
  - unfold bindM at 1, retM at 1. destruct drop_used.
    + destruct (release_entry st root paths rest l g i p Hk Hl Hg Hi Hp ltac:(lia))
        as (st2 & paths2 & table1 & old & Htab1 & Hold & Htg & Hm & Hk2 & Hrun).
      rewrite Hrun. exists st2, has_used, paths2. do 2 (split; [done|]).
      apply (delete_child _ st _ _ paths rest _ g table1 _ old p); try done. lia.
    + exists st, true, paths. do 2 (split; [done|]).
      apply (skip_mapped _ _ _ _ pte); [done|done|split; [done|by right]].
Qed.

End DropEntry.

(** What the loop does to the entries it has passed. *)
Record entries_dropped (drop_used : bool) (mem mem' : gmap Z (list Z)) (root : Z) (l : list nat)
    (entries : list nat) (has_used has_used' : bool) : Prop := {
  es_beside : forall q j, (length q <= 3)%nat -> (forall i, i ∈ entries -> ~ (l ++ [i]) `prefix_of` q ++ [j]) ->
    entry mem' root q j = entry mem root q j;
  es_shrinks : shrinks mem mem' root;
  es_barren : has_used' = false -> forall i, i ∈ entries -> node mem' root (l ++ [i]) = None;
  es_all : drop_used = true -> has_used' = has_used;
  es_keeps : drop_used = false -> keeps mem mem' root;
  es_tidy : drop_used = false -> forall i, i ∈ entries -> tidy mem' root (l ++ [i]);
  es_used : drop_used = false ->
    (has_used' = true <-> has_used = true \/ exists i, i ∈ entries /\ useful mem' root (l ++ [i]));
}.

(** The entries behind the current one leave what it leads to alone. *)
Lemma siblings_agree drop_used mem mem' root l i entries u u' :
  i ∉ entries -> entries_dropped drop_used mem mem' root l entries u u' -> agree mem mem' root (l ++ [i]).
Proof.
  intros Hi Hd q j Hq Hp. apply (es_beside _ _ _ _ _ _ _ _ Hd); [done|]. intros i' Hi' Hp'.
  assert (l ++ [i] = l ++ [i']) as Heq%app_inv_head; [|injection Heq as ->; done].
  destruct (prefix_weak_total _ _ _ Hp Hp') as [H|H]; [|symmetry]; apply (prefix_length_eq _ _ H);
    rewrite !length_app; cbn; lia.
Qed.

Lemma entries_cons drop_used mem mem1 mem' root l i entries u u1 u' :
  i ∉ entries -> (length l <= 3)%nat -> entry_dropped drop_used mem mem1 root (l ++ [i]) u u1 ->
  entries_dropped drop_used mem1 mem' root l entries u1 u' ->
  entries_dropped drop_used mem mem' root l (i :: entries) u u'.
Proof.
  intros Hi Hl He Hs. pose proof (siblings_agree _ _ _ _ _ _ _ _ _ Hi Hs) as Ha.
  assert (length (l ++ [i]) = S (length l)) as HL by (rewrite length_app; cbn; lia).
  destruct He as [Hb1 Hs1 Hn1 Ha1 Hk1 Ht1 Hu1], Hs as [Hb2 Hs2 Hn2 Ha2 Hk2 Ht2 Hu2]. split.
  - intros q j Hq Hp. rewrite Hb2, Hb1; [done|done|apply Hp; left|done|].
    intros i' Hi'. apply Hp. by right.
  - intros q x Hq Hx. apply Hs1; [done|]. by apply Hs2.
  - intros Hf i' [->|Hi']%elem_of_cons; [|by apply Hn2].
    rewrite (agree_node _ _ _ _ Ha) by (done || lia). apply Hn1.
    destruct u1; [|done]. destruct drop_used; [by rewrite Ha2 in Hf|].
    by rewrite (proj2 (Hu2 eq_refl) (or_introl eq_refl)) in Hf.
  - intros Hd. by rewrite Ha2, Ha1.
  - intros Hd. by eapply keeps_trans; [apply Hk1|apply Hk2].
  - intros Hd i' [->|Hi']%elem_of_cons; [|by apply Ht2]. apply (agree_tidy mem1); [done|lia|by apply Ht1].
  - intros Hd. rewrite Hu2, Hu1 by done. rewrite <- (agree_useful _ _ _ _ Ha). split.
    + intros [[?|?]|(i' & ? & ?)]; [by left|right; exists i; split; [left|done]|right; exists i'; split; [by right|done]].
    + intros [?|(i' & [->|?]%elem_of_cons & ?)]; [by left; left|by left; right|right; by exists i'].
Qed.

Lemma drop_entries_spec descend drop_used root l entries :
  descends_well descend drop_used root l -> NoDup entries -> Forall (fun i => 0 <= i < 512) entries ->
  forall st paths rest g has_used, kernel_wf st root paths rest -> node (memory st) root l = Some g ->
  exists st' has_used' paths', drop_entries descend drop_used g entries has_used st = (st', Ok has_used') /\
    kernel_wf st' root paths' rest /\
    entries_dropped drop_used (memory st) (memory st') root l (Z.to_nat <$> entries) has_used has_used'.
Proof.
  intros Hdesc Hnd Hall. pose proof (descend_length _ _ _ _ Hdesc) as Hl.
  induction entries as [|i entries IH]; intros st paths rest g u Hk Hg.
  { exists st, u, paths. do 2 (split; [done|]). split; try done; try apply shrinks_refl; cbn.
    - intros _ i Hi. by apply elem_of_nil in Hi.
    - intros _ i Hi. by apply elem_of_nil in Hi.
    - intros _. split; [by left|]. intros [?|(i & Hi & _)]; [done|]. by apply elem_of_nil in Hi. }
  apply list.NoDup_cons in Hnd as [Hni Hnd]. inversion Hall as [|? ? Hi Hall']. subst. cbn [drop_entries].
  destruct (drop_entry_spec _ _ _ _ Hdesc st paths rest g i u Hk Hg Hi) as (st1 & u1 & paths1 & E1 & Hk1 & He1).
  rewrite (bindM_ok _ _ _ _ _ E1).
  assert (node (memory st1) root l = Some g) as Hg1.
  { destruct l as [|j l' _] using rev_ind; [done|]. rewrite length_app in Hl. cbn in Hl.
    rewrite node_entry, (ed_beside _ _ _ _ _ _ _ He1), <- node_entry; [done|lia|apply prefix_snoc_not]. }
  destruct (IH Hnd Hall' st1 paths1 rest g u1 Hk1 Hg1) as (st2 & u2 & paths2 & E2 & Hk2 & He2).
  exists st2, u2, paths2. split; [done|]. split; [done|]. rewrite fmap_cons.
  apply (entries_cons _ _ (memory st1) _ _ _ _ _ _ u1); [|done|done|done].
  intros (i' & Heq & Hi')%list_elem_of_fmap. rewrite Forall_forall in Hall'. specialize (Hall' _ Hi').
  apply Hni. by replace i with i' by lia.
Qed.

Lemma entries_full : NoDup ENTRIES /\ Forall (fun i => 0 <= i < 512) ENTRIES /\
  forall i : nat, (i < 512)%nat -> i ∈ Z.to_nat <$> ENTRIES.
Proof.
  split; [apply NoDup_seqZ|]. split.
  - apply Forall_forall. intros i Hi%elem_of_seqZ. change PAGE_TABLE_ENTRY_COUNT with 512 in Hi. lia.
  - intros i Hi. apply list_elem_of_fmap. exists (Z.of_nat i). split; [lia|].
    apply elem_of_seqZ. change PAGE_TABLE_ENTRY_COUNT with 512. lia.
Qed.

Lemma entry_beyond mem root l i : tree_wf mem root -> (length l <= 3)%nat -> (512 <= i)%nat -> entry mem root l i = None.
Proof.
  intros Ht Hl Hi. unfold entry. destruct (node mem root l) as [g|] eqn:Eg; [|done]. cbn.
  destruct (tw_table _ _ Ht l g Hl Eg) as (table & -> & Hlen & _). cbn. apply lookup_ge_None. lia.
Qed.

(** A loop over all entries does to the whole table what the call promises. *)
Lemma whole_table drop_used mem mem' root l u :
  tree_wf mem' root -> (length l <= 3)%nat ->
  entries_dropped drop_used mem mem' root l (Z.to_nat <$> ENTRIES) false u ->
  subtree_dropped drop_used mem mem' root l (drop_used || negb u).
Proof.
  intros Ht Hl [Hb Hsh Hn Ha Hk Htd Hu]. pose proof (proj2 (proj2 entries_full)) as Hin.
  assert (forall i, i ∉ Z.to_nat <$> ENTRIES -> entry mem' root l i = None) as Hbeyond.
  { intros i Hi. apply entry_beyond; [done|done|]. destruct (decide (i < 512)%nat); [|lia]. by destruct Hi; apply Hin. }
  assert (forall i, i ∉ Z.to_nat <$> ENTRIES -> node mem' root (l ++ [i]) = None) as Hnone
    by (intros i Hi; by rewrite node_entry, Hbeyond).
  split.
  - intros q j Hq Hp. apply Hb; [done|]. intros i _ [r Hr]. apply Hp. destruct r as [|x r _] using rev_ind.
    + rewrite app_nil_r in Hr. apply app_inj_tail in Hr as [-> _]. done.
    + rewrite app_assoc in Hr. apply app_inj_tail in Hr as [-> _]. rewrite <- app_assoc. by apply prefix_app_r.
  - done.
  - intros Hd j. destruct (decide (j ∈ Z.to_nat <$> ENTRIES)) as [Hj|Hj]; [|by apply Hnone].
    apply Hn; [|done]. destruct drop_used; [by apply Ha|]. by destruct u.
  - by intros ->.
  - done.
  - intros Hd j. destruct (decide (j ∈ Z.to_nat <$> ENTRIES)) as [Hj|Hj]; [by apply Htd|by apply dead_tidy, Hnone].
  - intros Hd. specialize (Hu Hd). subst drop_used. cbn.
    destruct u; cbn; split; try done.
    + intros _. destruct (proj1 Hu eq_refl) as [?|(i & _ & Hi)]; [done|by exists i].
    + intros (j & Hj). exfalso. destruct (decide (j ∈ Z.to_nat <$> ENTRIES)) as [Hin'|Hout].
      * by assert (false = true) by (apply Hu; right; by exists j).
      * destruct Hj as (q & k & pte & [r Hr] & Hq & He & _). destruct r as [|x r _] using rev_ind.
        -- rewrite app_nil_r in Hr. apply app_inj_tail in Hr as [-> ->]. by rewrite Hbeyond in He.
        -- rewrite app_assoc in Hr. apply app_inj_tail in Hr as [-> _]. unfold entry in He.
           by rewrite (node_prefix _ _ _ r (Hnone j Hout)) in He.
Qed.

Lemma drop_subtree_spec level drop_used root : forall l st paths rest g,
  (length l + level = 3)%nat -> kernel_wf st root paths rest -> node (memory st) root l = Some g ->
  exists st' deleted paths', drop_subtree level drop_used g st = (st', Ok deleted) /\
    kernel_wf st' root paths' rest /\ subtree_dropped drop_used (memory st) (memory st') root l deleted.
Proof.
  induction level as [|level IH]; intros l st paths rest g Hlen Hk Hg; cbn [drop_subtree];
    match goal with |- context [drop_entries ?d] =>
      assert (descends_well d drop_used root l) as Hd end.
  1: cbn; lia.
  2: { cbn. split; [lia|]. intros st1 paths1 rest1 i f Hk1 Hf. apply (IH _ _ paths1); [|done|done].
       rewrite length_app. cbn. lia. }
  all: destruct entries_full as (Hnd & Hall & _).
  all: destruct (drop_entries_spec _ _ _ _ ENTRIES Hd Hnd Hall st paths rest g false Hk Hg)
         as (st' & u & paths' & E & Hk' & He).
  all: rewrite (bindM_ok _ _ _ _ _ E); eexists st', _, paths'; (do 2 (split; [done|])).
  all: apply whole_table; [by eapply kw_tree|lia|done].
Qed.

(** ** Whole mappings *)

(** Mapped memory that is kept is mapped through the same tables. *)
Lemma keeps_useful mem mem' root L : keeps mem mem' root -> useful mem' root L <-> useful mem root L.
Proof.
  intros Hk. split; intros (q & j & pte & Hp & Hq & He & Hu); exists q, j, pte;
    (do 2 (split; [done|])); (split; [|done]); by apply (Hk q j pte Hq Hu).
Qed.

Lemma keeps_leaves mem mem' root :
  tree_wf mem root -> tree_wf mem' root -> keeps mem mem' root -> same_leaves mem mem' root.
Proof.
  intros Ht Ht' Hk l i Hl. rewrite !leaf_entry.
  assert (forall m pte, tree_wf m root -> entry m root l i = Some pte -> is_Some (target pte) -> used l pte) as Hused.
  { intros m pte Htm He [x Hx]. unfold entry in He. destruct (node m root l) as [g|] eqn:Eg; [|done]. cbn in He.
    destruct (tw_table _ _ Htm l g ltac:(lia) Eg) as (table & Htab & _ & Hall). rewrite Htab in He. cbn in He.
    rewrite Forall_lookup in Hall.
    destruct (entry_view _ _ (Hall _ _ He)) as (p & f & _ & _ & _ & _ & _ & Hpr & _ & _ & _ & Htg).
    split; [|by right]. rewrite Hpr. destruct (PageTableFlags.is_present f); [done|]. by rewrite Htg in Hx. }
  destruct (entry mem root l i) as [pte|] eqn:E, (entry mem' root l i) as [pte'|] eqn:E'; cbn; try done.
  - destruct (target pte) eqn:Et; [|destruct (target pte') eqn:Et'; [|done]].
    + pose proof (proj2 (Hk l i pte ltac:(lia) (Hused mem pte Ht E ltac:(by rewrite Et))) E) as H.
      rewrite H in E'. injection E' as <-. by rewrite Et.
    + pose proof (proj1 (Hk l i pte' ltac:(lia) (Hused mem' pte' Ht' E' ltac:(by rewrite Et'))) E') as H.
      rewrite H in E. injection E as <-. congruence.
  - destruct (target pte) eqn:Et; [|done].
    pose proof (proj2 (Hk l i pte ltac:(lia) (Hused mem pte Ht E ltac:(by rewrite Et))) E). congruence.
  - destruct (target pte') eqn:Et; [|done].
    pose proof (proj1 (Hk l i pte' ltac:(lia) (Hused mem' pte' Ht' E' ltac:(by rewrite Et))) E'). congruence.
Qed.

(** A table through which memory is mapped survives when that memory is kept. *)
Lemma useful_survives mem mem' root q f :
  keeps mem mem' root -> shrinks mem mem' root -> (length q <= 3)%nat ->
  node mem root q = Some f -> useful mem root q -> node mem' root q = Some f.
Proof.
  intros Hk Hsh Hq Hf (p & j & pte & [r Hr] & Hp & He & Hu).
  pose proof (proj2 (Hk p j pte Hp Hu) He) as He'.
  assert (is_Some (node mem' root q)) as [x Hx]; [|rewrite Hx; by rewrite (Hsh q x ltac:(lia) Hx) in Hf].
  destruct r as [|y r _] using rev_ind.
  - rewrite app_nil_r in Hr. subst q. rewrite node_entry, He in Hf. cbn in Hf.
    rewrite length_app in Hq. cbn in Hq. destruct Hu as [_ [Hh|?]]; [|lia]. unfold target in Hf. by rewrite Hh in Hf.
  - rewrite app_assoc in Hr. apply app_inj_tail in Hr as [-> _]. unfold entry in He'.
    destruct (node mem' root (q ++ r)) eqn:E; [|done]. rewrite node_app in E.
    destruct (node mem' root q); [by eexists|done].
Qed.

(** A mapping without children has no entries in use. *)
Lemma childless_paths st root paths rest :
  kernel_wf st root paths rest -> (forall j, node (memory st) root [j] = None) -> paths = [].
Proof.
  intros Hk Hn. destruct paths as [|l paths]; [done|]. exfalso.
  destruct (proj1 (kw_paths _ _ _ _ Hk l) ltac:(left)) as [Hlen [x Hx]].
  destruct l as [|j l]; [cbn in Hlen; lia|]. change (j :: l) with ([j] ++ l) in Hx.
  by rewrite (node_prefix _ _ [j] l (Hn j)) in Hx.
Qed.

(** A frame outside the references in circulation is not in use. *)
Lemma unreferenced_unused fa guards i rc :
  owned fa guards -> 0 <= i -> i * L0_SIZE ∉ guards -> info_at fa i <> Some (Used rc).
Proof.
  intros Ho Hi Hn Hinfo. pose proof (own_counts _ _ Ho i rc Hi Hinfo) as Hrc.
  pose proof (wf_used _ (own_wf _ _ Ho) _ _ Hinfo) as [Hpos _]. apply Hn.
  destruct (decide (i * L0_SIZE ∈ guards)) as [|Hnin]; [done|].
  unfold references in Hrc. rewrite (proj1 (count_occ_not_In Z.eq_dec guards _)) in Hrc; [cbn in Hrc; lia|].
  by rewrite <- list_elem_of_In.
Qed.

Lemma mapping_drop_spec st root paths rest current :
  kernel_wf st root paths rest -> current <> root ->
  exists st', mapping_drop current root st = (st', Ok tt) /\ owned (frames st') rest.
Proof.
  intros Hk Hc. unfold mapping_drop. rewrite (proj2 (Z.eqb_neq _ _) Hc).
  destruct (drop_subtree_spec 3 true root [] st paths rest root eq_refl Hk eq_refl)
    as (st1 & deleted & paths1 & E & Hk1 & Hs). rewrite (bindM_ok _ _ _ _ _ E).
  pose proof (childless_paths _ _ _ _ Hk1 (sd_barren _ _ _ _ _ _ Hs (sd_all _ _ _ _ _ _ Hs eq_refl))) as ->.
  destruct (owned_drop _ rest root [] (kw_owned _ _ _ _ Hk1)) as (fa & Hd & Ho).
  unfold with_frames. rewrite Hd. eexists. split; [done|]. by rewrite app_nil_r in Ho.
Qed.

Lemma unmap_unused_spec st root paths rest :
  kernel_wf st root paths rest ->
  exists st' paths', kernel_wf st' root paths' rest /\ keeps (memory st) (memory st') root /\
    shrinks (memory st) (memory st') root /\ (forall j, tidy (memory st') root [j]) /\
    ((useful (memory st) root [] /\ unmap_unused_intermediate root st = (st', Ok tt)) \/
     (~ useful (memory st) root [] /\ unmap_unused_intermediate root st = (st', Panic))).
Proof.
  intros Hk. destruct (drop_subtree_spec 3 false root [] st paths rest root eq_refl Hk eq_refl)
    as (st1 & deleted & paths1 & E & Hk1 & Hs). pose proof (sd_keeps _ _ _ _ _ _ Hs eq_refl) as Hkeep.
  assert (deleted = false <-> useful (memory st) root []) as Hdel.
  { rewrite (sd_used _ _ _ _ _ _ Hs eq_refl), <- (keeps_useful _ _ _ _ Hkeep). split.
    - intros [j Hj]. apply (useful_up _ _ _ _ (prefix_nil _) Hj).
    - intros (q & j & pte & _ & Hu). destruct q as [|x q]; [exists j|exists x];
        eexists _, _, _; (split; [|exact Hu]); [done|]. by exists (q ++ [j]). }
  exists st1, paths1. split; [done|]. split; [done|]. split; [apply (sd_shrinks _ _ _ _ _ _ Hs)|].
  split; [apply (sd_tidy _ _ _ _ _ _ Hs eq_refl)|].
  unfold unmap_unused_intermediate. rewrite (bindM_ok _ _ _ _ _ E).
  destruct deleted; [right|left]; (split; [|done]); [by intros H%Hdel|by apply Hdel].
Qed.

(** ** Properties *)

(** C9. Dropping a mapping that is not in use by the processor succeeds from every
    consistent state and releases exactly the references of its tables and of the
    pages it maps: those that remain are the ones held elsewhere, and every frame
    nobody else holds is no longer in use. *)
Theorem mapping_drop_releases st root paths rest current :
  kernel_wf st root paths rest -> current <> root ->
  exists st', mapping_drop current root st = (st', Ok tt) /\ owned (frames st') rest /\
    forall i rc, 0 <= i -> i * L0_SIZE ∉ rest -> info_at (frames st') i <> Some (Used rc).
Proof.
  intros Hk Hc. destruct (mapping_drop_spec st root paths rest current Hk Hc) as (st' & E & Ho).
  exists st'. split; [done|]. split; [done|]. intros i rc. by apply unreferenced_unused.
Qed.

(** C34. [unmap_unused_intermediate] frees exactly the tables below the root through
    which no page and no huge page is mapped.  Every address translates as before,
    and the page tables and reference counts stay consistent.  It succeeds if
    anything is mapped, and panics only for a mapping without any mapped memory. *)
Theorem unmap_unused_exact st root paths rest :
  kernel_wf st root paths rest ->
  exists st' paths', kernel_wf st' root paths' rest /\
    (forall v, same_mapping st st' root v) /\
    (forall q f, (1 <= length q <= 3)%nat ->
       node (memory st') root q = Some f <-> node (memory st) root q = Some f /\ useful (memory st) root q) /\
    ((useful (memory st) root [] /\ unmap_unused_intermediate root st = (st', Ok tt)) \/
     (~ useful (memory st) root [] /\ unmap_unused_intermediate root st = (st', Panic))).
Proof.
  intros Hk. destruct (unmap_unused_spec st root paths rest Hk) as (st' & paths' & Hk' & Hkeep & Hsh & Htidy & Hcase).
  exists st', paths'. split; [done|]. split; [|split; [|done]].
  - intros v. pose proof (kw_tree _ _ _ _ Hk). pose proof (kw_tree _ _ _ _ Hk').
    apply same_mapping_leaf; [done|done|]. by apply keeps_leaves.
  - intros q f Hq. split.
    + intros Hf. split; [apply Hsh; [lia|done]|]. rewrite <- (keeps_useful _ _ _ _ Hkeep).
      destruct q as [|j q]; [cbn in Hq; lia|]. apply (Htidy j); [by exists q|lia|by eexists].
    + intros [Hf Hu]. by apply (useful_survives (memory st)); [..|lia| |].
Qed.

(** When no frame is left, [Mapping::duplicate] does not return [NoFrame]
    cleanly: the half-built copy has the root [Frame::default()] and is dropped as
    a mapping, so the physical frame 0 is read as a page table.  If its first word
    has bits no entry has, or looks like a present entry whose frame the machine
    does not have, the kernel panics. *)
Theorem duplicate_out_of_frames_panics st root paths rest current table pte :
  kernel_wf st root paths rest -> free_count (frames st) = 0 -> current <> 0 ->
  memory st !! 0 = Some table -> table !! 0%nat = Some pte ->
  (Pte.flags pte = Panic \/
   Pte.is_present pte = Ok true /\ Pte.is_huge pte = Ok false /\
     exists f, Pte.frame pte = Ok f /\ memory st !! f = None) ->
  duplicate current root st = (st, Panic).
Proof.
  intros Hk Hfree Hc Htab Hpte Hbad.
  assert (allocate_node st = (st, Err NoFrame)) as Ha.
  { destruct (kernel_alloc_node st root paths rest Hk) as [[_ E]|(n & fa & E & _)]; [done|exfalso].
    unfold allocate_node, with_frames, bindM in E.
    destruct (allocate_cases (frames st) (own_wf _ _ (kw_owned _ _ _ _ Hk))) as [(_ & _ & Ea)|(Hne & _)]; [|lia].
    by rewrite Ea in E. }
  unfold duplicate. change (duplicate_subtree 3 root st) with
    ((let! dst_frame := allocate_node in fun st =>
        match duplicate_entries (Some (duplicate_subtree 2)) root dst_frame ENTRIES st with
        | (st, Ok _) => (st, Ok dst_frame)
        | (st, Err e) => fail_dropping dst_frame e st
        | (st, Panic) => (st, Panic)
        end) st).
  rewrite (bindM_err _ _ _ _ _ Ha). unfold mapping_drop. rewrite (proj2 (Z.eqb_neq _ _) Hc).
  assert (drop_entry (Some (drop_subtree 2 true)) true 0 0 false st = (st, Panic)) as Hd.
  { unfold drop_entry.
    assert (read_pte (0, 0) st = (st, Ok pte)) as Hr
      by (unfold read_pte, page_table, bindM; cbn; rewrite Htab; unfold liftM, index; cbn -[lookup Z.to_nat]; change (Z.to_nat 0) with 0%nat; by rewrite Hpte).
    rewrite (bindM_ok _ _ _ _ _ Hr). destruct Hbad as [Hbad|(Hpr & Hhu & f & Hfr & Hmiss)];
      [unfold Pte.is_present, bindM; by rewrite Hbad|].
    rewrite Hpr, Hhu. unfold bindM at 1 2, liftM. cbn [negb]. rewrite Hfr.
    assert (drop_subtree 2 true f st = (st, Panic)) as Hs.
    { cbn [drop_subtree]. unfold ENTRIES. change (seqZ 0 PAGE_TABLE_ENTRY_COUNT) with (0 :: seqZ 1 511).
      cbn [drop_entries]. unfold bindM at 1 2, drop_entry at 1, bindM at 1, read_pte, page_table, bindM at 1.
      cbn [fst]. by rewrite Hmiss. }
    unfold bindM. by rewrite Hs. }
  unfold bindM at 1 2. change (drop_subtree 3 true 0 st) with
    ((let! u := drop_entries (Some (drop_subtree 2 true)) true 0 ENTRIES false in retM (true || negb u)) st).
  unfold ENTRIES. change (seqZ 0 PAGE_TABLE_ENTRY_COUNT) with (0 :: seqZ 1 511). cbn [drop_entries].
  unfold bindM at 1 2. by rewrite Hd.
Qed.

(** ** Witnesses *)

(** The sample memory with the page of address 20480 mapped: the caller's frame and
    three frames of tables are in use. *)
Definition mapped_kmem : Kmem := (map_at 0 20480 4096 USER_RW sample_kmem).1.

Lemma mapped_kernel_wf : exists paths, kernel_wf mapped_kmem 0 paths [].
Proof.
  destruct (map_at_spec sample_kmem 0 [] 4096 [] USER_RW 20480)
    as [(st & path & ps & H1 & Hk & _)|(st & e & ps & H & _)].
  - apply sample_kernel_wf.
  - by apply is_flags_const.
  - reflexivity.
  - unfold canonical. lia.
  - unfold mapped_kmem. rewrite H1. by exists ps.
  - exfalso. assert (is_ok (map_at 0 20480 4096 USER_RW sample_kmem).2 = true) as Hok by (vm_compute; reflexivity).
    rewrite H in Hok. discriminate Hok.
Qed.

Lemma mapping_drop_releases_witness :
  exists st', mapping_drop 4096 0 mapped_kmem = (st', Ok tt) /\ owned (frames st') [].
Proof.
  destruct mapped_kernel_wf as [paths Hk].
  destruct (mapping_drop_releases mapped_kmem 0 paths [] 4096) as (st' & H & Ho & _).
  - exact Hk.
  - discriminate.
  - exists st'. split; [exact H|exact Ho].
Defined.

Lemma unmap_unused_exact_witness :
  exists st' paths', unmap_unused_intermediate 0 mapped_kmem = (st', Ok tt) /\ kernel_wf st' 0 paths' [].
Proof.
  destruct mapped_kernel_wf as [paths Hk].
  destruct (unmap_unused_exact mapped_kmem 0 paths []) as (st' & ps & Hk' & _ & _ & [[_ H]|[_ H]]).
  - exact Hk.
  - exists st', ps. split; [exact H|exact Hk'].
  - exfalso. assert (is_ok (unmap_unused_intermediate 0 mapped_kmem).2 = true) as Hok by (vm_compute; reflexivity).
    rewrite H in Hok. discriminate Hok.
Defined.

(** A machine with two frames: frame 0 holds the interrupt vectors of the firmware,
    frame 1 is an empty root table; no frame is free. *)
Definition vectors_table : list Z := 0xF000FF53F000FF53 :: replicate 511 0xF000FF53F000FF53.

Definition vectors_kmem : Kmem :=
  mkKmem (mkFrameAllocator Absent false [Absent; Used 1] 0 None)
    (<[0 := vectors_table]> (<[4096 := empty_table]> ∅)).

Lemma vectors_kernel_wf : kernel_wf vectors_kmem 4096 [] [].
Proof.
  assert (memory vectors_kmem !! 4096 = Some empty_table) as H0 by (vm_compute; reflexivity).
  assert (forall i, child (memory vectors_kmem) 4096 i = None) as Hc.
  { intros i. unfold child. rewrite H0. cbn [mbind option_bind].
    destruct (empty_table !! i) as [x|] eqn:Ex; [|done]. by apply lookup_replicate in Ex as [-> _]. }
  assert (forall l f, node (memory vectors_kmem) 4096 l = Some f -> l = [] /\ f = 4096) as Hn.
  { intros [|i l] f; cbn; [by intros [= <-]|]. by rewrite Hc. }
  split.
  - split.
    + intros l f _ [-> ->]%Hn. exists empty_table. split; [done|apply empty_table_ok].
    + intros l1 l2 f _ _ [-> _]%Hn [-> _]%Hn. done.
  - split.
    + split; cbn; [lia|done|exists []; cbn; split; [done|split; [constructor|split; [done|]]]|].
      * intros [|[|i]] next H; cbn in H; try discriminate H; done.
      * intros [|[|i]] rc H; cbn in H; try discriminate H. by injection H as <-.
    + intros f ->%list_elem_of_singleton. by apply is_frame_check.
    + intros i rc Hi H. unfold info_at in H. cbn in H.
      destruct (Z.to_nat i) as [|[|j]] eqn:Ei; cbn in H; try discriminate H.
      injection H as <-. replace i with 1 by lia. reflexivity.
    + intros f next ->%list_elem_of_singleton. vm_compute. discriminate.
  - constructor.
  - intros l. split; [by intros H%not_elem_of_nil|]. intros [Hl [f [-> _]%Hn]]. cbn in Hl. lia.
  - intros i Hi. cbn in Hi. assert (i = 0 \/ i = 1) as [-> | ->] by lia; vm_compute; eauto.
Qed.

Lemma duplicate_out_of_frames_panics_witness : duplicate 4096 4096 vectors_kmem = (vectors_kmem, Panic).
Proof.
  apply (duplicate_out_of_frames_panics vectors_kmem 4096 [] [] 4096 vectors_table 0xF000FF53F000FF53).
  - apply vectors_kernel_wf.
  - reflexivity.
  - discriminate.
  - vm_compute. reflexivity.
  - reflexivity.
  - left. vm_compute. reflexivity.
Defined.
