(* ===== verification/MappingCopy.v ===== *)
(** * MappingCopy: duplicating a mapping

    Proves [Mapping::duplicate] of [kernel/src/memory/mapping.rs] correct: the copy
    is a page table tree of its own that shares exactly the kernel pages of the
    original.  The operation is defined in [MappingTree]. *)

From Stdlib Require Import ZArith Lia.
From stdpp Require Import base list numbers tactics gmap sorting.
From S2P Require Import Prelude Addr Frage Block Mmu FrameAllocator Mapping MappingTree.

Open Scope Z_scope.
Open Scope outcome_scope.

(** ** Trees under construction

    A tree of height [H] below the frame [n]: its tables are well formed, outside
    the frames [G] and not shared; [R] are the references its entries own.  A page
    is a tree of height 0. *)
Record fresh_tree (H : nat) (G : list Z) (mem : gmap Z (list Z)) (n : Z) (R : list Z) : Prop := {
  ft_table : forall l f, (length l < H)%nat -> node mem n l = Some f ->
    (f ∉ G) /\ exists table, mem !! f = Some table /\ table_ok (S (length l) =? H)%nat table;
  ft_inj : forall l1 l2 f, (length l1 < H)%nat -> (length l2 < H)%nat ->
    node mem n l1 = Some f -> node mem n l2 = Some f -> l1 = l2;
  ft_refs : exists P, NoDup P /\ (forall l, l ∈ P <-> (1 <= length l <= H)%nat /\ is_Some (node mem n l)) /\
    R ≡ₚ refs mem n P;
}.

(** The memory of the frames [G] is unchanged. *)
Definition stable (G : list Z) (mem mem' : gmap Z (list Z)) : Prop :=
  forall f, f ∈ G -> mem' !! f = mem !! f.

Lemma stable_refl G mem : stable G mem mem.
Proof. done. Qed.

Lemma stable_trans G mem1 mem2 mem3 : stable G mem1 mem2 -> stable G mem2 mem3 -> stable G mem1 mem3.
Proof. intros H1 H2 f Hf. by rewrite H2, H1. Qed.

Lemma stable_incl G G' mem mem' : G ⊆ G' -> stable G' mem mem' -> stable G mem mem'.
Proof. intros Hi Hs f Hf. by apply Hs, Hi. Qed.

(** Walks through unchanged tables. *)
Lemma node_tables mem mem' n l :
  (forall p g i r, l = p ++ i :: r -> node mem n p = Some g -> mem' !! g = mem !! g) ->
  node mem' n l = node mem n l.
Proof.
  intros H. apply node_agree. intros p g i r Hl Hg. unfold child. by rewrite (H p g i r Hl Hg).
Qed.

Lemma prefix_shorter {A} (l p : list A) i r : l = p ++ i :: r -> (length p < length l)%nat.
Proof. intros ->. rewrite length_app. cbn. lia. Qed.

Section Tree.
  Context (H : nat) (G : list Z) (mem : gmap Z (list Z)) (n : Z) (R : list Z).
  Context (Ht : fresh_tree H G mem n R).

(** The tables below the top are among the references. *)
Lemma tree_tables l f : (1 <= length l <= H)%nat -> node mem n l = Some f -> f ∈ R.
Proof using Ht.
  intros Hl Hf. destruct (ft_refs _ _ _ _ _ Ht) as (P & _ & HP & ->).
  apply list_elem_of_fmap. exists l. rewrite Hf. split; [done|]. apply HP. split; [done|by eexists].
Qed.

(** A tree is not affected by changes elsewhere. *)
Lemma tree_stable_node mem' l :
  stable (n :: R) mem mem' -> (length l <= H)%nat -> node mem' n l = node mem n l.
Proof using Ht.
  intros Hs Hl. apply node_tables. intros p g i r Heq Hg. apply Hs. pose proof (prefix_shorter _ _ _ _ Heq).
  destruct p as [|j p]; [injection Hg as <-; left|right]. apply (tree_tables (j :: p)); [cbn in *; lia|done].
Qed.

Lemma tree_stable mem' : (1 <= H)%nat -> stable (n :: R) mem mem' -> fresh_tree H G mem' n R.
Proof using Ht.
  intros HH Hs. pose proof (fun l => tree_stable_node mem' l Hs) as Hn. split.
  - intros l f Hl Hf. rewrite Hn in Hf by lia. destruct (ft_table _ _ _ _ _ Ht l f Hl Hf) as (Hg & table & Htab & Hok).
    split; [done|]. exists table. split; [|done]. rewrite Hs; [done|].
    destruct l as [|j l]; [injection Hf as <-; left|right]. apply (tree_tables (j :: l)); [cbn in *; lia|done].
  - intros l1 l2 f H1 H2. rewrite !Hn by lia. by apply (ft_inj _ _ _ _ _ Ht).
  - destruct (ft_refs _ _ _ _ _ Ht) as (P & Hnd & HP & HR). exists P. split; [done|]. split.
    + intros l. rewrite HP. split; intros [? ?]; (split; [done|]); rewrite Hn in * by lia; done.
    + rewrite (refs_ext mem mem'); [done|]. intros l Hl. apply Hn. apply HP in Hl. lia.
Qed.

End Tree.

(** ** Writing an entry of the top table *)
Section TopWrite.
  Context (H : nat) (G : list Z) (mem : gmap Z (list Z)) (n : Z) (R : list Z).
  Context (Ht : fresh_tree (S H) G mem n R).
  Context (table : list Z) (i : nat) (pte : Z).
  Context (Htab : mem !! n = Some table) (Hi : (i < length table)%nat) (Hnone : child mem n i = None).

Let mem' := <[n := <[i := pte]> table]> mem.

Lemma top_child g j : child mem' g j = if decide (g = n /\ j = i) then target pte else child mem g j.
Proof using Htab Hi. by apply child_write. Qed.

(** Walks that start with another entry are unchanged. *)
Lemma top_other j l : j <> i -> (length l <= H)%nat -> node mem' n (j :: l) = node mem n (j :: l).
Proof using Ht Htab Hi.
  intros Hj Hl. apply node_agree. intros p g k r Heq Hg. rewrite top_child.
  destruct (decide (g = n /\ k = i)) as [[-> ->]|]; [|done]. exfalso.
  pose proof (prefix_shorter _ _ _ _ Heq) as Hp. cbn in Hp.
  assert (p = []) as -> by (apply (ft_inj _ _ _ _ _ Ht p [] n); cbn; (lia || done)).
  by injection Heq as ->.
Qed.

Lemma top_self l : node mem' n (i :: l) = (c ← target pte; node mem' c l).
Proof using Htab Hi. cbn. by rewrite top_child, decide_True. Qed.

(** Writing an entry that leads nowhere. *)
Lemma top_scribble : target pte = None -> entry_ok (0 =? H)%nat pte -> fresh_tree (S H) G mem' n R.
Proof using Ht Htab Hi Hnone.
  intros Htg Hok.
  assert (forall l, (length l <= S H)%nat -> node mem' n l = node mem n l) as Hn.
  { intros [|j l] Hl; [done|]. destruct (decide (j = i)) as [->|Hj]; [|apply top_other; [done|cbn in Hl; lia]].
    rewrite top_self, Htg. cbn. by rewrite Hnone. }
  split.
  - intros l f Hl Hf. rewrite Hn in Hf by lia. destruct (ft_table _ _ _ _ _ Ht l f Hl Hf) as (Hg & t & Htt & Hto).
    split; [done|]. unfold mem'. destruct (decide (f = n)) as [->|Hne].
    + rewrite lookup_insert_eq. eexists. split; [done|]. rewrite Htab in Htt. injection Htt as <-.
      assert (l = []) as -> by (apply (ft_inj _ _ _ _ _ Ht l [] n); cbn; (lia || done)).
      by apply table_ok_write.
    + rewrite lookup_insert_ne by done. eauto.
  - intros l1 l2 f H1 H2. rewrite !Hn by lia. by apply (ft_inj _ _ _ _ _ Ht).
  - destruct (ft_refs _ _ _ _ _ Ht) as (P & Hnd & HP & HR). exists P. split; [done|]. split.
    + intros l. rewrite HP. split; intros [? ?]; (split; [done|]); rewrite Hn in * by lia; done.
    + rewrite (refs_ext mem mem'); [done|]. intros l Hl. apply Hn. apply HP in Hl. lia.
Qed.

(** The pages mapped through the other entries are unchanged. *)
Lemma top_leaf_other l j :
  length l = H -> head (l ++ [j]) <> Some i -> leaf_pte mem' n l j = leaf_pte mem n l j.
Proof using Ht Htab Hi.
  intros Hl Hh. unfold leaf_pte. destruct l as [|k l].
  - cbn [node mbind option_bind]. unfold mem'. rewrite lookup_insert_eq, Htab. cbn [mbind option_bind].
    rewrite list_lookup_insert_ne; [done|]. intros <-. by apply Hh.
  - cbn in Hl. rewrite top_other by (congruence || lia || (intros ->; by apply Hh)).
    destruct (node mem n (k :: l)) as [g|] eqn:Eg; [|done]. cbn [mbind option_bind]. unfold mem'.
    rewrite lookup_insert_ne; [done|]. intros <-.
    pose proof (ft_inj _ _ _ _ _ Ht (k :: l) [] n ltac:(cbn; lia) ltac:(cbn; lia) Eg eq_refl). done.
Qed.

Lemma top_leaf_self l j :
  length l = H -> head (l ++ [j]) = Some i ->
  leaf_pte mem' n l j =
    match l with
    | [] => match target pte with Some _ => Some pte | None => None end
    | _ :: l => c ← target pte; leaf_pte mem' c l j
    end.
Proof using Htab Hi.
  intros Hl Hh. destruct l as [|k l]; injection Hh as ->.
  - unfold leaf_pte, mem'. cbn [node mbind option_bind]. rewrite lookup_insert_eq. cbn [mbind option_bind].
    by rewrite list_lookup_insert_eq.
  - unfold leaf_pte at 1. rewrite top_self. by destruct (target pte).
Qed.

(** Linking a finished tree of the next lower height. *)
Section Graft.
  Context (c : Z) (R1 : list Z) (Hc : fresh_tree H (n :: R ++ G) mem c R1).
  Context (Htg : target pte = Some c) (Hok : entry_ok (0 =? H)%nat pte).

Lemma graft_node l : (length l <= H)%nat -> node mem' c l = node mem c l.
Proof using Hi Hc.
  intros Hl. apply node_tables. intros p g j r Heq Hg. unfold mem'. apply lookup_insert_ne. intros <-.
  pose proof (prefix_shorter _ _ _ _ Heq) as Hp.
  destruct (ft_table _ _ _ _ _ Hc p n ltac:(lia) Hg) as [Hn _]. apply Hn. left.
Qed.

Lemma graft_self l : (length l <= H)%nat -> node mem' n (i :: l) = node mem c l.
Proof using Htab Hi Hc Htg. intros Hl. rewrite top_self, Htg. cbn. by apply graft_node. Qed.

(** A table of the new tree is one of the grafted tree or an old one. *)
Lemma graft_case l f :
  (length l < S H)%nat -> node mem' n l = Some f ->
  (exists l', l = i :: l' /\ (length l' < H)%nat /\ node mem c l' = Some f) \/
  ((forall l', l <> i :: l') /\ node mem n l = Some f).
Proof using Ht Htab Hi Hc Htg.
  destruct l as [|j l]; intros Hl Hf; [by right|]. cbn in Hl. destruct (decide (j = i)) as [->|Hj].
  - left. exists l. rewrite graft_self in Hf by lia. by split; [|split; [lia|]].
  - right. rewrite top_other in Hf by (done || lia). split; [congruence|done].
Qed.

Lemma graft_refs : exists P, NoDup P /\
  (forall l, l ∈ P <-> (1 <= length l <= S H)%nat /\ is_Some (node mem' n l)) /\ c :: R1 ++ R ≡ₚ refs mem' n P.
Proof using Ht Htab Hi Hnone Hc Htg.
  destruct (ft_refs _ _ _ _ _ Ht) as (P & Hnd & HP & HR), (ft_refs _ _ _ _ _ Hc) as (P1 & Hnd1 & HP1 & HR1).
  assert (forall l, l ∈ P -> exists j l', l = j :: l' /\ j <> i /\ (length l' <= H)%nat) as HPi.
  { intros [|j l] [Hl [f Hf]]%HP; cbn in Hl; [lia|]. exists j, l. split; [done|]. split; [|lia].
    intros ->. cbn in Hf. by rewrite Hnone in Hf. }
  exists ((cons i <$> ([] :: P1)) ++ P). split; [|split].
  - apply NoDup_app. split; [|split; [|done]].
    + apply NoDup_fmap_2; [by intros ? ? [= ->]|]. constructor; [|done]. intros [Hl _]%HP1. cbn in Hl. lia.
    + intros l (l' & -> & _)%list_elem_of_fmap (j & l'' & [= <- <-] & Hj & _)%HPi. done.
  - intros l. rewrite elem_of_app, list_elem_of_fmap. split.
    + intros [(l' & -> & [->|Hl']%elem_of_cons)|Hl].
      * split; [cbn; lia|]. rewrite graft_self by (cbn; lia). by eexists.
      * apply HP1 in Hl' as [Hl' Hs]. split; [cbn; lia|]. by rewrite graft_self by lia.
      * destruct (HPi l Hl) as (j & l' & -> & Hj & Hl'). apply HP in Hl as [Hl Hs]. split; [done|].
        by rewrite top_other.
    + intros [Hl Hs]. destruct l as [|j l]; [cbn in Hl; lia|]. cbn in Hl. destruct (decide (j = i)) as [->|Hj].
      * left. exists l. split; [done|]. destruct l as [|k l]; [left|right]. apply HP1.
        rewrite graft_self in Hs by lia. cbn in *. split; [lia|done].
      * right. apply HP. rewrite top_other in Hs by (done || lia). split; [cbn; lia|done].
  - unfold refs. rewrite fmap_app, HR, HR1. cbn [fmap list_fmap app].
    rewrite (graft_self [] ltac:(cbn; lia)). cbn [node default]. constructor. apply Permutation_app.
    + rewrite <- list_fmap_compose. apply reflexive_eq, list_fmap_ext. intros k l Hl. cbn [compose].
      rewrite graft_self; [done|]. apply list_elem_of_lookup_2, HP1 in Hl. lia.
    + apply reflexive_eq, list_fmap_ext. intros k l Hl.
      destruct (HPi l (list_elem_of_lookup_2 _ _ _ Hl)) as (j & l' & -> & Hj & Hl'). by rewrite top_other.
Qed.

Lemma graft_tree : fresh_tree (S H) G mem' n (c :: R1 ++ R).
Proof using Ht Htab Hi Hnone Hc Htg Hok.
  assert (forall l f, (length l <= H)%nat -> node mem n l = Some f -> f ∈ n :: R) as Hold.
  { intros [|j l] f Hl Hf; [injection Hf as <-; left|right]. apply (tree_tables _ _ _ _ _ Ht (j :: l)); [cbn in *; lia|done]. }
  assert (forall l f, (length l < H)%nat -> node mem c l = Some f -> f ∉ n :: R ++ G) as Hnew
    by (intros l f Hl Hf; apply (ft_table _ _ _ _ _ Hc l f Hl Hf)).
  split; [| |apply graft_refs].
  - intros l f Hl Hf. destruct (graft_case l f Hl Hf) as [(l' & -> & Hl' & Hf')|[Hne Hf']].
    + destruct (ft_table _ _ _ _ _ Hc l' f Hl' Hf') as (Hg & t & Htt & Hto).
      rewrite elem_of_cons, elem_of_app in Hg. split; [tauto|].
      exists t. split; [|done]. unfold mem'. rewrite lookup_insert_ne; [done|]. intros <-. tauto.
    + destruct (ft_table _ _ _ _ _ Ht l f Hl Hf') as (Hg & t & Htt & Hto). split; [done|].
      unfold mem'. destruct (decide (f = n)) as [->|Hfn].
      * rewrite lookup_insert_eq. eexists. split; [done|]. rewrite Htab in Htt. injection Htt as <-.
        assert (l = []) as -> by (apply (ft_inj _ _ _ _ _ Ht l [] n); cbn; (lia || done)).
        by apply table_ok_write.
      * rewrite lookup_insert_ne by done. eauto.
  - assert (forall l l' f, (length l <= H)%nat -> (length l' < H)%nat -> node mem n l = Some f ->
      node mem c l' = Some f -> False) as Hmixed.
    { intros l l' f Hl Hl' Hf Hf'. apply (Hnew l' f Hl' Hf'). pose proof (Hold l f Hl Hf) as Hin.
      rewrite elem_of_cons in *. rewrite elem_of_app. tauto. }
    intros l1 l2 f H1 H2 Hf1 Hf2.
    destruct (graft_case l1 f H1 Hf1) as [(a & -> & Ha & Hfa)|[_ Ha]], (graft_case l2 f H2 Hf2) as [(b & -> & Hb & Hfb)|[_ Hb]].
    + f_equal. by apply (ft_inj _ _ _ _ _ Hc a b f).
    + destruct (Hmixed l2 a f); done || lia.
    + destruct (Hmixed l1 b f); done || lia.
    + by apply (ft_inj _ _ _ _ _ Ht l1 l2 f).
Qed.

Lemma graft_leaf l j : (length l < H)%nat -> leaf_pte mem' c l j = leaf_pte mem c l j.
Proof using Hi Hc.
  intros Hl. unfold leaf_pte. rewrite graft_node by lia. destruct (node mem c l) as [g|] eqn:Eg; [|done].
  cbn [mbind option_bind]. unfold mem'. rewrite lookup_insert_ne; [done|]. intros <-.
  destruct (ft_table _ _ _ _ _ Hc l n Hl Eg) as [Hn _]. apply Hn. left.
Qed.

End Graft.

End TopWrite.

(** ** The source of a copy *)

(** A tree of tables at level [level] and below, all of whose frames are held. *)
Record source_ok (level : nat) (mem : gmap Z (list Z)) (src : Z) (G : list Z) : Prop := {
  so_held : forall l f, (length l <= S level)%nat -> node mem src l = Some f -> f ∈ G;
  so_table : forall l f, (length l <= level)%nat -> node mem src l = Some f ->
    exists table, mem !! f = Some table /\ table_ok (length l =? level)%nat table;
}.

Lemma source_stable_node level mem mem' src G l :
  source_ok level mem src G -> stable G mem mem' -> (length l <= S level)%nat -> node mem' src l = node mem src l.
Proof.
  intros Hs Hst Hl. apply node_tables. intros p g i r Heq Hg. apply Hst.
  pose proof (prefix_shorter _ _ _ _ Heq). apply (so_held _ _ _ _ Hs p); [lia|done].
Qed.

Lemma source_stable level mem mem' src G :
  source_ok level mem src G -> stable G mem mem' -> source_ok level mem' src G.
Proof.
  intros Hs Hst. split.
  - intros l f Hl. rewrite (source_stable_node level mem) with (G := G) by done. by apply (so_held _ _ _ _ Hs).
  - intros l f Hl Hf. rewrite (source_stable_node level mem) with (G := G) in Hf by (done || lia).
    rewrite Hst by (apply (so_held _ _ _ _ Hs l); [lia|done]). by apply (so_table _ _ _ _ Hs).
Qed.

Lemma source_stable_leaf level mem mem' src G l j :
  source_ok level mem src G -> stable G mem mem' -> length l = level ->
  leaf_pte mem' src l j = leaf_pte mem src l j.
Proof.
  intros Hs Hst Hl. unfold leaf_pte. rewrite (source_stable_node level mem) with (G := G) by (done || lia).
  destruct (node mem src l) as [g|] eqn:Eg; [|done]. cbn.
  by rewrite Hst by (apply (so_held _ _ _ _ Hs l); [lia|done]).
Qed.

Lemma source_incl level mem src G G' : source_ok level mem src G -> G ⊆ G' -> source_ok level mem src G'.
Proof. intros [Hh Ht] Hi. split; [|done]. intros l f Hl Hf. by eapply Hi, Hh. Qed.

Lemma source_child level mem src G i f :
  source_ok (S level) mem src G -> child mem src i = Some f -> source_ok level mem f G.
Proof.
  intros [Hh Ht] Hc. split; intros l g Hl Hg.
  - apply (Hh (i :: l)); [cbn; lia|]. cbn. by rewrite Hc.
  - apply (Ht (i :: l)); [cbn; lia|]. cbn. by rewrite Hc.
Qed.

(** ** The frames a copy needs *)

(** The tables of a tree of tables at [level] and below. *)
Fixpoint tables (level : nat) (mem : gmap Z (list Z)) (src : Z) : Z :=
  match level with
  | O => 1
  | S level =>
      1 + foldr (fun i n => match child mem src i with Some f => tables level mem f | None => 0 end + n) 0 (seq 0 512)
  end.

(** The tables reached through the entry [i], and through the entries [l]. *)
Definition entry_tables (level : nat) (mem : gmap Z (list Z)) (src : Z) (i : nat) : Z :=
  match level with
  | O => 0
  | S level => match child mem src i with Some f => tables level mem f | None => 0 end
  end.

Definition entries_tables (level : nat) (mem : gmap Z (list Z)) (src : Z) (l : list nat) : Z :=
  foldr (fun i n => entry_tables level mem src i + n) 0 l.

Lemma foldr_sum_ext (f g : nat -> Z) l : (forall i, i ∈ l -> f i = g i) ->
  foldr (fun i n => f i + n) 0 l = foldr (fun i n => g i + n) 0 l.
Proof.
  induction l as [|i l IH]; intros H; [done|]. cbn. rewrite H by left. rewrite IH; [done|]. intros j Hj. apply H. by right.
Qed.

Lemma tables_entries level mem src : tables level mem src = 1 + entries_tables level mem src (seq 0 512).
Proof.
  destruct level as [|level]; [|done]. unfold entries_tables. cbn [tables].
  assert (forall l, foldr (fun i n => entry_tables 0 mem src i + n) 0 l = 0) as ->; [|done].
  induction l as [|i l IH]; [done|]. cbn in *. lia.
Qed.

Lemma tables_positive level mem src : 1 <= tables level mem src.
Proof.
  revert src. induction level as [|level IH]; intros src; [done|]. cbn [tables].
  assert (forall l, 0 <= foldr (fun i n => match child mem src i with Some f => tables level mem f | None => 0 end + n) 0 l)
    as H; [|specialize (H (seq 0 512)); lia].
  induction l as [|i l IHl]; [done|]. cbn. destruct (child mem src i) as [f|]; [specialize (IH f)|]; lia.
Qed.

Lemma entry_tables_nonneg level mem src i : 0 <= entry_tables level mem src i.
Proof.
  destruct level as [|level]; [done|]. cbn. destruct (child mem src i) as [f|]; [|done].
  pose proof (tables_positive level mem f). lia.
Qed.

Lemma entries_tables_nonneg level mem src l : 0 <= entries_tables level mem src l.
Proof.
  induction l as [|i l IH]; [done|]. cbn. pose proof (entry_tables_nonneg level mem src i).
  unfold entries_tables in IH. lia.
Qed.

Lemma source_stable_child level mem mem' src G i :
  source_ok level mem src G -> stable G mem mem' -> child mem' src i = child mem src i.
Proof.
  intros Hs Hst. unfold child. rewrite Hst; [done|]. apply (so_held _ _ _ _ Hs []); [cbn; lia|done].
Qed.

Lemma tables_stable level mem mem' src G :
  source_ok level mem src G -> stable G mem mem' -> tables level mem' src = tables level mem src.
Proof.
  revert src. induction level as [|level IH]; intros src Hs Hst; [done|]. cbn [tables]. f_equal.
  apply foldr_sum_ext. intros i _. rewrite (source_stable_child (S level) mem mem' src G) by done.
  destruct (child mem src i) as [f|] eqn:E; [|done]. apply IH; [|done]. by apply (source_child level mem src G i).
Qed.

Lemma entry_tables_stable level mem mem' src G i :
  source_ok level mem src G -> stable G mem mem' -> entry_tables level mem' src i = entry_tables level mem src i.
Proof.
  intros Hs Hst. destruct level as [|level]; [done|]. cbn. rewrite (source_stable_child (S level) mem mem' src G) by done.
  destruct (child mem src i) as [f|] eqn:E; [|done]. apply (tables_stable level mem mem' f G); [|done].
  by apply (source_child level mem src G i).
Qed.

Lemma entries_tables_stable level mem mem' src G l :
  source_ok level mem src G -> stable G mem mem' -> entries_tables level mem' src l = entries_tables level mem src l.
Proof.
  intros Hs Hst. apply (foldr_sum_ext (entry_tables level mem' src) (entry_tables level mem src)).
  intros i _. by apply (entry_tables_stable level mem mem' src G).
Qed.

Lemma reference_free_count f fa fa' r : reference f fa = (fa', r) -> free_count fa' = free_count fa.
Proof.
  unfold reference. intros E. repeat case_match; by simplify_eq.
Qed.

Lemma allocate_node_free st st' n : allocate_node st = (st', Ok n) ->
  free_count (frames st') = free_count (frames st) - 1.
Proof.
  unfold allocate_node, with_frames, bindM, page_table, liftM. intros E.
  destruct (allocate (frames st)) as [fa [f| |]] eqn:Ea; [|done..]. cbn in E.
  destruct (memory st !! f); [|done]. cbn in E. simplify_eq/=.
  unfold allocate in Ea. repeat case_match; by simplify_eq/=.
Qed.

(** ** The pages of a copy: the kernel pages of the source. *)
Definition kernel_only (o : option Z) : option Z :=
  pte ← o; match Pte.is_user pte with Ok true => None | _ => Some pte end.

(** The references a tree of height [H] owns are at most this many. *)
Fixpoint most_refs (H : nat) : Z :=
  match H with O => 0 | S H => 512 * (1 + most_refs H) end.

Lemma most_refs_nonneg H : 0 <= most_refs H.
Proof. induction H; cbn -[Z.mul]; lia. Qed.

Definition memory_ok (st : Kmem) : Prop :=
  forall i, 0 <= i < Z.of_nat (length (frame_info (frames st))) -> is_Some (memory st !! (i * L0_SIZE)).

(** A tree whose entries are being written. *)
Record building (level : nat) (st : Kmem) (G : list Z) (n : Z) (R : list Z) : Prop := {
  bd_owned : owned (frames st) (n :: R ++ G);
  bd_tree : fresh_tree (S level) G (memory st) n R;
  bd_memory : memory_ok st;
}.

(** The outcome of copying the entry [i], or the whole table. *)
Definition entry_result (level : nat) (st : Kmem) (G : list Z) (src n : Z) (R : list Z) (i : nat)
    (r : Kmem * outcome unit) : Prop :=
  (exists st' R', r = (st', Ok tt) /\ building level st' G n R' /\ stable G (memory st) (memory st') /\
     Z.of_nat (length R') <= Z.of_nat (length R) + 1 + most_refs level /\
     (forall j, j <> i -> child (memory st') n j = child (memory st) n j) /\
     (forall l j, length l = level -> leaf_pte (memory st') n l j =
        if decide (head (l ++ [j]) = Some i) then kernel_only (leaf_pte (memory st) src l j)
        else leaf_pte (memory st) n l j) /\
     free_count (frames st') = free_count (frames st) - entry_tables level (memory st) src i) \/
  (exists st' X, r = (st', Err NoFrame) /\ owned (frames st') (n :: X ++ G) /\
     stable G (memory st) (memory st') /\ memory_ok st' /\
     free_count (frames st) < entry_tables level (memory st) src i).

Definition table_result (level : nat) (st : Kmem) (G : list Z) (src : Z) (r : Kmem * outcome Z) : Prop :=
  (exists st' n R, r = (st', Ok n) /\ building level st' G n R /\ stable G (memory st) (memory st') /\
     (n ∉ G) /\ Z.of_nat (length R) <= most_refs (S level) /\
     (forall l j, length l = level -> leaf_pte (memory st') n l j = kernel_only (leaf_pte (memory st) src l j)) /\
     free_count (frames st') = free_count (frames st) - tables level (memory st) src) \/
  (exists st' X, r = (st', Err NoFrame) /\ owned (frames st') (X ++ G) /\
     stable G (memory st) (memory st') /\ memory_ok st' /\ free_count (frames st) < tables level (memory st) src).

Definition copies (level : nat) (descend : Z -> M Kmem Z) : Prop :=
  forall st G src, owned (frames st) G -> memory_ok st -> source_ok level (memory st) src G ->
    Z.of_nat (length G) + 1 + most_refs (S level) < USIZE_MAX ->
    table_result level st G src (descend src st).

Lemma page_tree G mem f : fresh_tree 0 G mem f [].
Proof.
  split; [intros l g Hl; lia|intros l1 l2 g Hl; lia|]. exists []. split; [constructor|]. split; [|done].
  intros l. split; [by intros ?%elem_of_nil|]. intros [? _]. lia.
Qed.

(** Linking a page or a finished copy. *)
Lemma graft_all level G mem n R table i pte c R1 :
  fresh_tree (S level) G mem n R -> mem !! n = Some table -> (i < length table)%nat -> child mem n i = None ->
  fresh_tree level (n :: R ++ G) mem c R1 -> target pte = Some c -> entry_ok (0 =? level)%nat pte ->
  let mem' := <[n := <[i := pte]> table]> mem in
  fresh_tree (S level) G mem' n (c :: R1 ++ R) /\
  forall l j, length l = level -> leaf_pte mem' n l j =
    if decide (head (l ++ [j]) = Some i) then match l with [] => Some pte | _ :: l => leaf_pte mem c l j end
    else leaf_pte mem n l j.
Proof.
  intros Ht Htab Hi Hnone Hc Htg Hok mem'. split; [by apply (graft_tree level)|].
  intros l j Hl. destruct (decide _) as [Hh|Hh]; [|by apply (top_leaf_other level G _ _ R)].
  unfold mem'. rewrite (top_leaf_self level) by done. rewrite Htg. destruct l as [|k l]; [done|]. cbn [mbind option_bind].
  apply (graft_leaf level G mem n R table i pte Hi c R1 Hc). cbn in Hl. lia.
Qed.

(** ** Copying one entry *)
Section CopyEntry.
  Context (level : nat) (st : Kmem) (G : list Z) (src n : Z) (R : list Z) (i : Z).
  Context (Hb : building level st G n R) (Hsrc : source_ok level (memory st) src G).
  Context (Hi : 0 <= i < 512) (Hnone : child (memory st) n (Z.to_nat i) = None).

Let idx := Z.to_nat i.

Lemma top_table : exists table, memory st !! n = Some table /\ length table = 512%nat /\ (n ∉ G).
Proof using All.
  destruct (ft_table _ _ _ _ _ (bd_tree _ _ _ _ _ Hb) [] n (Nat.lt_0_succ _) eq_refl) as (Hg & table & Ht & Hlen & _). eauto.
Qed.

Lemma read_source : exists pte, read_pte (src, i) st = (st, Ok pte) /\ entry_ok (0 =? level)%nat pte /\
  child (memory st) src idx = target pte /\
  leaf_pte (memory st) src [] idx = match target pte with Some _ => Some pte | None => None end.
Proof using All.
  destruct (so_table _ _ _ _ Hsrc [] src ltac:(cbn; lia) eq_refl) as (table & Ht & Hlen & Hall).
  destruct (lookup_lt_is_Some_2 table idx) as [pte Hpte]; [unfold idx; lia|]. exists pte. split; [|split; [|split]].
  - unfold read_pte, page_table, bindM. cbn. rewrite Ht. cbn. unfold liftM. f_equal. apply index_ok. by split; [lia|].
  - rewrite Forall_lookup in Hall. by eapply Hall.
  - unfold child. rewrite Ht. cbn. by rewrite Hpte.
  - unfold leaf_pte. cbn. rewrite Ht. cbn. by rewrite Hpte.
Qed.

(** Nothing is mapped through a source entry that leads nowhere. *)
Lemma source_dead l j :
  length l = level -> head (l ++ [j]) = Some idx -> child (memory st) src idx = None ->
  leaf_pte (memory st) src l j = None.
Proof using All.
  intros Hl Hh Hc. destruct l as [|k l]; injection Hh as ->.
  - destruct (leaf_pte (memory st) src [] idx) as [x|] eqn:E; [|done]. unfold leaf_pte in E. unfold child in Hc. cbn in E.
    destruct (memory st !! src); [|done]. cbn in *. destruct (l !! idx); [|done]. cbn in *. by rewrite Hc in E.
  - unfold leaf_pte. cbn. by rewrite Hc.
Qed.

Section Written.
  Context (table : list Z) (Htab : memory st !! n = Some table) (Hlen : length table = 512%nat) (Hn : n ∉ G).

Let mem' pte := <[n := <[idx := pte]> table]> (memory st).

Lemma write_top pte : write_pte (n, i) pte st = (mkKmem (frames st) (mem' pte), Ok tt).
Proof using All.
  unfold write_pte. cbn [fst snd]. rewrite Htab. cbn [unwrap_some]. by rewrite index_set_ok by lia.
Qed.

Lemma written_stable pte : stable G (memory st) (mem' pte).
Proof using All. intros f Hf. unfold mem'. rewrite lookup_insert_ne; [done|]. by intros <-. Qed.

Lemma written_memory fa pte :
  length (frame_info fa) = length (frame_info (frames st)) -> memory_ok (mkKmem fa (mem' pte)).
Proof using All.
  intros Hl j Hj. cbn in *. rewrite Hl in Hj. unfold mem'. rewrite lookup_insert_is_Some'. right.
  by apply (bd_memory _ _ _ _ _ Hb).
Qed.

Lemma written_child pte j : j <> idx -> child (mem' pte) n j = child (memory st) n j.
Proof using All.
  intros Hj. unfold mem'. rewrite child_write by (done || unfold idx; lia). rewrite decide_False; [done|]. tauto.
Qed.

(** The entry gets a value that leads nowhere. *)
Lemma scribble_result pte :
  target pte = None -> entry_ok (0 =? level)%nat pte ->
  (forall l j, length l = level -> head (l ++ [j]) = Some idx -> kernel_only (leaf_pte (memory st) src l j) = None) ->
  entry_tables level (memory st) src idx = 0 ->
  entry_result level st G src n R idx (write_pte (n, i) pte st).
Proof using All.
  intros Ht Hok Hs Hcost. left. rewrite write_top. eexists _, R. split; [done|].
  pose proof (bd_tree _ _ _ _ _ Hb) as Htree. assert (idx < length table)%nat as Hi' by (unfold idx; lia).
  split; [split; [apply (bd_owned _ _ _ _ _ Hb)| |by apply written_memory]|].
  { by apply (top_scribble _ _ _ _ _ Htree). }
  cbn [memory]. split; [apply written_stable|]. pose proof (most_refs_nonneg level). split; [lia|].
  split; [by apply written_child|]. split; [|rewrite Hcost; cbn; lia]. intros l j Hl. destruct (decide _) as [Hh|Hh].
  - rewrite Hs by done. unfold mem'. rewrite (top_leaf_self level) by done. rewrite Ht. by destruct l.
  - by apply (top_leaf_other level G _ _ R).
Qed.

End Written.

(** The entry is linked, in the state [st1] that has the same tables of the tree, and
    the references are those of [fa]. *)
Lemma graft_result mem1 fa pte c R1 :
  stable (n :: R ++ G) (memory st) mem1 ->
  owned fa (n :: (c :: R1 ++ R) ++ G) ->
  (forall j, 0 <= j < Z.of_nat (length (frame_info fa)) -> is_Some (mem1 !! (j * L0_SIZE))) ->
  fresh_tree level (n :: R ++ G) mem1 c R1 -> Z.of_nat (length R1) <= most_refs level ->
  target pte = Some c -> entry_ok (0 =? level)%nat pte ->
  (forall l j, length l = level -> head (l ++ [j]) = Some idx ->
     kernel_only (leaf_pte (memory st) src l j) = match l with [] => Some pte | _ :: l => leaf_pte mem1 c l j end) ->
  free_count fa = free_count (frames st) - entry_tables level (memory st) src idx ->
  exists mem', entry_result level st G src n R idx (mkKmem fa mem', Ok tt) /\
    forall fa1, write_pte (n, i) pte (mkKmem fa1 mem1) = (mkKmem fa1 mem', Ok tt).
Proof using All.
  intros Hst Ho Hmem Hc Hsize Ht Hok Hleaf Hcost. destruct top_table as (table & Htab & Hlen & Hn).
  assert (idx < length table)%nat as Hi' by (unfold idx; lia).
  assert (mem1 !! n = Some table) as Htab1 by (rewrite Hst; [done|left]).
  assert (stable (n :: R) (memory st) mem1) as Hst'
    by (eapply stable_incl, Hst; intros x; rewrite !elem_of_cons, elem_of_app; tauto).
  pose proof (tree_stable _ _ _ _ _ (bd_tree _ _ _ _ _ Hb) mem1 ltac:(lia) Hst') as Htree.
  assert (forall j, child mem1 n j = child (memory st) n j) as Hch by (intros j; unfold child; by rewrite Htab1, Htab).
  assert (child mem1 n idx = None) as Hnone1 by by rewrite Hch.
  destruct (graft_all level G mem1 n R table idx pte c R1 Htree Htab1 Hi' Hnone1 Hc Ht Hok) as [Htree' Hleaf'].
  exists (<[n := <[idx := pte]> table]> mem1). split.
  - left. eexists _, (c :: R1 ++ R). split; [done|]. split; [split; [done|done|]|].
    { intros j Hj. cbn in *. rewrite lookup_insert_is_Some'. right. by apply Hmem. }
    cbn [memory]. split; [|split; [|split; [|split; [|done]]]].
    + intros f Hf. rewrite lookup_insert_ne by by intros <-. apply Hst. right. apply elem_of_app. by right.
    + rewrite length_cons, length_app. lia.
    + intros j Hj. rewrite child_write by done. rewrite decide_False by tauto. apply Hch.
    + intros l j Hl. rewrite Hleaf' by done. destruct (decide _) as [Hh|Hh]; [by rewrite Hleaf|].
      unfold leaf_pte. rewrite (tree_stable_node _ _ _ _ _ (bd_tree _ _ _ _ _ Hb) mem1 l Hst') by lia.
      destruct (node (memory st) n l) as [g|] eqn:Eg; [|done]. cbn. rewrite Hst'; [done|].
      destruct l as [|k l]; [injection Eg as <-; left|right].
      apply (tree_tables _ _ _ _ _ (bd_tree _ _ _ _ _ Hb) (k :: l)); [cbn in *; lia|done].
  - intros fa1. unfold write_pte. cbn [fst snd memory frames]. rewrite Htab1. cbn [unwrap_some].
    by rewrite index_set_ok by lia.
Qed.

End CopyEntry.

Lemma is_user_view leaf pte :
  entry_ok leaf pte -> exists b, Pte.is_user pte = Ok b.
Proof.
  intros (p & f & _ & _ & _ & Hfl & _)%entry_view. unfold Pte.is_user. rewrite Hfl. by eexists.
Qed.

Section CopyKinds.
  Context (level : nat) (st : Kmem) (G : list Z) (src n : Z) (R : list Z) (i : Z).
  Context (Hb : building level st G n R) (Hsrc : source_ok level (memory st) src G).
  Context (Hi : 0 <= i < 512) (Hnone : child (memory st) n (Z.to_nat i) = None).
  Context (Hlimit : Z.of_nat (length (n :: R ++ G)) + 1 + most_refs level < USIZE_MAX).
  Context (pte f : Z) (Hok : entry_ok (0 =? level)%nat pte) (Ht : target pte = Some f) (Hfr : Pte.frame pte = Ok f).
  Context (Hchild : child (memory st) src (Z.to_nat i) = Some f).

Lemma source_frame_held : f ∈ G.
Proof using All. apply (so_held _ _ _ _ Hsrc [Z.to_nat i]); [cbn; lia|]. cbn. by rewrite Hchild. Qed.

Lemma duplicate_leaf_result :
  level = 0%nat -> leaf_pte (memory st) src [] (Z.to_nat i) = Some pte ->
  entry_result level st G src n R (Z.to_nat i) (duplicate_leaf n i pte st).
Proof using All.
  intros Hlev Hleaf. destruct (is_user_view _ _ Hok) as [u Hu]. unfold duplicate_leaf. rewrite Hu.
  unfold bindM at 1, liftM at 1. destruct u.
  - destruct (top_table level st G src n R i Hb Hsrc Hi Hnone) as (table & Htab & Hlen & Hn).
    apply (scribble_result level st G src n R i Hb Hsrc Hi Hnone table Htab Hlen Hn); [done|apply zero_entry_ok| |by rewrite Hlev].
    intros l j Hl Hh. subst level. destruct l; [|done]. injection Hh as ->. rewrite Hleaf. cbn. by rewrite Hu.
  - pose proof source_frame_held as Hf. pose proof (bd_owned _ _ _ _ _ Hb) as Ho.
    destruct (owned_refer _ _ f Ho) as (fa & Er & Ho' & Hlen).
    { right. apply elem_of_app. by right. }
    { pose proof (references_length (n :: R ++ G) f). pose proof (most_refs_nonneg level). lia. }
    destruct (graft_result level st G src n R i Hb Hsrc Hi Hnone (memory st) fa pte f [])
      as (mem' & Hres & Hwrite).
    + apply stable_refl.
    + eapply owned_perm; [|exact Ho']. apply perm_swap.
    + rewrite Hlen. apply (bd_memory _ _ _ _ _ Hb).
    + rewrite Hlev. apply page_tree.
    + apply most_refs_nonneg.
    + done.
    + done.
    + intros l j Hl Hh. subst level. destruct l; [|done]. injection Hh as ->. rewrite Hleaf. cbn. by rewrite Hu.
    + rewrite (reference_free_count _ _ _ _ Er), Hlev. cbn. lia.
    + specialize (Hwrite (frames st)). replace (mkKmem (frames st) (memory st)) with st in Hwrite by by destruct st.
      rewrite (bindM_ok _ _ _ _ _ Hwrite), Hfr. unfold bindM, with_frames. cbn [frames memory]. by rewrite Er.
Qed.

Lemma duplicate_child_result level' descend :
  level = S level' -> copies level' descend ->
  entry_result level st G src n R (Z.to_nat i) (duplicate_child descend n i pte st).
Proof using All.
  intros Hlev Hd. unfold duplicate_child. rewrite Hfr. pose proof (bd_owned _ _ _ _ _ Hb) as Ho.
  pose proof Hsrc as Hsrc'. rewrite Hlev in Hsrc'.
  assert (G ⊆ n :: R ++ G) as Hincl by (intros x Hx; right; apply elem_of_app; by right).
  pose proof (source_incl _ _ _ _ _ (source_child _ _ _ _ _ _ Hsrc' Hchild) Hincl) as Hs1.
  destruct (Hd st (n :: R ++ G) f Ho (bd_memory _ _ _ _ _ Hb) Hs1) as
    [(st1 & c & R1 & E & Hb1 & Hst & Hc & Hsize & Hleaf & Hfree)|(st1 & X & E & Ho1 & Hst & Hm1 & Hfree)].
  { rewrite <- Hlev. lia. }
  - rewrite (bindM_ok _ _ _ _ _ E).
    destruct (entry_view _ _ Hok) as (p & fl & Hp & Hfl & Heq & Hflags & _ & _ & _ & _ & Hh & Htg).
    rewrite Ht in Htg. destruct (PageTableFlags.is_present fl) eqn:Epr; [|done].
    destruct (PageTableFlags.is_huge fl) eqn:Ehu; [done|].
    assert (is_frame c) as Hcf by (apply (own_frames _ _ (bd_owned _ _ _ _ _ Hb1)); left).
    set (pte' := Pte.set_phys c (Z.lor fl PageTableFlags.PRESENT)).
    assert (is_flags (Z.lor fl PageTableFlags.PRESENT)) as Hfl' by (apply is_flags_lor; [done|by apply is_flags_const]).
    assert (Pte.set_frame c fl = Ok pte') as Hset.
    { unfold Pte.set_frame. unfold PageTableFlags.is_huge in Ehu. by rewrite Ehu. }
    assert (target pte' = Some c) as Ht' by (unfold pte'; by rewrite target_set_phys, huge_lor, present_lor, Ehu, Epr).
    assert (entry_ok (0 =? level)%nat pte') as Hok'.
    { rewrite Hlev. eexists _, _. do 2 (split; [done|]). split; [done|]. cbn. by rewrite huge_lor, Ehu. }
    destruct (graft_result level st G src n R i Hb Hsrc Hi Hnone (memory st1) (frames st1) pte' c R1)
      as (mem' & Hres & Hwrite).
    + done.
    + eapply owned_perm; [|apply (bd_owned _ _ _ _ _ Hb1)]. cbn. rewrite <- Permutation_middle.
      rewrite <- app_assoc. apply perm_swap.
    + apply (bd_memory _ _ _ _ _ Hb1).
    + rewrite Hlev. apply (bd_tree _ _ _ _ _ Hb1).
    + by rewrite Hlev.
    + done.
    + done.
    + intros l j Hl Hhd. rewrite Hlev in Hl. destruct l as [|k l]; [done|]. injection Hhd as ->.
      rewrite Hleaf by (cbn in Hl; lia). unfold leaf_pte at 1. cbn [node]. rewrite Hchild. done.
    + rewrite Hlev. cbn [entry_tables]. by rewrite Hchild.
    + specialize (Hwrite (frames st1)). replace (mkKmem (frames st1) (memory st1)) with st1 in Hwrite by by destruct st1.
      unfold bindM at 1 2, liftM. rewrite Hflags, Hset. by rewrite Hwrite.
  - rewrite (bindM_err _ _ _ _ _ E). right. exists st1, (X ++ R). split; [done|]. split; [|split; [|split; [done|]]].
    3:{ rewrite Hlev. cbn [entry_tables]. by rewrite Hchild. }
    + eapply owned_perm; [|exact Ho1]. rewrite <- app_assoc. by rewrite <- Permutation_middle.
    + by eapply stable_incl, Hst.
Qed.

End CopyKinds.

(** ** Copying a table *)

Definition descend_copies (descend : option (Z -> M Kmem Z)) (level : nat) : Prop :=
  match descend with
  | None => level = 0%nat
  | Some descend => exists level', level = S level' /\ copies level' descend
  end.

Lemma duplicate_entry_result level descend st G src n R i :
  descend_copies descend level -> building level st G n R -> source_ok level (memory st) src G ->
  0 <= i < 512 -> child (memory st) n (Z.to_nat i) = None ->
  Z.of_nat (length (n :: R ++ G)) + 1 + most_refs level < USIZE_MAX ->
  entry_result level st G src n R (Z.to_nat i) (duplicate_entry descend src n i st).
Proof.
  intros Hd Hb Hsrc Hi Hnone Hlim.
  destruct (read_source level st G src n R i Hb Hsrc Hi Hnone) as (pte & Hread & Hok & Hchild & Hleaf).
  destruct (top_table level st G src n R i Hb Hsrc Hi Hnone) as (table & Htab & Hlen & Hn).
  destruct (entry_view _ _ Hok) as (p & f & _ & _ & _ & _ & _ & Hpr & Hhu & Hfr & _ & Ht).
  unfold duplicate_entry. rewrite (bindM_ok _ _ _ _ _ Hread), Hpr, Hhu. unfold bindM at 1, liftM at 1.
  assert (forall v, target v = None -> entry_ok (0 =? level)%nat v -> target pte = None ->
    entry_result level st G src n R (Z.to_nat i) (write_pte (n, i) v st)) as Hscribble.
  { intros v Hv Hvok Htn. apply (scribble_result level st G src n R i Hb Hsrc Hi Hnone table Htab Hlen Hn); [done|done| |].
    - intros l j Hl Hh. rewrite (source_dead level st G src n R i Hb Hsrc Hi Hnone); [done|done|done|by rewrite Hchild].
    - destruct level; [done|]. cbn [entry_tables]. by rewrite Hchild, Htn. }
  destruct (PageTableFlags.is_present f) eqn:Ep; cbn [negb]; [|apply Hscribble; [done|apply zero_entry_ok|done]].
  unfold bindM at 1, liftM at 1. destruct (PageTableFlags.is_huge f) eqn:Eh; [by apply Hscribble|].
  destruct (Hfr eq_refl) as [Hfr' _]. cbn in Ht. rewrite Ht in Hchild, Hleaf.
  destruct descend as [d|]; cbn in Hd.
  - destruct Hd as (level' & Hlev & Hd). by apply (duplicate_child_result level st G src n R i Hb Hsrc Hi Hnone Hlim pte p Hok Ht Hfr' Hchild level').
  - by apply (duplicate_leaf_result level st G src n R i Hb Hsrc Hi Hnone Hlim pte p).
Qed.

(** The entry of the top table that leads to an entry below it. *)
Definition first_entry (l : list nat) (j : nat) : nat := match l with [] => j | k :: _ => k end.

Lemma head_first l j : head (l ++ [j]) = Some (first_entry l j).
Proof. by destruct l. Qed.

(** The outcome of copying the entries [entries]. *)
Definition entries_result (level : nat) (st : Kmem) (G : list Z) (src n : Z) (R : list Z) (entries : list nat)
    (r : Kmem * outcome unit) : Prop :=
  (exists st' R', r = (st', Ok tt) /\ building level st' G n R' /\ stable G (memory st) (memory st') /\
     Z.of_nat (length R') <= Z.of_nat (length R) + Z.of_nat (length entries) * (1 + most_refs level) /\
     (forall l j, length l = level -> leaf_pte (memory st') n l j =
        if decide (first_entry l j ∈ entries) then kernel_only (leaf_pte (memory st) src l j)
        else leaf_pte (memory st) n l j) /\
     free_count (frames st') = free_count (frames st) - entries_tables level (memory st) src entries) \/
  (exists st' X, r = (st', Err NoFrame) /\ owned (frames st') (n :: X ++ G) /\
     stable G (memory st) (memory st') /\ memory_ok st' /\
     free_count (frames st) < entries_tables level (memory st) src entries).

Lemma duplicate_entries_result level descend G src n entries :
  descend_copies descend level -> NoDup entries -> Forall (fun i => 0 <= i < 512) entries ->
  forall st R, building level st G n R -> source_ok level (memory st) src G ->
  (forall i, i ∈ entries -> child (memory st) n (Z.to_nat i) = None) ->
  Z.of_nat (length (n :: R ++ G)) + Z.of_nat (length entries) * (1 + most_refs level) < USIZE_MAX ->
  entries_result level st G src n R (Z.to_nat <$> entries) (duplicate_entries descend src n entries st).
Proof.
  intros Hd Hnd Hall. induction entries as [|i entries IH]; intros st R Hb Hsrc Hnone Hlim.
  { left. exists st, R. split; [done|]. split; [done|]. split; [apply stable_refl|]. cbn. split; [lia|].
    split; [|lia]. intros l j _. rewrite decide_False; [done|apply not_elem_of_nil]. }
  apply list.NoDup_cons in Hnd as [Hni Hnd]. inversion Hall as [|? ? Hi Hall']. subst. cbn [duplicate_entries].
  pose proof (most_refs_nonneg level) as Hpos. rewrite (length_cons i entries) in Hlim.
  assert (0 <= Z.of_nat (length entries) * (1 + most_refs level)) as Hpos' by (apply Z.mul_nonneg_nonneg; lia).
  rewrite Nat2Z.inj_succ, Z.mul_succ_l in Hlim.
  destruct (duplicate_entry_result level descend st G src n R i Hd Hb Hsrc Hi (Hnone i ltac:(left)) ltac:(lia))
    as [(st1 & R1 & E & Hb1 & Hst1 & Hsz1 & Hch1 & Hl1 & Hfree1)|(st1 & X & E & Ho1 & Hst1 & Hm1 & Hfree1)].
  2: { rewrite (bindM_err _ _ _ _ _ E). right. exists st1, X. do 4 (split; [done|]). rewrite fmap_cons. cbn [entries_tables foldr].
    pose proof (entries_tables_nonneg level (memory st) src (Z.to_nat <$> entries)). unfold entries_tables in *. lia. }
  rewrite (bindM_ok _ _ _ _ _ E). pose proof (entries_tables_stable level _ _ src G (Z.to_nat <$> entries) Hsrc Hst1) as Hcost.
  assert (forall i', i' ∈ entries -> Z.to_nat i' <> Z.to_nat i) as Hdiff.
  { intros i' Hi' Heq. rewrite Forall_forall in Hall'. specialize (Hall' _ Hi'). apply Hni. by replace i with i' by lia. }
  rewrite length_cons, length_app in Hlim.
  destruct (IH Hnd Hall' st1 R1 Hb1 (source_stable _ _ _ _ _ Hsrc Hst1)) as
    [(st2 & R2 & E2 & Hb2 & Hst2 & Hsz2 & Hl2 & Hfree2)|(st2 & X & E2 & Ho2 & Hst2 & Hm2 & Hfree2)].
  { intros i' Hi'. rewrite Hch1 by by apply Hdiff. apply Hnone. by right. }
  { rewrite length_cons, length_app. lia. }
  - left. exists st2, R2. split; [done|]. split; [done|]. split; [by eapply stable_trans|].
    rewrite fmap_cons, length_cons. split; [rewrite length_fmap, Nat2Z.inj_succ, Z.mul_succ_l in *; lia|].
    split; [|cbn [entries_tables foldr]; unfold entries_tables in *; lia]. intros l j Hl.
    rewrite Hl2, Hl1 by done. rewrite (source_stable_leaf level (memory st) (memory st1) src G l j Hsrc Hst1 Hl).
    rewrite head_first.
    destruct (decide (first_entry l j ∈ Z.to_nat <$> entries)) as [Hin|Hin].
    + by rewrite decide_True by by right.
    + destruct (decide (Some (first_entry l j) = Some (Z.to_nat i))) as [Heq|Hne].
      * injection Heq as ->. by rewrite decide_True by left.
      * rewrite decide_False; [done|]. intros [Heq|?]%elem_of_cons; [apply Hne; by f_equal|done].
  - right. exists st2, X. split; [done|]. split; [done|]. split; [by eapply stable_trans|]. split; [done|].
    rewrite fmap_cons. cbn [entries_tables foldr]. unfold entries_tables in *. lia.
Qed.

(** A table without entries. *)
Lemma empty_leaf mem n l j : (forall k, child mem n k = None) -> mem !! n = Some empty_table -> leaf_pte mem n l j = None.
Proof.
  intros Hc Hn. unfold leaf_pte. destruct l as [|k l]; cbn [node mbind option_bind].
  - rewrite Hn. cbn [mbind option_bind]. destruct (empty_table !! j) as [x|] eqn:E; [|done]. by apply lookup_replicate in E as [-> _].
  - by rewrite Hc.
Qed.

Lemma empty_child mem n k : mem !! n = Some empty_table -> child mem n k = None.
Proof.
  intros Hn. unfold child. rewrite Hn. cbn [mbind option_bind]. destruct (empty_table !! k) as [x|] eqn:E; [|done].
  by apply lookup_replicate in E as [-> _].
Qed.

Lemma empty_tree H G mem n : mem !! n = Some empty_table -> n ∉ G -> fresh_tree (S H) G mem n [].
Proof.
  intros Hn Hg. assert (forall l f, node mem n l = Some f -> l = [] /\ f = n) as Honly.
  { intros [|k l] f; cbn; [by intros [= <-]|]. by rewrite empty_child. }
  split.
  - intros l f _ [-> ->]%Honly. split; [done|]. exists empty_table. split; [done|apply empty_table_ok].
  - by intros l1 l2 f _ _ [-> _]%Honly [-> _]%Honly.
  - exists []. split; [constructor|]. split; [|done]. intros l. split; [by intros ?%elem_of_nil|].
    intros [Hl [f [-> _]%Honly]]. cbn in Hl. lia.
Qed.

Lemma source_beyond level mem src G l j :
  source_ok level mem src G -> length l = level -> (512 <= first_entry l j)%nat -> leaf_pte mem src l j = None.
Proof.
  intros Hs Hl Hf. destruct (so_table _ _ _ _ Hs [] src ltac:(cbn; lia) eq_refl) as (table & Ht & Hlen & _).
  unfold leaf_pte. destruct l as [|k l]; cbn in *.
  - rewrite Ht. cbn. by rewrite lookup_ge_None_2 by lia.
  - unfold child. rewrite Ht. cbn. by rewrite lookup_ge_None_2 by lia.
Qed.

Lemma entries_seq : Z.to_nat <$> ENTRIES = seq 0 512.
Proof. vm_compute. reflexivity. Qed.

Lemma duplicate_table_result level descend st G src :
  descend_copies descend level -> owned (frames st) G -> memory_ok st -> source_ok level (memory st) src G ->
  Z.of_nat (length G) + 1 + most_refs (S level) < USIZE_MAX ->
  table_result level st G src
    ((let! dst_frame := allocate_node in fun st =>
        match duplicate_entries descend src dst_frame ENTRIES st with
        | (st, Ok _) => (st, Ok dst_frame)
        | (st, Err e) => fail_dropping dst_frame e st
        | (st, Panic) => (st, Panic)
        end) st).
Proof.
  intros Hd Ho Hm Hsrc Hlim.
  destruct (owned_alloc_node st G Ho Hm) as [[E0 E]|(n & fa & E & _ & Hn & Ho1 & Hlen)].
  { rewrite (bindM_err _ _ _ _ _ E). right. exists st, []. do 4 (split; [done|]). pose proof (tables_positive level (memory st) src). lia. }
  pose proof (allocate_node_free _ _ _ E) as Hfree. cbn [frames] in Hfree.
  rewrite (bindM_ok _ _ _ _ _ E). set (st1 := mkKmem fa (<[n := empty_table]> (memory st))).
  assert (stable G (memory st) (memory st1)) as Hst1.
  { intros f Hf. unfold st1. cbn [memory]. rewrite lookup_insert_ne; [done|]. by intros ->. }
  assert (memory st1 !! n = Some empty_table) as Hn1 by apply lookup_insert_eq.
  assert (building level st1 G n []) as Hb1.
  { split; [done|by apply empty_tree|]. intros i Hi. unfold st1 in *. cbn [frames memory] in *.
    rewrite lookup_insert_is_Some'. right. apply Hm. by rewrite <- Hlen. }
  destruct entries_full as (Hnd & Hall & Hfull).
  assert (length ENTRIES = 512%nat) as Hcount by reflexivity.
  destruct (duplicate_entries_result level descend G src n ENTRIES Hd Hnd Hall st1 [] Hb1
              (source_stable _ _ _ _ _ Hsrc Hst1)) as
    [(st2 & R & E2 & Hb2 & Hst2 & Hsz & Hl2 & Hfree2)|(st2 & X & E2 & Ho2 & Hst2 & Hm2 & Hfree2)].
  { intros i _. by apply empty_child. }
  { rewrite Hcount. cbn [most_refs length app] in *. lia. }
  - pose proof (entries_tables_stable level _ _ src G (Z.to_nat <$> ENTRIES) Hsrc Hst1) as Hcost.
    rewrite E2. left. exists st2, n, R. split; [done|]. split; [done|]. split; [by eapply stable_trans|].
    split; [done|]. split; [rewrite length_fmap, Hcount in Hsz; cbn [most_refs length] in *; lia|].
    split; [|rewrite tables_entries, <- entries_seq; cbn [frames st1] in *; lia].
    intros l j Hl. rewrite Hl2 by done. rewrite (source_stable_leaf level (memory st) (memory st1) src G l j Hsrc Hst1 Hl).
    destruct (decide _) as [|Hout]; [done|]. rewrite empty_leaf by (done || intros; by apply empty_child).
    rewrite (source_beyond level (memory st) src G); [done|done|done|].
    destruct (decide (first_entry l j < 512)%nat); [|lia]. by destruct Hout; apply Hfull.
  - pose proof (entries_tables_stable level _ _ src G (Z.to_nat <$> ENTRIES) Hsrc Hst1) as Hcost.
    rewrite E2. destruct (owned_drop _ [] n (X ++ G) Ho2) as (fa3 & Hdrop & Ho3).
    right. exists (mkKmem fa3 (memory st2)), X.
    unfold fail_dropping, bindM, with_frames. rewrite Hdrop. split; [done|]. split; [done|].
    split; [by eapply stable_trans|]. split; [|rewrite tables_entries, <- entries_seq; cbn [frames st1] in *; lia].
    intros i Hi. cbn in *. apply Hm2. by rewrite <- (deallocate_length _ _ _ _ Hdrop).
Qed.

Lemma duplicate_subtree_copies level : copies level (duplicate_subtree level).
Proof.
  induction level as [|level IH]; intros st G src Ho Hm Hsrc Hlim; cbn [duplicate_subtree];
    apply duplicate_table_result; try done. by exists level.
Qed.

(** ** Whole mappings *)

(** All references in circulation, for a mapping with the references [rest] held
    elsewhere. *)
Definition held (st : Kmem) (root : Z) (paths : list (list nat)) (rest : list Z) : list Z :=
  rest ++ root :: refs (memory st) root paths.

Lemma mapping_source st root paths rest :
  kernel_wf st root paths rest -> source_ok 3 (memory st) root (held st root paths rest).
Proof.
  intros Hk. split.
  - intros l f Hl Hf. apply elem_of_app. right. destruct l as [|j l]; [injection Hf as <-; left|right].
    apply list_elem_of_fmap. exists (j :: l). rewrite Hf. split; [done|].
    apply (kw_paths _ _ _ _ Hk). cbn in *. split; [lia|by eexists].
  - intros l f Hl Hf. by apply (tw_table _ _ (kw_tree _ _ _ _ Hk)).
Qed.

(** The original is intact, with the references of the copy held elsewhere. *)
Lemma original_intact st st' root paths rest extra :
  kernel_wf st root paths rest -> stable (held st root paths rest) (memory st) (memory st') ->
  owned (frames st') (extra ++ held st root paths rest) -> memory_ok st' ->
  kernel_wf st' root paths (extra ++ rest) /\ forall v, same_mapping st st' root v.
Proof.
  intros Hk Hst Ho Hm. pose proof (mapping_source _ _ _ _ Hk) as Hsrc.
  assert (forall l, (length l <= 4)%nat -> node (memory st') root l = node (memory st) root l) as Hn
    by (intros l Hl; by apply (source_stable_node 3 (memory st) (memory st') root _ l Hsrc Hst)).
  assert (tree_wf (memory st') root) as Ht.
  { split.
    - intros l f Hl Hf. apply (so_table _ _ _ _ (source_stable _ _ _ _ _ Hsrc Hst) l f); done.
    - intros l1 l2 f H1 H2. rewrite !Hn by lia. by apply (tw_inj _ _ (kw_tree _ _ _ _ Hk)). }
  split; [split; [done| |apply (kw_nodup _ _ _ _ Hk)| |done]|].
  - rewrite (refs_ext (memory st)).
    + by rewrite <- app_assoc.
    + intros l Hl. apply Hn. apply (kw_paths _ _ _ _ Hk) in Hl. lia.
  - intros l. rewrite (kw_paths _ _ _ _ Hk). split; intros [? ?]; (split; [done|]); rewrite Hn in * by lia; done.
  - intros v. apply same_mapping_leaf; [apply (kw_tree _ _ _ _ Hk)|done|].
    by apply (source_stable_leaf 3 (memory st) (memory st') root _ _ _ Hsrc Hst).
Qed.

(** A finished copy is a mapping. *)
Lemma copy_mapping st G n R :
  building 3 st G n R -> exists paths, kernel_wf st n paths G /\ R ≡ₚ refs (memory st) n paths.
Proof.
  intros [Ho Ht Hm]. destruct (ft_refs _ _ _ _ _ Ht) as (P & Hnd & HP & HR). exists P. split; [|done].
  split; [split|..]; try done.
  - intros l f Hl Hf. by destruct (ft_table _ _ _ _ _ Ht l f ltac:(lia) Hf) as [_ ?].
  - intros l1 l2 f H1 H2. apply (ft_inj _ _ _ _ _ Ht); lia.
  - eapply owned_perm; [|exact Ho]. rewrite HR. rewrite <- Permutation_middle. constructor. apply Permutation_app_comm.
Qed.

(** What an address translates to in the copy, given its translation in the original:
    user pages and huge pages are not translated. *)
Definition kernel_translation (r : outcome (Z * Z)) (r' : outcome (Z * Z)) : Prop :=
  match r with
  | Ok (frame, flags) =>
      if PageTableFlags.is_user flags then exists e, r' = Err e else r' = Ok (frame, flags)
  | _ => exists e, r' = Err e
  end.

Lemma copy_resolves st st' root dst v :
  tree_wf (memory st) root -> tree_wf (memory st') dst ->
  leaf_pte (memory st') dst (leaf_path v) (idx v 0) = kernel_only (leaf_pte (memory st) root (leaf_path v) (idx v 0)) ->
  kernel_translation (resolve root v st).2 (resolve dst v st').2.
Proof.
  intros Ht Ht' Hl. pose proof (resolve_spec st root v Ht) as H. pose proof (resolve_spec st' dst v Ht') as H'.
  rewrite Hl in H'. unfold kernel_only in H'.
  destruct (leaf_pte (memory st) root (leaf_path v) (idx v 0)) as [pte|]; cbn in H'.
  - destruct H as (p & f & Hp & Hf & E & ->). cbn.
    assert (Pte.is_user pte = Ok (PageTableFlags.is_user f)) as Hu
      by (unfold Pte.is_user; by rewrite E, set_phys_flags).
    rewrite Hu in H'. destruct (PageTableFlags.is_user f).
    + destruct H' as (e & ->). by exists e.
    + destruct H' as (p' & f' & Hp' & Hf' & E' & ->). cbn. rewrite E in E'.
      by destruct (set_phys_inj p f p' f' Hp Hf Hp' Hf' E') as [-> ->].
  - destruct H as (e & ->), H' as (e' & ->). cbn. eauto.
Qed.

(** A table without present entries, and what dropping it as a mapping does. *)
Definition blank_table (st : Kmem) (f : Z) : Prop :=
  exists table, memory st !! f = Some table /\ length table = 512%nat /\
    Forall (fun pte => Pte.is_present pte = Ok false) table.

Lemma drop_blank descend f st l : blank_table st f -> Forall (fun i => 0 <= i < 512) l ->
  forall used, drop_entries descend true f l used st = (st, Ok used).
Proof.
  intros (table & Ht & Hlen & Hall). induction 1 as [|i l Hi _ IH]; intros used; [done|]. cbn [drop_entries].
  destruct (lookup_lt_is_Some_2 table (Z.to_nat i)) as [pte Hpte]; [lia|].
  assert (read_pte (f, i) st = (st, Ok pte)) as Hr.
  { unfold read_pte, page_table, bindM. cbn [fst snd]. rewrite Ht. cbn [unwrap_some]. unfold liftM. f_equal.
    apply index_ok. by split; [lia|]. }
  rewrite (bindM_ok _ _ _ st used); [apply IH|]. unfold drop_entry. rewrite (bindM_ok _ _ _ _ _ Hr).
  rewrite Forall_lookup in Hall. by rewrite (Hall _ _ Hpte).
Qed.

Lemma blank_drop st f root paths rest current : kernel_wf st root paths (f :: rest) -> current <> f ->
  blank_table st f ->
  exists st', mapping_drop current f st = (st', Ok tt) /\ memory st' = memory st /\ kernel_wf st' root paths rest.
Proof.
  intros Hk Hc Hb. destruct (kernel_drop st root paths f rest Hk) as (st' & E & Hm & Hk').
  exists st'. split; [|done]. unfold mapping_drop. rewrite (proj2 (Z.eqb_neq _ _) Hc).
  destruct entries_full as (_ & Hall & _).
  rewrite (bindM_ok _ _ _ st true); [done|]. cbn [drop_subtree].
  by rewrite (bindM_ok _ _ _ _ _ (drop_blank _ f st ENTRIES Hb Hall false)).
Qed.

Lemma kernel_wf_rest st root paths rest rest' : rest ≡ₚ rest' -> kernel_wf st root paths rest -> kernel_wf st root paths rest'.
Proof. intros Hp [Ht Ho Hnd Hpa Hm]. split; try done. eapply owned_perm; [|exact Ho]. by rewrite Hp. Qed.

Lemma duplicate_spec st root paths rest current :
  kernel_wf st root paths rest -> Z.of_nat (length (held st root paths rest)) < 2 ^ 63 ->
  if tables 3 (memory st) root <=? free_count (frames st) then
    exists st' dst paths', duplicate current root st = (st', Ok dst) /\
      kernel_wf st' dst paths' (held st root paths rest) /\
      kernel_wf st' root paths ((dst :: refs (memory st') dst paths') ++ rest) /\
      (forall v, same_mapping st st' root v) /\
      (forall v, kernel_translation (resolve root v st).2 (resolve dst v st').2) /\
      free_count (frames st') = free_count (frames st) - tables 3 (memory st) root
  else
    exists st1 leaked, duplicate current root st = (let! _ := mapping_drop current 0 in liftM (Err NoFrame)) st1 /\
      kernel_wf st1 root paths (leaked ++ rest) /\ (forall v, same_mapping st st1 root v) /\
      forall rest', rest ≡ₚ 0 :: rest' -> current <> 0 -> blank_table st 0 ->
        exists st2, duplicate current root st = (st2, Err NoFrame) /\
          kernel_wf st2 root paths (leaked ++ rest') /\ forall v, same_mapping st st2 root v.
Proof.
  intros Hk Hlim. pose proof (mapping_source _ _ _ _ Hk) as Hsrc.
  assert (most_refs 4 = 68853957120) as Hm4 by reflexivity.
  pose proof (tables_positive 3 (memory st) root) as Hpos.
  destruct (duplicate_subtree_copies 3 st (held st root paths rest) root (kw_owned _ _ _ _ Hk) (kw_memory _ _ _ _ Hk) Hsrc)
    as [(st' & n & R & E & Hb & Hst & Hn & _ & Hl & Hfree)|(st1 & X & E & Ho & Hst & Hm & Hfree)].
  { rewrite Hm4. change (2 ^ 63) with 9223372036854775808 in Hlim. lia. }
  - pose proof (free_count_bound _ (own_wf _ _ (bd_owned _ _ _ _ _ Hb))) as [Hge _].
    rewrite (proj2 (Z.leb_le _ _)) by lia. destruct (copy_mapping _ _ _ _ Hb) as (paths' & Hk' & HR).
    destruct (original_intact st st' root paths rest (n :: refs (memory st') n paths') Hk Hst) as [Hk2 Hsame].
    { eapply owned_perm; [|apply (bd_owned _ _ _ _ _ Hb)]. cbn. by rewrite HR. }
    { apply (bd_memory _ _ _ _ _ Hb). }
    exists st', n, paths'. unfold duplicate. rewrite E. do 4 (split; [done|]). split; [|done].
    intros v. apply copy_resolves; [by eapply kw_tree|by eapply kw_tree|]. by apply Hl.
  - rewrite (proj2 (Z.leb_gt _ _)) by lia.
    destruct (original_intact st st1 root paths rest X Hk Hst Ho Hm) as [Hk1 Hsame].
    exists st1, X. unfold duplicate. rewrite E. do 3 (split; [done|]). intros rest' Hp Hc (table & Ht & Hblank).
    assert (blank_table st1 0) as Hb1.
    { exists table. split; [|done]. rewrite Hst; [done|]. apply elem_of_app. left. rewrite Hp. left. }
    destruct (blank_drop st1 0 root paths (X ++ rest') current) as (st2 & Ed & Hm2 & Hk2); [|done|done|].
    { eapply kernel_wf_rest; [|exact Hk1]. by rewrite Hp, <- Permutation_middle. }
    exists st2. rewrite (bindM_ok _ _ _ _ _ Ed). split; [done|]. split; [done|].
    intros v. apply same_mapping_leaf; [apply (kw_tree _ _ _ _ Hk)|apply (kw_tree _ _ _ _ Hk2)|].
    rewrite Hm2. by apply (source_stable_leaf 3 (memory st) (memory st1) root _ _ _ Hsrc Hst).
Qed.

(** ** Properties *)

(** C10. Duplicating a mapping succeeds exactly when there is a free frame for each of
    its tables, and takes exactly these frames.  The copy is then a page table tree of
    its own whose tables are held by nobody else, it translates exactly the kernel
    pages of the original, to the same frames with the same flags, and none of its user
    pages; the original translates every address as before, and the reference counts
    account for both.  Without enough frames the original is intact when the building
    of the copy ends, with references leaked; then the code drops a mapping whose root
    is the frame 0.  If somebody holds the frame 0, it contains no present entry and it
    is not the current root, the answer is [NoFrame] and the original is intact, but
    one reference to the frame 0 is released; otherwise nothing is promised of the
    state that this drop leaves. *)
Theorem duplicate_shares_kernel_pages st root paths rest current :
  kernel_wf st root paths rest -> Z.of_nat (length (held st root paths rest)) < 2 ^ 63 ->
  if tables 3 (memory st) root <=? free_count (frames st) then
    exists st' dst paths', duplicate current root st = (st', Ok dst) /\
      kernel_wf st' dst paths' (held st root paths rest) /\
      kernel_wf st' root paths ((dst :: refs (memory st') dst paths') ++ rest) /\
      (forall v, same_mapping st st' root v) /\
      (forall v, kernel_translation (resolve root v st).2 (resolve dst v st').2) /\
      free_count (frames st') = free_count (frames st) - tables 3 (memory st) root
  else
    exists st1 leaked, duplicate current root st = (let! _ := mapping_drop current 0 in liftM (Err NoFrame)) st1 /\
      kernel_wf st1 root paths (leaked ++ rest) /\ (forall v, same_mapping st st1 root v) /\
      forall rest', rest ≡ₚ 0 :: rest' -> current <> 0 -> blank_table st 0 ->
        exists st2, duplicate current root st = (st2, Err NoFrame) /\
          kernel_wf st2 root paths (leaked ++ rest') /\ forall v, same_mapping st st2 root v.
Proof. apply duplicate_spec. Qed.

(** ** Witnesses *)

Lemma empty_kernel_wf st root rest : memory st !! root = Some empty_table -> owned (frames st) (root :: rest) ->
  memory_ok st -> kernel_wf st root [] rest.
Proof.
  intros H0 Ho Hm.
  assert (forall l f, node (memory st) root l = Some f -> l = [] /\ f = root) as Hn.
  { intros [|i l] f; cbn; [by intros [= <-]|]. by rewrite (empty_child _ _ i H0). }
  split; [split| | | |done].
  - intros l f _ [-> ->]%Hn. exists empty_table. split; [done|apply empty_table_ok].
  - intros l1 l2 f _ _ [-> _]%Hn [-> _]%Hn. done.
  - eapply owned_perm; [|exact Ho]. cbn. apply Permutation_cons_append.
  - constructor.
  - intros l. split; [by intros H%not_elem_of_nil|]. intros [Hl [f [-> _]%Hn]]. cbn in Hl. lia.
Qed.

(** Physical memory of [n] blank frames. *)
Definition blank_memory (n : nat) : gmap Z (list Z) :=
  list_to_map ((fun i => (Z.of_nat i * L0_SIZE, empty_table)) <$> seq 0 n).

(** Fourteen frames: frame 0 is held, frame 1 is the root table, frames 2 and 3 are
    about to be mapped, the others are free. *)
Definition roomy_frames : FrameAllocator :=
  mkFrameAllocator Absent false
    [Used 1; Used 1; Used 1; Used 1; Free None; Free (Some 4); Free (Some 5); Free (Some 6); Free (Some 7);
     Free (Some 8); Free (Some 9); Free (Some 10); Free (Some 11); Free (Some 12)] 10 (Some 13).

Definition roomy_kmem : Kmem := mkKmem roomy_frames (blank_memory 14).

Lemma roomy_owned : owned roomy_frames [4096; 8192; 12288; 0].
Proof.
  split.
  - split; cbn -[Z.of_nat]; [lia|done| |].
    + exists [13; 12; 11; 10; 9; 8; 7; 6; 5; 4]. split; [|split; [|split; [done|]]].
      * cbn. repeat (split; [done|split; [lia|]]; eexists; split; [done|]). done.
      * apply (bool_decide_unpack _). vm_compute. exact I.
      * intros i next H. do 14 (destruct i as [|i]; [cbn in *; set_solver|]). done.
    + intros i rc H. do 14 (destruct i as [|i]; [cbn in *; simplify_eq; lia|]). done.
  - intros f Hf. rewrite !elem_of_cons, elem_of_nil in Hf.
    destruct Hf as [->|[->|[->|[->|[]]]]]; by apply is_frame_check.
  - intros i rc Hi H. unfold info_at in H. replace i with (Z.of_nat (Z.to_nat i)) by lia. revert H.
    generalize (Z.to_nat i) as j. intros j H.
    do 14 (destruct j as [|j]; [vm_compute in H; vm_compute; congruence|]). done.
  - intros f next Hf. rewrite !elem_of_cons, elem_of_nil in Hf. by destruct Hf as [->|[->|[->|[->|[]]]]].
Qed.

Lemma roomy_kernel_wf : kernel_wf roomy_kmem 4096 [] [8192; 12288; 0].
Proof.
  apply empty_kernel_wf; [vm_compute; reflexivity|apply roomy_owned|].
  intros i Hi. cbn in Hi. replace i with (Z.of_nat (Z.to_nat i)) by lia.
  assert (Z.to_nat i < 14)%nat as Hj by lia. revert Hj. generalize (Z.to_nat i) as j. intros j Hj.
  do 14 (destruct j as [|j]; [vm_compute; eauto|]). lia.
Qed.

(** A kernel page and a user page are mapped. *)
Definition KERNEL_RW : Z := Z.lor PageTableFlags.PRESENT PageTableFlags.WRITABLE.
Definition copied_kmem : Kmem :=
  (map_at 4096 24576 12288 USER_RW (map_at 4096 20480 8192 KERNEL_RW roomy_kmem).1).1.

Lemma copied_kernel_wf : exists paths, kernel_wf copied_kmem 4096 paths [0].
Proof.
  destruct (map_at_spec roomy_kmem 4096 [] 8192 [12288; 0] KERNEL_RW 20480 roomy_kernel_wf) as
    [(st & path & ps & E & Hk & _)|(st & e & ps & E & _ & Hk & _)]; [by apply is_flags_const|done|unfold canonical; lia| |];
  (destruct (map_at_spec st 4096 ps 12288 [0] USER_RW 24576 Hk) as
    [(st' & path' & ps' & E' & Hk' & _)|(st' & e' & ps' & E' & _ & Hk' & _)]; [by apply is_flags_const|done|unfold canonical; lia| |];
   exists ps'; unfold copied_kmem; by rewrite E; cbn [fst]; rewrite E').
Qed.

(** Two frames: frame 0 is held and blank, frame 1 is the root table. *)
Definition full_kmem : Kmem := mkKmem (mkFrameAllocator Absent false [Used 1; Used 1] 0 None) (blank_memory 2).

Lemma full_kernel_wf : kernel_wf full_kmem 4096 [] [0].
Proof.
  apply empty_kernel_wf; [vm_compute; reflexivity| |].
  - split.
    + split; cbn; [lia|done|exists []; cbn; split; [done|split; [constructor|split; [done|]]]|].
      * intros [|[|i]] next H; cbn in H; discriminate H.
      * intros [|[|i]] rc H; cbn in H; try discriminate H; by injection H as <-.
    + intros f Hf. rewrite !elem_of_cons, elem_of_nil in Hf. destruct Hf as [->|[->|[]]]; by apply is_frame_check.
    + intros i rc Hi H. unfold info_at in H. cbn in H.
      destruct (Z.to_nat i) as [|[|j]] eqn:Ei; cbn in H; try discriminate H; injection H as <-;
        [replace i with 0 by lia|replace i with 1 by lia]; reflexivity.
    + intros f next Hf. rewrite !elem_of_cons, elem_of_nil in Hf. by destruct Hf as [->|[->|[]]].
  - intros i Hi. cbn in Hi. assert (i = 0 \/ i = 1) as [-> | ->] by lia; vm_compute; eauto.
Qed.

(** All walks of at most [n] steps. *)
Fixpoint walks (n : nat) : list (list nat) :=
  match n with
  | O => [[]]
  | S n => [] :: (i ← seq 0 512; cons i <$> walks n)
  end.

Lemma length_walks n : Z.of_nat (length (walks n)) = 1 + most_refs n.
Proof.
  induction n as [|n IH]; [done|]. cbn [walks most_refs length].
  assert (forall l : list nat, length (l ≫= (fun i => cons i <$> walks n)) = (length l * length (walks n))%nat) as ->.
  { induction l as [|i l IHl]; [done|]. cbn. by rewrite length_app, IHl, length_fmap. }
  rewrite length_seq. lia.
Qed.

Lemma elem_of_walks n l : (length l <= n)%nat -> Forall (fun i => (i < 512)%nat) l -> l ∈ walks n.
Proof.
  revert l. induction n as [|n IH]; intros l Hl Hall.
  - destruct l; [left|cbn in Hl; lia].
  - destruct Hall as [|i l Hi Hall]; [left|]. right. apply list_elem_of_bind. exists i. split; [|apply elem_of_seq; lia].
    apply list_elem_of_fmap. exists l. split; [done|]. apply IH; [cbn in Hl; lia|done].
Qed.

Lemma node_indexes mem root l f : tree_wf mem root -> (length l <= 4)%nat -> node mem root l = Some f ->
  Forall (fun i => (i < 512)%nat) l.
Proof.
  intros Ht. revert f. induction l as [|i l IH] using rev_ind; intros f Hl Hf; [constructor|].
  rewrite length_app in Hl. cbn in Hl. rewrite node_snoc in Hf.
  destruct (node mem root l) as [g|] eqn:Eg; [|done]. cbn in Hf. apply Forall_app. split; [by apply (IH g); [lia|]|].
  destruct (tw_table _ _ Ht l g ltac:(lia) Eg) as (table & Htab & Hlen & _).
  unfold child in Hf. rewrite Htab in Hf. cbn in Hf. destruct (table !! i) as [x|] eqn:Ex; [|done].
  apply lookup_lt_Some in Ex. constructor; [lia|constructor].
Qed.

Lemma held_length st root paths rest : kernel_wf st root paths rest -> Z.of_nat (length rest) < 2 ^ 62 ->
  Z.of_nat (length (held st root paths rest)) < 2 ^ 63.
Proof.
  intros Hk Hr. unfold held, refs. rewrite length_app, length_cons, length_fmap.
  assert (length paths <= length (walks 4))%nat as Hle.
  { apply submseteq_length, NoDup_submseteq; [apply (kw_nodup _ _ _ _ Hk)|]. intros l [Hl [f Hf]]%(kw_paths _ _ _ _ Hk).
    apply elem_of_walks; [lia|]. apply (node_indexes _ _ l f (kw_tree _ _ _ _ Hk)); [lia|done]. }
  pose proof (length_walks 4) as Hw. change (most_refs 4) with 68853957120 in Hw. lia.
Qed.

Lemma duplicate_shares_kernel_pages_witness :
  (exists st' dst, duplicate 4096 4096 copied_kmem = (st', Ok dst) /\
     (resolve dst 20500 st').2 = Ok (8192, KERNEL_RW) /\ exists e, (resolve dst 24600 st').2 = Err e) /\
  (exists st', duplicate 4096 4096 full_kmem = (st', Err NoFrame)).
Proof.
  split.
  - destruct copied_kernel_wf as [paths Hk].
    pose proof (duplicate_shares_kernel_pages copied_kmem 4096 paths [0] 4096 Hk
      (held_length _ _ _ _ Hk ltac:(cbn; lia))) as H.
    assert ((tables 3 (memory copied_kmem) 4096 <=? free_count (frames copied_kmem)) = true) as Hroom
      by (vm_compute; reflexivity).
    rewrite Hroom in H. destruct H as (st' & dst & ps & E & _ & _ & _ & Htr & _).
    exists st', dst. split; [exact E|]. pose proof (Htr 20500) as H1. pose proof (Htr 24600) as H2.
    assert ((resolve 4096 20500 copied_kmem).2 = Ok (8192, KERNEL_RW)) as E1 by (vm_compute; reflexivity).
    assert ((resolve 4096 24600 copied_kmem).2 = Ok (12288, USER_RW)) as E2 by (vm_compute; reflexivity).
    rewrite E1 in H1. rewrite E2 in H2. split; [exact H1|exact H2].
  - pose proof (duplicate_shares_kernel_pages full_kmem 4096 [] [0] 4096 full_kernel_wf
      (held_length _ _ _ _ full_kernel_wf ltac:(cbn; lia))) as H.
    assert ((tables 3 (memory full_kmem) 4096 <=? free_count (frames full_kmem)) = false) as Hroom
      by (vm_compute; reflexivity).
    rewrite Hroom in H. destruct H as (st1 & leaked & _ & _ & _ & Hfail).
    destruct (Hfail [] (Permutation_refl _)) as (st' & E & _).
    + discriminate.
    + exists empty_table. split; [vm_compute; reflexivity|]. split; [reflexivity|].
      apply Forall_replicate. reflexivity.
    + exists st'. exact E.
Defined.
