(* ===== verification/Pid.v ===== *)
(** * Pid: process identifiers

    Models [ku/src/process/pid.rs]: an identifier is a slot of the process table
    together with the epoch of the slot, and is passed to system calls in one
    register. *)

From Stdlib Require Import ZArith Lia.
From stdpp Require Import base list numbers tactics.
From S2P Require Import Prelude.

Open Scope Z_scope.
Open Scope outcome_scope.

Inductive Pid :=
  | Current
  | Id (epoch slot : Z).

#[export] Instance Pid_eq_dec : EqDecision Pid.
Proof. solve_decision. Defined.

Definition EPOCH_SHIFT : Z := 16.
Definition MAX_COUNT : Z := Z.shiftl 1 EPOCH_SHIFT.
Definition SLOT_MASK : Z := MAX_COUNT - 1.

Abbreviation U16_MODULUS := 65536.
Abbreviation U32_MODULUS := 4294967296.

(** [slot.try_into().unwrap()] panics on a number that is not a [u16]. *)
Definition pid_new (slot : Z) : outcome Pid :=
  if (0 <=? slot) && (slot <? U16_MODULUS) then Ok (Id 0 slot) else Panic.

(** [match self]: the fields are widened to [usize] before the shift. *)
Definition into_usize (pid : Pid) : Z :=
  match pid with
  | Current => USIZE_MAX - 1
  | Id epoch slot => Z.lor (shl64 epoch EPOCH_SHIFT) slot
  end.

Definition from_usize (pid : Z) : outcome Pid :=
  if pid =? USIZE_MAX - 1 then Ok Current
  else
    let result :=
      Id (Z.shiftr pid EPOCH_SHIFT mod U32_MODULUS) (Z.land pid SLOT_MASK mod U16_MODULUS) in
    if into_usize result =? pid then Ok result else Err InvalidArgument.

(** [unimplemented!()] for [Current]. *)
Definition pid_slot (pid : Pid) : outcome Z :=
  match pid with
  | Current => Panic
  | Id _ slot => Ok slot
  end.

Definition next_epoch (pid : Pid) : outcome Pid :=
  match pid with
  | Current => Panic
  | Id epoch slot => if epoch + 1 <? U32_MODULUS then Ok (Id (epoch + 1) slot) else Panic
  end.

(** ** The widths of the fields *)

Definition pid_wf (pid : Pid) : Prop :=
  match pid with
  | Current => True
  | Id epoch slot => 0 <= epoch < U32_MODULUS /\ 0 <= slot < U16_MODULUS
  end.

Lemma into_usize_id epoch slot :
  pid_wf (Id epoch slot) -> into_usize (Id epoch slot) = epoch * U16_MODULUS + slot.
Proof.
  intros [He Hs]. unfold into_usize, shl64, EPOCH_SHIFT. rewrite Z.shiftl_mul_pow2 by lia.
  change (2 ^ 16) with U16_MODULUS. rewrite Z.mod_small by lia.
  assert (Z.land (epoch * U16_MODULUS) slot = 0) as Hland.
  { apply Z.bits_inj'. intros n Hn. rewrite Z.land_spec, Z.bits_0.
    change U16_MODULUS with (2 ^ 16) in *. destruct (Z.ltb_spec n 16); [by rewrite Z.mul_pow2_bits_low|].
    rewrite (Z.bits_above_log2 slot n); [apply andb_false_r|lia|].
    destruct (decide (slot = 0)) as [->|]; [cbn; lia|].
    apply Z.lt_le_trans with 16; [|done]. apply Z.log2_lt_pow2; lia. }
  pose proof (Z.add_lor_land (epoch * U16_MODULUS) slot). lia.
Qed.

Lemma from_usize_fields w :
  is_usize w ->
  Z.shiftr w EPOCH_SHIFT mod U32_MODULUS = w / U16_MODULUS mod U32_MODULUS /\
  Z.land w SLOT_MASK mod U16_MODULUS = w mod U16_MODULUS.
Proof.
  intros Hw. unfold EPOCH_SHIFT. rewrite Z.shiftr_div_pow2 by lia. split; [done|].
  change SLOT_MASK with (Z.ones 16). rewrite Z.land_ones by lia. by rewrite Z.mod_mod.
Qed.

(** ** Theorems *)

(** The register encoding of a process identifier.  Every identifier decodes
    from its own encoding, and a register decodes exactly when it is the encoding
    of some identifier; every other value is refused with [InvalidArgument], so
    no two registers decode to the same identifier. *)
Theorem pid_register_roundtrip :
  (forall pid, pid_wf pid -> is_usize (into_usize pid) /\ from_usize (into_usize pid) = Ok pid) /\
  (forall w, is_usize w ->
     (exists pid, from_usize w = Ok pid /\ pid_wf pid /\ into_usize pid = w) \/
     (from_usize w = Err InvalidArgument /\ forall pid, pid_wf pid -> into_usize pid <> w)).
Proof.
  split.
  - intros [|epoch slot] Hwf; [split; [unfold is_usize; cbn; lia|done]|].
    rewrite into_usize_id by done. destruct Hwf as [He Hs].
    assert (is_usize (epoch * U16_MODULUS + slot)) as Hw by (unfold is_usize; lia).
    split; [done|]. unfold from_usize. rewrite (proj2 (Z.eqb_neq _ _)) by lia.
    destruct (from_usize_fields _ Hw) as [-> ->].
    rewrite Z.div_add_l, (Z.div_small slot), Z.add_0_r, Z.mod_small, Z.add_comm, Z.mod_add, Z.mod_small by lia.
    rewrite into_usize_id by done. by rewrite (proj2 (Z.eqb_eq _ _)) by lia.
  - intros w Hw. unfold from_usize. destruct (Z.eqb_spec w (USIZE_MAX - 1)) as [->|Hc]; [left; by exists Current|].
    destruct (from_usize_fields _ Hw) as [-> ->]. unfold is_usize in Hw.
    set (e := w / U16_MODULUS mod U32_MODULUS). set (s := w mod U16_MODULUS).
    assert (pid_wf (Id e s)) as Hwf by (split; apply Z.mod_pos_bound; lia).
    destruct (Z.eqb_spec (into_usize (Id e s)) w) as [E|E]; [left; by exists (Id e s)|right].
    split; [done|]. intros [|epoch slot] Hp He; [done|]. apply E. rewrite <- He. f_equal.
    unfold e, s. rewrite <- He, into_usize_id by done. destruct Hp as [He' Hs].
    rewrite Z.div_add_l, (Z.div_small slot), Z.add_0_r, Z.mod_small, Z.add_comm, Z.mod_add, Z.mod_small by lia.
    done.
Qed.
