(* ===== verification/AddressSpace.v ===== *)
(** * AddressSpace: virtual address spaces

    Models [kernel/src/memory/address_space.rs]: the pages of an address space, the
    mapping of single pages and of blocks, and the permission check the system
    calls apply to the memory a process passes to the kernel. *)

From Stdlib Require Import ZArith Lia.
From stdpp Require Import base list numbers tactics gmap.
From S2P Require Import Prelude Addr Frage Block Mmu FrameAllocator Range Pid Mapping.
From S2P Require PageAllocator.

Open Scope Z_scope.
Open Scope outcome_scope.

Inductive Kind := Invalid | Base | ProcessKind.

(** A [Mapping] is known by the frame of its root table. *)
Record AddressSpace := mkAddressSpace {
  kind : Kind;
  mapping_root : option Z;
  user_page_allocator : PageAllocator.PageAllocator;
  space_pid : option Pid;
}.

Definition space_zero : AddressSpace :=
  mkAddressSpace Base None PageAllocator.page_allocator_zero None.

Definition mapping (space : AddressSpace) : outcome Z := ok_or (mapping_root space) InvalidArgument.

Definition page_table_root (space : AddressSpace) : outcome Z := unwrap_some (mapping_root space).

Definition space_set_pid (space : AddressSpace) (pid : Pid) : AddressSpace :=
  mkAddressSpace (kind space) (mapping_root space) (user_page_allocator space) (Some pid).

(** [switch_to]: the new value of the page table root register. *)
Definition switch_to (space : AddressSpace) : outcome Z :=
  let? root := page_table_root space in
  assert! negb (root =? 0) in Ok root.

(** ** Virtual pages

    [allocate], [deallocate] and [reserve] choose between the allocator of the
    address space and the global [KERNEL_PAGE_ALLOCATOR]. *)

Record Pages := mkPages {
  kernel_pages : PageAllocator.PageAllocator;
  space : AddressSpace;
}.

Definition on_kernel {A} (c : M PageAllocator.PageAllocator A) : M Pages A := fun st =>
  let '(pa, r) := c (kernel_pages st) in (mkPages pa (space st), r).

Definition on_user {A} (c : M PageAllocator.PageAllocator A) : M Pages A := fun st =>
  let '(pa, r) := c (user_page_allocator (space st)) in
  (mkPages (kernel_pages st)
     (mkAddressSpace (kind (space st)) (mapping_root (space st)) pa (space_pid (space st))), r).

Definition allocate (layout : Layout) (flags : Z) : M Pages Block :=
  if PageTableFlags.is_user flags then on_user (PageAllocator.allocate layout)
  else on_kernel (PageAllocator.allocate layout).

Definition deallocate (block : Block) : M Pages unit :=
  let! kernel := liftM (is_kernel_block block) in
  if kernel : bool then on_kernel (PageAllocator.deallocate block)
  else
    let! user := liftM (is_user_block block) in
    if user : bool then on_user (PageAllocator.deallocate block)
    else liftM (Err InvalidArgument).

Definition reserve (pages : Block) (flags : Z) : M Pages unit :=
  let! _ := liftM (validate_block_flags pages flags) in
  let! kernel := liftM (is_kernel_block pages) in
  if kernel : bool then on_kernel (PageAllocator.reserve pages)
  else
    let! user := liftM (is_user_block pages) in
    if user : bool then on_user (PageAllocator.reserve pages)
    else liftM (Err PermissionDenied).

(** ** Single pages *)

(** Runs [c] while the local variable of type [FrameGuard] holding [frame] is alive;
    it is dropped when the function returns, on success and on failure. *)
Definition holding {A} (frame : Z) (c : M Kmem A) : M Kmem A := fun st =>
  match c st with
  | (st, Panic) => (st, Panic)
  | (st, r) => (let! _ := with_frames (FrameAllocator.deallocate frame) in liftM r) st
  end.

Definition map_page_to_frame (space : AddressSpace) (page frame flags : Z) : M Kmem unit :=
  let! _ := liftM (validate_page_flags page flags) in
  let! frame_guard := with_frames (reference frame) in
  match mapping space with
  | Ok root => let! _ := map_at root page frame_guard flags in retM tt
  | Err e => fail_dropping frame_guard e
  | Panic => liftM Panic
  end.

Definition map_page (space : AddressSpace) (page flags : Z) : M Kmem Z :=
  let! frame := with_frames FrameAllocator.allocate in
  holding frame (let! _ := map_page_to_frame space page frame flags in retM frame).

Definition unmap_page (space : AddressSpace) (page : Z) : M Kmem unit :=
  let! root := liftM (mapping space) in
  unmap_at root page.

(** ** Blocks of pages *)

(** A [for] loop over the elements of a block: [IntoIter::next] runs until it answers
    [None]; each call that yields an element advances the start by one, so the
    number of elements plus one bounds the number of calls. *)
Fixpoint for_loop {S} (Mem : Memory) (fuel : nat) (b : Block) (body : Z -> M S unit) : M S unit :=
  match fuel with
  | O => retM tt
  | Datatypes.S fuel =>
      let! next := liftM (into_iter_next Mem b) in
      match next with
      | None => retM tt
      | Some (element, b) => let! _ := body element in for_loop Mem fuel b body
      end
  end.

Definition for_block {S} (Mem : Memory) (b : Block) (body : Z -> M S unit) : M S unit :=
  for_loop Mem (Datatypes.S (Z.to_nat (b_end b - b_start b))) b body.

Definition map_block (space : AddressSpace) (pages : Block) (flags : Z) : M Kmem unit :=
  let! _ := liftM (validate_block_flags pages flags) in
  for_block Page pages (fun page => let! _ := map_page space page flags in retM tt).

Definition remap_page (space : AddressSpace) (flags page : Z) : M Kmem unit :=
  let! root := liftM (mapping space) in
  let! path := mapping_path root page in
  let! loc := path_get path in
  let! pte := read_pte loc in
  let! pte := liftM (Pte.set_flags pte (Z.lor flags PageTableFlags.PRESENT)) in
  write_pte loc pte.

Definition remap_block (space : AddressSpace) (pages : Block) (flags : Z) : M Kmem unit :=
  let! _ := liftM (validate_block_flags pages flags) in
  for_block Page pages (remap_page space flags).

Definition unmap_block (space : AddressSpace) (pages : Block) : M Kmem unit :=
  let! _ := liftM (validate_block pages) in
  for_block Page pages (unmap_page space).

(** ** Permissions *)

Definition check_page (space : AddressSpace) (required_flags page : Z) : M Kmem unit :=
  let! root := liftM (mapping space) in
  let! loc := translate root page in
  let! pte := read_pte loc in
  let! flags := liftM (Pte.flags pte) in
  liftM (if PageTableFlags.contains flags required_flags then Ok tt else Err PermissionDenied).

Definition check_permission_common (space : AddressSpace) (block : Block) (flags : Z) : M Kmem unit :=
  let! pages := liftM (enclosing VirtTag block) in
  let! user := liftM (is_user_block pages) in
  if negb user then liftM (Err PermissionDenied)
  else
    let required_flags := Z.lor (Z.lor PageTableFlags.PRESENT PageTableFlags.USER) flags in
    let! pages := liftM (enclosing VirtTag block) in
    for_block Page pages (check_page space required_flags).

(** The result is the address and the length of the slice of elements of the given
    size and alignment. *)
Definition check_permission (space : AddressSpace) (block : Block) (flags q_size q_align : Z)
    : M Kmem (Z * Z) :=
  let! _ := check_permission_common space block flags in
  liftM (block_try_into_slice Virtual block q_size q_align).

Definition check_permission_mut (space : AddressSpace) (block : Block) (flags q_size q_align : Z)
    : M Kmem (Z * Z) :=
  if PageTableFlags.is_writable flags then
    let! _ := check_permission_common space block flags in
    liftM (block_try_into_slice Virtual block q_size q_align)
  else liftM Panic.

(** ** Loops over blocks *)

Definition elements (Mem : Memory) (b : Block) : list Z := (fun i => i * SIZE_OF Mem) <$> block_indices b.

Lemma for_loop_spec {S} (Mem : Memory) `{!MemoryLaws Mem} fuel b (body : Z -> M S unit) s :
  (b_start b < b_end b -> block_wf Mem b) -> b_start b <= b_end b ->
  b_end b - b_start b < Z.of_nat fuel ->
  for_loop Mem fuel b body s = for_list body (elements Mem b) s.
Proof.
  revert b s. induction fuel as [|fuel IH]; intros b s Hb Ho Hf; [lia|].
  cbn [for_loop]. unfold into_iter_next, elements, block_indices.
  destruct (Z.ltb_spec (b_start b) (b_end b)) as [Hlt|Hge]; [|by rewrite seqZ_nil by lia].
  specialize (Hb Hlt). destruct (wf_element b (b_start b) Hb ltac:(lia)) as [Hv _].
  rewrite (proj2 (mem_from_index_spec (b_start b) _ (proj1 (wf_usize _ _ Hb))) (conj eq_refl Hv)).
  rewrite bindM_lift, (seqZ_cons (b_start b)) by lia. cbn [fmap list_fmap for_list]. unfold bindM.
  destruct (body (b_start b * SIZE_OF Mem) s) as [s' [[]|e|]]; [|done..].
  rewrite (IH (mkBlock (b_start b + 1) (b_end b))); cbn; [|intros; by apply wf_next|lia|lia].
  unfold elements, block_indices. cbn. do 3 f_equal. lia.
Qed.

Lemma for_block_spec {S} (Mem : Memory) `{!MemoryLaws Mem} b (body : Z -> M S unit) s :
  block_wf Mem b -> for_block Mem b body s = for_list body (elements Mem b) s.
Proof.
  intros Hb. pose proof (wf_order _ _ Hb). unfold for_block. apply for_loop_spec; [apply _|done|done|lia].
Qed.

(** The pages of a block: aligned, canonical, each once. *)
Lemma elements_page b p :
  block_wf Page b -> p ∈ elements Page b ->
  exists i, p = i * 4096 /\ b_start b <= i < b_end b /\ canonical p.
Proof.
  intros Hb. unfold elements, block_indices. rewrite list_elem_of_fmap. intros (i & -> & Hi).
  apply elem_of_seqZ in Hi. exists i. split; [done|]. split; [lia|].
  destruct (wf_element b i Hb ltac:(lia)) as [Hv _]. by apply virt_valid_iff in Hv.
Qed.

Lemma elements_nodup b : NoDup (elements Page b).
Proof.
  apply NoDup_fmap; [|apply NoDup_seqZ]. change (SIZE_OF Page) with 4096. intros i j H. lia.
Qed.

Lemma elements_in b i : b_start b <= i < b_end b -> i * 4096 ∈ elements Page b.
Proof.
  intros Hi. apply list_elem_of_fmap. exists i. split; [done|]. apply elem_of_seqZ. lia.
Qed.

(** ** Mapping pages *)

Section MapPage.
  Context (sp : AddressSpace) (root : Z) (Hroot : mapping_root sp = Some root).
  Context (flags : Z) (Hfl : is_flags flags) (Hh : PageTableFlags.is_huge flags = false).

(** The outcomes of mapping one page, [guards] being the references in circulation
    before: the invariant is kept and no reference is gained or lost. *)
Definition mapped (st st' : Kmem) (page frame : Z) : Prop :=
  (forall v, canonical v -> v / 4096 = page / 4096 ->
     resolve root v st' = (st', Ok (frame, Z.lor flags PageTableFlags.PRESENT))) /\
  (forall v, canonical v -> v / 4096 <> page / 4096 -> same_mapping st st' root v).

Definition map_error (e : Error) : Prop := e = NoFrame \/ e = Unimplemented \/ e = PermissionDenied.

Lemma validate_page_flags_total page :
  canonical page -> validate_page_flags page flags = Ok tt \/ validate_page_flags page flags = Err PermissionDenied.
Proof using.
  intros Hp. unfold validate_page_flags, is_user_page. rewrite user_pages_ok. unfold contains.
  change (mem_address Page page) with page. rewrite contains_address_user by done.
  destruct (Bool.eqb _ _); auto.
Qed.

Lemma map_page_to_frame_spec st paths rest page frame :
  kernel_wf st root paths rest -> canonical page ->
  frame ∈ rest ++ root :: refs (memory st) root paths ->
  references (rest ++ root :: refs (memory st) root paths) frame < USIZE_MAX ->
  (exists st' paths', map_page_to_frame sp page frame flags st = (st', Ok tt) /\
     kernel_wf st' root paths' rest /\ mapped st st' page frame) \/
  (exists st' e paths', map_page_to_frame sp page frame flags st = (st', Err e) /\ map_error e /\
     kernel_wf st' root paths' rest /\ forall v, same_mapping st st' root v).
Proof using Hroot Hfl Hh.
  intros Hk Hp Hin Hcnt. pose proof (kw_tree _ _ _ _ Hk) as Ht. unfold map_page_to_frame.
  destruct (validate_page_flags_total page Hp) as [-> | ->]; [rewrite bindM_lift|].
  2:{ right. exists st, PermissionDenied, paths. split; [done|]. split; [by do 2 right|].
      split; [done|]. intros v. by apply same_mapping_refl. }
  destruct (kernel_reference st root paths rest frame Hk Hin Hcnt) as (st1 & E1 & Hm & Hk1).
  rewrite (bindM_ok _ _ _ _ _ E1). unfold mapping. rewrite Hroot. cbn [ok_or].
  assert (forall st2 v, same_mapping st1 st2 root v -> same_mapping st st2 root v) as Hsame.
  { intros st2 v. apply same_mapping_trans, same_mapping_leaf; [done|apply (kw_tree _ _ _ _ Hk1)|by rewrite Hm]. }
  destruct (map_at_spec st1 root paths frame rest flags page Hk1 Hfl Hh Hp) as
    [(st2 & path & paths' & E2 & Hk2 & Hpage & Hoth)|(st2 & e & paths' & E2 & He & Hk2 & Hoth)]; [left|right].
  - rewrite (bindM_ok _ _ _ _ _ E2). exists st2, paths'. split; [done|]. split; [done|]. split; [done|].
    intros v Hv Hne. by apply Hsame, Hoth.
  - rewrite (bindM_err _ _ _ _ _ E2). exists st2, e, paths'. split; [done|]. split; [unfold map_error; tauto|].
    split; [done|]. intros v. by apply Hsame.
Qed.

Lemma map_page_spec st paths rest page :
  kernel_wf st root paths rest -> canonical page ->
  (exists st' frame paths', map_page sp page flags st = (st', Ok frame) /\
     (frame ∉ rest ++ root :: refs (memory st) root paths) /\
     kernel_wf st' root paths' rest /\ mapped st st' page frame) \/
  (exists st' e paths', map_page sp page flags st = (st', Err e) /\ map_error e /\
     kernel_wf st' root paths' rest /\ forall v, same_mapping st st' root v).
Proof using Hroot Hfl Hh.
  intros Hk Hp. pose proof (kw_tree _ _ _ _ Hk) as Ht. unfold map_page.
  destruct (kernel_allocate st root paths rest Hk) as [E|(st1 & frame & E1 & Hm1 & Hfresh & Hk1)].
  { right. rewrite (bindM_err _ _ _ _ _ E). exists st, NoFrame, paths. split; [done|]. split; [by left|].
    split; [done|]. intros v. by apply same_mapping_refl. }
  rewrite (bindM_ok _ _ _ _ _ E1). unfold holding.
  assert (forall st2 v, same_mapping st1 st2 root v -> same_mapping st st2 root v) as Hsame.
  { intros st2 v. apply same_mapping_trans, same_mapping_leaf; [done|apply (kw_tree _ _ _ _ Hk1)|by rewrite Hm1]. }
  assert (forall st2 st3 paths2 v, kernel_wf st2 root paths2 rest -> tree_wf (memory st3) root ->
            memory st3 = memory st2 -> same_mapping st3 st2 root v) as Hmem.
  { intros st2 st3 paths2 v Hk2 Ht3 Heq. apply same_mapping_leaf; [done|apply (kw_tree _ _ _ _ Hk2)|by rewrite Heq]. }
  destruct (map_page_to_frame_spec st1 paths (frame :: rest) page frame Hk1 Hp) as
    [(st2 & paths' & E2 & Hk2 & Hpage & Hoth)|(st2 & e & paths' & E2 & He & Hk2 & Hoth)].
  - left.
  - rewrite Hm1. cbn [app]. rewrite references_cons, Z.eqb_refl.
    unfold references. rewrite (proj1 (count_occ_not_In Z.eq_dec _ frame)); [lia|].
    by rewrite <- list_elem_of_In.
  - left. rewrite (bindM_ok _ _ _ _ _ E2). cbn [retM].
    destruct (kernel_drop st2 root paths' frame rest Hk2) as (st3 & E3 & Hm3 & Hk3).
    rewrite (bindM_ok _ _ _ _ _ E3). exists st3, frame, paths'. split; [done|]. split; [done|]. split; [done|].
    pose proof (kw_tree _ _ _ _ Hk2) as Ht2. split.
    + intros v Hv Hpg. specialize (Hpage v Hv Hpg). pose proof (Hmem st3 st2 paths' v Hk3 Ht2 (eq_sym Hm3)) as H.
      unfold same_mapping in H. by rewrite Hpage in H.
    + intros v Hv Hne. apply Hsame. eapply same_mapping_trans; [by apply Hoth|].
      by apply (Hmem st3 st2 paths').
  - right. rewrite (bindM_err _ _ _ _ _ E2).
    destruct (kernel_drop st2 root paths' frame rest Hk2) as (st3 & E3 & Hm3 & Hk3).
    rewrite (bindM_ok _ _ _ _ _ E3). exists st3, e, paths'. split; [done|]. split; [done|]. split; [done|].
    intros v. apply Hsame. eapply same_mapping_trans; [by apply Hoth|].
    apply (Hmem st3 st2 paths'); [done|apply (kw_tree _ _ _ _ Hk2)|done].
Qed.

(** The page an address belongs to; the pages of a loop. *)
Definition page_of (v : Z) : Z := v / 4096 * 4096.

Definition pages_ok (l : list Z) : Prop := forall p, p ∈ l -> canonical p /\ page_of p = p.

(** The frame of page [p] is mapped nowhere else in the address space. *)
Definition private (st : Kmem) (p : Z) : Prop :=
  forall v f fl f' fl', canonical v -> page_of v <> p ->
    resolve root p st = (st, Ok (f, fl)) -> resolve root v st = (st, Ok (f', fl')) -> f <> f'.

Lemma same_mapping_back st st' v r :
  tree_wf (memory st) root -> same_mapping st st' root v -> resolve root v st' = (st', Ok r) ->
  resolve root v st = (st, Ok r).
Proof using.
  intros Ht Hs Hr. unfold same_mapping in Hs.
  destruct (resolve_total st root v Ht) as [(p & f & E & _)|(e & E)]; rewrite E in Hs.
  - congruence.
  - destruct Hs as (e' & Hs). congruence.
Qed.

Lemma mapped_private st st' paths rest page frame :
  kernel_wf st root paths rest -> canonical page -> page_of page = page ->
  (frame ∉ rest ++ root :: refs (memory st) root paths) -> mapped st st' page frame -> private st' page.
Proof using.
  intros Hk Hp Hpg Hfresh [Hpage Hoth] v f fl f' fl' Hv Hne Hr Hr' ->.
  rewrite Hpage in Hr by done. injection Hr as <- <-. apply Hfresh, elem_of_app. right. right.
  apply (resolve_in_refs st root paths rest v frame fl'); [done|].
  apply (same_mapping_back st st'); [apply (kw_tree _ _ _ _ Hk)| |done].
  apply Hoth; [done|]. unfold page_of in *. lia.
Qed.

Lemma map_pages_spec l st paths rest :
  kernel_wf st root paths rest -> NoDup l -> pages_ok l ->
  let run := for_list (fun page => let! _ := map_page sp page flags in retM tt) l st in
  (exists st' paths', run = (st', Ok tt) /\ kernel_wf st' root paths' rest /\
     (forall v, canonical v -> page_of v ∈ l ->
        exists f, resolve root v st' = (st', Ok (f, Z.lor flags PageTableFlags.PRESENT))) /\
     (forall v, canonical v -> page_of v ∉ l -> same_mapping st st' root v) /\
     forall p, p ∈ l -> private st' p) \/
  (exists st' e paths', run = (st', Err e) /\ map_error e /\ kernel_wf st' root paths' rest /\
     forall v, canonical v -> page_of v ∉ l -> same_mapping st st' root v).
Proof using Hroot Hfl Hh.
  cbv zeta. revert st paths. induction l as [|p l IH]; intros st paths Hk Hnd Hok; cbn [for_list].
  { left. exists st, paths. split; [done|]. split; [done|]. split; [by intros v _ Hv%not_elem_of_nil|].
    split; [intros v _ _; apply same_mapping_refl, (kw_tree _ _ _ _ Hk)|by intros p Hp%not_elem_of_nil]. }
  apply list.NoDup_cons in Hnd as [Hpl Hnd]. destruct (Hok p) as [Hp Hpg]; [left|].
  assert (pages_ok l) as Hok' by (intros q Hq; apply Hok; by right).
  destruct (map_page_spec st paths rest p Hk Hp) as
    [(st1 & frame & paths1 & E1 & Hfresh & Hk1 & Hm1)|(st1 & e & paths1 & E1 & He & Hk1 & Hs1)].
  2:{ right. exists st1, e, paths1. unfold bindM at 1 2. rewrite E1.
      do 3 (split; [done|]). intros v _ _. apply Hs1. }
  pose proof (mapped_private st st1 paths rest p frame Hk Hp Hpg Hfresh Hm1) as Hpriv1. destruct Hm1 as [Hpage1 Hoth1].
  assert (forall v, canonical v -> page_of v ∉ p :: l -> same_mapping st st1 root v) as Hout.
  { intros v Hv Hvl. apply Hoth1; [done|]. intros Heq. apply Hvl, elem_of_cons. left. unfold page_of in *. lia. }
  rewrite (bindM_ok _ _ st st1 tt) by (by rewrite (bindM_ok _ _ _ _ _ E1)).
  destruct (IH st1 paths1 Hk1 Hnd Hok') as
    [(st2 & paths2 & E2 & Hk2 & Hin2 & Hoth2 & Hpriv2)|(st2 & e & paths2 & E2 & He & Hk2 & Hoth2)]; rewrite E2.
  2:{ right. exists st2, e, paths2. do 3 (split; [done|]). intros v Hv Hvl.
      apply (same_mapping_trans st st1); [by apply Hout|]. apply Hoth2; [done|]. set_solver. }
  left. exists st2, paths2. split; [done|]. split; [done|].
  assert (resolve root p st2 = (st2, Ok (frame, Z.lor flags PageTableFlags.PRESENT))) as Hp2.
  { specialize (Hoth2 p Hp). rewrite Hpg in Hoth2. specialize (Hoth2 Hpl). unfold same_mapping in Hoth2.
    by rewrite (Hpage1 p) in Hoth2. }
  split; [|split].
  - intros v Hv [Hvp|Hvl]%elem_of_cons; [|by apply Hin2]. exists frame.
    apply (resolve_page st2 root p v); [apply (kw_tree _ _ _ _ Hk2)|unfold page_of in *; lia|done].
  - intros v Hv Hvl. apply (same_mapping_trans st st1); [by apply Hout|]. apply Hoth2; [done|]. set_solver.
  - intros q [->|Hq]%elem_of_cons; [|by apply Hpriv2]. intros v f fl f' fl' Hv Hne Hr Hr' ->.
    destruct (decide (page_of v ∈ l)) as [Hvl|Hvl].
    + destruct (Hok' _ Hvl) as [Hcv Hpv]. apply (Hpriv2 (page_of v) Hvl p f' fl' f' fl Hp); [congruence| |done|done].
      apply (resolve_page st2 root v); [apply (kw_tree _ _ _ _ Hk2)| |done]. unfold page_of. rewrite Z.div_mul; lia.
    + apply (Hpriv1 v frame (Z.lor flags PageTableFlags.PRESENT) f' fl' Hv Hne); [by apply Hpage1| |congruence].
      apply (same_mapping_back st1 st2); [apply (kw_tree _ _ _ _ Hk1)|by apply Hoth2|done].
Qed.

End MapPage.

(** ** Permissions of single pages *)

Lemma contains_lor f a b :
  PageTableFlags.contains f (Z.lor a b) = true ->
  PageTableFlags.contains f a = true /\ PageTableFlags.contains f b = true.
Proof.
  unfold PageTableFlags.contains. rewrite !Z.eqb_eq. intros H. rewrite Z.land_lor_distr_r in H.
  split; apply Z.bits_inj'; intros n Hn; apply (f_equal (fun x => Z.testbit x n)) in H;
    rewrite !Z.lor_spec, !Z.land_spec in H; rewrite Z.land_spec;
    destruct (Z.testbit f n), (Z.testbit a n), (Z.testbit b n); done.
Qed.

(** [page] is mapped with all of [required]. *)
Definition permitted (st : Kmem) (root required page : Z) : Prop :=
  exists p f, resolve root page st = (st, Ok (p, f)) /\ PageTableFlags.contains f required = true.

Lemma check_page_spec st sp root flags page :
  mapping_root sp = Some root -> tree_wf (memory st) root ->
  let required := Z.lor (Z.lor PageTableFlags.PRESENT PageTableFlags.USER) flags in
  (permitted st root required page /\ check_page sp required page st = (st, Ok tt)) \/
  (~ permitted st root required page /\ exists e, check_page sp required page st = (st, Err e) /\
     (e = NoPage \/ e = Unimplemented \/ e = PermissionDenied)).
Proof.
  intros Hroot Ht required. unfold permitted, check_page, mapping. rewrite Hroot. cbn [ok_or].
  rewrite bindM_lift. pose proof (resolve_spec st root page Ht) as Hr.
  pose proof (path_get_spec st root page Ht) as Hget.
  assert (translate root page st = path_get (fresh_path (memory st) root page) st) as Htr.
  { unfold translate. by rewrite (bindM_ok _ _ _ _ _ (mapping_path_spec st root page Ht)). }
  unfold leaf_pte in Hr.
  destruct (node (memory st) root (leaf_path page)) as [g|] eqn:Eg; cbn [mbind option_bind] in Hr.
  2:{ right. destruct Hget as (e & E & He). rewrite E in Htr. rewrite (bindM_err _ _ _ _ _ Htr).
      destruct Hr as (e' & Hr). split; [|exists e; tauto]. intros (p & f & Hp & _). congruence. }
  rewrite Hget in Htr. rewrite (bindM_ok _ _ _ _ _ Htr).
  destruct (read_leaf st root page g Ht Eg) as (table & pte & p & f & Htab & Hpte & Hread & Hp & Hf & Heq & Htg & _).
  rewrite (bindM_ok _ _ _ _ _ Hread). rewrite Htab in Hr. cbn [mbind option_bind] in Hr. rewrite Hpte in Hr.
  cbn [mbind option_bind] in Hr. rewrite Htg in Hr. subst pte. rewrite set_phys_flags, bindM_lift by done.
  destruct (PageTableFlags.contains f required) eqn:Ec.
  - left. destruct (contains_lor _ _ _ Ec) as [[Hpr _]%contains_lor _]. change (PageTableFlags.is_present f = true) in Hpr.
    rewrite Hpr in Hr. destruct Hr as (p' & f' & Hp' & Hf' & E & Hr). apply set_phys_inj in E as [<- <-]; [|done..].
    split; [by eexists _, _|done].
  - right. split; [|exists PermissionDenied; split; [done|tauto]]. intros (p2 & f2 & Hr2 & Hc).
    destruct (PageTableFlags.is_present f); [|destruct Hr as (e & Hr); congruence].
    destruct Hr as (p' & f' & Hp' & Hf' & E & Hr). apply set_phys_inj in E as [<- <-]; [|done..]. congruence.
Qed.

Lemma check_pages_spec st sp root flags l :
  mapping_root sp = Some root -> tree_wf (memory st) root ->
  let required := Z.lor (Z.lor PageTableFlags.PRESENT PageTableFlags.USER) flags in
  ((forall p, p ∈ l -> permitted st root required p) /\ for_list (check_page sp required) l st = (st, Ok tt)) \/
  (~ (forall p, p ∈ l -> permitted st root required p) /\
   exists e, for_list (check_page sp required) l st = (st, Err e) /\
     (e = NoPage \/ e = Unimplemented \/ e = PermissionDenied)).
Proof.
  intros Hroot Ht required. induction l as [|p l IH]; cbn [for_list].
  { left. split; [by intros p Hp%not_elem_of_nil|done]. }
  destruct (check_page_spec st sp root flags p Hroot Ht) as [[Hp E]|(Hp & e & E & He)].
  - rewrite (bindM_ok _ _ _ _ _ E). destruct IH as [[Hl E']|(Hl & e & E' & He)]; rewrite E'; [left|right].
    + split; [|done]. intros q [->|Hq]%elem_of_cons; [done|by apply Hl].
    + split; [|eauto]. intros Hall. apply Hl. intros q Hq. apply Hall. by right.
  - right. rewrite (bindM_err _ _ _ _ _ E). split; [|eauto]. intros Hall. apply Hp, Hall. left.
Qed.

(** ** Blocks *)

Lemma pages_ok_elements b : block_wf Page b -> pages_ok (elements Page b).
Proof.
  intros Hb p Hp. destruct (elements_page b p Hb Hp) as (i & -> & Hi & Hc). split; [done|].
  unfold page_of. by rewrite Z.div_mul.
Qed.

Lemma page_of_elements b v :
  block_wf Page b -> page_of v ∈ elements Page b <-> contains_index b (v / 4096) = true.
Proof.
  intros Hb. rewrite contains_index_iff. split.
  - intros Hp. destruct (elements_page b _ Hb Hp) as (i & Heq & Hi & _). unfold page_of in Heq. lia.
  - intros Hi. by apply elements_in.
Qed.

(** [validate_block_flags] never panics on a non-empty block and accepts user flags
    in the user's part only, and other flags in the kernel's part only. *)
Lemma validate_block_flags_cases b flags :
  block_wf Page b -> b_start b < b_end b ->
  (validate_block_flags b flags = Ok tt /\
     if PageTableFlags.is_user flags then USER_START <= b_start b /\ b_end b <= USER_END
     else b_end b <= USER_START) \/
  validate_block_flags b flags = Err PermissionDenied.
Proof.
  intros Hb Hne. unfold validate_block_flags, validate_block.
  rewrite is_kernel_block_ok, is_user_block_ok by done.
  destruct (Z.leb_spec (b_end b) USER_START), (Z.leb_spec USER_START (b_start b)), (Z.leb_spec (b_end b) USER_END);
    cbn; destruct (PageTableFlags.is_user flags); cbn; auto; lia.
Qed.

Lemma unmap_page_spec st sp root paths rest page :
  mapping_root sp = Some root -> kernel_wf st root paths rest -> canonical page ->
  (exists r st' paths', resolve root page st = (st, Ok r) /\ unmap_page sp page st = (st', Ok tt) /\
     kernel_wf st' root paths' rest /\
     (forall v, canonical v -> v / 4096 = page / 4096 -> exists e, resolve root v st' = (st', Err e)) /\
     (forall v, canonical v -> v / 4096 <> page / 4096 -> same_mapping st st' root v)) \/
  (exists e e', resolve root page st = (st, Err e) /\ unmap_page sp page st = (st, Err e') /\
     (e' = NoPage \/ e' = Unimplemented)).
Proof.
  intros Hroot Hk Hp. unfold unmap_page, mapping. rewrite Hroot. cbn [ok_or]. rewrite bindM_lift. by apply (unmap_at_spec st root paths).
Qed.

Definition unmapped (st : Kmem) (root v : Z) : Prop := exists e, resolve root v st = (st, Err e).

Lemma unmap_pages_spec l st sp root paths rest :
  mapping_root sp = Some root -> kernel_wf st root paths rest -> NoDup l -> pages_ok l ->
  exists st' paths' r, for_list (unmap_page sp) l st = (st', r) /\ kernel_wf st' root paths' rest /\
    (forall v, canonical v -> page_of v ∉ l -> same_mapping st st' root v) /\
    ((r = Ok tt /\ (forall p, p ∈ l -> ~ unmapped st root p) /\
        forall v, canonical v -> page_of v ∈ l -> unmapped st' root v) \/
     ((r = Err NoPage \/ r = Err Unimplemented) /\ exists p, p ∈ l /\ unmapped st root p)).
Proof.
  intros Hroot. revert st paths. induction l as [|p l IH]; intros st paths Hk Hnd Hok; cbn [for_list].
  { exists st, paths, (Ok tt). split; [done|]. split; [done|].
    split; [intros v _ _; apply same_mapping_refl, (kw_tree _ _ _ _ Hk)|left].
    split; [done|]. split; [by intros p Hp%not_elem_of_nil|by intros v _ Hp%not_elem_of_nil]. }
  apply list.NoDup_cons in Hnd as [Hpl Hnd]. destruct (Hok p) as [Hp Hpg]; [left|].
  assert (pages_ok l) as Hok' by (intros q Hq; apply Hok; by right).
  destruct (unmap_page_spec st sp root paths rest p Hroot Hk Hp) as
    [(r & st1 & paths1 & Hr & E1 & Hk1 & Hpage1 & Hoth1)|(e & e' & Hr & E1 & He)].
  2:{ rewrite (bindM_err _ _ _ _ _ E1). exists st, paths, (Err e'). split; [done|]. split; [done|].
      split; [intros v _ _; apply same_mapping_refl, (kw_tree _ _ _ _ Hk)|right].
      split; [destruct He as [-> | ->]; auto|]. exists p. split; [left|by exists e]. }
  rewrite (bindM_ok _ _ _ _ _ E1).
  assert (forall v, canonical v -> page_of v <> p -> same_mapping st st1 root v) as Hout.
  { intros v Hv Hne. apply Hoth1; [done|]. intros Heq. apply Hne. unfold page_of in *. lia. }
  destruct (IH st1 paths1 Hk1 Hnd Hok') as (st2 & paths2 & r2 & E2 & Hk2 & Hoth2 & Hcase). rewrite E2.
  assert (forall q, q ∈ l -> unmapped st1 root q <-> unmapped st root q) as Hum.
  { intros q Hq. destruct (Hok' q Hq) as [Hcq Hpq].
    assert (same_mapping st st1 root q) as Hs by (apply Hout; [done|]; intros Heq; congruence).
    unfold same_mapping in Hs. unfold unmapped.
    destruct (resolve_total st root q (kw_tree _ _ _ _ Hk)) as [(x & f & E & _)|(e & E)]; rewrite E in *.
    - rewrite Hs. split; intros (e & He); congruence.
    - split; intros _; [by exists e|done]. }
  exists st2, paths2, r2. split; [done|]. split; [done|]. split.
  { intros v Hv [Hne Hvl]%not_elem_of_cons. apply (same_mapping_trans st st1); [by apply Hout|by apply Hoth2]. }
  destruct Hcase as [(-> & Hall & Hgone)|(He & q & Hq & Hqu)]; [left|right].
  - split; [done|]. split.
    + intros q [->|Hq]%elem_of_cons; [|rewrite <- Hum by done; by apply Hall].
      intros (e & He). congruence.
    + intros v Hv [Hvp|Hvl]%elem_of_cons; [|by apply Hgone].
      assert (same_mapping st1 st2 root v) as Hs by (apply Hoth2; [done|congruence]).
      destruct (Hpage1 v Hv) as (e & He); [unfold page_of in *; lia|]. unfold same_mapping in Hs.
      by rewrite He in Hs.
  - split; [done|]. exists q. split; [by right|]. by apply Hum.
Qed.

(** The permission check, page by page and byte by byte. *)
Lemma check_permission_spec st sp root b flags :
  tree_wf (memory st) root -> mapping_root sp = Some root ->
  block_wf Virtual b -> b_start b < b_end b -> canonical (b_end b) ->
  let required := Z.lor (Z.lor PageTableFlags.PRESENT PageTableFlags.USER) flags in
  let accessible := forall a, b_start b <= a < b_end b ->
    USER_START * 4096 <= a < LOWER_END /\ permitted st root required a in
  (accessible /\ check_permission_common sp b flags st = (st, Ok tt)) \/
  (~ accessible /\ exists e, check_permission_common sp b flags st = (st, Err e) /\
     (e = NoPage \/ e = Unimplemented \/ e = PermissionDenied)).
Proof.
  intros Ht Hroot Hb Hne Hend required accessible. unfold check_permission_common.
  destruct (enclosing_spec VirtTag b Hb Hne) as [(_ & p & -> & Hp & Hcov & Hmin)|[Hv _]].
  2:{ exfalso. by apply Hv, virt_valid_iff. }
  rewrite !bindM_lift, is_user_block_ok, !bindM_lift. change L0_SIZE with 4096 in *.
  assert (accessible <-> (USER_START <= b_start p /\ b_end p <= USER_END) /\
            forall q, q ∈ elements Page p -> permitted st root required q) as Hacc.
  { assert (forall a q, a / 4096 = q / 4096 -> permitted st root required a -> permitted st root required q) as Hpage.
    { intros a q Heq (x & f & Hr & Hc). exists x, f. split; [by apply (resolve_page st root a)|done]. }
    pose proof (Hcov (b_start b) ltac:(lia)) as Hfirst. apply contains_index_iff in Hfirst. split.
    - intros Hall. split.
      + destruct (Hmin (b_start p)) as (a & Ha & Hai); [apply contains_index_iff; lia|].
        destruct (Hmin (b_end p - 1)) as (c & Hc & Hci); [apply contains_index_iff; lia|].
        pose proof (Hall a Ha) as [Ha' _]. pose proof (Hall c Hc) as [Hc' _]. Z.div_mod_to_equations. lia.
      + intros q Hq. destruct (elements_page p q Hp Hq) as (i & -> & Hi & _).
        destruct (Hmin i) as (a & Ha & Hai); [by apply contains_index_iff|].
        apply (Hpage a); [by rewrite Z.div_mul|]. by apply Hall.
    - intros [Hu Hall] a Ha. pose proof (Hcov a Ha) as Hi%contains_index_iff. split.
      + Z.div_mod_to_equations. lia.
      + apply (Hpage (a / 4096 * 4096)); [by rewrite Z.div_mul|]. by apply Hall, elements_in. }
  destruct (Z.leb_spec USER_START (b_start p)), (Z.leb_spec (b_end p) USER_END); cbn [andb negb];
    [|right; split; [rewrite Hacc; lia|exists PermissionDenied; split; [done|tauto]]..].
  rewrite bindM_lift, for_block_spec by (done || apply _).
  destruct (check_pages_spec st sp root flags (elements Page p) Hroot Ht) as [[Hl E]|(Hl & e & E & He)]; [left|right].
  - split; [by apply Hacc|done].
  - split; [rewrite Hacc; tauto|eauto].
Qed.

(** ** Theorems *)

Lemma map_block_spec st sp root paths rest b flags :
  kernel_wf st root paths rest -> mapping_root sp = Some root ->
  is_flags flags -> PageTableFlags.is_huge flags = false ->
  block_wf Page b -> b_start b < b_end b ->
  (exists st' paths', map_block sp b flags st = (st', Ok tt) /\ kernel_wf st' root paths' rest /\
     (forall v, canonical v -> contains_index b (v / 4096) = true ->
        exists f, resolve root v st' = (st', Ok (f, Z.lor flags PageTableFlags.PRESENT))) /\
     (forall v, canonical v -> contains_index b (v / 4096) = false -> same_mapping st st' root v) /\
     (forall i, contains_index b i = true -> private root st' (i * 4096)) /\
     if PageTableFlags.is_user flags then USER_START <= b_start b /\ b_end b <= USER_END
     else b_end b <= USER_START) \/
  (exists st' e paths', map_block sp b flags st = (st', Err e) /\ map_error e /\
     kernel_wf st' root paths' rest /\
     forall v, canonical v -> contains_index b (v / 4096) = false -> same_mapping st st' root v).
Proof.
  intros Hk Hroot Hfl Hh Hb Hne. unfold map_block.
  destruct (validate_block_flags_cases b flags Hb Hne) as [[-> Huser]| ->]; [rewrite bindM_lift|].
  2:{ right. exists st, PermissionDenied, paths. split; [done|]. split; [by do 2 right|]. split; [done|].
      intros v _ _. apply same_mapping_refl, (kw_tree _ _ _ _ Hk). }
  rewrite for_block_spec by (done || apply _).
  assert (forall v, contains_index b (v / 4096) = false -> page_of v ∉ elements Page b) as Hout.
  { intros v Hv Hin%page_of_elements; [congruence|done]. }
  destruct (map_pages_spec sp root Hroot flags Hfl Hh (elements Page b) st paths rest Hk (elements_nodup b)
              (pages_ok_elements b Hb)) as
    [(st' & paths' & E & Hk' & Hin & Hoth & Hpriv)|(st' & e & paths' & E & He & Hk' & Hoth)]; [left|right].
  - exists st', paths'. do 2 (split; [done|]). split; [|split; [|split; [|done]]].
    + intros v Hv Hi. apply Hin; [done|]. by apply page_of_elements.
    + intros v Hv Hi. apply Hoth; [done|by apply Hout].
    + intros i Hi. apply Hpriv, elements_in. by apply contains_index_iff in Hi.
  - exists st', e, paths'. do 3 (split; [done|]). intros v Hv Hi. apply Hoth; [done|by apply Hout].
Qed.

(** C7.  Mapping a block of pages.  On success every page of the block resolves with
    the requested flags to a frame that is mapped nowhere else in the address
    space, every other page resolves as before, and a mapping accessible to user
    code lies in the user's part of the address space.  On failure ([NoFrame],
    [Unimplemented] or [PermissionDenied]) the pages outside the block resolve as
    before.  In both cases the invariant holds with the same outside references:
    no frame is leaked or freed twice. *)
Theorem map_block_correct st sp root paths rest b flags :
  kernel_wf st root paths rest -> mapping_root sp = Some root ->
  is_flags flags -> PageTableFlags.is_huge flags = false ->
  block_wf Page b -> b_start b < b_end b ->
  (exists st' paths', map_block sp b flags st = (st', Ok tt) /\ kernel_wf st' root paths' rest /\
     (forall v, canonical v -> contains_index b (v / 4096) = true ->
        exists f, resolve root v st' = (st', Ok (f, Z.lor flags PageTableFlags.PRESENT))) /\
     (forall v, canonical v -> contains_index b (v / 4096) = false -> same_mapping st st' root v) /\
     (forall i, contains_index b i = true -> private root st' (i * 4096)) /\
     if PageTableFlags.is_user flags then USER_START <= b_start b /\ b_end b <= USER_END
     else b_end b <= USER_START) \/
  (exists st' e paths', map_block sp b flags st = (st', Err e) /\ map_error e /\
     kernel_wf st' root paths' rest /\
     forall v, canonical v -> contains_index b (v / 4096) = false -> same_mapping st st' root v).
Proof. apply map_block_spec. Qed.

Lemma unmap_block_spec st sp root paths rest b :
  kernel_wf st root paths rest -> mapping_root sp = Some root ->
  block_wf Page b -> b_start b < b_end b ->
  exists st' paths' r, unmap_block sp b st = (st', r) /\ kernel_wf st' root paths' rest /\
    (forall v, canonical v -> contains_index b (v / 4096) = false -> same_mapping st st' root v) /\
    ((r = Ok tt /\ (forall i, contains_index b i = true -> ~ unmapped st root (i * 4096)) /\
        forall v, canonical v -> contains_index b (v / 4096) = true -> unmapped st' root v) \/
     (r = Err PermissionDenied /\ validate_block b = Err PermissionDenied) \/
     ((r = Err NoPage \/ r = Err Unimplemented) /\
        exists i, contains_index b i = true /\ unmapped st root (i * 4096))).
Proof.
  intros Hk Hroot Hb Hne. unfold unmap_block.
  assert (validate_block b = Ok tt \/ validate_block b = Err PermissionDenied) as [-> | E].
  { unfold validate_block. rewrite is_kernel_block_ok, is_user_block_ok by done. destruct (Bool.eqb _ _); auto. }
  2:{ rewrite E. exists st, paths, (Err PermissionDenied). split; [done|]. split; [done|].
      split; [intros v _ _; apply same_mapping_refl, (kw_tree _ _ _ _ Hk)|auto]. }
  rewrite bindM_lift, for_block_spec by (done || apply _).
  destruct (unmap_pages_spec (elements Page b) st sp root paths rest Hroot Hk (elements_nodup b)
              (pages_ok_elements b Hb)) as (st' & paths' & r & E & Hk' & Hoth & Hcase).
  exists st', paths', r. split; [done|]. split; [done|]. split.
  { intros v Hv Hi. apply Hoth; [done|]. intros Hin%page_of_elements; [congruence|done]. }
  destruct Hcase as [(-> & Hall & Hgone)|(He & p & Hp & Hpu)]; [left|do 2 right].
  - split; [done|]. split.
    + intros i Hi. apply Hall, elements_in. by apply contains_index_iff in Hi.
    + intros v Hv Hi. apply Hgone; [done|]. by apply page_of_elements.
  - split; [done|]. destruct (elements_page b p Hb Hp) as (i & -> & Hi & _). exists i.
    split; [by apply contains_index_iff|done].
Qed.

(** The block lies on one side of the border between the kernel's pages and the
    user's pages of the lower half. *)
Definition one_side (b : Block) : Prop :=
  b_end b <= USER_START \/ USER_START <= b_start b /\ b_end b <= USER_END.

Lemma validate_block_cases b : block_wf Page b -> b_start b < b_end b ->
  (validate_block b = Ok tt /\ one_side b) \/ (validate_block b = Err PermissionDenied /\ ~ one_side b).
Proof.
  intros Hb Hne. unfold validate_block, one_side. rewrite is_kernel_block_ok, is_user_block_ok by done.
  destruct (Z.leb_spec (b_end b) USER_START), (Z.leb_spec USER_START (b_start b)), (Z.leb_spec (b_end b) USER_END);
    cbn; (left; split; [done|lia]) || (right; split; [done|lia]) || lia.
Qed.

(** C8.  Unmapping a block of pages succeeds exactly when the block lies on one side of
    the border between kernel and user and all its pages are mapped, and then none
    of them resolves any more.  A block that does not is refused with [PermissionDenied]
    and nothing changes; a page that is not mapped is answered with [NoPage] or
    [Unimplemented].  Pages outside the block always resolve as before, and every
    reference of an unmapped page is released: the invariant holds with the same
    outside references. *)
Theorem unmap_block_correct st sp root paths rest b :
  kernel_wf st root paths rest -> mapping_root sp = Some root ->
  block_wf Page b -> b_start b < b_end b ->
  let all_mapped := forall i, contains_index b i = true -> ~ unmapped st root (i * 4096) in
  exists st' paths' r, unmap_block sp b st = (st', r) /\ kernel_wf st' root paths' rest /\
    (forall v, canonical v -> contains_index b (v / 4096) = false -> same_mapping st st' root v) /\
    (r = Ok tt <-> one_side b /\ all_mapped) /\
    (r = Ok tt -> forall v, canonical v -> contains_index b (v / 4096) = true -> unmapped st' root v) /\
    (~ one_side b -> r = Err PermissionDenied /\ st' = st) /\
    (one_side b -> r <> Ok tt -> r = Err NoPage \/ r = Err Unimplemented).
Proof.
  intros Hk Hroot Hb Hne all_mapped.
  destruct (unmap_block_spec st sp root paths rest b Hk Hroot Hb Hne) as (st' & paths' & r & E & Hk' & Hout & Hcase).
  exists st', paths', r. do 3 (split; [done|]).
  destruct (validate_block_cases b Hb Hne) as [[Ev Hs]|[Ev Hs]].
  - destruct Hcase as [(-> & Hall & Hgone)|[[_ Hv]|(Hr & i & Hi & Hu)]]; [|congruence|].
    + split; [done|]. split; [done|]. split; [done|]. by intros _ [].
    + assert (r <> Ok tt) by (by destruct Hr as [-> | ->]). split; [|naive_solver].
      split; [done|]. intros [_ Hall]. by destruct (Hall i Hi).
  - assert (r = Err PermissionDenied /\ st' = st) as [-> ->].
    { unfold unmap_block in E. rewrite Ev in E. by injection E as <- <-. }
    split; [|naive_solver]. split; [done|]. by intros [].
Qed.

(** C3.  The permission check of the system calls, for a non-empty block of addresses
    that does not reach the end of its half.  The check changes nothing and never
    panics; it succeeds exactly when every byte of the block lies in the user's
    part of the address space and is mapped, present, accessible to user code and
    with all the requested flags.  Otherwise it answers [NoPage], [Unimplemented]
    or [PermissionDenied]. *)
Theorem check_permission_exact st sp root b flags :
  tree_wf (memory st) root -> mapping_root sp = Some root ->
  block_wf Virtual b -> b_start b < b_end b -> canonical (b_end b) ->
  let required := Z.lor (Z.lor PageTableFlags.PRESENT PageTableFlags.USER) flags in
  let accessible := forall a, b_start b <= a < b_end b ->
    USER_START * 4096 <= a < LOWER_END /\ permitted st root required a in
  (accessible /\ check_permission_common sp b flags st = (st, Ok tt)) \/
  (~ accessible /\ exists e, check_permission_common sp b flags st = (st, Err e) /\
     (e = NoPage \/ e = Unimplemented \/ e = PermissionDenied)).
Proof. intros Ht Hroot Hb Hne Hend. by apply check_permission_spec. Qed.

(** ** Witnesses *)

Definition sample_space : AddressSpace :=
  mkAddressSpace ProcessKind (Some 0) PageAllocator.page_allocator_zero None.

(** The memory of [sample_kmem] with all four frames free, and with one page mapped. *)
Definition sample_free : Kmem := (with_frames (FrameAllocator.deallocate 4096) sample_kmem).1.
Definition sample_page : Z := 17592186044416.
Definition sample_mapped : Kmem := (map_page sample_space sample_page USER_RW sample_free).1.

Lemma sample_free_wf : kernel_wf sample_free 0 [] [].
Proof.
  destruct (kernel_drop sample_kmem 0 [] 4096 [] sample_kernel_wf) as (st & E & _ & Hk).
  unfold sample_free. by rewrite E.
Qed.

Lemma sample_page_canonical : canonical sample_page.
Proof. unfold canonical, sample_page. lia. Qed.

Lemma sample_mapped_wf : exists paths, kernel_wf sample_mapped 0 paths [].
Proof.
  unfold sample_mapped.
  destruct (map_page_spec sample_space 0 eq_refl USER_RW ltac:(by apply is_flags_const) eq_refl sample_free [] []
              sample_page sample_free_wf sample_page_canonical)
    as [(st & f & ps & -> & _ & Hk & _)|(st & e & ps & -> & _ & Hk & _)]; by exists ps.
Qed.

Lemma map_block_correct_witness :
  exists st f, map_block sample_space (mkBlock USER_START (USER_START + 1)) USER_RW sample_free = (st, Ok tt) /\
    resolve 0 sample_page st = (st, Ok (f, USER_RW)).
Proof.
  destruct (map_block_correct sample_free sample_space 0 [] [] (mkBlock USER_START (USER_START + 1)) USER_RW)
    as [(st & ps & H & _ & Hin & _)|(st & e & ps & H & _)].
  - apply sample_free_wf.
  - reflexivity.
  - by apply is_flags_const.
  - reflexivity.
  - wf_check.
  - cbn. lia.
  - destruct (Hin sample_page) as (f & Hf); [apply sample_page_canonical|vm_compute; reflexivity|].
    exists st, f. split; [exact H|exact Hf].
  - exfalso. assert (is_ok (map_block sample_space (mkBlock USER_START (USER_START + 1)) USER_RW sample_free).2 = true)
      as Hok by (vm_compute; reflexivity).
    rewrite H in Hok. discriminate Hok.
Defined.

Lemma unmap_block_correct_witness :
  exists st, unmap_block sample_space (mkBlock USER_START (USER_START + 1)) sample_mapped = (st, Ok tt) /\
    unmapped st 0 sample_page.
Proof.
  destruct sample_mapped_wf as [paths Hk].
  destruct (unmap_block_correct sample_mapped sample_space 0 paths [] (mkBlock USER_START (USER_START + 1)))
    as (st & ps & r & H & _ & _ & Hcase); [exact Hk|reflexivity|wf_check|cbn; lia|].
  assert ((unmap_block sample_space (mkBlock USER_START (USER_START + 1)) sample_mapped).2 = Ok tt) as Hok
    by (vm_compute; reflexivity).
  rewrite H in Hok. cbn in Hok. subst r.
  destruct Hcase as (_ & Hgone & _).
  exists st. split; [exact H|]. apply (Hgone eq_refl); [apply sample_page_canonical|vm_compute; reflexivity].
Defined.

Lemma check_permission_exact_witness :
  check_permission_common sample_space (mkBlock (sample_page + 10) (sample_page + 20)) USER_RW sample_mapped =
    (sample_mapped, Ok tt) /\
  exists p f, resolve 0 (sample_page + 15) sample_mapped = (sample_mapped, Ok (p, f)) /\
    PageTableFlags.contains f USER_RW = true.
Proof.
  destruct sample_mapped_wf as [paths Hk].
  destruct (check_permission_exact sample_mapped sample_space 0 (mkBlock (sample_page + 10) (sample_page + 20)) USER_RW)
    as [[Hacc H]|(_ & e & H & _)];
    [apply (kw_tree _ _ _ _ Hk)|reflexivity|wf_check|cbn; lia|unfold canonical, sample_page; cbn; lia| |].
  - split; [exact H|]. destruct (Hacc (sample_page + 15)) as [_ (p & f & Hr & Hc)]; [cbn; lia|].
    exists p, f. split; [exact Hr|]. exact Hc.
  - exfalso. assert (is_ok (check_permission_common sample_space (mkBlock (sample_page + 10) (sample_page + 20))
                              USER_RW sample_mapped).2 = true) as Hok by (vm_compute; reflexivity).
    rewrite H in Hok. discriminate Hok.
Defined.
