(* ===== verification/Process.v ===== *)
(** * Process: processes and the system call interface

    Models [ku/src/process/syscall.rs], [ku/src/process/mini_context.rs], the
    enumeration of [ku/src/process/mod.rs], the register state of
    [kernel/src/process/registers.rs] and the process structure of
    [kernel/src/process/process.rs]. *)

From Stdlib Require Import ZArith Lia.
From stdpp Require Import base list numbers tactics.
From S2P Require Import Prelude Addr Frage Block Pid AddressSpace.

Open Scope Z_scope.
Open Scope outcome_scope.

(** ** System call numbers and result codes

    [num_enum] derives the conversions from the discriminants. *)

Inductive ExitCode := ExitOk | ExitPanic | ExitUnimplementedSyscall.

Definition exit_code_try_from (code : Z) : outcome ExitCode :=
  match code with
  | 0 => Ok ExitOk
  | 1 => Ok ExitPanic
  | 2 => Ok ExitUnimplementedSyscall
  | _ => Err Int
  end.

Inductive Syscall :=
  | Exit | LogValue | SchedYield | Exofork | Map | Unmap | CopyMapping | SetState | SetTrapHandler.

Definition syscall_try_from (number : Z) : outcome Syscall :=
  match number with
  | 0 => Ok Exit
  | 1 => Ok LogValue
  | 2 => Ok SchedYield
  | 3 => Ok Exofork
  | 4 => Ok Map
  | 5 => Ok Unmap
  | 6 => Ok CopyMapping
  | 7 => Ok SetState
  | 8 => Ok SetTrapHandler
  | _ => Err Int
  end.

Module ResultCode.

Inductive t :=
  | Ok | Unexpected | InvalidArgument | NoFrame | NoPage | NoProcess | NoProcessSlot | Null
  | Overflow | PermissionDenied | Unimplemented | InvalidAlignment.

Definition into_usize (code : t) : Z :=
  match code with
  | Ok => 0
  | Unexpected => 1
  | InvalidArgument => 2
  | NoFrame => 3
  | NoPage => 4
  | NoProcess => 5
  | NoProcessSlot => 6
  | Null => 7
  | Overflow => 8
  | PermissionDenied => 9
  | Unimplemented => 10
  | InvalidAlignment => 11
  end.

Definition try_from (code : Z) : outcome t :=
  match code with
  | 0 => Prelude.Ok Ok
  | 1 => Prelude.Ok Unexpected
  | 2 => Prelude.Ok InvalidArgument
  | 3 => Prelude.Ok NoFrame
  | 4 => Prelude.Ok NoPage
  | 5 => Prelude.Ok NoProcess
  | 6 => Prelude.Ok NoProcessSlot
  | 7 => Prelude.Ok Null
  | 8 => Prelude.Ok Overflow
  | 9 => Prelude.Ok PermissionDenied
  | 10 => Prelude.Ok Unimplemented
  | 11 => Prelude.Ok InvalidAlignment
  | _ => Err Int
  end.

(** [From<ResultCode> for Result<()>]: [Unexpected] panics. *)
Definition into_result (code : t) : outcome unit :=
  match code with
  | Ok => Prelude.Ok tt
  | InvalidArgument => Err Prelude.InvalidArgument
  | NoFrame => Err Prelude.NoFrame
  | NoPage => Err Prelude.NoPage
  | NoProcess => Err Prelude.NoProcess
  | NoProcessSlot => Err Prelude.NoProcessSlot
  | Null => Err Prelude.Null
  | Overflow => Err Prelude.Overflow
  | PermissionDenied => Err Prelude.PermissionDenied
  | Unimplemented => Err Prelude.Unimplemented
  | InvalidAlignment => Err Prelude.InvalidAlignment
  | Unexpected => Panic
  end.

(** The code of an error. *)
Definition of_error (error : Error) : t :=
  match error with
  | Prelude.InvalidArgument => InvalidArgument
  | Prelude.NoFrame => NoFrame
  | Prelude.NoPage => NoPage
  | Prelude.NoProcess => NoProcess
  | Prelude.NoProcessSlot => NoProcessSlot
  | Prelude.Null => Null
  | Prelude.Overflow => Overflow
  | Prelude.PermissionDenied => PermissionDenied
  | Prelude.Unimplemented => Unimplemented
  | Prelude.InvalidAlignment => InvalidAlignment
  | _ => Unexpected
  end.

(** [From<Result<T>> for ResultCode]; the argument is a finished [Result]: a value or
    an error. *)
Definition from_result {A} (result : A + Error) : t :=
  match result with
  | inl _ => Ok
  | inr error => of_error error
  end.

End ResultCode.

Inductive State := ExoforkState | Runnable | Running.

#[export] Instance State_eq_dec : EqDecision State.
Proof. solve_decision. Defined.

Definition state_into_usize (state : State) : Z :=
  match state with ExoforkState => 0 | Runnable => 1 | Running => 2 end.

Definition state_try_from (state : Z) : outcome State :=
  match state with
  | 0 => Ok ExoforkState
  | 1 => Ok Runnable
  | 2 => Ok Running
  | _ => Err Int
  end.

(** ** Contexts and registers *)

Record MiniContext := mkMiniContext { mini_rip : Z; mini_rsp : Z }.

(** [push::<T>], with the size of [T]: the new context and the block. *)
Definition push (size_of_T : Z) : M MiniContext Block := fun context =>
  let old_rsp := mini_rsp context in
  match addr_sub VirtTag old_rsp size_of_T with
  | Ok rsp => (mkMiniContext (mini_rip context) rsp, block_new Virtual rsp old_rsp)
  | Err e => (context, Err e)
  | Panic => (context, Panic)
  end.

(** [RFlags::INTERRUPT_FLAG], bit 9 of the register. *)
Definition INTERRUPT_FLAG : Z := Z.shiftl 1 9.
Definition CPL_MASK : Z := 3.
Definition RING_0 : Z := 0.

Record ModeContext := mkModeContext {
  mode_rip : Z;
  cs : Z;
  rflags : Z;
  mode_rsp : Z;
  ss : Z;
}.

Definition mode_context_new (code data : Z) (context : MiniContext) (rflags : Z) : ModeContext :=
  mkModeContext (mini_rip context) code rflags (mini_rsp context) data.

Definition mini_context (context : ModeContext) : MiniContext :=
  mkMiniContext (mode_rip context) (mode_rsp context).

Definition mode_set_mini_context (context : ModeContext) (mini : MiniContext) : ModeContext :=
  mkModeContext (mini_rip mini) (cs context) (rflags context) (mini_rsp mini) (ss context).

Definition is_user_mode_segment (segment_selector : Z) : bool :=
  negb (Z.land segment_selector CPL_MASK =? RING_0).

Definition is_user_mode (context : ModeContext) : outcome bool :=
  if Bool.eqb (is_user_mode_segment (cs context)) (is_user_mode_segment (ss context))
  then Ok (is_user_mode_segment (cs context))
  else Panic.

Record Registers := mkRegisters {
  rax : Z;
  gpr1 : list Z;
  rdi : Z;
  rsi : Z;
  gpr2 : list Z;
  user_context : ModeContext;
}.

(** The segment selectors of user code and data come from the descriptor table, which
    is not modelled. *)
Section Registers.
  Context (user_code user_data : Z).

Definition mode_user_context (context : MiniContext) : ModeContext :=
  mode_context_new user_code user_data context INTERRUPT_FLAG.

Definition registers_new (context : MiniContext) (process_info : Z) : Registers :=
  mkRegisters (ResultCode.into_usize ResultCode.Ok) (replicate 3 0) (into_usize Current) process_info
    (replicate 9 0) (mode_user_context context).

End Registers.

Definition registers_duplicate (r : Registers) (rax rdi rsi : Z) : Registers :=
  mkRegisters rax (gpr1 r) rdi rsi (gpr2 r) (user_context r).

Definition registers_mini_context (r : Registers) : MiniContext := mini_context (user_context r).

Definition set_mode_context (r : Registers) (context : ModeContext) : Registers :=
  mkRegisters (rax r) (gpr1 r) (rdi r) (rsi r) (gpr2 r) context.

Definition set_mini_context (r : Registers) (context : MiniContext) : Registers :=
  set_mode_context r (mode_set_mini_context (user_context r) context).

Definition set_rax (r : Registers) (value : Z) : Registers :=
  mkRegisters value (gpr1 r) (rdi r) (rsi r) (gpr2 r) (user_context r).

Definition set_rdi (r : Registers) (value : Z) : Registers :=
  mkRegisters (rax r) (gpr1 r) value (rsi r) (gpr2 r) (user_context r).

(** ** Processes *)

Record TrapContext := mkTrapContext { trap_mini_context : MiniContext; trap_stack : Block }.

Definition trap_context_new (rip : Z) (stack : Block) : outcome TrapContext :=
  let? rsp := end_address Virtual stack in
  Ok (mkTrapContext (mkMiniContext rip rsp) stack).

Definition trap_context_contains (t : TrapContext) (rsp : Z) : outcome bool :=
  contains_address Virtual (trap_stack t) rsp.

Definition trap_context_is_valid (t : TrapContext) : bool :=
  negb (bool_decide (trap_stack t = block_zero)).

(** The spinlock around the address space and the log buffer, which no modelled
    operation touches, are left out. *)
Record Process := mkProcess {
  address_space : AddressSpace;
  info : Block;
  parent : option Pid;
  process_pid : Pid;
  registers : Registers;
  state : State;
  trap_context : TrapContext;
}.

Definition pid (p : Process) : outcome Pid :=
  if decide (process_pid p = Current) then Panic else Ok (process_pid p).

Definition set_pid (p : Process) (pid : Pid) : outcome Process :=
  match pid with
  | Id _ _ =>
      Ok (mkProcess (space_set_pid (address_space p) pid) (info p) (parent p) pid (registers p) (state p)
            (trap_context p))
  | Current => Panic
  end.

Definition set_registers (p : Process) (r : Registers) : Process :=
  mkProcess (address_space p) (info p) (parent p) (process_pid p) r (state p) (trap_context p).

Definition set_context (p : Process) (context : MiniContext) : Process :=
  set_registers p (set_mini_context (registers p) context).

Definition set_state (p : Process) (state : State) : Process :=
  mkProcess (address_space p) (info p) (parent p) (process_pid p) (registers p) state (trap_context p).

Definition set_trap_context (p : Process) (trap_context : TrapContext) : Process :=
  mkProcess (address_space p) (info p) (parent p) (process_pid p) (registers p) (state p) trap_context.

Definition set_syscall_result (p : Process) (result : Z + Error) : Process :=
  let '(code, value) :=
    match result with
    | inl value => (ResultCode.Ok, value)
    | inr _ => (ResultCode.from_result result, 0)
    end in
  set_registers p (set_rdi (set_rax (registers p) (ResultCode.into_usize code)) value).

(** The way a process is identified, which is all the process table relies on. *)
Lemma pid_set_pid p epoch slot :
  exists p', set_pid p (Id epoch slot) = Ok p' /\ pid p' = Ok (Id epoch slot) /\
    process_pid p' = Id epoch slot /\ space_pid (address_space p') = Some (Id epoch slot) /\
    registers p' = registers p /\ state p' = state p.
Proof. eexists. split; [done|]. by unfold pid. Qed.

(** ** Theorems *)

(** The result of a system call as user code sees it.  The kernel stores a code
    and a value in two registers; decoding them yields the value for a success and
    the same error for every error that has a code of its own.  The remaining
    errors are stored as [Unexpected], whose decoding panics; a register that holds
    no code is refused. *)
Theorem syscall_result_roundtrip p (result : Z + Error) :
  let r := registers (set_syscall_result p result) in
  match result with
  | inl value =>
      rdi r = value /\ (let? code := ResultCode.try_from (rax r) in ResultCode.into_result code) = Ok tt
  | inr e =>
      rdi r = 0 /\
      (let? code := ResultCode.try_from (rax r) in ResultCode.into_result code) =
        if bool_decide (e ∈ [InvalidArgument; InvalidAlignment; NoFrame; NoPage; NoProcess; NoProcessSlot; Null;
                             Overflow; PermissionDenied; Unimplemented])
        then Err e else Panic
  end /\
  forall w, ResultCode.try_from w = Err Int <-> ~ 0 <= w < 12.
Proof.
  split.
  - destruct result as [value|e]; [done|]. split; [done|]. by destruct e.
  - intros w. split.
    + intros H Hw.
      assert (w = 0 \/ w = 1 \/ w = 2 \/ w = 3 \/ w = 4 \/ w = 5 \/ w = 6 \/ w = 7 \/ w = 8 \/ w = 9 \/ w = 10 \/ w = 11)
        as Hc by lia.
      repeat destruct Hc as [->|Hc]; [discriminate H..|by subst].
    + intros Hw. destruct w as [|w|w]; [lia| |done]. do 4 (destruct w as [w|w|]; try done; try lia).
Qed.
