(* ===== verification/ProcessTable.v ===== *)
(** * ProcessTable: the table of processes

    Models [kernel/src/process/table.rs].  The state is the value behind the global
    lock [TABLE]; every operation holds that lock from beginning to end. *)

From Stdlib Require Import ZArith Lia.
From stdpp Require Import base list numbers tactics relations.
From S2P Require Import Prelude Pid Process.

Open Scope Z_scope.
Open Scope outcome_scope.

Inductive Slot :=
  | FreeSlot (pid : Pid) (next : option Pid)
  | UsedSlot (process : Process).

Record Table := mkTable {
  free_head : option Pid;
  process_count : Z;
  slots : list Slot;
}.

(** The loop of [Table::new]: the slots from [slot] on. *)
Fixpoint new_slots (fuel : nat) (slot len : Z) : outcome (list Slot) :=
  match fuel with
  | O => Ok []
  | S fuel =>
      let? next := (if slot + 1 <? len then let? pid := pid_new (slot + 1) in Ok (Some pid) else Ok None) in
      let? pid := pid_new slot in
      let? rest := new_slots fuel (slot + 1) len in
      Ok (FreeSlot pid next :: rest)
  end.

Definition table_new (len : Z) : outcome Table :=
  let? table := new_slots (Z.to_nat len) 0 len in
  let? free := (if 0 <? len then let? pid := pid_new 0 in Ok (Some pid) else Ok None) in
  Ok (mkTable free 0 table).

Definition allocate (process : Process) : M Table Pid := fun table =>
  match free_head table with
  | None => (table, Err NoProcessSlot)
  | Some pid =>
      match (let? slot := pid_slot pid in let? s := index (slots table) slot in Ok (slot, s)) with
      | Ok (slot, FreeSlot _ next_free) =>
          match set_pid process pid with
          | Ok process =>
              match usize_add (process_count table) 1 with
              | Ok process_count =>
                  (mkTable next_free process_count (<[Z.to_nat slot := UsedSlot process]> (slots table)), Ok pid)
              | _ => (table, Panic)
              end
          | _ => (table, Panic)
          end
      | Ok (_, UsedSlot _) => (table, Err NoProcessSlot)
      | _ => (table, Panic)
      end
  end.

(** The lookup that [get] and [free] share: the process in the slot of [pid], if it
    is the one [pid] names. *)
Definition find (table : Table) (pid : Pid) : outcome Process :=
  let? slot := pid_slot pid in
  if Z.of_nat (length (slots table)) <=? slot then Err NoProcess
  else
    let? s := index (slots table) slot in
    match s with
    | UsedSlot process =>
        let? process_pid := Process.pid process in
        if decide (process_pid = pid) then Ok process else Err NoProcess
    | FreeSlot _ _ => Err NoProcess
    end.

Definition free (pid : Pid) : M Table unit := fun table =>
  match find table pid with
  | Ok _ =>
      match
        (let? process_count := usize_sub (process_count table) 1 in
         let? pid := next_epoch pid in
         let? slot := pid_slot pid in
         Ok (process_count, pid, slot))
      with
      | Ok (process_count, pid, slot) =>
          (mkTable (Some pid) process_count
             (<[Z.to_nat slot := FreeSlot pid (free_head table)]> (slots table)), Ok tt)
      | _ => (table, Panic)
      end
  | Err e => (table, Err e)
  | Panic => (table, Panic)
  end.

Definition get (pid : Pid) : M Table Process := fun table => (table, find table pid).

(** A change made to a process through the guard [get] returns. *)
Definition update (pid : Pid) (f : Process -> Process) : M Table unit := fun table =>
  match find table pid with
  | Ok process =>
      match pid_slot pid with
      | Ok slot =>
          (mkTable (free_head table) (process_count table)
             (<[Z.to_nat slot := UsedSlot (f process)]> (slots table)), Ok tt)
      | _ => (table, Panic)
      end
  | Err e => (table, Err e)
  | Panic => (table, Panic)
  end.

(** ** The invariant *)

Fixpoint free_chain (slots : list Slot) (head : option Pid) (l : list Z) : Prop :=
  match l with
  | [] => head = None
  | i :: l =>
      exists epoch next, head = Some (Id epoch i) /\ 0 <= i /\
        slots !! Z.to_nat i = Some (FreeSlot (Id epoch i) next) /\ free_chain slots next l
  end.

Definition is_used (s : Slot) : bool := match s with UsedSlot _ => true | FreeSlot _ _ => false end.

(** The identifier recorded in a slot. *)
Definition slot_pid (s : Slot) : Pid :=
  match s with FreeSlot pid _ => pid | UsedSlot process => process_pid process end.

Record table_wf (t : Table) : Prop := {
  tw_length : Z.of_nat (length (slots t)) <= U16_MODULUS;
  tw_chain : exists l, free_chain (slots t) (free_head t) l /\ NoDup l /\
    forall i pid next, slots t !! i = Some (FreeSlot pid next) -> Z.of_nat i ∈ l;
  tw_pids : forall i s, slots t !! i = Some s ->
    exists epoch, slot_pid s = Id epoch (Z.of_nat i) /\ 0 <= epoch < U32_MODULUS;
  tw_count : process_count t = Z.of_nat (length (filter (fun s => is_used s = true) (slots t)));
}.

(** The abstract table: a partial map from identifiers to processes. *)
Definition live (t : Table) (pid : Pid) : option Process :=
  match pid with
  | Current => None
  | Id _ slot =>
      if 0 <=? slot then
        match slots t !! Z.to_nat slot with
        | Some (UsedSlot process) => if decide (process_pid process = pid) then Some process else None
        | _ => None
        end
      else None
  end.

(** *** The free list *)

Lemma free_chain_insert slots head l i s :
  free_chain slots head l -> i ∉ l -> 0 <= i -> free_chain (<[Z.to_nat i := s]> slots) head l.
Proof.
  revert head. induction l as [|j l IH]; intros head Hc Hi H0; [done|].
  destruct Hc as (epoch & next & -> & Hj & Hn & Hc). apply not_elem_of_cons in Hi as [Hne Hi].
  exists epoch, next. split; [done|]. split; [done|]. split; [rewrite list_lookup_insert_ne by lia; done|]. by apply IH.
Qed.

Lemma free_chain_free slots head l i :
  free_chain slots head l -> i ∈ l -> exists pid next, slots !! Z.to_nat i = Some (FreeSlot pid next).
Proof.
  revert head. induction l as [|j l IH]; intros head Hc Hi; [by apply not_elem_of_nil in Hi|].
  destruct Hc as (epoch & next & -> & Hj & Hn & Hc). apply elem_of_cons in Hi as [->|Hi]; [by eauto|by eapply IH].
Qed.

Lemma used_bound t : table_wf t -> 0 <= process_count t <= Z.of_nat (length (slots t)).
Proof.
  intros Hwf. rewrite (tw_count _ Hwf). pose proof (length_filter (fun s => is_used s = true) (slots t)). lia.
Qed.

(** Filling and emptying a slot changes the number of used slots by one. *)
Lemma filter_insert_length {A} (P : A -> Prop) `{!forall x, Decision (P x)} (l : list A) i x y :
  l !! i = Some x ->
  Z.of_nat (length (filter P (<[i := y]> l))) =
    Z.of_nat (length (filter P l)) - (if decide (P x) then 1 else 0) + (if decide (P y) then 1 else 0).
Proof.
  revert i. induction l as [|z l IH]; intros i Hi; [done|]. destruct i as [|i].
  - injection Hi as ->. cbn [insert list_insert]. rewrite !filter_cons.
    destruct (decide (P x)), (decide (P y)); cbn [length]; lia.
  - cbn [lookup list_lookup] in Hi. specialize (IH i Hi). cbn [insert list_insert]. rewrite !filter_cons.
    destruct (decide (P z)); cbn [length]; unfold insert, list_insert in *; lia.
Qed.

(** ** What each operation does *)

Section Steps.
  Context (t : Table) (Ht : table_wf t).

Lemma find_live pid : pid <> Current -> pid_wf pid -> find t pid = ok_or (live t pid) NoProcess.
Proof using Ht.
  intros Hpid Hwf. destruct pid as [|epoch slot]; [done|]. destruct Hwf as [He Hs]. unfold find, live.
  cbn [pid_slot]. rewrite (proj2 (Z.leb_le 0 slot)) by lia.
  destruct (Z.leb_spec (Z.of_nat (length (slots t))) slot) as [Hge|Hlt].
  { by rewrite lookup_ge_None_2 by lia. }
  destruct (index_in_range (slots t) slot) as [s Es]; [lia|]. rewrite Es. apply index_ok in Es as [_ Es]. rewrite Es.
  destruct s as [p next|process]; [done|]. destruct (tw_pids _ Ht _ _ Es) as (epoch' & Hp & _). cbn in Hp.
  unfold Process.pid. rewrite Hp. cbn [decide]. destruct (decide (Id epoch' (Z.of_nat (Z.to_nat slot)) = Current)); [done|]. by destruct (decide _).
Qed.

Lemma live_used pid process :
  live t pid = Some process -> exists epoch slot, pid = Id epoch slot /\ 0 <= slot /\
    slots t !! Z.to_nat slot = Some (UsedSlot process) /\ process_pid process = pid /\ pid_wf pid.
Proof using Ht.
  destruct pid as [|epoch slot]; [done|]. cbn. destruct (Z.leb_spec 0 slot); [|done].
  destruct (slots t !! Z.to_nat slot) as [[|p]|] eqn:E; [done| |done].
  destruct (decide _) as [Hp|]; [|done]. intros [= ->]. exists epoch, slot. do 4 (split; [done|]).
  destruct (tw_pids _ Ht _ _ E) as (epoch' & Hp' & He). cbn in Hp'. rewrite Hp in Hp'. injection Hp' as ->.
  apply lookup_lt_Some in E. pose proof (tw_length _ Ht). split; lia.
Qed.

(** Replacing the content of one slot. *)
Lemma live_insert i s q :
  0 <= i < Z.of_nat (length (slots t)) ->
  live (mkTable (free_head t) (process_count t) (<[Z.to_nat i := s]> (slots t))) q =
    match q with
    | Id _ slot =>
        if decide (slot = i) then
          match s with UsedSlot p => if decide (process_pid p = q) then Some p else None | _ => None end
        else live t q
    | Current => None
    end.
Proof using.
  intros Hi. destruct q as [|epoch slot]; [done|]. cbn. destruct (decide (slot = i)) as [->|Hne].
  - rewrite (proj2 (Z.leb_le 0 i)), list_lookup_insert_eq by lia. by destruct s.
  - destruct (Z.leb_spec 0 slot); [|done]. by rewrite list_lookup_insert_ne by lia.
Qed.

Lemma pids_insert i s :
  (exists epoch, slot_pid s = Id epoch i /\ 0 <= epoch < U32_MODULUS) -> 0 <= i ->
  forall j s', <[Z.to_nat i := s]> (slots t) !! j = Some s' ->
    exists epoch, slot_pid s' = Id epoch (Z.of_nat j) /\ 0 <= epoch < U32_MODULUS.
Proof using Ht.
  intros (epoch & Hs & He) Hi j s' Hj. apply list_lookup_insert_Some in Hj as [(<- & -> & _)|[_ Hj]].
  - exists epoch. by rewrite Z2Nat.id.
  - by apply (tw_pids _ Ht).
Qed.

Lemma slot_allocate_cases process :
  (free_head t = None /\ (forall i s, slots t !! i = Some s -> is_used s = true) /\
     allocate process t = (t, Err NoProcessSlot)) \/
  exists epoch i next p t', allocate process t = (t', Ok (Id epoch i)) /\
    0 <= i < Z.of_nat (length (slots t)) /\ slots t !! Z.to_nat i = Some (FreeSlot (Id epoch i) next) /\
    set_pid process (Id epoch i) = Ok p /\ process_pid p = Id epoch i /\
    slots t' = <[Z.to_nat i := UsedSlot p]> (slots t) /\ process_count t' = process_count t + 1 /\ table_wf t'.
Proof using Ht.
  destruct Ht as [Hlen (l & Hc & Hnd & Hall) Hpids Hcnt]. unfold allocate. destruct l as [|i l].
  { left. cbn in Hc. rewrite Hc. split; [done|]. split; [|done]. intros i [p next|p] Hi; [|done].
    apply Hall in Hi. by apply not_elem_of_nil in Hi. }
  right. destruct Hc as (epoch & next & -> & Hi & Hs & Hc). cbn [pid_slot]. apply list.NoDup_cons in Hnd as [Hil Hnd].
  pose proof (lookup_lt_Some _ _ _ Hs) as Hlt. rewrite (proj2 (index_ok (slots t) i _) (conj Hi Hs)).
  destruct (pid_set_pid process epoch i) as (p & Hp & _ & Hpid & _). rewrite Hp.
  pose proof (used_bound t Ht) as Hb. rewrite usize_add_ok by (unfold is_usize; lia).
  eexists epoch, i, next, p, _. split; [done|]. split; [lia|]. do 5 (split; [done|]).
  destruct (Hpids _ _ Hs) as (e & He & Her). cbn in He. injection He as <- _.
  split; cbn [slots free_head process_count].
  - by rewrite length_insert.
  - exists l. split; [by apply free_chain_insert|]. split; [done|]. intros j pid' next' Hj.
    apply list_lookup_insert_Some in Hj as [(_ & ? & _)|[Hne Hj]]; [done|].
    apply Hall in Hj. apply elem_of_cons in Hj as [Heq|Hj]; [lia|done].
  - apply pids_insert; [|done]. exists epoch. done.
  - rewrite (filter_insert_length _ _ _ _ _ Hs), decide_False, decide_True by done. lia.
Qed.

Lemma free_cases epoch slot :
  pid_wf (Id epoch slot) ->
  match live t (Id epoch slot) with
  | None => free (Id epoch slot) t = (t, Err NoProcess)
  | Some process =>
      if epoch + 1 =? U32_MODULUS then free (Id epoch slot) t = (t, Panic)
      else exists t', free (Id epoch slot) t = (t', Ok tt) /\ table_wf t' /\
        slots t' = <[Z.to_nat slot := FreeSlot (Id (epoch + 1) slot) (free_head t)]> (slots t) /\
        slots t !! Z.to_nat slot = Some (UsedSlot process) /\
        process_count t' = process_count t - 1
  end.
Proof using Ht.
  intros Hwf. unfold free. rewrite find_live by done. destruct (live t (Id epoch slot)) as [process|] eqn:E; [|done].
  destruct (live_used _ _ E) as (e' & s' & [= <- <-] & Hi & Hs & Hp & _). cbn [ok_or].
  pose proof (used_bound t Ht) as Hb. pose proof (lookup_lt_Some _ _ _ Hs) as Hlt.
  assert (1 <= process_count t) as Hpos.
  { rewrite (tw_count _ Ht). assert (UsedSlot process ∈ filter (fun s => is_used s = true) (slots t)) as Hin.
    { apply list_elem_of_filter. split; [done|]. by apply list_elem_of_lookup_2 in Hs. }
    destruct (filter _ (slots t)); [by apply not_elem_of_nil in Hin|]. cbn. lia. }
  pose proof (tw_length _ Ht). rewrite usize_sub_ok by (unfold is_usize; lia). cbn [next_epoch].
  destruct (Z.eqb_spec (epoch + 1) U32_MODULUS) as [He|He].
  { by rewrite (proj2 (Z.ltb_ge _ _)) by lia. }
  destruct Hwf as [Hep Hsl]. rewrite (proj2 (Z.ltb_lt _ _)) by lia. cbn [pid_slot]. eexists. split; [done|].
  split; [|done]. destruct (tw_chain _ Ht) as (l & Hc & Hnd & Hall).
  assert (slot ∉ l) as Hsl'.
  { intros Hin. destruct (free_chain_free _ _ _ _ Hc Hin) as (? & ? & H'). congruence. }
  split; cbn [slots free_head process_count].
  - by rewrite length_insert.
  - exists (slot :: l). split; [|split; [by apply list.NoDup_cons|]].
    + exists (epoch + 1), (free_head t). split; [done|]. split; [done|].
      split; [by rewrite list_lookup_insert_eq by done|by apply free_chain_insert].
    + intros j pid' next' Hj. apply list_lookup_insert_Some in Hj as [(<- & _)|[_ Hj]].
      * rewrite Z2Nat.id by done. left.
      * right. by eapply Hall.
  - apply pids_insert; [|done]. exists (epoch + 1). split; [done|lia].
  - rewrite (filter_insert_length _ _ _ _ _ Hs), decide_True, decide_False by done. rewrite (tw_count _ Ht). lia.
Qed.

Lemma update_cases pid process f :
  live t pid = Some process -> process_pid (f process) = pid ->
  exists t', update pid f t = (t', Ok tt) /\ table_wf t' /\ free_head t' = free_head t /\
    (forall q, live t' q = if decide (q = pid) then Some (f process) else live t q) /\
    map slot_pid (slots t') = map slot_pid (slots t) /\ map is_used (slots t') = map is_used (slots t).
Proof using Ht.
  intros E Hf. destruct (live_used _ _ E) as (epoch & slot & -> & Hi & Hs & Hp & Hwf).
  unfold update. rewrite find_live, E by done. cbn [ok_or pid_slot]. eexists. split; [done|].
  pose proof (lookup_lt_Some _ _ _ Hs) as Hlt. split; [|split; [done|split; [|split]]].
  - destruct (tw_chain _ Ht) as (l & Hc & Hnd & Hall). split; cbn [slots free_head process_count].
    + rewrite length_insert. apply (tw_length _ Ht).
    + exists l. split; [apply free_chain_insert; [done| |done]|].
      { intros Hin. destruct (free_chain_free _ _ _ _ Hc Hin) as (? & ? & H'). congruence. }
      split; [done|]. intros j pid' next' Hj. apply list_lookup_insert_Some in Hj as [(_ & ? & _)|[Hne Hj]]; [done|].
      by eapply Hall.
    + apply pids_insert; [|done]. exists epoch. split; [done|apply Hwf].
    + rewrite (filter_insert_length _ _ _ _ _ Hs), !decide_True by done. rewrite (tw_count _ Ht). lia.
  - intros q. rewrite live_insert by lia. destruct q as [|e' s']; [by rewrite decide_False|].
    destruct (decide (s' = slot)) as [->|Hne]; [|by rewrite decide_False by congruence].
    rewrite Hf. destruct (decide (Id epoch slot = Id e' slot)) as [<-|Hne]; [by rewrite decide_True|].
    rewrite decide_False by congruence. cbn. rewrite (proj2 (Z.leb_le 0 slot)), Hs by done.
    by rewrite Hp, decide_False.
  - cbn [slots]. rewrite list_fmap_insert. cbn [slot_pid]. rewrite Hf. apply list_insert_id.
    rewrite list_lookup_fmap, Hs. cbn. by rewrite Hp.
  - cbn [slots]. rewrite list_fmap_insert. cbn [is_used]. apply list_insert_id. by rewrite list_lookup_fmap, Hs.
Qed.

End Steps.

(** ** A new table *)

Definition new_slot (len i : Z) : Slot :=
  FreeSlot (Id 0 i) (if i + 1 <? len then Some (Id 0 (i + 1)) else None).

Lemma pid_new_ok i : 0 <= i < U16_MODULUS -> pid_new i = Ok (Id 0 i).
Proof. intros Hi. unfold pid_new. by rewrite (proj2 (Z.leb_le _ _)), (proj2 (Z.ltb_lt _ _)) by lia. Qed.

Lemma new_slots_spec n i len :
  0 <= i -> i + Z.of_nat n = len -> len <= U16_MODULUS ->
  new_slots n i len = Ok (new_slot len <$> seqZ i (Z.of_nat n)).
Proof.
  revert i. induction n as [|n IH]; intros i Hi Hlen Hmax; [done|]. cbn [new_slots].
  rewrite (seqZ_cons i) by lia. replace (Z.pred (Z.of_nat (S n))) with (Z.of_nat n) by lia.
  rewrite (pid_new_ok i), IH, <- (Z.add_1_r i) by lia.
  cbn [fmap list_fmap]. unfold new_slot at 2. destruct (Z.ltb_spec (i + 1) len); [by rewrite pid_new_ok by lia|done].
Qed.

Lemma table_new_lookup len i :
  0 <= len -> (i < Z.to_nat len)%nat -> (new_slot len <$> seqZ 0 len) !! i = Some (new_slot len (Z.of_nat i)).
Proof.
  intros Hlen Hi. rewrite list_lookup_fmap, lookup_seqZ_lt by lia. done.
Qed.

Lemma new_chain len n i :
  0 <= i -> i + Z.of_nat n = len ->
  free_chain (new_slot len <$> seqZ 0 len) (if i <? len then Some (Id 0 i) else None) (seqZ i (Z.of_nat n)).
Proof.
  revert i. induction n as [|n IH]; intros i Hi Hlen.
  { cbn. by rewrite (proj2 (Z.ltb_ge _ _)) by lia. }
  rewrite (seqZ_cons i) by lia. replace (Z.pred (Z.of_nat (S n))) with (Z.of_nat n) by lia.
  rewrite (proj2 (Z.ltb_lt i len)) by lia.
  exists 0, (if i + 1 <? len then Some (Id 0 (i + 1)) else None). split; [done|]. split; [done|]. split.
  - rewrite table_new_lookup by lia. by rewrite Z2Nat.id.
  - rewrite <- Z.add_1_r. apply IH; lia.
Qed.

Lemma table_new_spec len :
  0 <= len <= U16_MODULUS ->
  exists t, table_new len = Ok t /\ table_wf t /\ Z.of_nat (length (slots t)) = len /\
    (forall pid, live t pid = None) /\
    forall i s, slots t !! i = Some s -> slot_pid s = Id 0 (Z.of_nat i) /\ is_used s = false.
Proof.
  intros Hlen. unfold table_new. rewrite new_slots_spec by lia. rewrite Z2Nat.id by lia.
  assert ((if 0 <? len then let? pid := pid_new 0 in Ok (Some pid) else Ok None) =
          Ok (if 0 <? len then Some (Id 0 0) else None)) as ->.
  { destruct (Z.ltb_spec 0 len); [|done]. by rewrite pid_new_ok by lia. }
  set (sl := new_slot len <$> seqZ 0 len).
  assert (length sl = Z.to_nat len) as Hl by (unfold sl; by rewrite length_fmap, length_seqZ).
  assert (forall i s, sl !! i = Some s -> s = new_slot len (Z.of_nat i) /\ Z.of_nat i < len) as Hs.
  { intros i s Hi. pose proof (lookup_lt_Some _ _ _ Hi) as Hlt. rewrite Hl in Hlt. unfold sl in Hi.
    rewrite table_new_lookup in Hi by lia. injection Hi as <-. split; [done|lia]. }
  eexists. split; [done|]. split; [|split; [cbn; lia|split]].
  - split; cbn [slots free_head process_count].
    + lia.
    + exists (seqZ 0 len). split; [|split; [apply NoDup_seqZ|]].
      * pose proof (new_chain len (Z.to_nat len) 0 ltac:(lia) ltac:(lia)) as Hc. by rewrite Z2Nat.id in Hc by lia.
      * intros i pid next Hi. apply Hs in Hi as [_ Hi]. apply elem_of_seqZ. lia.
    + intros i s Hi. apply Hs in Hi as [-> _]. exists 0. split; [done|lia].
    + replace (filter _ sl) with (@nil Slot); [done|]. symmetry.
      destruct (filter (fun s => is_used s = true) sl) as [|s rest] eqn:E; [done|].
      assert (s ∈ filter (fun s => is_used s = true) sl) as Hin by (rewrite E; left).
      apply list_elem_of_filter in Hin as [Hu [i Hi]%list_elem_of_lookup]. by apply Hs in Hi as [-> _].
  - intros [|epoch slot]; [done|]. cbn. destruct (Z.leb_spec 0 slot); [|done].
    destruct (sl !! Z.to_nat slot) as [s|] eqn:E; [|done]. by apply Hs in E as [-> _].
  - intros i s Hi. by apply Hs in Hi as [-> _].
Qed.

(** ** The history of identifiers *)

Inductive table_step : Table * list Pid -> Table * list Pid -> Prop :=
  | step_allocate t h process t' pid :
      allocate process t = (t', Ok pid) -> table_step (t, h) (t', pid :: h)
  | step_free t h pid t' :
      free pid t = (t', Ok tt) -> table_step (t, h) (t', h)
  | step_update t h pid f t' :
      (forall p, process_pid (f p) = process_pid p) -> update pid f t = (t', Ok tt) -> table_step (t, h) (t', h).

(** Identifiers of a slot handed out so far have an epoch below this bound. *)
Definition epoch_bound (s : Slot) : Z :=
  match slot_pid s with Id epoch _ => if is_used s then epoch + 1 else epoch | Current => 0 end.

Record history_ok (t : Table) (h : list Pid) : Prop := {
  ho_wf : table_wf t;
  ho_nodup : NoDup h;
  ho_bound : forall pid, pid ∈ h -> exists epoch slot s, pid = Id epoch slot /\ 0 <= slot /\
    slots t !! Z.to_nat slot = Some s /\ epoch < epoch_bound s;
}.

Lemma history_slot t h t' i s s' :
  history_ok t h -> table_wf t' -> slots t' = <[Z.to_nat i := s']> (slots t) -> 0 <= i ->
  slots t !! Z.to_nat i = Some s -> epoch_bound s <= epoch_bound s' -> history_ok t' h.
Proof.
  intros [Hwf Hnd Hb] Hwf' Hs' Hi Hs Hle. split; [done|done|]. intros pid Hpid.
  destruct (Hb pid Hpid) as (epoch & slot & sl & -> & H0 & Hsl & Hlt). rewrite Hs'.
  destruct (decide (slot = i)) as [->|Hne].
  - rewrite Hs in Hsl. injection Hsl as ->. apply lookup_lt_Some in Hs.
    exists epoch, i, s'. split; [done|]. split; [done|]. split; [by rewrite list_lookup_insert_eq|lia].
  - exists epoch, slot, sl. split; [done|]. split; [done|]. split; [|done].
    by rewrite list_lookup_insert_ne by lia.
Qed.

Lemma history_allocate t h process t' pid :
  history_ok t h -> allocate process t = (t', Ok pid) -> (pid ∉ h) /\ history_ok t' (pid :: h).
Proof.
  intros Hh Ha. pose proof (ho_wf _ _ Hh) as Hwf. destruct (slot_allocate_cases t Hwf process) as
    [(_ & _ & E)|(epoch & i & next & p & t'' & E & Hi & Hs & _ & Hp & Hs' & _ & Hwf')]; rewrite E in Ha; [done|].
  injection Ha as -> <-.
  assert (Id epoch i ∉ h) as Hni.
  { intros Hin. destruct (ho_bound _ _ Hh _ Hin) as (e & sl & s & [= <- <-] & _ & Hsl & Hlt).
    rewrite Hs in Hsl. injection Hsl as <-. cbn in Hlt. lia. }
  split; [done|]. destruct (history_slot t h t' i _ (UsedSlot p) Hh Hwf' Hs' ltac:(lia) Hs) as [_ Hnd Hb].
  { unfold epoch_bound. cbn. rewrite Hp. lia. }
  split; [done|by apply list.NoDup_cons|]. intros pid [->|Hpid]%elem_of_cons; [|by apply Hb].
  exists epoch, i, (UsedSlot p). split; [done|]. split; [lia|]. rewrite Hs', list_lookup_insert_eq by lia.
  split; [done|]. unfold epoch_bound. cbn. rewrite Hp. lia.
Qed.

Lemma live_allocate t t' epoch i next p :
  table_wf t -> slots t !! Z.to_nat i = Some (FreeSlot (Id epoch i) next) -> 0 <= i ->
  process_pid p = Id epoch i -> slots t' = <[Z.to_nat i := UsedSlot p]> (slots t) ->
  live t (Id epoch i) = None /\ forall q, live t' q = if decide (q = Id epoch i) then Some p else live t q.
Proof.
  intros Hwf Hs Hi Hp Hs'. pose proof (lookup_lt_Some _ _ _ Hs) as Hlt.
  assert (forall e, live t (Id e i) = None) as Hnone.
  { intros e. cbn. by rewrite (proj2 (Z.leb_le 0 i)), Hs. }
  split; [done|]. intros q.
  transitivity (live (mkTable (free_head t) (process_count t) (slots t')) q); [by destruct q|].
  rewrite Hs', live_insert by lia. destruct q as [|e s]; [done|].
  destruct (decide (s = i)) as [->|Hne]; [|by rewrite decide_False by congruence].
  rewrite Hp, Hnone. destruct (decide (Id epoch i = Id e i)) as [<-|]; [by rewrite decide_True|].
  by rewrite decide_False by congruence.
Qed.

Lemma live_free t t' epoch i head process :
  table_wf t -> slots t !! Z.to_nat i = Some (UsedSlot process) -> 0 <= i -> process_pid process = Id epoch i ->
  slots t' = <[Z.to_nat i := FreeSlot (Id (epoch + 1) i) head]> (slots t) ->
  forall q, live t' q = if decide (q = Id epoch i) then None else live t q.
Proof.
  intros Hwf Hs Hi Hp Hs' q. pose proof (lookup_lt_Some _ _ _ Hs) as Hlt.
  transitivity (live (mkTable (free_head t) (process_count t) (slots t')) q); [by destruct q|].
  rewrite Hs', live_insert by lia. destruct q as [|e s]; [done|].
  destruct (decide (s = i)) as [->|Hne]; [|by rewrite decide_False by congruence].
  destruct (decide (Id e i = Id epoch i)) as [_|Hne]; [done|]. cbn.
  by rewrite (proj2 (Z.leb_le 0 i)), Hs, Hp, decide_False by congruence.
Qed.

Lemma find_inv t pid process :
  table_wf t -> find t pid = Ok process ->
  live t pid = Some process /\ exists epoch slot, pid = Id epoch slot /\ pid_wf pid.
Proof.
  intros Hwf Hf. destruct pid as [|epoch slot]; [done|].
  assert (pid_wf (Id epoch slot)) as Hp.
  { unfold find in Hf. cbn [pid_slot] in Hf.
    destruct (Z.leb_spec (Z.of_nat (length (slots t))) slot); [done|].
    destruct (index (slots t) slot) as [s| |] eqn:Ei; [|done..]. apply index_ok in Ei as [H0 Ei].
    destruct s as [|p]; [done|]. destruct (tw_pids _ Hwf _ _ Ei) as (e & He & Her). cbn in He.
    unfold Process.pid in Hf. rewrite He in Hf.
    destruct (decide (Id e (Z.of_nat (Z.to_nat slot)) = Current)); [done|]. cbn in Hf.
    destruct (decide (Id e (Z.of_nat (Z.to_nat slot)) = Id epoch slot)) as [Heq|]; [|done]. injection Heq as -> _.
    pose proof (tw_length _ Hwf). split; lia. }
  rewrite find_live in Hf by done. destruct (live t (Id epoch slot)) eqn:E; [|done]. injection Hf as ->. eauto.
Qed.

Lemma history_step s s' :
  table_step s s' -> history_ok s.1 s.2 ->
  history_ok s'.1 s'.2 /\ (s.2 ⊆ s'.2) /\ forall pid, pid ∈ s.2 -> live s.1 pid = None -> live s'.1 pid = None.
Proof.
  intros Hstep Hh. destruct Hstep as [t h process t' pid Ha|t h pid t' Hf|t h pid f t' Hpid Hu]; cbn in *;
    pose proof (ho_wf _ _ Hh) as Hwf.
  - destruct (history_allocate t h process t' pid Hh Ha) as [Hni Hh']. split; [done|]. split; [set_solver|].
    intros q Hq Hl. destruct (slot_allocate_cases t Hwf process) as
      [(_ & _ & E)|(epoch & i & next & p & t'' & E & Hi & Hs & _ & Hp & Hs' & _)]; rewrite E in Ha; [done|].
    injection Ha as -> <-. destruct (live_allocate t t' epoch i next p) as [_ ->]; [done|done|lia|done..|].
    rewrite decide_False; [done|]. by intros ->.
  - assert (exists epoch slot process, pid = Id epoch slot /\ live t pid = Some process /\ pid_wf pid) as
      (epoch & slot & process & -> & El & Hpw).
    { unfold free in Hf. destruct (find t pid) as [process| |] eqn:E; [|done..].
      destruct (find_inv t pid process Hwf E) as (El & epoch & slot & -> & Hpw). eauto 10. }
    pose proof (free_cases t Hwf epoch slot Hpw) as Hc. rewrite El in Hc.
    destruct (live_used t Hwf _ _ El) as (e & s & [= <- <-] & H0 & Hsl & Hpp & _).
    destruct (epoch + 1 =? U32_MODULUS); [rewrite Hc in Hf; done|].
    destruct Hc as (t'' & E & Hwf' & Hs' & Hs & _). rewrite E in Hf. injection Hf as ->. split; [|split; [done|]].
    + apply (history_slot t h t' slot _ _ Hh Hwf' Hs' H0 Hs). unfold epoch_bound. cbn. rewrite Hpp. lia.
    + intros q _ Hq. rewrite (live_free t t' epoch slot _ process Hwf Hs H0 Hpp Hs'). by destruct (decide _).
  - unfold update in Hu. destruct (find t pid) as [process| |] eqn:E; [|done..].
    destruct (find_inv t pid process Hwf E) as (El & epoch & slot & -> & Hpw).
    destruct (live_used t Hwf _ _ El) as (e & s & [= <- <-] & H0 & Hs & Hpp & _). cbn [pid_slot] in Hu. injection Hu as <-.
    destruct (update_cases t Hwf (Id epoch slot) process f El) as (t'' & Eu & Hwf' & _ & Hl & _); [by rewrite Hpid|].
    unfold update in Eu. rewrite E in Eu. cbn [pid_slot] in Eu. injection Eu as <-. split; [|split; [done|]].
    + apply (history_slot t h _ slot _ (UsedSlot (f process)) Hh Hwf' eq_refl H0 Hs). unfold epoch_bound. cbn.
      by rewrite Hpid.
    + intros q _ Hq. rewrite Hl. destruct (decide _) as [->|]; [congruence|done].
Qed.

(** ** Theorems *)

(** C12.  Process identifiers are never reused.  Starting from a new table, after any
    sequence of allocations, releases and changes of processes, all identifiers
    handed out are distinct, and an identifier that does not name a process any
    more (its process was released) never names one again: a stale identifier
    cannot reach the next process in the same slot. *)
Theorem pid_never_reused len t0 t h t' h' :
  0 <= len <= U16_MODULUS -> table_new len = Ok t0 ->
  rtc table_step (t0, []) (t, h) -> rtc table_step (t, h) (t', h') ->
  NoDup h' /\ forall pid, pid ∈ h -> live t pid = None -> live t' pid = None.
Proof.
  intros Hlen Hnew H1 H2.
  assert (history_ok t h) as Hh.
  { destruct (table_new_spec len Hlen) as (t1 & E & Hwf & _). rewrite E in Hnew. injection Hnew as ->.
    change (history_ok (t, h).1 (t, h).2). assert (history_ok (t0, @nil Pid).1 (t0, []).2) as H0.
    { split; [done|constructor|]. by intros pid Hp%not_elem_of_nil. }
    revert H0. clear H2. induction H1 as [|x y z Hs _ IH]; [done|]. intros H0. apply IH.
    by destruct (history_step _ _ Hs H0). }
  enough (history_ok t' h' /\ forall pid, pid ∈ h -> live t pid = None -> live t' pid = None) as [Hh' Hl].
  { split; [apply (ho_nodup _ _ Hh')|done]. }
  clear H1 Hnew. remember (t, h) as s eqn:Es. remember (t', h') as s' eqn:Es'. revert t h Es Hh.
  induction H2 as [|x y z Hs _ IH]; intros t h -> Hh.
  - injection Es' as <- <-. done.
  - destruct y as [t1 h1]. destruct (history_step _ _ Hs Hh) as (Hh1 & Hsub & Hl1). cbn in *.
    destruct (IH Es' t1 h1 eq_refl Hh1) as [Hh' Hl']. split; [done|]. intros pid Hp Hd. apply Hl'; [set_solver|].
    by apply Hl1.
Qed.

(** C13.  The process table implements a finite map from identifiers to processes.
    Looking up an identifier returns its process or [NoProcess].  Allocation fails
    with [NoProcessSlot] only when every slot is used, and otherwise adds one entry
    under an identifier that named nothing.  Releasing removes exactly the named
    entry, or answers [NoProcess] and changes nothing; it panics when the 32-bit
    epoch of the slot is exhausted.  Every operation keeps the table well formed. *)
Theorem table_refines_map t :
  table_wf t ->
  (forall pid, pid <> Current -> pid_wf pid -> get pid t = (t, ok_or (live t pid) NoProcess)) /\
  (forall process,
     (process_count t = Z.of_nat (length (slots t)) /\ allocate process t = (t, Err NoProcessSlot)) \/
     exists pid p t', allocate process t = (t', Ok pid) /\ table_wf t' /\ pid_wf pid /\
       live t pid = None /\ set_pid process pid = Ok p /\
       (forall q, live t' q = if decide (q = pid) then Some p else live t q) /\
       process_count t' = process_count t + 1) /\
  (forall epoch slot, pid_wf (Id epoch slot) ->
     let pid := Id epoch slot in
     (live t pid = None /\ free pid t = (t, Err NoProcess)) \/
     (is_Some (live t pid) /\ epoch + 1 = U32_MODULUS /\ free pid t = (t, Panic)) \/
     (is_Some (live t pid) /\ exists t', free pid t = (t', Ok tt) /\ table_wf t' /\
        (forall q, live t' q = if decide (q = pid) then None else live t q) /\
        process_count t' = process_count t - 1)).
Proof.
  intros Hwf. split; [|split].
  - intros pid Hc Hp. unfold get. by rewrite find_live.
  - intros process. destruct (slot_allocate_cases t Hwf process) as
      [(_ & Hall & E)|(epoch & i & next & p & t' & E & Hi & Hs & Hset & Hp & Hs' & Hcnt & Hwf')]; [left|right].
    + split; [|done]. rewrite (tw_count _ Hwf). f_equal. f_equal. apply filter_all_elem.
      intros s [i Hi]%list_elem_of_lookup. by eapply Hall.
    + destruct (live_allocate t t' epoch i next p) as [Hl Hl']; [done|done|lia|done..|].
      exists (Id epoch i), p, t'. split; [done|]. split; [done|]. split; [|done].
      destruct (tw_pids _ Hwf _ _ Hs) as (e & [= <- _] & He). pose proof (tw_length _ Hwf). split; lia.
  - intros epoch slot Hp pid. pose proof (free_cases t Hwf epoch slot Hp) as Hc. subst pid.
    destruct (live t (Id epoch slot)) as [process|] eqn:El; [right|by left].
    destruct (Z.eqb_spec (epoch + 1) U32_MODULUS); [left; by eauto|right]. split; [by eauto|].
    destruct Hc as (t' & E & Hwf' & Hs' & Hs & Hcnt). exists t'. split; [done|]. split; [done|]. split; [|done].
    destruct (live_used t Hwf _ _ El) as (e & s & [= <- <-] & H0 & _ & Hpp & _).
    by apply (live_free t t' epoch slot (free_head t) process).
Qed.

(** ** Witnesses *)

Definition sample_process : Process :=
  mkProcess AddressSpace.space_zero Block.block_zero None Current
    (registers_new 35 27 (mkMiniContext 4096 8192) 12288) Runnable
    (mkTrapContext (mkMiniContext 0 0) Block.block_zero).

Definition sample_table : Table :=
  mkTable (Some (Id 0 0)) 0 [FreeSlot (Id 0 0) (Some (Id 0 1)); FreeSlot (Id 0 1) None].

Lemma sample_table_wf : table_wf sample_table.
Proof.
  destruct (table_new_spec 2 ltac:(lia)) as (t & E & Hwf & _). vm_compute in E. by injection E as <-.
Qed.

(** The first process is released, its slot is taken by another one, and the old
    identifier stays dead. *)
Lemma pid_never_reused_witness :
  exists t t', rtc table_step (sample_table, []) (t, [Id 0 0]) /\ rtc table_step (t, [Id 0 0]) (t', [Id 1 0; Id 0 0]) /\
    is_Some (live t' (Id 1 0)) /\ live t' (Id 0 0) = None.
Proof.
  set (t1 := (allocate sample_process sample_table).1). set (t2 := (free (Id 0 0) t1).1).
  set (t3 := (allocate sample_process t2).1).
  assert (rtc table_step (sample_table, []) (t2, [Id 0 0])) as H1.
  { eapply rtc_l; [apply (step_allocate _ _ sample_process t1 (Id 0 0)); reflexivity|].
    eapply rtc_l; [apply (step_free t1 _ (Id 0 0) t2); reflexivity|]. apply rtc_refl. }
  assert (rtc table_step (t2, [Id 0 0]) (t3, [Id 1 0; Id 0 0])) as H2.
  { eapply rtc_l; [apply (step_allocate t2 _ sample_process t3 (Id 1 0)); reflexivity|]. apply rtc_refl. }
  exists t2, t3. split; [exact H1|]. split; [exact H2|]. split; [vm_compute; eauto|].
  destruct (pid_never_reused 2 sample_table t2 [Id 0 0] t3 [Id 1 0; Id 0 0]) as [_ Hdead]; [lia|reflexivity|exact H1|exact H2|].
  apply Hdead; [set_solver|reflexivity].
Defined.

Lemma table_refines_map_witness :
  exists pid t, allocate sample_process sample_table = (t, Ok pid) /\ live sample_table pid = None /\
    is_Some (live t pid).
Proof.
  destruct (table_refines_map sample_table sample_table_wf) as (_ & Ha & _).
  destruct (Ha sample_process) as [[H _]|(pid & p & t & H & _ & _ & Hn & _ & Hl & _)]; [discriminate H|].
  exists pid, t. split; [exact H|]. split; [exact Hn|]. rewrite Hl. rewrite decide_True by reflexivity. eauto.
Defined.
