(* ===== verification/Scheduler.v ===== *)
(** * Scheduler: running processes

    Models [kernel/src/process/scheduler.rs], the entry into user mode of
    [kernel/src/process/process.rs], the system calls [exit] and [sched_yield] of
    [kernel/src/process/syscall.rs] and the user-mode branch of [generic_trap] in
    [kernel/src/trap/mod.rs], on one processor.  What user code does until it
    leaves the processor is an argument of the operations: it is the environment
    of the kernel, not a part of it. *)

From Stdlib Require Import ZArith Lia.
From stdpp Require Import base list numbers tactics relations.
From S2P Require Import Prelude Pid AddressSpace Process ProcessTable.

Open Scope Z_scope.
Open Scope outcome_scope.

(** [TABLE], [SCHEDULER], [BASE_ADDRESS_SPACE] and the fields of [Cpu] in use, with
    the page table root register. *)
Record World := mkWorld {
  table : Table;
  queue : list Pid;
  current_process : option Pid;
  cpu_user_context : option ModeContext;
  page_table_register : Z;
  base_address_space : AddressSpace;
}.

Definition with_table {A} (c : M Table A) : M World A := fun w =>
  let '(t, r) := c (table w) in
  (mkWorld t (queue w) (current_process w) (cpu_user_context w) (page_table_register w) (base_address_space w), r).

Definition enqueue (pid : Pid) : M World unit := fun w =>
  (mkWorld (table w) (queue w ++ [pid]) (current_process w) (cpu_user_context w) (page_table_register w)
     (base_address_space w), Ok tt).

Definition dequeue : M World (option Pid) := fun w =>
  match queue w with
  | [] => (w, Ok None)
  | pid :: queue =>
      (mkWorld (table w) queue (current_process w) (cpu_user_context w) (page_table_register w)
         (base_address_space w), Ok (Some pid))
  end.

Definition set_current_process (process : option Pid) : M World unit := fun w =>
  (mkWorld (table w) (queue w) process (cpu_user_context w) (page_table_register w) (base_address_space w), Ok tt).

Definition set_user_context (context : ModeContext) : M World unit := fun w =>
  (mkWorld (table w) (queue w) (current_process w) (Some context) (page_table_register w)
     (base_address_space w), Ok tt).

Definition take_user_context : M World (option ModeContext) := fun w =>
  (mkWorld (table w) (queue w) (current_process w) None (page_table_register w) (base_address_space w),
   Ok (cpu_user_context w)).

Definition switch_address_space (space : AddressSpace) : M World unit := fun w =>
  match switch_to space with
  | Ok root =>
      (mkWorld (table w) (queue w) (current_process w) (cpu_user_context w) root (base_address_space w), Ok tt)
  | Err e => (w, Err e)
  | Panic => (w, Panic)
  end.

Definition base_switch_to : M World unit := fun w => switch_address_space (base_address_space w) w.

(** [Drop for AddressSpace]: leaving an address space that is about to disappear. *)
Definition drop_address_space (space : AddressSpace) : M World unit := fun w =>
  match mapping_root space with
  | Some root =>
      if page_table_register w =? root then
        match page_table_root (base_address_space w) with
        | Ok base_root => if root =? base_root then (w, Panic) else base_switch_to w
        | _ => (w, Panic)
        end
      else (w, Ok tt)
  | None => (w, Ok tt)
  end.

(** [Table::free], after which the process that was in the slot is dropped. *)
Definition free_process (pid : Pid) : M World unit := fun w =>
  match find (table w) pid with
  | Ok process =>
      (let! _ := with_table (ProcessTable.free pid) in drop_address_space (address_space process)) w
  | _ => with_table (ProcessTable.free pid) w
  end.

(** ** The ways user code leaves the processor *)

Inductive Leave :=
  | LeaveExit
  | LeaveYield (context : MiniContext)
  | LeavePreempt (saved : Registers) (context : ModeContext)
  | LeaveFatalTrap.

(** The process the processor is running, as the system calls and traps find it.
    [enter_user_mode] records it before user code runs, so the answer of the system
    call dispatcher for a processor without a process is not reached. *)
Definition running : M World Process :=
  let! w := getM in
  let! pid := liftM (unwrap_some (current_process w)) in
  fun w => (w, unwrap (find (table w) pid)).

(** The system call [exit]; its code only goes to the log. *)
Definition exit : M World unit :=
  let! process := running in
  let! pid := liftM (Process.pid process) in
  let! _ := base_switch_to in
  let! _ := (fun w => let '(w, r) := free_process pid w in (w, unwrap r)) in
  set_current_process None.

(** The system call [sched_yield]. *)
Definition sched_yield (context : MiniContext) : M World unit :=
  let! process := running in
  let! pid := liftM (Process.pid process) in
  let! _ := with_table (update pid (fun p => set_context p context)) in
  let! _ := enqueue pid in
  let! _ := base_switch_to in
  set_current_process None.

(** A fatal trap in user mode without a handler: [Process::trap] answers [false], the
    process is released and an error of [Table::free] is only logged. *)
Definition fatal_trap : M World unit :=
  let! process := running in
  let! pid := liftM (Process.pid process) in
  (fun w =>
     match free_process pid w with
     | (w, Panic) => (w, Panic)
     | (w, _) => (w, match current_process w with Some _ => Ok tt | None => Panic end)
     end).

(** A timer interrupt in user mode: [Process::preempt] stores the context, and leaving
    user mode stores the general purpose registers into the structure of the process.
    An interrupt of the kernel does not take a process off the processor, so a
    context without user privileges is not a behaviour of user code. *)
Definition preempt (saved : Registers) (context : ModeContext) : M World unit :=
  let! w := getM in
  let! pid := liftM (unwrap_some (current_process w)) in
  let! user := liftM (is_user_mode context) in
  if user : bool then
    let! _ := set_user_context context in
    with_table (update pid (fun p => set_registers p (set_mode_context saved (user_context (registers p)))))
  else liftM Panic.

Definition leave (l : Leave) : M World unit :=
  match l with
  | LeaveExit => exit
  | LeaveYield context => sched_yield context
  | LeavePreempt saved context => preempt saved context
  | LeaveFatalTrap => fatal_trap
  end.

(** [Process::enter_user_mode]; writing the identifier into the information page of
    the process is left out. *)
Definition enter_user_mode (process : Process) (l : Leave) : M World bool :=
  let pid := process_pid process in
  let! _ := switch_address_space (address_space process) in
  let! _ := set_current_process (Some pid) in
  let! _ := with_table (update pid (fun p => set_state p Running)) in
  let! _ := leave l in
  let! _ := set_current_process None in
  let! user_context := take_user_context in
  match user_context with
  | Some user_context =>
      let! _ := (fun w =>
        let '(w, r) := with_table (update pid (fun p =>
          set_state (set_registers p (set_mode_context (registers p) user_context)) Runnable)) w in
        (w, unwrap r)) in
      retM true
  | None => retM false
  end.

Definition run_one (l : Leave) : M World bool :=
  let! pid := dequeue in
  match pid with
  | None => retM false
  | Some pid =>
      fun w =>
        match find (table w) pid with
        | Ok process =>
            (let! preempted := enter_user_mode process l in
             let! _ := (if preempted : bool then enqueue pid else retM tt) in
             retM true) w
        | Err _ => (w, Ok true)
        | Panic => (w, Panic)
        end
  end.

(** Several rounds of the loop of [Scheduler::run], one behaviour for each. *)
Fixpoint run (l : list Leave) : M World unit :=
  match l with
  | [] => retM tt
  | leave :: l => let! _ := run_one leave in run l
  end.

(** ** The invariant between two rounds *)

Record sched_ok (w : World) : Prop := {
  so_table : table_wf (table w);
  so_idle : current_process w = None /\ cpu_user_context w = None;
  so_queue : forall pid, pid ∈ queue w -> pid <> Current /\ pid_wf pid;
  so_spaces : exists b, mapping_root (base_address_space w) = Some b /\ b <> 0 /\
    forall pid p, live (table w) pid = Some p ->
      exists r, mapping_root (address_space p) = Some r /\ r <> 0 /\ r <> b;
}.

(** A behaviour of user code: preemption happens in user mode, and the epoch of the
    slot of a process that disappears is not the last one. *)
Definition leave_ok (pid : Pid) (l : Leave) : Prop :=
  match l with
  | LeavePreempt _ context => is_user_mode context = Ok true
  | LeaveYield _ => True
  | LeaveExit | LeaveFatalTrap => exists t, next_epoch pid = Ok t
  end.

(** What is left of a process after its round. *)
Definition after (l : Leave) (p : Process) : option Process :=
  match l with
  | LeaveExit | LeaveFatalTrap => None
  | LeaveYield context => Some (set_context (set_state p Running) context)
  | LeavePreempt saved context => Some (set_state (set_registers p (set_mode_context saved context)) Runnable)
  end.

Lemma update_live w pid p f :
  table_wf (table w) -> live (table w) pid = Some p -> process_pid (f p) = process_pid p ->
  exists t', with_table (update pid f) w =
      (mkWorld t' (queue w) (current_process w) (cpu_user_context w) (page_table_register w) (base_address_space w), Ok tt) /\
    table_wf t' /\ forall q, live t' q = if decide (q = pid) then Some (f p) else live (table w) q.
Proof.
  intros Hwf Hl Hf. destruct (live_used _ Hwf _ _ Hl) as (e & s & -> & _ & _ & Hp & _).
  destruct (update_cases (table w) Hwf _ p f Hl) as (t' & E & Hwf' & _ & Hl' & _); [by rewrite Hf|].
  exists t'. unfold with_table. rewrite E. done.
Qed.

Lemma find_of_live t pid p : table_wf t -> live t pid = Some p -> find t pid = Ok p /\ Process.pid p = Ok pid.
Proof.
  intros Hwf Hl. destruct (live_used _ Hwf _ _ Hl) as (e & s & -> & _ & _ & Hp & Hpw).
  split; [by rewrite find_live, Hl|]. unfold Process.pid. rewrite Hp. by rewrite decide_False.
Qed.

Lemma running_ok w pid p :
  table_wf (table w) -> current_process w = Some pid -> live (table w) pid = Some p -> running w = (w, Ok p).
Proof.
  intros Hwf Hc Hl. unfold running, getM, bindM. rewrite Hc. cbn. by destruct (find_of_live _ _ _ Hwf Hl) as [-> _].
Qed.

(** Releasing a process that exists, whose address space is not the base one. *)
Lemma free_process_ok w pid p t r b :
  table_wf (table w) -> live (table w) pid = Some p -> next_epoch pid = Ok t ->
  mapping_root (address_space p) = Some r -> mapping_root (base_address_space w) = Some b -> b <> 0 -> r <> b ->
  exists t' root, free_process pid w =
      (mkWorld t' (queue w) (current_process w) (cpu_user_context w) root (base_address_space w), Ok tt) /\
    table_wf t' /\ forall q, live t' q = if decide (q = pid) then None else live (table w) q.
Proof.
  intros Hwf Hl Hn Hr Hb Hb0 Hrb. unfold free_process. destruct (find_of_live _ _ _ Hwf Hl) as [-> _].
  destruct (live_used _ Hwf _ _ Hl) as (epoch & slot & -> & H0 & Hs & Hp & Hpw).
  pose proof (free_cases (table w) Hwf epoch slot Hpw) as Hc. rewrite Hl in Hc.
  destruct (Z.eqb_spec (epoch + 1) U32_MODULUS) as [He|He].
  { cbn in Hn. rewrite (proj2 (Z.ltb_ge _ _)) in Hn by lia. done. }
  destruct Hc as (t' & E & Hwf' & Hs' & _ & _). exists t'. unfold bindM, with_table. rewrite E.
  pose proof (live_free (table w) t' epoch slot _ p Hwf Hs H0 Hp Hs') as Hlive.
  unfold drop_address_space, base_switch_to, switch_address_space, switch_to, page_table_root. cbn.
  rewrite Hr, Hb. cbn. rewrite (proj2 (Z.eqb_neq r b)) by done.
  rewrite (proj2 (Z.eqb_neq b 0)) by done. cbn.
  destruct (page_table_register w =? r); eexists; split; done.
Qed.

Lemma base_switch_ok w b :
  mapping_root (base_address_space w) = Some b -> b <> 0 ->
  base_switch_to w =
    (mkWorld (table w) (queue w) (current_process w) (cpu_user_context w) b (base_address_space w), Ok tt).
Proof.
  intros Hb H0. unfold base_switch_to, switch_address_space, switch_to, page_table_root. rewrite Hb. cbn.
  by rewrite (proj2 (Z.eqb_neq b 0)).
Qed.

Section LeaveSpec.
  Context (w : World) (pid : Pid) (p : Process) (b r : Z).
  Context (Hwf : table_wf (table w)) (Hcur : current_process w = Some pid) (Hl : live (table w) pid = Some p).
  Context (Hb : mapping_root (base_address_space w) = Some b) (Hb0 : b <> 0).
  Context (Hr : mapping_root (address_space p) = Some r) (Hrb : r <> b).

Definition left (w' : World) (q : list Pid) (context : option ModeContext) (p' : option Process) : Prop :=
  table_wf (table w') /\ queue w' = q /\ cpu_user_context w' = context /\
  base_address_space w' = base_address_space w /\
  forall x, live (table w') x = if decide (x = pid) then p' else live (table w) x.

Lemma exit_spec : leave_ok pid LeaveExit ->
  exists w', exit w = (w', Ok tt) /\ left w' (queue w) (cpu_user_context w) None.
Proof using Hwf Hcur Hl Hb Hb0 Hr Hrb.
  intros (t & Hn). unfold exit. rewrite (bindM_ok _ _ _ _ _ (running_ok w pid p Hwf Hcur Hl)).
  destruct (find_of_live _ _ _ Hwf Hl) as [_ ->]. rewrite bindM_lift.
  rewrite (bindM_ok _ _ _ _ _ (base_switch_ok w b Hb Hb0)).
  destruct (free_process_ok (mkWorld (table w) (queue w) (current_process w) (cpu_user_context w) b (base_address_space w))
              pid p t r b Hwf Hl Hn Hr Hb Hb0 Hrb) as (t' & root & E & Hwf' & Hl').
  unfold bindM at 1. rewrite E. cbn [unwrap]. eexists. split; [done|]. by do 4 (split; [done|]).
Qed.

Lemma fatal_trap_spec : leave_ok pid LeaveFatalTrap ->
  exists w', fatal_trap w = (w', Ok tt) /\ left w' (queue w) (cpu_user_context w) None.
Proof using Hwf Hcur Hl Hb Hb0 Hr Hrb.
  intros (t & Hn). unfold fatal_trap. rewrite (bindM_ok _ _ _ _ _ (running_ok w pid p Hwf Hcur Hl)).
  destruct (find_of_live _ _ _ Hwf Hl) as [_ ->]. rewrite bindM_lift.
  destruct (free_process_ok w pid p t r b Hwf Hl Hn Hr Hb Hb0 Hrb) as (t' & root & E & Hwf' & Hl').
  rewrite E. cbn [current_process]. rewrite Hcur. eexists. split; [done|]. by do 4 (split; [done|]).
Qed.

Lemma sched_yield_spec context :
  exists w', sched_yield context w = (w', Ok tt) /\
    left w' (queue w ++ [pid]) (cpu_user_context w) (Some (set_context p context)).
Proof using Hwf Hcur Hl Hb Hb0.
  unfold sched_yield. rewrite (bindM_ok _ _ _ _ _ (running_ok w pid p Hwf Hcur Hl)).
  destruct (find_of_live _ _ _ Hwf Hl) as [_ ->]. rewrite bindM_lift.
  destruct (update_live w pid p (fun p => set_context p context) Hwf Hl eq_refl) as (t' & E & Hwf' & Hl').
  rewrite (bindM_ok _ _ _ _ _ E). unfold bindM at 1. cbn [enqueue].
  rewrite (bindM_ok _ _ _ _ _ (base_switch_ok (mkWorld t' (queue w ++ [pid]) (current_process w) (cpu_user_context w)
    (page_table_register w) (base_address_space w)) b Hb Hb0)). eexists. split; [done|]. by do 4 (split; [done|]).
Qed.

Lemma preempt_spec saved context :
  is_user_mode context = Ok true ->
  exists w', preempt saved context w = (w', Ok tt) /\
    left w' (queue w) (Some context)
      (Some (set_registers p (set_mode_context saved (user_context (registers p))))).
Proof using Hwf Hcur Hl.
  intros Hu. unfold preempt, getM. unfold bindM at 1. rewrite Hcur. cbn [unwrap_some]. rewrite bindM_lift, Hu, bindM_lift.
  unfold bindM at 1. cbn [set_user_context].
  destruct (update_live (mkWorld (table w) (queue w) (current_process w) (Some context) (page_table_register w)
                           (base_address_space w)) pid p
              (fun p => set_registers p (set_mode_context saved (user_context (registers p)))) Hwf Hl eq_refl)
    as (t' & E & Hwf' & Hl').
  rewrite E. eexists. split; [done|]. by do 4 (split; [done|]).
Qed.

(** What each behaviour leaves in the processor, the queue and the table. *)
Lemma leave_spec l : leave_ok pid l ->
  exists w', leave l w = (w', Ok tt) /\
    match l with
    | LeaveExit | LeaveFatalTrap => left w' (queue w) (cpu_user_context w) None
    | LeaveYield context => left w' (queue w ++ [pid]) (cpu_user_context w) (Some (set_context p context))
    | LeavePreempt saved context => left w' (queue w) (Some context)
        (Some (set_registers p (set_mode_context saved (user_context (registers p)))))
    end.
Proof using Hwf Hcur Hl Hb Hb0 Hr Hrb.
  destruct l; intros Hok; [by apply exit_spec|by apply sched_yield_spec|by apply preempt_spec|by apply fatal_trap_spec].
Qed.

End LeaveSpec.

Lemma dequeue_cons w pid q :
  queue w = pid :: q ->
  dequeue w = (mkWorld (table w) q (current_process w) (cpu_user_context w) (page_table_register w)
                 (base_address_space w), Ok (Some pid)).
Proof. intros Hq. unfold dequeue. by rewrite Hq. Qed.

(** The invariant after a change of at most one process. *)
Lemma sched_ok_next w w' pid p p' :
  sched_ok w -> live (table w) pid = Some p -> pid <> Current /\ pid_wf pid ->
  table_wf (table w') -> current_process w' = None -> cpu_user_context w' = None ->
  (forall x, x ∈ queue w' -> x ∈ queue w \/ x = pid) ->
  base_address_space w' = base_address_space w ->
  (forall x, live (table w') x = if decide (x = pid) then p' else live (table w) x) ->
  (forall q, p' = Some q -> address_space q = address_space p) -> sched_ok w'.
Proof.
  intros Hs Hl Hpid Hwf Hc Hu Hq Hbase Hlive Hp'. destruct (so_spaces _ Hs) as (b & Hb & Hb0 & Hsp).
  split; [done|done| |].
  - intros x Hx. apply Hq in Hx as [Hx| ->]; [by apply (so_queue _ Hs)|done].
  - exists b. rewrite Hbase. split; [done|]. split; [done|]. intros x q Hx. rewrite Hlive in Hx.
    destruct (decide (x = pid)) as [->|]; [|by apply (Hsp x)]. rewrite (Hp' q Hx). by apply (Hsp pid).
Qed.

Lemma enter_user_mode_spec w pid p l :
  sched_ok w -> live (table w) pid = Some p -> leave_ok pid l ->
  exists w' preempted, enter_user_mode p l w = (w', Ok preempted) /\
    table_wf (table w') /\ current_process w' = None /\ cpu_user_context w' = None /\
    base_address_space w' = base_address_space w /\
    (queue w' ++ if preempted : bool then [pid] else []) =
      queue w ++ match after l p with Some _ => [pid] | None => [] end /\
    forall x, live (table w') x = if decide (x = pid) then after l p else live (table w) x.
Proof.
  intros Hs Hl Hok. pose proof (so_table _ Hs) as Hwf. destruct (so_idle _ Hs) as [_ Hctx].
  destruct (so_spaces _ Hs) as (b & Hb & Hb0 & Hsp). destruct (Hsp pid p Hl) as (r & Hr & Hr0 & Hrb).
  destruct (live_used _ Hwf _ _ Hl) as (e & s & Hpid & _ & _ & Hpp & _). unfold enter_user_mode. rewrite Hpp.
  unfold bindM at 1. unfold switch_address_space, switch_to, page_table_root. rewrite Hr. cbn [unwrap_some].
  rewrite (proj2 (Z.eqb_neq r 0)) by done. cbn [negb]. unfold bindM at 1. cbn [set_current_process].
  set (w1 := mkWorld (table w) (queue w) (Some pid) (cpu_user_context w) r (base_address_space w)).
  destruct (update_live w1 pid p (fun p => set_state p Running) Hwf Hl eq_refl) as (t2 & E2 & Hwf2 & Hl2).
  cbn [queue current_process cpu_user_context page_table_register base_address_space table] in E2.
  rewrite (bindM_ok _ _ _ _ _ E2).
  set (w2 := mkWorld t2 (queue w) (Some pid) (cpu_user_context w) r (base_address_space w)).
  assert (live (table w2) pid = Some (set_state p Running)) as Hl2' by (cbn; rewrite Hl2; by rewrite decide_True).
  destruct (leave_spec w2 pid (set_state p Running) b r Hwf2 eq_refl Hl2' Hb Hb0 Hr Hrb l Hok) as (w3 & E3 & Hleft).
  rewrite (bindM_ok _ _ _ _ _ E3). unfold bindM at 1. cbn [set_current_process]. unfold bindM at 1. cbn [take_user_context].
  assert (forall p' x, (if decide (x = pid) then p' else live (table w2) x) =
            if decide (x = pid) then p' else live (table w) x) as Hlive.
  { intros p' x. destruct (decide (x = pid)) as [|Hne]; [done|]. cbn. rewrite Hl2. by rewrite decide_False. }
  destruct l as [|context|saved context|]; destruct Hleft as (Hwf3 & Hq3 & Hc3 & Hb3 & Hl3);
    cbn [cpu_user_context w2 queue] in *; rewrite Hc3, ?Hctx.
  - exists (mkWorld (table w3) (queue w3) None None (page_table_register w3) (base_address_space w3)), false.
    rewrite Hq3. do 6 (split; [done|]). intros x. cbn [table]. by rewrite Hl3, Hlive.
  - exists (mkWorld (table w3) (queue w3) None None (page_table_register w3) (base_address_space w3)), false.
    rewrite Hq3. do 5 (split; [done|]). split; [cbn; by rewrite app_nil_r|]. intros x. cbn [table]. by rewrite Hl3, Hlive.
  - cbn [table queue current_process cpu_user_context page_table_register base_address_space].
    set (w4 := mkWorld (table w3) (queue w3) None None (page_table_register w3) (base_address_space w3)).
    assert (live (table w4) pid = Some (set_registers (set_state p Running)
              (set_mode_context saved (user_context (registers (set_state p Running)))))) as Hl4
      by (cbn; rewrite Hl3; by rewrite decide_True).
    destruct (update_live w4 pid _ (fun p => set_state (set_registers p (set_mode_context (registers p) context)) Runnable)
                Hwf3 Hl4 eq_refl) as (t5 & E5 & Hwf5 & Hl5).
    unfold bindM at 1. change (mkWorld (table w3) (queue w3) None None (page_table_register w3) (base_address_space w3)) with w4.
    rewrite E5. cbn [unwrap].
    exists (mkWorld t5 (queue w3) None None (page_table_register w3) (base_address_space w3)), true.
    split; [done|]. rewrite Hq3. do 5 (split; [done|]). intros x. cbn [table]. rewrite Hl5. cbn [table w4]. rewrite Hl3.
    destruct (decide (x = pid)) as [|Hne]; [done|]. cbn. rewrite Hl2. by rewrite decide_False.
  - exists (mkWorld (table w3) (queue w3) None None (page_table_register w3) (base_address_space w3)), false.
    rewrite Hq3. do 6 (split; [done|]). intros x. cbn [table]. by rewrite Hl3, Hlive.
Qed.

(** One round. *)
Lemma run_one_spec w pid q p l :
  sched_ok w -> queue w = pid :: q -> live (table w) pid = Some p -> leave_ok pid l ->
  exists w', run_one l w = (w', Ok true) /\ sched_ok w' /\
    queue w' = q ++ match after l p with Some _ => [pid] | None => [] end /\
    forall x, live (table w') x = if decide (x = pid) then after l p else live (table w) x.
Proof.
  intros Hs Hq Hl Hok. unfold run_one. rewrite (bindM_ok _ _ _ _ _ (dequeue_cons w pid q Hq)). cbn [table].
  destruct (find_of_live _ _ _ (so_table _ Hs) Hl) as [-> _].
  set (w1 := mkWorld (table w) q (current_process w) (cpu_user_context w) (page_table_register w) (base_address_space w)).
  assert (sched_ok w1) as Hs1.
  { destruct Hs as [H1 H2 H3 H4]. split; [done|done| |done]. intros x Hx. apply H3. rewrite Hq. by right. }
  destruct (enter_user_mode_spec w1 pid p l Hs1 Hl Hok) as (w2 & pre & E & Hwf & Hc & Hu & Hb & Hqueue & Hlive).
  rewrite (bindM_ok _ _ _ _ _ E). cbn [queue w1] in Hqueue.
  assert (exists w3, (let! _ := (if pre : bool then enqueue pid else retM tt) in retM true) w2 = (w3, Ok true) /\
            table w3 = table w2 /\ queue w3 = q ++ match after l p with Some _ => [pid] | None => [] end /\
            current_process w3 = None /\ cpu_user_context w3 = None /\
            base_address_space w3 = base_address_space w2) as (w3 & E3 & Ht3 & Hq3 & Hc3 & Hu3 & Hb3).
  { destruct pre; [|rewrite app_nil_r in Hqueue]; eexists; (split; [done|]); done. }
  exists w3. split; [done|]. rewrite Ht3, Hq3. split; [|done].
  apply (sched_ok_next w w3 pid p (after l p)); [done|done| |by rewrite Ht3|done|done| |by rewrite Hb3|by rewrite Ht3|].
  - apply (so_queue _ Hs). rewrite Hq. left.
  - intros x Hx. rewrite Hq3 in Hx. apply elem_of_app in Hx as [Hx|Hx]; [left; rewrite Hq; by right|right].
    destruct (after l p); [by apply list_elem_of_singleton in Hx|by apply not_elem_of_nil in Hx].
  - intros x Hx. destruct l; cbn in Hx; simplify_eq; done.
Qed.

(** The processes of a list of rounds that stay in the queue. *)
Definition stays (l : Leave) : bool :=
  match l with LeaveExit | LeaveFatalTrap => false | LeaveYield _ | LeavePreempt _ _ => true end.

Fixpoint survivors (q : list Pid) (ls : list Leave) : list Pid :=
  match q, ls with
  | pid :: q, l :: ls => if stays l then pid :: survivors q ls else survivors q ls
  | _, _ => []
  end.

Lemma run_spec ls q1 q2 w :
  sched_ok w -> queue w = q1 ++ q2 -> NoDup q1 -> length ls = length q1 ->
  (forall pid, pid ∈ q1 -> is_Some (live (table w) pid)) ->
  (forall i pid l, q1 !! i = Some pid -> ls !! i = Some l -> leave_ok pid l) ->
  exists w', run ls w = (w', Ok tt) /\ sched_ok w' /\ queue w' = q2 ++ survivors q1 ls /\
    (forall i pid l p, q1 !! i = Some pid -> ls !! i = Some l -> live (table w) pid = Some p ->
       live (table w') pid = after l p) /\
    forall pid, pid ∉ q1 -> live (table w') pid = live (table w) pid.
Proof.
  revert ls q2 w. induction q1 as [|pid q1 IH]; intros [|l ls] q2 w Hs Hq Hnd Hlen Hlive Hok; try done.
  { exists w. cbn. rewrite app_nil_r. split; [done|]. split; [done|]. split; [done|]. split; [by intros [|i]|done]. }
  apply list.NoDup_cons in Hnd as [Hni Hnd]. destruct (Hlive pid) as [p Hp]; [left|].
  destruct (run_one_spec w pid (q1 ++ q2) p l Hs Hq Hp (Hok 0%nat pid l eq_refl eq_refl)) as (w1 & E1 & Hs1 & Hq1 & Hl1).
  cbn [run]. rewrite (bindM_ok _ _ _ _ _ E1). rewrite <- app_assoc in Hq1.
  destruct (IH ls (q2 ++ match after l p with Some _ => [pid] | None => [] end) w1 Hs1 Hq1 Hnd) as
    (w2 & E2 & Hs2 & Hq2 & Hrun2 & Hoth2); [by injection Hlen| | |].
  { intros x Hx. rewrite Hl1, decide_False by (by intros ->). apply Hlive. by right. }
  { intros i x l' Hx Hl'. by apply (Hok (S i) x l'). }
  exists w2. split; [done|]. split; [done|]. split; [|split].
  - rewrite Hq2, <- app_assoc. f_equal. cbn [survivors]. destruct l; done.
  - intros [|i] x l' p' Hx Hl' Hp'; cbn in Hx, Hl'.
    + injection Hx as <-. injection Hl' as <-. rewrite Hoth2, Hl1, decide_True by done. congruence.
    + apply (Hrun2 i x l' p'); [done|done|]. rewrite Hl1, decide_False; [done|]. intros ->.
      by apply Hni, list_elem_of_lookup_2 with i.
  - intros x [Hne Hx]%not_elem_of_cons. by rewrite Hoth2, Hl1, decide_False.
Qed.

(** ** Theorems *)

(** C15.  One round of the scheduler.  With an empty queue nothing happens and the
    answer is [false].  A queued identifier without a process is dropped from the
    queue and nothing else changes.  Otherwise the first process of the queue runs:
    it goes to the end of the queue with the context it left in if it yielded or
    was preempted, and its slot is released if it exited or trapped; no other
    process changes, and the processor is left without a current process. *)
Theorem scheduler_round w l :
  sched_ok w ->
  (queue w = [] /\ run_one l w = (w, Ok false)) \/
  (exists pid q, queue w = pid :: q /\ live (table w) pid = None /\
     run_one l w = (mkWorld (table w) q (current_process w) (cpu_user_context w) (page_table_register w)
                      (base_address_space w), Ok true)) \/
  (exists pid q p, queue w = pid :: q /\ live (table w) pid = Some p /\
     (leave_ok pid l -> exists w', run_one l w = (w', Ok true) /\ sched_ok w' /\
        queue w' = q ++ match after l p with Some _ => [pid] | None => [] end /\
        forall x, live (table w') x = if decide (x = pid) then after l p else live (table w) x)).
Proof.
  intros Hs. destruct (queue w) as [|pid q] eqn:Hq; [left|right].
  - split; [done|]. unfold run_one, dequeue, bindM. by rewrite Hq.
  - destruct (so_queue _ Hs pid) as [Hc Hp]; [rewrite Hq; left|].
    destruct (live (table w) pid) as [p|] eqn:Hl; [right|left].
    + exists pid, q, p. split; [done|]. split; [done|]. intros Hok. by apply run_one_spec.
    + exists pid, q. split; [done|]. split; [done|]. unfold run_one.
      rewrite (bindM_ok _ _ _ _ _ (dequeue_cons w pid q Hq)). cbn [table].
      by rewrite find_live, Hl by (done || apply (so_table _ Hs)).
Qed.

(** C16.  Round robin.  When every queued identifier names a process, as many rounds
    as there are queued processes run each of them exactly once, in the order of
    the queue; afterwards the queue holds exactly the processes that did not exit
    or trap, in the same order, and processes that were not queued are unchanged. *)
Theorem round_robin_fair w ls :
  sched_ok w -> NoDup (queue w) -> length ls = length (queue w) ->
  (forall pid, pid ∈ queue w -> is_Some (live (table w) pid)) ->
  (forall i pid l, queue w !! i = Some pid -> ls !! i = Some l -> leave_ok pid l) ->
  exists w', run ls w = (w', Ok tt) /\ sched_ok w' /\ queue w' = survivors (queue w) ls /\
    (forall i pid l p, queue w !! i = Some pid -> ls !! i = Some l -> live (table w) pid = Some p ->
       live (table w') pid = after l p) /\
    forall pid, pid ∉ queue w -> live (table w') pid = live (table w) pid.
Proof.
  intros Hs Hnd Hlen Hlive Hok.
  destruct (run_spec ls (queue w) [] w Hs ltac:(by rewrite app_nil_r) Hnd Hlen Hlive Hok) as (w' & E & Hs' & Hq & Hrest).
  exists w'. done.
Qed.

(** ** Witnesses *)

Definition sample_user_process : Process :=
  mkProcess (mkAddressSpace ProcessKind (Some 8192) PageAllocator.page_allocator_zero None) Block.block_zero None Current
    (registers_new 35 27 (mkMiniContext 4096 8192) 12288) Runnable (mkTrapContext (mkMiniContext 0 0) Block.block_zero).

(** Two processes, both queued. *)
Definition sample_world : World :=
  mkWorld ((allocate sample_user_process (allocate sample_user_process sample_table).1).1) [Id 0 0; Id 0 1] None None 4096
    (mkAddressSpace Base (Some 4096) PageAllocator.page_allocator_zero None).

Lemma sample_world_ok : sched_ok sample_world.
Proof.
  destruct (slot_allocate_cases sample_table sample_table_wf sample_user_process) as
    [(H & _)|(e1 & i1 & n1 & p1 & t1 & E1 & _ & _ & _ & _ & _ & _ & Hwf1)]; [done|].
  destruct (slot_allocate_cases t1 Hwf1 sample_user_process) as
    [(_ & _ & E2)|(e2 & i2 & n2 & p2 & t2 & E2 & _ & _ & _ & _ & _ & _ & Hwf2)].
  { exfalso. assert ((allocate sample_user_process (allocate sample_user_process sample_table).1).2 = Ok (Id 0 1)) as H
      by reflexivity. rewrite E1 in H. cbn [fst] in H. by rewrite E2 in H. }
  assert (table sample_world = t2) as Ht by (unfold sample_world; cbn [table]; rewrite E1; cbn [fst]; by rewrite E2).
  split; [by rewrite Ht|done| |].
  - intros pid. cbn. rewrite !elem_of_cons, elem_of_nil. intros [->|[->|[]]]; (split; [done|]; cbn; lia).
  - exists 4096. split; [done|]. split; [lia|]. intros [|e s] p; [done|]. unfold live.
    let x := eval vm_compute in (slots (table sample_world)) in change (slots (table sample_world)) with x.
    destruct (Z.leb_spec 0 s); [|done]. intros Hl. exists 8192.
    assert (s = 0 \/ s = 1 \/ 2 <= s) as [->|[->|Hs]] by lia.
    + change (Z.to_nat 0) with 0%nat in Hl. cbn [lookup list_lookup] in Hl. destruct (decide _); [|done].
      injection Hl as <-. cbn. split; [done|lia].
    + change (Z.to_nat 1) with 1%nat in Hl. cbn [lookup list_lookup] in Hl. destruct (decide _); [|done].
      injection Hl as <-. cbn. split; [done|lia].
    + rewrite lookup_ge_None_2 in Hl by (cbn; lia). done.
Qed.

Lemma scheduler_round_witness :
  exists w, run_one (LeaveYield (mkMiniContext 1 2)) sample_world = (w, Ok true) /\ queue w = [Id 0 1; Id 0 0].
Proof.
  destruct (scheduler_round sample_world (LeaveYield (mkMiniContext 1 2)) sample_world_ok) as
    [[H _]|[(pid & q & Hq & Hn & _)|(pid & q & p & Hq & Hl & H)]]; [discriminate H| |].
  - exfalso. injection Hq as <- <-. discriminate Hn.
  - destruct H as (w & H & _ & Hqueue & _); [exact I|]. injection Hq as <- <-.
    exists w. split; [exact H|]. exact Hqueue.
Defined.

Lemma round_robin_fair_witness :
  exists w, run [LeaveYield (mkMiniContext 1 2); LeaveExit] sample_world = (w, Ok tt) /\ queue w = [Id 0 0].
Proof.
  destruct (round_robin_fair sample_world [LeaveYield (mkMiniContext 1 2); LeaveExit]) as (w & H & _ & Hq & _).
  - apply sample_world_ok.
  - repeat constructor; set_solver.
  - reflexivity.
  - intros pid. cbn. rewrite !elem_of_cons, elem_of_nil. intros [->|[->|[]]]; vm_compute; eauto.
  - intros [|[|i]] pid l Hp Hl; cbn in Hp, Hl; simplify_eq; [exact I|]. eexists. reflexivity.
  - exists w. split; [exact H|exact Hq].
Defined.
