(* ===== verification/Syscall.v ===== *)
(** * Syscall: memory passed to the kernel

    Models the system call [log_value] of [kernel/src/process/syscall.rs] and the
    level symbols of [ku/src/log/mod.rs].  It is the only implemented system call
    that reads memory of the process. *)

From Stdlib Require Import ZArith Lia.
From stdpp Require Import base list numbers tactics.
From S2P Require Import Prelude Addr Frage Block Mmu Range Mapping Pid AddressSpace Process.

Open Scope Z_scope.
Open Scope outcome_scope.

Inductive Level := ERROR | WARN | INFO | DEBUG | TRACE.

(** The symbols are the characters E, W, I, D and T. *)
Definition level_try_from_symbol (level : Z) : outcome Level :=
  match level with
  | 69 => Ok ERROR
  | 87 => Ok WARN
  | 73 => Ok INFO
  | 68 => Ok DEBUG
  | 84 => Ok TRACE
  | _ => Err InvalidArgument
  end.

Definition level_into_symbol (level : Level) : Z :=
  match level with ERROR => 69 | WARN => 87 | INFO => 73 | DEBUG => 68 | TRACE => 84 end.

(** ** [core::str::from_utf8] *)

Definition in_range (a b x : Z) : bool := (a <=? x) && (x <=? b).

(** The length of the well-formed sequence at the head of the bytes, if there is one
    (Table 3-7 of the Unicode standard). *)
Definition utf8_sequence (bytes : list Z) : option nat :=
  match bytes with
  | b0 :: rest =>
      if in_range 0 127 b0 then Some 1%nat
      else
        match rest with
        | b1 :: rest =>
            if in_range 194 223 b0 && in_range 128 191 b1 then Some 2%nat
            else
              match rest with
              | b2 :: rest =>
                  if (((b0 =? 224) && in_range 160 191 b1) ||
                      (in_range 225 236 b0 && in_range 128 191 b1) ||
                      ((b0 =? 237) && in_range 128 159 b1) ||
                      (in_range 238 239 b0 && in_range 128 191 b1)) && in_range 128 191 b2
                  then Some 3%nat
                  else
                    match rest with
                    | b3 :: _ =>
                        if (((b0 =? 240) && in_range 144 191 b1) ||
                            (in_range 241 243 b0 && in_range 128 191 b1) ||
                            ((b0 =? 244) && in_range 128 143 b1)) &&
                           in_range 128 191 b2 && in_range 128 191 b3
                        then Some 4%nat else None
                    | [] => None
                    end
              | [] => None
              end
        | [] => None
        end
  | [] => None
  end.

(** Every sequence consumes a byte, so the number of bytes bounds the recursion. *)
Fixpoint utf8_valid (fuel : nat) (bytes : list Z) : bool :=
  match bytes, fuel with
  | [], _ => true
  | _, O => false
  | _, S fuel =>
      match utf8_sequence bytes with
      | Some n => utf8_valid fuel (drop n bytes)
      | None => false
      end
  end.

Definition from_utf8 (bytes : list Z) : outcome (list Z) :=
  if utf8_valid (length bytes) bytes then Ok bytes else Err InvalidArgument.

(** ** [log_value] *)

(** The page tables, the addresses of user memory the kernel has read, and the
    journal. *)
Record LogState := mkLogState {
  log_memory : Kmem;
  reads : list Z;
  journal : list (Level * list Z * Z);
}.

Definition with_memory {A} (c : M Kmem A) : M LogState A := fun st =>
  let '(m, r) := c (log_memory st) in (mkLogState m (reads st) (journal st), r).

(** [content] is what user memory holds at each address. *)
Definition read_bytes (content : Z -> Z) (start len : Z) : M LogState (list Z) := fun st =>
  (mkLogState (log_memory st) (reads st ++ seqZ start len) (journal st), Ok (content <$> seqZ start len)).

Definition write_event (level : Level) (message : list Z) (value : Z) : M LogState unit := fun st =>
  (mkLogState (log_memory st) (reads st) (journal st ++ [(level, message, value)]), Ok tt).

Definition log_value (process : Process) (content : Z -> Z) (level start len value : Z) : M LogState Z :=
  let! _ := liftM (Process.pid process) in
  let! log_level := liftM (level_try_from_symbol (level mod 256)) in
  let! end_ := liftM (ok_or (checked_add start len) Overflow) in
  let! block := liftM (block_from_index Virtual start end_) in
  let! _ := with_memory (check_permission (address_space process) block USER_R 1 1) in
  let! bytes := read_bytes content start len in
  let! message := liftM (from_utf8 bytes) in
  let! _ := write_event log_level message value in
  retM 0.

(** ** Theorems *)

Lemma check_permission_bytes sp b flags st st' r :
  check_permission_common sp b flags st = (st', r) ->
  (check_permission sp b flags 1 1 st).1 = st' /\
  (r <> Ok tt -> (check_permission sp b flags 1 1 st).2 = match r with Err e => Err e | _ => Panic end) /\
  (r = Ok tt -> block_wf Virtual b -> (check_permission sp b flags 1 1 st).2 <> Panic).
Proof.
  intros E. unfold check_permission, bindM. rewrite E. destruct r as [[]|e|]; [|done..].
  split; [done|]. split; [done|]. intros _ Hb. cbn [liftM snd]. unfold block_try_into_slice.
  rewrite wf_size by done. change (SIZE_OF Virtual) with 1. rewrite Z.mul_1_r.
  unfold is_multiple_of. rewrite Z.mod_1_r. cbn [Z.eqb]. rewrite wf_start_address by done. cbn [negb Z.eqb].
  unfold Virt.try_into_slice, Virt.try_into_ref, Virt.try_into_ptr. repeat case_match; done.
Qed.

(** The block of a message, when it exists. *)
Lemma message_block start len e :
  is_usize start -> is_usize len -> checked_add start len = Some e ->
  e = start + len /\ is_usize e /\
  ((block_from_index Virtual start e = Ok (mkBlock start e) /\ block_wf Virtual (mkBlock start e)) \/
   exists err, block_from_index Virtual start e = Err err).
Proof.
  intros Hs Hl He. unfold checked_add in He. destruct (fits_usize (start + len)) eqn:Ef; [|done].
  injection He as <-. apply fits_usize_true in Ef. split; [done|]. split; [done|].
  destruct (block_from_index Virtual start (start + len)) as [b|err|] eqn:E; [left|right; by eauto|].
  - apply (block_from_index_spec (M := Virtual)) in E as [-> Hb]; done.
  - by apply (block_from_index_total (M := Virtual)) in E.
Qed.

(** What the kernel read for a message was accessible to the process. *)
Definition confined (st : Kmem) (root start len : Z) : Prop :=
  forall a, start <= a < start + len -> USER_START * 4096 <= a < LOWER_END /\
    permitted st root (Z.lor (Z.lor PageTableFlags.PRESENT PageTableFlags.USER) USER_R) a.

Section LogValue.
  Context (process : Process) (root : Z) (content : Z -> Z) (level start len value : Z).
  Context (Hpid : process_pid process <> Current).
  Context (Hs : is_usize start) (Hlen : 0 < len < USIZE_MODULUS).

Lemma process_pid_ok : Process.pid process = Ok (process_pid process).
Proof using Hpid. unfold Process.pid. by rewrite decide_False. Qed.

Lemma message_end_canonical :
  block_wf Virtual (mkBlock start (start + len)) -> is_usize (start + len) -> start + len <> LOWER_END ->
  canonical (start + len).
Proof using Hlen.
  intros Hb He Hne. pose proof (wf_last _ _ Hb) as Hl. unfold last_index in Hl. cbn [b_start b_end] in Hl.
  rewrite (proj2 (Z.ltb_lt _ _)) in Hl by lia. change (SIZE_OF Virtual) with 1 in Hl. rewrite Z.mul_1_r in Hl.
  change (mem_tag Virtual) with VirtTag in Hl. apply virt_valid_iff in Hl. unfold canonical, is_usize in *. lia.
Qed.

Definition log_result (st st' : LogState) (r : outcome Z) : Prop :=
  log_memory st' = log_memory st /\
  ((reads st' = reads st /\ journal st' = journal st /\ exists e, r = Err e) \/
   (reads st' = reads st ++ seqZ start len /\ confined (log_memory st) root start len /\
      ((r = Err InvalidArgument /\ journal st' = journal st) \/
       (r = Ok 0 /\ exists l, level_try_from_symbol (level mod 256) = Ok l /\
          journal st' = journal st ++ [(l, content <$> seqZ start len, value)])))).

Lemma log_value_spec st :
  tree_wf (memory (log_memory st)) root -> mapping_root (address_space process) = Some root ->
  start + len <> LOWER_END ->
  exists st' r, log_value process content level start len value st = (st', r) /\ log_result st st' r.
Proof using Hpid Hs Hlen.
  intros Ht Hroot Hne. unfold log_value. rewrite process_pid_ok, bindM_lift.
  assert (forall e, log_result st st (Err e)) as Herr by (intros e; split; [done|left; eauto]).
  destruct (level_try_from_symbol (level mod 256)) as [l|e|] eqn:El.
  2:{ eexists _, _. split; [done|apply Herr]. }
  2:{ exfalso. unfold level_try_from_symbol in El. repeat case_match; done. }
  rewrite bindM_lift. destruct (checked_add start len) as [e|] eqn:Ee; cbn [ok_or].
  2:{ eexists _, _. split; [done|apply Herr]. }
  rewrite bindM_lift. destruct (message_block start len e) as (-> & Hu & [[-> Hb]|(err & ->)]);
    [done|unfold is_usize; lia|done| |eexists _, _; split; [done|apply Herr]].
  rewrite bindM_lift.
  pose proof (message_end_canonical Hb Hu Hne) as Hend.
  destruct (check_permission_spec (log_memory st) (address_space process) root (mkBlock start (start + len)) USER_R
              Ht Hroot Hb ltac:(cbn; lia) Hend) as [[Hacc E]|(_ & err & E & _)];
    destruct (check_permission_bytes _ _ _ _ _ _ E) as (Hst & Hbad & Hgood);
    destruct (check_permission (address_space process) (mkBlock start (start + len)) USER_R 1 1 (log_memory st))
      as [m r] eqn:Ec; cbn [fst snd] in *; subst m.
  2:{ rewrite Hbad in Ec by done. exists st, (Err err). unfold bindM at 1, with_memory. rewrite Ec. split; [by destruct st|apply Herr]. }
  unfold bindM at 1, with_memory at 1. rewrite Ec.
  destruct r as [[p n]|err|]; [|exists st, (Err err); split; [by destruct st|apply Herr]|by destruct (Hgood eq_refl Hb)].
  unfold bindM at 1, read_bytes. cbn [reads journal log_memory]. unfold from_utf8.
  set (st1 := mkLogState (log_memory st) (reads st ++ seqZ start len) (journal st)).
  destruct (utf8_valid _ _).
  - rewrite bindM_lift. unfold bindM at 1, write_event. eexists _, _. split; [done|]. split; [done|]. right.
    split; [done|]. split; [exact Hacc|]. right. eauto.
  - eexists _, _. split; [done|]. split; [done|]. right. split; [done|]. split; [exact Hacc|]. by left.
Qed.

End LogValue.

(** C35.  The system call [log_value] for a non-empty message that does not end at the
    end of the lower half.  Whatever the arguments, the kernel does not panic, does
    not change the page tables, and reads memory only if every byte of the message
    is in the user's part of the address space and mapped readable for user code;
    an event with exactly the bytes of the message is written to the journal when
    and only when the answer is success. *)
Theorem log_value_confined process root content level start len value st :
  process_pid process <> Current -> is_usize start -> 0 < len < USIZE_MODULUS ->
  tree_wf (memory (log_memory st)) root -> mapping_root (address_space process) = Some root ->
  start + len <> LOWER_END ->
  exists st' r, log_value process content level start len value st = (st', r) /\
    log_result root content level start len value st st' r.
Proof. intros. by apply log_value_spec. Qed.

(** A message that ends exactly at the end of the lower half makes the kernel
    panic: the range is accepted as a block, but the permission check asks for the
    address just past it, which does not exist, and unwraps the error.  The
    arguments are under the control of user code. *)
Theorem log_value_end_of_half_panics process content level l len value st :
  process_pid process <> Current -> level_try_from_symbol (level mod 256) = Ok l ->
  0 < len <= LOWER_END ->
  (log_value process content level (LOWER_END - len) len value st).2 = Panic.
Proof.
  intros Hpid Hl Hlen. unfold log_value. rewrite process_pid_ok, Hl, !bindM_lift by done.
  unfold checked_add. rewrite (proj2 (fits_usize_true (LOWER_END - len + len))) by (unfold is_usize; lia).
  cbn [ok_or]. rewrite bindM_lift. replace (LOWER_END - len + len) with LOWER_END by lia.
  assert (block_wf Virtual (mkBlock (LOWER_END - len) LOWER_END)) as Hb.
  { split; cbn [b_start b_end].
    - unfold is_usize. lia.
    - lia.
    - change (SIZE_OF Virtual) with 1. change (mem_tag Virtual) with VirtTag. apply virt_valid_iff. unfold canonical. lia.
    - unfold last_index. cbn [b_start b_end]. rewrite (proj2 (Z.ltb_lt _ _)) by lia.
      change (SIZE_OF Virtual) with 1. change (mem_tag Virtual) with VirtTag. apply virt_valid_iff. unfold canonical. lia.
    - unfold last_index. cbn [b_start b_end]. rewrite (proj2 (Z.ltb_lt _ _)) by lia.
      change (SIZE_OF Virtual) with 1. change (mem_tag Virtual) with VirtTag. apply virt_same_half_iff; unfold canonical; lia. }
  rewrite wf_from_index, bindM_lift by done.
  destruct (enclosing_spec VirtTag _ Hb) as [[Hv _]|[_ Hp]]; [cbn; lia| |].
  - apply virt_valid_iff in Hv. unfold canonical in Hv. cbn [b_end] in Hv. lia.
  - unfold bindM at 1, with_memory, check_permission, check_permission_common. unfold bindM. by rewrite Hp.
Qed.

(** ** Witnesses *)

Definition sample_caller : Process :=
  mkProcess sample_space block_zero None (Id 0 0)
    (registers_new 35 27 (mkMiniContext 4096 8192) 12288) Running (mkTrapContext (mkMiniContext 0 0) block_zero).

Definition sample_log : LogState := mkLogState sample_mapped [] [].

(** The bytes of the message are the letter A. *)
Lemma log_value_confined_witness :
  exists st, log_value sample_caller (fun _ => 65) 73 (sample_page + 10) 3 7 sample_log = (st, Ok 0) /\
    journal st = [(INFO, [65; 65; 65], 7)].
Proof.
  destruct sample_mapped_wf as [paths Hk].
  destruct (log_value_confined sample_caller 0 (fun _ => 65) 73 (sample_page + 10) 3 7 sample_log)
    as (st & r & H & _ & Hcase);
    [discriminate|unfold is_usize, sample_page; lia|lia|apply (kw_tree _ _ _ _ Hk)|reflexivity|unfold sample_page; lia|].
  assert ((log_value sample_caller (fun _ => 65) 73 (sample_page + 10) 3 7 sample_log).2 = Ok 0) as Hok
    by (vm_compute; reflexivity).
  rewrite H in Hok. cbn in Hok. subst r.
  destruct Hcase as [(_ & _ & e & He)|(_ & _ & [[He _]|(_ & l & Hl & Hj)])]; [discriminate He|discriminate He|].
  exists st. split; [exact H|]. rewrite Hj. vm_compute in Hl. injection Hl as <-. reflexivity.
Defined.

Lemma log_value_end_of_half_panics_witness :
  (log_value sample_caller (fun _ => 65) 73 (LOWER_END - 1) 1 7 sample_log).2 = Panic.
Proof.
  apply (log_value_end_of_half_panics sample_caller (fun _ => 65) 73 INFO 1 7 sample_log);
    [discriminate|reflexivity|lia].
Defined.
