(* ===== verification/Elf.v ===== *)
(** * Elf: the segments of an executable

    Models the part of [ku/src/process/elf.rs] that turns the program headers of an
    ELF file into ranges of pages with access flags: the conversion of a header,
    the conversion of its flags, and [combine], the step of the scan line that
    decides which pages of two neighbouring segments have final flags. *)

From Stdlib Require Import ZArith Lia.
From stdpp Require Import base list numbers tactics sorting.
From S2P Require Import Prelude Addr Frage Block Mmu.

Open Scope Z_scope.
Open Scope outcome_scope.

(** The flags of a program header, as the ELF format defines them. *)
Definition FLAG_X : Z := 1.
Definition FLAG_W : Z := 2.
Definition FLAG_R : Z := 4.

(** [TryFrom<Flags> for PageTableFlags]; the default of [PageTableFlags] is empty. *)
Definition flags_try_from (ph_flags : Z) : outcome Z :=
  let insecure_flags := Z.lor FLAG_W FLAG_X in
  if Z.land ph_flags insecure_flags =? insecure_flags then Err PermissionDenied
  else
    Ok (foldl (fun flags '(ph_flag, flag) =>
                 if negb (Z.land ph_flags ph_flag =? 0) then Z.lxor flags flag else flags)
          PageTableFlags.PRESENT
          [(FLAG_R, 0); (FLAG_W, PageTableFlags.WRITABLE); (FLAG_X, PageTableFlags.EXECUTABLE)]).

(** [MemoryRange<T>]; [VirtRange] has a block of addresses and [PageRange] a block of
    pages. *)
Record MemoryRange := mkRange { range_flags : Z; range_memory : Block }.

Definition page_range_of (virt_range : MemoryRange) : outcome MemoryRange :=
  let? memory := enclosing VirtTag (range_memory virt_range) in
  Ok (mkRange (range_flags virt_range) memory).

(** The fields of a program header the loader reads, all of them 64-bit words but the
    flags. *)
Record ProgramHeader := mkHeader {
  ph_flags : Z;
  ph_offset : Z;
  ph_virtual_addr : Z;
  ph_file_size : Z;
  ph_mem_size : Z;
}.

Record FileRange := mkFileRange {
  file_start : Z;
  file_end : Z;
  virt_range : MemoryRange;
}.

Definition file_range_try_from (header : ProgramHeader) : outcome FileRange :=
  let? flags := flags_try_from (ph_flags header) in
  if ph_mem_size header <? ph_file_size header then Err Overflow
  else
    let? start_virt := addr_new VirtTag (ph_virtual_addr header) in
    let? end_virt := addr_add VirtTag start_virt (ph_mem_size header) in
    let? memory := block_new Virtual start_virt end_virt in
    let? end_ := ok_or (checked_add (ph_offset header) (ph_file_size header)) Overflow in
    Ok (mkFileRange (ph_offset header) end_ (mkRange flags memory)).

Definition validate_order (curr next : MemoryRange) : outcome unit :=
  if bool_decide (block_partial_cmp (range_memory curr) (range_memory next) = Some Lt)
  then Ok tt else Err InvalidArgument.

(** [combine]: [curr_minus_next], [boundary] and [updated_next].  The values it only
    computes for its log messages are left out. *)
Definition combine (curr next : MemoryRange)
    : outcome (option MemoryRange * option MemoryRange * MemoryRange) :=
  let? _ := validate_order curr next in
  let? curr_page_block := enclosing VirtTag (range_memory curr) in
  let? next_page_block := enclosing VirtTag (range_memory next) in
  let combined_flags := Z.lor (range_flags curr) (range_flags next) in
  let? disjoint := is_disjoint Page curr_page_block next_page_block in
  if disjoint : bool then Ok (Some (mkRange (range_flags curr) curr_page_block), None, next)
  else
    let overlap_start := Z.max (b_start curr_page_block) (b_start next_page_block) in
    let overlap_end := Z.min (b_end curr_page_block) (b_end next_page_block) in
    let? last := usize_sub overlap_end 1 in
    let? curr_minus_next :=
      (if b_start curr_page_block <? last then
         let? memory := block_from_index Page (b_start curr_page_block) last in
         Ok (Some (mkRange (range_flags curr) memory))
       else Ok None) in
    let? boundary :=
      (if overlap_start <? overlap_end then
         let? last_overlap_page := frage_from_index VirtTag L0_SIZE last in
         let? last_overlap_page_end := frage_add VirtTag L0_SIZE last_overlap_page 1 in
         let? next_end := end_address Virtual (range_memory next) in
         if last_overlap_page_end <? next_end then
           let? memory := block_from_index Page last overlap_end in
           Ok (Some (mkRange combined_flags memory))
         else Ok None
       else Ok None) in
    let? updated_next_start_addr :=
      match boundary, curr_minus_next with
      | Some _, _ => frage_from_index VirtTag L0_SIZE overlap_end
      | None, Some _ => frage_from_index VirtTag L0_SIZE last
      | None, None => start_address Virtual (range_memory curr)
      end in
    let? next_end_addr := end_address Virtual (range_memory next) in
    let? updated_next_memory := block_new Virtual updated_next_start_addr next_end_addr in
    let updated_next_flags :=
      if bool_decide (boundary = None) && (overlap_start <? overlap_end)
      then combined_flags else range_flags next in
    Ok (curr_minus_next, boundary, mkRange updated_next_flags updated_next_memory).

(** ** Segments of the lower half *)

(** A non-empty range that ends at least a page before the end of the lower half. *)
Definition segment (r : MemoryRange) : Prop :=
  0 <= b_start (range_memory r) < b_end (range_memory r) /\ b_end (range_memory r) + 4096 <= LOWER_END.

Lemma low_valid a : 0 <= a < LOWER_END -> valid VirtTag a.
Proof. intros Ha. apply virt_valid_iff. by left. Qed.

Lemma low_same_half a b : 0 <= a < LOWER_END -> 0 <= b < LOWER_END -> is_same_half VirtTag a b = true.
Proof. intros Ha Hb. apply virt_same_half_iff; [by left..|lia]. Qed.

Lemma low_block s e : 0 <= s <= e -> e < LOWER_END -> block_wf Virtual (mkBlock s e).
Proof.
  intros Hs He. assert (s <= last_index (mkBlock s e) <= e) as Hl
    by (unfold last_index; cbn [b_start b_end]; destruct (Z.ltb_spec s e); lia).
  split; cbn [b_start b_end]; [unfold is_usize; lia|lia|..]; change (SIZE_OF Virtual) with 1; rewrite ?Z.mul_1_r;
    [apply low_valid|apply low_valid|apply low_same_half]; lia.
Qed.

Lemma low_pages s e : 0 <= s <= e -> e * 4096 < LOWER_END -> block_wf Page (mkBlock s e).
Proof.
  intros Hs He. assert (s <= last_index (mkBlock s e) <= e) as Hl
    by (unfold last_index; cbn [b_start b_end]; destruct (Z.ltb_spec s e); lia).
  split; cbn [b_start b_end]; [unfold is_usize; lia|lia|..]; change (SIZE_OF Page) with 4096;
    [apply low_valid|apply low_valid|apply low_same_half]; lia.
Qed.

(** The pages of a segment. *)
Definition first_page (r : MemoryRange) : Z := b_start (range_memory r) / 4096.
Definition end_page (r : MemoryRange) : Z := (b_end (range_memory r) - 1) / 4096 + 1.

Lemma segment_enclosing r :
  segment r -> enclosing VirtTag (range_memory r) = Ok (mkBlock (first_page r) (end_page r)).
Proof.
  intros [Hs He]. destruct r as [f [s e]]. unfold first_page, end_page. cbn [range_memory b_start b_end] in *.
  unfold enclosing. rewrite wf_start_address by (apply low_block; lia). change (SIZE_OF Virtual) with 1.
  cbn [b_start b_end]. rewrite Z.mul_1_r. unfold index_by_address. rewrite supported_size.
  rewrite (proj2 (Z.eqb_neq s e)) by lia.
  assert (end_address Virtual (mkBlock s e) = Ok e) as ->.
  { apply (end_address_ok Virtual); [apply low_block; lia|]. change (SIZE_OF Virtual) with 1.
    cbn [b_end]. rewrite Z.mul_1_r. split; [done|]. apply low_valid. lia. }
  cbn [unwrap]. assert (addr_sub VirtTag e 1 = Ok (e - 1)) as ->.
  { apply addr_sub_spec; [apply low_valid; lia|lia|].
    split; [done|]. split; [apply low_valid; lia|apply low_same_half; lia]. }
  cbn [unwrap]. change L0_SIZE with 4096. rewrite usize_add_ok by (unfold is_usize; Z.div_mod_to_equations; lia).
  by rewrite wf_from_index by (apply low_pages; Z.div_mod_to_equations; lia).
Qed.

(** A page is touched by a segment, a page belongs to an optional range of pages. *)
Definition touches (r : MemoryRange) (i : Z) : Prop := first_page r <= i < end_page r.

Definition has_page (o : option MemoryRange) (i : Z) : Prop :=
  match o with Some r => contains_index (range_memory r) i = true | None => False end.

Definition has_flags (o : option MemoryRange) (flags : Z) : Prop :=
  match o with Some r => range_flags r = flags | None => True end.

Lemma segment_pages r : segment r -> 0 <= first_page r < end_page r /\ end_page r * 4096 < LOWER_END.
Proof. intros [Hs He]. unfold first_page, end_page. Z.div_mod_to_equations. lia. Qed.

Lemma segment_end_address r : segment r -> end_address Virtual (range_memory r) = Ok (b_end (range_memory r)).
Proof.
  intros [Hs He]. destruct r as [f [s e]]. cbn [range_memory b_start b_end] in *.
  apply (end_address_ok Virtual); [apply low_block; lia|]. change (SIZE_OF Virtual) with 1.
  cbn [b_end]. rewrite Z.mul_1_r. split; [done|]. apply low_valid. lia.
Qed.

Lemma low_page_from_index i :
  0 <= i -> i * 4096 < LOWER_END -> frage_from_index VirtTag L0_SIZE i = Ok (i * 4096).
Proof.
  intros Hi Hlow. apply frage_from_index_spec; [unfold is_usize; lia|]. split; [done|]. apply low_valid.
  change L0_SIZE with 4096. lia.
Qed.

Lemma low_page_next i :
  0 <= i -> (i + 1) * 4096 < LOWER_END -> frage_add VirtTag L0_SIZE (i * 4096) 1 = Ok ((i + 1) * 4096).
Proof.
  intros Hi Hlow. unfold frage_add. change L0_SIZE with 4096. rewrite usize_mul_ok by (unfold is_usize; lia).
  assert (addr_add VirtTag (i * 4096) (1 * 4096) = Ok ((i + 1) * 4096)) as ->.
  { apply addr_add_spec; [apply low_valid; lia|lia|]. replace (i * 4096 + 1 * 4096) with ((i + 1) * 4096) by lia.
    split; [done|]. split; [apply low_valid; lia|apply low_same_half; lia]. }
  unfold frage_new. change (validate_size 4096) with true. cbn [negb].
  unfold is_multiple_of. cbn [Z.eqb]. by rewrite Z.mod_mul by lia.
Qed.

Lemma low_block_new s e : 0 <= s <= e -> e < LOWER_END -> block_new Virtual s e = Ok (mkBlock s e).
Proof.
  intros Hs He. unfold block_new. rewrite !mem_index_ok. change (SIZE_OF Virtual) with 1. rewrite !Z.div_1_r.
  by apply wf_from_index, low_block.
Qed.

Lemma low_disjoint b1 b2 :
  block_wf Page b1 -> block_wf Page b2 -> b_start b1 < b_end b1 -> b_start b2 < b_end b2 ->
  b_end b1 * 4096 < LOWER_END -> b_end b2 * 4096 < LOWER_END -> 0 <= b_start b1 <= b_start b2 ->
  is_disjoint Page b1 b2 = Ok (b_end b1 <=? b_start b2).
Proof.
  intros H1 H2 Hn1 Hn2 Hl1 Hl2 Ho. unfold is_disjoint, is_empty.
  rewrite (proj2 (Z.eqb_neq (b_start b1) _)), (proj2 (Z.eqb_neq (b_start b2) _)) by lia.
  rewrite !wf_start_address by done. change (SIZE_OF Page) with 4096.
  rewrite (contains_address_spec Page b1); [|done| | |lia]; change (SIZE_OF Page) with 4096; change (mem_tag Page) with VirtTag;
    [|apply low_valid; lia|right; apply low_valid; lia].
  rewrite (proj2 (Z.leb_le _ _)), Z.div_mul by lia. cbn [andb].
  destruct (Z.ltb_spec (b_start b2) (b_end b1)) as [Hlt|Hge].
  { by rewrite (proj2 (Z.leb_gt _ _)) by lia. }
  rewrite (contains_address_spec Page b2); [|done| | |lia]; change (SIZE_OF Page) with 4096; change (mem_tag Page) with VirtTag;
    [|apply low_valid; lia|right; apply low_valid; lia].
  rewrite (proj2 (Z.leb_gt (b_start b2 * 4096) _)) by lia. by rewrite (proj2 (Z.leb_le _ _)) by lia.
Qed.

(** The three cases of [combine]. *)
Section Combine.
  Context (curr next : MemoryRange) (Hc : segment curr) (Hn : segment next).
  Context (Hord : b_end (range_memory curr) <= b_start (range_memory next)).

Let shared := end_page curr - 1.

Lemma combine_cases :
  (end_page curr <= first_page next /\
     combine curr next = Ok (Some (mkRange (range_flags curr) (mkBlock (first_page curr) (end_page curr))), None, next)) \/
  (first_page next = shared /\ exists cmn,
     (cmn = if first_page curr <? shared
            then Some (mkRange (range_flags curr) (mkBlock (first_page curr) shared)) else None) /\
     if end_page curr * 4096 <? b_end (range_memory next) then
       combine curr next = Ok (cmn,
         Some (mkRange (Z.lor (range_flags curr) (range_flags next)) (mkBlock shared (end_page curr))),
         mkRange (range_flags next) (mkBlock (end_page curr * 4096) (b_end (range_memory next))))
     else exists s, shared * 4096 <= s <= b_start (range_memory next) /\
       combine curr next = Ok (cmn, None,
         mkRange (Z.lor (range_flags curr) (range_flags next)) (mkBlock s (b_end (range_memory next))))).
Proof using Hc Hn Hord.
  pose proof (segment_pages curr Hc) as [Hcp Hcl]. pose proof (segment_pages next Hn) as [Hnp Hnl].
  pose proof Hc as [Hcs Hce]. pose proof Hn as [Hns Hne].
  assert (shared <= first_page next /\ first_page curr <= first_page next) as [Hsh Hfp]
    by (unfold shared, first_page, end_page in *; Z.div_mod_to_equations; lia).
  unfold combine, validate_order, block_partial_cmp. rewrite (proj2 (Z.leb_le _ _)) by done.
  rewrite bool_decide_eq_true_2 by done. rewrite !segment_enclosing by done.
  rewrite low_disjoint by (cbn [b_start b_end]; first [apply low_pages; lia|lia]). cbn [b_start b_end].
  destruct (Z.leb_spec (end_page curr) (first_page next)) as [Hle|Hgt]; [by left|right].
  assert (first_page next = shared) as Hshared by (unfold shared in *; lia). split; [done|].
  rewrite Hshared. rewrite (Z.max_r (first_page curr) shared), (Z.min_l (end_page curr) (end_page next)) by (unfold shared in *; lia).
  rewrite usize_sub_ok by (unfold is_usize; lia). fold shared.
  eexists. split; [done|].
  assert ((if first_page curr <? shared then
             let? memory := block_from_index Page (first_page curr) shared in Ok (Some (mkRange (range_flags curr) memory))
           else Ok None) =
          Ok (if first_page curr <? shared
              then Some (mkRange (range_flags curr) (mkBlock (first_page curr) shared)) else None)) as ->.
  { destruct (Z.ltb_spec (first_page curr) shared); [|done].
    by rewrite wf_from_index by (apply low_pages; unfold shared in *; lia). }
  rewrite (proj2 (Z.ltb_lt shared (end_page curr))) by (unfold shared; lia).
  rewrite low_page_from_index by (unfold shared in *; lia).
  rewrite low_page_next by (unfold shared in *; lia).
  rewrite segment_end_address by done. replace (shared + 1) with (end_page curr) by (unfold shared; lia).
  destruct (Z.ltb_spec (end_page curr * 4096) (b_end (range_memory next))) as [Hlt|Hge].
  - rewrite wf_from_index by (apply low_pages; unfold shared in *; lia).
    rewrite low_page_from_index by lia. by rewrite low_block_new by lia.
  - assert (shared * 4096 <= b_start (range_memory next)) as Hss
      by (rewrite <- Hshared; unfold first_page; Z.div_mod_to_equations; lia).
    destruct (Z.ltb_spec (first_page curr) shared) as [Hlt|Hge'].
    + exists (shared * 4096). split; [lia|]. by rewrite low_block_new by lia.
    + assert (shared * 4096 <= b_start (range_memory curr)) as Hsc
        by (replace shared with (first_page curr) by (unfold shared in *; lia);
            unfold first_page; Z.div_mod_to_equations; lia).
      exists (b_start (range_memory curr)). split; [lia|].
      assert (start_address Virtual (range_memory curr) = Ok (b_start (range_memory curr))) as ->.
      { destruct curr as [f [s e]]. cbn [range_memory b_start b_end] in *.
        rewrite wf_start_address by (apply low_block; lia). change (SIZE_OF Virtual) with 1. cbn. by rewrite Z.mul_1_r. }
      by rewrite low_block_new by lia.
Qed.

End Combine.

(** What [combine] guarantees, page by page. *)
Record combined (curr next : MemoryRange) (cmn bnd : option MemoryRange) (upd : MemoryRange) : Prop := {
  co_pages : forall i, touches curr i \/ touches next i <-> has_page cmn i \/ has_page bnd i \/ touches upd i;
  co_below : forall i j, has_page cmn i -> has_page bnd j \/ touches upd j -> i < j;
  co_middle : forall i j, has_page bnd i -> touches upd j -> i < j;
  co_cmn : forall i, has_page cmn i -> touches curr i /\ ~ touches next i;
  co_cmn_flags : has_flags cmn (range_flags curr);
  co_bnd : forall i, has_page bnd i -> touches curr i /\ touches next i;
  co_bnd_flags : has_flags bnd (Z.lor (range_flags curr) (range_flags next));
  co_upd : (forall i, touches upd i -> touches next i /\ touches curr i) /\
             range_flags upd = Z.lor (range_flags curr) (range_flags next) \/
           (forall i, touches upd i -> touches next i /\ ~ touches curr i) /\ range_flags upd = range_flags next;
  co_segment : segment upd;
  co_end : b_end (range_memory upd) = b_end (range_memory next);
}.

Lemma combine_spec curr next :
  segment curr -> segment next -> b_end (range_memory curr) <= b_start (range_memory next) ->
  exists cmn bnd upd, combine curr next = Ok (cmn, bnd, upd) /\ combined curr next cmn bnd upd.
Proof.
  intros Hc Hn Hord. pose proof (segment_pages curr Hc) as [Hcp Hcl]. pose proof (segment_pages next Hn) as [Hnp Hnl].
  pose proof Hc as [Hcs Hce]. pose proof Hn as [Hns Hne].
  assert (end_page curr - 1 <= first_page next /\ first_page curr <= first_page next /\ end_page curr <= end_page next) as (Hsh & Hfp & Hep)
    by (unfold first_page, end_page in *; Z.div_mod_to_equations; lia).
  destruct (combine_cases curr next Hc Hn Hord) as [[Hd E]|(Hs & cmn & Hcmn & E)].
  - eexists _, _, _. split; [exact E|].
    split; unfold touches, has_page, has_flags; cbn [range_memory range_flags]; try setoid_rewrite contains_index_iff;
      cbn [b_start b_end]; try done; try lia. right. split; [lia|done].
  - assert (forall i, has_page cmn i <-> first_page curr <= i < end_page curr - 1) as Hin.
    { intros i. subst cmn. destruct (Z.ltb_spec (first_page curr) (end_page curr - 1)); unfold has_page;
        [|lia]. cbn [range_memory]. rewrite contains_index_iff. done. }
    assert (has_flags cmn (range_flags curr)) as Hfl by (subst cmn; by destruct (_ <? _)).
    destruct (Z.ltb_spec (end_page curr * 4096) (b_end (range_memory next))) as [Hlt|Hge].
    + eexists _, _, _. split; [exact E|].
      set (upd := mkRange (range_flags next) (mkBlock (end_page curr * 4096) (b_end (range_memory next)))).
      assert (first_page upd = end_page curr /\ end_page upd = end_page next) as [Hf He]
        by (unfold first_page, upd; cbn [range_memory b_start]; by rewrite Z.div_mul).
      split; unfold touches, has_flags; try setoid_rewrite Hin; rewrite ?Hf, ?He; unfold has_page; cbn [range_memory];
        try setoid_rewrite contains_index_iff; cbn [b_start b_end]; try done; try lia.
      * right. split; [lia|done].
      * split; cbn [upd range_memory b_start b_end]; lia.
    + destruct E as (s & Hs' & E). eexists _, _, _. split; [exact E|].
      set (upd := mkRange (Z.lor (range_flags curr) (range_flags next)) (mkBlock s (b_end (range_memory next)))).
      assert (first_page upd = end_page curr - 1 /\ end_page upd = end_page curr /\ end_page next = end_page curr) as (Hf & He & He').
      { unfold first_page, end_page, upd in *. cbn [range_memory b_start b_end]. Z.div_mod_to_equations. lia. }
      split; unfold touches, has_flags; try setoid_rewrite Hin; rewrite ?Hf, ?He; unfold has_page; try done; try lia.
      * left. split; [lia|done].
      * split; cbn [upd range_memory b_start b_end]; lia.
Qed.

(** ** The scan over all segments

    The way [Loader::load_program_header] and [Loader::finish] use [combine]: the
    finished ranges, in the order [finalize_mapping] receives them. *)

Fixpoint scan (curr : MemoryRange) (segments : list MemoryRange) : outcome (list MemoryRange) :=
  match segments with
  | [] => let? range := page_range_of curr in Ok [range]
  | next :: segments =>
      let? (curr_minus_next, boundary, updated_next) := combine curr next in
      let? rest := scan updated_next segments in
      Ok (option_list curr_minus_next ++ option_list boundary ++ rest)
  end.

(** The flags of all segments that touch a page. *)
Fixpoint flags_at (segments : list MemoryRange) (i : Z) : Z :=
  match segments with
  | [] => 0
  | r :: segments =>
      Z.lor (if bool_decide (first_page r <= i < end_page r) then range_flags r else 0) (flags_at segments i)
  end.

Fixpoint ordered (curr : MemoryRange) (segments : list MemoryRange) : Prop :=
  match segments with
  | [] => True
  | next :: segments => b_end (range_memory curr) <= b_start (range_memory next) /\ ordered next segments
  end.

Definition range_has (r : MemoryRange) (i : Z) : Prop := contains_index (range_memory r) i = true.

Definition before (r s : MemoryRange) : Prop := forall i j, range_has r i -> range_has s j -> i < j.

(** Later segments touch only pages from the last page of the current one on. *)
Lemma later_pages curr segments s i :
  segment curr -> Forall segment segments -> ordered curr segments -> s ∈ segments -> touches s i ->
  first_page curr <= i /\ b_end (range_memory curr) / 4096 <= i.
Proof.
  revert curr. induction segments as [|next segments IH]; intros curr Hc Hall Hord Hin Ht; [by apply not_elem_of_nil in Hin|].
  apply list.Forall_cons in Hall as [Hn Hall]. destruct Hord as [Ho Hord].
  assert (first_page curr <= b_end (range_memory curr) / 4096 <= first_page next) as Hpages.
  { destruct Hc as [Hcs _]. unfold first_page. split; apply Z.div_le_mono; lia. }
  apply elem_of_cons in Hin as [->|Hin]; [unfold touches in Ht; lia|].
  destruct (IH next Hn Hall Hord Hin Ht). lia.
Qed.

Lemma flags_at_none segments i : (forall s, s ∈ segments -> ~ touches s i) -> flags_at segments i = 0.
Proof.
  induction segments as [|s segments IH]; intros H; [done|]. cbn [flags_at].
  rewrite bool_decide_eq_false_2 by (apply H; left). rewrite IH; [done|]. intros x Hx. apply H. by right.
Qed.

Lemma ordered_same_end a b segments :
  b_end (range_memory a) = b_end (range_memory b) -> ordered b segments -> ordered a segments.
Proof. destruct segments as [|s segments]; [done|]. intros E [Ho Hr]. split; [lia|done]. Qed.

(** The flags of the segments before and after a step of the scan agree on the pages
    that are left, and the finished pages are not touched later. *)
Section ScanStep.
  Context (curr next : MemoryRange) (segments : list MemoryRange).
  Context (cmn bnd : option MemoryRange) (upd : MemoryRange).
  Context (Hall : Forall segment segments) (Hord : ordered next segments) (Hco : combined curr next cmn bnd upd).

Lemma upd_touches_first : touches upd (first_page upd).
Proof using Hco. pose proof (segment_pages upd (co_segment _ _ _ _ _ Hco)). unfold touches. lia. Qed.

Lemma finished_below i : has_page cmn i \/ has_page bnd i -> i < first_page upd.
Proof using Hco.
  intros [H|H]; [apply (co_below _ _ _ _ _ Hco i _ H); right|apply (co_middle _ _ _ _ _ Hco i _ H)];
    apply upd_touches_first.
Qed.

Lemma later_above s i : s ∈ segments -> touches s i -> first_page upd <= i.
Proof using Hall Hord Hco.
  intros Hs Ht. apply (later_pages upd segments s i); [apply (co_segment _ _ _ _ _ Hco)|done| |done|done].
  apply (ordered_same_end upd next); [apply (co_end _ _ _ _ _ Hco)|done].
Qed.

Lemma finished_flags i :
  has_page cmn i \/ has_page bnd i ->
  flags_at (curr :: next :: segments) i =
    Z.lor (if bool_decide (first_page curr <= i < end_page curr) then range_flags curr else 0)
          (if bool_decide (first_page next <= i < end_page next) then range_flags next else 0).
Proof using Hall Hord Hco.
  intros Hi. cbn [flags_at]. rewrite (flags_at_none segments i), Z.lor_0_r; [done|].
  intros s Hs Ht. pose proof (finished_below i Hi). pose proof (later_above s i Hs Ht). lia.
Qed.

Lemma remaining_flags i :
  first_page upd <= i -> flags_at (upd :: segments) i = flags_at (curr :: next :: segments) i.
Proof using Hco.
  intros Hi. cbn [flags_at]. rewrite Z.lor_assoc. f_equal.
  assert (touches curr i \/ touches next i -> touches upd i) as Hback.
  { intros H%(co_pages _ _ _ _ _ Hco). destruct H as [H|[H|H]]; [|..|done];
      [pose proof (finished_below i (or_introl H))|pose proof (finished_below i (or_intror H))]; lia. }
  unfold touches in *. destruct (co_upd _ _ _ _ _ Hco) as [[Hu ->]|[Hu ->]]; unfold touches in Hu;
    case_bool_decide as Htu.
  - destruct (Hu i Htu) as [H1 H2]. by rewrite !bool_decide_eq_true_2.
  - rewrite !bool_decide_eq_false_2; [done|tauto|tauto].
  - destruct (Hu i Htu) as [H1 H2]. by rewrite bool_decide_eq_false_2, bool_decide_eq_true_2.
  - rewrite !bool_decide_eq_false_2; [done|tauto|tauto].
Qed.

Lemma step_pages i :
  (exists s, s ∈ curr :: next :: segments /\ touches s i) <->
  has_page cmn i \/ has_page bnd i \/ exists s, s ∈ upd :: segments /\ touches s i.
Proof using Hco.
  pose proof (co_pages _ _ _ _ _ Hco i) as Hp. split.
  - intros (s & Hs & Ht). rewrite !elem_of_cons in Hs. destruct Hs as [->|[->|Hs]];
      [destruct (proj1 Hp (or_introl Ht)) as [?|[?|?]]|destruct (proj1 Hp (or_intror Ht)) as [?|[?|?]]|]; auto;
      right; right; [exists upd|exists upd|exists s]; (split; [|done]); rewrite elem_of_cons; auto.
  - assert (touches curr i \/ touches next i -> exists s, s ∈ curr :: next :: segments /\ touches s i) as Hex.
    { intros [?|?]; [exists curr|exists next]; rewrite !elem_of_cons; auto. }
    intros [H|[H|(s & Hs & Ht)]]; [apply Hex, Hp; auto..|].
    apply elem_of_cons in Hs as [->|Hs]; [apply Hex, Hp; auto|]. exists s. rewrite !elem_of_cons. auto.
Qed.

End ScanStep.

(** What the finished ranges are for the segments they come from. *)
Record scanned (segments : list MemoryRange) (ranges : list MemoryRange) : Prop := {
  sc_pages : forall i, (exists s, s ∈ segments /\ touches s i) <-> exists r, r ∈ ranges /\ range_has r i;
  sc_flags : forall r i, r ∈ ranges -> range_has r i -> range_flags r = flags_at segments i;
  sc_sorted : StronglySorted before ranges;
}.

Lemma scan_last curr :
  segment curr ->
  exists ranges, scan curr [] = Ok ranges /\ scanned [curr] ranges /\
    forall r i, r ∈ ranges -> range_has r i -> first_page curr <= i.
Proof.
  intros Hc. cbn [scan].
  unfold page_range_of. rewrite segment_enclosing by done. eexists. split; [done|]. unfold range_has. split; [split|].
  - intros i. split.
    + intros (s & ->%list_elem_of_singleton & Ht). eexists. split; [left|]. by apply contains_index_iff.
    + intros (r & ->%list_elem_of_singleton & Hr). exists curr. split; [left|]. by apply contains_index_iff in Hr.
  - intros r i ->%list_elem_of_singleton Hr%contains_index_iff. cbn [flags_at range_flags].
    rewrite bool_decide_eq_true_2 by done. by rewrite Z.lor_0_r.
  - repeat constructor.
  - intros r i ->%list_elem_of_singleton Hr%contains_index_iff. cbn in Hr. lia.
Qed.

Lemma segments_scan_spec segments curr :
  segment curr -> Forall segment segments -> ordered curr segments ->
  exists ranges, scan curr segments = Ok ranges /\ scanned (curr :: segments) ranges /\
    forall r i, r ∈ ranges -> range_has r i -> first_page curr <= i.
Proof.
  revert curr. induction segments as [|next segments IH]; intros curr Hc Hall Hord; cbn [scan].
  { by apply scan_last. }
  apply list.Forall_cons in Hall as [Hn Hall]. destruct Hord as [Ho Hord].
  destruct (combine_spec curr next Hc Hn Ho) as (cmn & bnd & upd & -> & Hco).
  destruct (IH upd (co_segment _ _ _ _ _ Hco) Hall) as (ranges & -> & Hsc & Hlow).
  { apply (ordered_same_end upd next); [apply (co_end _ _ _ _ _ Hco)|done]. }
  assert (forall o : option MemoryRange, forall r, r ∈ option_list o <-> o = Some r) as Hopt.
  { intros [x|] r; cbn; [rewrite list_elem_of_singleton|rewrite elem_of_nil]; split; congruence || done. }
  eexists. split; [done|]. split; [split|].
  - intros i. setoid_rewrite elem_of_app. setoid_rewrite elem_of_app. setoid_rewrite Hopt.
    rewrite (step_pages curr next segments cmn bnd upd Hco), (sc_pages _ _ Hsc i). unfold has_page, range_has. split.
    + intros [H|[H|(r & Hr & H)]]; [destruct cmn as [r|]; [|done]|destruct bnd as [r|]; [|done]|]; exists r; auto.
    + intros (r & [->|[->|Hr]] & H); eauto.
  - intros r i. rewrite !elem_of_app, !Hopt. intros [Hr|[Hr|Hr]] Hi.
    + assert (has_page cmn i) as Hp by (by rewrite Hr).
      rewrite (finished_flags curr next segments cmn bnd upd) by auto.
      destruct (co_cmn _ _ _ _ _ Hco i Hp) as [H1 H2]. pose proof (co_cmn_flags _ _ _ _ _ Hco) as Hf. rewrite Hr in Hf.
      rewrite bool_decide_eq_true_2, bool_decide_eq_false_2 by done. by rewrite Z.lor_0_r.
    + assert (has_page bnd i) as Hp by (by rewrite Hr).
      rewrite (finished_flags curr next segments cmn bnd upd) by auto.
      destruct (co_bnd _ _ _ _ _ Hco i Hp) as [H1 H2]. pose proof (co_bnd_flags _ _ _ _ _ Hco) as Hf. rewrite Hr in Hf.
      by rewrite !bool_decide_eq_true_2.
    + rewrite <- (remaining_flags curr next segments cmn bnd upd) by (done || by apply (Hlow r)).
      by apply (sc_flags _ _ Hsc).
  - assert (forall o r, o = Some r -> has_page o = range_has r) as Hhp by (by intros o r ->).
    assert (StronglySorted before (option_list bnd ++ ranges)) as Hb.
    { destruct bnd as [r|]; [|apply (sc_sorted _ _ Hsc)]. constructor; [apply (sc_sorted _ _ Hsc)|].
      apply list.Forall_forall. intros x Hx i j Hi Hj. pose proof (Hlow x j Hx Hj).
      pose proof (finished_below curr next cmn (Some r) upd Hco i (or_intror Hi)). lia. }
    destruct cmn as [r|]; [|done]. constructor; [done|]. apply list.Forall_forall. intros x Hx i j Hi Hj.
    apply elem_of_app in Hx as [Hx|Hx].
    + apply Hopt in Hx as ->. apply (co_below _ _ _ _ _ Hco i j Hi). by left.
    + pose proof (Hlow x j Hx Hj). pose proof (finished_below curr next (Some r) bnd upd Hco i (or_introl Hi)). lia.
  - intros r i. rewrite !elem_of_app, !Hopt. intros [->|[->|Hr]] Hi.
    + apply (co_cmn _ _ _ _ _ Hco i Hi).
    + apply (co_bnd _ _ _ _ _ Hco i Hi).
    + pose proof (Hlow r i Hr Hi). pose proof (segment_pages curr Hc). pose proof (segment_pages upd (co_segment _ _ _ _ _ Hco)).
      destruct (proj2 (co_pages _ _ _ _ _ Hco (first_page upd))) as [Ht|Ht]; [do 2 right; by apply (upd_touches_first curr next cmn bnd)|..];
        unfold touches in Ht; [lia|]. assert (first_page curr <= first_page next); [|lia].
      destruct Hc as [Hcs _]. unfold first_page. apply Z.div_le_mono; lia.
Qed.

(** ** Headers *)

Definition writes (ph_flags : Z) : bool := Z.testbit ph_flags 1.
Definition executes (ph_flags : Z) : bool := Z.testbit ph_flags 0.

Lemma land_pow2 x n : 0 <= n -> Z.land x (2 ^ n) = if Z.testbit x n then 2 ^ n else 0.
Proof.
  intros Hn. apply Z.bits_inj'. intros m Hm. rewrite Z.land_spec, Z.pow2_bits_eqb by done.
  destruct (Z.eqb_spec n m) as [->|Hne].
  - destruct (Z.testbit x m); [by rewrite Z.pow2_bits_true|by rewrite Z.bits_0].
  - rewrite andb_false_r. destruct (Z.testbit x n); [by rewrite Z.pow2_bits_false|by rewrite Z.bits_0].
Qed.

Lemma flags_try_from_spec f :
  flags_try_from f =
    if writes f && executes f then Err PermissionDenied
    else Ok (if writes f then Z.lor PageTableFlags.PRESENT PageTableFlags.WRITABLE
             else if executes f then Z.lor PageTableFlags.PRESENT PageTableFlags.EXECUTABLE
             else PageTableFlags.PRESENT).
Proof.
  unfold flags_try_from, writes, executes.
  assert (Z.land f FLAG_X = if Z.testbit f 0 then 1 else 0) as HX by apply (land_pow2 f 0 ltac:(lia)).
  assert (Z.land f FLAG_W = if Z.testbit f 1 then 2 else 0) as HW by apply (land_pow2 f 1 ltac:(lia)).
  assert (Z.land f (Z.lor FLAG_W FLAG_X) = Z.lor (Z.land f FLAG_W) (Z.land f FLAG_X)) as -> by apply Z.land_lor_distr_r.
  cbn [foldl]. rewrite HX, HW, Z.lxor_0_r.
  destruct (Z.testbit f 1), (Z.testbit f 0), (negb (Z.land f FLAG_R =? 0)); done.
Qed.

(** The end of a segment, and the block it forms with its start. *)
Lemma header_end start size :
  canonical start -> 0 <= size ->
  match addr_add VirtTag start size with
  | Ok e => e = start + size /\ block_wf Virtual (mkBlock start (start + size)) /\
      block_new Virtual start e = Ok (mkBlock start (start + size))
  | Err e => e = InvalidArgument \/ e = Overflow
  | Panic => False
  end.
Proof.
  intros Hs Hsize. apply virt_valid_iff in Hs. destruct (addr_add VirtTag start size) as [e|e|] eqn:E.
  - apply addr_add_spec in E as (-> & He & Hh); [|done|done]. split; [done|].
    assert (start <= last_index (mkBlock start (start + size)) <= start + size) as Hl
      by (unfold last_index; cbn [b_start b_end]; destruct (Z.ltb_spec start (start + size)); lia).
    destruct (half_convex start _ _ Hs He Hh Hl) as [Hv Hh'].
    assert (block_wf Virtual (mkBlock start (start + size))) as Hb.
    { split; cbn [b_start b_end]; change (SIZE_OF Virtual) with 1; rewrite ?Z.mul_1_r; [|lia|done|done|done].
      split; [apply (valid_usize _ Hs)|apply (valid_usize _ He)]. }
    split; [done|]. unfold block_new. rewrite !mem_index_ok. change (SIZE_OF Virtual) with 1. rewrite !Z.div_1_r.
    by apply wf_from_index.
  - unfold addr_add, check_half in E. destruct (checked_add start size) as [x|]; [cbn in E|injection E as <-; auto].
    unfold addr_new in E. destruct (tag_new_cases (T := VirtTag) x) as [E'|E']; change (tag_new VirtTag x) with (Virt.new_impl x) in *;
      rewrite E' in E; [|injection E as <-; auto]. destruct (Virt.same_half _ _); [done|injection E as <-; auto].
  - unfold addr_add, check_half in E. destruct (checked_add start size) as [x|]; [cbn in E|done].
    unfold addr_new in E. destruct (tag_new_cases (T := VirtTag) x) as [E'|E']; change (tag_new VirtTag x) with (Virt.new_impl x) in *;
      rewrite E' in E; [|done]. by destruct (Virt.same_half _ _).
Qed.

(** ** Theorems *)

(** The scan over the segments of an executable.  For non-empty segments of the
    lower half in increasing order, the ranges of pages the loader maps are in
    increasing order and do not overlap, they cover exactly the pages touched by
    some segment, and the flags of each page are the union of the flags of the
    segments that touch it, also when several segments share a page. *)
Theorem elf_scan_correct curr segments :
  segment curr -> Forall segment segments -> ordered curr segments ->
  exists ranges, scan curr segments = Ok ranges /\ scanned (curr :: segments) ranges.
Proof.
  intros Hc Hall Hord. destruct (segments_scan_spec segments curr Hc Hall Hord) as (ranges & E & Hs & _). eauto.
Qed.

(** One step of the scan.  Segments that overlap or are out of order are refused
    with [InvalidArgument].  Otherwise the pages of both are divided, in increasing
    order, into pages of the first segment alone with its flags, at most one shared
    page with the flags of both that no later segment can touch, and the pages that
    stay open, with the flags of the second segment or of both. *)
Theorem combine_correct curr next :
  segment curr -> segment next ->
  (b_start (range_memory next) < b_end (range_memory curr) /\ combine curr next = Err InvalidArgument) \/
  (b_end (range_memory curr) <= b_start (range_memory next) /\
   exists cmn bnd upd, combine curr next = Ok (cmn, bnd, upd) /\ combined curr next cmn bnd upd).
Proof.
  intros Hc Hn. destruct (Z.le_gt_cases (b_end (range_memory curr)) (b_start (range_memory next))) as [Hle|Hgt].
  - right. split; [done|]. by apply combine_spec.
  - left. split; [done|]. unfold combine, validate_order, block_partial_cmp.
    rewrite (proj2 (Z.leb_gt _ _)) by done. destruct (_ <=? _); [done|]. by destruct (decide _).
Qed.

(** C36.  A program header.  A segment that is both writable and executable is refused
    with [PermissionDenied]; a segment larger in the file than in memory with
    [Overflow].  An accepted header yields exactly its range of the file and a
    well-formed block of exactly its addresses, mapped present and writable or
    executable as the header says.  No header makes the conversion panic. *)
Theorem file_range_exact h :
  is_usize (ph_offset h) -> is_usize (ph_virtual_addr h) -> is_usize (ph_file_size h) -> is_usize (ph_mem_size h) ->
  match file_range_try_from h with
  | Ok r =>
      (writes (ph_flags h) && executes (ph_flags h)) = false /\ ph_file_size h <= ph_mem_size h /\
      file_start r = ph_offset h /\ file_end r = ph_offset h + ph_file_size h /\ is_usize (file_end r) /\
      range_memory (virt_range r) = mkBlock (ph_virtual_addr h) (ph_virtual_addr h + ph_mem_size h) /\
      block_wf Virtual (range_memory (virt_range r)) /\
      PageTableFlags.is_present (range_flags (virt_range r)) = true /\
      PageTableFlags.is_writable (range_flags (virt_range r)) = writes (ph_flags h) /\
      PageTableFlags.is_executable (range_flags (virt_range r)) = executes (ph_flags h)
  | Err e =>
      (writes (ph_flags h) && executes (ph_flags h) = true /\ e = PermissionDenied) \/
      (ph_mem_size h < ph_file_size h /\ e = Overflow) \/
      ((writes (ph_flags h) && executes (ph_flags h)) = false /\ (e = InvalidArgument \/ e = Overflow))
  | Panic => False
  end.
Proof.
  intros Ho Hv Hf Hm. unfold file_range_try_from. rewrite flags_try_from_spec.
  destruct (writes (ph_flags h) && executes (ph_flags h)) eqn:Ewx; [by left|].
  destruct (Z.ltb_spec (ph_mem_size h) (ph_file_size h)) as [Hlt|Hge]; [auto|].
  destruct (addr_new VirtTag (ph_virtual_addr h)) as [s|e|] eqn:Es.
  - assert (s = ph_virtual_addr h /\ canonical s) as [-> Hs].
    { apply tag_new_ok_inv in Es as Heq. split; [done|]. apply virt_valid_iff. by subst. }
    pose proof (header_end (ph_virtual_addr h) (ph_mem_size h) Hs (proj1 Hm)) as Hend.
    destruct (addr_add VirtTag (ph_virtual_addr h) (ph_mem_size h)) as [e|e|]; [|by right; right|done].
    destruct Hend as (-> & Hb & ->).
    unfold checked_add. destruct (fits_usize (ph_offset h + ph_file_size h)) eqn:Ef; [|by right; right; auto].
    cbn [ok_or virt_range file_start file_end range_memory range_flags]. apply fits_usize_true in Ef.
    do 7 (split; [done|]).
    destruct (writes (ph_flags h)), (executes (ph_flags h)); done.
  - right. right. split; [done|left]. destruct (tag_new_cases (T := VirtTag) (ph_virtual_addr h)) as [E|E];
      unfold addr_new in Es; congruence.
  - destruct (tag_new_cases (T := VirtTag) (ph_virtual_addr h)) as [E|E]; unfold addr_new in Es; congruence.
Qed.

(** ** Witnesses *)

(** A code segment and two data segments that share a page. *)
Definition sample_code : MemoryRange := mkRange PageTableFlags.EXECUTABLE (mkBlock 4196 9000).
Definition sample_data : MemoryRange := mkRange PageTableFlags.WRITABLE (mkBlock 9000 9100).
Definition sample_bss : MemoryRange := mkRange PageTableFlags.PRESENT (mkBlock 9200 20000).

Lemma elf_scan_correct_witness :
  exists ranges, scan sample_code [sample_data; sample_bss] = Ok ranges /\
    scanned [sample_code; sample_data; sample_bss] ranges /\ length ranges = 3%nat.
Proof.
  destruct (elf_scan_correct sample_code [sample_data; sample_bss]) as (ranges & H & Hs).
  - unfold segment. cbn. lia.
  - repeat constructor; cbn; lia.
  - cbn. lia.
  - exists ranges. split; [exact H|]. split; [exact Hs|]. vm_compute in H. injection H as <-. reflexivity.
Defined.

Lemma combine_correct_witness :
  exists cmn bnd upd, combine sample_code sample_data = Ok (cmn, bnd, upd) /\
    combined sample_code sample_data cmn bnd upd.
Proof.
  destruct (combine_correct sample_code sample_data) as [[H _]|[_ H]]; [unfold segment; cbn; lia..| |exact H].
  cbn in H. lia.
Defined.

Lemma file_range_exact_witness :
  exists r, file_range_try_from (mkHeader 5 64 4096 100 200) = Ok r /\
    range_memory (virt_range r) = mkBlock 4096 4296 /\ file_end r = 164.
Proof.
  pose proof (file_range_exact (mkHeader 5 64 4096 100 200)) as H.
  assert (is_ok (file_range_try_from (mkHeader 5 64 4096 100 200)) = true) as Hok by reflexivity.
  destruct (file_range_try_from (mkHeader 5 64 4096 100 200)) as [r|e|]; [|discriminate Hok..].
  destruct H as (_ & _ & _ & He & _ & Hm & _); [unfold is_usize; cbn; lia..|].
  exists r. split; [reflexivity|]. split; [exact Hm|exact He].
Defined.
