(* ===== verification/BigAllocator.v ===== *)
(** * BigAllocator: the interface of page-granular allocators

    Models the traits of [ku/src/allocator/big.rs] and [ku/src/allocator/dry.rs]:
    the operations a page allocator offers to the allocators built on it, what
    they promise, and the methods the trait defines in terms of the others.  The
    contents of memory are not part of the interface, so the initialisation of a
    block is the check that its bytes form a slice. *)

From Stdlib Require Import ZArith Lia.
From stdpp Require Import base list numbers tactics.
From S2P Require Import Prelude Addr Frage Block Mmu PageAllocator.

Open Scope Z_scope.
Open Scope outcome_scope.

(** ** Operations *)

(** The required methods of the trait [BigAllocator], for an allocator whose state is
    in [S].  The method [get] of [BigAllocatorGuard] returns that allocator. *)
Class BigAllocator (S : Type) := {
  big_flags : S -> Z;
  big_set_flags : Z -> M S unit;
  big_reserve : Layout -> M S Block;
  big_reserve_fixed : Block -> M S unit;
  big_unreserve : Block -> M S unit;
  big_rereserve : Block -> Block -> M S unit;
  big_map : Block -> Z -> M S unit;
  big_unmap : Block -> M S unit;
  big_copy_mapping : Block -> Block -> option Z -> M S unit;
}.

Inductive Initialize := Garbage | Zero.

#[export] Instance Initialize_eq_dec : EqDecision Initialize.
Proof. solve_decision. Defined.

(** [try_into_block]. *)
Definition try_into_block (ptr : Z) (layout : Layout) : outcome Block :=
  if negb (ptr mod L0_SIZE =? 0) then Err InvalidAlignment
  else
    let? end_virt := addr_add VirtTag ptr (layout_size layout) in
    let? block_virt := block_new Virtual ptr end_virt in
    enclosing VirtTag block_virt.

(** [initialize_block]. *)
Definition initialize_block (block : Block) (initialize : Initialize) : outcome unit :=
  if decide (initialize = Zero) then
    let? _ := block_try_into_slice Page block 1 1 in Ok tt
  else Ok tt.

Section Methods.
  Context {S : Type} `{BigAllocator S}.

(** The flags of the allocator in its current state. *)
Definition flagsM : M S Z := fun s => (s, Ok (big_flags s)).

(** The last part of [grow] and [dry_grow]: move the block to a new place. *)
Definition relocate (old_block : Block) (new_layout : Layout) (flags : Z) (initialize : Initialize) : M S Block :=
  let! allocated_block := big_reserve new_layout in
  let! old_count := liftM (count old_block) in
  let! allocated_count := liftM (count allocated_block) in
  let copy_count := Z.min old_count allocated_count in
  let! copy_end := liftM (usize_add (b_start allocated_block) copy_count) in
  let! copy_block := liftM (block_from_index Page (b_start allocated_block) copy_end) in
  let! _ := big_copy_mapping old_block copy_block None in
  let! _ :=
    (if old_count <? allocated_count then
       let! new_additional_start := liftM (usize_add (b_start allocated_block) old_count) in
       let! new_additional_block := liftM (block_from_index Page new_additional_start (b_end allocated_block)) in
       let! _ := big_map new_additional_block flags in
       liftM (initialize_block new_additional_block initialize)
     else retM tt) in
  let! _ := big_unmap old_block in
  let! _ := big_unreserve old_block in
  retM allocated_block.

(** [BigAllocator::grow]. *)
Definition grow (old_block : Block) (new_layout : Layout) (flags : Z) : M S Block :=
  let! old_size := liftM (size Page old_block) in
  if layout_size new_layout <? old_size then liftM Panic
  else if is_empty old_block then
    let! new_block := big_reserve new_layout in
    let! _ := big_map new_block flags in
    retM new_block
  else
    let! bytes := liftM (usize_add (layout_size new_layout) L0_SIZE) in
    let! bytes := liftM (usize_sub bytes 1) in
    let new_page_count := bytes / L0_SIZE in
    let! new_end := liftM (usize_add (b_start old_block) new_page_count) in
    let! new_block := liftM (block_from_index Page (b_start old_block) new_end) in
    let! old_count := liftM (count old_block) in
    let! new_count := liftM (count new_block) in
    if old_count =? new_count then retM old_block
    else
      let! additional_block := liftM (block_from_index Page (b_end old_block) (b_end new_block)) in
      let! reserved := succeeds (big_reserve_fixed additional_block) in
      if reserved : bool then
        let! _ := big_map additional_block flags in
        retM new_block
      else relocate old_block new_layout flags Garbage.

(** The blanket implementation of [DryAllocator]; a pointer to a slice is its address
    and length. *)
Definition dry_allocate (layout : Layout) (initialize : Initialize) : M S (Z * Z) :=
  let! block := big_reserve layout in
  let! flags := flagsM in
  let! _ := big_map block flags in
  let! _ := liftM (initialize_block block initialize) in
  liftM (block_try_into_non_null_slice Page block 1 1).

Definition dry_deallocate (ptr : Z) (layout : Layout) : M S unit :=
  let! block := liftM (unwrap (try_into_block ptr layout)) in
  let! _ := expectM (big_unmap block) in
  expectM (big_unreserve block).

Definition dry_grow (ptr : Z) (old_layout new_layout : Layout) (initialize : Initialize) : M S (Z * Z) :=
  let! old_block := liftM (try_into_block ptr old_layout) in
  let! new_block := liftM (try_into_block ptr new_layout) in
  let! old_count := liftM (count old_block) in
  let! new_count := liftM (count new_block) in
  if old_count =? new_count then liftM (block_try_into_non_null_slice Page new_block 1 1)
  else
    let! additional_block := liftM (block_from_index Page (b_end old_block) (b_end new_block)) in
    let! reserved := succeeds (big_reserve_fixed additional_block) in
    let! flags := flagsM in
    if reserved : bool then
      let! _ := big_map additional_block flags in
      let! _ := liftM (initialize_block additional_block initialize) in
      liftM (block_try_into_non_null_slice Page new_block 1 1)
    else
      let! allocated_block := relocate old_block new_layout flags initialize in
      liftM (block_try_into_non_null_slice Page allocated_block 1 1).

Definition dry_shrink (ptr : Z) (old_layout new_layout : Layout) : M S (Z * Z) :=
  let! old_block := liftM (try_into_block ptr old_layout) in
  let! new_block := liftM (try_into_block ptr new_layout) in
  let! old_count := liftM (count old_block) in
  let! new_count := liftM (count new_block) in
  if old_count =? new_count then liftM (block_try_into_non_null_slice Page new_block 1 1)
  else
    let! tail_block := liftM (block_from_index Page (b_end new_block) (b_end old_block)) in
    let! _ := big_unmap tail_block in
    let! _ := big_rereserve old_block new_block in
    liftM (block_try_into_non_null_slice Page new_block 1 1).

End Methods.

(** ** What the interface promises *)

(** The view of an allocator that its clients rely on: an invariant, the pages that are
    handed out, and what each page is mapped to. *)
Class BigView (S : Type) := {
  big_wf : S -> Prop;
  taken : S -> Z -> Prop;
  backing : S -> Z -> option (Z * Z);
}.

Definition inside (b : Block) (page : Z) : Prop := b_start b <= page < b_end b.

#[export] Instance inside_dec b page : Decision (inside b page).
Proof. unfold inside. apply _. Defined.

(** The pages of the lower half of the address space. *)
Abbreviation LOWER_HALF_PAGES := 34359738368.

Definition usable_flags (flags : Z) : Prop := is_flags flags /\ PageTableFlags.is_huge flags = false.

Section Laws.
  Context (S : Type) `{BigAllocator S} `{BigView S}.

(** An operation that hands out and takes back no pages and changes only what the pages of
    [region] are mapped to. *)
Record remaps (region : Z -> Prop) (s s' : S) : Prop := {
  remaps_wf : big_wf s';
  remaps_flags : big_flags s' = big_flags s;
  remaps_taken : forall p, taken s' p <-> taken s p;
  remaps_backing : forall p, ~ region p -> backing s' p = backing s p;
}.

(** An operation that changes which pages of [region] are handed out, and no mapping. *)
Record retakes (region : Z -> Prop) (s s' : S) : Prop := {
  retakes_wf : big_wf s';
  retakes_flags : big_flags s' = big_flags s;
  retakes_taken : forall p, ~ region p -> taken s' p <-> taken s p;
  retakes_backing : forall p, backing s' p = backing s p;
}.

(** The frame of page [p] is the frame of no other page. *)
Definition sole_owner (s : S) (p : Z) : Prop :=
  forall q f fl f' fl', q <> p -> backing s p = Some (f, fl) -> backing s q = Some (f', fl') -> f <> f'.

Definition block_nonempty (b : Block) : Prop := block_wf Page b /\ b_start b < b_end b.

Class BigAllocatorLaws : Prop := {
  taken_range s p : big_wf s -> taken s p -> 0 < p < LOWER_HALF_PAGES;
  flags_usable s : big_wf s -> usable_flags (big_flags s);

  set_flags_law s flags : big_wf s -> usable_flags flags ->
    PageTableFlags.is_user flags = PageTableFlags.is_user (big_flags s) ->
    exists s', (big_set_flags flags s = (s', Ok tt) /\ big_flags s' = flags \/
                big_set_flags flags s = (s', Err PermissionDenied) /\ big_flags s' = big_flags s) /\
      big_wf s' /\ (forall p, taken s' p <-> taken s p) /\ forall p, backing s' p = backing s p;

  reserve_law s l : big_wf s -> layout_valid l ->
    (exists s' b, big_reserve l s = (s', Ok b) /\ block_wf Page b /\
       b_end b - b_start b = pages_of l /\ (layout_align l | b_start b * L0_SIZE) /\
       retakes (fun p => ~ taken s p) s s' /\
       forall p, inside b p -> ~ taken s p /\ taken s' p /\ backing s p = None) \/
    (exists s' e, big_reserve l s = (s', Err e) /\ retakes (fun _ => False) s s');

  reserve_fixed_law s b : big_wf s -> block_nonempty b ->
    (exists s', big_reserve_fixed b s = (s', Ok tt) /\ retakes (fun p => ~ taken s p) s s' /\
       forall p, inside b p -> ~ taken s p /\ taken s' p /\ backing s p = None) \/
    (exists s' e, big_reserve_fixed b s = (s', Err e) /\ retakes (fun _ => False) s s');

  unreserve_law s b : big_wf s -> block_nonempty b ->
    (forall p, inside b p -> taken s p /\ backing s p = None) ->
    exists s', big_unreserve b s = (s', Ok tt) /\ retakes (inside b) s s';

  rereserve_law s b sub : big_wf s -> block_nonempty b -> block_wf Page sub ->
    b_start b <= b_start sub -> b_end sub <= b_end b ->
    (b_end sub < b_end b \/ valid VirtTag (b_end b * L0_SIZE)) ->
    (forall p, inside b p -> taken s p) -> (forall p, inside b p -> ~ inside sub p -> backing s p = None) ->
    exists s', big_rereserve b sub s = (s', Ok tt) /\ retakes (fun p => inside b p /\ ~ inside sub p) s s';

  map_law s b flags : big_wf s -> block_nonempty b -> usable_flags flags ->
    (forall p, inside b p -> taken s p) ->
    (exists s', big_map b flags s = (s', Ok tt) /\ remaps (inside b) s s' /\
       forall p, inside b p -> sole_owner s' p /\
         exists f, backing s' p = Some (f, Z.lor flags PageTableFlags.PRESENT)) \/
    (exists s' e, big_map b flags s = (s', Err e) /\ remaps (inside b) s s');

  unmap_law s b : big_wf s -> block_nonempty b ->
    (forall p, inside b p -> taken s p /\ backing s p <> None) ->
    exists s', big_unmap b s = (s', Ok tt) /\ remaps (inside b) s s' /\
      forall p, inside b p -> backing s' p = None;
}.

End Laws.

Arguments remaps {S _ _}.
Arguments retakes {S _ _}.
Arguments sole_owner {S _}.
Arguments remaps_wf {S _ _} {region s s'}.
Arguments remaps_flags {S _ _} {region s s'}.
Arguments remaps_taken {S _ _} {region s s'}.
Arguments remaps_backing {S _ _} {region s s'}.
Arguments retakes_wf {S _ _} {region s s'}.
Arguments retakes_flags {S _ _} {region s s'}.
Arguments retakes_taken {S _ _} {region s s'}.
Arguments retakes_backing {S _ _} {region s s'}.

(** ** Reasoning about clients *)

(** A non-empty part of a block of pages. *)
Lemma slice_part b a c : block_wf Page b -> 0 <= a < c -> c <= b_end b - b_start b ->
  slice Page b a c = Ok (Some (mkBlock (b_start b + a) (b_start b + c))) /\
  block_nonempty (mkBlock (b_start b + a) (b_start b + c)).
Proof.
  intros Hb Ha Hc.
  assert (block_wf Page (mkBlock (b_start b + a) (b_start b + c))) as Hw by (apply (wf_sub b); [done|lia..]).
  split; [|split; [done|cbn; lia]]. pose proof (wf_usize _ _ Hw) as [Us Ue]. cbn in Us, Ue.
  unfold slice. rewrite (proj2 (Z.leb_le a c)), wf_count by (done || lia).
  rewrite (proj2 (Z.leb_le c _)), !usize_add_ok by (done || lia). by rewrite wf_from_index by done.
Qed.

(** The slice of elements of size [q] that covers a block of pages. *)
Lemma page_slice_ok b q : block_wf Page b -> 0 < b_start b -> 0 < q -> (q | L0_SIZE) ->
  block_try_into_slice Page b q q = Ok (b_start b * L0_SIZE, (b_end b - b_start b) * L0_SIZE / q).
Proof.
  intros Hb Hpos Hq Hd. unfold block_try_into_slice. rewrite wf_size by done. change (SIZE_OF Page) with L0_SIZE.
  rewrite (proj2 (is_multiple_of_divide _ q ltac:(lia))) by (by apply Z.divide_mul_r).
  rewrite wf_start_address by done. change (SIZE_OF Page) with L0_SIZE.
  rewrite (proj2 (Z.eqb_neq q 0)) by lia. cbn [negb]. unfold Virt.try_into_slice, Virt.try_into_ptr.
  rewrite (proj2 (is_multiple_of_divide _ q ltac:(lia))) by (by apply Z.divide_mul_r).
  by rewrite (proj2 (Z.eqb_neq (b_start b * L0_SIZE) 0)) by (change L0_SIZE with 4096; lia).
Qed.

Section Clients.
  Context {S : Type} `{HB : BigAllocator S} `{HV : BigView S} `{HL : !BigAllocatorLaws S}.

(** An operation of a client that owns the pages [Q]: pages handed out to others stay
    handed out and mapped as they were. *)
Record touches (Q : Z -> Prop) (s s' : S) : Prop := {
  touches_wf : big_wf s';
  touches_flags : big_flags s' = big_flags s;
  touches_taken : forall p, taken s p -> ~ Q p -> taken s' p;
  touches_backing : forall p, taken s p -> ~ Q p -> backing s' p = backing s p;
}.

Lemma touches_refl Q s : big_wf s -> touches Q s s.
Proof. by split. Qed.

Lemma touches_trans (Q Q' : Z -> Prop) s s' s'' :
  touches Q s s' -> touches Q' s' s'' -> (forall p, Q' p -> taken s p -> Q p) -> touches Q s s''.
Proof.
  intros [Hw Hf Ht Hb] [Hw' Hf' Ht' Hb'] HQ. split; [done|congruence|..]; intros p Hp Hn.
  - apply Ht'; [by apply Ht|]. intros HQ'. by apply Hn, HQ.
  - rewrite Hb'; [by apply Hb|by apply Ht|]. intros HQ'. by apply Hn, HQ.
Qed.

Lemma touches_weaken (Q Q' : Z -> Prop) s s' :
  touches Q s s' -> (forall p, Q p -> taken s p -> Q' p) -> touches Q' s s'.
Proof.
  intros [Hw Hf Ht Hb] HQ. split; [done|done|..]; intros p Hp Hn; [apply Ht|apply Hb]; try done; intros H; by apply Hn, HQ.
Qed.

Lemma remaps_touches Q s s' : remaps Q s s' -> touches Q s s'.
Proof. intros [Hw Hf Ht Hb]. split; [done|done| |]; intros p Hp Hn; [by apply Ht|by apply Hb]. Qed.

Lemma retakes_touches Q s s' : retakes Q s s' -> touches Q s s'.
Proof. intros [Hw Hf Ht Hb]. split; [done|done| |]; intros p Hp Hn; [by apply Ht|done]. Qed.

Lemma retakes_free_touches s s' : retakes (fun p => ~ taken s p) s s' -> touches (fun _ => False) s s'.
Proof. intros H%retakes_touches. apply (touches_weaken _ _ _ _ H). tauto. Qed.

(** A page mapped with the flags of the allocator. *)
Definition mapped_page (s : S) (p : Z) : Prop :=
  exists f, backing s p = Some (f, Z.lor (big_flags s) PageTableFlags.PRESENT).

Lemma touches_mapped Q s s' p :
  touches Q s s' -> taken s p -> ~ Q p -> mapped_page s p -> mapped_page s' p.
Proof.
  intros [_ Hf _ Hb] Hp Hn (f & Hm). exists f. by rewrite Hb, Hf.
Qed.

(** *** Allocation by layout *)

(** The pages that [size] bytes from address [a] on touch. *)
Definition span (a size : Z) : Block := mkBlock (a / L0_SIZE) (a / L0_SIZE + div_ceil size L0_SIZE).

Lemma try_into_block_ok a l : 0 < a -> a mod L0_SIZE = 0 -> 0 < layout_size l -> a + layout_size l < LOWER_HALF_PAGES * L0_SIZE ->
  try_into_block a l = Ok (span a (layout_size l)) /\ block_nonempty (span a (layout_size l)).
Proof.
  intros Ha Hal Hs Hend. unfold try_into_block. rewrite Hal, Z.eqb_refl. cbn [negb].
  assert (forall x, 0 <= x < LOWER_HALF_PAGES * L0_SIZE -> canonical x) as Hcan by (unfold canonical; change L0_SIZE with 4096; lia).
  set (e := a + layout_size l) in *.
  assert (addr_add VirtTag a (layout_size l) = Ok e) as ->.
  { apply addr_add_spec; [apply virt_valid_iff, Hcan; lia|lia|]. split; [done|]. split; [apply virt_valid_iff, Hcan; lia|].
    apply virt_same_half_iff; [apply Hcan; lia..|]. left. unfold e in *. change L0_SIZE with 4096 in *. lia. }
  assert (block_wf Virtual (mkBlock a e)) as Hw.
  { split; cbn [b_start b_end]; unfold last_index; cbn [b_start b_end]; rewrite ?(proj2 (Z.ltb_lt a e)) by lia;
      change (SIZE_OF Virtual) with 1; change (mem_tag Virtual) with VirtTag; rewrite ?Z.mul_1_r.
    - unfold is_usize, e in *. change L0_SIZE with 4096 in *. lia.
    - lia.
    - apply virt_valid_iff, Hcan. lia.
    - apply virt_valid_iff, Hcan. lia.
    - apply virt_same_half_iff; [apply Hcan; lia..|]. left. unfold e in *. change L0_SIZE with 4096 in *. lia. }
  pose proof (wf_usize _ _ Hw) as [U1 U2]. cbn [b_start b_end] in U1, U2.
  assert (block_new Virtual a e = Ok (mkBlock a e)) as ->.
  { unfold block_new. cbn [mem_index AddrMem]. by apply (block_from_index_spec (M := Virtual)). }
  destruct (enclosing_spec VirtTag (mkBlock a e) Hw) as [(_ & b & -> & Hb & Hin & Hout)|[Hno _]]; [cbn; lia| |].
  2:{ exfalso. apply Hno, virt_valid_iff, Hcan. cbn [b_end]. lia. }
  cbn [b_start b_end] in *. pose proof (div_ceil_spec (layout_size l) L0_SIZE ltac:(done)) as Hd.
  assert (b = span a (layout_size l)) as ->; [|split; [done|split; [done|]]; unfold span; cbn; change L0_SIZE with 4096 in *; lia].
  pose proof (Hin a ltac:(lia)) as Hlo%contains_index_iff. pose proof (Hin (e - 1) ltac:(lia)) as Hhi%contains_index_iff.
  destruct (Hout (b_start b)) as (x & Hx & Hx'); [apply contains_index_iff; lia|].
  destruct (Hout (b_end b - 1)) as (y & Hy & Hy'); [apply contains_index_iff; lia|].
  destruct b as [bs be]. cbn [b_start b_end] in *. unfold span, e in *. change L0_SIZE with 4096 in *.
  f_equal; Z.div_mod_to_equations; lia.
Qed.

Lemma dry_allocate_spec s l init : big_wf s -> layout_valid l -> 0 < layout_size l ->
  exists s' r, dry_allocate l init s = (s', r) /\ touches (fun _ => False) s s' /\
    ((exists a, r = Ok (a, div_ceil (layout_size l) L0_SIZE * L0_SIZE) /\ 0 < a /\ a mod L0_SIZE = 0 /\ (layout_align l | a) /\
        forall p, inside (span a (layout_size l)) p -> ~ taken s p /\ taken s' p /\ mapped_page s' p) \/
     exists e, r = Err e).
Proof.
  intros Hw Hl Hpos. unfold dry_allocate.
  assert (pages_of l = div_ceil (layout_size l) L0_SIZE) as Hpg by done.
  pose proof (div_ceil_spec (layout_size l) L0_SIZE ltac:(done)) as Hd.
  assert (0 < div_ceil (layout_size l) L0_SIZE) as Hdp by (change L0_SIZE with 4096 in *; lia).
  destruct (reserve_law S s l Hw Hl) as [(s1 & b & E1 & Hb & Hcnt & Hal & Hr1 & Hnew)|(s1 & e & E1 & Hr1)].
  2:{ rewrite (bindM_err _ _ _ _ _ E1). exists s1, (Err e). split; [done|]. split; [by apply retakes_touches|]. right. eauto. }
  rewrite (bindM_ok _ _ _ _ _ E1). pose proof (retakes_free_touches _ _ Hr1) as Hto1.
  rewrite (bindM_ok _ _ _ s1 (big_flags s1)) by done. rewrite Hpg in Hcnt.
  assert (block_nonempty b) as Hne by (split; [done|lia]).
  assert (0 < b_start b) as Hbs.
  { apply (taken_range S s1); [apply (retakes_wf Hr1)|]. apply Hnew. unfold inside. lia. }
  destruct (map_law S s1 b (big_flags s1) (retakes_wf Hr1) Hne) as [(s2 & E2 & Hr2 & Hm)|(s2 & e & E2 & Hr2)];
    [apply (flags_usable S), (retakes_wf Hr1)|intros p Hp; by apply Hnew| |].
  2:{ rewrite (bindM_err _ _ _ _ _ E2). exists s2, (Err e). split; [done|]. split; [|right; eauto].
      apply (touches_trans _ (inside b) _ s1); [done|by apply remaps_touches|]. intros p Hp Ht. by apply (Hnew p Hp). }
  rewrite (bindM_ok _ _ _ _ _ E2).
  assert (block_try_into_slice Page b 1 1 = Ok (b_start b * L0_SIZE, (b_end b - b_start b) * L0_SIZE)) as Es.
  { rewrite page_slice_ok by (done || lia || by exists 4096). by rewrite Z.div_1_r. }
  exists s2, (Ok (b_start b * L0_SIZE, div_ceil (layout_size l) L0_SIZE * L0_SIZE)). split.
  { unfold initialize_block, block_try_into_non_null_slice. rewrite Es, Hcnt. by case_decide. }
  split; [apply (touches_trans _ (inside b) _ s1); [done|by apply remaps_touches|]; intros p Hp Ht; by apply (Hnew p Hp)|].
  left. exists (b_start b * L0_SIZE). split; [done|]. split; [change L0_SIZE with 4096; lia|].
  split; [by apply Z.mod_mul|]. split; [done|]. intros p Hp.
  assert (inside b p) as Hin by (unfold inside, span in *; cbn [b_start b_end] in *; rewrite Z.div_mul in Hp by done; lia).
  destruct (Hnew p Hin) as (Hnt & Ht & _). destruct (Hm p Hin) as [_ [fr Hfr]].
  split; [done|]. split; [by apply (remaps_taken Hr2)|]. exists fr. by rewrite (remaps_flags Hr2).
Qed.

(** A block of memory that a caller holds can always be given back, unless it ends at the
    very end of the lower half, where its end has no address. *)
Lemma dry_deallocate_spec s a l : big_wf s -> 0 < a -> a mod L0_SIZE = 0 -> 0 < layout_size l ->
  a + layout_size l < LOWER_HALF_PAGES * L0_SIZE ->
  (forall p, inside (span a (layout_size l)) p -> taken s p /\ backing s p <> None) ->
  exists s', dry_deallocate a l s = (s', Ok tt) /\ touches (inside (span a (layout_size l))) s s' /\
    forall p, inside (span a (layout_size l)) p -> backing s' p = None.
Proof.
  intros Hw Ha Hal Hs Hend Hp. unfold dry_deallocate.
  destruct (try_into_block_ok a l Ha Hal Hs Hend) as [-> Hne]. cbn [unwrap]. rewrite bindM_lift. set (b := span a (layout_size l)) in *.
  destruct (unmap_law S s b Hw Hne Hp) as (s1 & E1 & Hr1 & Hu1).
  destruct (unreserve_law S s1 b (remaps_wf Hr1) Hne) as (s2 & E2 & Hr2).
  { intros p Hin. split; [by apply (remaps_taken Hr1), Hp|by apply Hu1]. }
  exists s2. split; [|split].
  - rewrite (bindM_ok _ _ _ s1 tt) by (unfold expectM; by rewrite E1). unfold expectM. by rewrite E2.
  - apply (touches_trans _ (inside b) _ s1); [by apply remaps_touches|by apply retakes_touches|done].
  - intros p Hin. rewrite (retakes_backing Hr2). by apply Hu1.
Qed.

End Clients.

Arguments touches_wf {S _ _ Q s s'}.
Arguments touches_flags {S _ _ Q s s'}.
Arguments touches_taken {S _ _ Q s s'}.
Arguments touches_backing {S _ _ Q s s'}.

