(* ===== verification/Big.v ===== *)
(** * Big: the page allocator of an address space

    Models [kernel/src/allocator/big.rs], the delegation of
    [kernel/src/allocator/memory_allocator.rs] to it, and the copying of mappings of
    [kernel/src/allocator/big_pair.rs].  The allocator is an instance of the
    interface [BigAllocator], and the laws of the interface are proved from the
    theorems on address spaces and virtual pages. *)

From Stdlib Require Import ZArith Lia.
From stdpp Require Import base list numbers tactics gmap.
From S2P Require Import Prelude Addr Frage Block Mmu FrameAllocator Range Mapping AddressSpace BigAllocator.
From S2P Require PageAllocator.

Open Scope Z_scope.
Open Scope outcome_scope.

(** ** Operations *)

(** The address space with the allocator of kernel pages, the memory it maps, and the
    flags of the allocator. *)
Record Big := mkBig {
  address_space : Pages;
  kmem : Kmem;
  flags : Z;
}.

Definition on_pages {A} (c : M Pages A) : M Big A := fun st =>
  let '(pages, r) := c (address_space st) in (mkBig pages (kmem st) (flags st), r).

(** An operation on the memory, with the address space it works in. *)
Definition on_kmem {A} (c : AddressSpace -> M Kmem A) : M Big A := fun st =>
  let '(km, r) := c (space (address_space st)) (kmem st) in (mkBig (address_space st) km (flags st), r).

Definition big_new (pages : Pages) (km : Kmem) (flags : Z) : Big := mkBig pages km flags.

Definition set_flags (new_flags : Z) : M Big unit := fun st =>
  (mkBig (address_space st) (kmem st) new_flags, Ok tt).

Definition reserve (layout : Layout) : M Big Block := fun st =>
  on_pages (AddressSpace.allocate layout (flags st)) st.

Definition reserve_fixed (block : Block) : M Big unit := fun st =>
  on_pages (AddressSpace.reserve block (flags st)) st.

Definition unreserve (block : Block) : M Big unit := on_pages (AddressSpace.deallocate block).

Definition rereserve (old_block sub_block : Block) : M Big unit :=
  if contains_block old_block sub_block then
    let! left_block := liftM (unwrap (block_from_index Page (b_start old_block) (b_start sub_block))) in
    let! right_block := liftM (unwrap (block_from_index Page (b_end sub_block) (b_end old_block))) in
    let! _ := (if negb (is_empty left_block) then unreserve left_block else retM tt) in
    let! _ := (if negb (is_empty right_block) then unreserve right_block else retM tt) in
    retM tt
  else liftM (Err InvalidArgument).

Definition map (block : Block) (flags : Z) : M Big unit :=
  on_kmem (fun space => map_block space block flags).

Definition unmap (block : Block) : M Big unit := on_kmem (fun space => unmap_block space block).

(** ** Pairs of address spaces *)

(** The loop over the pairs of elements of two blocks: [Zip::next] asks the first
    iterator, then the second. *)
Fixpoint for_zip {S} (fuel : nat) (src_block dst_block : Block) (body : Z -> Z -> M S unit) : M S unit :=
  match fuel with
  | O => retM tt
  | Datatypes.S fuel =>
      let! next := liftM (into_iter_next Page src_block) in
      match next with
      | None => retM tt
      | Some (src_page, src_block) =>
          let! next := liftM (into_iter_next Page dst_block) in
          match next with
          | None => retM tt
          | Some (dst_page, dst_block) =>
              let! _ := body src_page dst_page in for_zip fuel src_block dst_block body
          end
      end
  end.

(** [Translate::translate] of an address space, which panics without a mapping. *)
Definition space_translate (space : AddressSpace) (virt : Z) : M Kmem Location :=
  let! root := liftM (unwrap (mapping space)) in translate root virt.

(** The body of the loop of [BigPair::copy_mapping]. *)
Definition copy_page (src dst : AddressSpace) (dst_flags : Z) (flags : option Z) (src_page dst_page : Z)
    : M Kmem unit :=
  let! src_pte := okM (let! loc := space_translate src src_page in read_pte loc) in
  match src_pte with
  | None => let! _ := okM (unmap_page dst dst_page) in retM tt
  | Some src_pte =>
      let! present := liftM (Pte.is_present src_pte) in
      if negb present then let! _ := okM (unmap_page dst dst_page) in retM tt
      else
        let! frame := liftM (Pte.frame src_pte) in
        let! page_flags :=
          match flags with
          | Some flags => retM flags
          | None => let! f := liftM (Pte.flags src_pte) in retM (Z.lor f dst_flags)
          end in
        let! _ := okM (unmap_page dst dst_page) in
        map_page_to_frame dst dst_page frame page_flags
  end.

(** [BigPair::copy_mapping]; [same] says that both address spaces are one. *)
Definition copy_mapping (same : bool) (src dst : AddressSpace) (dst_flags : Z)
    (src_block dst_block : Block) (flags : option Z) : M Kmem unit :=
  let! src_count := liftM (Block.count src_block) in
  let! dst_count := liftM (Block.count dst_block) in
  if negb (src_count =? dst_count) then liftM (Err InvalidArgument)
  else
    let! overlap :=
      (if same then let! disjoint := liftM (is_disjoint Page src_block dst_block) in retM (negb disjoint)
       else retM false) in
    if overlap : bool then
      match flags with
      | Some new_flags =>
          if decide (src_block = dst_block) then
            if negb (PageTableFlags.is_user new_flags) && negb (new_flags =? dst_flags)
            then liftM (Err PermissionDenied)
            else remap_block dst src_block new_flags
          else liftM (Err InvalidArgument)
      | None => liftM (Err InvalidArgument)
      end
    else
      let denied :=
        match flags with
        | Some new_flags => negb (PageTableFlags.is_user new_flags) && negb (new_flags =? dst_flags)
        | None => false
        end in
      if denied then liftM (Err PermissionDenied)
      else for_zip (Datatypes.S (Z.to_nat src_count)) src_block dst_block (copy_page src dst dst_flags flags).

(** [Big::copy_mapping]. *)
Definition big_copy (old_block new_block : Block) (new_flags : option Z) : M Big unit := fun st =>
  on_kmem (fun space => copy_mapping true space space (flags st) old_block new_block new_flags) st.

#[export] Instance Big_allocator : BigAllocator Big := {|
  big_flags := flags;
  big_set_flags := set_flags;
  big_reserve := reserve;
  big_reserve_fixed := reserve_fixed;
  big_unreserve := unreserve;
  big_rereserve := rereserve;
  big_map := map;
  big_unmap := unmap;
  big_copy_mapping := big_copy;
|}.

(** ** The view of clients *)

(** The allocator of virtual pages the flags choose. *)
Definition pages_allocator (s : Big) : PageAllocator.PageAllocator :=
  if PageTableFlags.is_user (flags s) then user_page_allocator (space (address_space s))
  else kernel_pages (address_space s).

#[export] Instance canonical_dec a : Decision (canonical a).
Proof. unfold canonical. apply _. Defined.

Definition page_backing (s : Big) (p : Z) : option (Z * Z) :=
  match mapping_root (space (address_space s)) with
  | Some root =>
      if decide (canonical (p * L0_SIZE)) then
        match resolve root (p * L0_SIZE) (kmem s) with (_, Ok r) => Some r | _ => None end
      else None
  | None => None
  end.

Definition page_taken (s : Big) (p : Z) : Prop :=
  inside (PageAllocator.initial_block (pages_allocator s)) p /\
  ~ inside (PageAllocator.block (pages_allocator s)) p.

(** The address space has a page table that satisfies its invariant, the pages it may hand
    out lie in the part of the address space its flags belong to, the first page is
    not one of them, and none of those still free is mapped.  The references held
    elsewhere are too few to overflow a reference count. *)
Record big_inv (s : Big) : Prop := {
  inv_tree : exists root paths rest,
    mapping_root (space (address_space s)) = Some root /\ kernel_wf (kmem s) root paths rest /\
    Z.of_nat (length rest) < 2 ^ 62;
  inv_pages : PageAllocator.pa_wf (pages_allocator s);
  inv_side :
    if PageTableFlags.is_user (flags s)
    then USER_START <= b_start (PageAllocator.initial_block (pages_allocator s)) /\
         b_end (PageAllocator.initial_block (pages_allocator s)) <= USER_END
    else 0 < b_start (PageAllocator.initial_block (pages_allocator s)) /\
         b_end (PageAllocator.initial_block (pages_allocator s)) <= USER_START;
  inv_flags : usable_flags (flags s);
  inv_free : forall p, inside (PageAllocator.block (pages_allocator s)) p -> page_backing s p = None;
}.

#[export] Instance Big_view : BigView Big := {|
  big_wf := big_inv;
  taken := page_taken;
  backing := page_backing;
|}.

(** ** The laws *)

(** The state with another allocator of virtual pages in place of the chosen one. *)
Definition with_allocator (s : Big) (pa : PageAllocator.PageAllocator) : Big :=
  let sp := space (address_space s) in
  if PageTableFlags.is_user (flags s)
  then mkBig (mkPages (kernel_pages (address_space s))
                (mkAddressSpace (kind sp) (mapping_root sp) pa (space_pid sp))) (kmem s) (flags s)
  else mkBig (mkPages pa sp) (kmem s) (flags s).

Lemma with_allocator_id s : with_allocator s (pages_allocator s) = s.
Proof.
  unfold with_allocator, pages_allocator. destruct s as [[kp [k m u pid]] km fl]; cbn. by destruct (PageTableFlags.is_user fl).
Qed.

Lemma pages_allocator_with s pa : pages_allocator (with_allocator s pa) = pa.
Proof. unfold with_allocator, pages_allocator. by destruct (PageTableFlags.is_user (flags s)) eqn:E; cbn; rewrite E. Qed.

Lemma flags_with s pa : flags (with_allocator s pa) = flags s.
Proof. unfold with_allocator. by destruct (PageTableFlags.is_user (flags s)). Qed.

Lemma kmem_with s pa : kmem (with_allocator s pa) = kmem s.
Proof. unfold with_allocator. by destruct (PageTableFlags.is_user (flags s)). Qed.

Lemma root_with s pa :
  mapping_root (space (address_space (with_allocator s pa))) = mapping_root (space (address_space s)).
Proof. unfold with_allocator. by destruct (PageTableFlags.is_user (flags s)). Qed.

Lemma backing_with s pa p : page_backing (with_allocator s pa) p = page_backing s p.
Proof. unfold page_backing. by rewrite root_with, kmem_with. Qed.

(** The chosen allocator may only lose free pages. *)
Lemma with_allocator_retakes s pa :
  big_inv s -> PageAllocator.pa_wf pa ->
  PageAllocator.initial_block pa = PageAllocator.initial_block (pages_allocator s) ->
  (forall p, inside (PageAllocator.block pa) p -> inside (PageAllocator.block (pages_allocator s)) p) ->
  retakes (fun p => ~ taken s p) s (with_allocator s pa).
Proof.
  intros [Ht Hp Hs Hf Hn] Hpa Hi Hsub. split; cbn.
  - split; rewrite ?pages_allocator_with, ?flags_with, ?kmem_with, ?root_with, ?Hi; try done.
    intros p Hin. rewrite backing_with. auto.
  - apply flags_with.
  - intros p Htk. unfold page_taken in *. rewrite pages_allocator_with, Hi.
    specialize (Hsub p). destruct (decide (inside (PageAllocator.initial_block (pages_allocator s)) p));
      destruct (decide (inside (PageAllocator.block (pages_allocator s)) p)); tauto.
  - intros p. apply backing_with.
Qed.

Lemma with_allocator_takes s pa b :
  big_inv s -> PageAllocator.initial_block pa = PageAllocator.initial_block (pages_allocator s) ->
  (forall p, inside b p -> inside (PageAllocator.block (pages_allocator s)) p /\ ~ inside (PageAllocator.block pa) p) ->
  forall p, inside b p -> ~ taken s p /\ taken (with_allocator s pa) p /\ backing s p = None.
Proof.
  intros Hinv Hi Hb p Hp. destruct (Hb p Hp) as [H1 H2]. cbn. unfold page_taken.
  rewrite pages_allocator_with, Hi. pose proof (PageAllocator.wf_inside _ (inv_pages _ Hinv)).
  split; [tauto|]. split; [|by apply inv_free]. split; [unfold inside in *; lia|done].
Qed.

Lemma retakes_id P s : big_inv s -> retakes P s s.
Proof. by split. Qed.

Lemma on_user_with s A (c : M PageAllocator.PageAllocator A) pa r :
  PageTableFlags.is_user (flags s) = true -> c (pages_allocator s) = (pa, r) ->
  on_pages (on_user c) s = (with_allocator s pa, r).
Proof.
  intros Hu E. unfold on_pages, on_user, with_allocator, pages_allocator in *. rewrite Hu in *. by rewrite E.
Qed.

Lemma on_kernel_with s A (c : M PageAllocator.PageAllocator A) pa r :
  PageTableFlags.is_user (flags s) = false -> c (pages_allocator s) = (pa, r) ->
  on_pages (on_kernel c) s = (with_allocator s pa, r).
Proof.
  intros Hu E. unfold on_pages, on_kernel, with_allocator, pages_allocator in *. rewrite Hu in *. by rewrite E.
Qed.

Lemma reserve_with s l pa r :
  PageAllocator.allocate l (pages_allocator s) = (pa, r) -> reserve l s = (with_allocator s pa, r).
Proof.
  intros E. unfold reserve, allocate. destruct (PageTableFlags.is_user (flags s)) eqn:Hu.
  - by apply on_user_with.
  - by apply on_kernel_with.
Qed.

Lemma reserve_big s l : big_inv s -> PageAllocator.layout_valid l ->
  (exists s' b, reserve l s = (s', Ok b) /\ block_wf Page b /\
     b_end b - b_start b = PageAllocator.pages_of l /\ (layout_align l | b_start b * L0_SIZE) /\
     retakes (fun p => ~ taken s p) s s' /\
     forall p, inside b p -> ~ taken s p /\ taken s' p /\ backing s p = None) \/
  (exists s' e, reserve l s = (s', Err e) /\ retakes (fun _ => False) s s').
Proof.
  intros Hinv Hl. pose proof (inv_pages _ Hinv) as Hpa.
  destruct (PageAllocator.page_allocate_spec (pages_allocator s) l Hpa Hl) as
    [(H0 & E)|[(H0 & _ & E)|(H0 & pa & b & E & Hw & Hb & Hc & Ha & Hs & Hlo & Hhi & Hi)]];
    apply reserve_with in E.
  - left. exists s, block_zero. rewrite with_allocator_id in E. split; [done|].
    split; [by apply wf_by_check; [apply _|vm_compute..]|]. split; [cbn; lia|].
    split; [apply Z.divide_0_r|]. split; [by split|]. intros p Hp. unfold inside in Hp. cbn in Hp. lia.
  - right. exists s, NoPage. rewrite with_allocator_id in E. split; [done|by apply retakes_id].
  - left. exists (with_allocator s pa), b. split; [done|]. split; [done|].
    rewrite wf_count in Hc by done. injection Hc as Hc. split; [done|]. split; [done|].
    pose proof (wf_order _ _ (PageAllocator.wf_block _ Hw)).
    split; [apply with_allocator_retakes; [done|done|done|unfold inside; lia]|].
    apply with_allocator_takes; [done|done|unfold inside; lia].
Qed.

(** A block of pages in the lower half; all blocks of taken pages are. *)
Lemma low_block_half b1 b2 :
  block_wf Page b1 -> block_wf Page b2 -> b_start b1 < USER_END -> b_start b2 < USER_END ->
  is_same_half VirtTag (b_start b1 * 4096) (b_start b2 * 4096) = true.
Proof.
  intros H1 H2 L1 L2. pose proof (wf_usize _ _ H1) as [[U1 _] _]. pose proof (wf_usize _ _ H2) as [[U2 _] _].
  apply virt_same_half_iff; unfold canonical; lia.
Qed.

Lemma taken_inside s b :
  big_inv s -> block_nonempty b -> (forall p, inside b p -> taken s p) ->
  b_start (PageAllocator.initial_block (pages_allocator s)) <= b_start b /\
  b_end b <= b_end (PageAllocator.initial_block (pages_allocator s)) /\
  (b_end b <= b_start (PageAllocator.block (pages_allocator s)) \/
   b_end (PageAllocator.block (pages_allocator s)) <= b_start b \/
   b_end (PageAllocator.block (pages_allocator s)) <= b_start (PageAllocator.block (pages_allocator s))).
Proof.
  intros Hinv [Hb Hne] Ht. unfold taken in Ht. cbn in Ht. unfold page_taken, inside in Ht.
  pose proof (Ht (b_start b) ltac:(lia)). pose proof (Ht (b_end b - 1) ltac:(lia)).
  split; [lia|]. split; [lia|].
  destruct (decide (b_start b <= b_start (PageAllocator.block (pages_allocator s)) < b_end b)) as [Hin|Hout].
  - pose proof (Ht _ Hin). lia.
  - lia.
Qed.

Lemma side_range s : big_inv s ->
  0 < b_start (PageAllocator.initial_block (pages_allocator s)) /\
  b_end (PageAllocator.initial_block (pages_allocator s)) <= USER_END /\
  (PageTableFlags.is_user (flags s) = true ->
     USER_START <= b_start (PageAllocator.initial_block (pages_allocator s))) /\
  (PageTableFlags.is_user (flags s) = false ->
     b_end (PageAllocator.initial_block (pages_allocator s)) <= USER_START).
Proof. intros Hinv. pose proof (inv_side _ Hinv) as H. destruct (PageTableFlags.is_user (flags s)); repeat split; lia || done. Qed.

(** The tests of [AddressSpace::deallocate] and [AddressSpace::reserve] choose the same
    allocator as the flags do. *)
Lemma side_block s b :
  big_inv s -> block_nonempty b ->
  b_start (PageAllocator.initial_block (pages_allocator s)) <= b_start b ->
  b_end b <= b_end (PageAllocator.initial_block (pages_allocator s)) ->
  is_kernel_block b = Ok (negb (PageTableFlags.is_user (flags s))) /\
  (PageTableFlags.is_user (flags s) = true -> is_user_block b = Ok true) /\
  validate_block b = Ok tt.
Proof.
  intros Hinv [Hb Hne] H1 H2. destruct (side_range s Hinv) as (Hlo & Hhi & Hu & Hk).
  unfold validate_block. rewrite is_kernel_block_ok, is_user_block_ok by done.
  destruct (PageTableFlags.is_user (flags s)).
  - specialize (Hu eq_refl).
    rewrite (proj2 (Z.leb_gt (b_end b) _)), !(proj2 (Z.leb_le _ _)) by lia. done.
  - specialize (Hk eq_refl).
    rewrite !(proj2 (Z.leb_le (b_end b) _)), (proj2 (Z.leb_gt _ (b_start b))) by lia. done.
Qed.

Lemma unreserve_big s b : big_inv s -> block_nonempty b -> (forall p, inside b p -> taken s p) ->
  unreserve b s = (s, Ok tt).
Proof.
  intros Hinv Hb Ht. destruct (taken_inside s b Hinv Hb Ht) as (H1 & H2 & H3).
  destruct (side_block s b Hinv Hb H1 H2) as (Hk & Hu & _). destruct Hb as [Hb Hne].
  destruct (side_range s Hinv) as (Hlo & Hhi & _). destruct (inv_pages _ Hinv) as [Hpb Hpi Hin].
  assert (PageAllocator.deallocate b (pages_allocator s) = (pages_allocator s, Ok tt)) as E.
  { unfold PageAllocator.deallocate. f_equal. unfold contains_block. rewrite !(proj2 (Z.leb_le _ _)) by lia. cbn [andb].
    destruct (decide (b_start (PageAllocator.block (pages_allocator s)) < b_end (PageAllocator.block (pages_allocator s)))).
    - rewrite (is_disjoint_spec Page) by (done || (apply low_block_half; done || lia)).
      destruct H3 as [H3|[H3|H3]]; [rewrite (proj2 (Z.leb_le (b_end b) _)) by lia; by rewrite orb_true_r| |lia].
      by rewrite (proj2 (Z.leb_le (b_end _) (b_start b))) by lia.
    - unfold is_disjoint, is_empty. pose proof (wf_order _ _ Hpb). by rewrite (proj2 (Z.eqb_eq _ _)) by lia. }
  rewrite <- (with_allocator_id s) at 2. unfold unreserve, deallocate. rewrite Hk.
  destruct (PageTableFlags.is_user (flags s)) eqn:Hf; cbn [negb].
  - rewrite (Hu eq_refl). by apply on_user_with.
  - by apply on_kernel_with.
Qed.

Lemma reserve_fixed_with s b pa r : block_wf Page b -> b_start b < b_end b -> validate_block_flags b (flags s) = Ok tt ->
  (if PageTableFlags.is_user (flags s) then USER_START <= b_start b /\ b_end b <= USER_END else b_end b <= USER_START) ->
  PageAllocator.reserve b (pages_allocator s) = (pa, r) -> reserve_fixed b s = (with_allocator s pa, r).
Proof.
  intros Hb Hne Hv Hside E. unfold reserve_fixed, AddressSpace.reserve. rewrite Hv, is_kernel_block_ok, is_user_block_ok by done.
  destruct (PageTableFlags.is_user (flags s)) eqn:Hf.
  - rewrite (proj2 (Z.leb_gt (b_end b) _)), !(proj2 (Z.leb_le _ _)) by lia. by apply on_user_with.
  - rewrite (proj2 (Z.leb_le (b_end b) _)) by lia. by apply on_kernel_with.
Qed.

Lemma reserve_fixed_big s b : big_inv s -> block_nonempty b ->
  (exists s', reserve_fixed b s = (s', Ok tt) /\ retakes (fun p => ~ taken s p) s s' /\
     forall p, inside b p -> ~ taken s p /\ taken s' p /\ backing s p = None) \/
  (exists s' e, reserve_fixed b s = (s', Err e) /\ retakes (fun _ => False) s s').
Proof.
  intros Hinv [Hb Hne]. pose proof (inv_pages _ Hinv) as Hpa.
  assert (forall e, reserve_fixed b s = (s, Err e) ->
    exists s' e, reserve_fixed b s = (s', Err e) /\ retakes (fun _ => False) s s') as Hfail.
  { intros e E. exists s, e. split; [done|by apply retakes_id]. }
  destruct (validate_block_flags_cases b (flags s) Hb Hne) as [[Hv Hside]|Hv].
  2:{ right. apply (Hfail PermissionDenied). unfold reserve_fixed, AddressSpace.reserve. rewrite Hv. cbn. by destruct s. }
  destruct (PageAllocator.reserve_spec (pages_allocator s) b Hpa Hb) as
    [(_ & E)|(Hc & pa & E & Hw & Hi & Hrest & _)]; apply (reserve_fixed_with s b _ _ Hb Hne Hv Hside) in E.
  - right. rewrite with_allocator_id in E. eauto.
  - left. exists (with_allocator s pa). split; [done|]. setoid_rewrite contains_index_iff in Hrest.
    assert (forall p, inside (PageAllocator.block pa) p ->
      inside (PageAllocator.block (pages_allocator s)) p /\ ~ inside b p) as Hsub.
    { intros p Hp. destruct (Hrest p Hp) as [Ha Hn]. split; [done|]. intros Hin%contains_index_iff. congruence. }
    split; [apply with_allocator_retakes; [done..|]; intros p Hp; apply Hsub, Hp|].
    apply with_allocator_takes; [done|done|]. unfold contains_block in Hc. bool_simp.
    intros p Hp. split; [unfold inside in *; lia|]. intros Hin%Hsub. tauto.
Qed.

Lemma rereserve_big s b sub : big_inv s -> block_nonempty b -> block_wf Page sub ->
  b_start b <= b_start sub -> b_end sub <= b_end b -> (b_end sub < b_end b \/ valid VirtTag (b_end b * L0_SIZE)) ->
  (forall p, inside b p -> taken s p) ->
  rereserve b sub s = (s, Ok tt).
Proof.
  intros Hinv [Hb Hne] Hsub H1 H2 H3 Ht. unfold rereserve, contains_block.
  rewrite !(proj2 (Z.leb_le _ _)) by done. cbn [andb]. pose proof (wf_order _ _ Hsub).
  assert (forall s e, b_start b <= s -> s < e -> e <= b_end b -> block_nonempty (mkBlock s e)) as Hpart.
  { intros s' e' ? ? ?. split; [apply (wf_sub b); done || lia|done]. }
  assert (block_wf Page (mkBlock (b_start b) (b_start sub))) as Hl.
  { apply (wf_sub b); done || lia. }
  assert (block_wf Page (mkBlock (b_end sub) (b_end b))) as Hr.
  { destruct (decide (b_end sub < b_end b)); [apply (wf_sub b); done || lia|].
    replace (b_end sub) with (b_end b) by lia. destruct H3 as [H3|H3]; [lia|].
    pose proof (wf_usize _ _ Hb) as [_ Ue]. split; cbn; try done; unfold last_index; cbn; rewrite Z.ltb_irrefl; [done|apply (same_half_refl (T := VirtTag))]. }
  rewrite !wf_from_index by done. cbn [unwrap]. rewrite !bindM_lift. unfold is_empty. cbn [b_start b_end].
  assert (forall p q, b_start b <= p -> q <= b_end b ->
    (if negb (p =? q) then unreserve (mkBlock p q) else retM tt) s = (s, Ok tt) \/ q < p) as Hun.
  { intros p q Hp Hq. destruct (Z.eqb_spec p q); [by left|]. destruct (decide (q < p)); [by right|left].
    apply unreserve_big; [done|apply Hpart; lia|]. intros x Hx. apply Ht. unfold inside in *. cbn in Hx. lia. }
  destruct (Hun (b_start b) (b_start sub)) as [E|]; [lia|lia| |lia]. rewrite (bindM_ok _ _ _ _ _ E).
  destruct (Hun (b_end sub) (b_end b)) as [E'|]; [lia|lia| |lia]. by rewrite (bindM_ok _ _ _ _ _ E').
Qed.

(** ** Mapping *)

Lemma backing_resolve s root p :
  mapping_root (space (address_space s)) = Some root -> canonical (p * L0_SIZE) ->
  page_backing s p = match resolve root (p * L0_SIZE) (kmem s) with (_, Ok r) => Some r | _ => None end.
Proof. intros Hr Hc. unfold page_backing. by rewrite Hr, decide_True. Qed.

Lemma backing_same s root km p :
  mapping_root (space (address_space s)) = Some root -> tree_wf (memory (kmem s)) root ->
  (canonical (p * L0_SIZE) -> same_mapping (kmem s) km root (p * L0_SIZE)) ->
  page_backing (mkBig (address_space s) km (flags s)) p = page_backing s p.
Proof.
  intros Hr Ht Hs. unfold page_backing. cbn [address_space kmem]. rewrite Hr.
  destruct (decide (canonical (p * L0_SIZE))) as [Hc|]; [|done]. specialize (Hs Hc). unfold same_mapping in Hs.
  destruct (resolve_total (kmem s) root (p * L0_SIZE) Ht) as [(f & fl & E & _)|(e & E)]; rewrite E in *.
  - by rewrite Hs.
  - destruct Hs as (e' & ->). done.
Qed.

(** A change of the memory that keeps the mappings outside a block of taken pages. *)
Lemma with_kmem_remaps s b km root paths rest :
  big_inv s -> (forall p, inside b p -> taken s p) ->
  mapping_root (space (address_space s)) = Some root -> kernel_wf km root paths rest -> Z.of_nat (length rest) < 2 ^ 62 ->
  (forall p, ~ inside b p -> page_backing (mkBig (address_space s) km (flags s)) p = page_backing s p) ->
  remaps (inside b) s (mkBig (address_space s) km (flags s)).
Proof.
  intros [Ht Hp Hs Hf Hn] Htk Hr Hk Hrest Hout. split; [split; cbn; try done; eauto 10|done|done|done].
  intros p Hin. change (inside (PageAllocator.block (pages_allocator s)) p) in Hin.
  rewrite Hout; [by apply Hn|]. intros [_ Hb]%Htk. done.
Qed.

Lemma page_index p : p * L0_SIZE / 4096 = p.
Proof. unfold L0_SIZE. apply Z.div_mul. lia. Qed.

Lemma contains_index_not_inside b p : ~ inside b p -> contains_index b p = false.
Proof. intros H. destruct (contains_index b p) eqn:E; [|done]. by apply contains_index_iff in E. Qed.

Lemma block_page_canonical b p : block_wf Page b -> inside b p -> canonical (p * L0_SIZE).
Proof. intros Hb Hp. apply virt_valid_iff. by apply (wf_element b p Hb). Qed.

Lemma map_big s b fl : big_inv s -> block_nonempty b -> usable_flags fl ->
  (forall p, inside b p -> taken s p) ->
  (exists s', map b fl s = (s', Ok tt) /\ remaps (inside b) s s' /\
     forall p, inside b p -> sole_owner s' p /\
       exists f, backing s' p = Some (f, Z.lor fl PageTableFlags.PRESENT)) \/
  (exists s' e, map b fl s = (s', Err e) /\ remaps (inside b) s s').
Proof.
  intros Hinv [Hb Hne] [Hfl Hh] Ht. destruct (inv_tree _ Hinv) as (root & paths & rest & Hr & Hk & Hrest).
  assert (forall km, (forall v, canonical v -> contains_index b (v / 4096) = false -> same_mapping (kmem s) km root v) ->
    forall p, ~ inside b p -> page_backing (mkBig (address_space s) km (flags s)) p = page_backing s p) as Hout.
  { intros km Hsame p Hp. apply (backing_same s root); [done|apply (kw_tree _ _ _ _ Hk)|]. intros Hc. apply Hsame; [done|].
    rewrite page_index. by apply contains_index_not_inside. }
  unfold map, on_kmem.
  destruct (map_block_spec (kmem s) (space (address_space s)) root paths rest b fl Hk Hr Hfl Hh Hb Hne) as
    [(km & paths' & E & Hk' & Hin & Hsame & Hpriv & _)|(km & e & paths' & E & _ & Hk' & Hsame)]; rewrite E; [left|right].
  2:{ eexists _, e. split; [done|]. eapply with_kmem_remaps; eauto. }
  eexists. split; [done|]. split; [eapply with_kmem_remaps; eauto|].
  intros p Hp. assert (canonical (p * L0_SIZE)) as Hc by (by apply (block_page_canonical b)).
  cbn [backing Big_view]. split.
  - intros q f fl1 f' fl2 Hq. cbn [backing Big_view]. rewrite (backing_resolve _ root p) by done.
    destruct (decide (canonical (q * L0_SIZE))) as [Hcq|Hcq].
    2:{ unfold page_backing. cbn [address_space]. rewrite Hr, (decide_False (P := canonical _)) by done. done. }
    rewrite (backing_resolve _ root q) by done. cbn [kmem].
    pose proof (Hpriv p) as Hp'. rewrite contains_index_iff in Hp'. specialize (Hp' Hp (q * L0_SIZE)).
    destruct (resolve_total km root (p * L0_SIZE) (kw_tree _ _ _ _ Hk')) as [(g & gl & E1 & _)|(e1 & E1)]; rewrite E1; [|done].
    destruct (resolve_total km root (q * L0_SIZE) (kw_tree _ _ _ _ Hk')) as [(g' & gl' & E2 & _)|(e2 & E2)]; rewrite E2; [|done].
    intros [= <- <-] [= <- <-]. eapply Hp'; [done| |exact E1|exact E2].
    unfold page_of. rewrite page_index. lia.
  - rewrite (backing_resolve _ root p) by done. cbn [kmem].
    destruct (Hin (p * L0_SIZE) Hc) as (f & ->); [|by exists f]. rewrite page_index. by apply contains_index_iff.
Qed.

Lemma unmap_big s b : big_inv s -> block_nonempty b ->
  (forall p, inside b p -> taken s p /\ backing s p <> None) ->
  exists s', unmap b s = (s', Ok tt) /\ remaps (inside b) s s' /\ forall p, inside b p -> backing s' p = None.
Proof.
  intros Hinv Hbn Ht. pose proof Hbn as [Hb Hne]. destruct (inv_tree _ Hinv) as (root & paths & rest & Hr & Hk & Hrest).
  assert (forall p, inside b p -> taken s p) as Htk by (intros p Hp; by apply Ht).
  destruct (taken_inside s b Hinv Hbn Htk) as (H1 & H2 & _).
  destruct (side_block s b Hinv Hbn H1 H2) as (_ & _ & Hv).
  destruct (unmap_block_spec (kmem s) (space (address_space s)) root paths rest b Hk Hr Hb Hne) as
    (km & paths' & r & E & Hk' & Hsame & Hcase).
  destruct Hcase as [(-> & _ & Hgone)|[(_ & Hv')|(_ & p & Hp & e & He)]]; [|congruence|].
  2:{ apply contains_index_iff in Hp. change (p * 4096) with (p * L0_SIZE) in He. destruct (Ht p Hp) as [_ Hbk]. exfalso. apply Hbk. cbn [backing Big_view].
      rewrite (backing_resolve s root p) by (done || by apply (block_page_canonical b)). by rewrite He. }
  unfold unmap, on_kmem. rewrite E. eexists. split; [done|]. split.
  - eapply with_kmem_remaps; eauto. intros p Hp. apply (backing_same s root); [done|apply (kw_tree _ _ _ _ Hk)|].
    intros Hc. apply Hsame; [done|]. rewrite page_index. by apply contains_index_not_inside.
  - intros p Hp. cbn [backing Big_view]. rewrite (backing_resolve _ root p) by (done || by apply (block_page_canonical b)).
    cbn [kmem]. destruct (Hgone (p * L0_SIZE)) as (e & ->); [by apply (block_page_canonical b)| |done].
    rewrite page_index. by apply contains_index_iff.
Qed.

(** ** The allocator implements the interface *)

#[export] Instance Big_laws : BigAllocatorLaws Big.
Proof.
  split.
  - intros s p Hinv Hp. destruct (side_range s Hinv) as (Hlo & Hhi & _).
    destruct Hp as [[H1 H2] _]. change LOWER_HALF_PAGES with USER_END. lia.
  - intros s Hinv. apply (inv_flags _ Hinv).
  - intros s fl [Ht Hp Hs Hf Hn] Hfl Hu. exists (mkBig (address_space s) (kmem s) fl). split; [by left|].
    assert (pages_allocator (mkBig (address_space s) (kmem s) fl) = pages_allocator s) as Hpa.
    { unfold pages_allocator. cbn [flags address_space]. by rewrite Hu. }
    split; [|split; [|done]].
    + split; cbn [flags]; rewrite ?Hpa, ?Hu; try done.
    + intros p. cbn. unfold page_taken. by rewrite Hpa.
  - apply reserve_big.
  - apply reserve_fixed_big.
  - intros s b Hinv Hb Ht. exists s. split; [|by apply retakes_id].
    apply unreserve_big; [done|done|]. intros p Hp. by apply Ht.
  - intros s b sub Hinv Hb Hsub H1 H2 H3 Ht _. exists s. split; [by apply rereserve_big|by apply retakes_id].
  - apply map_big.
  - apply unmap_big.
Qed.

(** ** Example *)

(** A kernel allocator over an empty page table. *)
Definition sample_big : Big :=
  mkBig (mkPages (PageAllocator.mkPageAllocator (mkBlock 1000 2000) (mkBlock 1000 3000)) sample_space) sample_free KERNEL_RW.

Lemma sample_unmapped p : page_backing sample_big p = None.
Proof.
  unfold page_backing, sample_big. cbn [mapping_root space address_space kmem sample_space]. case_decide; [|done].
  destruct (resolve_total sample_free 0 (p * L0_SIZE) (kw_tree _ _ _ _ sample_free_wf)) as [(f & fl & E & _)|(e & E)]; [|by rewrite E].
  pose proof (resolve_in_refs _ _ _ _ _ _ _ sample_free_wf E) as Hin. cbn in Hin. by apply not_elem_of_nil in Hin.
Qed.

Lemma sample_big_inv : big_inv sample_big.
Proof.
  assert (pages_allocator sample_big = PageAllocator.mkPageAllocator (mkBlock 1000 2000) (mkBlock 1000 3000)) as Hpa by reflexivity.
  split; rewrite ?Hpa.
  - exists 0, [], []. split; [reflexivity|]. split; [apply sample_free_wf|cbn; lia].
  - split; cbn; [wf_check|wf_check|lia].
  - change (PageTableFlags.is_user (flags sample_big)) with false. cbn. lia.
  - split; [by apply is_flags_const|reflexivity].
  - intros p _. apply sample_unmapped.
Qed.
