(* ===== verification/Grow.v ===== *)
(** * Grow: copying mappings and growing blocks

    What [BigAllocator::copy_mapping] of [ku/src/allocator/big.rs] promises to the
    methods that are written against the trait, and the correctness of the
    provided method [BigAllocator::grow]: a block grows in place or moves, keeps its
    frames, and gets fresh ones for the new pages. *)

From Stdlib Require Import ZArith Lia.
From stdpp Require Import base list numbers tactics gmap.
From S2P Require Import Prelude Addr Frage Block Mmu PageAllocator BigAllocator.

Open Scope Z_scope.
Open Scope outcome_scope.

(** ** What copying promises *)

Definition apart (b b' : Block) : Prop := b_end b <= b_start b' \/ b_end b' <= b_start b.

(** Copying a mapped block to a disjoint one of the same size, with the flags of each page. *)
Class CopyLaws (S : Type) `{BigAllocator S} `{BigView S} : Prop := {
  copy_mapping_law s old new : big_wf s -> block_nonempty old -> block_nonempty new ->
    b_end old - b_start old = b_end new - b_start new -> apart old new ->
    (forall p, inside old p -> taken s p /\ backing s p <> None) -> (forall p, inside new p -> taken s p) ->
    (exists s', big_copy_mapping old new None s = (s', Ok tt) /\ remaps (inside new) s s' /\
       forall i f fl, 0 <= i < b_end old - b_start old -> backing s (b_start old + i) = Some (f, fl) ->
         backing s' (b_start new + i) = Some (f, Z.lor (Z.lor fl (big_flags s)) PageTableFlags.PRESENT)) \/
    (exists s' e, big_copy_mapping old new None s = (s', Err e) /\ remaps (inside new) s s');
}.

(** What is around an allocator: [keeps] relates states in which it is the same, [foreign]
    are the frames it uses.  No operation changes it, and no page is mapped to a
    foreign frame. *)
Class Surroundings (S : Type) `{BigAllocator S} `{BigView S} := {
  keeps : S -> S -> Prop;
  foreign : S -> Z -> Prop;
  keeps_refl s : keeps s s;
  keeps_trans s1 s2 s3 : keeps s1 s2 -> keeps s2 s3 -> keeps s1 s3;
  foreign_keeps s s' f : keeps s s' -> foreign s' f <-> foreign s f;
  reserve_keeps s l : big_wf s -> keeps s (big_reserve l s).1;
  reserve_fixed_keeps s b : big_wf s -> keeps s (big_reserve_fixed b s).1;
  unreserve_keeps s b : big_wf s -> keeps s (big_unreserve b s).1;
  map_keeps s b fl : big_wf s -> keeps s (big_map b fl s).1;
  unmap_keeps s b : big_wf s -> keeps s (big_unmap b s).1;
  copy_keeps s old new fl : big_wf s -> keeps s (big_copy_mapping old new fl s).1;
  map_not_foreign s s' b fl p f fl' : big_wf s -> big_map b fl s = (s', Ok tt) -> inside b p ->
    backing s' p = Some (f, fl') -> ~ foreign s f;
}.

Section Grow.
  Context {S : Type} `{HB : BigAllocator S} `{HV : BigView S} `{HL : !BigAllocatorLaws S} `{HC : !CopyLaws S}
    `{HS : !Surroundings S}.

(** A block the caller holds: its pages are handed out and mapped to frames of its own. *)
Definition held (s : S) (b : Block) : Prop :=
  forall p, inside b p -> taken s p /\ backing s p <> None /\ sole_owner s p.

(** The flags of a page that stayed in its place or was copied. *)
Definition copied_flags (s : S) (fl fl' : Z) : Prop :=
  fl' = fl \/ fl' = Z.lor (Z.lor fl (big_flags s)) PageTableFlags.PRESENT.

(** Block [old] became block [b]. *)
Record grown (s s' : S) (old b : Block) (flags : Z) : Prop := {
  gr_block : block_nonempty b;
  gr_touches : touches (inside old) s s';
  gr_place : forall p, inside b p -> inside old p \/ ~ taken s p;
  gr_held : held s' b;
  gr_kept : forall i f fl, 0 <= i < b_end old - b_start old -> backing s (b_start old + i) = Some (f, fl) ->
    exists fl', backing s' (b_start b + i) = Some (f, fl') /\ copied_flags s fl fl';
  gr_new : forall i, b_end old - b_start old <= i < b_end b - b_start b ->
    exists f, backing s' (b_start b + i) = Some (f, Z.lor flags PageTableFlags.PRESENT) /\ ~ foreign s f;
}.

Lemma op_keeps {A} (op : M S A) s s' r : keeps s (op s).1 -> op s = (s', r) -> keeps s s'.
Proof. intros H E. by rewrite E in H. Qed.

(** Reserving a block and mapping all of it. *)
Lemma reserve_map_spec s l flags : big_wf s -> layout_valid l -> 0 < pages_of l -> usable_flags flags ->
  exists s' r, (let! b := big_reserve l in let! _ := big_map b flags in retM b) s = (s', r) /\ keeps s s' /\
    ((exists b, r = Ok b /\ b_end b - b_start b = pages_of l /\ forall x, grown s s' (mkBlock x x) b flags) \/
     exists e, r = Err e /\ touches (fun _ => False) s s').
Proof.
  intros Hw Hl Hpos Hfl. pose proof (reserve_keeps s l Hw) as Hk1.
  destruct (reserve_law S s l Hw Hl) as [(s1 & b & E1 & Hb & Hcnt & _ & Hr1 & Hnew)|(s1 & e & E1 & Hr1)];
    pose proof (op_keeps _ _ _ _ Hk1 E1) as K1.
  2:{ rewrite (bindM_err _ _ _ _ _ E1). exists s1, (Err e). split; [done|]. split; [done|]. right.
      exists e. split; [done|by apply retakes_touches]. }
  rewrite (bindM_ok _ _ _ _ _ E1). pose proof (retakes_free_touches _ _ Hr1) as Hto1.
  assert (block_nonempty b) as Hne by (split; [done|lia]).
  assert (forall p, inside b p -> taken s1 p) as Ht1 by (intros p Hp; by apply Hnew).
  pose proof (map_keeps s1 b flags (retakes_wf Hr1)) as Hk2.
  destruct (map_law S s1 b flags (retakes_wf Hr1) Hne Hfl Ht1) as [(s2 & E2 & Hr2 & Hm)|(s2 & e & E2 & Hr2)];
    pose proof (op_keeps _ _ _ _ Hk2 E2) as K2; pose proof (keeps_trans _ _ _ K1 K2) as K;
    assert (touches (fun _ => False) s s2) as Hto
      by (apply (touches_trans _ (inside b) _ s1); [done|by apply remaps_touches|]; intros p Hp Ht; by apply (Hnew p Hp)).
  2:{ rewrite (bindM_err _ _ _ _ _ E2). exists s2, (Err e). eauto 10. }
  rewrite (bindM_ok _ _ _ _ _ E2). exists s2, (Ok b). split; [done|]. split; [done|]. left.
  exists b. split; [done|]. split; [done|]. intros x. split; [done| | | |cbn; lia|].
  - apply (touches_weaken _ _ _ _ Hto). done.
  - intros p Hp. right. by apply Hnew.
  - intros p Hp. destruct (Hm p Hp) as [Hs [f Hf]]. split; [by apply (remaps_taken Hr2), Ht1|]. split; [by rewrite Hf|done].
  - intros i Hi. cbn in Hi. assert (inside b (b_start b + i)) as Hp by (unfold inside; lia).
    destruct (Hm _ Hp) as [_ [f Hf]]. exists f. split; [done|]. rewrite <- (foreign_keeps _ _ _ K1).
    by apply (map_not_foreign s1 s2 b flags (b_start b + i) f _ (retakes_wf Hr1) E2 Hp Hf).
Qed.

(** Mapping the pages behind a held block of [n] pages, once they are reserved. *)
Lemma extend_spec s s1 old e flags : big_wf s -> block_nonempty old -> held s old -> usable_flags flags ->
  b_end old < e -> block_wf Page (mkBlock (b_end old) e) -> block_wf Page (mkBlock (b_start old) e) ->
  keeps s s1 -> retakes (fun p => ~ taken s p) s s1 ->
  (forall p, inside (mkBlock (b_end old) e) p -> ~ taken s p /\ taken s1 p /\ backing s p = None) ->
  exists s' r, big_map (mkBlock (b_end old) e) flags s1 = (s', r) /\ keeps s s' /\
    (r = Ok tt /\ grown s s' old (mkBlock (b_start old) e) flags \/
     exists e, r = Err e /\ touches (fun _ => False) s s').
Proof.
  intros Hw [Hb Hne] Hh Hfl He Hext Hnew K1 Hr1 Hin. set (ext := mkBlock (b_end old) e) in *.
  pose proof (retakes_wf Hr1) as Hw1. pose proof (retakes_free_touches _ _ Hr1) as Hto1.
  assert (block_nonempty ext) as Hene by (split; [done|cbn; lia]).
  assert (forall p, inside ext p -> taken s1 p) as Ht1 by (intros p Hp; by apply Hin).
  pose proof (map_keeps s1 ext flags Hw1) as Hk2.
  destruct (map_law S s1 ext flags Hw1 Hene Hfl Ht1) as [(s2 & E2 & Hr2 & Hm)|(s2 & e' & E2 & Hr2)];
    pose proof (op_keeps _ _ _ _ Hk2 E2) as K2; pose proof (keeps_trans _ _ _ K1 K2) as K;
    assert (touches (fun _ => False) s s2) as Hto
      by (apply (touches_trans _ (inside ext) _ s1); [done|by apply remaps_touches|]; intros p Hp Ht; by apply (Hin p Hp)).
  2:{ exists s2, (Err e'). eauto 10. }
  assert (forall p, ~ inside ext p -> backing s2 p = backing s p) as Hsame.
  { intros p Hp. by rewrite (remaps_backing Hr2), (retakes_backing Hr1). }
  exists s2, (Ok tt). split; [done|]. split; [done|]. left. split; [done|].
  assert (forall p, inside (mkBlock (b_start old) e) p -> inside old p \/ inside ext p) as Hsplit.
  { intros p. unfold inside, ext. cbn. lia. }
  assert (forall p, inside old p -> ~ inside ext p) as Hdis by (intros p; unfold inside, ext; cbn; lia).
  split; [split; [done|cbn; lia]| | | | |].
  - apply (touches_weaken _ _ _ _ Hto). done.
  - intros p [Hp|Hp]%Hsplit; [by left|right; by apply Hin].
  - intros p [Hp|Hp]%Hsplit.
    + destruct (Hh p Hp) as (Ht & Hbk & Hso). split; [apply (touches_taken Hto); [done|by intros ?]|]. rewrite Hsame by auto. split; [done|].
      intros q f fl f' fl' Hq. rewrite (Hsame p) by auto. intros E Eq. destruct (decide (inside ext q)) as [Hqe|Hqe].
      * destruct (Hm q Hqe) as [Hs _]. intros ->. apply (Hs p f' fl' f' fl); [congruence|done|by rewrite Hsame by auto|done].
      * rewrite Hsame in Eq by done. by apply (Hso q f fl f' fl').
    + destruct (Hm p Hp) as [Hs [f Hf]]. split; [by apply (remaps_taken Hr2), Ht1|]. split; [by rewrite Hf|done].
  - intros i f fl Hi E. exists fl. split; [|by left]. cbn. rewrite Hsame; [done|]. apply Hdis. unfold inside. lia.
  - intros i Hi. cbn in Hi. assert (inside ext (b_start old + i)) as Hp by (unfold inside, ext; cbn; lia).
    destruct (Hm _ Hp) as [_ [f Hf]]. exists f. split; [done|]. rewrite <- (foreign_keeps _ _ _ K1).
    by apply (map_not_foreign s1 s2 ext flags (b_start old + i) f _ Hw1 E2 Hp Hf).
Qed.

(** A held block [old] whose frames are mapped once more at the start of a new block [b],
    the rest of which has fresh frames. *)
Record moving (s s' : S) (old b : Block) (flags : Z) : Prop := {
  mv_touches : touches (fun _ => False) s s';
  mv_taken : forall p, inside b p -> ~ taken s p /\ taken s' p;
  mv_else : forall p, ~ inside b p -> backing s' p = backing s p;
  mv_kept : forall i f fl, 0 <= i < b_end old - b_start old -> backing s (b_start old + i) = Some (f, fl) ->
    backing s' (b_start b + i) = Some (f, Z.lor (Z.lor fl (big_flags s)) PageTableFlags.PRESENT);
  mv_new : forall i, b_end old - b_start old <= i < b_end b - b_start b ->
    sole_owner s' (b_start b + i) /\
    exists f, backing s' (b_start b + i) = Some (f, Z.lor flags PageTableFlags.PRESENT) /\ ~ foreign s f;
}.

(** Giving the old block back completes the move. *)
Lemma moved_spec s s3 old b flags : big_wf s -> block_nonempty old -> held s old -> block_nonempty b ->
  b_end old - b_start old <= b_end b - b_start b -> keeps s s3 -> moving s s3 old b flags ->
  exists s', (let! _ := big_unmap old in let! _ := big_unreserve old in retM b) s3 = (s', Ok b) /\ keeps s s' /\
    grown s s' old b flags.
Proof.
  intros Hw Hob Hh Hb Hle K Hm. destruct Hm as [Hto Htk Helse Hkept Hnew].
  assert (forall p, inside old p -> ~ inside b p) as Hdis by (intros p Hp Hq; by apply (proj1 (Htk p Hq)), Hh).
  assert (forall p, inside old p -> taken s3 p /\ backing s3 p <> None) as Hold3.
  { intros p Hp. destruct (Hh p Hp) as (Ht & Hbk & _). split; [by apply (touches_taken Hto); [|intros ?]|].
    rewrite Helse by auto. done. }
  pose proof (unmap_keeps s3 old (touches_wf Hto)) as Hk4.
  destruct (unmap_law S s3 old (touches_wf Hto) Hob Hold3) as (s4 & E4 & Hr4 & Hgone).
  pose proof (op_keeps _ _ _ _ Hk4 E4) as K4. pose proof (unreserve_keeps s4 old (remaps_wf Hr4)) as Hk5.
  destruct (unreserve_law S s4 old (remaps_wf Hr4) Hob) as (s5 & E5 & Hr5).
  { intros p Hp. split; [apply (remaps_taken Hr4), Hold3, Hp|by apply Hgone]. }
  pose proof (op_keeps _ _ _ _ Hk5 E5) as K5.
  assert (forall p, ~ inside old p -> backing s5 p = backing s3 p) as Hsame.
  { intros p Hp. by rewrite (retakes_backing Hr5), (remaps_backing Hr4). }
  assert (forall p, inside old p -> backing s5 p = None) as Hnone.
  { intros p Hp. rewrite (retakes_backing Hr5). by apply Hgone. }
  assert (forall p, inside b p -> ~ inside old p) as Hdis' by (intros p Hp Hq; by apply (Hdis p)).
  assert (forall i f fl, 0 <= i < b_end old - b_start old -> backing s5 (b_start b + i) = Some (f, fl) ->
    exists fl0, backing s (b_start old + i) = Some (f, fl0)) as Hback.
  { intros i f fl Hi. rewrite Hsame by (apply Hdis'; unfold inside; lia).
    destruct (Hh (b_start old + i)) as (_ & Hbk & _); [unfold inside; lia|].
    destruct (backing s (b_start old + i)) as [[f0 fl0]|] eqn:E; [|done]. rewrite (Hkept i f0 fl0) by done.
    intros [= -> _]. eauto. }
  exists s5. split; [by rewrite (bindM_ok _ _ _ _ _ E4), (bindM_ok _ _ _ _ _ E5)|].
  split; [by apply (keeps_trans _ s3); [|apply (keeps_trans _ s4)]|]. split; [done| | | | |].
  - apply (touches_trans _ (inside old) _ s3); [apply (touches_weaken _ _ _ _ Hto); done| |done].
    apply (touches_trans _ (inside old) _ s4); [by apply remaps_touches|by apply retakes_touches|done].
  - intros p Hp. right. by apply Htk.
  - intros p Hp. destruct (Htk p Hp) as [_ Ht3]. set (i := p - b_start b).
    assert (p = b_start b + i) as Ep by lia. assert (0 <= i < b_end b - b_start b) as Hi by (unfold inside in Hp; lia).
    split; [apply (retakes_taken Hr5); [by apply Hdis'|by apply (remaps_taken Hr4)]|].
    destruct (Z.lt_ge_cases i (b_end old - b_start old)) as [Hlt|Hge].
    + destruct (Hh (b_start old + i)) as (_ & Hbk & Hso); [unfold inside; lia|].
      split. { rewrite Ep, Hsame by (rewrite <- Ep; auto). destruct (backing s (b_start old + i)) as [[f fl]|] eqn:E; [|done].
               by rewrite (Hkept i f fl) by (lia || done). }
      intros q f fl f' fl' Hq E Eq. rewrite Ep in E. destruct (Hback i f fl ltac:(lia) E) as [fl0 E0].
      destruct (decide (inside old q)) as [Hqo|Hqo]; [by rewrite Hnone in Eq|].
      destruct (decide (inside b q)) as [Hqb|Hqb].
      * set (j := q - b_start b). assert (q = b_start b + j) as Eqj by lia. unfold inside in Hqb. rewrite Eqj in Eq.
        destruct (Z.lt_ge_cases j (b_end old - b_start old)) as [Hj|Hj].
        -- destruct (Hback j f' fl' ltac:(lia) Eq) as [fl1 E1]. apply (Hso (b_start old + j) f fl0 f' fl1); [lia|done..].
        -- destruct (Hnew j ltac:(lia)) as [Hs _]. intros ->.
           apply (Hs (b_start b + i) f' fl' f' fl); [lia| | |done].
           ++ rewrite <- Hsame; [done|]. by rewrite <- Eqj.
           ++ rewrite <- Hsame; [done|]. rewrite <- Ep. auto.
      * rewrite Hsame, Helse in Eq by done. apply (Hso q f fl0 f' fl'); [|done|done].
        intros ->. apply Hqo. unfold inside. lia.
    + destruct (Hnew i ltac:(lia)) as [Hs (f & Hf & _)]. split; [by rewrite Ep, Hsame, Hf by (rewrite <- Ep; auto)|].
      intros q f0 fl0 f' fl' Hq E Eq. destruct (decide (inside old q)) as [Hqo|Hqo]; [by rewrite Hnone in Eq|].
      rewrite Hsame in E, Eq by auto. rewrite Ep in E. by apply (Hs q f0 fl0 f' fl'); [lia| |].
  - intros i f fl Hi E. eexists. split; [|by right]. rewrite Hsame by (apply Hdis'; unfold inside; lia). by apply Hkept.
  - intros i Hi. destruct (Hnew i Hi) as [_ (f & Hf & Hfo)]. exists f.
    rewrite Hsame by (apply Hdis'; unfold inside; destruct Hob; lia). done.
Qed.

(** Mapping the rest of the new block after the frames of the old one are copied. *)
Lemma fill_spec s s1 s2 old b flags init : big_wf s -> block_nonempty old -> held s old -> usable_flags flags ->
  block_wf Page b -> b_end old - b_start old <= b_end b - b_start b -> keeps s s2 ->
  retakes (fun p => ~ taken s p) s s1 -> (forall p, inside b p -> ~ taken s p /\ taken s1 p) ->
  let copy := mkBlock (b_start b) (b_start b + (b_end old - b_start old)) in
  remaps (inside copy) s1 s2 ->
  (forall i f fl, 0 <= i < b_end old - b_start old -> backing s (b_start old + i) = Some (f, fl) ->
    backing s2 (b_start b + i) = Some (f, Z.lor (Z.lor fl (big_flags s)) PageTableFlags.PRESENT)) ->
  exists s3 r,
    (if b_end old - b_start old <? b_end b - b_start b then
       let! new_additional_start := liftM (usize_add (b_start b) (b_end old - b_start old)) in
       let! new_additional_block := liftM (block_from_index Page new_additional_start (b_end b)) in
       let! _ := big_map new_additional_block flags in
       liftM (initialize_block new_additional_block init)
     else retM tt) s2 = (s3, r) /\ keeps s s3 /\
    (r = Ok tt /\ moving s s3 old b flags \/ exists e, r = Err e /\ touches (fun _ => False) s s3).
Proof.
  intros Hw [Hob Hone] Hh Hfl Hb Hle K Hr1 Hin copy Hr2 Hkept. set (n := b_end old - b_start old) in *.
  assert (forall p, inside copy p -> inside b p) as Hcb by (intros p; unfold inside, copy; cbn; lia).
  assert (touches (fun _ => False) s s2) as Hto2.
  { apply (touches_trans _ (inside copy) _ s1); [by apply retakes_free_touches|by apply remaps_touches|].
    intros p Hp Ht. by apply (Hin p (Hcb p Hp)). }
  assert (forall p, ~ inside copy p -> backing s2 p = backing s p) as Helse2.
  { intros p Hp. by rewrite (remaps_backing Hr2), (retakes_backing Hr1). }
  assert (forall p, inside b p -> taken s2 p) as Ht2 by (intros p Hp; by apply (remaps_taken Hr2), Hin).
  destruct (Z.ltb_spec n (b_end b - b_start b)) as [Hlt|Hge].
  2:{ exists s2, (Ok tt). split; [done|]. split; [done|]. left. split; [done|]. split; [done| | |done|lia].
      - intros p Hp. split; [by apply Hin|by apply Ht2].
      - intros p Hp. apply Helse2. intros Hc. by apply Hp, Hcb. }
  set (rest := mkBlock (b_start b + n) (b_end b)).
  assert (block_wf Page rest) as Hrw by (apply (wf_sub b); [done|lia..]).
  pose proof (wf_usize _ _ Hrw) as [U1 U2]. cbn [b_start b_end rest] in U1, U2.
  rewrite usize_add_ok, bindM_lift, wf_from_index, bindM_lift by done.
  assert (forall p, inside rest p -> inside b p) as Hrb by (intros p; unfold inside, rest; cbn; lia).
  assert (forall p, inside copy p -> ~ inside rest p) as Hcr by (intros p; unfold inside, rest, copy; cbn; lia).
  assert (block_nonempty rest) as Hrne by (split; [done|cbn; lia]).
  pose proof (map_keeps s2 rest flags (touches_wf Hto2)) as Hk3.
  destruct (map_law S s2 rest flags (touches_wf Hto2) Hrne Hfl) as [(s3 & E3 & Hr3 & Hm)|(s3 & e & E3 & Hr3)];
    [intros p Hp; by apply Ht2, Hrb| |]; pose proof (op_keeps _ _ _ _ Hk3 E3) as K3;
    pose proof (keeps_trans _ _ _ K K3) as K';
    assert (touches (fun _ => False) s s3) as Hto3
      by (apply (touches_trans _ (inside rest) _ s2); [done|by apply remaps_touches|]; intros p Hp Ht; by apply (Hin p (Hrb p Hp))).
  2:{ exists s3, (Err e). rewrite (bindM_err _ _ _ _ _ E3). eauto 10. }
  rewrite (bindM_ok _ _ _ _ _ E3).
  assert (0 < b_start rest) as Hpos.
  { cbn. assert (inside b (b_start b)) as H0 by (unfold inside; lia). pose proof (taken_range S s2 _ (touches_wf Hto2) (Ht2 _ H0)). lia. }
  exists s3, (Ok tt). split.
  { unfold initialize_block. case_decide; [|done]. rewrite page_slice_ok by (done || lia || by exists 4096). done. }
  split; [done|]. left. split; [done|]. split; [done| | | |].
  - intros p Hp. split; [by apply Hin|by apply (remaps_taken Hr3), Ht2].
  - intros p Hp. rewrite (remaps_backing Hr3) by (intros Hc; by apply Hp, Hrb). apply Helse2. intros Hc. by apply Hp, Hcb.
  - intros i f fl Hi E. rewrite (remaps_backing Hr3); [by apply Hkept|]. apply Hcr. unfold inside, copy. cbn. fold n in Hi. lia.
  - intros i Hi. fold n in Hi. assert (inside rest (b_start b + i)) as Hp by (unfold inside, rest; cbn; lia).
    destruct (Hm _ Hp) as [Hs [f Hf]]. split; [done|]. exists f. split; [done|]. rewrite <- (foreign_keeps _ _ _ K).
    by apply (map_not_foreign s2 s3 rest flags (b_start b + i) f _ (touches_wf Hto2) E3 Hp Hf).
Qed.

Lemma relocate_spec s old l flags init : big_wf s -> block_nonempty old -> held s old -> layout_valid l ->
  usable_flags flags -> b_end old - b_start old <= pages_of l ->
  exists s' r, relocate old l flags init s = (s', r) /\ keeps s s' /\
    ((exists b, r = Ok b /\ b_end b - b_start b = pages_of l /\ (layout_align l | b_start b * L0_SIZE) /\ grown s s' old b flags) \/
     exists e, r = Err e /\ touches (fun _ => False) s s').
Proof.
  intros Hw Hone Hh Hl Hfl Hle. pose proof Hone as [Hob Hne]. unfold relocate. pose proof (reserve_keeps s l Hw) as Hk1.
  destruct (reserve_law S s l Hw Hl) as [(s1 & b & E1 & Hb & Hcnt & Hal & Hr1 & Hnew)|(s1 & e & E1 & Hr1)];
    pose proof (op_keeps _ _ _ _ Hk1 E1) as K1.
  2:{ rewrite (bindM_err _ _ _ _ _ E1). exists s1, (Err e). split; [done|]. split; [done|]. right.
      exists e. split; [done|by apply retakes_touches]. }
  rewrite (bindM_ok _ _ _ _ _ E1), !wf_count, !bindM_lift by done. rewrite Z.min_l by lia.
  set (copy := mkBlock (b_start b) (b_start b + (b_end old - b_start old))).
  assert (block_wf Page copy) as Hcw by (apply (wf_sub b); [done|lia..]).
  pose proof (wf_usize _ _ Hcw) as [U1 U2]. cbn [b_start b_end copy] in U1, U2.
  rewrite usize_add_ok, bindM_lift, wf_from_index, bindM_lift by done.
  assert (forall p, inside copy p -> inside b p) as Hcb by (intros p; unfold inside, copy; cbn; lia).
  assert (forall p, inside b p -> ~ taken s p /\ taken s1 p) as Hin by (intros p Hp; destruct (Hnew p Hp) as (? & ? & _); done).
  assert (apart old copy) as Hap.
  { unfold apart. destruct (Z.le_gt_cases (b_end old) (b_start copy)); [by left|].
    destruct (Z.le_gt_cases (b_end copy) (b_start old)); [by right|]. exfalso.
    set (p := Z.max (b_start old) (b_start copy)).
    assert (inside old p /\ inside copy p) as [Ho Hc] by (unfold inside, copy in *; cbn in *; lia).
    apply (Hin p (Hcb p Hc)). by apply Hh. }
  assert (block_nonempty copy) as Hcne by (split; [done|cbn; lia]).
  pose proof (copy_keeps s1 old copy None (retakes_wf Hr1)) as Hk2.
  destruct (copy_mapping_law s1 old copy (retakes_wf Hr1) Hone Hcne ltac:(cbn; lia) Hap) as
    [(s2 & E2 & Hr2 & Hkept)|(s2 & e & E2 & Hr2)];
    [intros p Hp; destruct (Hh p Hp) as (Ht & Hbk & _); split; [apply (touches_taken (retakes_free_touches _ _ Hr1)); [done|by intros ?]
      |by rewrite (retakes_backing Hr1)]|intros p Hp; by apply Hin, Hcb| |].
  2:{ rewrite (bindM_err _ _ _ _ _ E2). exists s2, (Err e). split; [done|].
      split; [apply (keeps_trans _ s1); [done|by apply (op_keeps _ _ _ _ Hk2 E2)]|]. right. exists e. split; [done|].
      apply (touches_trans _ (inside copy) _ s1); [by apply retakes_free_touches|by apply remaps_touches|].
      intros p Hp Ht. by apply (Hin p (Hcb p Hp)). }
  rewrite (bindM_ok _ _ _ _ _ E2). pose proof (keeps_trans _ _ _ K1 (op_keeps _ _ _ _ Hk2 E2)) as K2.
  assert (b_end old - b_start old <= b_end b - b_start b) as Hle' by lia.
  destruct (fill_spec s s1 s2 old b flags init Hw Hone Hh Hfl Hb Hle' K2 Hr1 Hin Hr2) as (s3 & r & E3 & K3 & Hcase).
  { intros i f fl Hi E. rewrite <- (retakes_flags Hr1). by apply Hkept; [|rewrite (retakes_backing Hr1)]. }
  rewrite usize_add_ok in E3 by done. destruct Hcase as [(-> & Hmv)|(e & -> & Hto)].
  - rewrite (bindM_ok _ _ _ _ _ E3).
    destruct (moved_spec s s3 old b flags Hw Hone Hh) as (s' & E' & K' & Hg); [split; [done|lia]|lia|done|done|].
    exists s', (Ok b). split; [exact E'|]. split; [done|]. left. eauto.
  - rewrite (bindM_err _ _ _ _ _ E3). exists s3, (Err e). eauto 10.
Qed.

Lemma held_same s s1 b : retakes (fun _ => False) s s1 -> held s b -> held s1 b.
Proof.
  intros Hr Hh p Hp. destruct (Hh p Hp) as (Ht & Hbk & Hso). split; [by apply (retakes_taken Hr); [intros []|]|].
  rewrite (retakes_backing Hr). split; [done|]. intros q f fl f' fl' Hq. rewrite !(retakes_backing Hr). by apply Hso.
Qed.

Lemma grown_same s s1 s' old b flags : keeps s s1 -> retakes (fun _ => False) s s1 -> grown s1 s' old b flags -> grown s s' old b flags.
Proof.
  intros K Hr [Hb Hto Hpl Hh Hk Hn]. split; [done| | |done| |].
  - apply (touches_trans _ (inside old) _ s1); [apply (touches_weaken (fun _ => False)); [by apply retakes_touches|done]|done..].
  - intros p Hp. destruct (Hpl p Hp) as [|Ht]; [by left|right]. intros Ht'. apply Ht. by apply (retakes_taken Hr); [intros []|].
  - intros i f fl Hi E. rewrite <- (retakes_backing Hr) in E. destruct (Hk i f fl Hi E) as (fl' & E' & Hc).
    exists fl'. split; [done|]. unfold copied_flags in *. by rewrite (retakes_flags Hr) in Hc.
  - intros i Hi. destruct (Hn i Hi) as (f & Hf & Hfo). exists f. split; [done|]. by rewrite <- (foreign_keeps _ _ _ K).
Qed.

(** [BigAllocator::grow] never panics on a block the caller holds.  If it succeeds the block has
    the pages of the layout, its old pages keep their frames and its new pages have
    fresh ones; otherwise the block is as before. *)
Lemma grow_spec s old l flags : big_wf s -> block_wf Page old -> held s old -> layout_valid l ->
  usable_flags flags -> 0 < pages_of l -> (b_end old - b_start old) * L0_SIZE <= layout_size l ->
  exists s' r, grow old l flags s = (s', r) /\ keeps s s' /\
    ((exists b, r = Ok b /\ b_end b - b_start b = pages_of l /\ grown s s' old b flags) \/
     exists e, r = Err e /\ touches (fun _ => False) s s').
Proof.
  intros Hw Hob Hh Hl Hfl Hpos Hsz. unfold grow. rewrite wf_size, bindM_lift by done. change (SIZE_OF Page) with L0_SIZE.
  rewrite (proj2 (Z.ltb_ge _ _)) by lia. unfold is_empty. pose proof (wf_order _ _ Hob) as Hord.
  destruct (Z.eqb_spec (b_start old) (b_end old)) as [He|He].
  { destruct (reserve_map_spec s l flags Hw Hl Hpos Hfl) as (s' & r & E & K & [(b & -> & Hc & Hg)|(e & -> & Hto)]);
      exists s'; eexists; (split; [exact E|]); split; [done| |done|]; [left|right; eauto].
    exists b. split; [done|]. split; [done|]. destruct old as [x y]. cbn in He. subst y. apply Hg. }
  assert (block_nonempty old) as Hone by (split; [done|lia]).
  assert (forall p, inside old p -> 0 < p < LOWER_HALF_PAGES) as Hlow by (intros p Hp; by apply (taken_range S s), Hh).
  pose proof (Hlow (b_start old) ltac:(unfold inside; lia)) as Hlo. pose proof (proj1 Hl) as [Hs0 Hs1]. unfold ISIZE_MAX in Hs1.
  pose proof (div_ceil_spec (layout_size l) L0_SIZE ltac:(done)) as Hdc. change (div_ceil (layout_size l) L0_SIZE) with (pages_of l) in Hdc.
  rewrite usize_add_ok, bindM_lift, usize_sub_ok, bindM_lift by (unfold is_usize; change L0_SIZE with 4096; lia).
  assert ((layout_size l + L0_SIZE - 1) / L0_SIZE = pages_of l) as -> by (change L0_SIZE with 4096 in *; Z.div_mod_to_equations; lia).
  rewrite usize_add_ok, bindM_lift by (unfold is_usize; change L0_SIZE with 4096 in *; lia).
  destruct (block_from_index Page (b_start old) (b_start old + pages_of l)) as [nb|e|] eqn:Enb;
    [|exists s, (Err e); split; [done|]; split; [apply keeps_refl|]; right; exists e; split; [done|by apply touches_refl]
     |by apply block_from_index_total in Enb].
  apply block_from_index_spec in Enb as [-> Hnb].
  2,3: unfold is_usize; change L0_SIZE with 4096 in *; lia.
  rewrite !bindM_lift, !wf_count, !bindM_lift by done. cbn [b_start b_end].
  destruct (Z.eqb_spec (b_end old - b_start old) (b_start old + pages_of l - b_start old)) as [Hc|Hc].
  { exists s, (Ok old). split; [done|]. split; [apply keeps_refl|]. left. exists old. split; [done|]. split; [lia|].
    split; [done|by apply touches_refl|by left|done| |lia]. intros i f fl Hi E. exists fl. split; [done|by left]. }
  assert (b_end old < b_start old + pages_of l) as Hlt by (change L0_SIZE with 4096 in *; lia).
  assert (block_wf Page (mkBlock (b_end old) (b_start old + pages_of l))) as Hext by (apply (wf_sub _ _ _ Hnb); cbn; lia).
  rewrite wf_from_index, bindM_lift by done. pose proof (reserve_fixed_keeps s (mkBlock (b_end old) (b_start old + pages_of l)) Hw) as Hk1.
  destruct (reserve_fixed_law S s (mkBlock (b_end old) (b_start old + pages_of l)) Hw) as [(s1 & E1 & Hr1 & Hin)|(s1 & e & E1 & Hr1)];
    [split; [done|cbn; lia]| |]; pose proof (op_keeps _ _ _ _ Hk1 E1) as K1.
  - rewrite (bindM_ok _ _ _ s1 true) by (unfold succeeds; by rewrite E1).
    destruct (extend_spec s s1 old (b_start old + pages_of l) flags) as (s2 & r & E2 & K2 & [(-> & Hg)|(e & -> & Hto)]); try done.
    + rewrite (bindM_ok _ _ _ _ _ E2). eexists s2, _. split; [done|]. split; [done|]. left. eexists. split; [done|]. split; [cbn; lia|done].
    + rewrite (bindM_err _ _ _ _ _ E2). exists s2, (Err e). eauto 10.
  - rewrite (bindM_ok _ _ _ s1 false) by (unfold succeeds; by rewrite E1).
    assert (held s1 old) as Hh1 by (by apply (held_same s)).
    destruct (relocate_spec s1 old l flags Garbage) as (s2 & r & E2 & K2 & [(b & -> & Hcnt & _ & Hg)|(e' & -> & Hto)]);
      try done; [apply (retakes_wf Hr1)|lia|exists s2, (Ok b)|exists s2, (Err e')];
      (split; [done|]); (split; [by apply (keeps_trans _ s1)|]); [left|right].
    + exists b. split; [done|]. split; [done|]. by apply (grown_same s s1).
    + exists e'. split; [done|]. apply (touches_trans _ (fun _ => False) _ s1); [by apply retakes_touches|done..].
Qed.

End Grow.
