(* ===== verification/BigCopy.v ===== *)
(** * BigCopy: copying mappings

    Proves the methods [copy_mapping] and [grow] of the page allocator of
    [kernel/src/allocator/big.rs], whose definitions are in [Big] and
    [BigAllocator], and states that this allocator implements the interface. *)

From Stdlib Require Import ZArith Lia.
From stdpp Require Import base list numbers tactics gmap.
From S2P Require Import Prelude Addr Frage Block Mmu FrameAllocator Range Mapping AddressSpace BigAllocator Big Grow.
From S2P Require PageAllocator MappingCopy.

Open Scope Z_scope.
Open Scope outcome_scope.

(** ** One page *)

(** The entry of a mapped page. *)
Lemma resolve_entry st root v p f : tree_wf (memory st) root -> resolve root v st = (st, Ok (p, f)) ->
  exists loc pte, translate root v st = (st, Ok loc) /\ read_pte loc st = (st, Ok pte) /\
    Pte.is_present pte = Ok true /\ Pte.frame pte = Ok p /\ Pte.flags pte = Ok f /\
    is_flags f /\ PageTableFlags.is_huge f = false.
Proof.
  intros Ht Hr. pose proof (path_get_spec st root v Ht) as Hg. unfold resolve in Hr.
  assert (translate root v st = path_get (fresh_path (memory st) root v) st) as Etr.
  { unfold translate. by rewrite (bindM_ok _ _ _ _ _ (mapping_path_spec st root v Ht)). }
  destruct (node (memory st) root (leaf_path v)) as [g|] eqn:Eg.
  2:{ destruct Hg as (e & He & _). rewrite <- Etr in He. rewrite (bindM_err _ _ _ _ _ He) in Hr. discriminate Hr. }
  destruct (read_entry st root (leaf_path v) g v 0 Ht) as (table & pte & _ & _ & Hread & Hok & _); [cbn; lia|done|lia|].
  change (is_leaf (leaf_path v)) with true in Hok.
  destruct (entry_view _ _ Hok) as (p' & f' & _ & Hf & _ & Hfl & _ & Hpr & _ & Hfr & Hh & _).
  destruct (Hfr Hh) as [Hfr' _]. exists (pte_location v 0 g), pte. rewrite Etr. do 2 (split; [done|]).
  rewrite <- Etr in Hg. rewrite (bindM_ok _ _ _ _ _ Hg), (bindM_ok _ _ _ _ _ Hread), Hfr', Hfl in Hr.
  destruct (PageTableFlags.is_present f'); [|discriminate Hr]. rewrite !bindM_lift in Hr. by injection Hr as <- <-.
Qed.

(** The flags of a copied page: the requested ones, or those of the page and of the
    allocator. *)
Definition copied_flags (dst_flags : Z) (request : option Z) (fl : Z) : Z :=
  match request with Some new => new | None => Z.lor fl dst_flags end.

(** The flags that may be requested of an allocator. *)
Definition allowed (dst_flags : Z) (request : option Z) : Prop :=
  match request with
  | Some new => usable_flags new /\ (PageTableFlags.is_user new = true \/ new = dst_flags)
  | None => True
  end.

Lemma copied_usable dst_flags request fl : usable_flags dst_flags -> allowed dst_flags request -> usable_flags fl ->
  usable_flags (copied_flags dst_flags request fl).
Proof.
  intros [Hd Hdh] Hr [Hf Hfh]. destruct request as [new|]; [apply Hr|]. split; [by apply is_flags_lor|].
  cbn. by rewrite huge_lor, Hdh, Hfh.
Qed.

Section Copy.
  Context (sp : AddressSpace) (root : Z) (Hroot : mapping_root sp = Some root).
  Context (dflags : Z) (Hfl : usable_flags dflags) (request : option Z) (Hreq : allowed dflags request).

Lemma references_few st paths rest f : kernel_wf st root paths rest -> Z.of_nat (length rest) < 2 ^ 62 ->
  references (rest ++ root :: refs (memory st) root paths) f < USIZE_MAX.
Proof.
  intros Hk Hr. pose proof (MappingCopy.held_length st root paths rest Hk Hr) as Hl. unfold MappingCopy.held in Hl.
  pose proof (references_length (rest ++ root :: refs (memory st) root paths) f). lia.
Qed.

Lemma copy_page_spec st paths rest src dst f fl :
  kernel_wf st root paths rest -> Z.of_nat (length rest) < 2 ^ 62 ->
  canonical src -> canonical dst -> src / 4096 <> dst / 4096 -> resolve root src st = (st, Ok (f, fl)) ->
  exists st' paths' r, copy_page sp sp dflags request src dst st = (st', r) /\ kernel_wf st' root paths' rest /\
    (forall v, canonical v -> v / 4096 <> dst / 4096 -> same_mapping st st' root v) /\
    ((r = Ok tt /\ resolve root dst st' = (st', Ok (f, Z.lor (copied_flags dflags request fl) PageTableFlags.PRESENT))) \/
     exists e, r = Err e /\ map_error e).
Proof using Hroot Hfl Hreq.
  intros Hk Hrest Hs Hd Hne Hr. pose proof (kw_tree _ _ _ _ Hk) as Ht.
  destruct (resolve_entry st root src f fl Ht Hr) as (loc & pte & Etr & Erd & Hpr & Hfr & Hflags & Hff & Hfh).
  assert (okM (let! loc := space_translate sp src in read_pte loc) st = (st, Ok (Some pte))) as E1.
  { unfold okM, space_translate, mapping. rewrite Hroot. cbn [ok_or unwrap]. unfold bindM, liftM. by rewrite Etr, Erd. }
  unfold copy_page. rewrite (bindM_ok _ _ _ _ _ E1), Hpr, bindM_lift. cbn [negb].
  rewrite Hfr, bindM_lift, Hflags, (bindM_ok _ _ st st (copied_flags dflags request fl)) by (by destruct request).
  destruct (copied_usable dflags request fl Hfl Hreq (conj Hff Hfh)) as [Hcf Hch].
  assert (exists st1 paths1 u, okM (unmap_page sp dst) st = (st1, Ok u) /\ kernel_wf st1 root paths1 rest /\
    forall v, canonical v -> v / 4096 <> dst / 4096 -> same_mapping st st1 root v) as (st1 & paths1 & u & E2 & Hk1 & Hsame1).
  { unfold okM. destruct (unmap_page_spec st sp root paths rest dst Hroot Hk Hd) as
      [(r & st1 & ps & _ & -> & Hk1 & _ & Ho)|(e & e' & _ & -> & _)]; eexists _, _, _; (split; [done|]); [done|].
    split; [done|]. intros v _ _. by apply same_mapping_refl. }
  rewrite (bindM_ok _ _ _ _ _ E2).
  pose proof (Hsame1 src Hs Hne) as Hsrc. unfold same_mapping in Hsrc. rewrite Hr in Hsrc.
  pose proof (resolve_in_refs st1 root paths1 rest src f fl Hk1 Hsrc) as Hin.
  destruct (map_page_to_frame_spec sp root Hroot (copied_flags dflags request fl) Hcf Hch st1 paths1 rest dst f Hk1 Hd) as
    [(st2 & paths2 & E3 & Hk2 & Hpage & Hoth)|(st2 & e & paths2 & E3 & He & Hk2 & Hoth)].
  { apply elem_of_app. right. by right. }
  { by apply references_few. }
  - exists st2, paths2, (Ok tt). split; [done|]. split; [done|]. split.
    + intros v Hv Hvd. eapply same_mapping_trans; [by apply Hsame1|by apply Hoth].
    + left. split; [done|]. by apply Hpage.
  - exists st2, paths2, (Err e). split; [done|]. split; [done|]. split; [|eauto].
    intros v Hv Hvd. eapply same_mapping_trans; [by apply Hsame1|by apply Hoth].
Qed.

(** ** Blocks *)

Lemma next_page i n : block_wf Page (mkBlock i (i + n)) -> 0 < n ->
  into_iter_next Page (mkBlock i (i + n)) = Ok (Some (i * 4096, mkBlock (i + 1) (i + n))) /\ canonical (i * 4096).
Proof.
  intros Hb Hn. unfold into_iter_next. cbn [b_start b_end]. rewrite (proj2 (Z.ltb_lt _ _)) by lia.
  destruct (wf_element _ i Hb ltac:(cbn; lia)) as [Hv _].
  rewrite (proj2 (mem_from_index_spec i _ (proj1 (wf_usize _ _ Hb))) (conj eq_refl Hv)).
  split; [done|]. by apply virt_valid_iff in Hv.
Qed.

Lemma zip_copy_spec fuel : forall n i j st paths rest,
  (Z.to_nat n < fuel)%nat -> 0 <= n -> (0 < n -> block_wf Page (mkBlock i (i + n)) /\ block_wf Page (mkBlock j (j + n))) ->
  (i + n <= j \/ j + n <= i) -> kernel_wf st root paths rest -> Z.of_nat (length rest) < 2 ^ 62 ->
  (forall k, 0 <= k < n -> ~ unmapped st root ((i + k) * 4096)) ->
  exists st' paths' r,
    for_zip fuel (mkBlock i (i + n)) (mkBlock j (j + n)) (copy_page sp sp dflags request) st = (st', r) /\
    kernel_wf st' root paths' rest /\
    (forall v, canonical v -> ~ (j <= v / 4096 < j + n) -> same_mapping st st' root v) /\
    ((r = Ok tt /\ forall k f fl, 0 <= k < n -> resolve root ((i + k) * 4096) st = (st, Ok (f, fl)) ->
        resolve root ((j + k) * 4096) st' = (st', Ok (f, Z.lor (copied_flags dflags request fl) PageTableFlags.PRESENT))) \/
     exists e, r = Err e /\ map_error e).
Proof using Hroot Hfl Hreq.
  induction fuel as [|fuel IH]; intros n i j st paths rest Hf Hn Hwf Hap Hk Hrest Hmap; [lia|]. cbn [for_zip].
  destruct (decide (n = 0)) as [->|Hn0].
  { unfold into_iter_next. cbn [b_start b_end]. rewrite Z.add_0_r, Z.ltb_irrefl, bindM_lift.
    exists st, paths, (Ok tt). split; [done|]. split; [done|]. split; [|left; split; [done|lia]].
    intros v _ _. apply same_mapping_refl, (kw_tree _ _ _ _ Hk). }
  destruct (Hwf ltac:(lia)) as [Hwi Hwj]. destruct (next_page i n Hwi ltac:(lia)) as [Ei Hci].
  destruct (next_page j n Hwj ltac:(lia)) as [Ej Hcj]. rewrite Ei, bindM_lift, Ej, bindM_lift.
  destruct (resolve_total st root (i * 4096) (kw_tree _ _ _ _ Hk)) as [(f & fl & Er & _)|(e & Er)].
  2:{ exfalso. apply (Hmap 0); [lia|]. rewrite Z.add_0_r. by exists e. }
  destruct (copy_page_spec st paths rest (i * 4096) (j * 4096) f fl Hk Hrest Hci Hcj) as
    (st1 & paths1 & r & E1 & Hk1 & Hsame1 & Hcase); [rewrite !Z.div_mul by lia; lia|done|].
  assert (forall v, canonical v -> v / 4096 <> j -> same_mapping st st1 root v) as Hs1.
  { intros v Hv Hj. apply Hsame1; [done|]. by rewrite Z.div_mul by lia. }
  destruct Hcase as [[-> Hdst]|(e & -> & He)].
  2:{ rewrite (bindM_err _ _ _ _ _ E1). exists st1, paths1, (Err e). split; [done|]. split; [done|]. split; [|eauto].
      intros v Hv Hj. apply Hs1; [done|lia]. }
  rewrite (bindM_ok _ _ _ _ _ E1).
  replace (i + n) with (i + 1 + (n - 1)) by lia. replace (j + n) with (j + 1 + (n - 1)) by lia.
  assert (forall k, 0 <= k < n -> canonical ((i + k) * 4096) /\ canonical ((j + k) * 4096)) as Hcan.
  { intros k Hk'. split; apply virt_valid_iff; [apply (wf_element _ (i + k) Hwi)|apply (wf_element _ (j + k) Hwj)]; cbn; lia. }
  assert (forall k, 0 <= k < n -> same_mapping st st1 root ((i + k) * 4096)) as Hsrc.
  { intros k Hk'. apply Hs1; [by apply Hcan|]. rewrite Z.div_mul by lia. lia. }
  destruct (IH (n - 1) (i + 1) (j + 1) st1 paths1 rest) as (st2 & paths2 & r & E2 & Hk2 & Hsame2 & Hcase);
    [lia|lia| |lia|done|done| |].
  { intros Hpos. split; [apply (wf_sub (mkBlock i (i + n)))|apply (wf_sub (mkBlock j (j + n)))]; cbn; done || lia. }
  { intros k Hk' [e He]. replace (i + 1 + k) with (i + (1 + k)) in He by lia. specialize (Hsrc (1 + k) ltac:(lia)).
    unfold same_mapping in Hsrc. destruct (resolve_total st root ((i + (1 + k)) * 4096) (kw_tree _ _ _ _ Hk)) as [(g & gl & Eg & _)|(e' & Eg)].
    - rewrite Eg in Hsrc. congruence.
    - apply (Hmap (1 + k)); [lia|]. by exists e'. }
  exists st2, paths2, r. split; [done|]. split; [done|]. split.
  { intros v Hv Hj. eapply same_mapping_trans; [apply Hs1; [done|lia]|]. apply Hsame2; [done|lia]. }
  destruct Hcase as [[-> Hall]|He]; [left|by right]. split; [done|]. intros k g gl Hk' Hg.
  destruct (decide (k = 0)) as [->|Hk0].
  - rewrite Z.add_0_r in *. rewrite Er in Hg. injection Hg as <- <-.
    pose proof (Hsame2 (j * 4096) Hcj) as H. unfold same_mapping in H. rewrite Hdst in H.
    apply H. rewrite Z.div_mul by lia. lia.
  - specialize (Hsrc k Hk'). unfold same_mapping in Hsrc. rewrite Hg in Hsrc.
    specialize (Hall (k - 1) g gl ltac:(lia)). replace (i + 1 + (k - 1)) with (i + k) in Hall by lia.
    replace (j + 1 + (k - 1)) with (j + k) in Hall by lia. by apply Hall.
Qed.

(** ** Changing flags *)

Lemma remap_page_spec st paths rest page new f fl :
  kernel_wf st root paths rest -> usable_flags new -> canonical page -> resolve root page st = (st, Ok (f, fl)) ->
  exists st' paths', remap_page sp new page st = (st', Ok tt) /\ kernel_wf st' root paths' rest /\
    resolve root page st' = (st', Ok (f, Z.lor new PageTableFlags.PRESENT)) /\
    (forall v, canonical v -> v / 4096 <> page / 4096 -> same_mapping st st' root v).
Proof using Hroot.
  intros Hk [Hn Hnh] Hp Hr. pose proof (kw_tree _ _ _ _ Hk) as Ht. pose proof (path_get_spec st root page Ht) as Hget.
  pose proof (resolve_spec st root page Ht) as Hs. unfold leaf_pte in Hs.
  destruct (node (memory st) root (leaf_path page)) as [g|] eqn:Eg; cbn [mbind option_bind] in Hs.
  2:{ destruct Hs as [e He]. congruence. }
  destruct (read_leaf st root page g Ht Eg) as (table & pte & q & ql & Htab & Hpte & Hread & Hq & Hql & Heq & Htg & _).
  rewrite Htab in Hs. cbn [mbind option_bind] in Hs. rewrite Hpte in Hs. cbn [mbind option_bind] in Hs. rewrite Htg in Hs.
  destruct (PageTableFlags.is_present ql) eqn:Epr; [|destruct Hs as [e He]; congruence].
  destruct Hs as (q' & ql' & Hq' & Hql' & Heq' & Hr'). rewrite Hr in Hr'. injection Hr' as <- <-.
  destruct (set_phys_inj q ql f fl Hq Hql Hq' Hql') as [-> ->]; [congruence|].
  assert (is_flags (Z.lor new PageTableFlags.PRESENT)) as Hnf by (apply is_flags_lor; [done|by apply is_flags_const]).
  set (npte := Pte.set_phys f (Z.lor new PageTableFlags.PRESENT)).
  assert (target npte = Some f) as Htn.
  { unfold npte. by rewrite target_set_phys, huge_lor, present_lor, Hnh, orb_true_r. }
  assert (entry_ok true npte) as Hok.
  { eexists _, _. do 2 (split; [done|]). split; [done|]. by rewrite huge_lor, Hnh. }
  destruct (kernel_write_leaf st root paths rest (leaf_path page) g table (idx page 0) pte npte Hk eq_refl Eg
              Htab Hpte Hok rest) as (paths' & Hk' & _ & _ & Hleaf); [by rewrite Htg, Htn|].
  set (st1 := mkKmem (frames st) (<[g := <[idx page 0 := npte]> table]> (memory st))) in *.
  pose proof (kw_tree _ _ _ _ Hk') as Ht'. exists st1, paths'. split; [|split; [done|split]].
  - unfold remap_page, mapping. rewrite Hroot. cbn [ok_or]. rewrite bindM_lift.
    rewrite (bindM_ok _ _ _ _ _ (mapping_path_spec st root page Ht)), (bindM_ok _ _ _ _ _ Hget), (bindM_ok _ _ _ _ _ Hread).
    subst pte. unfold Pte.set_flags. rewrite set_phys_phys, bindM_lift by done.
    by rewrite (write_entry st g page 0 table (Pte.set_phys f fl)) by (done || lia).
  - assert (leaf_pte (memory st1) root (leaf_path page) (idx page 0) = Some npte) as Hl.
    { cbn [memory st1]. rewrite Hleaf by done. rewrite decide_True by (split; reflexivity). by rewrite Htn. }
    pose proof (resolve_spec st1 root page Ht') as Hs. rewrite Hl in Hs.
    destruct Hs as (p & h & Hp1 & Hh1 & He & ->). by destruct (set_phys_inj _ _ _ _ Hq Hnf Hp1 Hh1 He) as [-> ->].
  - intros v Hv Hne. apply same_mapping_leaf; [done..|]. rewrite Hleaf by done. rewrite decide_False; [done|].
    by apply page_differs.
Qed.

Lemma remap_pages_spec l new : usable_flags new -> NoDup l -> pages_ok l -> forall st paths rest,
  kernel_wf st root paths rest -> (forall p, p ∈ l -> ~ unmapped st root p) ->
  exists st' paths', for_list (remap_page sp new) l st = (st', Ok tt) /\ kernel_wf st' root paths' rest /\
    (forall v, canonical v -> page_of v ∉ l -> same_mapping st st' root v) /\
    (forall p f fl, p ∈ l -> resolve root p st = (st, Ok (f, fl)) ->
       resolve root p st' = (st', Ok (f, Z.lor new PageTableFlags.PRESENT))).
Proof using Hroot.
  intros Hnew Hnd Hok. induction l as [|p l IH]; intros st paths rest Hk Hmap; cbn [for_list].
  { exists st, paths. split; [done|]. split; [done|].
    split; [intros v _ _; apply same_mapping_refl, (kw_tree _ _ _ _ Hk)|by intros p f fl Hp%not_elem_of_nil]. }
  apply list.NoDup_cons in Hnd as [Hpl Hnd]. destruct (Hok p) as [Hp Hpg]; [left|].
  assert (pages_ok l) as Hok' by (intros q Hq; apply Hok; by right).
  destruct (resolve_total st root p (kw_tree _ _ _ _ Hk)) as [(f & fl & Er & _)|(e & Er)].
  2:{ exfalso. apply (Hmap p); [left|by exists e]. }
  destruct (remap_page_spec st paths rest p new f fl Hk Hnew Hp Er) as (st1 & paths1 & E1 & Hk1 & Hr1 & Hoth1).
  rewrite (bindM_ok _ _ _ _ _ E1).
  assert (forall v, canonical v -> page_of v <> p -> same_mapping st st1 root v) as Hout.
  { intros v Hv Hne. apply Hoth1; [done|]. intros Heq. apply Hne. unfold page_of in *. lia. }
  assert (forall q, q ∈ l -> same_mapping st st1 root q) as Hkeep.
  { intros q Hq. destruct (Hok' q Hq) as [Hcq Hpq]. apply Hout; [done|]. intros Heq. congruence. }
  destruct (IH Hnd Hok' st1 paths1 rest Hk1) as (st2 & paths2 & E2 & Hk2 & Hoth2 & Hall2).
  { intros q Hq [e He]. pose proof (Hkeep q Hq) as Hs. unfold same_mapping in Hs.
    destruct (resolve_total st root q (kw_tree _ _ _ _ Hk)) as [(g & gl & Eg & _)|(e' & Eg)]; rewrite Eg in Hs; [congruence|].
    apply (Hmap q); [by right|by exists e']. }
  exists st2, paths2. split; [done|]. split; [done|]. split.
  { intros v Hv [Hne Hvl]%not_elem_of_cons. apply (same_mapping_trans st st1); [by apply Hout|by apply Hoth2]. }
  intros q g gl [->|Hq]%elem_of_cons Hg.
  - rewrite Er in Hg. injection Hg as <- <-. assert (same_mapping st1 st2 root p) as Hs by (apply Hoth2; [done|congruence]).
    unfold same_mapping in Hs. by rewrite Hr1 in Hs.
  - pose proof (Hkeep q Hq) as Hs. unfold same_mapping in Hs. rewrite Hg in Hs. by apply (Hall2 q g gl).
Qed.

End Copy.

(** ** The allocator *)

(** Two blocks of taken pages are in the same half. *)
Lemma taken_low s b : big_wf s -> block_nonempty b -> (forall p, inside b p -> taken s p) -> b_start b < USER_END.
Proof.
  intros Hw [Hb Hne] Ht. pose proof (taken_range Big s (b_start b) Hw (Ht (b_start b) ltac:(unfold inside; lia))).
  change USER_END with LOWER_HALF_PAGES. lia.
Qed.

Lemma allowed_check dst_flags new : allowed dst_flags (Some new) ->
  negb (PageTableFlags.is_user new) && negb (new =? dst_flags) = false.
Proof. intros [_ [-> | ->]]; [done|]. by rewrite Z.eqb_refl, andb_false_r. Qed.

Lemma copy_apart s old new fl request : big_wf s -> block_nonempty old -> block_nonempty new ->
  b_end old - b_start old = b_end new - b_start new -> apart old new ->
  (forall p, inside old p -> taken s p) -> (forall p, inside new p -> taken s p) -> allowed fl request ->
  copy_mapping true (space (address_space s)) (space (address_space s)) fl old new request (kmem s) =
    for_zip (S (Z.to_nat (b_end old - b_start old))) old new
      (copy_page (space (address_space s)) (space (address_space s)) fl request) (kmem s).
Proof.
  intros Hw Ho Hn Hc Hap Hto Htn Hreq. pose proof Ho as [Hob Hon]. pose proof Hn as [Hnb Hnn].
  unfold copy_mapping. rewrite !wf_count, !bindM_lift, Hc, Z.eqb_refl by done. cbn [negb].
  rewrite (is_disjoint_spec Page) by (done || (apply low_block_half; [done|done| |]; by apply (taken_low s))).
  assert ((b_end old <=? b_start new) || (b_end new <=? b_start old) = true) as ->.
  { apply orb_true_iff. rewrite !Z.leb_le. exact Hap. }
  rewrite (bindM_ok _ _ (kmem s) (kmem s) false) by done.
  destruct request as [new_flags|]; [|done]. by rewrite allowed_check.
Qed.

Lemma copy_same s b fl new : big_wf s -> block_nonempty b -> (forall p, inside b p -> taken s p) ->
  allowed fl (Some new) ->
  copy_mapping true (space (address_space s)) (space (address_space s)) fl b b (Some new) (kmem s) =
    remap_block (space (address_space s)) b new (kmem s).
Proof.
  intros Hw Hb Ht Hreq. pose proof Hb as [Hbb Hne].
  unfold copy_mapping. rewrite !wf_count, !bindM_lift, Z.eqb_refl by done. cbn [negb].
  rewrite (is_disjoint_spec Page) by (done || (apply low_block_half; [done|done| |]; by apply (taken_low s))).
  rewrite (proj2 (Z.leb_gt (b_end b) (b_start b))) by done. cbn [orb].
  rewrite (bindM_ok _ _ (kmem s) (kmem s) true) by done. by rewrite decide_True, allowed_check.
Qed.

(** What a successful copy has mapped, and what every copy keeps. *)
Definition copied (s s' : Big) (old new : Block) (request : option Z) (r : outcome unit) : Prop :=
  remaps (inside new) s s' /\
  ((r = Ok tt /\ forall i f fl, 0 <= i < b_end old - b_start old -> backing s (b_start old + i) = Some (f, fl) ->
      backing s' (b_start new + i) = Some (f, Z.lor (copied_flags (flags s) request fl) PageTableFlags.PRESENT)) \/
   exists e, r = Err e /\ map_error e).

(** The mapped pages of a block of the allocator. *)
Lemma backed_mapped s root b : mapping_root (space (address_space s)) = Some root -> block_wf Page b ->
  (forall p, inside b p -> taken s p /\ backing s p <> None) ->
  forall p, inside b p -> ~ unmapped (kmem s) root (p * 4096).
Proof.
  intros Hr Hb Hold p Hp [e He]. destruct (Hold p Hp) as [_ Hbk]. apply Hbk. cbn [backing Big_view].
  rewrite (backing_resolve s root p Hr) by (by apply (block_page_canonical b)).
  change (p * L0_SIZE) with (p * 4096). by rewrite He.
Qed.

(** From the resolution of pages to the view of the allocator. *)
Lemma copied_intro s km root paths paths' rest old new request r : big_wf s ->
  mapping_root (space (address_space s)) = Some root -> kernel_wf (kmem s) root paths rest ->
  Z.of_nat (length rest) < 2 ^ 62 -> block_nonempty old -> block_nonempty new ->
  b_end old - b_start old = b_end new - b_start new -> (forall p, inside new p -> taken s p) ->
  kernel_wf km root paths' rest ->
  (forall v, canonical v -> ~ (b_start new <= v / 4096 < b_end new) -> same_mapping (kmem s) km root v) ->
  ((r = Ok tt /\ forall k f fl, 0 <= k < b_end old - b_start old ->
      resolve root ((b_start old + k) * 4096) (kmem s) = (kmem s, Ok (f, fl)) ->
      resolve root ((b_start new + k) * 4096) km =
        (km, Ok (f, Z.lor (copied_flags (flags s) request fl) PageTableFlags.PRESENT))) \/
   exists e, r = Err e /\ map_error e) ->
  copied s (mkBig (address_space s) km (flags s)) old new request r.
Proof.
  intros Hinv Hr Hk Hrest [Hob Hon] [Hnb Hnn] Hc Hnew Hk' Hsame Hcase. split.
  { eapply with_kmem_remaps; eauto. intros p Hp. apply (backing_same s root); [done|apply (kw_tree _ _ _ _ Hk)|].
    intros Hcan. apply Hsame; [done|]. rewrite page_index. unfold inside in Hp. lia. }
  destruct Hcase as [[-> Hall]|He]; [left|by right]. split; [done|].
  intros i f fl Hi Hbk. cbn [backing Big_view] in *.
  assert (canonical ((b_start old + i) * L0_SIZE)) as Hco by (apply (block_page_canonical old); [done|unfold inside; lia]).
  assert (canonical ((b_start new + i) * L0_SIZE)) as Hcn by (apply (block_page_canonical new); [done|unfold inside; lia]).
  rewrite (backing_resolve s root _ Hr Hco) in Hbk. rewrite (backing_resolve (mkBig (address_space s) km (flags s)) root _ Hr Hcn). cbn [kmem].
  destruct (resolve_total (kmem s) root ((b_start old + i) * L0_SIZE) (kw_tree _ _ _ _ Hk)) as [(g & gl & Eg & _)|(e & Eg)];
    rewrite Eg in Hbk; [|done]. injection Hbk as -> ->.
  change L0_SIZE with 4096 in *. by rewrite (Hall i f fl Hi Eg).
Qed.

Lemma big_copy_apart s old new request : big_wf s -> block_nonempty old -> block_nonempty new ->
  b_end old - b_start old = b_end new - b_start new -> apart old new ->
  (forall p, inside old p -> taken s p /\ backing s p <> None) -> (forall p, inside new p -> taken s p) ->
  allowed (flags s) request ->
  exists s' r, big_copy old new request s = (s', r) /\ copied s s' old new request r.
Proof.
  intros Hinv Ho Hn Hc Hap Hold Hnew Hreq.
  destruct (inv_tree _ Hinv) as (root & paths & rest & Hr & Hk & Hrest). pose proof Ho as [Hob Hon]. pose proof Hn as [Hnb Hnn].
  set (n := b_end old - b_start old).
  assert (old = mkBlock (b_start old) (b_start old + n)) as Eo by (unfold n; destruct old; cbn; f_equal; lia).
  assert (new = mkBlock (b_start new) (b_start new + n)) as En by (unfold n; destruct new; cbn in *; f_equal; lia).
  destruct (zip_copy_spec (space (address_space s)) root Hr (flags s) (inv_flags _ Hinv) request Hreq (S (Z.to_nat n)) n
    (b_start old) (b_start new) (kmem s) paths rest) as (km & paths' & r & E & Hk' & Hsame & Hcase);
    [lia|lia|by rewrite <- Eo, <- En|unfold apart in Hap; lia|done|done| |].
  { intros k Hk'. apply (backed_mapped s root old); [done|done|done|]. unfold inside. lia. }
  rewrite <- Eo, <- En in E. exists (mkBig (address_space s) km (flags s)), r. split.
  { unfold big_copy, on_kmem. rewrite (copy_apart s old new) by (done || intros p Hp; by apply Hold). unfold n in E. by rewrite E. }
  eapply copied_intro; eauto. intros v Hv Hout. apply Hsame; [done|]. lia.
Qed.

Lemma big_copy_same s b new : big_wf s -> block_nonempty b ->
  (forall p, inside b p -> taken s p /\ backing s p <> None) -> allowed (flags s) (Some new) ->
  exists s' r, big_copy b b (Some new) s = (s', r) /\ copied s s' b b (Some new) r.
Proof.
  intros Hinv Hb Hold Hreq. pose proof Hb as [Hbb Hne].
  destruct (inv_tree _ Hinv) as (root & paths & rest & Hr & Hk & Hrest).
  assert (forall p, inside b p -> taken s p) as Ht by (intros p Hp; by apply Hold).
  unfold big_copy, on_kmem. rewrite (copy_same s b) by done. unfold remap_block.
  destruct (validate_block_flags_cases b new Hbb Hne) as [[-> _]| ->].
  2:{ eexists _, _. split; [done|]. eapply copied_intro; eauto; [|right; exists PermissionDenied; split; [done|by do 2 right]].
      intros v _ _. apply same_mapping_refl, (kw_tree _ _ _ _ Hk). }
  rewrite bindM_lift, for_block_spec by (done || apply _).
  destruct (remap_pages_spec (space (address_space s)) root Hr (elements Page b) new (proj1 Hreq) (elements_nodup b)
    (pages_ok_elements b Hbb) (kmem s) paths rest Hk) as (km & paths' & -> & Hk' & Hoth & Hall).
  { intros p Hp. destruct (elements_page b p Hbb Hp) as (i & -> & Hi & _). by apply (backed_mapped s root b). }
  eexists _, _. split; [done|]. eapply copied_intro; eauto.
  - intros v Hv Hout. apply Hoth; [done|]. intros Hin%page_of_elements%contains_index_iff; done.
  - left. split; [done|]. intros k f fl Hi Hres. eapply Hall; [|exact Hres]. apply elements_in. lia.
Qed.

#[export] Instance Big_copy_laws : CopyLaws Big.
Proof.
  split. intros s old new Hinv Ho Hn Hc Hap Hold Hnew.
  destruct (big_copy_apart s old new None Hinv Ho Hn Hc Hap Hold Hnew I) as (s' & r & E & Hrem & Hcase).
  destruct Hcase as [[-> Hall]|(e & -> & _)]; [left|right]; eauto 10.
Qed.

(** ** Errors *)

(** The errors of the methods.  A refused request changes nothing. *)
Record BigErrors : Prop := {
  reserve_error s l e : big_wf s -> PageAllocator.layout_valid l -> (reserve l s).2 = Err e ->
    e = NoPage /\ reserve l s = (s, Err e) /\
    b_end (PageAllocator.block (pages_allocator s)) - b_start (PageAllocator.block (pages_allocator s)) <
      PageAllocator.pages_of l + PageAllocator.extra_of l;
  reserve_fixed_error s b e : big_wf s -> block_nonempty b -> (reserve_fixed b s).2 = Err e ->
    reserve_fixed b s = (s, Err e) /\
    (e = PermissionDenied \/ e = NoPage /\ contains_block (PageAllocator.block (pages_allocator s)) b = false);
  rereserve_error s b sub : contains_block b sub = false -> rereserve b sub s = (s, Err InvalidArgument);
  map_errors s b fl e : big_wf s -> block_nonempty b -> usable_flags fl -> (map b fl s).2 = Err e ->
    e = NoFrame \/ e = Unimplemented \/ e = PermissionDenied;
  copy_size_error s old new fl : block_wf Page old -> block_wf Page new ->
    b_end old - b_start old <> b_end new - b_start new -> big_copy old new fl s = (s, Err InvalidArgument);
  copy_overlap_error s old new fl : block_nonempty old -> block_nonempty new ->
    b_start old < USER_END -> b_start new < USER_END -> b_end old - b_start old = b_end new - b_start new ->
    ~ apart old new -> old <> new \/ fl = None -> big_copy old new fl s = (s, Err InvalidArgument);
  copy_flags_error s old new fl : block_nonempty old -> block_nonempty new ->
    b_start old < USER_END -> b_start new < USER_END -> b_end old - b_start old = b_end new - b_start new ->
    apart old new \/ old = new -> PageTableFlags.is_user fl = false -> fl <> flags s ->
    big_copy old new (Some fl) s = (s, Err PermissionDenied);
}.

Lemma big_self (s : Big) : mkBig (address_space s) (kmem s) (flags s) = s.
Proof. by destruct s. Qed.

Lemma overlap_ok old new : block_nonempty old -> block_nonempty new -> b_start old < USER_END -> b_start new < USER_END ->
  is_disjoint Page old new = Ok ((b_end old <=? b_start new) || (b_end new <=? b_start old)).
Proof. intros [Ho Hon] [Hn Hnn] H1 H2. apply (is_disjoint_spec Page); try done. by apply low_block_half. Qed.

Lemma apart_bool old new : (b_end old <=? b_start new) || (b_end new <=? b_start old) = true <-> apart old new.
Proof. rewrite orb_true_iff, !Z.leb_le. done. Qed.

Lemma big_errors : BigErrors.
Proof.
  split.
  - intros s l e Hw Hl He.
    destruct (PageAllocator.page_allocate_spec (pages_allocator s) l (inv_pages _ Hw) Hl) as
      [(_ & E)|[(_ & Hroom & E)|(_ & pa & b & E & _)]]; apply reserve_with in E; rewrite E in He |- *; cbn in He.
    + discriminate He.
    + injection He as <-. by rewrite with_allocator_id.
    + discriminate He.
  - intros s b e Hw Hb He. destruct Hb as [Hb Hne].
    destruct (validate_block_flags_cases b (flags s) Hb Hne) as [[Hv Hside]|Hv].
    2:{ unfold reserve_fixed, AddressSpace.reserve in *. rewrite Hv in *. cbn in *. injection He as <-.
        split; [by destruct s|by left]. }
    destruct (PageAllocator.reserve_spec (pages_allocator s) b (inv_pages _ Hw) Hb) as [(Hc & E)|(_ & pa & E & _)];
      apply (reserve_fixed_with s b _ _ Hb Hne Hv Hside) in E; rewrite E in He |- *; cbn in He; [|discriminate He].
    injection He as <-. rewrite with_allocator_id. split; [done|by right].
  - intros s b sub Hc. unfold rereserve. by rewrite Hc.
  - intros s b fl e Hw [Hb Hne] [Hfl Hh] He. destruct (inv_tree _ Hw) as (root & paths & rest & Hr & Hk & _).
    unfold map, on_kmem in He.
    destruct (map_block_spec (kmem s) (space (address_space s)) root paths rest b fl Hk Hr Hfl Hh Hb Hne) as
      [(km & ps & E & _)|(km & e' & ps & E & Herr & _)]; rewrite E in He; cbn in He; [discriminate He|].
    by injection He as <-.
  - intros s old new fl Ho Hn Hc. unfold big_copy, on_kmem, copy_mapping. rewrite !wf_count, !bindM_lift by done.
    rewrite (proj2 (Z.eqb_neq _ _)) by done. cbn. by rewrite big_self.
  - intros s old new fl Ho Hn H1 H2 Hc Hap Hf. unfold big_copy, on_kmem, copy_mapping.
    rewrite !wf_count, !bindM_lift, Hc, Z.eqb_refl, overlap_ok by (done || apply Ho || apply Hn). cbn [negb].
    destruct (_ || _) eqn:E; [by apply apart_bool in E|]. rewrite (bindM_ok _ _ (kmem s) (kmem s) true) by done.
    destruct fl as [fl|]; [destruct (decide (old = new)); [by destruct Hf|]|]; cbn; by rewrite big_self.
  - intros s old new fl Ho Hn H1 H2 Hc Hap Hu Hf. unfold big_copy, on_kmem, copy_mapping.
    rewrite !wf_count, !bindM_lift, Hc, Z.eqb_refl, overlap_ok by (done || apply Ho || apply Hn). cbn [negb].
    destruct (_ || _) eqn:E.
    + rewrite (bindM_ok _ _ (kmem s) (kmem s) false) by done. rewrite Hu, (proj2 (Z.eqb_neq _ _)) by done. cbn. by rewrite big_self.
    + rewrite (bindM_ok _ _ (kmem s) (kmem s) true) by done. rewrite Hu, (proj2 (Z.eqb_neq _ _)) by done. cbn [negb andb].
      destruct (decide (old = new)) as [|Hne]; [cbn; by rewrite big_self|]. destruct Hap as [Hap|Hap]; [|done].
      apply apart_bool in Hap. congruence.
Qed.

(** ** The allocator implements the interface *)

(** Nothing is around the allocator. *)
#[export] Instance Big_alone : Surroundings Big.
Proof. by refine {| keeps := fun _ _ => True; foreign := fun _ _ => False |}; auto. Defined.

