(* ===== verification/Pair.v ===== *)
(** * Pair: two page allocators at once

    Models the trait of [ku/src/allocator/big_pair.rs], through which code that runs in
    one address space fills another one, and states what it promises for two
    different address spaces. *)

From Stdlib Require Import ZArith Lia.
From stdpp Require Import base list numbers tactics gmap.
From S2P Require Import Prelude Addr Frage Block Mmu PageAllocator BigAllocator Grow.

Open Scope Z_scope.
Open Scope outcome_scope.

Class BigAllocatorPair (S : Type) := {
  pair_dst : BigAllocator S;
  pair_src : BigAllocator S;
  pair_is_same : S -> bool;
  pair_copy_mapping : Block -> Block -> option Z -> M S unit;
}.

(** The views of both allocators. *)
Class PairView (S : Type) := {
  dst_view : BigView S;
  src_view : BigView S;
}.

Section Pair.
  Context (S : Type) `{BigAllocatorPair S} `{PairView S}.

(** Both states look the same through an allocator. *)
Record same_view (alloc : BigAllocator S) (view : BigView S) (s s' : S) : Prop := {
  sv_wf : @big_wf S view s -> @big_wf S view s';
  sv_flags : @big_flags S alloc s' = @big_flags S alloc s;
  sv_taken : forall p, @taken S view s' p <-> @taken S view s p;
  sv_backing : forall p, @backing S view s' p = @backing S view s p;
}.

Abbreviation same_dst := (same_view pair_dst dst_view).
Abbreviation same_src := (same_view pair_src src_view).

(** Two different address spaces: the source is a page allocator whose operations are
    invisible in the destination, pages can be reserved in the destination, and
    frames of the source can be mapped there. *)
Class PairLaws : Prop := {
  pair_differ s : pair_is_same s = false;
  src_laws : @BigAllocatorLaws S pair_src src_view;
  src_copy_laws : @CopyLaws S pair_src src_view;
  src_reserve_law s l : @big_wf S src_view s -> same_dst s (@big_reserve S pair_src l s).1;
  src_reserve_fixed_law s b : @big_wf S src_view s -> same_dst s (@big_reserve_fixed S pair_src b s).1;
  src_unreserve_law s b : @big_wf S src_view s -> same_dst s (@big_unreserve S pair_src b s).1;
  src_map_law s b fl : @big_wf S src_view s -> same_dst s (@big_map S pair_src b fl s).1;
  src_unmap_law s b : @big_wf S src_view s -> same_dst s (@big_unmap S pair_src b s).1;
  src_copy_law s old new fl : @big_wf S src_view s -> same_dst s (@big_copy_mapping S pair_src old new fl s).1;
  src_fresh_law s s' b fl p f fl' q fl'' : @big_wf S src_view s -> @big_map S pair_src b fl s = (s', Ok tt) ->
    inside b p -> @backing S src_view s' p = Some (f, fl') -> @backing S dst_view s q <> Some (f, fl'');

  dst_flags_law s : @big_wf S dst_view s -> usable_flags (@big_flags S pair_dst s);
  dst_reserve_law s b : @big_wf S src_view s -> @big_wf S dst_view s -> block_nonempty b ->
    exists s' r, @big_reserve_fixed S pair_dst b s = (s', r) /\ same_src s s' /\ @big_wf S src_view s' /\
      (r = Ok tt /\ @retakes S pair_dst dst_view (fun p => ~ @taken S dst_view s p) s s' /\
         (forall p, inside b p -> ~ @taken S dst_view s p /\ @taken S dst_view s' p /\ @backing S dst_view s p = None) \/
       exists e, r = Err e /\ @retakes S pair_dst dst_view (fun _ => False) s s');

  pair_copy_law s sb db flags : @big_wf S src_view s -> @big_wf S dst_view s -> block_nonempty sb -> block_nonempty db ->
    b_end sb - b_start sb = b_end db - b_start db ->
    (forall p, inside sb p -> @taken S src_view s p /\ @backing S src_view s p <> None) ->
    (forall p, inside db p -> @taken S dst_view s p) ->
    usable_flags flags -> PageTableFlags.is_user flags = PageTableFlags.is_user (@big_flags S pair_dst s) ->
    exists s' r, pair_copy_mapping sb db (Some flags) s = (s', r) /\ same_src s s' /\ @big_wf S src_view s' /\
      @remaps S pair_dst dst_view (inside db) s s' /\
      (r = Ok tt /\
         (forall i f fl, 0 <= i < b_end sb - b_start sb -> @backing S src_view s (b_start sb + i) = Some (f, fl) ->
            @backing S dst_view s' (b_start db + i) = Some (f, Z.lor flags PageTableFlags.PRESENT)) \/
       exists e, r = Err e);
}.

End Pair.

Arguments same_view {S}.
Arguments sv_wf {S alloc view s s'}.
Arguments sv_flags {S alloc view s s'}.
Arguments sv_taken {S alloc view s s'}.
Arguments sv_backing {S alloc view s s'}.

Section SamePair.
  Context {S : Type} `{HP : BigAllocatorPair S} `{HV : PairView S} `{HL : !PairLaws S}.

Lemma same_view_refl alloc view (s : S) : same_view alloc view s s.
Proof. by split. Qed.

Lemma same_view_trans alloc view (s1 s2 s3 : S) :
  same_view alloc view s1 s2 -> same_view alloc view s2 s3 -> same_view alloc view s1 s3.
Proof.
  intros [W1 F1 T1 B1] [W2 F2 T2 B2]. split; [auto|congruence| |congruence]. intros p. by rewrite T2, T1.
Qed.

(** What is around the source: the destination and the frames mapped there. *)
#[local] Existing Instances src_laws src_copy_laws.

Definition dst_uses (s : S) (f : Z) : Prop := exists q fl, @backing S dst_view s q = Some (f, fl).

#[export] Instance pair_surroundings : @Surroundings S pair_src src_view.
Proof.
  refine {| keeps := same_view pair_dst dst_view; foreign := dst_uses |}.
  - apply same_view_refl.
  - apply same_view_trans.
  - intros s s' f Hs. unfold dst_uses. by setoid_rewrite (sv_backing Hs).
  - apply src_reserve_law, _.
  - apply src_reserve_fixed_law, _.
  - apply src_unreserve_law, _.
  - apply src_map_law, _.
  - apply src_unmap_law, _.
  - apply src_copy_law, _.
  - intros s s' b fl p f fl' Hw E Hp Hf (q & fl'' & Hq). by apply (src_fresh_law S s s' b fl p f fl' q fl'').
Defined.

End SamePair.
