(* ===== verification/Bump.v ===== *)
(** * Bump: the smallest page allocator

    A reference implementation of the interface [BigAllocator], on which the
    allocators of [ku/src/allocator] can be run: it hands out ascending pages,
    numbers the frames it maps up to a last one, and forgets the pages it is given back. *)

From Stdlib Require Import ZArith Lia.
From stdpp Require Import base list numbers tactics gmap.
From S2P Require Import Prelude Addr Frage Block Mmu PageAllocator BigAllocator Grow.

Open Scope Z_scope.
Open Scope outcome_scope.

Record Bump := mkBump {
  next_page : Z;
  next_frame : Z;
  last_frame : Z;
  mapped : gmap Z (Z * Z);
  bump_flags : Z;
}.

Definition round_up (a b : Z) : Z := div_ceil a b * b.

Definition bump_reserve (l : Layout) : M Bump Block := fun s =>
  let n := pages_of l in
  let start := round_up (next_page s) (Z.max 1 (layout_align l / L0_SIZE)) in
  if n =? 0 then (s, Ok block_zero)
  else if start + n <? LOWER_HALF_PAGES
  then (mkBump (start + n) (next_frame s) (last_frame s) (mapped s) (bump_flags s), Ok (mkBlock start (start + n)))
  else (s, Err NoPage).

Definition bump_reserve_fixed (b : Block) : M Bump unit := fun s =>
  if (next_page s <=? b_start b) && (b_end b <? LOWER_HALF_PAGES)
  then (mkBump (b_end b) (next_frame s) (last_frame s) (mapped s) (bump_flags s), Ok tt)
  else (s, Err NoPage).

(** The mapping of the pages of [b] to consecutive frames. *)
Definition fresh_frames (b : Block) (frame flags : Z) : gmap Z (Z * Z) :=
  list_to_map ((fun p => (p, (frame + (p - b_start b), Z.lor flags PageTableFlags.PRESENT))) <$> block_indices b).

Definition bump_map (b : Block) (flags : Z) : M Bump unit := fun s =>
  if next_frame s + (b_end b - b_start b) <=? last_frame s
  then (mkBump (next_page s) (next_frame s + (b_end b - b_start b)) (last_frame s)
          (fresh_frames b (next_frame s) flags ∪ mapped s) (bump_flags s), Ok tt)
  else (s, Err NoFrame).

Definition bump_unmap (b : Block) : M Bump unit := fun s =>
  (mkBump (next_page s) (next_frame s) (last_frame s)
     (filter (fun kv => ~ inside b kv.1) (mapped s)) (bump_flags s), Ok tt).

(** The mapping of the pages of [new_block] to the frames of the pages of [old_block]; pages
    that are not mapped are not copied. *)
Definition copied_frames (m : gmap Z (Z * Z)) (old_block new_block : Block) (flags : Z -> Z) : gmap Z (Z * Z) :=
  list_to_map (omap (fun p =>
    match m !! (b_start old_block + (p - b_start new_block)) with
    | Some (frame, fl) => Some (p, (frame, Z.lor (flags fl) PageTableFlags.PRESENT))
    | None => None
    end) (block_indices new_block)).

Definition bump_copy (old_block new_block : Block) (flags : option Z) : M Bump unit := fun s =>
  (mkBump (next_page s) (next_frame s) (last_frame s)
     (copied_frames (mapped s) old_block new_block (fun fl => default (Z.lor fl (bump_flags s)) flags) ∪ mapped s)
     (bump_flags s), Ok tt).

#[export] Instance Bump_allocator : BigAllocator Bump := {|
  big_flags := bump_flags;
  big_set_flags := fun flags s => (mkBump (next_page s) (next_frame s) (last_frame s) (mapped s) flags, Ok tt);
  big_reserve := bump_reserve;
  big_reserve_fixed := bump_reserve_fixed;
  big_unreserve := fun _ => retM tt;
  big_rereserve := fun _ _ => retM tt;
  big_map := bump_map;
  big_unmap := bump_unmap;
  big_copy_mapping := bump_copy;
|}.

Record bump_wf (s : Bump) : Prop := {
  bw_next : 0 < next_page s < LOWER_HALF_PAGES;
  bw_pages : forall p f, mapped s !! p = Some f -> 0 < p < next_page s;
  bw_frames : forall p f, mapped s !! p = Some f -> f.1 < next_frame s;
  bw_flags : usable_flags (bump_flags s);
}.

#[export] Instance Bump_view : BigView Bump := {|
  big_wf := bump_wf;
  taken := fun s p => 0 < p < next_page s;
  backing := fun s p => mapped s !! p;
|}.

(** An allocator that has handed out nothing, with a number of frames. *)
Definition bump_frames (frames : Z) : Bump := mkBump 1 0 frames ∅ KERNEL_RW.
Definition bump_zero : Bump := bump_frames (2 ^ 40).

Lemma bump_frames_wf frames : bump_wf (bump_frames frames).
Proof. split; cbn; [lia|done|done|]. split; [by apply is_flags_const|reflexivity]. Qed.

Lemma bump_zero_wf : bump_wf bump_zero.
Proof. apply bump_frames_wf. Qed.

Lemma low_block_wf s e : 0 < s < e -> e < LOWER_HALF_PAGES -> block_wf Page (mkBlock s e).
Proof.
  intros Hs He. split; cbn [b_start b_end]; change (SIZE_OF Page) with 4096; change (mem_tag Page) with VirtTag;
    unfold last_index; cbn [b_start b_end]; rewrite ?(proj2 (Z.ltb_lt s e)) by lia.
  - unfold is_usize. lia.
  - lia.
  - apply virt_valid_iff. unfold canonical. lia.
  - apply virt_valid_iff. unfold canonical. lia.
  - apply virt_same_half_iff; unfold canonical; lia.
Qed.

Lemma lookup_fresh b frame flags p :
  fresh_frames b frame flags !! p =
    if decide (inside b p) then Some (frame + (p - b_start b), Z.lor flags PageTableFlags.PRESENT) else None.
Proof.
  unfold fresh_frames. set (l := (fun _ => _) <$> _).
  assert (l.*1 = block_indices b) as Hl.
  { unfold l. rewrite <- list_fmap_compose. erewrite list_fmap_ext; [apply list_fmap_id|]. done. }
  assert (p ∈ block_indices b <-> inside b p) as Hin.
  { unfold block_indices. rewrite elem_of_seqZ. unfold inside. lia. }
  case_decide as Hp.
  - apply elem_of_list_to_map_1; [rewrite Hl; apply NoDup_seqZ|]. unfold l. apply list_elem_of_fmap.
    exists p. split; [done|]. by apply Hin.
  - apply not_elem_of_list_to_map_1. rewrite Hl. by rewrite Hin.
Qed.

Lemma lookup_bump_map b frame flags (m : gmap Z (Z * Z)) p :
  (fresh_frames b frame flags ∪ m) !! p =
    if decide (inside b p) then Some (frame + (p - b_start b), Z.lor flags PageTableFlags.PRESENT) else m !! p.
Proof. rewrite lookup_union, lookup_fresh. case_decide; by destruct (m !! p). Qed.

Lemma lookup_bump_unmap b (m : gmap Z (Z * Z)) p :
  (filter (fun kv => ~ inside b kv.1) m : gmap Z (Z * Z)) !! p = if decide (inside b p) then None else m !! p.
Proof.
  case_decide as Hp.
  - apply map_lookup_filter_None. right. intros x _ H. by apply H.
  - destruct (m !! p) as [x|] eqn:E; [by apply map_lookup_filter_Some|]. apply map_lookup_filter_None. by left.
Qed.

(** Handing out the pages from [start] to [e]. *)
Lemma bump_take s start e : bump_wf s -> next_page s <= start -> start < e -> e < LOWER_HALF_PAGES ->
  let s' := mkBump e (next_frame s) (last_frame s) (mapped s) (bump_flags s) in
  retakes (fun p => ~ taken s p) s s' /\
  forall p, inside (mkBlock start e) p -> ~ taken s p /\ taken s' p /\ backing s p = None.
Proof.
  intros [Hn Hp Hf Hfl] Hs He Hl. split.
  - split; cbn; try done; [|lia]. split; cbn; [lia| |done|done]. intros p f H. pose proof (Hp p f H). lia.
  - intros p [H1 H2]. cbn in *. split; [lia|]. split; [lia|]. destruct (mapped s !! p) as [f|] eqn:E; [|done].
    pose proof (Hp p f E). lia.
Qed.

Lemma round_up_spec a b : 0 < b -> a <= round_up a b /\ (b | round_up a b).
Proof. intros Hb. pose proof (div_ceil_spec a b Hb). unfold round_up. split; [lia|]. apply Z.divide_factor_r. Qed.

Lemma align_pages l : layout_valid l -> forall p, (Z.max 1 (layout_align l / L0_SIZE) | p) -> (layout_align l | p * L0_SIZE).
Proof.
  intros (_ & k & Hk & ->) p. change L0_SIZE with (2 ^ 12). destruct (Z.le_gt_cases 12 k).
  - rewrite <- Z.pow_sub_r by lia. rewrite Z.max_r by (pose proof (Z.pow_pos_nonneg 2 (k - 12)); lia).
    intros [x ->]. exists x. rewrite <- Z.mul_assoc, <- Z.pow_add_r by lia. f_equal. f_equal. lia.
  - intros _. apply Z.divide_mul_r. exists (2 ^ (12 - k)). rewrite <- Z.pow_add_r by lia. f_equal. lia.
Qed.

Lemma retakes_same P (s : Bump) : bump_wf s -> retakes P s s.
Proof. by split. Qed.

#[export] Instance Bump_laws : BigAllocatorLaws Bump.
Proof.
  split.
  - intros s p [Hn _ _ _]. cbn. lia.
  - intros s H. apply (bw_flags _ H).
  - intros s fl [Hn Hp Hf Hfl] Hu _. eexists. split; [by left|]. by split; [split|].
  - intros s l H Hl. cbn. unfold bump_reserve.
    pose proof (round_up_spec (next_page s) (Z.max 1 (layout_align l / L0_SIZE)) ltac:(lia)) as [Hr Hd].
    pose proof (bw_next _ H) as Hn. set (start := round_up _ _) in *.
    destruct (Z.eqb_spec (pages_of l) 0) as [E|E].
    { left. exists s, block_zero. split; [done|]. split; [wf_check|]. split; [cbn; lia|]. split; [apply Z.divide_0_r|].
      split; [by apply retakes_same|]. intros p Hp. unfold inside in Hp. cbn in Hp. lia. }
    destruct (Z.ltb_spec (start + pages_of l) LOWER_HALF_PAGES) as [Hfit|Hfit]; [left|right].
    + assert (0 < pages_of l) as Hpos.
      { destruct Hl as [[H0 _] _]. pose proof (div_ceil_nonneg (layout_size l) (SIZE_OF Page) ltac:(done) H0).
        unfold pages_of, count_up in *. lia. }
      destruct (bump_take s start (start + pages_of l) H) as [Ht Hin]; [lia..|].
      eexists _, _. split; [done|]. split; [apply low_block_wf; lia|]. split; [cbn; lia|]. split; [by apply align_pages|]. done.
    + exists s, NoPage. split; [done|by apply retakes_same].
  - intros s b H [Hb Hne]. cbn. unfold bump_reserve_fixed.
    destruct (Z.leb_spec (next_page s) (b_start b)); [|right; exists s, NoPage; split; [done|by apply retakes_same]].
    destruct (Z.ltb_spec (b_end b) LOWER_HALF_PAGES); [|right; exists s, NoPage; split; [done|by apply retakes_same]].
    left. cbn [andb]. eexists. split; [done|]. destruct b. by apply bump_take.
  - intros s b H _ _. exists s. split; [done|by apply retakes_same].
  - intros s b sub H _ _ _ _ _ _ _. exists s. split; [done|by apply retakes_same].
  - intros s b fl [Hn Hp Hf Hfl] [Hb Hne] Hu Ht. cbn. unfold bump_map.
    destruct (_ <=? _); [left|right; exists s, NoFrame; split; [done|by split]]. eexists. split; [done|]. split.
    + split; cbn; try done; [|intros p Hi; by rewrite lookup_bump_map, decide_False].
      split; cbn; try done; intros p f; rewrite lookup_bump_map; case_decide as Hi.
      * intros _. apply (Ht p Hi).
      * apply Hp.
      * intros [= <-]. unfold inside in Hi. cbn. lia.
      * intros H%Hf. lia.
    + intros p Hi. cbn. rewrite lookup_bump_map, decide_True by done. split; [|by eexists].
      intros p' f fl' f' fl'' Hne'. cbn. rewrite !lookup_bump_map, (decide_True (P := inside b p)) by done.
      intros [= <- <-]. case_decide as Hi'; [intros [= <- <-]; lia|]. intros H%Hf. cbn in H. unfold inside in Hi. lia.
  - intros s b [Hn Hp Hf Hfl] [Hb Hne] Ht. eexists. split; [done|]. split.
    + split; cbn; try done; [|intros p Hi; by rewrite lookup_bump_unmap, decide_False].
      split; cbn; try done; intros p f; rewrite lookup_bump_unmap; case_decide as Hi; try done; [apply Hp|apply Hf].
    + intros p Hi. cbn. by rewrite lookup_bump_unmap, decide_True.
Qed.

Lemma lookup_copied m old new flags p :
  copied_frames m old new flags !! p =
    if decide (inside new p) then
      match m !! (b_start old + (p - b_start new)) with
      | Some (f, fl) => Some (f, Z.lor (flags fl) PageTableFlags.PRESENT)
      | None => None
      end
    else None.
Proof.
  unfold copied_frames. set (g := fun p => _). set (l := omap g _).
  assert (forall l0, NoDup l0 -> NoDup (omap g l0).*1 /\ forall x, x ∈ (omap g l0).*1 -> x ∈ l0) as Hnd.
  { intros l0. induction 1 as [|x l0 Hx _ [IH1 IH2]]; [split; [constructor|done]|]. cbn.
    destruct (g x) as [[z v]|] eqn:Eg; cbn.
    - assert (z = x) as -> by (unfold g in Eg; destruct (m !! _) as [[]|]; congruence). split; [constructor; [|done]; intros H; by apply Hx, IH2|]. intros y [->|Hy]%elem_of_cons; [by left|right; by apply IH2].
    - split; [done|]. intros y Hy. right. by apply IH2. }
  destruct (Hnd (block_indices new) (NoDup_seqZ _ _)) as [Hl Hin].
  assert (p ∈ block_indices new <-> inside new p) as Hbi.
  { unfold block_indices. rewrite elem_of_seqZ. unfold inside. lia. }
  case_decide as Hp.
  - destruct (m !! _) as [[f fl]|] eqn:E.
    + apply elem_of_list_to_map_1; [done|]. apply list_elem_of_omap. exists p. split; [by apply Hbi|]. unfold g. by rewrite E.
    + apply not_elem_of_list_to_map_1. intros (x & Hx & Hx')%list_elem_of_fmap. apply list_elem_of_omap in Hx' as (y & _ & Hy).
      unfold g in Hy. destruct (m !! (b_start old + (y - b_start new))) as [[]|] eqn:Ey; [|done]. injection Hy as <-. cbn in Hx. subst. congruence.
  - apply not_elem_of_list_to_map_1. intros Hx%Hin. by apply Hp, Hbi.
Qed.

#[export] Instance Bump_copy_laws : CopyLaws Bump.
Proof.
  split. intros s old new [Hn Hp Hf Hfl] _ _ Hcnt _ Hold Hnew. left. eexists. split; [done|].
  assert (forall p, (copied_frames (mapped s) old new (fun fl => Z.lor fl (bump_flags s)) ∪ mapped s) !! p =
    if decide (inside new p) then copied_frames (mapped s) old new (fun fl => Z.lor fl (bump_flags s)) !! p else mapped s !! p) as Hlk.
  { intros p. rewrite lookup_union, lookup_copied. case_decide as Hi; [|by destruct (mapped s !! p)].
    destruct (Hold (b_start old + (p - b_start new))) as [_ Hbk]; [unfold inside in *; lia|]. cbn in Hbk.
    destruct (mapped s !! _) as [[f fl]|]; [|done]. by destruct (mapped s !! p). }
  split.
  - split; cbn; try done; [|intros p Hi; by rewrite Hlk, decide_False].
    split; cbn; try done; intros p f; rewrite Hlk, lookup_copied; case_decide as Hi.
    + intros _. apply (Hnew p Hi).
    + apply Hp.
    + destruct (mapped s !! _) as [[f0 fl]|] eqn:E; [|done]. intros [= <-]. apply (Hf _ _ E).
    + apply Hf.
  - intros i f fl Hi E. cbn in *. rewrite Hlk, lookup_copied, !decide_True by (unfold inside; lia).
    replace (b_start old + (b_start new + i - b_start new)) with (b_start old + i) by lia. by rewrite E.
Qed.
