(* ===== verification/BumpPair.v ===== *)
(** * BumpPair: two page allocators that share frames

    A reference implementation of the interface [BigAllocatorPair]: two allocators of
    [Bump], the frames of which are all taken from the first one.  Code written against
    the interface can be run on it. *)

From Stdlib Require Import ZArith Lia.
From stdpp Require Import base list numbers tactics gmap.
From S2P Require Import Prelude Addr Frage Block Mmu PageAllocator BigAllocator Grow Pair Bump.

Open Scope Z_scope.
Open Scope outcome_scope.

(** The source and the destination. *)
Definition Pools : Type := Bump * Bump.

Definition src_allocator : BigAllocator Pools := {|
  big_flags := fun s => bump_flags s.1;
  big_set_flags := fun fl => on_fst (big_set_flags fl);
  big_reserve := fun l => on_fst (big_reserve l);
  big_reserve_fixed := fun b => on_fst (big_reserve_fixed b);
  big_unreserve := fun b => on_fst (big_unreserve b);
  big_rereserve := fun b sub => on_fst (big_rereserve b sub);
  big_map := fun b fl => on_fst (big_map b fl);
  big_unmap := fun b => on_fst (big_unmap b);
  big_copy_mapping := fun old new fl => on_fst (big_copy_mapping old new fl);
|}.

Definition dst_allocator : BigAllocator Pools := {|
  big_flags := fun s => bump_flags s.2;
  big_set_flags := fun fl => on_snd (big_set_flags fl);
  big_reserve := fun l => on_snd (big_reserve l);
  big_reserve_fixed := fun b => on_snd (big_reserve_fixed b);
  big_unreserve := fun b => on_snd (big_unreserve b);
  big_rereserve := fun b sub => on_snd (big_rereserve b sub);
  big_map := fun b fl => on_snd (big_map b fl);
  big_unmap := fun b => on_snd (big_unmap b);
  big_copy_mapping := fun old new fl => on_snd (big_copy_mapping old new fl);
|}.

Definition pools_copy (src_block dst_block : Block) (flags : option Z) : M Pools unit := fun '(src, dst) =>
  ((src, mkBump (next_page dst) (next_frame dst) (last_frame dst)
     (copied_frames (mapped src) src_block dst_block (fun fl => default (Z.lor fl (bump_flags dst)) flags) ∪ mapped dst)
     (bump_flags dst)), Ok tt).

#[export] Instance pools_pair : BigAllocatorPair Pools := {|
  pair_dst := dst_allocator;
  pair_src := src_allocator;
  pair_is_same := fun _ => false;
  pair_copy_mapping := pools_copy;
|}.

(** All frames mapped in the destination were given out by the source. *)
Definition src_pool_wf (s : Pools) : Prop :=
  bump_wf s.1 /\ forall p f, mapped s.2 !! p = Some f -> f.1 < next_frame s.1.

Record dst_pool_wf (s : Pools) : Prop := {
  dp_next : 0 < next_page s.2 < LOWER_HALF_PAGES;
  dp_pages : forall p f, mapped s.2 !! p = Some f -> 0 < p < next_page s.2;
  dp_flags : usable_flags (bump_flags s.2);
}.

#[export] Instance pools_view : PairView Pools := {|
  dst_view := {| big_wf := dst_pool_wf; taken := fun s p => 0 < p < next_page s.2; backing := fun s p => mapped s.2 !! p |};
  src_view := {| big_wf := src_pool_wf; taken := fun s p => 0 < p < next_page s.1; backing := fun s p => mapped s.1 !! p |};
|}.

(** ** The laws *)

Local Abbreviation src_remaps := (@remaps Pools pair_src src_view).
Local Abbreviation src_retakes := (@retakes Pools pair_src src_view).

(** The operations of the source number frames upwards. *)
Definition frames_grow {A} (c : M Bump A) : Prop := forall s, next_frame s <= next_frame (c s).1.

Lemma lift_wf s t : src_pool_wf s -> bump_wf t -> next_frame s.1 <= next_frame t -> src_pool_wf (t, s.2).
Proof. intros [_ Hf] Ht Hle. split; [done|]. intros p f Hp. specialize (Hf p f Hp). cbn. lia. Qed.

Lemma lift_remaps P s t : src_pool_wf s -> next_frame s.1 <= next_frame t -> remaps P s.1 t -> src_remaps P s (t, s.2).
Proof. intros Hs Hle [Hw Hf Ht Hb]. split; try done. by apply lift_wf. Qed.

Lemma lift_retakes P s t : src_pool_wf s -> next_frame s.1 <= next_frame t -> retakes P s.1 t -> src_retakes P s (t, s.2).
Proof. intros Hs Hle [Hw Hf Ht Hb]. split; try done. by apply lift_wf. Qed.

Lemma lift_run {A} (c : M Bump A) (s : Pools) t r : c s.1 = (t, r) -> on_fst c s = ((t, s.2), r).
Proof. intros E. unfold on_fst. by rewrite E. Qed.

Lemma grow_run {A} (c : M Bump A) s t r : frames_grow c -> c s = (t, r) -> next_frame s <= next_frame t.
Proof. intros Hg E. specialize (Hg s). by rewrite E in Hg. Qed.

Lemma bump_frames_grow :
  (forall l, frames_grow (bump_reserve l)) /\ (forall b, frames_grow (bump_reserve_fixed b)) /\
  (forall b fl, block_nonempty b -> frames_grow (bump_map b fl)) /\ (forall b, frames_grow (bump_unmap b)) /\
  (forall old new fl, frames_grow (bump_copy old new fl)).
Proof.
  split; [|split; [|split; [|split]]].
  - intros l s. unfold bump_reserve. repeat case_match; cbn; lia.
  - intros b s. unfold bump_reserve_fixed. case_match; cbn; lia.
  - intros b fl [_ Hb] s. unfold bump_map. case_match; cbn; lia.
  - intros b s. cbn. lia.
  - intros old new fl s. cbn. lia.
Qed.

Lemma src_pool_laws : @BigAllocatorLaws Pools pair_src src_view.
Proof.
  destruct bump_frames_grow as (Hg1 & Hg2 & Hg3 & Hg4 & _).
  split.
  - intros s p [Hs _]. apply (@taken_range Bump _ _ Bump_laws s.1 p Hs).
  - intros s [Hs _]. apply (@flags_usable Bump _ _ Bump_laws s.1 Hs).
  - intros s fl Hs Hu Hus. eexists. split; [left; done|]. split; [|done]. destruct Hs as [[] Hf]. split; [by split|done].
  - intros s l Hs Hl. destruct (@reserve_law Bump _ _ Bump_laws s.1 l (proj1 Hs) Hl) as [(t & b & E & Hb & Hc & Ha & Hr & Hin)|(t & e & E & Hr)];
      [left|right]; pose proof (grow_run _ _ _ _ (Hg1 l) E); [exists (t, s.2), b|exists (t, s.2), e]; (split; [by apply lift_run|]).
    + do 3 (split; [done|]). split; [by apply lift_retakes|done].
    + by apply lift_retakes.
  - intros s b Hs Hb. destruct (@reserve_fixed_law Bump _ _ Bump_laws s.1 b (proj1 Hs) Hb) as [(t & E & Hr & Hin)|(t & e & E & Hr)];
      [left|right]; pose proof (grow_run _ _ _ _ (Hg2 b) E); [exists (t, s.2)|exists (t, s.2), e]; (split; [by apply lift_run|]).
    + split; [by apply lift_retakes|done].
    + by apply lift_retakes.
  - intros s b Hs _ _. exists s. split; [by destruct s|]. by split.
  - intros s b sub Hs _ _ _ _ _ _ _. exists s. split; [by destruct s|]. by split.
  - intros s b fl Hs Hb Hu Ht. destruct (@map_law Bump _ _ Bump_laws s.1 b fl (proj1 Hs) Hb Hu Ht) as [(t & E & Hr & Hm)|(t & e & E & Hr)];
      [left|right]; pose proof (grow_run _ _ _ _ (Hg3 b fl Hb) E); [exists (t, s.2)|exists (t, s.2), e]; (split; [by apply lift_run|]).
    + split; [by apply lift_remaps|done].
    + by apply lift_remaps.
  - intros s b Hs Hb Ht. destruct (@unmap_law Bump _ _ Bump_laws s.1 b (proj1 Hs) Hb Ht) as (t & E & Hr & Hm).
    exists (t, s.2). split; [by apply lift_run|]. pose proof (grow_run _ _ _ _ (Hg4 b) E). split; [by apply lift_remaps|done].
Qed.

Lemma src_pool_copy : @CopyLaws Pools pair_src src_view.
Proof.
  split. intros s old new Hs Ho Hn Hc Ha Hold Hnew.
  destruct (@copy_mapping_law Bump _ _ Bump_copy_laws s.1 old new (proj1 Hs) Ho Hn Hc Ha Hold Hnew) as [(t & E & Hr & Hk)|(t & e & E & Hr)];
    [left|right]; pose proof (grow_run _ _ _ _ (proj2 (proj2 (proj2 (proj2 bump_frames_grow))) old new None) E);
    [exists (t, s.2)|exists (t, s.2), e]; (split; [by apply lift_run|]).
  - split; [by apply lift_remaps|done].
  - by apply lift_remaps.
Qed.

(** No operation on one allocator is visible in the other. *)
Lemma on_fst_same {A} (c : M Bump A) s : same_view pair_dst dst_view s (on_fst c s).1.
Proof. unfold on_fst. destruct (c s.1) as [t r]. split; cbn; try done. intros []. by split. Qed.

Lemma dst_reserve_pool s b : src_pool_wf s -> dst_pool_wf s -> block_nonempty b ->
  exists s' r, @big_reserve_fixed Pools pair_dst b s = (s', r) /\ same_view pair_src src_view s s' /\ src_pool_wf s' /\
    (r = Ok tt /\ @retakes Pools pair_dst dst_view (fun p => ~ @taken Pools dst_view s p) s s' /\
       (forall p, inside b p -> ~ @taken Pools dst_view s p /\ @taken Pools dst_view s' p /\ @backing Pools dst_view s p = None) \/
     exists e, r = Err e /\ @retakes Pools pair_dst dst_view (fun _ => False) s s').
Proof.
  intros [Hs Hf] [Hn Hp Hfl] [Hb Hne]. destruct s as [src dst]. cbn in *. unfold on_snd, bump_reserve_fixed. cbn.
  destruct (Z.leb_spec (next_page dst) (b_start b)); [destruct (Z.ltb_spec (b_end b) LOWER_HALF_PAGES)|]; cbn [andb];
    eexists _, _; (split; [done|]); (split; [by split|]); (split; [by split|]).
  - left. split; [done|]. split.
    + split; cbn; try done; [|lia]. split; cbn; [lia| |done]. intros p f Hx. pose proof (Hp p f Hx). lia.
    + intros p [H1 H2]. cbn. split; [lia|]. split; [lia|]. destruct (mapped dst !! p) as [f|] eqn:E; [|done]. pose proof (Hp p f E). lia.
  - right. exists NoPage. split; [done|]. by split.
  - right. exists NoPage. split; [done|]. by split.
Qed.

Lemma copy_pool s sb db flags : src_pool_wf s -> dst_pool_wf s -> b_end sb - b_start sb = b_end db - b_start db ->
  (forall p, inside sb p -> mapped s.1 !! p <> None) -> (forall p, inside db p -> 0 < p < next_page s.2) ->
  exists s', pools_copy sb db (Some flags) s = (s', Ok tt) /\ same_view pair_src src_view s s' /\ src_pool_wf s' /\
    @remaps Pools pair_dst dst_view (inside db) s s' /\
    forall i f fl, 0 <= i < b_end sb - b_start sb -> mapped s.1 !! (b_start sb + i) = Some (f, fl) ->
      mapped s'.2 !! (b_start db + i) = Some (f, Z.lor flags PageTableFlags.PRESENT).
Proof.
  intros [Hs Hf] [Hn Hp Hfl] Hc Hsb Hdb. destruct s as [src dst]. cbn in *. eexists. split; [done|].
  set (m := copied_frames (mapped src) sb db (fun _ => flags) ∪ mapped dst).
  assert (forall p, m !! p = if decide (inside db p) then copied_frames (mapped src) sb db (fun _ => flags) !! p else mapped dst !! p) as Hlk.
  { intros p. unfold m. rewrite lookup_union, lookup_copied. case_decide as Hi; [|by destruct (mapped dst !! p)].
    specialize (Hsb (b_start sb + (p - b_start db)) ltac:(unfold inside in *; lia)).
    destruct (mapped src !! _) as [[f fl]|]; [|done]. by destruct (mapped dst !! p). }
  assert (forall p f, m !! p = Some f -> (0 < p < next_page dst) /\ f.1 < next_frame src) as Hm.
  { intros p f. rewrite Hlk. case_decide as Hi; [|intros E; split; [by apply (Hp p f)|by apply (Hf p f)]].
    rewrite lookup_copied, decide_True by done. destruct (mapped src !! _) as [[f0 fl]|] eqn:E; [|done]. intros [= <-].
    split; [by apply Hdb|]. apply (bw_frames _ Hs _ _ E). }
  split; [split; try done; intros _|split; [|split]].
  - split; [done|]. intros p f E. by apply (Hm p f).
  - split; [done|]. intros p f E. by apply (Hm p f).
  - split; cbn; try done; [|intros p Hi; by rewrite Hlk, decide_False]. split; cbn; try done. intros p f E. by apply (Hm p f).
  - intros i f fl Hi E. cbn. fold m. rewrite Hlk, lookup_copied, !decide_True by (unfold inside; lia).
    replace (b_start sb + (b_start db + i - b_start db)) with (b_start sb + i) by lia. by rewrite E.
Qed.

#[export] Instance pools_laws : PairLaws Pools.
Proof.
  split; try (intros; apply on_fst_same).
  - done.
  - apply src_pool_laws.
  - apply src_pool_copy.
  - intros s s' b fl p f fl' q fl'' [Hs Hf] E Hp Hb Hq. cbn in E, Hb, Hq. unfold on_fst, bump_map in E.
    destruct (_ <=? _); [|done]. injection E as <-. cbn in Hb. rewrite lookup_bump_map, decide_True in Hb by done.
    injection Hb as <- <-. pose proof (Hf q _ Hq). cbn in *. unfold inside in Hp. lia.
  - intros s Hs. apply (dp_flags _ Hs).
  - intros s b Hs Hd Hb. by apply dst_reserve_pool.
  - intros s sb db flags Hs Hd _ _ Hc Hsb Hdb _ _.
    destruct (copy_pool s sb db flags Hs Hd Hc) as (s' & E & H1 & H2 & H3 & H4); [intros p Hp; by apply Hsb|done|].
    exists s', (Ok tt). split; [done|]. split; [done|]. split; [done|]. split; [done|]. by left.
Qed.

(** Two allocators that have handed out nothing, the destination for user pages from [first] on. *)
Definition pools_new (first : Z) : Pools :=
  (bump_zero, mkBump first 0 0 ∅ USER_RW).

Lemma pools_new_wf first : 0 < first < LOWER_HALF_PAGES -> src_pool_wf (pools_new first) /\ dst_pool_wf (pools_new first).
Proof.
  intros Hf. split; [split; [apply bump_zero_wf|done]|]. split; cbn; [done|done|]. split; [by apply is_flags_const|reflexivity].
Qed.
