(* ===== verification/ElfLoader.v ===== *)
(** * ElfLoader: loading an executable into an address space

    Models the loader of [ku/src/process/elf.rs] against the trait
    [BigAllocatorPair]: the segments of a file are copied into a block of the current
    address space, and each page is mapped into the destination as soon as its
    flags are final.  The parsing of the file by the library [xmas_elf] is an
    argument.

    Memory is written through the page table of the current address space: the frame
    of a page is [backing] of the source, and a write to a page that is not mapped
    or not writable is a page fault, that is [Panic]. *)

From Stdlib Require Import ZArith Lia.
From stdpp Require Import base list numbers tactics gmap strings.
From S2P Require Import Prelude Addr Frage Block Mmu PageAllocator BigAllocator Grow Pair Elf.

Open Scope Z_scope.
Open Scope outcome_scope.

(** ** Memory *)

(** The bytes of the frames. *)
Definition Bytes : Type := Z -> Z -> Z.

Definition write_frame (mem : Bytes) (frame offset byte : Z) : Bytes := fun f o =>
  if (f =? frame) && (o =? offset) then byte else mem f o.

(** Writing one byte at a virtual address, and consecutive bytes. *)
Definition store {S} (view : BigView S) (s : S) (address byte : Z) (mem : Bytes) : outcome Bytes :=
  match backing s (address / L0_SIZE) with
  | Some (frame, flags) =>
      if PageTableFlags.is_writable flags then Ok (write_frame mem frame (address mod L0_SIZE) byte) else Panic
  | None => Panic
  end.

Fixpoint store_bytes {S} (view : BigView S) (s : S) (address : Z) (bytes : list Z) (mem : Bytes) : outcome Bytes :=
  match bytes with
  | [] => Ok mem
  | byte :: bytes => let? mem := store view s address byte mem in store_bytes view s (address + 1) bytes mem
  end.

(** ** The loader *)

Inductive SegmentType := Load | OtherType.

(** What the parser finds in a file: the program headers, each with its type or the message of
    the error in it, and the entry point. *)
Record ElfFile := mkElfFile {
  program_iter : list ((string + SegmentType) * ProgramHeader);
  entry_point : Z;
}.

Record Loader (S : Type) := mkLoader {
  allocator : S;
  curr : option MemoryRange;
  src_block : Block;
  src_block_start_addr : option Z;
  memory : Bytes;
}.

Arguments mkLoader {S}.
Arguments allocator {S}.
Arguments curr {S}.
Arguments src_block {S}.
Arguments src_block_start_addr {S}.
Arguments memory {S}.

(** [slice::get] with a range, and the check of [slice[start..end]]. *)
Definition slice_get (l : list Z) (start end_ : Z) : option (list Z) :=
  if (start <=? end_) && (end_ <=? Z.of_nat (length l))
  then Some (take (Z.to_nat (end_ - start)) (drop (Z.to_nat start) l)) else None.

Definition check_range (start end_ len : Z) : outcome unit :=
  if (start <=? end_) && (end_ <=? len) then Ok tt else Panic.

Section Loader.
  Context {S : Type} `{BigAllocatorPair S} `{PairView S}.

Definition loader_new (allocator : S) (mem : Bytes) : Loader S :=
  mkLoader allocator None block_zero None mem.

Definition on_allocator {A} (c : M S A) : M (Loader S) A := fun st =>
  let '(s, r) := c (allocator st) in
  (mkLoader s (curr st) (src_block st) (src_block_start_addr st) (memory st), r).

Definition set_curr (c : option MemoryRange) : M (Loader S) unit := fun st =>
  (mkLoader (allocator st) c (src_block st) (src_block_start_addr st) (memory st), Ok tt).

Definition set_src_block (b : Block) : M (Loader S) unit := fun st =>
  (mkLoader (allocator st) (curr st) b (src_block_start_addr st) (memory st), Ok tt).

Definition set_start_addr (a : Z) : M (Loader S) unit := fun st =>
  (mkLoader (allocator st) (curr st) (src_block st) (Some a) (memory st), Ok tt).

Definition write_bytes (address : Z) (bytes : list Z) : M (Loader S) unit := fun st =>
  match store_bytes src_view (allocator st) address bytes (memory st) with
  | Ok mem => (mkLoader (allocator st) (curr st) (src_block st) (src_block_start_addr st) mem, Ok tt)
  | Err e => (st, Err e)
  | Panic => (st, Panic)
  end.

(** The pages of [next] the destination does not have yet; the first segment also fixes the
    address [src_block] stands for. *)
Definition new_pages (next_page_block : Block) : M (Loader S) Block :=
  let! st := getM in
  match curr st with
  | Some c =>
      let! curr_page_block := liftM (enclosing VirtTag (range_memory c)) in
      let! disjoint := liftM (is_disjoint Page curr_page_block next_page_block) in
      if disjoint : bool then retM next_page_block
      else
        let overlap_end := Z.min (b_end curr_page_block) (b_end next_page_block) in
        if overlap_end <? b_end next_page_block
        then liftM (block_from_index Page overlap_end (b_end next_page_block))
        else retM block_zero
  | None =>
      let! start := liftM (start_address Page next_page_block) in
      let! _ := set_start_addr start in
      retM next_page_block
  end.

(** The index of the page [src_block] stands for. *)
Definition start_index : M (Loader S) Z :=
  let! st := getM in
  let! start := liftM (unwrap_some (src_block_start_addr st)) in
  let! page := liftM (containing VirtTag L0_SIZE start) in
  liftM (frage_index L0_SIZE page).

(** The growth of [src_block] to a number of pages. *)
Definition grow_src_block (total_pages_needed : Z) : M (Loader S) unit :=
  let! st := getM in
  let! src_count := liftM (count (src_block st)) in
  if src_count <? total_pages_needed then
    let src_flags := Z.lor (@big_flags S pair_src (allocator st)) PageTableFlags.WRITABLE in
    let! layout := liftM (layout_array L0_SIZE total_pages_needed) in
    let! new_src_block := on_allocator (@grow S pair_src (src_block st) layout src_flags) in
    let! new_start := liftM (usize_add (b_start new_src_block) src_count) in
    let! new_block := liftM (block_from_index Page new_start (b_end new_src_block)) in
    let! (address, len) := liftM (block_try_into_slice Page new_block 1 1) in
    let! _ := write_bytes address (replicate (Z.to_nat len) 0) in
    set_src_block new_src_block
  else retM tt.

Definition extend_mapping (next : FileRange) : M (Loader S) unit :=
  let! next_page_block := liftM (enclosing VirtTag (range_memory (virt_range next))) in
  let! dst_new_pages := new_pages next_page_block in
  let! _ :=
    (if negb (is_empty dst_new_pages) then on_allocator (@big_reserve_fixed S pair_dst dst_new_pages) else retM tt) in
  let! src_block_start := start_index in
  let! total_pages_needed := liftM (usize_sub (b_end next_page_block) src_block_start) in
  grow_src_block total_pages_needed.

Definition copy_to_memory (file : list Z) (range : FileRange) : M (Loader S) MemoryRange :=
  let! file_data := liftM (ok_or (slice_get file (file_start range) (file_end range)) Overflow) in
  let! st := getM in
  let! dst_start := liftM (unwrap_some (src_block_start_addr st)) in
  let! start := liftM (start_address Virtual (range_memory (virt_range range))) in
  let! src_offset := liftM (usize_sub start dst_start) in
  let! (dst_slice, len) := liftM (block_try_into_slice Page (src_block st) 1 1) in
  let copy_len := Z.of_nat (length file_data) in
  let! copy_end := liftM (usize_add src_offset copy_len) in
  let! _ := liftM (check_range src_offset copy_end len) in
  let! _ := write_bytes (dst_slice + src_offset) file_data in
  let! mem_size := liftM (size Virtual (range_memory (virt_range range))) in
  let! _ :=
    (if copy_len <? mem_size then
       let! zero_start := liftM (usize_add src_offset copy_len) in
       let! zero_end := liftM (usize_add src_offset mem_size) in
       let! _ := liftM (check_range zero_start zero_end len) in
       write_bytes (dst_slice + zero_start) (replicate (Z.to_nat (zero_end - zero_start)) 0)
     else retM tt) in
  retM (virt_range range).

Definition finalize_mapping (page_range : MemoryRange) : M (Loader S) unit :=
  if is_empty (range_memory page_range) then retM tt
  else
    let! st := getM in
    let src_start := b_start (src_block st) in
    let! dst_start := start_index in
    let! offset := liftM (usize_sub (b_start (range_memory page_range)) dst_start) in
    let! block_start := liftM (usize_add src_start offset) in
    let! page_count := liftM (count (range_memory page_range)) in
    let! block_end := liftM (usize_add block_start page_count) in
    let! block := liftM (block_from_index Page block_start block_end) in
    let final_flags := Z.lor (range_flags page_range) (@big_flags S pair_dst (allocator st)) in
    on_allocator (pair_copy_mapping block (range_memory page_range) (Some final_flags)).

Definition finalize_some (page_range : option MemoryRange) : M (Loader S) unit :=
  match page_range with Some page_range => finalize_mapping page_range | None => retM tt end.

Definition load_program_header (file : list Z) (next : FileRange) : M (Loader S) unit :=
  let! _ := extend_mapping next in
  let! next_virt := copy_to_memory file next in
  let! st := getM in
  match curr st with
  | Some c =>
      let! (curr_minus_next, boundary, updated_next) := liftM (combine c next_virt) in
      let! _ := finalize_some curr_minus_next in
      let! _ := finalize_some boundary in
      set_curr (Some updated_next)
  | None => set_curr (Some next_virt)
  end.

Definition finish : M (Loader S) unit :=
  let! st := getM in
  let! _ := set_curr None in
  match curr st with
  | Some c => let! page_range := liftM (page_range_of c) in finalize_mapping page_range
  | None => retM tt
  end.

(** The body of the loop over the program headers. *)
Definition load_header (file : list Z) (header : (string + SegmentType) * ProgramHeader) : M (Loader S) unit :=
  match header.1 with
  | inl message => liftM (Err (Prelude.Elf message))
  | inr Load =>
      let! file_range := liftM (file_range_try_from header.2) in
      load_program_header file file_range
  | inr OtherType => retM tt
  end.

Definition load_headers (file : list Z) (elf_file : ElfFile) : M (Loader S) Z :=
  let! _ := for_list (load_header file) (program_iter elf_file) in
  let! _ := finish in
  liftM (addr_new VirtTag (entry_point elf_file)).

(** [load]: the state is the pair of allocators and the memory. *)
Definition load (parse : list Z -> string + ElfFile) (file : list Z) : M (S * Bytes) Z := fun '(s, mem) =>
  match parse file with
  | inl message => ((s, mem), Err (Prelude.Elf message))
  | inr elf_file =>
      let '(st, r) := load_headers file elf_file (loader_new s mem) in ((allocator st, memory st), r)
  end.

End Loader.

(** ** Writing through the page table *)

Section Store.
  Context {S : Type} (view : BigView S) (s : S).

(** A block of pages that can be written, each with a frame of its own. *)
Definition writable (b : Block) : Prop :=
  forall p, inside b p -> exists f fl, backing s p = Some (f, fl) /\ PageTableFlags.is_writable fl = true /\ sole_owner s p.

Definition byte_at (a f o : Z) : Prop := exists fl, backing s (a / L0_SIZE) = Some (f, fl) /\ o = a mod L0_SIZE.

(** Two addresses of writable pages with the same byte are equal. *)
Lemma byte_at_inj b a a' f o : writable b -> inside b (a / L0_SIZE) -> byte_at a f o -> byte_at a' f o -> a = a'.
Proof.
  intros Hw Ha (fl & E & ->) (fl' & E' & Ho).
  destruct (decide (a' / L0_SIZE = a / L0_SIZE)) as [Hp|Hp].
  - rewrite (Z.div_mod a L0_SIZE), (Z.div_mod a' L0_SIZE) by done. congruence.
  - destruct (Hw _ Ha) as (f0 & fl0 & E0 & _ & Hs). exfalso. by apply (Hs _ f fl f fl' Hp).
Qed.

Lemma store_bytes_spec b bytes a mem : writable b ->
  (forall k, 0 <= k < Z.of_nat (length bytes) -> inside b ((a + k) / L0_SIZE)) ->
  exists mem', store_bytes view s a bytes mem = Ok mem' /\
    (forall k f o, 0 <= k < Z.of_nat (length bytes) -> byte_at (a + k) f o -> mem' f o = bytes !!! Z.to_nat k) /\
    (forall f o, (forall k, 0 <= k < Z.of_nat (length bytes) -> ~ byte_at (a + k) f o) -> mem' f o = mem f o).
Proof.
  intros Hw. revert a mem. induction bytes as [|byte bytes IH]; intros a mem Hin.
  { exists mem. split; [done|]. split; [cbn; lia|done]. }
  cbn [length] in Hin. pose proof (Hin 0 ltac:(lia)) as H0. rewrite Z.add_0_r in H0.
  destruct (Hw _ H0) as (f0 & fl0 & E0 & Hwr & _). cbn [store_bytes]. unfold store. rewrite E0, Hwr.
  destruct (IH (a + 1) (write_frame mem f0 (a mod L0_SIZE) byte)) as (mem' & -> & Hnew & Hold).
  { intros k Hk. replace (a + 1 + k) with (a + (k + 1)) by lia. apply Hin. lia. }
  assert (byte_at a f0 (a mod L0_SIZE)) as Hb by (by exists fl0).
  exists mem'. split; [done|]. split.
  - intros k f o Hk Hat. cbn [length] in Hk. destruct (decide (k = 0)) as [->|Hk0].
    + rewrite Z.add_0_r in Hat. rewrite Hold.
      * destruct Hat as (fl & E & ->). rewrite E0 in E. injection E as <- <-. unfold write_frame. by rewrite !Z.eqb_refl.
      * intros k' Hk' Hat'. pose proof (byte_at_inj b _ _ _ _ Hw H0 Hat Hat'). lia.
    + replace (a + k) with (a + 1 + (k - 1)) in Hat by lia. rewrite (Hnew (k - 1) f o ltac:(lia) Hat).
      replace (Z.to_nat k) with (Datatypes.S (Z.to_nat (k - 1))) by lia. done.
  - intros f o Hno. rewrite Hold.
    + unfold write_frame. destruct (Z.eqb_spec f f0) as [->|]; [|done]. destruct (Z.eqb_spec o (a mod L0_SIZE)) as [->|]; [|done].
      exfalso. apply (Hno 0); [cbn; lia|]. by rewrite Z.add_0_r.
    + intros k Hk. replace (a + 1 + k) with (a + (k + 1)) by lia. apply Hno. cbn [length]. lia.
Qed.

End Store.
