(* ===== verification/ElfImage.v ===== *)
(** * ElfImage: what loading an executable yields

    The correctness of the loader of [ElfLoader]: after a successful load the pages the
    segments touch are mapped in the destination with the union of the flags of
    the segments, they contain the bytes of the file and zeros, and nothing else
    in either address space changed.  The loader never panics on segments in
    order. *)

From Stdlib Require Import ZArith Lia.
From stdpp Require Import base list numbers tactics gmap strings.
From S2P Require Import Prelude Addr Frage Block Mmu PageAllocator BigAllocator Grow Pair BumpPair Elf ElfLoader.
From S2P Require Mapping.

Open Scope Z_scope.
Open Scope outcome_scope.

(** ** The image of a file *)

Section Image.
  Context (file : list Z).

Definition covers (r : FileRange) (a : Z) : Prop :=
  b_start (range_memory (virt_range r)) <= a < b_end (range_memory (virt_range r)).

#[global] Instance covers_dec r a : Decision (covers r a).
Proof. unfold covers. apply _. Defined.

(** The byte of a segment at an address: from the file, then zeros. *)
Definition segment_byte (r : FileRange) (a : Z) : Z :=
  let k := a - b_start (range_memory (virt_range r)) in
  if k <? file_end r - file_start r then file !!! Z.to_nat (file_start r + k) else 0.

(** The byte all segments together put at an address. *)
Fixpoint image (ranges : list FileRange) (a : Z) : Z :=
  match ranges with
  | [] => 0
  | r :: ranges => if decide (covers r a) then segment_byte r a else image ranges a
  end.

Lemma image_none ranges a : (forall r, r ∈ ranges -> ~ covers r a) -> image ranges a = 0.
Proof.
  induction ranges as [|r ranges IH]; intros H; [done|]. cbn. rewrite decide_False by (apply H; left).
  apply IH. intros r' Hr'. apply H. by right.
Qed.

Lemma image_snoc ranges r a : (forall r', r' ∈ ranges -> covers r a -> ~ covers r' a) ->
  image (ranges ++ [r]) a = if decide (covers r a) then segment_byte r a else image ranges a.
Proof.
  induction ranges as [|r' ranges IH]; intros H; [done|]. cbn.
  rewrite IH by (intros x Hx; apply H; by right). case_decide as H1; [|done].
  rewrite decide_False; [done|]. intros H2. by apply (H r'); [left| |].
Qed.

(** A range of the file that a well-formed header describes. *)
Record file_range_ok (r : FileRange) : Prop := {
  fr_segment : segment (virt_range r);
  fr_file : 0 <= file_start r <= file_end r /\ file_end r <= Z.of_nat (length file);
  fr_size : file_end r - file_start r <= b_end (range_memory (virt_range r)) - b_start (range_memory (virt_range r));
}.

End Image.

(** ** Flags *)

Lemma writable_lor a b : PageTableFlags.is_writable a = true -> PageTableFlags.is_writable (Z.lor a b) = true.
Proof.
  unfold PageTableFlags.is_writable, PageTableFlags.contains. rewrite !Z.eqb_eq. intros H. apply Z.bits_inj'. intros n Hn.
  apply (f_equal (fun x => Z.testbit x n)) in H. rewrite Z.land_spec in *. rewrite Z.lor_spec.
  destruct (Z.testbit a n), (Z.testbit b n), (Z.testbit PageTableFlags.WRITABLE n); done.
Qed.

Lemma writable_lor_r a b : PageTableFlags.is_writable b = true -> PageTableFlags.is_writable (Z.lor a b) = true.
Proof. rewrite Z.lor_comm. apply writable_lor. Qed.

Lemma usable_lor a b : usable_flags a -> usable_flags b -> usable_flags (Z.lor a b).
Proof.
  intros [Ha Ha'] [Hb Hb']. split; [by apply is_flags_lor|]. by rewrite Mapping.huge_lor, Ha', Hb'.
Qed.

(** The flags of segments, which never include [USER]. *)
Definition segment_flags (fl : Z) : Prop := usable_flags fl /\ PageTableFlags.is_user fl = false.

Lemma user_lor a b : PageTableFlags.is_user (Z.lor a b) = PageTableFlags.is_user a || PageTableFlags.is_user b.
Proof. unfold PageTableFlags.is_user. change PageTableFlags.USER with (2 ^ 2). by rewrite !contains_bit, Z.lor_spec by lia. Qed.

Lemma segment_flags_lor a b : segment_flags a -> segment_flags b -> segment_flags (Z.lor a b).
Proof. intros [Ha Hu] [Hb Hu']. split; [by apply usable_lor|]. by rewrite user_lor, Hu, Hu'. Qed.

(** The blocks [combine] returns are not empty. *)
Lemma combine_nonempty curr next cmn bnd upd r : segment curr -> segment next ->
  b_end (range_memory curr) <= b_start (range_memory next) -> combine curr next = Ok (cmn, bnd, upd) ->
  cmn = Some r \/ bnd = Some r -> b_start (range_memory r) < b_end (range_memory r).
Proof.
  intros Hc Hn Hord E Hr. pose proof (segment_pages curr Hc) as [Hcp _].
  destruct (combine_cases curr next Hc Hn Hord) as [[_ E']|(_ & cmn' & Hcmn & E')].
  - rewrite E in E'. injection E' as -> -> _. destruct Hr as [[= <-]|Hr]; [cbn; lia|done].
  - assert (cmn = cmn' /\ (bnd = None \/ exists fl, bnd = Some (mkRange fl (mkBlock (end_page curr - 1) (end_page curr))))) as [-> Hbnd].
    { destruct (_ <? _) in E'; [|destruct E' as (s & _ & E')]; rewrite E in E'; injection E' as -> -> _; eauto. }
    destruct Hr as [-> | ->].
    + destruct (Z.ltb_spec (first_page curr) (end_page curr - 1)); [|done]. injection Hcmn as ->. cbn. lia.
    + destruct Hbnd as [?|[fl [= ->]]]; [done|]. cbn. lia.
Qed.

(** ** The state of the loader *)

Section Correct.
  Context {S : Type} `{HP : BigAllocatorPair S} `{HV : PairView S} `{HL : !PairLaws S}.
  #[local] Existing Instances src_laws src_copy_laws.
  Context (file : list Z) (s0 : S) (mem0 : Bytes) (B : Z).

Local Abbreviation src_wf := (@big_wf S src_view).
Local Abbreviation dst_wf := (@big_wf S dst_view).
Local Abbreviation src_taken := (@taken S src_view).
Local Abbreviation dst_taken := (@taken S dst_view).
Local Abbreviation src_backing := (@backing S src_view).
Local Abbreviation dst_backing := (@backing S dst_view).
Local Abbreviation src_flags := (@big_flags S pair_src).
Local Abbreviation dst_flags := (@big_flags S pair_dst).

Definition page_count (st : Loader S) : Z := b_end (src_block st) - b_start (src_block st).

(** Page [j] of the block the segments are copied to is mapped to frame [f]. *)
Definition buffer (st : Loader S) (j f : Z) : Prop :=
  0 <= j < page_count st /\ exists fl, src_backing (allocator st) (b_start (src_block st) + j) = Some (f, fl).

Definition final (fin : list MemoryRange) (q : Z) : Prop := exists m, m ∈ fin /\ range_has m q.

#[local] Instance final_dec fin q : Decision (final fin q).
Proof.
  assert (forall m, Decision (range_has m q)) as Hd by (intros m; unfold range_has; apply _).
  destruct (decide (Exists (fun m => range_has m q) fin)) as [H|H]; [left|right].
  - by apply list.Exists_exists.
  - intros Hf. by apply H, list.Exists_exists.
Defined.

Definition reached (ranges : list FileRange) (q : Z) : Prop := exists r, r ∈ ranges /\ touches (virt_range r) q.

(** The segments [done] are copied, the pages [fin] are mapped into the destination, and the
    rest of both address spaces is as it was. *)
Record loading (st : Loader S) (done : list FileRange) (fin : list MemoryRange) : Prop := {
  ld_src : src_wf (allocator st);
  ld_dst : dst_wf (allocator st);
  ld_src_flags : src_flags (allocator st) = src_flags s0;
  ld_dst_flags : dst_flags (allocator st) = dst_flags s0;
  ld_block : block_wf Page (src_block st);
  ld_held : forall p, inside (src_block st) p -> src_taken (allocator st) p;
  ld_writable : writable src_view (allocator st) (src_block st);
  ld_else : forall p, src_taken s0 p -> ~ inside (src_block st) p /\ src_taken (allocator st) p /\
    src_backing (allocator st) p = src_backing s0 p;
  ld_bytes : forall j f o, buffer st j f -> 0 <= o < L0_SIZE -> memory st f o = image file done ((B + j) * L0_SIZE + o);
  ld_memory : forall f o, (forall j, ~ buffer st j f) -> memory st f o = mem0 f o;
  ld_dst_taken : forall q, dst_taken s0 q -> dst_taken (allocator st) q;
  ld_new : forall q, reached done q -> dst_taken (allocator st) q /\ dst_backing s0 q = None;
  ld_final : forall m q, m ∈ fin -> range_has m q -> reached done q /\ exists f, buffer st (q - B) f /\
    dst_backing (allocator st) q =
      Some (f, Z.lor (Z.lor (range_flags m) (dst_flags s0)) PageTableFlags.PRESENT);
  ld_rest : forall q, ~ final fin q -> dst_backing (allocator st) q = dst_backing s0 q;
  ld_foreign : forall j f q fl, buffer st j f -> dst_backing (allocator st) q = Some (f, fl) -> final fin q /\ q = B + j;
  ld_done : forall r, r ∈ done -> B <= first_page (virt_range r) /\ end_page (virt_range r) <= B + page_count st;
}.

(** What holds also after an error: only pages of [all] segments may be mapped differently in
    the destination, and memory that was in use is unchanged. *)
Record harmless (all : list FileRange) (st : Loader S) : Prop := {
  hm_src : forall p, src_taken s0 p -> src_taken (allocator st) p /\ src_backing (allocator st) p = src_backing s0 p;
  hm_dst : forall q, ~ reached all q -> dst_backing (allocator st) q = dst_backing s0 q;
  hm_dst_taken : forall q, dst_taken s0 q -> dst_taken (allocator st) q;
  hm_src_memory : forall p f fl o, src_taken s0 p -> src_backing s0 p = Some (f, fl) -> memory st f o = mem0 f o;
  hm_dst_memory : forall q f fl o, dst_backing s0 q = Some (f, fl) -> memory st f o = mem0 f o;
}.

Lemma buffer_fun st j f f' : buffer st j f -> buffer st j f' -> f = f'.
Proof. intros [_ [fl E]] [_ [fl' E']]. congruence. Qed.

Lemma buffer_exists st done fin j : loading st done fin -> 0 <= j < page_count st -> exists f, buffer st j f.
Proof.
  intros Hld Hj. destruct (ld_writable _ _ _ Hld (b_start (src_block st) + j)) as (f & fl & E & _).
  { unfold inside. unfold page_count in Hj. lia. } exists f. split; [done|eauto].
Qed.

(** Frames in use before are not in the block. *)
Lemma not_buffer_src st done fin p f fl : loading st done fin -> src_taken s0 p -> src_backing s0 p = Some (f, fl) ->
  forall j, ~ buffer st j f.
Proof.
  intros Hld Hp E j [Hj [fl' E']]. destruct (ld_else _ _ _ Hld p Hp) as (Hout & _ & Hsame). rewrite E in Hsame.
  assert (inside (src_block st) (b_start (src_block st) + j)) as Hin by (unfold inside, page_count in *; lia).
  destruct (ld_writable _ _ _ Hld _ Hin) as (f0 & fl0 & _ & _ & Hs).
  apply (Hs p f fl' f fl); [|done..]. intros ->. by apply Hout.
Qed.

Lemma not_buffer_dst st done fin q f fl : loading st done fin -> dst_backing s0 q = Some (f, fl) ->
  forall j, ~ buffer st j f.
Proof.
  intros Hld E j Hj. assert (~ final fin q) as Hno.
  { intros (m & Hm & Hq). destruct (ld_final _ _ _ Hld m q Hm Hq) as [Hr _]. destruct (ld_new _ _ _ Hld q Hr). congruence. }
  apply Hno. apply (ld_foreign _ _ _ Hld j f q fl Hj). by rewrite (ld_rest _ _ _ Hld).
Qed.

Lemma reached_mono ranges ranges' q : (forall r, r ∈ ranges -> r ∈ ranges') -> reached ranges q -> reached ranges' q.
Proof. intros H (r & Hr & Ht). exists r. auto. Qed.

(** A failing operation after which only the destination pages of segments may differ. *)
Lemma loading_harmless all st st' done fin : loading st done fin -> (forall r, r ∈ done -> r ∈ all) ->
  memory st' = memory st -> (forall p, src_taken s0 p -> src_taken (allocator st') p /\ src_backing (allocator st') p = src_backing s0 p) ->
  (forall q, ~ reached all q -> dst_backing (allocator st') q = dst_backing (allocator st) q) ->
  (forall q, dst_taken s0 q -> dst_taken (allocator st') q) -> harmless all st'.
Proof.
  intros Hld Hall Hm Hs Hd Ht. split; [done| |done| |].
  - intros q Hq. rewrite Hd by done. apply (ld_rest _ _ _ Hld). intros (m & Hm' & Hq').
    apply Hq, (reached_mono done); [done|]. apply (ld_final _ _ _ Hld m q Hm' Hq').
  - intros p f fl o Hp E. rewrite Hm. apply (ld_memory _ _ _ Hld). by apply (not_buffer_src st done fin p f fl).
  - intros q f fl o E. rewrite Hm. apply (ld_memory _ _ _ Hld). by apply (not_buffer_dst st done fin q f fl).
Qed.

(** The pages of a block that grew can be written. *)
Lemma grown_writable s s' old b fl : writable src_view s old -> PageTableFlags.is_writable fl = true ->
  @grown S pair_src src_view pair_surroundings s s' old b fl -> writable src_view s' b.
Proof.
  intros Hw Hfl [_ _ _ Hh Hk Hn] p Hp. destruct (Hh p Hp) as (_ & _ & Hs).
  assert (exists i, p = b_start b + i) as [i ->] by (exists (p - b_start b); lia). unfold inside in Hp.
  destruct (Z.lt_ge_cases i (b_end old - b_start old)) as [Hi|Hi].
  - destruct (Hw (b_start old + i)) as (f & fl0 & E & Hwr & _); [unfold inside; lia|].
    destruct (Hk i f fl0 ltac:(lia) E) as (fl' & E' & [->| ->]); exists f; eexists; (split; [done|]); split; try done.
    by apply writable_lor, writable_lor.
  - destruct (Hn i ltac:(lia)) as (f & E & _). exists f. eexists. split; [done|]. split; [by apply writable_lor|done].
Qed.

(** The block grew to [b] and its new pages were filled with zeros. *)
Lemma loading_grown st done fin s' b fl mem' : loading st done fin ->
  @grown S pair_src src_view pair_surroundings (allocator st) s' (src_block st) b fl ->
  PageTableFlags.is_writable fl = true -> same_view pair_dst dst_view (allocator st) s' ->
  (forall j f o, page_count st <= j < b_end b - b_start b -> 0 <= o < L0_SIZE ->
     (exists fl, src_backing s' (b_start b + j) = Some (f, fl)) -> mem' f o = 0) ->
  (forall f o, (forall j fl, page_count st <= j < b_end b - b_start b -> src_backing s' (b_start b + j) <> Some (f, fl)) ->
     mem' f o = memory st f o) ->
  page_count st <= b_end b - b_start b ->
  loading (mkLoader s' (curr st) b (src_block_start_addr st) mem') done fin.
Proof.
  intros Hld Hg Hfl Hd Hzero Hkeep Hle. pose proof (grown_writable _ _ _ _ _ (ld_writable _ _ _ Hld) Hfl Hg) as Hw.
  destruct Hg as [Hb Hto Hpl Hh Hk Hn].
  set (st' := mkLoader s' (curr st) b (src_block_start_addr st) mem').
  assert (forall j f, 0 <= j < page_count st -> buffer st' j f <-> buffer st j f) as Hold.
  { intros j f Hj. destruct (buffer_exists st done fin j Hld Hj) as [f0 [_ [fl0 E0]]].
    destruct (Hk j f0 fl0 Hj E0) as (fl' & E' & _). split.
    - intros [_ [fl1 E1]]. cbn in E1. split; [done|]. exists fl0. congruence.
    - intros [_ [fl1 E1]]. split; [unfold page_count; cbn; lia|]. exists fl'. cbn. congruence. }
  assert (forall j f, page_count st <= j -> buffer st' j f -> ~ dst_uses (allocator st) f) as Hfresh.
  { intros j f Hj [Hj' [fl1 E1]]. unfold page_count in Hj, Hj'. cbn in Hj', E1. destruct (Hn j ltac:(lia)) as (f' & E' & Hf').
    rewrite E1 in E'. by injection E' as <- _. }
  split; unfold st'; cbn [allocator src_block memory src_block_start_addr curr].
  - apply (touches_wf Hto).
  - apply (sv_wf Hd), (ld_dst _ _ _ Hld).
  - rewrite (touches_flags Hto). apply (ld_src_flags _ _ _ Hld).
  - rewrite (sv_flags Hd). apply (ld_dst_flags _ _ _ Hld).
  - apply Hb.
  - intros p Hp. by apply Hh.
  - exact Hw.
  - intros p Hp. destruct (ld_else _ _ _ Hld p Hp) as (Hout & Ht & Hsame). split; [|split].
    + intros Hin. by destruct (Hpl p Hin).
    + by apply (touches_taken Hto).
    + by rewrite (touches_backing Hto).
  - intros j f o Hj Ho. fold st' in Hj. destruct (Z.lt_ge_cases j (page_count st)) as [Hlt|Hge].
    + pose proof (proj1 Hj) as Hj0. rewrite Hkeep.
      * apply (ld_bytes _ _ _ Hld); [|done]. apply Hold; [lia|done].
      * intros j' fl' Hj' E'. destruct Hj as [Hj1 [fl1 E1]]. unfold page_count in Hj1. cbn in Hj1, E1.
        destruct (Hw (b_start b + j)) as (_ & _ & _ & _ & Hs); [unfold inside; lia|].
        apply (Hs (b_start b + j') f fl1 f fl'); [unfold page_count in *; lia|done..].
    + destruct Hj as [Hj1 E1]. unfold page_count in Hj1. cbn in Hj1, E1. rewrite (Hzero j f o) by (done || lia).
      symmetry. apply image_none. intros r Hr [Hc1 Hc2]. destruct (ld_done _ _ _ Hld r Hr) as [_ He].
      unfold end_page in He. change L0_SIZE with 4096 in *. Z.div_mod_to_equations. lia.
  - intros f o Hno. fold st' in Hno. rewrite Hkeep.
    + apply (ld_memory _ _ _ Hld). intros j Hj. apply (Hno j). apply Hold; [apply Hj|done].
    + intros j fl' Hj E. apply (Hno j). unfold buffer, page_count in *. pose proof (wf_order _ _ (ld_block _ _ _ Hld)).
      cbn. split; [lia|eauto].
  - intros q Hq. apply (sv_taken Hd), (ld_dst_taken _ _ _ Hld), Hq.
  - intros q Hq. destruct (ld_new _ _ _ Hld q Hq). split; [by apply (sv_taken Hd)|done].
  - intros m q Hm Hq. destruct (ld_final _ _ _ Hld m q Hm Hq) as [Hr (f & Hf & E)]. split; [done|]. exists f.
    rewrite (sv_backing Hd). split; [|done]. apply Hold; [apply Hf|done].
  - intros q Hq. rewrite (sv_backing Hd). by apply (ld_rest _ _ _ Hld).
  - intros j f q fl' Hj E. fold st' in Hj. rewrite (sv_backing Hd) in E.
    destruct (Z.lt_ge_cases j (page_count st)) as [Hlt|Hge].
    + apply (ld_foreign _ _ _ Hld j f q fl'); [|done]. pose proof (proj1 Hj). apply Hold; [lia|done].
    + exfalso. apply (Hfresh j f Hge Hj). by exists q, fl'.
  - intros r Hr. destruct (ld_done _ _ _ Hld r Hr). split; [done|]. unfold page_count in *. cbn. lia.
Qed.

Lemma write_bytes_ok st address bytes mem' :
  store_bytes src_view (allocator st) address bytes (memory st) = Ok mem' ->
  write_bytes address bytes st =
    (mkLoader (allocator st) (curr st) (src_block st) (src_block_start_addr st) mem', Ok tt).
Proof. intros E. unfold write_bytes. by rewrite E. Qed.

(** An address in page [j] of a block, and back. *)
Lemma block_address x j o : 0 <= o < L0_SIZE -> (x * L0_SIZE + (j * L0_SIZE + o)) / L0_SIZE = x + j /\
  (x * L0_SIZE + (j * L0_SIZE + o)) mod L0_SIZE = o.
Proof. change L0_SIZE with 4096. intros Ho. split; Z.div_mod_to_equations; lia. Qed.

(** Zeros written to all pages from [x] on of a block of writable pages. *)
Lemma zero_pages_spec s b x mem : writable src_view s b -> b_start b <= x <= b_end b ->
  exists mem', store_bytes src_view s (x * L0_SIZE) (replicate (Z.to_nat ((b_end b - x) * L0_SIZE)) 0) mem = Ok mem' /\
    (forall p f fl o, x <= p < b_end b -> 0 <= o < L0_SIZE -> src_backing s p = Some (f, fl) -> mem' f o = 0) /\
    (forall f o, (forall p fl, x <= p < b_end b -> src_backing s p <> Some (f, fl)) -> mem' f o = mem f o).
Proof.
  intros Hw Hx. set (n := Z.to_nat ((b_end b - x) * L0_SIZE)).
  assert (Z.of_nat n = (b_end b - x) * L0_SIZE) as Hn by (unfold n; change L0_SIZE with 4096; lia).
  assert (forall k, 0 <= k < Z.of_nat n -> x <= (x * L0_SIZE + k) / L0_SIZE < b_end b) as Hpage.
  { rewrite Hn. change L0_SIZE with 4096. intros k Hk. Z.div_mod_to_equations. lia. }
  destruct (store_bytes_spec src_view s b (replicate n 0) (x * L0_SIZE) mem Hw) as (mem' & E & Hnew & Hold).
  { rewrite length_replicate. intros k Hk. specialize (Hpage k Hk). unfold inside. lia. }
  rewrite length_replicate in Hnew, Hold. exists mem'. split; [done|]. split.
  - intros p f fl o Hp Ho E'. destruct (block_address x (p - x) o Ho) as [Hd Hm].
    assert (0 <= (p - x) * L0_SIZE + o < Z.of_nat n) as Hk by (rewrite Hn; change L0_SIZE with 4096 in *; lia).
    rewrite (Hnew _ f o Hk).
    + apply lookup_total_replicate_2. lia.
    + exists fl. rewrite Hd, Hm. split; [|done]. by replace (x + (p - x)) with p by lia.
  - intros f o Hno. apply Hold. intros k Hk (fl & E' & _). by apply (Hno _ fl (Hpage k Hk)).
Qed.

Lemma grow_src_block_spec all st done fin total : loading st done fin -> (forall r, r ∈ done -> r ∈ all) ->
  0 < total < LOWER_HALF_PAGES ->
  exists st' r, grow_src_block total st = (st', r) /\
    (r = Ok tt /\ loading st' done fin /\ curr st' = curr st /\ src_block_start_addr st' = src_block_start_addr st /\
       same_view pair_dst dst_view (allocator st) (allocator st') /\ page_count st' = Z.max (page_count st) total \/
     exists e, r = Err e /\ harmless all st').
Proof.
  intros Hld Hall Htot. unfold grow_src_block. rewrite (bindM_ok _ _ _ st st) by done.
  pose proof (ld_block _ _ _ Hld) as Hb. rewrite wf_count, bindM_lift by done. fold (page_count st).
  destruct (Z.ltb_spec (page_count st) total) as [Hlt|Hge].
  2:{ exists st, (Ok tt). split; [done|]. left. do 4 (split; [done|]). split; [apply same_view_refl|lia]. }
  assert (layout_array L0_SIZE total = Ok (mkLayout (total * L0_SIZE) L0_SIZE)) as ->.
  { unfold layout_array. change (validate_size L0_SIZE) with true. cbn match.
    rewrite (proj2 (Z.leb_le total _)) by (change (ISIZE_MAX / L0_SIZE) with 2251799813685247; lia).
    by rewrite usize_mul_ok by (unfold is_usize; change L0_SIZE with 4096; lia). }
  rewrite bindM_lift. set (fl := Z.lor (src_flags (allocator st)) PageTableFlags.WRITABLE). set (l := mkLayout (total * L0_SIZE) L0_SIZE).
  assert (pages_of l = total) as Hpg by (unfold pages_of, count_up, l; cbn [layout_size]; by apply div_ceil_mul).
  assert (layout_valid l) as Hlv.
  { split; [unfold l, ISIZE_MAX; cbn [layout_size]; change L0_SIZE with 4096; lia|exists 12; split; [lia|done]]. }
  assert (@held S src_view (allocator st) (src_block st)) as Hheld.
  { intros p Hp. destruct (ld_writable _ _ _ Hld p Hp) as (f & fl0 & E & _ & Hs). split; [by apply (ld_held _ _ _ Hld)|].
    split; [by rewrite E|done]. }
  assert (usable_flags fl) as Hfl.
  { apply usable_lor; [apply (@flags_usable S pair_src src_view (src_laws S)), (ld_src _ _ _ Hld)|split; [by apply is_flags_const|done]]. }
  destruct (@grow_spec S pair_src src_view (src_laws S) (src_copy_laws S) pair_surroundings (allocator st) (src_block st) l fl
    (ld_src _ _ _ Hld) Hb Hheld Hlv Hfl ltac:(lia)) as (s' & r & E & K & Hcase).
  { unfold l, page_count in *. cbn [layout_size]. change L0_SIZE with 4096. lia. }
  change (same_view pair_dst dst_view (allocator st) s') in K. destruct Hcase as [(b & -> & Hcnt & Hg)|(e & -> & Hto)].
  2:{ eexists _, (Err e). unfold bindM, on_allocator. rewrite E. split; [done|]. right. exists e. split; [done|].
      apply (loading_harmless all st _ done fin); [done|done|done|..]; cbn [allocator].
      - intros p Hp. destruct (ld_else _ _ _ Hld p Hp) as (_ & Ht & <-).
        split; [by apply (touches_taken Hto); [|intros ?]|by apply (touches_backing Hto); [|intros ?]].
      - intros q _. apply (sv_backing K).
      - intros q Hq. apply (sv_taken K), (ld_dst_taken _ _ _ Hld), Hq. }
  assert (on_allocator (@grow S pair_src (src_block st) l fl) st =
    (mkLoader s' (curr st) (src_block st) (src_block_start_addr st) (memory st), Ok b)) as Eo by (unfold on_allocator; by rewrite E).
  rewrite (bindM_ok _ _ _ _ _ Eo). pose proof (gr_block _ _ _ _ _ Hg) as [Hbw Hbne]. rewrite Hpg in Hcnt.
  pose proof (wf_order _ _ Hb) as Hord. assert (0 <= page_count st) as Hpc by (unfold page_count; lia).
  assert (block_wf Page (mkBlock (b_start b + page_count st) (b_end b))) as Hnw by (apply (wf_sub b); [done|lia..]).
  pose proof (wf_usize _ _ Hnw) as [U1 U2]. cbn [b_start b_end] in U1, U2.
  rewrite usize_add_ok, bindM_lift, wf_from_index, bindM_lift by done.
  assert (0 < b_start b) as Hpos.
  { apply (@taken_range S pair_src src_view (src_laws S) s'); [apply (touches_wf (gr_touches _ _ _ _ _ Hg))|].
    apply (gr_held _ _ _ _ _ Hg). unfold inside. lia. }
  rewrite page_slice_ok, bindM_lift by (done || (cbn; lia) || by exists 4096). cbn [b_start b_end]. rewrite Z.div_1_r.
  destruct (zero_pages_spec s' b (b_start b + page_count st) (memory st)) as (mem' & Ez & Hzero & Hkeep);
    [apply (grown_writable _ _ _ _ _ (ld_writable _ _ _ Hld) (writable_lor_r _ PageTableFlags.WRITABLE eq_refl) Hg)|lia|].
  rewrite (bindM_ok _ _ _ _ _ (write_bytes_ok (mkLoader s' _ _ _ _) _ _ _ Ez)). cbn [curr src_block src_block_start_addr allocator].
  eexists _, (Ok tt). split; [done|]. left. split; [done|]. split; [|cbn; do 3 (split; [done|]); unfold page_count at 1; cbn; lia].
  cbn [curr src_block src_block_start_addr allocator memory].
  apply (loading_grown st done fin s' b fl mem' Hld Hg); [by apply writable_lor_r|done| | |lia].
  - intros j f o Hj Ho [fl' E']. apply (Hzero (b_start b + j) f fl' o); [lia|done..].
  - intros f o Hno. apply Hkeep. intros p fl' Hp E'. apply (Hno (p - b_start b) fl'); [lia|].
    by replace (b_start b + (p - b_start b)) with p by lia.
Qed.

(** The fields the invariant does not mention. *)
Lemma loading_with st done fin c a : loading st done fin ->
  loading (mkLoader (allocator st) c (src_block st) a (memory st)) done fin.
Proof. intros []. by split. Qed.

Lemma writable_same s s' b : same_view pair_src src_view s s' -> writable src_view s b -> writable src_view s' b.
Proof.
  intros Hs Hw p Hp. destruct (Hw p Hp) as (f & fl & E & Hf & Ho). exists f, fl. rewrite (sv_backing Hs). split; [done|].
  split; [done|]. intros q f1 fl1 f2 fl2 Hq. rewrite !(sv_backing Hs). by apply Ho.
Qed.

(** Changes of the destination that leave the source as it is. *)
Lemma loading_dst st done fin fin' s' : loading st done fin -> same_view pair_src src_view (allocator st) s' -> src_wf s' -> dst_wf s' ->
  dst_flags s' = dst_flags (allocator st) -> (forall q, dst_taken (allocator st) q -> dst_taken s' q) ->
  (forall q, ~ final fin' q -> dst_backing s' q = dst_backing s0 q) ->
  (forall m q, m ∈ fin' -> range_has m q -> reached done q /\ exists f, buffer st (q - B) f /\
     dst_backing s' q = Some (f, Z.lor (Z.lor (range_flags m) (dst_flags s0)) PageTableFlags.PRESENT)) ->
  loading (mkLoader s' (curr st) (src_block st) (src_block_start_addr st) (memory st)) done fin'.
Proof.
  intros Hld Hs Hw Hd Hdf Ht Hrest Hfin. set (st' := mkLoader s' _ _ _ _).
  assert (forall j f, buffer st' j f <-> buffer st j f) as Hbuf.
  { intros j f. unfold buffer, st', page_count. cbn. by setoid_rewrite (sv_backing Hs). }
  split; unfold st'; cbn [allocator src_block memory]; fold st'; try done.
  - rewrite (sv_flags Hs). apply (ld_src_flags _ _ _ Hld).
  - rewrite Hdf. apply (ld_dst_flags _ _ _ Hld).
  - apply (ld_block _ _ _ Hld).
  - intros p Hp. apply (sv_taken Hs), (ld_held _ _ _ Hld), Hp.
  - apply (writable_same (allocator st)); [done|apply (ld_writable _ _ _ Hld)].
  - intros p Hp. rewrite (sv_taken Hs), (sv_backing Hs). by apply (ld_else _ _ _ Hld).
  - intros j f o Hj. apply (ld_bytes _ _ _ Hld). by apply Hbuf.
  - intros f o Hno. apply (ld_memory _ _ _ Hld). intros j. by rewrite <- Hbuf.
  - intros q Hq. apply Ht, (ld_dst_taken _ _ _ Hld), Hq.
  - intros q Hq. destruct (ld_new _ _ _ Hld q Hq). auto.
  - intros m q Hm Hq. setoid_rewrite Hbuf. by apply Hfin.
  - intros j f q fl Hj E. apply Hbuf in Hj. destruct (decide (final fin' q)) as [(m & Hm & Hq)|Hno].
    + destruct (Hfin m q Hm Hq) as [_ (f' & Hf' & E')]. rewrite E in E'. injection E' as -> _.
      split; [by exists m|]. destruct Hj as [Hj1 [fl1 E1]], Hf' as [Hj2 [fl2 E2]].
      destruct (decide (j = q - B)) as [|Hne]; [lia|]. exfalso.
      destruct (ld_writable _ _ _ Hld (b_start (src_block st) + j)) as (_ & _ & _ & _ & Hso); [unfold inside, page_count in *; lia|].
      apply (Hso (b_start (src_block st) + (q - B)) f' fl1 f' fl2); [lia|done..].
    + rewrite (Hrest q Hno) in E. exfalso. by apply (not_buffer_dst st done fin q f fl Hld E j).
  - apply (ld_done _ _ _ Hld).
Qed.

Lemma start_index_spec (st : Loader S) : src_block_start_addr st = Some (B * L0_SIZE) -> 0 <= B < LOWER_HALF_PAGES -> start_index st = (st, Ok B).
Proof.
  intros E HB. unfold start_index. rewrite (bindM_ok _ _ _ st st) by done. rewrite E. cbn [unwrap_some]. rewrite bindM_lift.
  unfold containing. change (validate_size L0_SIZE) with true. cbn match. rewrite land_lnot64_align by (unfold is_usize; change L0_SIZE with 4096; lia).
  rewrite Z.div_mul by done. assert (valid VirtTag (B * L0_SIZE)) as Hv by (apply low_valid; change L0_SIZE with 4096; lia).
  unfold addr_new. rewrite (valid_new _ Hv). cbn [ok_or unwrap]. rewrite bindM_lift. unfold frage_index, index_by_address, frage_address.
  change (validate_size L0_SIZE) with true. cbn match. by rewrite Z.div_mul.
Qed.

(** How far the loader is: it has the open range [c], or nothing yet. *)
Inductive position (st : Loader S) (done : list FileRange) (next : MemoryRange) : option MemoryRange -> Prop :=
  | AtStart : curr st = None -> done = [] -> B = first_page next -> position st done next None
  | AtRange c : curr st = Some c -> src_block_start_addr st = Some (B * L0_SIZE) -> segment c ->
      b_end (range_memory c) <= b_start (range_memory next) -> B <= first_page c ->
      (forall q, touches c q -> reached done q) -> position st done next (Some c).

Lemma new_pages_spec st done next c : segment next -> position st done next c ->
  exists dn, new_pages (mkBlock (first_page next) (end_page next)) st =
      (mkLoader (allocator st) (curr st) (src_block st) (Some (B * L0_SIZE)) (memory st), Ok dn) /\
    block_wf Page dn /\ forall q, inside dn q <-> touches next q /\ ~ (exists c', c = Some c' /\ touches c' q).
Proof.
  intros Hn Hpos. pose proof (segment_pages next Hn) as [Hpn Hen].
  assert (block_wf Page (mkBlock (first_page next) (end_page next))) as Hw by (apply low_pages; lia).
  unfold new_pages. rewrite (bindM_ok _ _ _ st st) by done. destruct Hpos as [Ec _ HB|c Ec Ea Hc Hord _ _]; rewrite Ec.
  { rewrite wf_start_address, bindM_lift by done. cbn [b_start]. change (SIZE_OF Page) with L0_SIZE. rewrite HB.
    eexists. rewrite (bindM_ok _ _ _ _ tt) by reflexivity. rewrite Ec. split; [done|]. split; [done|]. intros q.
    unfold inside, touches. cbn. split; [|tauto]. intros Hq. split; [done|]. by intros (c' & ? & _). }
  pose proof (segment_pages c Hc) as [Hpc Hecl]. rewrite segment_enclosing, bindM_lift by done.
  assert (first_page c <= first_page next /\ end_page c - 1 <= first_page next) as [Ho1 Ho2].
  { destruct Hc as [Hcs _]. unfold first_page, end_page. Z.div_mod_to_equations. lia. }
  rewrite low_disjoint, bindM_lift by (done || (apply low_pages; lia) || (cbn; lia)). cbn [b_start b_end].
  replace (mkLoader (allocator st) (Some c) (src_block st) (Some (B * L0_SIZE)) (memory st)) with st
    by (rewrite <- Ec, <- Ea; by destruct st).
  assert (forall q, (exists c', Some c = Some c' /\ touches c' q) <-> touches c q) as Hiff.
  { intros q. split; [by intros (c' & [= <-] & H)|eauto]. }
  setoid_rewrite Hiff. unfold touches. destruct (Z.leb_spec (end_page c) (first_page next)) as [Hd|Hd].
  { eexists. split; [done|]. split; [done|]. intros q. unfold inside. cbn. lia. }
  assert (end_page c <= end_page next) as He by lia. rewrite Z.min_l by done.
  destruct (Z.ltb_spec (end_page c) (end_page next)) as [Hlt|Hge].
  - rewrite wf_from_index by (apply low_pages; lia). eexists. split; [done|]. split; [apply low_pages; lia|].
    intros q. unfold inside. cbn. lia.
  - eexists. split; [done|]. split; [wf_check|]. intros q. unfold inside. cbn. lia.
Qed.

(** Reserving the new pages in the destination. *)
Lemma reserve_new_spec all st done fin dn : loading st done fin -> (forall r, r ∈ done -> r ∈ all) -> block_wf Page dn ->
  exists st' r, (if negb (is_empty dn) then on_allocator (@big_reserve_fixed S pair_dst dn) else retM tt) st = (st', r) /\
    (r = Ok tt /\ loading st' done fin /\ curr st' = curr st /\ src_block_start_addr st' = src_block_start_addr st /\
       page_count st' = page_count st /\
       (forall q, inside dn q -> dst_taken (allocator st') q /\ dst_backing s0 q = None) \/
     exists e, r = Err e /\ harmless all st').
Proof.
  intros Hld Hall Hdn. unfold is_empty. destruct (Z.eqb_spec (b_start dn) (b_end dn)) as [He|He]; cbn [negb].
  { exists st, (Ok tt). split; [done|]. left. do 5 (split; [done|]). unfold inside. lia. }
  pose proof (wf_order _ _ Hdn) as Ho.
  destruct (dst_reserve_law S (allocator st) dn (ld_src _ _ _ Hld) (ld_dst _ _ _ Hld)) as
    (s' & r & E & Hs & Hw & Hcase); [split; [done|lia]|].
  exists (mkLoader s' (curr st) (src_block st) (src_block_start_addr st) (memory st)), r.
  split; [unfold on_allocator; by rewrite E|]. destruct Hcase as [(-> & Hr & Hin)|(e & -> & Hr)].
  - left. split; [done|]. split.
    + apply (loading_dst st done fin); [done|done|done|apply (retakes_wf Hr)|apply (retakes_flags Hr)| | |].
      * intros q Hq. apply (retakes_taken Hr); [|done]. intros Hn. by apply Hn.
      * intros q Hq. rewrite (retakes_backing Hr). by apply (ld_rest _ _ _ Hld).
      * intros m q Hm Hq. rewrite (retakes_backing Hr). by apply (ld_final _ _ _ Hld).
    + do 3 (split; [done|]). intros q Hq. destruct (Hin q Hq) as (_ & Ht & Hnone). split; [done|].
      rewrite <- (ld_rest _ _ _ Hld q); [done|]. intros (m & Hm & Hmq).
      destruct (ld_final _ _ _ Hld m q Hm Hmq) as [_ (f & _ & Ef)]. congruence.
  - right. exists e. split; [done|]. apply (loading_harmless all st _ done fin); [done|done|done|..]; cbn [allocator].
    + intros p Hp. rewrite (sv_taken Hs), (sv_backing Hs). by apply (ld_else _ _ _ Hld).
    + intros q _. apply (retakes_backing Hr).
    + intros q Hq. apply (retakes_taken Hr); [by intros []|]. by apply (ld_dst_taken _ _ _ Hld).
Qed.

Lemma extend_mapping_spec all st done fin next c : loading st done fin -> (forall r, r ∈ done -> r ∈ all) ->
  segment (virt_range next) -> 0 <= B <= first_page (virt_range next) -> position st done (virt_range next) c ->
  exists st' r, extend_mapping next st = (st', r) /\
    (r = Ok tt /\ loading st' done fin /\ curr st' = curr st /\ src_block_start_addr st' = Some (B * L0_SIZE) /\
       end_page (virt_range next) <= B + page_count st' /\
       (forall q, touches (virt_range next) q -> dst_taken (allocator st') q /\ dst_backing s0 q = None) \/
     exists e, r = Err e /\ harmless all st').
Proof.
  intros Hld Hall Hn HB Hpos. unfold extend_mapping. rewrite segment_enclosing, bindM_lift by done.
  destruct (new_pages_spec st done (virt_range next) c Hn Hpos) as (dn & E1 & Hdn & Hin). rewrite (bindM_ok _ _ _ _ _ E1).
  set (st1 := mkLoader _ _ _ _ _). assert (loading st1 done fin) as Hld1 by (by apply loading_with).
  destruct (reserve_new_spec all st1 done fin dn Hld1 Hall Hdn) as (st2 & r & E2 & Hcase).
  destruct Hcase as [(-> & Hld2 & Hc2 & Ha2 & Hp2 & Hnew)|(e & -> & Hh)].
  2:{ rewrite (bindM_err _ _ _ _ _ E2). eauto 10. }
  rewrite (bindM_ok _ _ _ _ _ E2). pose proof (segment_pages _ Hn) as [Hpn Hen].
  rewrite (bindM_ok _ _ _ _ _ (start_index_spec st2 Ha2 ltac:(lia))). cbn [b_end].
  rewrite usize_sub_ok, bindM_lift by (unfold is_usize; lia).
  destruct (grow_src_block_spec all st2 done fin (end_page (virt_range next) - B) Hld2 Hall ltac:(lia)) as (st3 & r & E3 & Hcase).
  rewrite E3. exists st3, r. split; [done|]. destruct Hcase as [(-> & Hld3 & Hc3 & Ha3 & Hd3 & Hp3)|(e & -> & Hh)]; [left|eauto].
  split; [done|]. split; [done|]. split; [by rewrite Hc3, Hc2|]. split; [by rewrite Ha3, Ha2|]. split; [lia|]. intros q Hq.
  assert ((exists c', c = Some c' /\ touches c' q) \/ inside dn q) as [(c' & -> & Hq')|Hq'].
  { destruct c as [c'|].
    - destruct (decide (first_page c' <= q < end_page c')); [left; eauto|]. right. apply Hin. split; [done|].
      by intros (c'' & [= <-] & Hc'').
    - right. apply Hin. split; [done|]. by intros (c'' & ? & _). }
  - inversion Hpos as [|? _ _ _ _ _ Hr]; subst. apply (ld_new _ _ _ Hld3). by apply Hr.
  - destruct (Hnew q Hq') as [Ht Hnone]. split; [by apply (sv_taken Hd3)|done].
Qed.

(** Writing a segment: the bytes of the file, then zeros. *)
Lemma segment_bytes_spec s b base next data mem : writable src_view s b -> file_range_ok file next ->
  slice_get file (file_start next) (file_end next) = Some data ->
  let size := b_end (range_memory (virt_range next)) - b_start (range_memory (virt_range next)) in
  (forall k, 0 <= k < size -> inside b ((base + k) / L0_SIZE)) ->
  let len := Z.of_nat (length data) in
  len = file_end next - file_start next /\
  exists mem1 mem2, store_bytes src_view s base data mem = Ok mem1 /\
    store_bytes src_view s (base + len) (replicate (Z.to_nat (size - len)) 0) mem1 = Ok mem2 /\
    (forall k f o, 0 <= k < size -> byte_at src_view s (base + k) f o ->
       mem2 f o = segment_byte file next (b_start (range_memory (virt_range next)) + k)) /\
    (forall f o, (forall k, 0 <= k < size -> ~ byte_at src_view s (base + k) f o) -> mem2 f o = mem f o).
Proof.
  intros Hw [_ [Hf1 Hf2] Hsz] Hget size Hin len. unfold slice_get in Hget.
  rewrite (proj2 (Z.leb_le _ _)), (proj2 (Z.leb_le _ _)) in Hget by lia. cbn [andb] in Hget. injection Hget as Hdata.
  assert (len = file_end next - file_start next) as Hlen.
  { unfold len. rewrite <- Hdata, length_take, length_drop. lia. }
  split; [done|]. fold size in Hsz.
  destruct (store_bytes_spec src_view s b data base mem Hw) as (mem1 & E1 & Hn1 & Ho1); [intros k Hk; apply Hin; lia|].
  destruct (store_bytes_spec src_view s b (replicate (Z.to_nat (size - len)) 0) (base + len) mem1 Hw) as (mem2 & E2 & Hn2 & Ho2).
  { rewrite length_replicate. intros k Hk. rewrite <- Z.add_assoc. apply Hin. lia. }
  rewrite length_replicate in Hn2, Ho2. exists mem1, mem2. split; [done|]. split; [done|]. split.
  - intros k f o Hk Hat. unfold segment_byte. replace (b_start _ + k - b_start _) with k by lia.
    destruct (Z.ltb_spec k (file_end next - file_start next)) as [Hlt|Hge].
    + rewrite Ho2.
      * rewrite (Hn1 k f o ltac:(lia) Hat). rewrite <- Hdata, !list_lookup_total_alt, lookup_take_lt, lookup_drop by lia. do 2 f_equal. lia.
      * intros k' Hk' Hat'. pose proof (byte_at_inj src_view s b _ _ _ _ Hw (Hin k Hk) Hat Hat'). lia.
    + rewrite (Hn2 (k - len) f o); [apply lookup_total_replicate_2; lia|lia|].
      by replace (base + len + (k - len)) with (base + k) by lia.
  - intros f o Hno. rewrite Ho2, Ho1; [done|..].
    + intros k Hk. apply Hno. lia.
    + intros k Hk. rewrite <- Z.add_assoc. apply Hno. lia.
Qed.

(** The invariant after the bytes of a segment are written. *)
Lemma loading_copied st done fin next mem' : loading st done fin -> segment (virt_range next) ->
  let start := b_start (range_memory (virt_range next)) in
  let base := b_start (src_block st) * L0_SIZE + (start - B * L0_SIZE) in
  let size := b_end (range_memory (virt_range next)) - start in
  B <= first_page (virt_range next) -> end_page (virt_range next) <= B + page_count st ->
  (forall q, touches (virt_range next) q -> dst_taken (allocator st) q /\ dst_backing s0 q = None) ->
  (forall r, r ∈ done -> b_end (range_memory (virt_range r)) <= start) ->
  (forall k f o, 0 <= k < size -> byte_at src_view (allocator st) (base + k) f o -> mem' f o = segment_byte file next (start + k)) ->
  (forall f o, (forall k, 0 <= k < size -> ~ byte_at src_view (allocator st) (base + k) f o) -> mem' f o = memory st f o) ->
  loading (mkLoader (allocator st) (curr st) (src_block st) (src_block_start_addr st) mem') (done ++ [next]) fin.
Proof.
  intros Hld Hn start base size HB He Hdst Hord Hnew Hold. set (st' := mkLoader _ _ _ _ mem').
  assert (forall j f, buffer st' j f <-> buffer st j f) as Hbuf by done.
  assert (forall k, 0 <= k < size -> inside (src_block st) ((base + k) / L0_SIZE)) as Hin.
  { intros k Hk. destruct Hn as [Hn1 Hn2]. unfold inside, base, size, start, page_count, first_page, end_page in *.
    change L0_SIZE with 4096. Z.div_mod_to_equations. lia. }
  destruct Hld as [H1 H2 H3 H4 H5 H6 H7 H8 Hbytes Hmem H11 Hn' Hfin H14 H15 Hdone].
  split; try done; unfold st'; cbn [allocator src_block memory]; fold st'.
  - intros j f o Hj Ho. apply Hbuf in Hj. set (a := (B + j) * L0_SIZE + o).
    assert (byte_at src_view (allocator st) (base + (a - start)) f o) as Hat.
    { replace (base + (a - start)) with (b_start (src_block st) * L0_SIZE + (j * L0_SIZE + o)) by (unfold base, a; lia).
      destruct (block_address (b_start (src_block st)) j o Ho) as [Hd Hm]. destruct Hj as [_ [fl E]]. exists fl. by rewrite Hd, Hm. }
    rewrite image_snoc.
    + case_decide as Hc.
      * rewrite (Hnew (a - start) f o) by (done || (unfold covers in Hc; unfold size, start; lia)). f_equal. lia.
      * rewrite Hold; [by apply Hbytes|]. intros k Hk Hat'. apply Hc.
        pose proof (byte_at_inj src_view _ (src_block st) _ _ _ _ H7 (Hin k Hk) Hat' Hat). unfold covers. unfold size, start in *. lia.
    + intros r' Hr' Hc Hc'. specialize (Hord r' Hr'). unfold covers, start in *. lia.
  - intros f o Hno. rewrite Hold; [by apply Hmem|]. intros k Hk (fl & E & _). specialize (Hin k Hk).
    apply (Hno ((base + k) / L0_SIZE - b_start (src_block st))). split.
    + unfold page_count, st'. cbn. unfold inside in Hin. lia.
    + exists fl. cbn. by replace (b_start (src_block st) + ((base + k) / L0_SIZE - b_start (src_block st))) with ((base + k) / L0_SIZE) by lia.
  - intros q (r & [Hr| ->%list_elem_of_singleton]%elem_of_app & Hq); [apply Hn'; by exists r|by apply Hdst].
  - intros m q Hm Hq. destruct (Hfin m q Hm Hq) as [Hr Hf]. split; [|done]. apply (reached_mono done); [|done].
    intros r ?. apply elem_of_app. by left.
  - intros r [Hr| ->%list_elem_of_singleton]%elem_of_app; [by apply Hdone|done].
Qed.

Lemma copy_to_memory_spec st done fin next : loading st done fin -> file_range_ok file next ->
  src_block_start_addr st = Some (B * L0_SIZE) -> 0 <= B <= first_page (virt_range next) ->
  end_page (virt_range next) <= B + page_count st ->
  (forall q, touches (virt_range next) q -> dst_taken (allocator st) q /\ dst_backing s0 q = None) ->
  (forall r, r ∈ done -> b_end (range_memory (virt_range r)) <= b_start (range_memory (virt_range next))) ->
  exists st', copy_to_memory file next st = (st', Ok (virt_range next)) /\ loading st' (done ++ [next]) fin /\
    curr st' = curr st /\ src_block_start_addr st' = src_block_start_addr st.
Proof.
  intros Hld Hok Ha HB He Hdst Hord. pose proof (fr_segment _ _ Hok) as Hn. pose proof (segment_pages _ Hn) as [Hpn Hen].
  pose proof Hn as [Hn1 Hn2]. destruct (fr_file _ _ Hok) as [Hf1 Hf2]. pose proof (fr_size _ _ Hok) as Hsz.
  assert (exists data, slice_get file (file_start next) (file_end next) = Some data) as [data Edata].
  { unfold slice_get. rewrite (proj2 (Z.leb_le _ _)), (proj2 (Z.leb_le _ _)) by lia. eauto. }
  unfold copy_to_memory. rewrite Edata. cbn [ok_or]. rewrite bindM_lift, (bindM_ok _ _ _ st st), Ha by done. cbn [unwrap_some].
  set (mem_ := range_memory (virt_range next)) in *.
  assert (block_wf Virtual mem_) as Hvw.
  { unfold mem_. destruct (range_memory (virt_range next)) as [x y]. apply low_block; cbn in *; lia. }
  rewrite bindM_lift, wf_start_address, bindM_lift by done. change (SIZE_OF Virtual) with 1. rewrite Z.mul_1_r.
  assert (B * L0_SIZE <= b_start mem_) as HBs by (unfold first_page in HB; fold mem_ in HB; change L0_SIZE with 4096; Z.div_mod_to_equations; lia).
  rewrite usize_sub_ok, bindM_lift by (unfold is_usize; change L0_SIZE with 4096 in *; lia).
  pose proof (ld_block _ _ _ Hld) as Hb. pose proof (wf_order _ _ Hb) as Ho. unfold page_count in He.
  assert (0 < b_start (src_block st)) as Hpos.
  { apply (@taken_range S pair_src src_view (src_laws S) (allocator st)); [apply (ld_src _ _ _ Hld)|].
    apply (ld_held _ _ _ Hld). unfold inside. lia. }
  rewrite page_slice_ok, bindM_lift by (done || by exists 4096). rewrite Z.div_1_r.
  set (base := b_start (src_block st) * L0_SIZE + (b_start mem_ - B * L0_SIZE)).
  destruct (segment_bytes_spec (allocator st) (src_block st) base next data (memory st)) as
    (Hlen & mem1 & mem2 & E1 & E2 & Hnew & Hold); [apply (ld_writable _ _ _ Hld)|done|done| |].
  { intros k Hk. fold mem_ in Hk. unfold inside, base, first_page, end_page in *. fold mem_ in He, HB. change L0_SIZE with 4096 in *.
    Z.div_mod_to_equations. lia. }
  set (len := Z.of_nat (length data)) in *. fold mem_ in E2, Hnew, Hold.
  assert (b_end mem_ - B * L0_SIZE <= (b_end (src_block st) - b_start (src_block st)) * L0_SIZE) as Hfit.
  { unfold end_page in He. fold mem_ in He. change L0_SIZE with 4096 in *. Z.div_mod_to_equations. lia. }
  rewrite usize_add_ok, bindM_lift by (unfold is_usize; change L0_SIZE with 4096 in *; lia).
  unfold check_range at 1. rewrite !(proj2 (Z.leb_le _ _)) by lia. cbn [andb]. rewrite bindM_lift.
  rewrite (bindM_ok _ _ _ _ _ (write_bytes_ok st base data mem1 E1)), wf_size, bindM_lift by done.
  change (SIZE_OF Virtual) with 1. rewrite Z.mul_1_r.
  assert (loading (mkLoader (allocator st) (curr st) (src_block st) (src_block_start_addr st) mem2) (done ++ [next]) fin) as Hres.
  { by apply loading_copied; try done; lia. }
  destruct (Z.ltb_spec len (b_end mem_ - b_start mem_)) as [Hlt|Hge].
  - rewrite usize_add_ok by (unfold is_usize; change L0_SIZE with 4096 in *; lia).
    eexists. split; [|split; [exact Hres|done]]. unfold bindM, liftM, check_range. rewrite !(proj2 (Z.leb_le _ _)) by lia.
    cbn [andb]. unfold write_bytes. cbn [allocator memory].
    replace (b_start (src_block st) * L0_SIZE + (b_start mem_ - B * L0_SIZE + len)) with (base + len) by (unfold base; lia).
    replace (b_start mem_ - B * L0_SIZE + (b_end mem_ - b_start mem_) - (b_start mem_ - B * L0_SIZE + len)) with
      (b_end mem_ - b_start mem_ - len) by lia. by rewrite E2.
  - eexists. split; [|split; [exact Hres|done]]. replace (b_end mem_ - b_start mem_ - len) with 0 in E2 by lia.
    cbn in E2. injection E2 as <-. done.
Qed.

(** Moving pages to the destination. *)
Lemma finalize_mapping_spec all st done fin m : loading st done fin -> (forall r, r ∈ done -> r ∈ all) ->
  (forall r, r ∈ done -> segment (virt_range r)) -> src_block_start_addr st = Some (B * L0_SIZE) -> 0 <= B < LOWER_HALF_PAGES ->
  b_start (range_memory m) < b_end (range_memory m) -> segment_flags (range_flags m) ->
  (forall q, range_has m q -> reached done q /\ ~ final fin q) ->
  exists st' r, finalize_mapping m st = (st', r) /\
    (r = Ok tt /\ loading st' done (fin ++ [m]) /\ curr st' = curr st /\ src_block_start_addr st' = src_block_start_addr st \/
     exists e, r = Err e /\ harmless all st').
Proof.
  intros Hld Hall Hsegs Ha HB Hne [Hfl Hus] Hm. unfold finalize_mapping, is_empty. rewrite (proj2 (Z.eqb_neq _ _)) by lia.
  rewrite (bindM_ok _ _ _ st st), (bindM_ok _ _ _ _ _ (start_index_spec st Ha HB)) by done.
  set (b := range_memory m) in *.
  assert (forall q, inside b q -> range_has m q) as Hhas by (intros q Hq; by apply contains_index_iff).
  assert (forall q, inside b q -> B <= q < B + page_count st /\ 0 <= q /\ (q + 1) * 4096 < LOWER_END) as Hpages.
  { intros q Hq. destruct (Hm q (Hhas q Hq)) as [(r & Hr & Ht) _]. destruct (ld_done _ _ _ Hld r Hr).
    pose proof (segment_pages _ (Hsegs r Hr)). unfold touches in Ht. lia. }
  pose proof (Hpages (b_start b) ltac:(unfold inside; lia)). pose proof (Hpages (b_end b - 1) ltac:(unfold inside; lia)).
  assert (block_wf Page b) as Hbw by (destruct b as [x y]; cbn in *; apply low_pages; lia).
  pose proof (ld_block _ _ _ Hld) as Hsb. unfold page_count in *. set (x := b_start (src_block st)) in *.
  set (sb := mkBlock (x + (b_start b - B)) (x + (b_start b - B) + (b_end b - b_start b))).
  assert (block_wf Page sb) as Hsbw by (apply (wf_sub _ _ _ Hsb); unfold x; lia).
  pose proof (wf_usize _ _ Hsbw) as [U1 U2]. cbn [b_start b_end sb] in U1, U2.
  rewrite usize_sub_ok, bindM_lift, usize_add_ok, bindM_lift, wf_count, bindM_lift, usize_add_ok, bindM_lift, wf_from_index, bindM_lift
    by (done || (unfold is_usize; lia)). fold sb.
  set (flags := Z.lor (range_flags m) (dst_flags (allocator st))).
  destruct (pair_copy_law S (allocator st) sb b flags (ld_src _ _ _ Hld) (ld_dst _ _ _ Hld)) as
    (s' & r & E & Hs & Hw & Hr & Hcase).
  - split; [done|cbn; lia].
  - split; [done|lia].
  - cbn. lia.
  - intros p Hp. assert (inside (src_block st) p) as Hin by (unfold inside, sb, x in *; cbn in Hp; lia).
    split; [by apply (ld_held _ _ _ Hld)|]. destruct (ld_writable _ _ _ Hld p Hin) as (f & fl & -> & _). done.
  - intros p Hp. destruct (Hm p (Hhas p Hp)) as [Hre _]. by apply (ld_new _ _ _ Hld).
  - apply usable_lor; [done|]. apply (dst_flags_law S), (ld_dst _ _ _ Hld).
  - unfold flags. by rewrite user_lor, Hus.
  - exists (mkLoader s' (curr st) (src_block st) (src_block_start_addr st) (memory st)), r.
    split; [unfold on_allocator; by rewrite E|]. destruct Hcase as [(-> & Hmap)|(e & ->)]; [left|right].
    + split; [done|]. split; [|done].
      assert (forall q, ~ inside b q -> ~ range_has m q) as Hno by (intros q Hq Hq'; by apply Hq, contains_index_iff).
      apply (loading_dst st done fin); [done|done|done|apply (remaps_wf Hr)|apply (remaps_flags Hr)| | |].
      * intros q. apply (remaps_taken Hr).
      * intros q Hq. rewrite (remaps_backing Hr).
        -- apply (ld_rest _ _ _ Hld). intros (m' & Hm' & Hq'). apply Hq. exists m'. split; [apply elem_of_app; by left|done].
        -- intros Hin. apply Hq. exists m. split; [apply elem_of_app; right; left|by apply Hhas].
      * intros m' q [Hm'| ->%list_elem_of_singleton]%elem_of_app Hq.
        -- rewrite (remaps_backing Hr); [by apply (ld_final _ _ _ Hld)|]. intros Hin. destruct (Hm q (Hhas q Hin)) as [_ Hnf].
           apply Hnf. by exists m'.
        -- split; [by apply Hm|]. apply contains_index_iff in Hq. change (inside b q) in Hq. specialize (Hpages q Hq).
           destruct (buffer_exists st done fin (q - B) Hld) as [f Hf]; [unfold page_count; fold x; lia|]. exists f. split; [done|].
           destruct Hf as [_ [fl Ef]]. unfold inside in Hq. fold x in Ef.
           replace q with (b_start b + (q - b_start b)) by lia. rewrite (Hmap (q - b_start b) f fl).
           ++ unfold flags. by rewrite (ld_dst_flags _ _ _ Hld).
           ++ cbn. lia.
           ++ cbn. rewrite <- Ef. f_equal. lia.
    + exists e. split; [done|]. apply (loading_harmless all st _ done fin); [done|done|done|..]; cbn [allocator].
      * intros p Hp. rewrite (sv_taken Hs), (sv_backing Hs). by apply (ld_else _ _ _ Hld).
      * intros q Hq. apply (remaps_backing Hr). intros Hin. apply Hq. destruct (Hm q (Hhas q Hin)) as [Hre _].
        by apply (reached_mono done).
      * intros q Hq. apply (remaps_taken Hr), (ld_dst_taken _ _ _ Hld), Hq.
Qed.

Lemma finalize_some_spec all st done fin o : loading st done fin -> (forall r, r ∈ done -> r ∈ all) ->
  (forall r, r ∈ done -> segment (virt_range r)) -> src_block_start_addr st = Some (B * L0_SIZE) -> 0 <= B < LOWER_HALF_PAGES ->
  (forall m, o = Some m -> b_start (range_memory m) < b_end (range_memory m) /\ segment_flags (range_flags m)) ->
  (forall q, has_page o q -> reached done q /\ ~ final fin q) ->
  exists st' r, finalize_some o st = (st', r) /\
    (r = Ok tt /\ loading st' done (fin ++ option_list o) /\ curr st' = curr st /\ src_block_start_addr st' = src_block_start_addr st \/
     exists e, r = Err e /\ harmless all st').
Proof.
  intros Hld Hall Hsegs Ha HB Hm Hp. destruct o as [m|]; cbn [finalize_some option_list].
  - destruct (Hm m eq_refl). by apply (finalize_mapping_spec all st done fin m).
  - exists st, (Ok tt). rewrite app_nil_r. auto 10.
Qed.

(** The loader between two segments: [c] is the open range. *)
Record open (st : Loader S) (done : list FileRange) (fin : list MemoryRange) (c : MemoryRange) : Prop := {
  op_loading : loading st done fin;
  op_curr : curr st = Some c;
  op_start : src_block_start_addr st = Some (B * L0_SIZE);
  op_segment : segment c;
  op_flags : segment_flags (range_flags c);
  op_first : 0 <= B <= first_page c;
  op_reached : forall q, touches c q -> reached done q;
  op_done : forall r, r ∈ done -> segment (virt_range r) /\ b_end (range_memory (virt_range r)) <= b_end (range_memory c);
  op_final : forall q, final fin q -> q < first_page c;
}.

Lemma final_app fin fin' q : final (fin ++ fin') q <-> final fin q \/ final fin' q.
Proof.
  unfold final. setoid_rewrite elem_of_app. split; [intros (m & [H|H] & Hq); eauto|]. intros [(m & H & Hq)|(m & H & Hq)]; eauto.
Qed.

Lemma final_option o q : final (option_list o) q <-> has_page o q.
Proof.
  unfold final. destruct o as [m|]; cbn.
  - split; [by intros (m' & ->%list_elem_of_singleton & H)|]. intros H. exists m. split; [by left|done].
  - split; [by intros (m' & H%not_elem_of_nil & _)|done].
Qed.

(** The ranges [combine] finishes are mapped, and the rest stays open. *)
Lemma open_step all st done fin c next cmn bnd upd : loading st (done ++ [next]) fin -> (forall r, r ∈ done ++ [next] -> r ∈ all) ->
  (forall r, r ∈ done ++ [next] -> segment (virt_range r)) ->
  src_block_start_addr st = Some (B * L0_SIZE) -> segment c -> segment_flags (range_flags c) -> segment_flags (range_flags (virt_range next)) ->
  0 <= B <= first_page c -> (forall q, touches c q -> reached done q) ->
  (forall r, r ∈ done -> b_end (range_memory (virt_range r)) <= b_end (range_memory c)) -> (forall q, final fin q -> q < first_page c) ->
  b_end (range_memory c) <= b_start (range_memory (virt_range next)) -> combine c (virt_range next) = Ok (cmn, bnd, upd) ->
  combined c (virt_range next) cmn bnd upd ->
  exists st' r, (let! _ := finalize_some cmn in let! _ := finalize_some bnd in set_curr (Some upd)) st = (st', r) /\
    (r = Ok tt /\ open st' (done ++ [next]) (fin ++ option_list cmn ++ option_list bnd) upd \/
     exists e, r = Err e /\ harmless all st').
Proof.
  intros Hld Hall Hsegs Ha Hc Hfc Hfn HB Hrc Hdone Hfin Hord E Hco.
  assert (segment (virt_range next)) as Hn by (apply Hsegs, elem_of_app; right; left).
  assert (0 <= B < LOWER_HALF_PAGES) as HB' by (pose proof (segment_pages c Hc); lia).
  assert (forall q, touches c q -> reached (done ++ [next]) q) as Hrc'.
  { intros q Hq. apply (reached_mono done); [intros; apply elem_of_app; by left|by apply Hrc]. }
  destruct (finalize_some_spec all st (done ++ [next]) fin cmn Hld Hall Hsegs Ha HB') as
    (st1 & r & E1 & [(-> & Hld1 & Hc1 & Ha1)|(e & -> & Hh)]).
  { intros m ->. split; [by apply (combine_nonempty c (virt_range next) (Some m) bnd upd); auto|].
    pose proof (co_cmn_flags _ _ _ _ _ Hco) as Hf. cbn in Hf. by rewrite Hf. }
  { intros q Hq. destruct (co_cmn _ _ _ _ _ Hco q Hq) as [Ht _]. split; [by apply Hrc'|]. intros Hf%Hfin. unfold touches in Ht. lia. }
  2:{ rewrite (bindM_err _ _ _ _ _ E1). eauto 10. }
  rewrite (bindM_ok _ _ _ _ _ E1). rewrite Ha in Ha1.
  destruct (finalize_some_spec all st1 (done ++ [next]) (fin ++ option_list cmn) bnd Hld1 Hall Hsegs Ha1 HB') as
    (st2 & r & E2 & [(-> & Hld2 & Hc2 & Ha2)|(e & -> & Hh)]).
  { intros m ->. split; [by apply (combine_nonempty c (virt_range next) cmn (Some m) upd); auto|].
    pose proof (co_bnd_flags _ _ _ _ _ Hco) as Hf. cbn in Hf. rewrite Hf. by apply segment_flags_lor. }
  { intros q Hq. destruct (co_bnd _ _ _ _ _ Hco q Hq) as [Ht _]. split; [by apply Hrc'|].
    rewrite final_app, final_option. intros [Hf%Hfin|Hf]; [unfold touches in Ht; lia|].
    pose proof (co_below _ _ _ _ _ Hco q q Hf (or_introl Hq)). lia. }
  2:{ rewrite (bindM_err _ _ _ _ _ E2). eauto 10. }
  rewrite (bindM_ok _ _ _ _ _ E2). eexists _, (Ok tt). split; [done|]. left. split; [done|].
  pose proof (co_segment _ _ _ _ _ Hco) as Hu. pose proof (upd_touches_first c (virt_range next) cmn bnd upd Hco) as Hfirst.
  assert (first_page c <= first_page (virt_range next)) as Hcn by (destruct Hc; unfold first_page; apply Z.div_le_mono; lia).
  assert (forall q, touches upd q -> touches (virt_range next) q) as Hun.
  { intros q Hq. destruct (co_upd _ _ _ _ _ Hco) as [[H _]|[H _]]; by apply H. }
  split; cbn [allocator curr src_block_start_addr].
  - rewrite app_assoc. by apply loading_with.
  - done.
  - congruence.
  - done.
  - destruct (co_upd _ _ _ _ _ Hco) as [[_ ->]|[_ ->]]; [by apply segment_flags_lor|done].
  - specialize (Hun _ Hfirst). unfold touches in Hun. lia.
  - intros q Hq. exists next. split; [apply elem_of_app; right; left|by apply Hun].
  - intros r Hr. split; [by apply Hsegs|]. rewrite (co_end _ _ _ _ _ Hco). pose proof Hn as [Hn1 _].
    apply elem_of_app in Hr as [Hr| ->%list_elem_of_singleton]; [|lia]. specialize (Hdone r Hr). lia.
  - intros q. rewrite !final_app, !final_option. intros [Hf%Hfin|Hf].
    + specialize (Hun _ Hfirst). unfold touches in Hun. lia.
    + by apply (finished_below c (virt_range next) cmn bnd upd Hco).
Qed.

(** A segment that follows the open range. *)
Lemma load_next_spec all st done fin c next : open st done fin c -> (forall r, r ∈ done ++ [next] -> r ∈ all) ->
  file_range_ok file next -> segment_flags (range_flags (virt_range next)) ->
  b_end (range_memory c) <= b_start (range_memory (virt_range next)) ->
  exists cmn bnd upd, combine c (virt_range next) = Ok (cmn, bnd, upd) /\ b_end (range_memory upd) = b_end (range_memory (virt_range next)) /\
  exists st' r, load_program_header file next st = (st', r) /\
    (r = Ok tt /\ open st' (done ++ [next]) (fin ++ option_list cmn ++ option_list bnd) upd \/
     exists e, r = Err e /\ harmless all st').
Proof.
  intros [Hld Ec Ea Hc Hfc HB Hrc Hdone Hfin] Hall Hok Hfn Hord. pose proof (fr_segment _ _ Hok) as Hn.
  destruct (combine_spec c (virt_range next) Hc Hn Hord) as (cmn & bnd & upd & E & Hco).
  exists cmn, bnd, upd. split; [done|]. split; [apply (co_end _ _ _ _ _ Hco)|]. unfold load_program_header.
  assert (forall r, r ∈ done -> r ∈ all) as Hall' by (intros r Hr; apply Hall, elem_of_app; by left).
  assert (first_page c <= first_page (virt_range next)) as Hcn by (destruct Hc; unfold first_page; apply Z.div_le_mono; lia).
  destruct (extend_mapping_spec all st done fin next (Some c) Hld Hall' Hn ltac:(lia)) as
    (st1 & r & E1 & [(-> & Hld1 & Hc1 & Ha1 & He1 & Hd1)|(e & -> & Hh)]); [by apply AtRange; [..|lia|]| |].
  2:{ rewrite (bindM_err _ _ _ _ _ E1). eauto 10. }
  rewrite (bindM_ok _ _ _ _ _ E1).
  destruct (copy_to_memory_spec st1 done fin next Hld1 Hok Ha1 ltac:(lia) He1 Hd1) as (st2 & E2 & Hld2 & Hc2 & Ha2).
  { intros r Hr. destruct (Hdone r Hr). lia. }
  rewrite (bindM_ok _ _ _ _ _ E2), (bindM_ok _ _ _ st2 st2) by done.
  assert (curr st2 = Some c) as -> by congruence. rewrite E, bindM_lift.
  apply (open_step all st2 done fin c next cmn bnd upd); try done; [|congruence|].
  - intros r [Hr| ->%list_elem_of_singleton]%elem_of_app; [by apply Hdone|done].
  - intros r Hr. by apply Hdone.
Qed.

(** The first segment. *)
Lemma load_first_spec all st next : loading st [] [] -> curr st = None -> next ∈ all -> B = first_page (virt_range next) ->
  file_range_ok file next -> segment_flags (range_flags (virt_range next)) ->
  exists st' r, load_program_header file next st = (st', r) /\
    (r = Ok tt /\ open st' [next] [] (virt_range next) \/ exists e, r = Err e /\ harmless all st').
Proof.
  intros Hld Ec Hall HB Hok Hfn. pose proof (fr_segment _ _ Hok) as Hn. pose proof (segment_pages _ Hn) as [Hpn _].
  unfold load_program_header.
  destruct (extend_mapping_spec all st [] [] next None Hld) as
    (st1 & r & E1 & [(-> & Hld1 & Hc1 & Ha1 & He1 & Hd1)|(e & -> & Hh)]);
    [by intros r Hr%not_elem_of_nil|done|lia|by apply AtStart| |].
  2:{ rewrite (bindM_err _ _ _ _ _ E1). eauto 10. }
  rewrite (bindM_ok _ _ _ _ _ E1).
  destruct (copy_to_memory_spec st1 [] [] next Hld1 Hok Ha1 ltac:(lia) He1 Hd1) as (st2 & E2 & Hld2 & Hc2 & Ha2);
    [by intros r Hr%not_elem_of_nil|].
  rewrite (bindM_ok _ _ _ _ _ E2), (bindM_ok _ _ _ st2 st2) by done.
  assert (curr st2 = None) as -> by congruence. eexists _, (Ok tt). split; [done|]. left. split; [done|].
  split; cbn [curr src_block_start_addr]; try done.
  - by apply loading_with.
  - congruence.
  - lia.
  - intros q Hq. exists next. split; [left|done].
  - intros r ->%list_elem_of_singleton. done.
  - by intros q (m & Hm%not_elem_of_nil & _).
Qed.

(** The remaining segments and the end: the ranges of the scan are mapped. *)
Lemma load_rest_spec all rs st done fin c : open st done fin c -> (forall r, r ∈ done ++ rs -> r ∈ all) ->
  Forall (fun r => file_range_ok file r /\ segment_flags (range_flags (virt_range r))) rs -> ordered c (virt_range <$> rs) ->
  exists st' r, (let! _ := for_list (load_program_header file) rs in finish) st = (st', r) /\
    (r = Ok tt /\ (exists ranges, scan c (virt_range <$> rs) = Ok ranges /\ loading st' (done ++ rs) (fin ++ ranges)) \/
     exists e, r = Err e /\ harmless all st').
Proof.
  revert st done fin c. induction rs as [|next rs IH]; intros st done fin c Hop Hall Hrs Hord.
  - destruct Hop as [Hld Ec Ea Hc Hfc HB Hrc Hdone Hfin]. cbn [for_list fmap list_fmap scan]. rewrite app_nil_r in *.
    rewrite (bindM_ok _ _ _ st tt) by done. unfold finish. rewrite (bindM_ok _ _ _ st st), Ec by done.
    rewrite (bindM_ok _ _ _ _ tt) by reflexivity. unfold page_range_of. rewrite segment_enclosing by done. rewrite bindM_lift.
    pose proof (segment_pages c Hc) as [Hpc _]. set (m := mkRange _ _). set (st1 := mkLoader _ _ _ _ _).
    assert (forall q, range_has m q <-> touches c q) as Hm by (intros q; unfold range_has; rewrite contains_index_iff; done).
    destruct (finalize_mapping_spec all st1 done fin m) as (st' & r & E & [(-> & Hld' & _)|(e & -> & Hh)]); try done.
    + by apply loading_with.
    + intros r Hr. by apply Hdone.
    + pose proof (segment_pages c Hc). lia.
    + cbn. lia.
    + intros q Hq%Hm. split; [by apply Hrc|]. intros Hf%Hfin. unfold touches in Hq. lia.
    + exists st', (Ok tt). split; [done|]. left. eauto.
    + exists st', (Err e). eauto.
  - apply list.Forall_cons in Hrs as [[Hok Hfn] Hrs]. cbn [fmap list_fmap] in Hord. destruct Hord as [Ho Hord].
    destruct (load_next_spec all st done fin c next Hop) as (cmn & bnd & upd & Ec & Hend & st1 & r & E1 & Hcase); [|done..|].
    { intros r Hr. apply Hall. revert Hr. rewrite !elem_of_app, !elem_of_cons, elem_of_nil. tauto. }
    cbn [for_list fmap list_fmap scan]. destruct Hcase as [(-> & Hop1)|(e & -> & Hh)].
    2:{ exists st1, (Err e). split; [|eauto]. unfold bindM. by rewrite E1. }
    destruct (IH st1 (done ++ [next]) (fin ++ option_list cmn ++ option_list bnd) upd Hop1) as (st' & r & E & Hcase).
    { by rewrite <- app_assoc. }
    { done. }
    { by apply (ordered_same_end upd (virt_range next)). }
    exists st', r. split; [rewrite <- E; unfold bindM; by rewrite E1|].
    destruct Hcase as [(-> & ranges & Es & Hld)|Hh]; [left|by right]. split; [done|].
    exists (option_list cmn ++ option_list bnd ++ ranges). split; [by rewrite Ec; cbn; rewrite Es|].
    by rewrite <- !app_assoc in Hld.
Qed.

End Correct.

(** ** The whole file *)

(** The segments to load, if no header is malformed. *)
Fixpoint load_ranges (headers : list ((string + SegmentType) * ProgramHeader)) : outcome (list FileRange) :=
  match headers with
  | [] => Ok []
  | (inl message, _) :: _ => Err (Prelude.Elf message)
  | (inr Load, header) :: headers =>
      let? range := file_range_try_from header in let? ranges := load_ranges headers in Ok (range :: ranges)
  | (inr OtherType, _) :: headers => load_ranges headers
  end.

Definition in_order (segments : list MemoryRange) : Prop :=
  match segments with [] => True | first :: segments => ordered first segments end.

Lemma file_range_flags header range : file_range_try_from header = Ok range -> segment_flags (range_flags (virt_range range)).
Proof.
  unfold file_range_try_from, flags_try_from. destruct (_ =? _); [done|]. cbn [foldl].
  repeat match goal with |- context [if ?b then _ else _] => destruct b end;
    repeat match goal with |- context [match ?x with Ok _ => _ | Err _ => _ | Panic => _ end] => destruct x end;
    try done; intros [= <-]; (split; [split; [by apply is_flags_const|reflexivity]|reflexivity]).
Qed.

Lemma load_ranges_flags headers ranges : load_ranges headers = Ok ranges ->
  Forall (fun r => segment_flags (range_flags (virt_range r))) ranges.
Proof.
  revert ranges. induction headers as [|[[message|[]] header] headers IH]; intros ranges; cbn [load_ranges]; [by intros [= <-]|done| |apply IH].
  destruct (file_range_try_from header) as [range| |] eqn:E; [|done..]. destruct (load_ranges headers) as [rs| |]; [|done..].
  intros [= <-]. constructor; [by apply (file_range_flags header)|by apply IH].
Qed.

Section Load.
  Context {S : Type} `{HP : BigAllocatorPair S} `{HV : PairView S} `{HL : !PairLaws S}.

Lemma for_list_headers file headers ranges (st : Loader S) : load_ranges headers = Ok ranges ->
  for_list (load_header file) headers st = for_list (load_program_header file) ranges st.
Proof.
  revert ranges st. induction headers as [|[[message|[]] header] headers IH]; intros ranges st; cbn [load_ranges]; [by intros [= <-]|done| |].
  - destruct (file_range_try_from header) as [range| |] eqn:E; [|done..]. destruct (load_ranges headers) as [rs| |]; [|done..].
    intros [= <-]. cbn [for_list]. unfold load_header at 1. cbn [fst snd]. rewrite E. unfold bindM, liftM.
    destruct (load_program_header file range st) as [st' [[]| |]]; [by apply IH|done..].
  - intros H. cbn [for_list]. by apply IH.
Qed.

Lemma loading_new file s mem B : @big_wf S src_view s -> @big_wf S dst_view s -> loading file s mem B (loader_new s mem) [] [].
Proof.
  intros Hs Hd. assert (forall p, ~ inside block_zero p) as Hno by (unfold inside; cbn; lia).
  assert (forall j f, ~ buffer (loader_new s mem) j f) as Hnb by (intros j f [Hj _]; unfold page_count in Hj; cbn in Hj; lia).
  split; cbn [allocator src_block memory loader_new]; try done.
  - intros p Hp. by apply Hno in Hp.
  - intros p Hp. by apply Hno in Hp.
  - intros j f o Hj. by apply Hnb in Hj.
  - by intros q (r & Hr%not_elem_of_nil & _).
  - by intros m q Hm%not_elem_of_nil.
  - intros j f q fl Hj. by apply Hnb in Hj.
  - by intros r Hr%not_elem_of_nil.
Qed.

(** The pages of the segments are in the destination, with their flags and bytes. *)
Definition loaded (file : list Z) (s s' : S) (mem' : Bytes) (ranges : list FileRange) : Prop :=
  forall q, reached ranges q -> exists f,
    @backing S dst_view s' q =
      Some (f, Z.lor (Z.lor (flags_at (virt_range <$> ranges) q) (@big_flags S pair_dst s)) PageTableFlags.PRESENT) /\
    (forall o, 0 <= o < L0_SIZE -> mem' f o = image file ranges (q * L0_SIZE + o)) /\
    forall q' fl, @backing S dst_view s' q' = Some (f, fl) -> q' = q.

Lemma loading_loaded file s mem B st ranges fin : loading file s mem B st ranges fin ->
  scanned (virt_range <$> ranges) fin -> loaded file s (allocator st) (memory st) ranges.
Proof.
  intros Hld Hsc q (r & Hr & Hq). destruct (proj1 (sc_pages _ _ Hsc q)) as (m & Hm & Hmq).
  { exists (virt_range r). split; [|done]. apply list_elem_of_fmap. by exists r. }
  destruct (ld_final _ _ _ _ _ _ _ Hld m q Hm Hmq) as [_ (f & Hf & E)]. exists f.
  split; [by rewrite E, (sc_flags _ _ Hsc m q)|]. split.
  - intros o Ho. rewrite (ld_bytes _ _ _ _ _ _ _ Hld (q - B) f o Hf Ho). f_equal. lia.
  - intros q' fl E'. destruct (ld_foreign _ _ _ _ _ _ _ Hld (q - B) f q' fl Hf E') as [_ ->]. lia.
Qed.

Lemma load_headers_spec file elf ranges s mem : @big_wf S src_view s -> @big_wf S dst_view s ->
  load_ranges (program_iter elf) = Ok ranges -> Forall (file_range_ok file) ranges -> in_order (virt_range <$> ranges) ->
  exists st r, load_headers file elf (loader_new s mem) = (st, r) /\ harmless s mem ranges st /\
    (r = addr_new VirtTag (entry_point elf) /\ loaded file s (allocator st) (memory st) ranges \/ exists e, r = Err e).
Proof.
  intros Hs Hd Er Hok Hord. pose proof (load_ranges_flags _ _ Er) as Hfl. unfold load_headers.
  assert (forall st fin B, loading file s mem B st ranges fin -> harmless s mem ranges st) as Hharm.
  { intros st fin B Hld. apply (loading_harmless file s mem B ranges st st ranges fin); try done.
    - intros p Hp. by apply (ld_else _ _ _ _ _ _ _ Hld).
    - apply (ld_dst_taken _ _ _ _ _ _ _ Hld). }
  destruct ranges as [|first rs].
  { pose proof (loading_new file s mem 0 Hs Hd) as Hld. unfold bindM. rewrite (for_list_headers file _ _ _ Er). cbn.
    eexists _, _. split; [done|]. split; [exact (Hharm _ [] 0 Hld)|]. left. split; [done|]. by intros q (r & Hr%not_elem_of_nil & _). }
  apply list.Forall_cons in Hok as [Hok1 Hok], Hfl as [Hfl1 Hfl]. set (B := first_page (virt_range first)).
  destruct (load_first_spec file s mem B (first :: rs) (loader_new s mem) first (loading_new file s mem B Hs Hd)) as
    (st1 & r & E1 & [(-> & Hop)|(e & -> & Hh)]); try done; [left| |].
  2:{ exists st1, (Err e). split; [|eauto]. unfold bindM. rewrite (for_list_headers file _ _ _ Er). cbn [for_list]. unfold bindM. by rewrite E1. }
  assert (Forall (fun r => file_range_ok file r /\ segment_flags (range_flags (virt_range r))) rs) as Hrs by (by apply list.Forall_and).
  destruct (load_rest_spec file s mem B (first :: rs) rs st1 [first] [] (virt_range first) Hop) as (st2 & r & E2 & Hcase); try done.
  assert (load_headers file elf (loader_new s mem) =
    (let! _ := (let! _ := for_list (load_program_header file) rs in finish) in liftM (addr_new VirtTag (entry_point elf))) st1) as Erun.
  { unfold load_headers, bindM. rewrite (for_list_headers file _ _ _ Er). cbn [for_list]. unfold bindM. rewrite E1.
    by destruct (for_list (load_program_header file) rs st1) as [st' [[]| |]]. }
  unfold load_headers in Erun. rewrite Erun. destruct Hcase as [(-> & fin & Es & Hld)|(e & -> & Hh)].
  - rewrite (bindM_ok _ _ _ _ _ E2). eexists _, _. split; [done|]. split; [by apply (Hharm _ fin B)|]. left. split; [done|].
    apply (loading_loaded file s mem B st2 (first :: rs) fin Hld).
    assert (Forall segment (virt_range <$> rs)) as Hsegs.
    { apply list.Forall_fmap. apply (list.Forall_impl _ _ _ Hok). intros r Hr. apply (fr_segment _ _ Hr). }
    destruct (segments_scan_spec (virt_range <$> rs) (virt_range first) (fr_segment _ _ Hok1) Hsegs Hord) as (fin' & Es' & Hsc & _).
    rewrite Es in Es'. by injection Es' as <-.
  - rewrite (bindM_err _ _ _ _ _ E2). eauto 10.
Qed.

End Load.

(** ** Theorem *)

(** C4. Loading an executable.  For a file whose segments are not empty, lie in the lower half in
    increasing order and inside the file, the loader never panics.  If it succeeds
    every page a segment touches is mapped in the destination, to a frame of its
    own, with the union of the flags of all segments that touch it and the flags
    of the allocator, and its bytes are those of the segments, zero beyond the
    part in the file and between the segments.  In every case, also on an
    error, all other pages of both address spaces stay mapped as they were and
    keep their contents. *)
Theorem elf_load_correct {S} `{BigAllocatorPair S} `{PairView S} `{!PairLaws S} parse file elf ranges (s : S) mem :
  @big_wf S src_view s -> @big_wf S dst_view s -> parse file = inr elf ->
  load_ranges (program_iter elf) = Ok ranges -> Forall (file_range_ok file) ranges -> in_order (virt_range <$> ranges) ->
  exists s' mem' r, load parse file (s, mem) = ((s', mem'), r) /\
    (r = addr_new VirtTag (entry_point elf) /\ loaded file s s' mem' ranges \/ exists e, r = Err e) /\
    (forall p, @taken S src_view s p -> @backing S src_view s' p = @backing S src_view s p) /\
    (forall q, ~ reached ranges q -> @backing S dst_view s' q = @backing S dst_view s q) /\
    (forall p f fl o, @taken S src_view s p -> @backing S src_view s p = Some (f, fl) -> mem' f o = mem f o) /\
    (forall q f fl o, @backing S dst_view s q = Some (f, fl) -> mem' f o = mem f o).
Proof.
  intros Hs Hd Hp Er Hok Hord. unfold load. rewrite Hp.
  destruct (load_headers_spec file elf ranges s mem Hs Hd Er Hok Hord) as (st & r & -> & [H1 H2 H3 H4 H5] & Hcase).
  exists (allocator st), (memory st), r. split; [done|]. split; [done|]. split; [intros p Hp'; by apply H1|]. done.
Qed.

(** ** Witness *)

(** A file with a code segment and a data segment that share a page. *)
Definition sample_file : list Z := seqZ 1 40.
Definition sample_elf : ElfFile :=
  mkElfFile [(inr Load, mkHeader 5 0 8292 10 10); (inr OtherType, mkHeader 4 0 0 0 0); (inr Load, mkHeader 6 10 12280 20 30)] 8292.
Definition sample_parse (file : list Z) : string + ElfFile := inr sample_elf.
Definition sample_ranges : list FileRange :=
  [mkFileRange 0 10 (mkRange (Z.lor PageTableFlags.PRESENT PageTableFlags.EXECUTABLE) (mkBlock 8292 8302));
   mkFileRange 10 30 (mkRange (Z.lor PageTableFlags.PRESENT PageTableFlags.WRITABLE) (mkBlock 12280 12310))].

Local Abbreviation sample_load := (load sample_parse sample_file (pools_new 1, fun _ _ => 7)).

Lemma sample_load_ok : sample_load.2 = Ok 8292.
Proof. vm_compute. reflexivity. Qed.

Lemma elf_load_correct_witness : exists s' mem', sample_load = ((s', mem'), Ok 8292) /\
  loaded sample_file (pools_new 1) s' mem' sample_ranges /\ image sample_file sample_ranges 12281 = 12.
Proof.
  destruct (elf_load_correct sample_parse sample_file sample_elf sample_ranges (pools_new 1) (fun _ _ => 7)) as
    (s' & mem' & r & E & Hcase & _).
  - apply pools_new_wf. lia.
  - apply pools_new_wf. lia.
  - reflexivity.
  - vm_compute. reflexivity.
  - apply list.Forall_cons; split; [|apply list.Forall_cons; split; [|apply list.Forall_nil_2]]; 
      (split; [unfold segment; cbn; lia|split; [cbn; lia|vm_compute; discriminate]|cbn; lia]).
  - cbn. lia.
  - assert (r = Ok 8292) as -> by exact (eq_trans (eq_sym (f_equal snd E)) sample_load_ok).
    exists s', mem'. split; [exact E|]. split; [|vm_compute; reflexivity].
    destruct Hcase as [[_ Hl]|[e He]]; [exact Hl|discriminate He].
Defined.
