(* ===== verification/Quarry.v ===== *)
(** * Quarry: slabs of equally sized allocations

    Models [ku/src/allocator/quarry.rs]: the virtual memory of an allocator of blocks
    of one size.  A quarry holds up to sixteen slabs of one mebibyte, reserved when
    needed and mapped page by page from the front; it is proved correct against the
    interface of page allocators. *)

From Stdlib Require Import ZArith Lia.
From stdpp Require Import base list numbers tactics.
From S2P Require Import Prelude Addr Frage Block Mmu PageAllocator BigAllocator Bump.

Open Scope Z_scope.
Open Scope outcome_scope.

Record Quarry := mkQuarry {
  q_size : Z;
  slab_allocation_count : Z;
  slabs : list Z;
}.

Definition SLAB_COUNT : Z := 16.
Definition SLAB_SIZE : Z := 1048576.
Definition SLAB_PAGE_COUNT : Z := SLAB_SIZE / L0_SIZE.

Definition quarry_new (size : Z) : outcome Quarry :=
  assert! negb (size =? 0) in
  let slab_allocation_count := SLAB_SIZE / size in
  assert! negb (slab_allocation_count =? 0) in
  Ok (mkQuarry size slab_allocation_count (replicate (Z.to_nat SLAB_COUNT) 0)).

(** [Quarry::slab_at] and [Quarry::slab]. *)
Definition slab_at (start : Z) : outcome Block :=
  if start =? 0 then Ok block_zero else from_count_unchecked Page start SLAB_PAGE_COUNT.

Definition slab (q : Quarry) (slab_index : Z) : outcome Block :=
  let? start := index (slabs q) slab_index in slab_at start.

Definition capacity (q : Quarry) : outcome Z :=
  usize_mul (slab_allocation_count q) (Z.of_nat (length (slabs q))).

Definition allocation_coordinates (q : Quarry) (allocation_index : Z) : Z * Z :=
  (allocation_index / slab_allocation_count q, allocation_index mod slab_allocation_count q).

Definition slab_page_count (q : Quarry) (mapped_allocation_count : Z) : outcome Z :=
  let? bytes := usize_mul mapped_allocation_count (q_size q) in Ok (div_ceil bytes L0_SIZE).

Definition allocation (q : Quarry) (allocation_index : Z) : outcome Z :=
  let? cap := capacity q in
  assert! allocation_index <? cap in
  let '(slab_index, offset_in_slab) := allocation_coordinates q allocation_index in
  let? slab := slab q slab_index in
  if decide (slab = block_zero) then Ok 0
  else
    let? offset_bytes := usize_mul offset_in_slab (q_size q) in
    address_unchecked Page slab offset_bytes.

(** The loop of [Quarry::allocation_index] over the numbers of the slabs. *)
Fixpoint find_allocation (q : Quarry) (address : Z) (slab_indexes : list Z) : outcome (option Z) :=
  match slab_indexes with
  | [] => Ok None
  | slab_index :: slab_indexes =>
      let? slab := slab q slab_index in
      if decide (slab = block_zero) then find_allocation q address slab_indexes
      else
        let? inside := contains_address Page slab address in
        if inside : bool then
          let? offset_bytes := offset_unchecked Page slab address in
          let offset_in_slab := offset_bytes / q_size q in
          let? first := usize_mul slab_index (slab_allocation_count q) in
          let? number := usize_add first offset_in_slab in
          Ok (Some number)
        else find_allocation q address slab_indexes
  end.

Definition allocation_index (q : Quarry) (address : Z) : outcome (option Z) :=
  find_allocation q address (seqZ 0 (Z.of_nat (length (slabs q)))).

(** The number of slabs that a number of allocations touches. *)
Definition touched_slabs (q : Quarry) (allocation_count : Z) : Z :=
  let '(slab_index, offset_in_slab) := allocation_coordinates q allocation_count in
  if 0 <? offset_in_slab then slab_index + 1 else slab_index.

(** [slice(range).unwrap()]. *)
Definition slice_unwrap (b : Block) (range_start range_end : Z) : outcome Block :=
  let? sub := slice Page b range_start range_end in unwrap_some sub.

(** ** Operations with the page allocator *)

Section Operations.
  Context {S : Type} `{BigAllocator S}.

Definition set_slab (slab_index start : Z) : M (Quarry * S) unit := fun st =>
  match index_set (slabs st.1) slab_index start with
  | Ok slabs => ((mkQuarry (q_size st.1) (slab_allocation_count st.1) slabs, st.2), Ok tt)
  | Err e => (st, Err e)
  | Panic => (st, Panic)
  end.

(** [allocator.map(block, allocator.flags())]. *)
Definition map_with_flags (block : Block) : M (Quarry * S) unit :=
  on_snd (let! flags := flagsM in big_map block flags).

Definition reserve_slab (slab_index : Z) : M (Quarry * S) unit :=
  let! block := on_snd (big_reserve (mkLayout SLAB_SIZE L0_SIZE)) in
  let! start := liftM (start_element Page block) in
  set_slab slab_index start.

Definition quarry_reserve (old_allocation_count new_allocation_count : Z) : M (Quarry * S) unit :=
  let! _ := liftM (assert! old_allocation_count <? new_allocation_count in Ok tt) in
  let! q := on_fst getM in
  let expected_reserved_slabs := touched_slabs q old_allocation_count in
  let slabs_to_reserve := touched_slabs q new_allocation_count in
  for_list reserve_slab (seqZ expected_reserved_slabs (slabs_to_reserve - expected_reserved_slabs)).

(** Maps the pages [from, to) of a slab; the number of pages is returned. *)
Definition map_slab_pages (slab_index from to : Z) : M (Quarry * S) Z :=
  let! q := on_fst getM in
  let! slab := liftM (slab q slab_index) in
  let! pages_to_map := liftM (usize_sub to from) in
  let! block_to_map := liftM (slice_unwrap slab from to) in
  let! _ := map_with_flags block_to_map in
  retM pages_to_map.

(** Completes the mapping of the slab the old allocations end in: the frames it took and
    the first slab that is not mapped at all. *)
Definition complete_slab (old_slab_index old_offset_in_slab old_page_count : Z) : M (Quarry * S) (Z * Z) :=
  if 0 <? old_offset_in_slab then
    let! frames :=
      (if old_page_count <? SLAB_PAGE_COUNT
       then map_slab_pages old_slab_index old_page_count SLAB_PAGE_COUNT else retM 0) in
    retM (frames, old_slab_index + 1)
  else retM (0, old_slab_index).

Definition map_slab (total_new_frames slab_index : Z) : M (Quarry * S) Z :=
  let! q := on_fst getM in
  let! slab := liftM (slab q slab_index) in
  let! _ := map_with_flags slab in
  liftM (usize_add total_new_frames SLAB_PAGE_COUNT).

Definition map_slabs (total_new_frames first last : Z) : M (Quarry * S) Z :=
  for_fold map_slab total_new_frames (seqZ first (last - first)).

(** The number of allocations that fit in the mapped pages of the last slab, added to those
    of the slabs before it. *)
Definition actual_allocations (q : Quarry) (slab_index page_count : Z) : outcome Z :=
  let? complete_slabs_allocations := usize_mul slab_index (slab_allocation_count q) in
  let? total_mapped_bytes := usize_mul page_count L0_SIZE in
  let max_allocations_in_slab := Z.min (total_mapped_bytes / q_size q) (slab_allocation_count q) in
  let? total := usize_add complete_slabs_allocations max_allocations_in_slab in
  let? cap := capacity q in
  Ok (Z.min total cap).

(** The three branches of [Quarry::map] after the reservation of the slabs; each returns the
    number of new frames and the new value of [new_allocation_count].  All slabs are
    mapped completely. *)
Definition map_to_capacity (new_allocation_count old_slab_index old_offset_in_slab old_page_count : Z)
    : M (Quarry * S) (Z * Z) :=
  let! (total_new_frames, first_slab_to_map) :=
    complete_slab old_slab_index old_offset_in_slab old_page_count in
  let! total_new_frames := map_slabs total_new_frames first_slab_to_map SLAB_COUNT in
  retM (total_new_frames, new_allocation_count).

(** Old and new allocations end in one slab. *)
Definition map_within_slab (q : Quarry) (slab_index old_page_count new_page_count : Z) : M (Quarry * S) (Z * Z) :=
  let! total_new_frames :=
    (if old_page_count <? new_page_count
     then map_slab_pages slab_index old_page_count new_page_count else retM 0) in
  let! actual := liftM (actual_allocations q slab_index new_page_count) in
  retM (total_new_frames, actual).

(** The new allocations end in a later slab. *)
Definition map_across_slabs (q : Quarry) (old_slab_index old_offset_in_slab old_page_count
    new_slab_index new_offset_in_slab new_page_count : Z) : M (Quarry * S) (Z * Z) :=
  let! (total_new_frames, first_complete_slab) :=
    complete_slab old_slab_index old_offset_in_slab old_page_count in
  let! total_new_frames := map_slabs total_new_frames first_complete_slab new_slab_index in
  let! total_new_frames :=
    (if 0 <? new_offset_in_slab then
       let! pages := map_slab_pages new_slab_index 0 new_page_count in
       liftM (usize_add total_new_frames pages)
     else retM total_new_frames) in
  let! actual := liftM (actual_allocations q new_slab_index new_page_count) in
  retM (total_new_frames, actual).

Definition map_reserved (old_allocation_count new_allocation_count : Z) : M (Quarry * S) (Z * Z) :=
  let! q := on_fst getM in
  let! cap := liftM (capacity q) in
  let '(old_slab_index, old_offset_in_slab) := allocation_coordinates q old_allocation_count in
  let! old_page_count := liftM (slab_page_count q old_offset_in_slab) in
  if new_allocation_count =? cap then
    map_to_capacity new_allocation_count old_slab_index old_offset_in_slab old_page_count
  else
    let '(new_slab_index, new_offset_in_slab) := allocation_coordinates q new_allocation_count in
    let! new_page_count := liftM (slab_page_count q new_offset_in_slab) in
    if old_slab_index =? new_slab_index then map_within_slab q old_slab_index old_page_count new_page_count
    else
      map_across_slabs q old_slab_index old_offset_in_slab old_page_count
        new_slab_index new_offset_in_slab new_page_count.

(** [Quarry::map]. *)
Definition quarry_map (old_allocation_count new_allocation_count : Z) : M (Quarry * S) (Z * Z) :=
  let! _ := liftM (assert! old_allocation_count <? new_allocation_count in Ok tt) in
  let! q := on_fst getM in
  let! cap := liftM (capacity q) in
  let! _ := liftM (assert! new_allocation_count <=? cap in Ok tt) in
  let! _ := quarry_reserve old_allocation_count new_allocation_count in
  map_reserved old_allocation_count new_allocation_count.

(** One iteration of the loop of [Quarry::unmap] over the complete slabs. *)
Definition unmap_slab (total_freed_frames slab_index : Z) : M (Quarry * S) Z :=
  let! q := on_fst getM in
  let! slab := liftM (slab q slab_index) in
  let! _ := on_snd (big_unmap slab) in
  let! _ := on_snd (big_unreserve slab) in
  let! total_freed_frames := liftM (usize_add total_freed_frames SLAB_PAGE_COUNT) in
  let! _ := set_slab slab_index 0 in
  retM total_freed_frames.

Definition quarry_unmap (allocation_count : Z) : M (Quarry * S) Z :=
  let! q := on_fst getM in
  let '(slab_index, offset_in_slab) := allocation_coordinates q allocation_count in
  let! page_count := liftM (slab_page_count q offset_in_slab) in
  let! total_freed_frames := for_fold unmap_slab 0 (seqZ 0 slab_index) in
  if 0 <? offset_in_slab then
    let! q := on_fst getM in
    let! slab := liftM (slab q slab_index) in
    let! mapped_block := liftM (slice_unwrap slab 0 page_count) in
    let! _ := on_snd (big_unmap mapped_block) in
    let! _ := on_snd (big_unreserve slab) in
    let! total_freed_frames := liftM (usize_add total_freed_frames page_count) in
    let! _ := set_slab slab_index 0 in
    retM total_freed_frames
  else retM total_freed_frames.

End Operations.

(** [Drop for Quarry]. *)
Definition quarry_drop (q : Quarry) : outcome unit :=
  assert! forallb (fun start => start =? 0) (slabs q) in Ok tt.

(** ** Arithmetic of slabs *)

(** The pages mapped in a slab for a number of allocations, slab by slab and in total. *)
Definition slab_pages (q : Quarry) (n i : Z) : Z :=
  let '(slab_index, offset_in_slab) := allocation_coordinates q n in
  if i <? slab_index then SLAB_PAGE_COUNT
  else if i =? slab_index then div_ceil (offset_in_slab * q_size q) L0_SIZE
  else 0.

Definition total_pages (q : Quarry) (n : Z) : Z :=
  let '(slab_index, offset_in_slab) := allocation_coordinates q n in
  slab_index * SLAB_PAGE_COUNT + div_ceil (offset_in_slab * q_size q) L0_SIZE.

(** The sizes of a quarry. *)
Record sizes_ok (q : Quarry) : Prop := {
  so_size : 0 < q_size q <= SLAB_SIZE;
  so_count : slab_allocation_count q = SLAB_SIZE / q_size q;
  so_slabs : length (slabs q) = Z.to_nat SLAB_COUNT;
}.

Ltac consts :=
  change L0_SIZE with 4096 in *; change SLAB_PAGE_COUNT with 256 in *;
  change SLAB_SIZE with 1048576 in *; change SLAB_COUNT with 16 in *.

Section Sizes.
  Context (q : Quarry) (Hq : sizes_ok q).

Lemma count_bounds :
  0 < slab_allocation_count q <= SLAB_SIZE /\
  slab_allocation_count q * q_size q <= SLAB_SIZE /\ SLAB_SIZE < (slab_allocation_count q + 1) * q_size q.
Proof using Hq.
  destruct Hq as [Hs Hc _]. rewrite Hc. consts.
  pose proof (Z.div_mod 1048576 (q_size q) ltac:(lia)). pose proof (Z.mod_pos_bound 1048576 (q_size q) ltac:(lia)).
  assert (1 <= 1048576 / q_size q) by (apply Z.div_le_lower_bound; lia). nia.
Qed.

Lemma capacity_ok : capacity q = Ok (slab_allocation_count q * SLAB_COUNT).
Proof using Hq.
  pose proof count_bounds. unfold capacity. rewrite (so_slabs _ Hq). rewrite Z2Nat.id by (consts; lia).
  apply usize_mul_ok. unfold is_usize. consts. lia.
Qed.

Lemma coordinates n :
  0 <= n <= slab_allocation_count q * SLAB_COUNT ->
  let '(i, off) := allocation_coordinates q n in
  n = slab_allocation_count q * i + off /\ 0 <= i <= SLAB_COUNT /\ 0 <= off < slab_allocation_count q /\
  (n < slab_allocation_count q * SLAB_COUNT -> i < SLAB_COUNT) /\ (i = SLAB_COUNT -> off = 0).
Proof using Hq.
  intros Hn. pose proof count_bounds as (Hc & _). cbn. consts.
  pose proof (Z.div_mod n (slab_allocation_count q) ltac:(lia)).
  pose proof (Z.mod_pos_bound n (slab_allocation_count q) ltac:(lia)). nia.
Qed.

Lemma slab_page_count_ok off :
  0 <= off <= slab_allocation_count q ->
  slab_page_count q off = Ok (div_ceil (off * q_size q) L0_SIZE) /\
  0 <= div_ceil (off * q_size q) L0_SIZE <= SLAB_PAGE_COUNT /\
  (0 < off -> 0 < div_ceil (off * q_size q) L0_SIZE).
Proof using Hq.
  intros Ho. destruct count_bounds as (Hc & Hb & _). destruct Hq as [Hs _ _].
  assert (0 <= off * q_size q <= SLAB_SIZE) by nia. unfold slab_page_count. consts.
  rewrite usize_mul_ok by (unfold is_usize; lia). split; [done|].
  pose proof (div_ceil_spec (off * q_size q) 4096 ltac:(lia)). split; [lia|]. intros. nia.
Qed.

Lemma div_ceil_mono a b : 0 <= a <= b -> div_ceil a L0_SIZE <= div_ceil b L0_SIZE.
Proof using.
  intros Hab. apply div_ceil_bound; [done|]. by pose proof (div_ceil_spec b L0_SIZE ltac:(done)); lia.
Qed.

(** The allocations that fit in the mapped pages need no more pages than are mapped: the
    count that [map] returns leaves every slab as it is. *)
Lemma actual_allocations_ok n :
  0 <= n < slab_allocation_count q * SLAB_COUNT ->
  let '(i, off) := allocation_coordinates q n in
  exists n', actual_allocations q i (div_ceil (off * q_size q) L0_SIZE) = Ok n' /\
    n <= n' <= slab_allocation_count q * SLAB_COUNT /\ (forall j, slab_pages q n' j = slab_pages q n j) /\
    total_pages q n' = total_pages q n /\ touched_slabs q n' = touched_slabs q n.
Proof using Hq.
  intros Hn. pose proof (coordinates n ltac:(lia)) as Hco. destruct (allocation_coordinates q n) as [i off] eqn:Ec.
  destruct Hco as (Hn' & Hi & Hoff & Hlt & _). specialize (Hlt ltac:(lia)).
  destruct count_bounds as (Hc & Hcs & Hcs'). pose proof (so_size _ Hq) as Hs.
  destruct (slab_page_count_ok off ltac:(lia)) as (_ & Hpc & _). set (np := div_ceil (off * q_size q) L0_SIZE) in *.
  unfold actual_allocations. rewrite capacity_ok. consts.
  assert (off * q_size q <= np * 4096 < off * q_size q + 4096) as Hnp.
  { pose proof (div_ceil_spec (off * q_size q) 4096 ltac:(lia)). unfold np. lia. }
  rewrite !usize_mul_ok by (unfold is_usize; nia).
  pose proof (Z.div_mod (np * 4096) (q_size q) ltac:(lia)). pose proof (Z.mod_pos_bound (np * 4096) (q_size q) ltac:(lia)).
  set (f := np * 4096 / q_size q) in *.
  assert (off <= f) by nia. assert (0 <= f) by lia.
  assert (0 <= i * slab_allocation_count q <= 15 * slab_allocation_count q) by nia.
  rewrite usize_add_ok by (unfold is_usize; lia). eexists. split; [done|]. split; [lia|].
  destruct (Z.le_gt_cases (slab_allocation_count q) f) as [Hfull|Hpart].
  - assert (np = 256) as Hnp256.
    { destruct (Z.le_gt_cases (q_size q) 4096) as [Hsmall|Hbig]; [nia|].
      exfalso. assert (off + 1 <= slab_allocation_count q) by lia. nia. }
    assert (allocation_coordinates q (Z.min (i * slab_allocation_count q + Z.min f (slab_allocation_count q))
              (slab_allocation_count q * 16)) = (i + 1, 0)) as Ec'.
    { replace (Z.min _ _) with ((i + 1) * slab_allocation_count q) by nia. unfold allocation_coordinates.
      by rewrite Z.div_mul, Z.mod_mul by lia. }
    split; [intros j|split]; unfold slab_pages, total_pages, touched_slabs; rewrite Ec, Ec'.
    + consts. fold np.
      change (div_ceil (0 * q_size q) 4096) with 0.
      destruct (Z.ltb_spec j (i + 1)), (Z.ltb_spec j i), (Z.eqb_spec j i), (Z.eqb_spec j (i + 1)); lia.
    + consts. fold np.
      change (div_ceil (0 * q_size q) 4096) with 0. lia.
    + cbn. rewrite (proj2 (Z.ltb_lt 0 off)) by nia. done.
  - assert (div_ceil (f * q_size q) 4096 = np) as Hsame.
    { pose proof (div_ceil_spec (f * q_size q) 4096 ltac:(lia)).
      pose proof (div_ceil_mono (off * q_size q) (f * q_size q) ltac:(nia)) as Hm. consts. fold np in Hm. nia. }
    assert (allocation_coordinates q (Z.min (i * slab_allocation_count q + Z.min f (slab_allocation_count q))
              (slab_allocation_count q * 16)) = (i, f)) as Ec'.
    { replace (Z.min _ _) with (i * slab_allocation_count q + f) by nia. unfold allocation_coordinates.
      f_equal; [symmetry; apply Z.div_unique with f; lia|symmetry; apply Z.mod_unique with i; lia]. }
    split; [intros j|split]; unfold slab_pages, total_pages, touched_slabs; rewrite Ec, Ec'; consts;
      [by rewrite Hsame..|].
    destruct (Z.ltb_spec 0 f), (Z.ltb_spec 0 off) as [|Hz]; lia.
Qed.

End Sizes.

(** ** The invariant *)

(** The first page of a slab, as an address, and the block of its pages. *)
Definition slab_start (q : Quarry) (i : Z) : Z := default 0 (slabs q !! Z.to_nat i).
Definition slab_block (q : Quarry) (i : Z) : Block :=
  mkBlock (slab_start q i / L0_SIZE) (slab_start q i / L0_SIZE + SLAB_PAGE_COUNT).

Definition owned (q : Quarry) (R p : Z) : Prop := exists i, 0 <= i < R /\ inside (slab_block q i) p.

Ltac in_slab :=
  repeat match goal with b := mkBlock _ _ |- _ => subst b end;
  unfold inside, slab_block in *; cbn [b_start b_end] in *; consts; lia.

Section Invariant.
  Context {S : Type} `{HB : BigAllocator S} `{HV : BigView S} `{HL : !BigAllocatorLaws S}.

(** The first [R] slabs are reserved, do not overlap, and the first [m i] pages of slab [i]
    are mapped.  Nothing is said of the other slabs and pages. *)
Record quarry_inv (q : Quarry) (s : S) (R : Z) (m : Z -> Z) : Prop := {
  qi_sizes : sizes_ok q;
  qi_wf : big_wf s;
  qi_R : 0 <= R <= SLAB_COUNT;
  qi_slab i : 0 <= i < R ->
    0 < slab_start q i /\ slab_start q i mod L0_SIZE = 0 /\ block_nonempty (slab_block q i);
  qi_taken i p : 0 <= i < R -> inside (slab_block q i) p -> taken s p;
  qi_disjoint i j p : 0 <= i < R -> 0 <= j < R -> inside (slab_block q i) p -> inside (slab_block q j) p -> i = j;
  qi_pages i : 0 <= m i <= SLAB_PAGE_COUNT;
  qi_mapped i j : 0 <= i < R -> 0 <= j < m i -> mapped_page s (slab_start q i / L0_SIZE + j);
}.

Lemma quarry_inv_weaken q s R m R' m' :
  quarry_inv q s R m -> 0 <= R' <= R -> (forall i, 0 <= i < R' -> 0 <= m' i <= m i) ->
  (forall i, 0 <= m' i <= SLAB_PAGE_COUNT) -> quarry_inv q s R' m'.
Proof.
  intros [Hq Hw HR Hs Ht Hd Hp Hm] HR' Hm' Hp'. split; try done; try lia.
  - intros i Hi. apply Hs. lia.
  - intros i p Hi. apply Ht. lia.
  - intros i j p Hi Hj. apply Hd; lia.
  - intros i j Hi Hj. apply Hm; [lia|]. specialize (Hm' i Hi). lia.
Qed.

(** Changes of the allocator outside the slabs do not matter. *)
Lemma quarry_inv_frame Q q s s' R m :
  quarry_inv q s R m -> touches Q s s' -> (forall p, owned q R p -> ~ Q p) -> quarry_inv q s' R m.
Proof.
  intros [Hq Hw HR Hs Ht Hd Hp Hm] Hto HQ. split; try done.
  - apply (touches_wf Hto).
  - intros i p Hi Hin. apply (touches_taken Hto); [by apply (Ht i)|]. apply HQ. by exists i.
  - intros i j Hi Hj. assert (inside (slab_block q i) (slab_start q i / L0_SIZE + j)) as Hin.
    { specialize (Hp i). in_slab. }
    apply (touches_mapped Q s); [done|by apply (Ht i)|apply HQ; by exists i|by apply Hm].
Qed.

Lemma slab_ok q s R m i : quarry_inv q s R m -> 0 <= i < R ->
  slab q i = Ok (slab_block q i) /\ slab_block q i <> block_zero.
Proof.
  intros Hinv Hi. destruct (qi_slab _ _ _ _ Hinv i Hi) as (Hpos & Hal & Hb & _).
  pose proof (qi_R _ _ _ _ Hinv). pose proof (so_slabs _ (qi_sizes _ _ _ _ Hinv)) as Hlen. consts.
  unfold slab. destruct (index_in_range (slabs q) i) as [a Ha]; [rewrite Hlen; lia|]. rewrite Ha.
  apply index_ok in Ha as [_ Ha]. unfold slab_block, slab_start in *. rewrite Ha in *. cbn in Hpos, Hal, Hb |- *.
  unfold slab_at. rewrite (proj2 (Z.eqb_neq a 0)) by lia. unfold from_count_unchecked, from_index_count_unchecked.
  rewrite (mem_index_ok (M := Page)). change (SIZE_OF Page) with 4096.
  pose proof (wf_usize _ _ Hb) as [_ Ue]. cbn in Ue. consts. rewrite usize_add_ok by done. split; [done|].
  intros [= H1 H2]. lia.
Qed.

(** Part of a slab as a block. *)
Lemma slice_ok q s R m i a c : quarry_inv q s R m -> 0 <= i < R -> 0 <= a < c -> c <= SLAB_PAGE_COUNT ->
  slice_unwrap (slab_block q i) a c = Ok (mkBlock (slab_start q i / L0_SIZE + a) (slab_start q i / L0_SIZE + c)) /\
  block_nonempty (mkBlock (slab_start q i / L0_SIZE + a) (slab_start q i / L0_SIZE + c)).
Proof.
  intros Hinv Hi Ha Hc. destruct (qi_slab _ _ _ _ Hinv i Hi) as (Hpos & Hal & Hb & Hne).
  assert (block_wf Page (mkBlock (slab_start q i / L0_SIZE + a) (slab_start q i / L0_SIZE + c))) as Hw.
  { apply (wf_sub (slab_block q i)); [done|in_slab..]. }
  split; [|split; [done|cbn; lia]]. pose proof (wf_usize _ _ Hw) as [Us Ue]. cbn in Us, Ue.
  unfold slice_unwrap, slice. rewrite (proj2 (Z.leb_le a c)), wf_count by (done || lia).
  cbn [b_start b_end slab_block]. replace (_ + SLAB_PAGE_COUNT - _) with SLAB_PAGE_COUNT by lia.
  rewrite (proj2 (Z.leb_le c _)), !usize_add_ok by (done || lia). by rewrite wf_from_index by done.
Qed.

(** Mapping part of a slab. *)
Lemma map_block_ok q s R m b : quarry_inv q s R m -> block_nonempty b -> (forall p, inside b p -> taken s p) ->
  exists s' r, map_with_flags b (q, s) = ((q, s'), r) /\ remaps (inside b) s s' /\
    (r = Ok tt /\ (forall p, inside b p -> mapped_page s' p) \/ exists e, r = Err e).
Proof.
  intros Hinv Hb Ht. unfold map_with_flags, on_snd. cbn. unfold bindM, flagsM.
  destruct (map_law S s b (big_flags s)) as [(s' & E & Hr & Hm)|(s' & e & E & Hr)];
    [apply (qi_wf _ _ _ _ Hinv)|done|apply (flags_usable S), (qi_wf _ _ _ _ Hinv)|done|..]; rewrite E.
  - exists s', (Ok tt). split; [done|]. split; [done|left]. split; [done|]. intros p Hp.
    destruct (Hm p Hp) as [_ [f Hf]]. exists f. by rewrite (remaps_flags Hr).
  - exists s', (Err e). eauto.
Qed.

Definition upd (m : Z -> Z) (i c : Z) : Z -> Z := fun j => if j =? i then c else m j.

(** No page is reserved or mapped beyond the invariant. *)
Record quarry_tidy (q : Quarry) (s : S) (R : Z) (m : Z -> Z) : Prop := {
  qt_slab i : R <= i < SLAB_COUNT -> slab_start q i = 0;
  qt_unmapped i j : 0 <= i < R -> m i <= j < SLAB_PAGE_COUNT -> backing s (slab_start q i / L0_SIZE + j) = None;
}.

(** The invariant, with tidiness when [T] holds. *)
Definition quarry_ok (T : Prop) (q : Quarry) (s : S) (R : Z) (m : Z -> Z) : Prop :=
  quarry_inv q s R m /\ (T -> quarry_tidy q s R m).

Lemma quarry_ok_ext T q s R m m' :
  quarry_ok T q s R m -> (forall i, 0 <= i < R -> m' i = m i) -> (forall i, 0 <= m' i <= SLAB_PAGE_COUNT) ->
  quarry_ok T q s R m'.
Proof.
  intros [Hinv Ht] Hm Hp. split.
  - pose proof (qi_R _ _ _ _ Hinv). apply (quarry_inv_weaken q s R m); [done|lia| |done].
    intros i Hi. rewrite Hm by done. pose proof (qi_pages _ _ _ _ Hinv i). lia.
  - intros HT. destruct (Ht HT) as [H1 H2]. split; [done|]. intros i j Hi. rewrite Hm by done. by apply H2.
Qed.

(** Mapping the pages [m i] to [c] of slab [i]: the result is as expected and everything
    else as it was. *)
Lemma extend_slab T q s R m i a c : quarry_ok T q s R m -> 0 <= i < R -> a = m i -> a < c -> c <= SLAB_PAGE_COUNT ->
  let b := mkBlock (slab_start q i / L0_SIZE + a) (slab_start q i / L0_SIZE + c) in
  exists s' r, map_with_flags b (q, s) = ((q, s'), r) /\ touches (owned q R) s s' /\
    (r = Ok tt /\ quarry_ok T q s' R (upd m i c) \/ (exists e, r = Err e) /\ quarry_inv q s' R m).
Proof.
  intros [Hinv Htidy] Hi -> Hac Hc b. destruct (slice_ok q s R m i (m i) c Hinv Hi) as (_ & Hbn);
    [pose proof (qi_pages _ _ _ _ Hinv i); lia|done|].
  assert (forall p, inside b p -> inside (slab_block q i) p) as Hsub.
  { pose proof (qi_pages _ _ _ _ Hinv i). intros p. in_slab. }
  destruct (map_block_ok q s R m b Hinv Hbn) as (s' & r & E & Hr & Hcase).
  { intros p Hp. apply (qi_taken _ _ _ _ Hinv i); auto. }
  exists s', r. split; [done|]. pose proof (remaps_touches _ _ _ Hr) as Hto. split.
  { apply (touches_weaken _ _ _ _ Hto). intros p Hp _. exists i. auto. }
  (* the pages below [m j] of every slab are outside the block *)
  assert (forall j k, 0 <= j < R -> 0 <= k < m j -> mapped_page s' (slab_start q j / L0_SIZE + k)) as Hold.
  { intros j k Hj Hk. assert (inside (slab_block q j) (slab_start q j / L0_SIZE + k)) as Hin.
    { pose proof (qi_pages _ _ _ _ Hinv j). in_slab. }
    apply (touches_mapped (inside b) s); [done|by apply (qi_taken _ _ _ _ Hinv j)| |by apply (qi_mapped _ _ _ _ Hinv)].
    intros Hb'. assert (j = i) as -> by (by apply (qi_disjoint _ _ _ _ Hinv j i _ Hj Hi Hin), Hsub).
    in_slab. }
  assert (T -> quarry_tidy q s' R (upd m i c)) as Htidy'.
  { intros HT. destruct (Htidy HT) as [H1 H2]. split; [done|]. intros j k Hj. unfold upd. intros Hk.
    pose proof (qi_pages _ _ _ _ Hinv j). rewrite (remaps_backing Hr).
    - apply H2; [done|]. destruct (Z.eqb_spec j i) as [->|]; lia.
    - intros Hb'. assert (j = i) as ->.
      { apply (qi_disjoint _ _ _ _ Hinv j i (slab_start q j / L0_SIZE + k)); [done|done| |by apply Hsub]. destruct (Z.eqb_spec j i) as [->|]; in_slab. }
      rewrite Z.eqb_refl in Hk. in_slab. }
  destruct Hinv as [Hq Hw HR Hs Ht Hd Hp Hm].
  assert (quarry_inv q s' R m) as Hinv'.
  { split; try done; [apply (remaps_wf Hr)|]. intros j p Hj Hin. apply (remaps_taken Hr). by apply (Ht j). }
  destruct Hcase as [(-> & Hnew)|(e & ->)]; [left|by right; eauto]. split; [done|]. split; [|done].
  split; try apply Hinv'.
  - intros j. unfold upd. destruct (Z.eqb_spec j i); [specialize (Hp i); lia|done].
  - intros j k Hj. unfold upd. intros Hk. destruct (Z.eqb_spec j i) as [->|]; [|by apply Hold].
    destruct (decide (k < m i)); [apply Hold; [done|lia]|]. apply Hnew. in_slab.
Qed.

(** ** Reserving slabs *)

Lemma slab_start_insert q i start j :
  0 <= i < Z.of_nat (length (slabs q)) -> 0 <= j ->
  slab_start (mkQuarry (q_size q) (slab_allocation_count q) (<[Z.to_nat i := start]> (slabs q))) j =
    if j =? i then start else slab_start q j.
Proof.
  intros Hi Hj. unfold slab_start. cbn [slabs]. destruct (Z.eqb_spec j i) as [->|].
  - by rewrite list_lookup_insert_eq by lia.
  - by rewrite list_lookup_insert_ne by lia.
Qed.

(** Two quarries that differ in their slabs only. *)
Definition same_sizes (q q' : Quarry) : Prop :=
  q_size q' = q_size q /\ slab_allocation_count q' = slab_allocation_count q.

Lemma same_starts_block q q' i : slab_start q' i = slab_start q i -> slab_block q' i = slab_block q i.
Proof. intros H. unfold slab_block. by rewrite H. Qed.

Lemma slab_layout_valid : layout_valid (mkLayout SLAB_SIZE L0_SIZE) /\ pages_of (mkLayout SLAB_SIZE L0_SIZE) = SLAB_PAGE_COUNT.
Proof. split; [|reflexivity]. split; [cbn; unfold SLAB_SIZE, ISIZE_MAX; lia|]. exists 12. split; [lia|reflexivity]. Qed.

Lemma reserve_slab_ok T q s R m : quarry_ok T q s R m -> R < SLAB_COUNT -> m R = 0 ->
  exists q' s' r, reserve_slab R (q, s) = ((q', s'), r) /\ touches (fun _ => False) s s' /\
    same_sizes q q' /\ (forall i, 0 <= i -> i <> R -> slab_start q' i = slab_start q i) /\
    ((r = Ok tt /\ quarry_ok T q' s' (R + 1) m /\ (forall p, inside (slab_block q' R) p -> ~ taken s p)) \/
     ((exists e, r = Err e) /\ q' = q /\ quarry_inv q s' R m)).
Proof.
  intros [Hinv Htidy] HR Hm. pose proof (qi_R _ _ _ _ Hinv) as HR'. pose proof (so_slabs _ (qi_sizes _ _ _ _ Hinv)) as Hlen.
  destruct slab_layout_valid as [Hl Hpages]. unfold reserve_slab.
  destruct (reserve_law S s _ (qi_wf _ _ _ _ Hinv) Hl) as [(s' & b & E & Hb & Hcount & _ & Hr & Hnew)|(s' & e & E & Hr)].
  2:{ exists q, s', (Err e). unfold bindM, on_snd. cbn. rewrite E. split; [done|]. pose proof (retakes_touches _ _ _ Hr) as Hto.
      split; [done|]. split; [done|]. split; [done|right]. split; [by eauto|]. split; [done|].
      apply (quarry_inv_frame _ _ _ _ _ _ Hinv Hto). tauto. }
  rewrite Hpages in Hcount. pose proof (retakes_free_touches _ _ Hr) as Hto.
  change SLAB_PAGE_COUNT with 256 in *; change SLAB_COUNT with 16 in *.
  assert (block_nonempty b) as Hbn by (split; [done|lia]).
  destruct (wf_element b (b_start b) Hb ltac:(lia)) as [Hv _].
  assert (start_element Page b = Ok (b_start b * 4096)) as Es.
  { unfold start_element. rewrite (proj2 (mem_from_index_spec (M := Page) (b_start b) (b_start b * 4096) (proj1 (wf_usize _ _ Hb)))); [done|].
    by split. }
  assert (0 < b_start b) as Hpos.
  { destruct (Hnew (b_start b)) as (_ & Ht & _); [unfold inside; lia|].
    apply (taken_range S s' (b_start b)); [apply (retakes_wf Hr)|done]. }
  set (q' := mkQuarry (q_size q) (slab_allocation_count q) (<[Z.to_nat R := b_start b * 4096]> (slabs q))).
  assert (forall i, 0 <= i -> slab_start q' i = if i =? R then b_start b * 4096 else slab_start q i) as Hst.
  { intros i Hi. apply slab_start_insert; [rewrite Hlen; lia|done]. }
  assert (slab_block q' R = b) as HbR.
  { unfold slab_block. rewrite Hst, Z.eqb_refl by lia. change L0_SIZE with 4096. rewrite Z.div_mul by lia.
    change SLAB_PAGE_COUNT with 256. destruct b; cbn in *. f_equal. lia. }
  assert (forall i, 0 <= i < R -> slab_block q' i = slab_block q i) as Hbi.
  { intros i Hi. apply same_starts_block. rewrite Hst, (proj2 (Z.eqb_neq i R)) by lia. done. }
  exists q', s', (Ok tt). split.
  { unfold bindM, on_snd. cbn [snd fst]. rewrite E. unfold liftM. rewrite Es. unfold set_slab. cbn [fst snd].
    by rewrite index_set_ok by (rewrite Hlen; lia). }
  split; [done|]. split; [done|]. split; [intros i Hi Hne; by rewrite Hst, (proj2 (Z.eqb_neq i R))|left].
  split; [done|]. split; [|rewrite HbR; intros p Hp; by apply Hnew].
  assert (quarry_inv q s' R m) as Hinv' by (apply (quarry_inv_frame _ _ _ _ _ _ Hinv Hto); tauto).
  split.
  - destruct Hinv' as [Hq Hw _ Hs Ht Hd Hp Hmap]. split.
    + destruct Hq. split; [done|done|]. cbn. by rewrite length_insert.
    + done.
    + consts. lia.
    + intros i Hi. destruct (decide (i = R)) as [->|].
      * rewrite HbR, Hst, Z.eqb_refl by lia. consts. rewrite Z.mod_mul by lia. by split; [lia|].
      * rewrite Hbi, Hst, (proj2 (Z.eqb_neq i R)) by lia. apply Hs. lia.
    + intros i p Hi. destruct (decide (i = R)) as [->|]; [rewrite HbR; intros Hin; by apply Hnew|].
      rewrite Hbi by lia. apply Ht. lia.
    + intros i j p Hi Hj. destruct (decide (i = R)) as [->|], (decide (j = R)) as [->|]; [done|..].
      * rewrite HbR, Hbi by lia. intros H1 H2. destruct (Hnew p H1) as [Hn _]. exfalso. apply Hn.
        apply (qi_taken _ _ _ _ Hinv j); [lia|done].
      * rewrite HbR, Hbi by lia. intros H1 H2. destruct (Hnew p H2) as [Hn _]. exfalso. apply Hn.
        apply (qi_taken _ _ _ _ Hinv i); [lia|done].
      * rewrite !Hbi by lia. apply Hd; lia.
    + done.
    + intros i j Hi Hj. assert (i <> R) by (intros ->; lia). rewrite Hst, (proj2 (Z.eqb_neq i R)) by lia.
      apply Hmap; [lia|done].
  - intros HT. destruct (Htidy HT) as [H1 H2]. split.
    + intros i Hi. rewrite Hst, (proj2 (Z.eqb_neq i R)) by lia. apply H1. lia.
    + intros i j Hi Hj. rewrite (retakes_backing Hr). rewrite Hst by lia. destruct (Z.eqb_spec i R) as [->|].
      * consts. rewrite Z.div_mul by lia. apply Hnew. unfold inside. lia.
      * apply H2; [lia|done].
Qed.

Lemma reserve_slabs_ok T k q s R m : quarry_ok T q s R m -> R + Z.of_nat k <= SLAB_COUNT ->
  (forall i, R <= i -> m i = 0) ->
  exists q' s' r, for_list reserve_slab (seqZ R (Z.of_nat k)) (q, s) = ((q', s'), r) /\
    touches (fun _ => False) s s' /\ same_sizes q q' /\ (forall i, 0 <= i < R -> slab_start q' i = slab_start q i) /\
    ((r = Ok tt /\ quarry_ok T q' s' (R + Z.of_nat k) m /\
        (forall i p, R <= i < R + Z.of_nat k -> inside (slab_block q' i) p -> ~ taken s p)) \/
     ((exists e, r = Err e) /\ quarry_inv q' s' R m)).
Proof.
  revert q s R. induction k as [|k IH]; intros q s R Hok HR Hm.
  { exists q, s, (Ok tt). split; [done|]. split; [apply touches_refl, (qi_wf _ _ _ _ (proj1 Hok))|].
    split; [done|]. split; [done|left]. split; [done|]. rewrite Z.add_0_r. split; [done|]. intros i p Hi. lia. }
  pose proof (qi_R _ _ _ _ (proj1 Hok)) as HR0.
  rewrite seqZ_cons by lia. replace (Z.pred (Z.of_nat (Datatypes.S k))) with (Z.of_nat k) by lia. cbn [for_list].
  destruct (reserve_slab_ok T q s R m Hok) as (q1 & s1 & r1 & E1 & Hto1 & Hsz1 & Hst1 & Hcase1); [consts; lia|by apply Hm|].
  destruct Hcase1 as [(-> & Hok1 & Hnew1)|((e & ->) & -> & Hinv1)].
  2:{ exists q, s1, (Err e). rewrite (bindM_err _ _ _ _ _ E1). split; [done|]. split; [done|]. split; [done|].
      split; [done|right]. by eauto. }
  rewrite (bindM_ok _ _ _ _ _ E1).
  destruct (IH q1 s1 (Z.succ R)) as (q2 & s2 & r2 & E2 & Hto2 & Hsz2 & Hst2 & Hcase2);
    [by rewrite <- Z.add_1_r|lia|intros i Hi; apply Hm; lia|].
  exists q2, s2, r2. split; [done|]. split; [apply (touches_trans _ _ _ _ _ Hto1 Hto2); tauto|].
  split; [unfold same_sizes in *; split; etransitivity; [apply Hsz2|apply Hsz1|apply Hsz2|apply Hsz1]|].
  split; [intros i Hi; rewrite Hst2, Hst1 by lia; done|].
  destruct Hcase2 as [(-> & Hok2 & Hnew2)|((e & ->) & Hinv2)]; [left|right].
  - split; [done|]. replace (R + Z.of_nat (Datatypes.S k)) with (Z.succ R + Z.of_nat k) by lia. split; [done|].
    intros i p Hi Hin Htk. destruct (decide (i = R)) as [->|].
    + apply (Hnew1 p); [|done]. rewrite <- (same_starts_block q1 q2); [done|]. apply Hst2. lia.
    + apply (Hnew2 i p); [lia|done|]. apply (touches_taken Hto1); [done|tauto].
  - split; [by eauto|]. apply (quarry_inv_weaken q2 s2 (Z.succ R) m); [done|lia| |apply (qi_pages _ _ _ _ Hinv2)].
    intros i Hi. pose proof (qi_pages _ _ _ _ Hinv2 i). lia.
Qed.

(** ** Mapping pages *)

(** What an operation with outcome [r] on the slabs of [q] leaves behind. *)
Definition maps_to {A} (T : Prop) (q : Quarry) (s s' : S) (R : Z) (m m' : Z -> Z) (a : A) (r : outcome A) : Prop :=
  touches (owned q R) s s' /\
  (r = Ok a /\ quarry_ok T q s' R m' \/ (exists e, r = Err e) /\ quarry_inv q s' R m).

Lemma map_slab_pages_ok T q s R m i a c : quarry_ok T q s R m -> 0 <= i < R -> a = m i -> a < c -> c <= SLAB_PAGE_COUNT ->
  exists s' r, map_slab_pages i a c (q, s) = ((q, s'), r) /\ maps_to T q s s' R m (upd m i c) (c - a) r.
Proof.
  intros Hok Hi Ha Hac Hc. pose proof (qi_pages _ _ _ _ (proj1 Hok) i) as Hm.
  destruct (slab_ok q s R m i (proj1 Hok) Hi) as [Eslab _].
  destruct (slice_ok q s R m i a c (proj1 Hok) Hi) as [Eslice _]; [lia|lia|].
  destruct (extend_slab T q s R m i a c Hok Hi Ha Hac Hc) as (s' & r & E & Hto & Hcase).
  exists s', (match r with Ok _ => Ok (c - a) | Err e => Err e | Panic => Panic end). split.
  - unfold map_slab_pages, bindM, on_fst, getM, liftM. cbn [fst snd]. rewrite Eslab.
    rewrite usize_sub_ok by (unfold is_usize; consts; lia). rewrite Eslice, E. by destruct r.
  - split; [done|]. destruct Hcase as [(-> & H)|((e & ->) & H)]; [by left|right]. eauto.
Qed.

Lemma map_slab_ok T q s R m i total : quarry_ok T q s R m -> 0 <= i < R -> m i = 0 -> 0 <= total <= 2 ^ 32 ->
  exists s' r, map_slab total i (q, s) = ((q, s'), r) /\
    maps_to T q s s' R m (upd m i SLAB_PAGE_COUNT) (total + SLAB_PAGE_COUNT) r.
Proof.
  intros Hok Hi Hm Ht. destruct (slab_ok q s R m i (proj1 Hok) Hi) as [Eslab _].
  destruct (extend_slab T q s R m i 0 SLAB_PAGE_COUNT Hok Hi) as (s' & r & E & Hto & Hcase); [lia|consts; lia|lia|].
  rewrite Z.add_0_r in E. change (mkBlock _ _) with (slab_block q i) in E.
  exists s', (match r with Ok _ => Ok (total + SLAB_PAGE_COUNT) | Err e => Err e | Panic => Panic end). split.
  - unfold map_slab, bindM, on_fst, getM, liftM. cbn [fst snd]. rewrite Eslab, E.
    rewrite usize_add_ok by (unfold is_usize; consts; lia). by destruct r.
  - split; [done|]. destruct Hcase as [(-> & H)|((e & ->) & H)]; [by left|right]. eauto.
Qed.

(** The number of pages mapped in each slab when the first [k] are complete. *)
Definition complete (k i : Z) : Z := if i <? k then SLAB_PAGE_COUNT else 0.

Lemma complete_range k i : 0 <= complete k i <= SLAB_PAGE_COUNT.
Proof. unfold complete. destruct (i <? k); consts; lia. Qed.

Lemma map_slabs_ok T k q s R i total : quarry_ok T q s R (complete i) -> 0 <= i -> i + Z.of_nat k <= R ->
  0 <= total -> total + Z.of_nat k * SLAB_PAGE_COUNT <= 2 ^ 32 ->
  exists s' r, map_slabs total i (i + Z.of_nat k) (q, s) = ((q, s'), r) /\
    maps_to T q s s' R (complete i) (complete (i + Z.of_nat k)) (total + Z.of_nat k * SLAB_PAGE_COUNT) r.
Proof.
  unfold map_slabs. revert s i total. induction k as [|k IH]; intros s i total Hok Hi HR Ht0 Ht.
  { replace (i + Z.of_nat 0 - i) with 0 by lia. exists s, (Ok total). split; [done|].
    split; [apply touches_refl, (qi_wf _ _ _ _ (proj1 Hok))|left]. split; [f_equal; lia|]. by replace (i + Z.of_nat 0) with i by lia. }
  replace (i + Z.of_nat (Datatypes.S k) - i) with (Z.of_nat (Datatypes.S k)) by lia.
  rewrite seqZ_cons by lia. replace (Z.pred (Z.of_nat (Datatypes.S k))) with (Z.succ i + Z.of_nat k - Z.succ i) by lia.
  cbn [for_fold]. destruct (map_slab_ok T q s R (complete i) i total Hok) as (s1 & r1 & E1 & Hto1 & Hcase1);
    [lia|unfold complete; by rewrite Z.ltb_irrefl|consts; lia|].
  destruct Hcase1 as [(-> & Hok1)|((e & ->) & Hinv1)].
  2:{ exists s1, (Err e). rewrite (bindM_err _ _ _ _ _ E1). split; [done|]. split; [done|right]. eauto. }
  rewrite (bindM_ok _ _ _ _ _ E1).
  assert (quarry_ok T q s1 R (complete (Z.succ i))) as Hok1'.
  { apply (quarry_ok_ext _ _ _ _ _ _ Hok1); [|apply complete_range]. intros j Hj. unfold upd, complete.
    destruct (Z.eqb_spec j i), (Z.ltb_spec j (Z.succ i)), (Z.ltb_spec j i); lia. }
  destruct (IH s1 (Z.succ i) (total + SLAB_PAGE_COUNT) Hok1') as (s2 & r2 & E2 & Hto2 & Hcase2); [consts; lia..|].
  exists s2, r2. rewrite E2. split; [done|]. split; [apply (touches_trans _ _ _ _ _ Hto1 Hto2); tauto|].
  replace (i + Z.of_nat (Datatypes.S k)) with (Z.succ i + Z.of_nat k) by lia.
  destruct Hcase2 as [(-> & Hok2)|(He & Hinv2)]; [left|right].
  - split; [f_equal; consts; lia|done].
  - split; [done|]. apply (quarry_inv_weaken q s2 R (complete (Z.succ i))); [done| |..].
    + pose proof (qi_R _ _ _ _ Hinv2). lia.
    + intros j Hj. pose proof (complete_range i j). unfold complete in *. destruct (Z.ltb_spec j i), (Z.ltb_spec j (Z.succ i)); lia.
    + apply complete_range.
Qed.

Lemma slab_pages_range q n i : sizes_ok q -> 0 <= n <= slab_allocation_count q * SLAB_COUNT ->
  0 <= slab_pages q n i <= SLAB_PAGE_COUNT.
Proof.
  intros Hq Hn. pose proof (coordinates q Hq n Hn) as Hco. unfold slab_pages.
  destruct (allocation_coordinates q n) as [si off]. destruct Hco as (_ & _ & Hoff & _).
  destruct (slab_page_count_ok q Hq off) as (_ & Hp & _); [lia|].
  destruct (i <? si), (i =? si); consts; lia.
Qed.

Lemma slab_pages_complete q k : sizes_ok q -> forall i, slab_pages q (slab_allocation_count q * k) i = complete k i.
Proof.
  intros Hq i. pose proof (count_bounds q Hq). unfold slab_pages, allocation_coordinates, complete.
  rewrite Z.mul_comm, Z.div_mul, Z.mod_mul by lia. destruct (i <? k), (i =? k); done.
Qed.

(** The slab in which the old allocations end. *)
Lemma complete_slab_ok T q s R old : quarry_ok T q s R (slab_pages q old) ->
  0 <= old <= slab_allocation_count q * SLAB_COUNT -> touched_slabs q old <= R ->
  let '(i, off) := allocation_coordinates q old in
  exists s' r, complete_slab i off (div_ceil (off * q_size q) L0_SIZE) (q, s) = ((q, s'), r) /\
    maps_to T q s s' R (slab_pages q old) (complete (touched_slabs q old))
      (touched_slabs q old * SLAB_PAGE_COUNT - total_pages q old, touched_slabs q old) r.
Proof.
  intros Hok Hold HR. pose proof (qi_sizes _ _ _ _ (proj1 Hok)) as Hq.
  pose proof (coordinates q Hq old Hold) as Hco. unfold touched_slabs, total_pages in *.
  destruct (allocation_coordinates q old) as [i off] eqn:Ec. destruct Hco as (_ & Hi & Hoff & _).
  destruct (slab_page_count_ok q Hq off) as (_ & Hp & Hpp); [lia|]. set (pc := div_ceil (off * q_size q) L0_SIZE) in *.
  assert (forall j, slab_pages q old j = if j <? i then SLAB_PAGE_COUNT else if j =? i then pc else 0) as Hsp.
  { intros j. unfold slab_pages. by rewrite Ec. }
  unfold complete_slab. destruct (Z.ltb_spec 0 off) as [Hpos|Hz].
  2:{ assert (off = 0) as -> by lia. change pc with 0. exists s, (Ok (0, i)). split; [done|].
      split; [apply touches_refl, (qi_wf _ _ _ _ (proj1 Hok))|left].
      split; [f_equal; f_equal; lia|]. apply (quarry_ok_ext _ _ _ _ _ _ Hok); [|apply complete_range].
      intros j _. rewrite Hsp. unfold complete, pc. destruct (j <? i), (j =? i); done. }
  assert (forall m, quarry_ok T q m R (upd (slab_pages q old) i SLAB_PAGE_COUNT) -> quarry_ok T q m R (complete (i + 1))) as Hext.
  { intros m Hm. apply (quarry_ok_ext _ _ _ _ _ _ Hm); [|apply complete_range]. intros j _. unfold upd, complete. rewrite Hsp.
    destruct (Z.eqb_spec j i), (Z.ltb_spec j i), (Z.ltb_spec j (i + 1)); lia. }
  destruct (Z.ltb_spec pc SLAB_PAGE_COUNT) as [Hlt|Hge].
  - destruct (map_slab_pages_ok T q s R (slab_pages q old) i pc SLAB_PAGE_COUNT Hok) as (s' & r & E & Hto & Hcase);
      [lia|rewrite Hsp, Z.ltb_irrefl, Z.eqb_refl; done|lia|lia|].
    exists s', (match r with Ok n => Ok (n, i + 1) | Err e => Err e | Panic => Panic end).
    unfold bindM. rewrite E. split; [by destruct r|]. split; [done|].
    destruct Hcase as [(-> & H)|((e & ->) & H)]; [left|right]; [|by eauto]. split; [f_equal; f_equal; lia|by apply Hext].
  - exists s, (Ok (0, i + 1)). split; [done|]. split; [apply touches_refl, (qi_wf _ _ _ _ (proj1 Hok))|left].
    split; [f_equal; f_equal; lia|]. apply (quarry_ok_ext _ _ _ _ _ _ Hok); [|apply complete_range].
    intros j _. rewrite Hsp. unfold complete. destruct (Z.eqb_spec j i), (Z.ltb_spec j i), (Z.ltb_spec j (i + 1)); lia.
Qed.

Lemma bindM_quarry {A} (k : Quarry -> M (Quarry * S) A) q s : bindM (on_fst getM) k (q, s) = k q (q, s).
Proof. done. Qed.

Lemma touched_range q n : sizes_ok q -> 0 <= n <= slab_allocation_count q * SLAB_COUNT ->
  0 <= touched_slabs q n <= SLAB_COUNT.
Proof.
  intros Hq Hn. pose proof (coordinates q Hq n Hn) as Hco. unfold touched_slabs.
  destruct (allocation_coordinates q n) as [i off]. destruct Hco as (_ & Hi & Hoff & _ & Hlast).
  destruct (Z.ltb_spec 0 off); [|lia]. assert (i <> SLAB_COUNT) by lia. lia.
Qed.

Lemma touched_mono q old new : sizes_ok q -> 0 <= old <= new -> new <= slab_allocation_count q * SLAB_COUNT ->
  touched_slabs q old <= touched_slabs q new.
Proof.
  intros Hq Ho Hn. pose proof (coordinates q Hq old ltac:(lia)) as Hco. pose proof (coordinates q Hq new ltac:(lia)) as Hcn.
  unfold touched_slabs. destruct (allocation_coordinates q old) as [i off], (allocation_coordinates q new) as [j off'].
  destruct Hco as (? & ? & ? & _), Hcn as (? & ? & ? & _). destruct (Z.ltb_spec 0 off), (Z.ltb_spec 0 off'); nia.
Qed.

(** Slabs past those in use have no pages. *)
Lemma slab_pages_beyond q n i : sizes_ok q -> touched_slabs q n <= i -> slab_pages q n i = 0.
Proof.
  intros Hq. pose proof (count_bounds q Hq). unfold touched_slabs, slab_pages, allocation_coordinates.
  pose proof (Z.mod_pos_bound n (slab_allocation_count q) ltac:(lia)).
  destruct (Z.ltb_spec 0 (n mod slab_allocation_count q)) as [|Hz], (Z.ltb_spec i (n / slab_allocation_count q)),
    (Z.eqb_spec i (n / slab_allocation_count q)); try lia. intros _.
  by replace (n mod slab_allocation_count q) with 0 by lia.
Qed.

Lemma same_sizes_facts q q' n : same_sizes q q' ->
  touched_slabs q' n = touched_slabs q n /\ (forall i, slab_pages q' n i = slab_pages q n i) /\
  total_pages q' n = total_pages q n /\ allocation_coordinates q' n = allocation_coordinates q n.
Proof.
  intros [H1 H2]. unfold touched_slabs, slab_pages, total_pages, allocation_coordinates. by rewrite H1, H2.
Qed.

Lemma quarry_reserve_ok T q s old new : quarry_ok T q s (touched_slabs q old) (slab_pages q old) ->
  0 <= old < new -> new <= slab_allocation_count q * SLAB_COUNT ->
  exists q' s' r, quarry_reserve old new (q, s) = ((q', s'), r) /\ touches (fun _ => False) s s' /\ same_sizes q q' /\
    (forall i, 0 <= i < touched_slabs q old -> slab_start q' i = slab_start q i) /\
    ((r = Ok tt /\ quarry_ok T q' s' (touched_slabs q' new) (slab_pages q' old) /\
        (forall p, owned q' (touched_slabs q' new) p -> taken s p -> owned q (touched_slabs q old) p)) \/
     ((exists e, r = Err e) /\ quarry_inv q' s' (touched_slabs q old) (slab_pages q old))).
Proof.
  intros Hok Hon Hn. pose proof (qi_sizes _ _ _ _ (proj1 Hok)) as Hq.
  pose proof (touched_mono q old new Hq ltac:(lia) Hn) as Hmono. pose proof (touched_range q new Hq ltac:(lia)).
  pose proof (touched_range q old Hq ltac:(lia)).
  unfold quarry_reserve. rewrite (proj2 (Z.ltb_lt old new)) by lia. rewrite bindM_lift, bindM_quarry.
  replace (touched_slabs q new - touched_slabs q old) with (Z.of_nat (Z.to_nat (touched_slabs q new - touched_slabs q old))) by lia.
  destruct (reserve_slabs_ok T (Z.to_nat (touched_slabs q new - touched_slabs q old)) q s (touched_slabs q old) (slab_pages q old) Hok)
    as (q' & s' & r & E & Hto & Hsz & Hst & Hcase); [lia|intros i Hi; by apply slab_pages_beyond|].
  exists q', s', r. split; [done|]. split; [done|]. split; [done|]. split; [done|].
  destruct (same_sizes_facts q q' new Hsz) as (-> & _). destruct (same_sizes_facts q q' old Hsz) as (_ & Hsp & _).
  destruct Hcase as [(-> & Hok' & Hnew)|(He & Hinv)]; [left|by right]. rewrite Z2Nat.id in * by lia.
  replace (touched_slabs q old + _) with (touched_slabs q new) in * by lia.
  split; [done|]. split.
  - apply (quarry_ok_ext _ _ _ _ _ _ Hok'); [intros; apply Hsp|]. intros i. rewrite Hsp. apply slab_pages_range; [done|lia].
  - intros p (i & Hi & Hin) Htk. destruct (decide (i < touched_slabs q old)).
    + exists i. split; [lia|]. rewrite <- (same_starts_block q q'); [done|]. apply Hst. lia.
    + exfalso. apply (Hnew i p); [lia|done|done].
Qed.

Lemma slab_pages_coords q n i off : allocation_coordinates q n = (i, off) ->
  forall j, slab_pages q n j = upd (complete i) i (div_ceil (off * q_size q) L0_SIZE) j.
Proof.
  intros Ec j. unfold slab_pages, upd, complete. rewrite Ec.
  destruct (Z.eqb_spec j i) as [->|]; [by rewrite Z.ltb_irrefl|done].
Qed.

(** The slabs between the end of the old allocations and slab [last]. *)
Lemma map_between_ok T q s R old last : quarry_ok T q s R (slab_pages q old) ->
  0 <= old <= slab_allocation_count q * SLAB_COUNT -> touched_slabs q old <= last -> last <= R ->
  let '(i, off) := allocation_coordinates q old in
  exists s' r,
    (let! (total, first) := complete_slab i off (div_ceil (off * q_size q) L0_SIZE) in map_slabs total first last) (q, s)
      = ((q, s'), r) /\
    maps_to T q s s' R (slab_pages q old) (complete last) (last * SLAB_PAGE_COUNT - total_pages q old) r.
Proof.
  intros Hok Hold Hle HR. pose proof (qi_sizes _ _ _ _ (proj1 Hok)) as Hq. pose proof (qi_R _ _ _ _ (proj1 Hok)).
  pose proof (touched_range q old Hq Hold). pose proof (coordinates q Hq old Hold) as Hco.
  pose proof (complete_slab_ok T q s R old Hok Hold ltac:(lia)) as Hcs.
  assert (0 <= touched_slabs q old * SLAB_PAGE_COUNT - total_pages q old <= SLAB_PAGE_COUNT) as Htot.
  { unfold touched_slabs, total_pages. destruct (allocation_coordinates q old) as [i off]. destruct Hco as (_ & _ & Ho & _).
    destruct (slab_page_count_ok q Hq off) as (_ & Hp & Hpp); [lia|]. consts. destruct (Z.ltb_spec 0 off); [lia|].
    assert (off = 0) as -> by lia. change (div_ceil (0 * q_size q) 4096) with 0. lia. }
  destruct (allocation_coordinates q old) as [i off]. clear Hco. destruct Hcs as (s1 & r1 & E1 & Hto1 & Hcase1).
  destruct Hcase1 as [(-> & Hok1)|((e & ->) & Hinv1)].
  2:{ exists s1, (Err e). rewrite (bindM_err _ _ _ _ _ E1). split; [done|]. split; [done|right]. eauto. }
  rewrite (bindM_ok _ _ _ _ _ E1).
  destruct (map_slabs_ok T (Z.to_nat (last - touched_slabs q old)) q s1 R (touched_slabs q old)
    (touched_slabs q old * SLAB_PAGE_COUNT - total_pages q old) Hok1) as (s2 & r2 & E2 & Hto2 & Hcase2);
    [consts; lia..|]. rewrite Z2Nat.id in * by lia.
  replace (touched_slabs q old + (last - touched_slabs q old)) with last in * by lia.
  exists s2, r2. split; [done|]. split; [apply (touches_trans _ _ _ _ _ Hto1 Hto2); tauto|].
  destruct Hcase2 as [(-> & Hok2)|(He & Hinv2)]; [left; split; [f_equal; consts; lia|done]|right].
  split; [done|]. apply (quarry_inv_weaken q s2 R _ R _ Hinv2); [lia| |intros j; by apply slab_pages_range].
  intros j Hj. pose proof (slab_pages_range q old j Hq Hold). split; [lia|]. unfold complete.
  destruct (Z.ltb_spec j (touched_slabs q old)); [lia|]. rewrite slab_pages_beyond; [lia|done|lia].
Qed.

Definition quarry_map_result (T : Prop) (q q' : Quarry) (s s' : S) (old new : Z) (r : outcome (Z * Z)) : Prop :=
  (exists frames n, r = Ok (frames, n) /\ new <= n <= slab_allocation_count q * SLAB_COUNT /\
     frames = total_pages q n - total_pages q old /\
     total_pages q n = total_pages q new /\ touched_slabs q n = touched_slabs q new /\
     (forall i, slab_pages q n i = slab_pages q new i) /\
     quarry_ok T q' s' (touched_slabs q' new) (slab_pages q' new) /\
     forall p, owned q' (touched_slabs q' new) p -> taken s p -> owned q (touched_slabs q old) p) \/
  ((exists e, r = Err e) /\ quarry_inv q' s' (touched_slabs q old) (slab_pages q old)).

Lemma bindM_pair_assoc {St A B C D} (c : M St (A * B)) (f : A -> B -> M St C) (k : C -> M St D) st :
  (let! (a, b) := c in let! x := f a b in k x) st = (let! x := (let! (a, b) := c in f a b) in k x) st.
Proof. unfold bindM. by destruct (c st) as [st' [[a b]|e|]]. Qed.

(** *** Mapping in reserved slabs *)

Section MapReserved.
  Context (T : Prop) (q : Quarry) (s : S) (old new : Z).
  Context (Hok : quarry_ok T q s (touched_slabs q new) (slab_pages q old)).
  Context (Hon : 0 <= old < new) (Hn : new <= slab_allocation_count q * SLAB_COUNT).

Definition reserved_result (s' : S) (r : outcome (Z * Z)) : Prop :=
  touches (owned q (touched_slabs q new)) s s' /\
  ((exists n, r = Ok (total_pages q n - total_pages q old, n) /\ new <= n <= slab_allocation_count q * SLAB_COUNT /\
     total_pages q n = total_pages q new /\ touched_slabs q n = touched_slabs q new /\
     (forall i, slab_pages q n i = slab_pages q new i) /\
     quarry_ok T q s' (touched_slabs q new) (slab_pages q new)) \/
   (exists e, r = Err e) /\ quarry_inv q s' (touched_slabs q new) (slab_pages q old)).

Lemma reserved_sizes : sizes_ok q.
Proof using Hok. apply (qi_sizes _ _ _ _ (proj1 Hok)). Qed.

Lemma new_range j : 0 <= slab_pages q new j <= SLAB_PAGE_COUNT.
Proof using Hok Hon Hn. apply slab_pages_range; [apply reserved_sizes|lia]. Qed.

Lemma reserved_success s' n frames :
  touches (owned q (touched_slabs q new)) s s' -> frames = total_pages q n - total_pages q old ->
  new <= n <= slab_allocation_count q * SLAB_COUNT ->
  (forall j, slab_pages q n j = slab_pages q new j) -> total_pages q n = total_pages q new ->
  touched_slabs q n = touched_slabs q new ->
  quarry_ok T q s' (touched_slabs q new) (slab_pages q new) -> reserved_result s' (Ok (frames, n)).
Proof using. intros Hto -> ? ? ? ? ?. split; [done|left]. by exists n. Qed.

Lemma map_to_capacity_ok i off : new = slab_allocation_count q * SLAB_COUNT -> allocation_coordinates q old = (i, off) ->
  exists s' r, map_to_capacity new i off (div_ceil (off * q_size q) L0_SIZE) (q, s) = ((q, s'), r) /\ reserved_result s' r.
Proof using HL Hok Hon Hn.
  intros Hcap Ec. pose proof reserved_sizes as Hq. destruct (count_bounds q Hq) as [Hcnt _].
  pose proof (touched_mono q old new Hq ltac:(lia) Hn) as Hmono.
  assert (allocation_coordinates q new = (SLAB_COUNT, 0)) as Ec'.
  { unfold allocation_coordinates. rewrite Hcap, (Z.mul_comm (slab_allocation_count q)). by rewrite Z.mod_mul, Z.div_mul by lia. }
  assert (touched_slabs q new = SLAB_COUNT) as Hall by (unfold touched_slabs; by rewrite Ec').
  assert (total_pages q new = SLAB_COUNT * SLAB_PAGE_COUNT) as Htot by (unfold total_pages; by rewrite Ec').
  pose proof (map_between_ok T q s (touched_slabs q new) old SLAB_COUNT Hok ltac:(lia) ltac:(lia) ltac:(lia)) as Hm. rewrite Ec in Hm.
  destruct Hm as (s' & r & E & Hto & Hcase). unfold map_to_capacity. rewrite bindM_pair_assoc.
  destruct Hcase as [(-> & Hok')|((e & ->) & Hinv')].
  2:{ rewrite (bindM_err _ _ _ _ _ E). exists s', (Err e). split; [done|]. split; [done|right]. eauto. }
  rewrite (bindM_ok _ _ _ _ _ E). eexists s', _. split; [done|]. apply reserved_success; try done; [lia|].
  apply (quarry_ok_ext _ _ _ _ _ _ Hok'); [|apply new_range]. intros j _. rewrite Hcap. by apply slab_pages_complete.
Qed.

(** The case that the new allocations do not fill the quarry. *)
Context (i off i' off' n : Z).
Context (Ec : allocation_coordinates q old = (i, off)) (Ec' : allocation_coordinates q new = (i', off')).
Context (Hoff : 0 <= off < slab_allocation_count q) (Hoff' : 0 <= off' < slab_allocation_count q).
Context (Hi : 0 <= i) (Hco : old = slab_allocation_count q * i + off) (Hcn : new = slab_allocation_count q * i' + off').
Context (Eact : actual_allocations q i' (div_ceil (off' * q_size q) L0_SIZE) = Ok n).
Context (Hnn : new <= n <= slab_allocation_count q * SLAB_COUNT) (Hsp : forall j, slab_pages q n j = slab_pages q new j).
Context (Htp : total_pages q n = total_pages q new) (Htouch : touched_slabs q n = touched_slabs q new).

Lemma old_total : total_pages q old = i * SLAB_PAGE_COUNT + div_ceil (off * q_size q) L0_SIZE.
Proof using Ec. unfold total_pages. by rewrite Ec. Qed.

Lemma new_total : total_pages q new = i' * SLAB_PAGE_COUNT + div_ceil (off' * q_size q) L0_SIZE.
Proof using Ec'. unfold total_pages. by rewrite Ec'. Qed.

Lemma new_touched : touched_slabs q new = if 0 <? off' then i' + 1 else i'.
Proof using Ec'. unfold touched_slabs. by rewrite Ec'. Qed.

Lemma map_within_ok : i = i' ->
  exists s' r, map_within_slab q i (div_ceil (off * q_size q) L0_SIZE) (div_ceil (off' * q_size q) L0_SIZE) (q, s)
    = ((q, s'), r) /\ reserved_result s' r.
Proof using All.
  intros Hsame. pose proof reserved_sizes as Hq. pose proof (so_size _ Hq) as Hsize.
  destruct (slab_page_count_ok q Hq off) as (_ & Hpc & _); [lia|].
  destruct (slab_page_count_ok q Hq off') as (_ & Hpc' & _); [lia|].
  assert (div_ceil (off * q_size q) L0_SIZE <= div_ceil (off' * q_size q) L0_SIZE) as Hle by (apply div_ceil_mono; nia).
  pose proof new_touched as Htc. rewrite (proj2 (Z.ltb_lt 0 off')) in Htc by nia.
  pose proof old_total as Hto. pose proof new_total as Htn. rewrite <- Hsame in *.
  assert (forall s', quarry_ok T q s' (touched_slabs q new) (upd (slab_pages q old) i (div_ceil (off' * q_size q) L0_SIZE)) ->
    quarry_ok T q s' (touched_slabs q new) (slab_pages q new)) as Hext.
  { intros s' H. apply (quarry_ok_ext _ _ _ _ _ _ H); [|apply new_range]. intros j _.
    rewrite (slab_pages_coords q new i off' Ec'). unfold upd. rewrite (slab_pages_coords q old i off Ec). unfold upd. by destruct (j =? i). }
  unfold map_within_slab. rewrite Eact.
  assert (slab_pages q old i = div_ceil (off * q_size q) L0_SIZE) as Hold.
  { rewrite (slab_pages_coords q old i off Ec). unfold upd. by rewrite Z.eqb_refl. }
  destruct (Z.ltb_spec (div_ceil (off * q_size q) L0_SIZE) (div_ceil (off' * q_size q) L0_SIZE)) as [Hlt|Hge].
  - destruct (map_slab_pages_ok T q s _ _ i (div_ceil (off * q_size q) L0_SIZE) (div_ceil (off' * q_size q) L0_SIZE) Hok)
      as (s' & r & E & Hto' & Hcase); [lia|done|done|lia|].
    destruct Hcase as [(-> & Hok')|((e & ->) & Hinv')].
    2:{ rewrite (bindM_err _ _ _ _ _ E). exists s', (Err e). split; [done|]. split; [done|right]. eauto. }
    rewrite (bindM_ok _ _ _ _ _ E), bindM_lift. eexists s', _. split; [done|]. apply reserved_success; try done; [lia|by apply Hext].
  - rewrite (bindM_ok _ _ _ (q, s) 0) by done. rewrite bindM_lift. eexists s, _. split; [done|].
    apply reserved_success; try done; [apply touches_refl, (qi_wf _ _ _ _ (proj1 Hok))|lia|].
    apply Hext, (quarry_ok_ext _ _ _ _ _ _ Hok); intros j; unfold upd; destruct (Z.eqb_spec j i) as [->|]; try lia.
    apply slab_pages_range; [done|lia].
Qed.

Lemma map_across_ok : i <> i' ->
  exists s' r, map_across_slabs q i off (div_ceil (off * q_size q) L0_SIZE) i' off' (div_ceil (off' * q_size q) L0_SIZE) (q, s)
    = ((q, s'), r) /\ reserved_result s' r.
Proof using All.
  intros Hdiff. pose proof reserved_sizes as Hq. pose proof (qi_R _ _ _ _ (proj1 Hok)) as HR.
  destruct (slab_page_count_ok q Hq off') as (_ & Hpc' & Hpp'); [lia|].
  pose proof old_total as Hto. pose proof new_total as Htn. pose proof new_touched as Htc.
  assert (touched_slabs q old <= i') as Hti by (unfold touched_slabs; rewrite Ec; destruct (Z.ltb_spec 0 off); nia).
  assert (i' <= touched_slabs q new) as Hti' by (rewrite Htc; destruct (Z.ltb_spec 0 off'); lia).
  pose proof (map_between_ok T q s (touched_slabs q new) old i' Hok ltac:(lia) Hti Hti') as Hm. rewrite Ec in Hm.
  destruct Hm as (s1 & r1 & E1 & Hto1 & Hcase1). unfold map_across_slabs. rewrite bindM_pair_assoc.
  destruct Hcase1 as [(-> & Hok1)|((e & ->) & Hinv1)].
  2:{ rewrite (bindM_err _ _ _ _ _ E1). exists s1, (Err e). split; [done|]. split; [done|right]. eauto. }
  rewrite (bindM_ok _ _ _ _ _ E1), Eact. pose proof (touched_range q old Hq ltac:(lia)).
  destruct (Z.ltb_spec 0 off') as [Hpos|Hz].
  - destruct (map_slab_pages_ok T q s1 _ _ i' 0 (div_ceil (off' * q_size q) L0_SIZE) Hok1) as (s2 & r2 & E2 & Hto2 & Hcase2);
      [lia|unfold complete; by rewrite Z.ltb_irrefl|by apply Hpp'|lia|].
    assert (touches (owned q (touched_slabs q new)) s s2) as Hto12 by (apply (touches_trans _ _ _ _ _ Hto1 Hto2); tauto).
    destruct Hcase2 as [(-> & Hok2)|((e & ->) & Hinv2)].
    2:{ rewrite (bindM_err _ _ _ (q, s2) e) by (by rewrite (bindM_err _ _ _ _ _ E2)).
        exists s2, (Err e). split; [done|]. split; [done|right]. split; [by eauto|].
        apply (quarry_inv_weaken _ _ _ _ _ _ Hinv2); [lia| |intros j; apply slab_pages_range; [done|lia]].
        intros j Hj. pose proof (slab_pages_range q old j Hq ltac:(lia)). split; [lia|]. unfold complete.
        destruct (Z.ltb_spec j i'); [lia|]. rewrite slab_pages_beyond; [lia|done|lia]. }
    rewrite (bindM_ok _ _ _ (q, s2) (total_pages q new - total_pages q old)).
    2:{ rewrite (bindM_ok _ _ _ _ _ E2). unfold liftM. f_equal. rewrite usize_add_ok; [f_equal; lia|].
        unfold is_usize. consts. destruct (slab_page_count_ok q Hq off) as (_ & Hpc & _); [lia|]. consts. nia. }
    rewrite bindM_lift. eexists s2, _. split; [done|]. apply reserved_success; try done; [lia|].
    apply (quarry_ok_ext _ _ _ _ _ _ Hok2); [|apply new_range]. intros j _. by rewrite (slab_pages_coords q new i' off' Ec').
  - assert (off' = 0) as H0 by lia. rewrite H0 in *. rewrite (bindM_ok _ _ _ (q, s1) (i' * SLAB_PAGE_COUNT - total_pages q old)) by done. rewrite bindM_lift. eexists s1, _. split; [done|].
    change (div_ceil (0 * q_size q) L0_SIZE) with 0 in *. apply reserved_success; try done; [lia|].
    apply (quarry_ok_ext _ _ _ _ _ _ Hok1); [|apply new_range]. intros j _. rewrite (slab_pages_coords q new i' 0 Ec').
    unfold upd, complete. destruct (Z.eqb_spec j i') as [->|]; [by rewrite Z.ltb_irrefl|done].
Qed.

End MapReserved.

Lemma map_reserved_ok T q s old new : quarry_ok T q s (touched_slabs q new) (slab_pages q old) ->
  0 <= old < new -> new <= slab_allocation_count q * SLAB_COUNT ->
  exists s' r, map_reserved old new (q, s) = ((q, s'), r) /\ reserved_result T q s old new s' r.
Proof.
  intros Hok Hon Hn. pose proof (qi_sizes _ _ _ _ (proj1 Hok)) as Hq.
  pose proof (coordinates q Hq old ltac:(lia)) as Hco. pose proof (coordinates q Hq new ltac:(lia)) as Hcn.
  unfold map_reserved. rewrite bindM_quarry, capacity_ok, bindM_lift by done.
  destruct (allocation_coordinates q old) as [i off] eqn:Ec. destruct Hco as (Hco & Hi & Hoff & _).
  destruct (slab_page_count_ok q Hq off) as (-> & _); [lia|]. rewrite bindM_lift.
  destruct (Z.eqb_spec new (slab_allocation_count q * SLAB_COUNT)) as [Hcap|Hcap]; [by apply map_to_capacity_ok|].
  pose proof (actual_allocations_ok q Hq new ltac:(lia)) as Hact.
  destruct (allocation_coordinates q new) as [i' off'] eqn:Ec'. destruct Hcn as (Hcn & Hi' & Hoff' & Hlast & _).
  destruct Hact as (n & Eact & Hnn & Hsp & Htp & Htouch).
  destruct (slab_page_count_ok q Hq off') as (-> & _); [lia|]. rewrite bindM_lift.
  destruct (Z.eqb_spec i i') as [Hsame|Hdiff].
  - apply (map_within_ok T q s old new Hok Hon Hn i off i' off' n); done || lia.
  - apply (map_across_ok T q s old new Hok Hon Hn i off i' off' n); done || lia.
Qed.

Lemma quarry_map_spec T q s old new :
  quarry_ok T q s (touched_slabs q old) (slab_pages q old) ->
  0 <= old < new -> new <= slab_allocation_count q * SLAB_COUNT ->
  exists q' s' r, quarry_map old new (q, s) = ((q', s'), r) /\ same_sizes q q' /\
    touches (owned q (touched_slabs q old)) s s' /\
    (forall i, 0 <= i < touched_slabs q old -> slab_start q' i = slab_start q i) /\
    quarry_map_result T q q' s s' old new r.
Proof.
  intros Hok Hon Hn. pose proof (qi_sizes _ _ _ _ (proj1 Hok)) as Hq. unfold quarry_map.
  rewrite (proj2 (Z.ltb_lt old new)) by lia. rewrite bindM_lift, bindM_quarry, capacity_ok, bindM_lift by done.
  rewrite (proj2 (Z.leb_le new _)) by done. rewrite bindM_lift.
  destruct (quarry_reserve_ok T q s old new Hok Hon Hn) as (q' & s1 & r1 & E1 & Hto1 & Hsz & Hst & Hcase1).
  destruct Hcase1 as [(-> & Hok1 & Hown)|((e & ->) & Hinv1)].
  2:{ rewrite (bindM_err _ _ _ _ _ E1). exists q', s1, (Err e). split; [done|]. split; [done|].
      split; [apply (touches_weaken _ _ _ _ Hto1); tauto|]. split; [done|right]. eauto. }
  rewrite (bindM_ok _ _ _ _ _ E1). pose proof Hsz as [_ Hac].
  destruct (map_reserved_ok T q' s1 old new Hok1 Hon) as (s2 & r & E2 & Hto2 & Hcase2); [by rewrite Hac|].
  exists q', s2, r. split; [exact E2|]. split; [done|].
  split; [apply (touches_trans _ (owned q' (touched_slabs q' new)) s s1); [apply (touches_weaken _ _ _ _ Hto1); tauto|done|done]|].
  split; [done|].
  destruct (same_sizes_facts q q' old Hsz) as (Ht & Hs & Hp & _). destruct (same_sizes_facts q q' new Hsz) as (Ht' & Hs' & Hp' & _).
  destruct Hcase2 as [(n & -> & Hnn & H1 & H2 & H3 & H4)|(He & Hinv)]; [left|right].
  - destruct (same_sizes_facts q q' n Hsz) as (Ht'' & Hs'' & Hp'' & _).
    exists (total_pages q' n - total_pages q' old), n. rewrite <- Hac. split; [done|]. split; [done|].
    split; [lia|]. split; [lia|]. split; [lia|]. split; [|by split]. intros i. rewrite <- Hs'', <- Hs'. apply H3.
  - split; [done|]. pose proof (touched_mono q old new Hq ltac:(lia) Hn). pose proof (touched_range q old Hq ltac:(lia)).
    apply (quarry_inv_weaken _ _ _ _ _ _ Hinv); [lia|..].
    + intros i _. rewrite Hs. pose proof (slab_pages_range q old i Hq ltac:(lia)). lia.
    + intros i. apply slab_pages_range; [done|lia].
Qed.

(** ** Releasing the slabs *)

(** The quarry with its first [k] slabs forgotten. *)
Definition forget (q : Quarry) (k : Z) : Quarry :=
  mkQuarry (q_size q) (slab_allocation_count q)
    (replicate (Z.to_nat k) 0 ++ drop (Z.to_nat k) (slabs q)).

Lemma forget_index q k : 0 <= k < Z.of_nat (length (slabs q)) ->
  index (slabs (forget q k)) k = Ok (slab_start q k) /\
  index_set (slabs (forget q k)) k 0 = Ok (slabs (forget q (k + 1))).
Proof.
  intros Hk. destruct (index_in_range (slabs q) k Hk) as [a Ha]. apply index_ok in Ha as [_ Ha].
  assert (slabs (forget q k) !! Z.to_nat k = Some a) as Hl.
  { cbn. rewrite lookup_app_r; rewrite length_replicate; [|lia]. by rewrite Nat.sub_diag, lookup_drop, Nat.add_0_r. }
  unfold slab_start. rewrite Ha. cbn [default from_option]. split; [apply index_ok; split; [lia|done]|].
  rewrite index_set_ok; [|split; [lia|apply lookup_lt_Some in Hl; lia]]. f_equal. cbn [forget slabs].
  rewrite insert_app_r_alt; rewrite length_replicate; [|lia]. rewrite Nat.sub_diag, (drop_S (slabs q) a) by done. cbn [insert list_insert].
  replace (Z.to_nat (k + 1)) with (Datatypes.S (Z.to_nat k)) by lia.
  by rewrite replicate_S_end, <- app_assoc.
Qed.

Lemma forget_slab q k : 0 <= k < Z.of_nat (length (slabs q)) -> slab (forget q k) k = slab q k.
Proof.
  intros Hk. unfold slab. rewrite (proj1 (forget_index q k Hk)). destruct (index_in_range (slabs q) k Hk) as [a Ha].
  rewrite Ha. apply index_ok in Ha as [_ Ha]. unfold slab_start. by rewrite Ha.
Qed.

Section Unmap.
  Context (q : Quarry) (s0 : S) (n : Z).
  Context (Hok : quarry_ok True q s0 (touched_slabs q n) (slab_pages q n)).
  Context (Hn : 0 <= n <= slab_allocation_count q * SLAB_COUNT).

(** The first [k] slabs are released and nothing else has changed. *)
Record released (k : Z) (s : S) : Prop := {
  rl_touches : touches (owned q k) s0 s;
  rl_unmapped : forall p, owned q k p -> backing s p = None;
}.

(** The facts of a slab that is not released yet. *)
Lemma released_slab k s i : released k s -> 0 <= k <= i -> i < touched_slabs q n ->
  (forall p, inside (slab_block q i) p -> taken s p) /\
  (forall j, 0 <= j < slab_pages q n i -> backing s (slab_start q i / L0_SIZE + j) <> None) /\
  (forall j, slab_pages q n i <= j < SLAB_PAGE_COUNT -> backing s (slab_start q i / L0_SIZE + j) = None).
Proof using Hok.
  intros [Hto _] Hk Hi. destruct Hok as [Hinv Htidy]. destruct (Htidy I) as [_ Hun].
  assert (forall p, inside (slab_block q i) p -> taken s0 p /\ ~ owned q k p) as Hfar.
  { intros p Hp. split; [apply (qi_taken _ _ _ _ Hinv i); [lia|done]|]. intros (j & Hj & Hp').
    assert (i = j) by (apply (qi_disjoint _ _ _ _ Hinv i j p); done || lia). lia. }
  pose proof (qi_pages _ _ _ _ Hinv i) as Hp.
  assert (forall j, 0 <= j < SLAB_PAGE_COUNT -> backing s (slab_start q i / L0_SIZE + j) = backing s0 (slab_start q i / L0_SIZE + j)) as Hsame.
  { intros j Hj. apply (touches_backing Hto); apply Hfar; in_slab. }
  split; [|split].
  - intros p Hin. destruct (Hfar p Hin). by apply (touches_taken Hto).
  - intros j Hj. rewrite Hsame by lia. destruct (qi_mapped _ _ _ _ Hinv i j) as [f ->]; [lia|done|done].
  - intros j Hj. rewrite Hsame by lia. apply Hun; [lia|done].
Qed.

(** Unmapping the mapped pages of the next slab and returning it. *)
Lemma release_slab k s b : released k s -> 0 <= k < touched_slabs q n ->
  b = mkBlock (slab_start q k / L0_SIZE) (slab_start q k / L0_SIZE + slab_pages q n k) -> 0 < slab_pages q n k ->
  exists s' s'', big_unmap b s = (s', Ok tt) /\ big_unreserve (slab_block q k) s' = (s'', Ok tt) /\ released (k + 1) s''.
Proof using Hok HL.
  intros Hrel Hk Hb Hpos. destruct (released_slab k s k Hrel) as (Htk & Hmp & Hum); [lia|lia|].
  destruct Hrel as [Hto Hnone]. destruct Hok as [Hinv _]. pose proof (qi_pages _ _ _ _ Hinv k) as Hp.
  destruct (qi_slab _ _ _ _ Hinv k ltac:(lia)) as (_ & _ & Hbn).
  assert (forall p, inside b p -> inside (slab_block q k) p) as Hsub by (subst b; intros p; in_slab).
  destruct (unmap_law S s b) as (s' & E1 & Hr1 & Hg1); [apply (touches_wf Hto)| | |].
  { split; [|subst b; cbn [b_start b_end]; lia]. rewrite Hb, <- (Z.add_0_r (slab_start q k / L0_SIZE)) at 1.
    apply (slice_ok q s0 _ _ k 0 (slab_pages q n k) Hinv); lia. }
  { intros p Hp'. split; [by apply Htk, Hsub|]. replace p with (slab_start q k / L0_SIZE + (p - slab_start q k / L0_SIZE)) by lia.
    apply Hmp. subst b. in_slab. }
  assert (forall p, inside (slab_block q k) p -> backing s' p = None) as Hg.
  { intros p Hp'. destruct (decide (inside b p)); [by apply Hg1|]. rewrite (remaps_backing Hr1) by done.
    replace p with (slab_start q k / L0_SIZE + (p - slab_start q k / L0_SIZE)) by lia. apply Hum. subst b. in_slab. }
  destruct (unreserve_law S s' (slab_block q k)) as (s'' & E2 & Hr2); [apply (remaps_wf Hr1)|done| |].
  { intros p Hp'. split; [by apply (remaps_taken Hr1), Htk|by apply Hg]. }
  exists s', s''. split; [done|]. split; [done|]. split.
  - assert (touches (inside (slab_block q k)) s s'') as Hto2.
    { apply (touches_trans _ (inside (slab_block q k)) _ s'); [|by apply retakes_touches|done].
      apply (touches_weaken _ _ _ _ (remaps_touches _ _ _ Hr1)). intros p Hp' _. by apply Hsub. }
    apply (touches_trans _ (inside (slab_block q k)) _ s); [|done|].
    + apply (touches_weaken _ _ _ _ Hto). intros p (i & Hi & Hin) _. exists i. split; [lia|done].
    + intros p Hin _. exists k. split; [lia|done].
  - intros p (i & Hi & Hin). rewrite (retakes_backing Hr2). destruct (decide (inside (slab_block q k) p)); [by apply Hg|].
    rewrite (remaps_backing Hr1); [|auto]. apply Hnone. exists i. split; [|done].
    assert (i <> k) by (intros ->; done). lia.
Qed.

Lemma unmap_slab_ok k s total : released k s -> 0 <= k < (allocation_coordinates q n).1 -> 0 <= total <= 2 ^ 32 ->
  exists s', unmap_slab total k (forget q k, s) = ((forget q (k + 1), s'), Ok (total + SLAB_PAGE_COUNT)) /\ released (k + 1) s'.
Proof using All.
  intros Hrel Hk Ht. destruct Hok as [Hinv _]. pose proof (qi_sizes _ _ _ _ Hinv) as Hq.
  assert (k < touched_slabs q n) as Hk'.
  { unfold touched_slabs. destruct (allocation_coordinates q n) as [i off]. cbn in Hk. destruct (0 <? off); lia. }
  assert (slab_pages q n k = SLAB_PAGE_COUNT) as Hfull.
  { unfold slab_pages. destruct (allocation_coordinates q n) as [i off]. cbn in Hk. by rewrite (proj2 (Z.ltb_lt k i)) by lia. }
  destruct (release_slab k s (slab_block q k) Hrel) as (s' & s'' & E1 & E2 & Hrel'); [lia|by rewrite Hfull|rewrite Hfull; done|].
  pose proof (qi_R _ _ _ _ Hinv) as HR. pose proof (so_slabs _ Hq) as Hlen.
  destruct (forget_index q k) as [_ Hset]; [rewrite Hlen; consts; lia|].
  destruct (slab_ok q s0 _ _ k Hinv) as [Hslab _]; [lia|].
  pose proof (forget_slab q k ltac:(rewrite Hlen; consts; lia)) as Hsl. rewrite Hslab in Hsl.
  exists s''. split; [|done]. unfold unmap_slab. rewrite bindM_quarry, Hsl, bindM_lift.
  rewrite (bindM_ok _ _ _ (forget q k, s') tt) by (unfold on_snd; cbn [snd fst]; by rewrite E1).
  rewrite (bindM_ok _ _ _ (forget q k, s'') tt) by (unfold on_snd; cbn [snd fst]; by rewrite E2).
  rewrite usize_add_ok, bindM_lift by (unfold is_usize; consts; lia).
  rewrite (bindM_ok _ _ _ (forget q (k + 1), s'') tt); [done|]. unfold set_slab. cbn [fst snd]. by rewrite Hset.
Qed.

Lemma unmap_slabs_ok j k s total : released k s -> 0 <= k -> k + Z.of_nat j <= (allocation_coordinates q n).1 ->
  0 <= total <= k * SLAB_PAGE_COUNT ->
  exists s', for_fold unmap_slab total (seqZ k (Z.of_nat j)) (forget q k, s) =
      ((forget q (k + Z.of_nat j), s'), Ok (total + Z.of_nat j * SLAB_PAGE_COUNT)) /\ released (k + Z.of_nat j) s'.
Proof using All.
  revert k s total. induction j as [|j IH]; intros k s total Hrel Hk Hj Ht.
  { exists s. rewrite Z.add_0_r, Z.mul_0_l, Z.add_0_r. done. }
  rewrite seqZ_cons by lia. replace (Z.pred (Z.of_nat (Datatypes.S j))) with (Z.of_nat j) by lia. cbn [for_fold].
  pose proof (coordinates q (qi_sizes _ _ _ _ (proj1 Hok)) n Hn) as Hco.
  destruct (unmap_slab_ok k s total Hrel) as (s' & E & Hrel').
  { lia. } { destruct (allocation_coordinates q n) as [i off]. cbn in Hj. consts. lia. }
  rewrite (bindM_ok _ _ _ _ _ E), <- Z.add_1_r.
  destruct (IH (k + 1) s' (total + SLAB_PAGE_COUNT) Hrel') as (s'' & E' & Hrel''); [lia|lia|consts; lia|].
  exists s''. rewrite E'. replace (k + Z.of_nat (Datatypes.S j)) with (k + 1 + Z.of_nat j) by lia. split; [|done].
  f_equal. f_equal. consts. lia.
Qed.

Lemma forget_all_zero : forallb (fun start => start =? 0) (slabs (forget q (touched_slabs q n))) = true.
Proof using Hok Hn.
  destruct Hok as [Hinv Htidy]. destruct (Htidy I) as [Hz _]. pose proof (qi_sizes _ _ _ _ Hinv) as Hq.
  apply forallb_forall. intros x Hx%base.list_elem_of_In. cbn [forget slabs] in Hx.
  apply elem_of_app in Hx as [Hx|Hx]; [apply elem_of_replicate in Hx as [-> _]; done|].
  apply list_elem_of_lookup in Hx as [i Hi]. rewrite lookup_drop in Hi. pose proof (lookup_lt_Some _ _ _ Hi) as Hl.
  rewrite (so_slabs _ Hq) in Hl. pose proof (touched_range q n Hq Hn) as Ht. consts.
  specialize (Hz (Z.of_nat (Z.to_nat (touched_slabs q n) + i)) ltac:(lia)). unfold slab_start in Hz.
  rewrite Nat2Z.id, Hi in Hz. cbn in Hz. by apply Z.eqb_eq.
Qed.

Lemma quarry_unmap_spec : exists s', quarry_unmap n (q, s0) = ((forget q (touched_slabs q n), s'), Ok (total_pages q n)) /\
  released (touched_slabs q n) s'.
Proof using All.
  pose proof (qi_sizes _ _ _ _ (proj1 Hok)) as Hq. pose proof (coordinates q Hq n Hn) as Hco.
  assert (released 0 s0) as Hrel0.
  { split; [apply touches_refl, (qi_wf _ _ _ _ (proj1 Hok))|]. intros p (i & Hi & _). lia. }
  assert (forget q 0 = q) as Hq0 by (by destruct q).
  unfold quarry_unmap. rewrite bindM_quarry.
  destruct (allocation_coordinates q n) as [i off] eqn:Ec. destruct Hco as (_ & Hi & Hoff & _).
  destruct (slab_page_count_ok q Hq off) as (-> & Hpc & Hpp); [lia|]. rewrite bindM_lift.
  destruct (unmap_slabs_ok (Z.to_nat i) 0 s0 0 Hrel0) as (s1 & E1 & Hrel1); [lia|rewrite Ec; cbn; lia|consts; lia|].
  rewrite Hq0 in E1. rewrite Z2Nat.id, !Z.add_0_l in * by lia. rewrite (bindM_ok _ _ _ _ _ E1).
  assert (touched_slabs q n = if 0 <? off then i + 1 else i) as Htc by (unfold touched_slabs; by rewrite Ec).
  assert (total_pages q n = i * SLAB_PAGE_COUNT + div_ceil (off * q_size q) L0_SIZE) as Htp by (unfold total_pages; by rewrite Ec).
  destruct (Z.ltb_spec 0 off) as [Hpos|Hz].
  2:{ exists s1. assert (off = 0) as -> by lia. change (div_ceil (0 * q_size q) L0_SIZE) with 0 in *.
      rewrite Htp, Htc, Z.add_0_r. done. }
  assert (slab_pages q n i = div_ceil (off * q_size q) L0_SIZE) as Hsp.
  { rewrite (slab_pages_coords q n i off Ec). unfold upd. by rewrite Z.eqb_refl. }
  destruct (release_slab i s1 (mkBlock (slab_start q i / L0_SIZE) (slab_start q i / L0_SIZE + div_ceil (off * q_size q) L0_SIZE)) Hrel1)
    as (s' & s'' & E2 & E3 & Hrel2); [lia|by rewrite Hsp|rewrite Hsp; by apply Hpp|].
  pose proof (qi_R _ _ _ _ (proj1 Hok)) as HR. pose proof (so_slabs _ Hq) as Hlen.
  destruct (forget_index q i) as [_ Hset]; [rewrite Hlen; consts; lia|].
  destruct (slab_ok q s0 _ _ i (proj1 Hok)) as [Hslab _]; [lia|].
  destruct (slice_ok q s0 _ _ i 0 (div_ceil (off * q_size q) L0_SIZE) (proj1 Hok)) as [Hslice _]; [lia|specialize (Hpp Hpos); lia|lia|].
  rewrite Z.add_0_r in Hslice.
  pose proof (forget_slab q i ltac:(rewrite Hlen; consts; lia)) as Hsl. rewrite Hslab in Hsl.
  exists s''. rewrite bindM_quarry, Hsl, bindM_lift, Hslice, bindM_lift.
  rewrite (bindM_ok _ _ _ (forget q i, s') tt) by (unfold on_snd; cbn [snd fst]; by rewrite E2).
  rewrite (bindM_ok _ _ _ (forget q i, s'') tt) by (unfold on_snd; cbn [snd fst]; by rewrite E3).
  rewrite usize_add_ok, bindM_lift by (unfold is_usize; consts; lia). rewrite Htp, Htc. split; [|done].
  rewrite (bindM_ok _ _ _ (forget q (i + 1), s'') tt); [done|]. unfold set_slab. cbn [fst snd]. by rewrite Hset.
Qed.

End Unmap.

(** ** Addresses of allocations *)

Section Addresses.
  Context (q : Quarry) (s : S) (R : Z) (m : Z -> Z) (Hinv : quarry_inv q s R m).

Lemma slab_low i : 0 <= i < R ->
  0 < slab_start q i /\ slab_start q i = slab_start q i / L0_SIZE * L0_SIZE /\
  slab_start q i + SLAB_SIZE <= LOWER_HALF_PAGES * L0_SIZE.
Proof using HL Hinv.
  intros Hi. destruct (qi_slab _ _ _ _ Hinv i Hi) as (Hpos & Hal & _ & _).
  pose proof (Z.div_mod (slab_start q i) L0_SIZE ltac:(done)). split; [done|]. split; [lia|].
  pose proof (taken_range S s (slab_start q i / L0_SIZE + 255) (qi_wf _ _ _ _ Hinv)) as Ht.
  destruct Ht as [_ Ht]; [apply (qi_taken _ _ _ _ Hinv i); [done|in_slab]|]. consts. lia.
Qed.

(** The address of an allocation. *)
Definition allocation_address (i : Z) : Z :=
  let '(slab_index, offset_in_slab) := allocation_coordinates q i in
  slab_start q slab_index + offset_in_slab * q_size q.

Lemma allocation_spec i : 0 <= i < slab_allocation_count q * SLAB_COUNT -> (allocation_coordinates q i).1 < R ->
  allocation q i = Ok (allocation_address i) /\
  let '(slab_index, offset_in_slab) := allocation_coordinates q i in
  0 < slab_start q slab_index <= allocation_address i /\
  allocation_address i + q_size q <= slab_start q slab_index + SLAB_SIZE.
Proof using HL Hinv.
  intros Hi HR. pose proof (qi_sizes _ _ _ _ Hinv) as Hq. pose proof (coordinates q Hq i ltac:(lia)) as Hco.
  destruct (count_bounds q Hq) as (Hc & Hcs & _). pose proof (so_size _ Hq) as Hsize.
  unfold allocation, allocation_address. rewrite capacity_ok, (proj2 (Z.ltb_lt i _)) by (done || lia).
  destruct (allocation_coordinates q i) as [si off]. cbn [fst] in HR. destruct Hco as (_ & Hsi & Hoff & _).
  assert (0 <= si < R) as Hsi' by lia. destruct (slab_ok q s R m si Hinv Hsi') as [-> Hnz]. rewrite decide_False by done.
  destruct (slab_low si Hsi') as (Hpos & Hal & Hlow).
  rewrite usize_mul_ok by (unfold is_usize; consts; nia).
  unfold address_unchecked. rewrite wf_start_address by apply (qi_slab _ _ _ _ Hinv si Hsi').
  cbn [slab_block b_start]. change (SIZE_OF Page) with L0_SIZE. rewrite <- Hal. split; [|nia].
  unfold wrapping_add. rewrite Z.mod_small; [done|]. consts. nia.
Qed.

Lemma slab_contains i a : 0 <= i < R -> 0 <= a < LOWER_HALF_PAGES * L0_SIZE ->
  contains_address Page (slab_block q i) a = Ok ((slab_start q i <=? a) && (a <? slab_start q i + SLAB_SIZE)).
Proof using HL Hinv.
  intros Hi Ha. destruct (slab_low i Hi) as (Hpos & Hal & Hlow). destruct (qi_slab _ _ _ _ Hinv i Hi) as (_ & _ & Hb & Hne).
  assert (canonical a) as Hca by (unfold canonical; consts; lia).
  assert (canonical (slab_start q i)) as Hcs by (unfold canonical; consts; lia).
  rewrite (contains_address_spec Page); [|done|by apply virt_valid_iff|left|done].
  - change (SIZE_OF Page) with L0_SIZE. cbn [slab_block b_start b_end]. rewrite <- Hal. f_equal. f_equal. apply eq_true_iff_eq.
    rewrite !Z.ltb_lt. consts. Z.div_mod_to_equations. lia.
  - change (SIZE_OF Page) with L0_SIZE. cbn [slab_block b_start]. rewrite <- Hal. apply virt_same_half_iff; [done|done|consts; lia].
Qed.

(** The search stops at the slab that contains the address. *)
Lemma find_allocation_ok si a k j : 0 <= si < R -> 0 <= k -> k + Z.of_nat j = si ->
  slab_start q si <= a < slab_start q si + SLAB_SIZE -> forall rest, SLAB_COUNT - k = rest ->
  find_allocation q a (seqZ k rest) = Ok (Some (si * slab_allocation_count q + (a - slab_start q si) / q_size q)).
Proof using HL Hinv.
  intros Hsi Hk Hkj Ha. pose proof (qi_sizes _ _ _ _ Hinv) as Hq. pose proof (qi_R _ _ _ _ Hinv) as HR.
  pose proof (so_size _ Hq) as Hsize. destruct (count_bounds q Hq) as (Hc & _). destruct (slab_low si Hsi) as (Hpos & Hal & Hlow).
  revert k Hk Hkj. induction j as [|j IH]; intros k Hk Hkj rest Hrest; rewrite seqZ_cons by (consts; lia); cbn [find_allocation].
  - replace k with si by lia. destruct (slab_ok q s R m si Hinv Hsi) as [-> Hnz]. rewrite decide_False by done.
    rewrite slab_contains by (done || lia).
    rewrite (proj2 (Z.leb_le _ _)), (proj2 (Z.ltb_lt _ _)) by lia. cbn [andb].
    unfold offset_unchecked. rewrite wf_start_address by apply (qi_slab _ _ _ _ Hinv si Hsi).
    cbn [slab_block b_start]. change (SIZE_OF Page) with L0_SIZE. rewrite <- Hal.
    rewrite usize_sub_ok by (unfold is_usize; consts; lia).
    assert (0 <= (a - slab_start q si) / q_size q <= a - slab_start q si).
    { split; [apply Z.div_pos; lia|]. apply Z.div_le_upper_bound; [lia|]. consts. nia. }
    rewrite usize_mul_ok by (unfold is_usize; consts; nia). rewrite usize_add_ok by (unfold is_usize; consts; nia). done.
  - assert (0 <= k < R) as HkR by lia. destruct (slab_ok q s R m k Hinv HkR) as [-> Hnz]. rewrite decide_False by done.
    rewrite slab_contains by (done || lia).
    assert ((slab_start q k <=? a) && (a <? slab_start q k + SLAB_SIZE) = false) as ->.
    { destruct (_ && _) eqn:E; [|done]. bool_simp. exfalso. destruct (slab_low k HkR) as (_ & Hal' & _).
      assert (k = si); [|lia]. apply (qi_disjoint _ _ _ _ Hinv k si (a / L0_SIZE) HkR Hsi); unfold inside, slab_block; cbn [b_start b_end]; consts; Z.div_mod_to_equations; lia. }
    rewrite <- Z.add_1_r. apply IH; lia.
Qed.

(** Every address inside an allocation leads back to its number. *)
Lemma allocation_index_spec i d : 0 <= i < slab_allocation_count q * SLAB_COUNT -> (allocation_coordinates q i).1 < R ->
  0 <= d < q_size q -> allocation_index q (allocation_address i + d) = Ok (Some i).
Proof using HL Hinv.
  intros Hi HR Hd. pose proof (qi_sizes _ _ _ _ Hinv) as Hq. pose proof (coordinates q Hq i ltac:(lia)) as Hco.
  destruct (allocation_spec i Hi HR) as [_ Hrange]. unfold allocation_index, allocation_address in *. rewrite (so_slabs _ Hq).
  rewrite Z2Nat.id by done. destruct (allocation_coordinates q i) as [si off]. cbn [fst] in HR.
  destruct Hco as (Heq & Hsi & Hoff & _). rewrite (find_allocation_ok si _ 0 (Z.to_nat si)); [|lia..].
  do 2 f_equal. replace (slab_start q si + off * q_size q + d - slab_start q si) with (d + off * q_size q) by lia.
  rewrite Z.div_add, Z.div_small by lia. lia.
Qed.

End Addresses.

(** Memory of an allocation below the mapped count is mapped. *)
Lemma allocation_mapped q s n i p :
  quarry_inv q s (touched_slabs q n) (slab_pages q n) -> 0 <= i < n -> n <= slab_allocation_count q * SLAB_COUNT ->
  (allocation_coordinates q i).1 < touched_slabs q n /\
  (allocation_address q i / L0_SIZE <= p <= (allocation_address q i + q_size q - 1) / L0_SIZE ->
     owned q (touched_slabs q n) p /\ taken s p /\ mapped_page s p).
Proof.
  intros Hinv Hi Hn. pose proof (qi_sizes _ _ _ _ Hinv) as Hq. pose proof (so_size _ Hq) as Hsize.
  pose proof (coordinates q Hq i ltac:(lia)) as Hco. pose proof (coordinates q Hq n ltac:(lia)) as Hcn.
  destruct (count_bounds q Hq) as (Hc & Hcs & _). 
  assert ((allocation_coordinates q i).1 < touched_slabs q n) as HR.
  { unfold touched_slabs. destruct (allocation_coordinates q i) as [si off], (allocation_coordinates q n) as [ni noff]. cbn [fst].
    destruct Hco as (? & ? & ? & _), Hcn as (? & ? & ? & _). destruct (Z.ltb_spec 0 noff); nia. }
  split; [done|]. intros Hp. destruct (allocation_spec q s _ _ Hinv i ltac:(lia) HR) as [_ Hrange].
  assert (forall j, 0 <= j < slab_pages q n (allocation_coordinates q i).1 ->
    owned q (touched_slabs q n) (slab_start q (allocation_coordinates q i).1 / L0_SIZE + j) /\
    taken s (slab_start q (allocation_coordinates q i).1 / L0_SIZE + j) /\
    mapped_page s (slab_start q (allocation_coordinates q i).1 / L0_SIZE + j)) as Hpage.
  { intros j Hj. assert (0 <= (allocation_coordinates q i).1) by (destruct (allocation_coordinates q i); cbn; lia).
    assert (inside (slab_block q (allocation_coordinates q i).1) (slab_start q (allocation_coordinates q i).1 / L0_SIZE + j))
      by (pose proof (qi_pages _ _ _ _ Hinv (allocation_coordinates q i).1); in_slab).
    split; [exists (allocation_coordinates q i).1; split; [lia|done]|].
    split; [|apply (qi_mapped _ _ _ _ Hinv); lia]. by apply (qi_taken _ _ _ _ Hinv (allocation_coordinates q i).1); [lia|]. }
  assert (0 <= (allocation_coordinates q i).1) as H0 by (destruct (allocation_coordinates q i); cbn; lia).
  destruct (slab_low q s _ _ Hinv _ (conj H0 HR)) as (_ & Hal & _).
  unfold allocation_address in *. destruct (allocation_coordinates q i) as [si off] eqn:Ei. cbn [fst] in *.
  destruct Hco as (Hco & Hsi & Hoff & _).
  replace p with (slab_start q si / L0_SIZE + (p - slab_start q si / L0_SIZE)) by lia. apply Hpage.
  assert ((off + 1) * q_size q <= slab_pages q n si * L0_SIZE) as Hfit.
  { unfold slab_pages. destruct (allocation_coordinates q n) as [ni noff]. destruct Hcn as (Hcn & ? & ? & _).
    destruct (Z.ltb_spec si ni); [consts; nia|]. assert (si = ni) as -> by nia. rewrite Z.eqb_refl.
    pose proof (div_ceil_spec (noff * q_size q) L0_SIZE ltac:(done)). nia. }
  consts. set (a := slab_start q si) in *. set (x := off * q_size q) in *. replace ((off + 1) * q_size q) with (x + q_size q) in Hfit by lia.
  assert (0 <= x) by nia. Z.div_mod_to_equations. lia.
Qed.

(** ** Theorems *)

(** The quarry holds memory for [n] allocations; it holds nothing else. *)
Definition quarry_holds (q : Quarry) (s : S) (n : Z) : Prop :=
  0 <= n <= slab_allocation_count q * SLAB_COUNT /\ quarry_inv q s (touched_slabs q n) (slab_pages q n).
Definition quarry_exact (q : Quarry) (s : S) (n : Z) : Prop :=
  quarry_holds q s n /\ quarry_tidy q s (touched_slabs q n) (slab_pages q n).
Definition quarry_owns (q : Quarry) (n p : Z) : Prop := owned q (touched_slabs q n) p.

Lemma quarry_new_exact size s : 0 < size <= SLAB_SIZE -> big_wf s ->
  exists q, quarry_new size = Ok q /\ q_size q = size /\ quarry_exact q s 0 /\ forall p, ~ quarry_owns q 0 p.
Proof.
  intros Hs Hw. unfold quarry_new. rewrite (proj2 (Z.eqb_neq size 0)) by lia. cbn [negb].
  assert (0 < SLAB_SIZE / size) as Hpos.
  { consts. assert (1 <= 1048576 / size) by (apply Z.div_le_lower_bound; lia). lia. }
  rewrite (proj2 (Z.eqb_neq _ 0)) by lia. cbn [negb]. eexists. split; [done|]. split; [done|].
  set (q := mkQuarry _ _ _). assert (sizes_ok q) as Hq by (split; [done|done|]; cbn; by rewrite length_replicate).
  assert (touched_slabs q 0 = 0) as Ht.
  { unfold touched_slabs, allocation_coordinates, q. cbn [slab_allocation_count]. by rewrite Z.div_0_l, Z.mod_0_l by lia. }
  split; [|unfold quarry_owns; rewrite Ht; intros p (i & Hi & _); lia].
  assert (0 <= 0 <= slab_allocation_count q * SLAB_COUNT) as H0 by (split; [done|]; apply Z.mul_nonneg_nonneg; [unfold q; cbn [slab_allocation_count]; apply Z.lt_le_incl, Hpos|done]).
  split; [split; [done|]|]; rewrite Ht; split; try lia; try done.
  - intros i. by apply slab_pages_range.
  - intros i Hi. unfold slab_start, q. cbn [slabs]. rewrite lookup_replicate_2; [done|]. consts. lia.
Qed.

Lemma same_touched q q' n : same_sizes q q' -> touched_slabs q' n = touched_slabs q n.
Proof. intros H. by destruct (same_sizes_facts q q' n H) as (-> & _). Qed.

(** The quarry may be taken to hold the rounded count or the requested one. *)
Lemma quarry_ok_count T q s n n' : touched_slabs q n' = touched_slabs q n ->
  (forall i, slab_pages q n' i = slab_pages q n i) -> 0 <= n' <= slab_allocation_count q * SLAB_COUNT ->
  quarry_ok T q s (touched_slabs q n) (slab_pages q n) -> quarry_ok T q s (touched_slabs q n') (slab_pages q n').
Proof.
  intros Ht Hp Hn Hok. rewrite Ht. apply (quarry_ok_ext _ _ _ _ _ _ Hok); [intros i _; apply Hp|].
  intros i. apply slab_pages_range; [apply (qi_sizes _ _ _ _ (proj1 Hok))|done].
Qed.

(** Exactness depends only on the pages of the quarry. *)
Lemma quarry_owns_taken q s n p : quarry_holds q s n -> quarry_owns q n p -> taken s p.
Proof. intros [_ Hinv] (i & Hi & Hp). by apply (qi_taken _ _ _ _ Hinv i). Qed.

Lemma quarry_exact_frame Q q s s' n : quarry_exact q s n -> touches Q s s' ->
  (forall p, quarry_owns q n p -> ~ Q p) -> quarry_exact q s' n.
Proof.
  intros [[Hn Hinv] [Hz Hu]] Hto HQ. split; [split; [done|by apply (quarry_inv_frame Q _ s)]|].
  split; [done|]. intros i j Hi Hj. pose proof (qi_pages _ _ _ _ Hinv i).
  assert (inside (slab_block q i) (slab_start q i / L0_SIZE + j)) as Hin by in_slab.
  rewrite (touches_backing Hto); [by apply Hu|by apply (qi_taken _ _ _ _ Hinv i)|apply HQ; by exists i].
Qed.

Lemma address_touched q n i : sizes_ok q -> 0 <= i < n -> n <= slab_allocation_count q * SLAB_COUNT ->
  0 <= (allocation_coordinates q i).1 < touched_slabs q n.
Proof.
  intros Hq Hi Hn. pose proof (coordinates q Hq i ltac:(lia)) as Hco. pose proof (coordinates q Hq n ltac:(lia)) as Hcn.
  destruct (count_bounds q Hq) as (Hc & _). unfold touched_slabs.
  destruct (allocation_coordinates q i) as [si off], (allocation_coordinates q n) as [ni noff]. cbn [fst].
  destruct Hco as (? & ? & ? & _), Hcn as (? & ? & ? & _). destruct (Z.ltb_spec 0 noff); nia.
Qed.

(** Allocations of slabs that stay where they are stay where they are. *)
Lemma same_address q q' n i : sizes_ok q -> same_sizes q q' ->
  (forall k, 0 <= k < touched_slabs q n -> slab_start q' k = slab_start q k) ->
  0 <= i < n -> n <= slab_allocation_count q * SLAB_COUNT -> allocation_address q' i = allocation_address q i.
Proof.
  intros Hq Hsz Hst Hi Hn. pose proof (address_touched q n i Hq Hi Hn) as Ht.
  destruct (same_sizes_facts q q' i Hsz) as (_ & _ & _ & Ec). unfold allocation_address. rewrite Ec.
  destruct (allocation_coordinates q i) as [si off]. rewrite Hst by done. by destruct Hsz as [-> _].
Qed.

(** The pages of a quarry grow with its allocations and fit into its slabs. *)
Lemma total_pages_bounds q n n' : sizes_ok q -> 0 <= n <= n' -> n' <= slab_allocation_count q * SLAB_COUNT ->
  0 <= total_pages q n <= total_pages q n' /\ total_pages q n' <= SLAB_COUNT * SLAB_PAGE_COUNT.
Proof.
  intros Hq Hn Hn'. pose proof (coordinates q Hq n ltac:(lia)) as Hc. pose proof (coordinates q Hq n' ltac:(lia)) as Hc'.
  unfold total_pages. destruct (allocation_coordinates q n) as [i off], (allocation_coordinates q n') as [i' off'].
  destruct Hc as (? & ? & ? & _), Hc' as (? & ? & ? & _ & H16).
  destruct (slab_page_count_ok q Hq off ltac:(lia)) as (_ & ? & _). destruct (slab_page_count_ok q Hq off' ltac:(lia)) as (_ & ? & _).
  pose proof (so_size _ Hq). assert (i < i' \/ i = i' /\ off <= off') as [Hlt|[-> Hle]] by nia.
  - consts. split; [nia|]. destruct (decide (i' = 16)) as [->|]; [rewrite H16 by done; change (div_ceil (0 * q_size q) 4096) with 0; lia|nia].
  - pose proof (div_ceil_mono (off * q_size q) (off' * q_size q) ltac:(nia)). consts. split; [nia|].
    destruct (decide (i' = 16)) as [->|]; [rewrite H16 by done; change (div_ceil (0 * q_size q) 4096) with 0; lia|nia].
Qed.

Lemma quarry_grow_spec q s old new :
  quarry_exact q s old -> 0 <= old < new -> new <= slab_allocation_count q * SLAB_COUNT ->
  exists q' s' r, quarry_map old new (q, s) = ((q', s'), r) /\ same_sizes q q' /\
    touches (quarry_owns q old) s s' /\
    (forall i, 0 <= i < old -> allocation_address q' i = allocation_address q i) /\
    ((exists n, r = Ok (total_pages q new - total_pages q old, n) /\ quarry_exact q' s' new /\
        forall p, quarry_owns q' new p -> taken s p -> quarry_owns q old p) \/
     (exists e, r = Err e /\ quarry_holds q' s' old)).
Proof.
  intros [[Hold Hinv] Htidy] Hon Hn.
  destruct (quarry_map_spec True q s old new) as (q' & s' & r & E & Hsz & Hto & Hst & Hres); [by split|lia|done|].
  exists q', s', r. do 3 (split; [done|]).
  split; [intros i Hi; apply (same_address q q' old); try done; [apply (qi_sizes _ _ _ _ Hinv)|lia]|].
  pose proof Hsz as [_ Hac]. destruct Hres as [(frames & n & -> & Hnn & -> & -> & _ & _ & [Hinv' Htidy'] & Hown)|((e & ->) & Hinv')]; [left|right].
  - exists n. split; [done|]. split; [split; [split; [lia|done]|by apply Htidy']|done].
  - exists e. split; [done|]. split; [lia|]. destruct (same_sizes_facts q q' old Hsz) as (-> & Hs & _).
    apply (quarry_inv_weaken _ _ _ _ _ _ Hinv').
    + pose proof (qi_R _ _ _ _ Hinv'). lia.
    + intros i _. rewrite Hs. pose proof (qi_pages _ _ _ _ Hinv i). lia.
    + intros i. rewrite Hs. apply (qi_pages _ _ _ _ Hinv).
Qed.

Lemma quarry_release_spec q s n :
  quarry_exact q s n ->
  exists q' s', quarry_unmap n (q, s) = ((q', s'), Ok (total_pages q n)) /\
    touches (quarry_owns q n) s s' /\ (forall p, quarry_owns q n p -> backing s' p = None) /\
    quarry_drop q' = Ok tt.
Proof.
  intros [[Hn Hinv] Htidy]. assert (quarry_ok True q s (touched_slabs q n) (slab_pages q n)) as Hok by (by split).
  destruct (quarry_unmap_spec q s n Hok Hn) as (s' & E & [Hto Hun]).
  exists (forget q (touched_slabs q n)), s'. split; [done|]. split; [done|]. split; [done|].
  unfold quarry_drop. by rewrite (forget_all_zero q s n).
Qed.

(** Growing a quarry.  From [old] to [new] allocations, [map] never panics and leaves
    the pages of everybody else as they were.  On success the quarry holds memory for
    the returned number of allocations, at least [new], in slabs that were free
    before, the old slabs stay where they are, and the number of frames returned is
    the number of pages newly mapped.  On failure it still holds the memory of the
    old allocations. *)
Theorem quarry_map_correct q s old new :
  quarry_holds q s old -> old < new -> new <= slab_allocation_count q * SLAB_COUNT ->
  exists q' s' r, quarry_map old new (q, s) = ((q', s'), r) /\ touches (quarry_owns q old) s s' /\
    (forall i, 0 <= i < touched_slabs q old -> slab_start q' i = slab_start q i) /\
    ((exists frames n, r = Ok (frames, n) /\ new <= n /\ quarry_holds q' s' n /\
        frames = total_pages q n - total_pages q old /\
        (quarry_exact q s old -> quarry_exact q' s' n) /\
        forall p, quarry_owns q' n p -> taken s p -> quarry_owns q old p) \/
     (exists e, r = Err e /\ quarry_holds q' s' old)).
Proof.
  intros [Hold Hinv] Hon Hn.
  destruct (quarry_map_spec (quarry_tidy q s (touched_slabs q old) (slab_pages q old)) q s old new) as
    (q' & s' & r & E & Hsz & Hto & Hst & Hres); [by split|lia|done|].
  exists q', s', r. split; [done|]. split; [done|]. split; [done|]. pose proof Hsz as [_ Hac].
  destruct Hres as [(frames & n & -> & Hnn & -> & Htp & Htc & Hsp & Hok & Hown)|((e & ->) & Hinv')]; [left|right].
  - destruct (same_sizes_facts q q' n Hsz) as (Ht & Hs & _). destruct (same_sizes_facts q q' new Hsz) as (Ht' & Hs' & _).
    apply (quarry_ok_count _ _ _ new n) in Hok as [Hinv' Htidy]; [|congruence|intros i; by rewrite Hs, Hs'|lia].
    eexists _, n. split; [done|]. split; [lia|]. split; [split; [lia|done]|]. split; [done|]. split.
    + intros [_ Hex]. split; [split; [lia|done]|by apply Htidy].
    + intros p Hp. apply Hown. unfold quarry_owns in Hp. by replace (touched_slabs q' new) with (touched_slabs q' n) by congruence.
  - exists e. split; [done|]. split; [lia|]. destruct (same_sizes_facts q q' old Hsz) as (-> & Hs & _).
    apply (quarry_inv_weaken _ _ _ _ _ _ Hinv').
    + pose proof (qi_R _ _ _ _ Hinv'). lia.
    + intros i _. rewrite Hs. pose proof (qi_pages _ _ _ _ Hinv i). lia.
    + intros i. rewrite Hs. apply (qi_pages _ _ _ _ Hinv).
Qed.

(** Releasing a quarry that holds exactly the memory of its allocations always
    succeeds: every mapped page is counted, afterwards none of its pages is mapped,
    it has no slabs left, so dropping it does not panic, and the pages of everybody
    else are as they were. *)
Theorem quarry_unmap_correct q s n :
  quarry_exact q s n ->
  exists q' s', quarry_unmap n (q, s) = ((q', s'), Ok (total_pages q n)) /\
    touches (quarry_owns q n) s s' /\ (forall p, quarry_owns q n p -> backing s' p = None) /\
    quarry_drop q' = Ok tt.
Proof. apply quarry_release_spec. Qed.

(** What the address of an allocation is good for. *)
Lemma quarry_allocation_spec q s n i :
  quarry_holds q s n -> 0 <= i < n ->
  allocation q i = Ok (allocation_address q i) /\ 0 < allocation_address q i /\
  (forall k, (k | q_size q) -> (k | L0_SIZE) -> (k | allocation_address q i)) /\
  (forall d, 0 <= d < q_size q -> allocation_index q (allocation_address q i + d) = Ok (Some i)) /\
  (forall p, allocation_address q i / L0_SIZE <= p <= (allocation_address q i + q_size q - 1) / L0_SIZE ->
     quarry_owns q n p /\ taken s p /\ mapped_page s p) /\
  (forall j, 0 <= j < n -> j <> i ->
     allocation_address q i + q_size q <= allocation_address q j \/
     allocation_address q j + q_size q <= allocation_address q i).
Proof.
  intros [Hn Hinv] Hi. pose proof (so_size _ (qi_sizes _ _ _ _ Hinv)) as Hsize.
  assert (forall j, 0 <= j < n -> (allocation_coordinates q j).1 < touched_slabs q n) as HR.
  { intros j Hj. apply (allocation_mapped q s n j 0 Hinv); lia. }
  destruct (allocation_spec q s _ _ Hinv i ltac:(lia) (HR i Hi)) as [E Hrange].
  split; [done|].
  split; [destruct (allocation_coordinates q i); lia|]. split; [|split; [|split]].
  - intros k Hk Hk'. specialize (HR i Hi). unfold allocation_address.
    pose proof (coordinates q (qi_sizes _ _ _ _ Hinv) i ltac:(lia)) as Hco.
    destruct (allocation_coordinates q i) as [si off]. cbn [fst] in HR. destruct Hco as (_ & Hsi & _).
    destruct (slab_low q s _ _ Hinv si ltac:(lia)) as (_ & -> & _).
    apply Z.divide_add_r; by apply Z.divide_mul_r.
  - intros d Hd. apply (allocation_index_spec q s _ _ Hinv); [lia|by apply HR|done].
  - intros p Hp. apply (allocation_mapped q s n i p Hinv); [lia|lia|done].
  - intros j Hj Hne. destruct (allocation_spec q s _ _ Hinv j ltac:(lia) (HR j Hj)) as [E' _].
    set (a := allocation_address q i) in *. set (b := allocation_address q j) in *.
    destruct (decide (a + q_size q <= b \/ b + q_size q <= a)) as [|Hov]; [done|exfalso].
    assert (allocation_index q (Z.max a b) = Ok (Some i)) as H1.
    { replace (Z.max a b) with (a + (Z.max a b - a)) by lia.
      apply (allocation_index_spec q s _ _ Hinv); [lia|by apply HR|lia]. }
    assert (allocation_index q (Z.max a b) = Ok (Some j)) as H2.
    { replace (Z.max a b) with (b + (Z.max a b - b)) by lia.
      apply (allocation_index_spec q s _ _ Hinv); [lia|by apply HR|lia]. }
    congruence.
Qed.

(** The addresses of allocations.  Each allocation held by a quarry has an address
    aligned to every divisor of the size and of the page size; every address inside
    the allocation is translated back to its number; all its pages are handed out
    to the quarry and mapped; two different allocations do not overlap. *)
Theorem quarry_allocation_roundtrip q s n i :
  quarry_holds q s n -> 0 <= i < n ->
  exists a, allocation q i = Ok a /\ 0 < a /\
    (forall k, (k | q_size q) -> (k | L0_SIZE) -> (k | a)) /\
    (forall d, 0 <= d < q_size q -> allocation_index q (a + d) = Ok (Some i)) /\
    (forall p, a / L0_SIZE <= p <= (a + q_size q - 1) / L0_SIZE -> taken s p /\ mapped_page s p) /\
    (forall j b, 0 <= j < n -> j <> i -> allocation q j = Ok b -> a + q_size q <= b \/ b + q_size q <= a).
Proof.
  intros Hh Hi. destruct (quarry_allocation_spec q s n i Hh Hi) as (E & Hpos & Hal & Hix & Hpg & Hap).
  exists (allocation_address q i). do 4 (split; [done|]). split; [intros p Hp; by apply Hpg|].
  intros j b Hj Hne Ej. destruct (quarry_allocation_spec q s n j Hh Hj) as (E' & _).
  rewrite E' in Ej. injection Ej as <-. by apply Hap.
Qed.

End Invariant.

(** ** Witnesses *)

(** A quarry of blocks of 48 bytes on the reference page allocator, and the same with
    memory for 100 blocks. *)
Definition sample_quarry : Quarry := mkQuarry 48 21845 (replicate 16 0).
Definition sample_grown : Quarry * Bump := (quarry_map 0 100 (sample_quarry, bump_zero)).1.

Lemma sample_quarry_exact : quarry_exact sample_quarry bump_zero 0.
Proof.
  destruct (quarry_new_exact 48 bump_zero) as (q & E & _ & H & _); [consts; lia|apply bump_zero_wf|].
  assert (quarry_new 48 = Ok sample_quarry) as E' by (vm_compute; reflexivity). congruence.
Qed.

Lemma quarry_map_correct_witness :
  exists q s, quarry_map 0 100 (sample_quarry, bump_zero) = ((q, s), Ok (2, 170)) /\ quarry_holds q s 170.
Proof.
  destruct (quarry_map_correct sample_quarry bump_zero 0 100) as
    (q & s & r & E & _ & _ & Hcase); [apply sample_quarry_exact|lia|vm_compute; discriminate|].
  assert ((quarry_map 0 100 (sample_quarry, bump_zero)).2 = Ok (2, 170)) as Hr by (vm_compute; reflexivity).
  rewrite E in Hr. cbn [snd] in Hr. exists q, s. rewrite E, Hr. split; [reflexivity|].
  destruct Hcase as [(f & n & H & _ & Hh & _)|(e & H & _)]; [|congruence].
  rewrite Hr in H. injection H as <- <-. exact Hh.
Defined.

Lemma sample_grown_exact : quarry_exact sample_grown.1 sample_grown.2 100.
Proof.
  destruct (quarry_map_spec True sample_quarry bump_zero 0 100)
    as (q & s & r & E & [_ Hsz] & _ & _ & Hcase); [split; [|intros _]; apply sample_quarry_exact|lia|vm_compute; discriminate|].
  assert ((quarry_map 0 100 (sample_quarry, bump_zero)).2 = Ok (2, 170)) as Hr by (vm_compute; reflexivity).
  unfold sample_grown. rewrite E in *. cbn [fst snd] in *.
  destruct Hcase as [(f & n & _ & _ & _ & _ & _ & _ & [Hinv Ht] & _)|((e & H) & _)]; [|congruence].
  split; [split; [|exact Hinv]|exact (Ht I)]. rewrite Hsz. vm_compute. split; discriminate.
Qed.

Lemma quarry_unmap_correct_witness :
  exists q s, quarry_unmap 100 sample_grown = ((q, s), Ok 2) /\ quarry_drop q = Ok tt.
Proof.
  destruct (quarry_unmap_correct sample_grown.1 sample_grown.2 100) as (q & s & E & _ & _ & Hd); [apply sample_grown_exact|].
  exists q, s. split; [|exact Hd].
  rewrite <- surjective_pairing in E. rewrite E. do 2 f_equal.
Defined.

Lemma quarry_allocation_roundtrip_witness :
  exists a, allocation sample_grown.1 99 = Ok a /\ allocation_index sample_grown.1 (a + 47) = Ok (Some 99) /\ (16 | a).
Proof.
  destruct (quarry_allocation_roundtrip sample_grown.1 sample_grown.2 100 99) as
    (a & E & _ & Hal & Hix & _); [apply sample_grown_exact|lia|].
  exists a. split; [exact E|]. split; [apply Hix; vm_compute; split; [discriminate|reflexivity]|].
  apply Hal; [exists 3; vm_compute; reflexivity|exists 256; reflexivity].
Defined.
