(* ===== verification/DynamicBitmap.v ===== *)
(** * DynamicBitmap: a bitmap that grows

    Models [ku/src/collections/dynamic_bitmap.rs]: an allocation bitmap in a block of
    reserved pages between two guard zones that stay unmapped.  The words of the
    mapped pages past those in use are zero, since pages are zeroed when they are
    mapped and only the bitmap writes to them; so the memory of a bitmap is the list
    of its words followed by zeros. *)

From Stdlib Require Import ZArith Lia.
From stdpp Require Import base list numbers tactics.
From S2P Require Import Prelude Addr Frage Block Mmu PageAllocator BigAllocator Bitmap Bump.

Open Scope Z_scope.
Open Scope outcome_scope.

Record DynamicBitmap := mkDynamicBitmap {
  db_bitmap : Bitmap;
  guard_zone_page_count : Z;
  db_pages : Block;
}.

Definition dynamic_bitmap_new : DynamicBitmap := mkDynamicBitmap bitmap_zero 0 block_zero.

(** The number of bits of a page: [size::from(u8::BITS) * Page::SIZE]. *)
Definition PAGE_BITS : Z := 8 * L0_SIZE.
Definition page_count (len : Z) : Z := div_ceil len PAGE_BITS.

(** [slice(range).expect()]. *)
Definition slice_expect (b : Block) (range_start range_end : Z) : outcome Block :=
  let? sub := slice Page b range_start range_end in unwrap_some sub.

(** [DynamicBitmap::pages]: the pages between the guard zones. *)
Definition bitmap_pages (d : DynamicBitmap) : outcome Block :=
  let? n := count (db_pages d) in
  let? last := usize_sub n (guard_zone_page_count d) in
  slice_expect (db_pages d) (guard_zone_page_count d) last.

(** The words of the first [pages] pages. *)
Definition bitmap_words (d : DynamicBitmap) (pages : Z) : list Z :=
  bitmap (db_bitmap d) ++
    replicate (Z.to_nat (pages * (L0_SIZE / 8)) - length (bitmap (db_bitmap d))) 0.

Section Operations.
  Context {S : Type} `{BigAllocator S}.

Definition bitmap_reserve (capacity guard_zone : Z) : M (DynamicBitmap * S) unit :=
  let! d := on_fst getM in
  let! _ := liftM (assert! is_empty (db_pages d) in Ok tt) in
  let! _ := liftM (assert! 0 <? capacity in Ok tt) in
  let bitmap_page_count := page_count capacity in
  let! total_page_count := liftM (let? n := usize_add guard_zone bitmap_page_count in usize_add n guard_zone) in
  let! layout := liftM (layout_array L0_SIZE total_page_count) in
  let! pages := on_snd (big_reserve layout) in
  on_fst (putM (mkDynamicBitmap (db_bitmap d) guard_zone pages)).

(** The part of [DynamicBitmap::map] that maps new pages, and the part that builds the
    bitmap over the mapped pages. *)
Definition map_bitmap_pages (d : DynamicBitmap) (old_page_count new_page_count : Z) : M (DynamicBitmap * S) unit :=
  let! pages := liftM (bitmap_pages d) in
  let! pages_to_map := liftM (slice_expect pages old_page_count new_page_count) in
  let! flags := on_snd flagsM in
  let! _ := on_snd (big_map pages_to_map flags) in
  let! _ := liftM (unwrap (block_try_into_slice Page pages_to_map 1 1)) in
  retM tt.

Definition rebuild_bitmap (d : DynamicBitmap) (new_len new_page_count : Z) : M (DynamicBitmap * S) unit :=
  let! pages := liftM (bitmap_pages d) in
  let! mapped_pages := liftM (slice_expect pages 0 new_page_count) in
  let! _ := liftM (unwrap (block_try_into_slice Page mapped_pages 8 8)) in
  let! new_free := liftM (let? n := usize_sub new_len (len (db_bitmap d)) in usize_add (free (db_bitmap d)) n) in
  let! b := liftM (bitmap_new (bitmap_words d new_page_count) new_len (Some new_free)) in
  on_fst (putM (mkDynamicBitmap b (guard_zone_page_count d) (db_pages d))).

Definition bitmap_map (new_len : Z) : M (DynamicBitmap * S) Z :=
  let! d := on_fst getM in
  let! _ := liftM (assert! len (db_bitmap d) <? new_len in Ok tt) in
  let old_page_count := page_count (len (db_bitmap d)) in
  let new_page_count := page_count new_len in
  let additional_page_count := saturating_sub new_page_count old_page_count in
  let! _ :=
    (if 0 <? additional_page_count then map_bitmap_pages d old_page_count new_page_count else retM tt) in
  let! _ := rebuild_bitmap d new_len new_page_count in
  retM additional_page_count.

Definition bitmap_unmap : M (DynamicBitmap * S) Z :=
  let! d := on_fst getM in
  let! _ := liftM (assert! free (db_bitmap d) =? len (db_bitmap d) in Ok tt) in
  let n := page_count (len (db_bitmap d)) in
  let! pages := liftM (bitmap_pages d) in
  let! mapped_pages := liftM (slice_expect pages 0 n) in
  let! _ := on_snd (big_unmap mapped_pages) in
  let! _ := on_snd (big_unreserve (db_pages d)) in
  let! _ := on_fst (putM dynamic_bitmap_new) in
  retM n.

End Operations.

(** ** Growing a bitmap *)

(** The bits past the elements are clear, so that elements may be added. *)
Definition tail_clear (b : Bitmap) : Prop := forall n, len b <= n -> allocated (bitmap b) n = false.

Lemma allocated_extend words k ec n :
  (length words <= ec)%nat -> 0 <= n -> allocated (take ec (words ++ replicate k 0)) n = allocated words n.
Proof.
  intros Hec Hn. unfold allocated. f_equal. assert (0 <= n / 64) by (apply Z.div_pos; lia).
  destruct (decide (Z.to_nat (n / 64) < length words)%nat) as [Hlt|Hge].
  - rewrite lookup_take_lt, lookup_app_l by lia. done.
  - rewrite (lookup_ge_None_2 words) by lia. cbn. destruct (decide (Z.to_nat (n / 64) < ec)%nat).
    + rewrite lookup_take_lt, lookup_app_r by lia.
      destruct (replicate k 0 !! _) as [x|] eqn:E; [|done]. by apply lookup_replicate in E as [-> _].
    + by rewrite lookup_take_ge by lia.
Qed.

Lemma free_elements_grow words words' l l' :
  0 <= l <= l' -> (forall n, 0 <= n -> allocated words' n = allocated words n) ->
  (forall n, l <= n -> allocated words n = false) ->
  Z.of_nat (length (free_elements words' l')) = Z.of_nat (length (free_elements words l)) + (l' - l).
Proof.
  intros Hl Hsame Hclear. unfold free_elements. replace l' with (l + (l' - l)) at 1 by lia.
  rewrite seqZ_app, list.filter_app, length_app by lia. rewrite Z.add_0_l, Nat2Z.inj_add. f_equal.
  - do 2 f_equal. apply filter_ext_elem. intros n Hn%elem_of_seqZ. by rewrite Hsame by lia.
  - rewrite filter_all_elem; [rewrite length_seqZ; lia|]. intros n Hn%elem_of_seqZ. rewrite Hsame by lia. apply Hclear. lia.
Qed.

Lemma bitmap_grow b k new :
  bitmap_wf b -> tail_clear b -> len b < new -> is_usize new ->
  div_ceil new 64 <= Z.of_nat (length (bitmap b) + k) ->
  exists b', bitmap_new (bitmap b ++ replicate k 0) new (Some (free b + (new - len b))) = Ok b' /\
    bitmap_wf b' /\ tail_clear b' /\ len b' = new /\ free b' = free b + (new - len b) /\
    forall n, 0 <= n -> allocated (bitmap b') n = allocated (bitmap b) n.
Proof.
  intros Hb Hc Hl Hu Hk. pose proof (wf_len _ Hb) as Ul. pose proof (wf_entries _ Hb) as He.
  pose proof (free_elements_length (bitmap b) (len b) ltac:(unfold is_usize in Ul; lia)) as Hf.
  assert (0 <= free b) by (rewrite (wf_free _ Hb); lia).
  rewrite <- (wf_free _ Hb) in Hf. pose proof (div_ceil_spec new 64 ltac:(lia)) as Hd.
  pose proof (div_ceil_spec (len b) 64 ltac:(lia)) as Hd'. unfold is_usize in *.
  assert (Z.of_nat (length (bitmap b)) <= div_ceil new 64) as Hle by lia.
  unfold bitmap_new. change BITS_PER_ENTRY with 64.
  rewrite usize_sub_ok by (unfold is_usize; lia). rewrite length_app, length_replicate.
  rewrite (proj2 (Z.leb_le (div_ceil new 64) _)), (proj2 (Z.leb_le (_ + _) new)) by lia.
  assert (forall n, 0 <= n ->
    allocated (take (Z.to_nat (div_ceil new 64)) (bitmap b ++ replicate k 0)) n = allocated (bitmap b) n) as Hall
    by (intros n Hn; apply allocated_extend; lia).
  eexists. split; [done|]. split; [|split; [|done]].
  - split; cbn [len bitmap cursor free].
    + unfold is_usize. lia.
    + rewrite length_take, length_app, length_replicate. lia.
    + apply Forall_take, Forall_app. split; [apply (wf_words _ Hb)|]. apply Forall_replicate. unfold is_usize. lia.
    + rewrite length_take, length_app, length_replicate.
      assert (0 <= (new - (free b + (new - len b))) / 64) by (apply Z.div_pos; lia).
      destruct (Z.leb_spec (div_ceil new 64) ((new - (free b + (new - len b))) / 64)); lia.
    + rewrite (free_elements_grow (bitmap b) _ (len b) new), <- (wf_free _ Hb); [done|lia|done|exact Hc].
  - intros n Hn. cbn in *. rewrite Hall by lia. apply Hc. lia.
Qed.

(** ** The invariant *)

(** The first page of the bitmap proper. *)
Definition first_page (d : DynamicBitmap) : Z := b_start (db_pages d) + guard_zone_page_count d.

Definition bitmap_owns (d : DynamicBitmap) (p : Z) : Prop := inside (db_pages d) p.

Ltac in_pages := unfold bitmap_owns, inside, first_page in *; cbn [b_start b_end db_pages] in *; lia.

Lemma page_count_mono a b : 0 <= a <= b -> 0 <= page_count a <= page_count b.
Proof.
  intros H. pose proof (div_ceil_spec b PAGE_BITS ltac:(done)). split; [apply div_ceil_nonneg; [done|lia]|].
  apply div_ceil_bound; [done|]. unfold page_count. lia.
Qed.

Lemma page_count_pos a : 0 < a -> 0 < page_count a.
Proof. intros H. pose proof (div_ceil_spec a PAGE_BITS ltac:(done)). unfold page_count. change PAGE_BITS with 32768 in *. lia. Qed.

Section Invariant.
  Context {S : Type} `{HB : BigAllocator S} `{HV : BigView S} `{HL : !BigAllocatorLaws S}.

(** The pages for [capacity] elements and two guard zones are reserved, and those of the
    present elements are mapped. *)
Record dynamic_wf (d : DynamicBitmap) (s : S) (capacity : Z) : Prop := {
  dw_wf : big_wf s;
  dw_bitmap : bitmap_wf (db_bitmap d);
  dw_tail : tail_clear (db_bitmap d);
  dw_guard : 0 <= guard_zone_page_count d;
  dw_len : 0 <= len (db_bitmap d) <= capacity;
  dw_capacity : 0 < capacity < 2 ^ 60;
  dw_pages : block_wf Page (db_pages d);
  dw_count : b_end (db_pages d) - b_start (db_pages d) =
    guard_zone_page_count d + page_count capacity + guard_zone_page_count d;
  dw_taken p : bitmap_owns d p -> taken s p;
  dw_mapped j : 0 <= j < page_count (len (db_bitmap d)) -> mapped_page s (first_page d + j);
}.

(** The guard zones and the pages not needed yet are not mapped. *)
Definition guarded (d : DynamicBitmap) (s : S) : Prop :=
  forall p, bitmap_owns d p ->
    ~ (first_page d <= p < first_page d + page_count (len (db_bitmap d))) -> backing s p = None.

Lemma dynamic_frame Q d s s' capacity :
  dynamic_wf d s capacity -> touches Q s s' -> (forall p, bitmap_owns d p -> ~ Q p) -> dynamic_wf d s' capacity.
Proof.
  intros [Hw Hb Ht Hg Hl Hc Hp Hn Htk Hm] Hto HQ. split; try done.
  - apply (touches_wf Hto).
  - intros p Hin. apply (touches_taken Hto); auto.
  - intros j Hj. assert (bitmap_owns d (first_page d + j)) as Hin.
    { assert (page_count (len (db_bitmap d)) <= page_count capacity).
      { by apply page_count_mono. }
      in_pages. }
    apply (touches_mapped Q s); auto.
Qed.

Lemma guarded_frame Q d s s' : guarded d s -> touches Q s s' -> (forall p, bitmap_owns d p -> taken s p /\ ~ Q p) -> guarded d s'.
Proof.
  intros Hg Hto HQ p Hp Hout. destruct (HQ p Hp). rewrite (touches_backing Hto) by done. by apply Hg.
Qed.

Lemma bindM_bitmap {A} (k : DynamicBitmap -> M (DynamicBitmap * S) A) d s : bindM (on_fst getM) k (d, s) = k d (d, s).
Proof. done. Qed.

(** Reserving the pages of an empty bitmap. *)
Lemma bitmap_reserve_spec d s capacity guard :
  db_bitmap d = bitmap_zero -> is_empty (db_pages d) = true -> big_wf s -> 0 < capacity < 2 ^ 60 -> 0 <= guard < 2 ^ 20 ->
  (exists d' s', bitmap_reserve capacity guard (d, s) = ((d', s'), Ok tt) /\ db_bitmap d' = bitmap_zero /\
     touches (fun _ => False) s s' /\ dynamic_wf d' s' capacity /\ guarded d' s' /\
     guard_zone_page_count d' = guard /\ forall p, bitmap_owns d' p -> ~ taken s p) \/
  (exists s' e, bitmap_reserve capacity guard (d, s) = ((d, s'), Err e) /\ touches (fun _ => False) s s').
Proof.
  intros Hz He Hw Hc Hg. unfold bitmap_reserve. rewrite bindM_bitmap, He, bindM_lift, (proj2 (Z.ltb_lt 0 capacity)), bindM_lift by lia.
  pose proof (div_ceil_spec capacity PAGE_BITS ltac:(done)) as Hd. pose proof (page_count_pos capacity ltac:(lia)) as Hpos.
  fold (page_count capacity) in Hd. change PAGE_BITS with 32768 in *.
  rewrite !usize_add_ok, bindM_lift by (unfold is_usize; lia).
  assert (layout_array L0_SIZE (guard + page_count capacity + guard) =
    Ok (mkLayout ((guard + page_count capacity + guard) * L0_SIZE) L0_SIZE)) as El.
  { unfold layout_array. change (validate_size L0_SIZE) with true. cbn match.
    rewrite (proj2 (Z.leb_le _ _)) by (change (ISIZE_MAX / L0_SIZE) with 2251799813685247; lia).
    by rewrite usize_mul_ok by (unfold is_usize; change L0_SIZE with 4096; lia). }
  rewrite El, bindM_lift.
  assert (layout_valid (mkLayout ((guard + page_count capacity + guard) * L0_SIZE) L0_SIZE)) as Hl.
  { split; [cbn; change L0_SIZE with 4096; unfold ISIZE_MAX; lia|]. exists 12. split; [lia|reflexivity]. }
  assert (pages_of (mkLayout ((guard + page_count capacity + guard) * L0_SIZE) L0_SIZE) = guard + page_count capacity + guard) as Hp.
  { unfold pages_of, count_up. cbn [layout_size]. apply div_ceil_mul. done. }
  destruct (reserve_law S s _ Hw Hl) as [(s' & b & E & Hb & Hcount & _ & Hr & Hnew)|(s' & e & E & Hr)]; [left|right].
  2:{ exists s', e. rewrite (bindM_err _ _ _ (d, s') e) by (unfold on_snd; cbn [snd fst]; by rewrite E).
      split; [done|]. by apply retakes_touches. }
  rewrite Hp in Hcount. pose proof (retakes_free_touches _ _ Hr) as Hto.
  rewrite (bindM_ok _ _ _ (d, s') b) by (unfold on_snd; cbn [snd fst]; by rewrite E).
  eexists _, s'. split; [done|]. split; [done|]. split; [done|]. rewrite Hz.
  split; [|split; [|split; [done|intros p Hin; by apply Hnew]]].
  - split; cbn [db_bitmap db_pages guard_zone_page_count len]; try done; try lia.
    + apply (retakes_wf Hr).
    + split; cbn; [unfold is_usize; lia|done|done|lia|done].
    + intros n _. unfold allocated. cbn. apply Z.bits_0.
    + cbn [bitmap_zero len]. lia.
    + intros p Hin. by apply Hnew.
    + intros j. cbn [bitmap_zero len]. change (page_count 0) with 0. lia.
  - intros p Hin _. rewrite (retakes_backing Hr). by apply Hnew.
Qed.

(** The pages between the guard zones. *)
Lemma bitmap_pages_ok d s capacity : dynamic_wf d s capacity ->
  bitmap_pages d = Ok (mkBlock (first_page d) (first_page d + page_count capacity)) /\
  block_nonempty (mkBlock (first_page d) (first_page d + page_count capacity)) /\ 0 < first_page d.
Proof.
  intros Hd. pose proof (page_count_pos capacity ltac:(pose proof (dw_capacity _ _ _ Hd); lia)) as Hpos.
  pose proof (dw_count _ _ _ Hd) as Hn. pose proof (dw_guard _ _ _ Hd) as Hg. pose proof (dw_pages _ _ _ Hd) as Hp.
  pose proof (wf_usize _ _ Hp) as [_ Ue]. unfold is_usize in Ue. pose proof (wf_usize _ _ Hp) as [Us _]. unfold is_usize in Us.
  unfold bitmap_pages. rewrite wf_count, usize_sub_ok by (done || (unfold is_usize; lia)).
  destruct (slice_part (db_pages d) (guard_zone_page_count d) (b_end (db_pages d) - b_start (db_pages d) - guard_zone_page_count d) Hp)
    as [E Hne]; [lia|lia|]. unfold slice_expect. rewrite E. cbn [unwrap_some].
  replace (b_start (db_pages d) + (_ - _ - _)) with (first_page d + page_count capacity) in * by (unfold first_page; lia).
  split; [done|]. split; [exact Hne|].
  apply (taken_range S s); [apply (dw_wf _ _ _ Hd)|]. apply (dw_taken _ _ _ Hd). in_pages.
Qed.

Lemma bitmap_slice_ok d s capacity a c : dynamic_wf d s capacity -> 0 <= a < c -> c <= page_count capacity ->
  slice_expect (mkBlock (first_page d) (first_page d + page_count capacity)) a c =
    Ok (mkBlock (first_page d + a) (first_page d + c)) /\
  block_nonempty (mkBlock (first_page d + a) (first_page d + c)).
Proof.
  intros Hd Ha Hc. destruct (bitmap_pages_ok d s capacity Hd) as (_ & [Hb _] & _).
  destruct (slice_part _ a c Hb Ha) as [E Hne]; [cbn; lia|]. unfold slice_expect. rewrite E. done.
Qed.

(** Mapping the pages for [new_len] elements. *)
Lemma map_pages_ok d s capacity new : dynamic_wf d s capacity -> len (db_bitmap d) < new <= capacity ->
  page_count (len (db_bitmap d)) < page_count new ->
  let b := mkBlock (first_page d + page_count (len (db_bitmap d))) (first_page d + page_count new) in
  exists s' r, big_map b (big_flags s) s = (s', r) /\ touches (bitmap_owns d) s s' /\
    (r = Ok tt /\ (forall j, 0 <= j < page_count new -> mapped_page s' (first_page d + j)) /\
       (guarded d s -> forall p, bitmap_owns d p -> ~ (first_page d <= p < first_page d + page_count new) -> backing s' p = None) \/
     exists e, r = Err e) /\ dynamic_wf d s' capacity.
Proof.
  intros Hd Hn Hpc b. pose proof (dw_len _ _ _ Hd) as Hl. pose proof (page_count_mono new capacity ltac:(lia)) as Hm.
  pose proof (page_count_mono (len (db_bitmap d)) new ltac:(lia)) as Hm'.
  destruct (bitmap_slice_ok d s capacity (page_count (len (db_bitmap d))) (page_count new) Hd) as [_ Hbn]; [lia|lia|].
  assert (forall p, inside b p -> bitmap_owns d p) as Hsub.
  { pose proof (dw_count _ _ _ Hd). pose proof (dw_guard _ _ _ Hd). intros p. unfold b. in_pages. }
  pose proof (dw_wf _ _ _ Hd) as Hw.
  assert (exists s' r, big_map b (big_flags s) s = (s', r) /\ remaps (inside b) s s' /\
    ((r = Ok tt /\ forall p, inside b p -> mapped_page s' p) \/ exists e, r = Err e)) as (s' & r & E & Hr & Hcase).
  { destruct (map_law S s b (big_flags s) Hw Hbn) as [(s' & E & Hr & Hmap)|(s' & e & E & Hr)];
      [by apply (flags_usable S)|intros p Hp; by apply (dw_taken _ _ _ Hd), Hsub|..].
    - exists s', (Ok tt). split; [done|]. split; [done|left]. split; [done|]. intros p Hp. destruct (Hmap p Hp) as [_ [f Hf]].
      exists f. by rewrite (remaps_flags Hr).
    - exists s', (Err e). eauto. }
  pose proof (remaps_touches _ _ _ Hr) as Hto. exists s', r. split; [done|].
  split; [apply (touches_weaken _ _ _ _ Hto); auto|].
  assert (forall j, 0 <= j < page_count (len (db_bitmap d)) -> mapped_page s' (first_page d + j)) as Hold.
  { intros j Hj. apply (touches_mapped (inside b) s); [done| | |by apply (dw_mapped _ _ _ Hd)].
    - apply (dw_taken _ _ _ Hd). pose proof (dw_count _ _ _ Hd). pose proof (dw_guard _ _ _ Hd). in_pages.
    - unfold b. in_pages. }
  split.
  - destruct Hcase as [(-> & Hnew)|He]; [left|by right]. split; [done|]. split.
    + intros j Hj. destruct (decide (j < page_count (len (db_bitmap d)))); [apply Hold; lia|]. apply Hnew. unfold b. in_pages.
    + intros Hg p Hp Hout. rewrite (remaps_backing Hr) by (unfold b; in_pages). apply Hg; [done|lia].
  - destruct Hd. split; try done; [apply (remaps_wf Hr)|]. intros p Hp. apply (remaps_taken Hr). auto.
Qed.

(** The bitmap over the mapped pages. *)
Lemma rebuild_bitmap_ok d s capacity new : dynamic_wf d s capacity -> len (db_bitmap d) < new <= capacity ->
  exists d', (forall s' : S, rebuild_bitmap d new (page_count new) (d, s') = ((d', s'), Ok tt)) /\
    db_pages d' = db_pages d /\ guard_zone_page_count d' = guard_zone_page_count d /\
    len (db_bitmap d') = new /\ free (db_bitmap d') = free (db_bitmap d) + (new - len (db_bitmap d)) /\
    (forall n, 0 <= n -> allocated (bitmap (db_bitmap d')) n = allocated (bitmap (db_bitmap d)) n) /\
    forall s', dynamic_wf d s' capacity -> (forall j, 0 <= j < page_count new -> mapped_page s' (first_page d + j)) ->
      dynamic_wf d' s' capacity.
Proof.
  intros Hd Hn. pose proof (dw_len _ _ _ Hd) as Hl. pose proof (dw_capacity _ _ _ Hd) as Hcap.
  pose proof (dw_bitmap _ _ _ Hd) as Hb. pose proof (wf_free _ Hb) as Hf.
  pose proof (free_elements_length (bitmap (db_bitmap d)) (len (db_bitmap d)) ltac:(lia)) as Hfl. rewrite <- Hf in Hfl.
  pose proof (page_count_mono new capacity ltac:(lia)) as Hm'. pose proof (page_count_pos new ltac:(lia)) as Hpos.
  destruct (bitmap_pages_ok d s capacity Hd) as (Ep & _ & Hfp).
  destruct (bitmap_slice_ok d s capacity 0 (page_count new) Hd) as [Es [Hsw _]]; [lia|lia|]. rewrite Z.add_0_r in *.
  destruct (bitmap_grow (db_bitmap d) (Z.to_nat (page_count new * (L0_SIZE / 8)) - length (bitmap (db_bitmap d))) new) as
    (b' & Eb & Hb' & Ht' & Hl' & Hf' & Hall'); [done|apply (dw_tail _ _ _ Hd)|lia|unfold is_usize; lia| |].
  { pose proof (div_ceil_spec new PAGE_BITS ltac:(done)) as Hdc. fold (page_count new) in Hdc.
    change PAGE_BITS with (512 * 64) in Hdc. change (L0_SIZE / 8) with 512. apply div_ceil_bound; lia. }
  exists (mkDynamicBitmap b' (guard_zone_page_count d) (db_pages d)). split; [|do 5 (split; [done|])].
  - intros s'. unfold rebuild_bitmap. rewrite Ep, bindM_lift, Es, bindM_lift.
    rewrite page_slice_ok by (done || (by exists 512) || (cbn [b_start]; lia)). cbn [unwrap].
    rewrite bindM_lift, usize_sub_ok, usize_add_ok, bindM_lift by (unfold is_usize; lia).
    unfold bitmap_words. by rewrite Eb, bindM_lift.
  - intros s' [Hw _ _ Hg _ Hc Hp Hcnt Htk _] Hmap. split; cbn [db_bitmap guard_zone_page_count db_pages]; try done;
      rewrite ?Hl'; try done. lia.
Qed.

Lemma bitmap_map_spec d s capacity new : dynamic_wf d s capacity -> len (db_bitmap d) < new <= capacity ->
  exists d' s' r, bitmap_map new (d, s) = ((d', s'), r) /\ touches (bitmap_owns d) s s' /\
    db_pages d' = db_pages d /\ guard_zone_page_count d' = guard_zone_page_count d /\
    dynamic_wf d' s' capacity /\
    ((r = Ok (page_count new - page_count (len (db_bitmap d))) /\ len (db_bitmap d') = new /\
        free (db_bitmap d') = free (db_bitmap d) + (new - len (db_bitmap d)) /\
        (forall n, 0 <= n -> allocated (bitmap (db_bitmap d')) n = allocated (bitmap (db_bitmap d)) n) /\
        (guarded d s -> guarded d' s')) \/
     (exists e, r = Err e) /\ d' = d).
Proof.
  intros Hd Hn. pose proof (dw_len _ _ _ Hd) as Hl.
  pose proof (page_count_mono (len (db_bitmap d)) new ltac:(lia)) as Hm.
  pose proof (page_count_mono new capacity ltac:(lia)) as Hm'.
  destruct (rebuild_bitmap_ok d s capacity new Hd Hn) as (d' & Er & Hpg & Hgz & Hl' & Hf' & Hall' & Hnewwf).
  assert (first_page d' = first_page d) as Hfp by (unfold first_page; by rewrite Hpg, Hgz).
  unfold bitmap_map. rewrite bindM_bitmap, (proj2 (Z.ltb_lt _ new)), bindM_lift by lia.
  assert (saturating_sub (page_count new) (page_count (len (db_bitmap d))) = page_count new - page_count (len (db_bitmap d))) as ->
    by (unfold saturating_sub; lia).
  destruct (Z.ltb_spec 0 (page_count new - page_count (len (db_bitmap d)))) as [Hmore|Hsame].
  - destruct (map_pages_ok d s capacity new Hd Hn ltac:(lia)) as (s' & r & E & Hto & Hcase & Hd').
    destruct (bitmap_slice_ok d s capacity (page_count (len (db_bitmap d))) (page_count new) Hd) as [Es' [Hsw' _]]; [lia|lia|].
    destruct (bitmap_pages_ok d s capacity Hd) as (Ep & _ & Hpos).
    destruct Hcase as [(-> & Hmap & Hguard)|(e & ->)].
    + rewrite (bindM_ok _ _ _ (d, s') tt).
      2:{ unfold map_bitmap_pages. rewrite Ep, bindM_lift, Es', bindM_lift. unfold bindM at 1 2, on_snd, flagsM. cbn [fst snd]. rewrite E.
          rewrite page_slice_ok by (done || (by exists 4096) || (cbn [b_start]; lia)). done. }
      rewrite (bindM_ok _ _ _ _ _ (Er s')). eexists d', s', _. split; [done|]. split; [done|].
      split; [done|]. split; [done|]. split; [by apply Hnewwf|left]. split; [done|]. split; [done|]. split; [done|].
      split; [done|]. intros Hg p Hp. unfold bitmap_owns in Hp. rewrite Hpg in Hp. rewrite Hl', Hfp. by apply Hguard.
    + rewrite (bindM_err _ _ _ (d, s') e).
      2:{ unfold map_bitmap_pages. rewrite Ep, bindM_lift, Es', bindM_lift. unfold bindM, on_snd, flagsM. cbn [fst snd]. by rewrite E. }
      exists d, s', (Err e). split; [done|]. split; [done|]. split; [done|]. split; [done|]. split; [done|right]. eauto.
  - rewrite (bindM_ok _ _ _ (d, s) tt) by done. rewrite (bindM_ok _ _ _ _ _ (Er s)).
    eexists d', s, _. split; [done|].
    split; [apply touches_refl, (dw_wf _ _ _ Hd)|]. split; [done|]. split; [done|]. split.
    { apply Hnewwf; [done|]. intros j Hj. apply (dw_mapped _ _ _ Hd). lia. }
    left. split; [done|]. split; [done|]. split; [done|]. split; [done|].
    intros Hg p Hp Hout. rewrite Hl', Hfp in Hout. unfold bitmap_owns in Hp. rewrite Hpg in Hp. apply Hg; [done|lia].
Qed.

(** Releasing a bitmap without allocated elements. *)
Lemma bitmap_unmap_spec d s capacity : dynamic_wf d s capacity -> guarded d s -> 0 < len (db_bitmap d) ->
  free (db_bitmap d) = len (db_bitmap d) ->
  exists s', bitmap_unmap (d, s) = ((dynamic_bitmap_new, s'), Ok (page_count (len (db_bitmap d)))) /\
    touches (bitmap_owns d) s s' /\ (forall p, bitmap_owns d p -> backing s' p = None) /\
    forall p, ~ bitmap_owns d p -> backing s' p = backing s p.
Proof.
  intros Hd Hg Hl Hf. pose proof (dw_len _ _ _ Hd) as Hlen. pose proof (page_count_pos (len (db_bitmap d)) Hl) as Hpos.
  pose proof (page_count_mono (len (db_bitmap d)) capacity ltac:(lia)) as Hm. set (n := page_count (len (db_bitmap d))) in *.
  destruct (bitmap_pages_ok d s capacity Hd) as (Ep & _ & _).
  destruct (bitmap_slice_ok d s capacity 0 n Hd) as [Es Hbn]; [lia|lia|]. rewrite Z.add_0_r in *.
  set (b := mkBlock (first_page d) (first_page d + n)) in *.
  pose proof (dw_count _ _ _ Hd) as Hc. pose proof (dw_guard _ _ _ Hd) as Hgz.
  assert (forall p, inside b p -> bitmap_owns d p) as Hsub by (intros p; unfold b; in_pages).
  destruct (unmap_law S s b (dw_wf _ _ _ Hd) Hbn) as (s1 & E1 & Hr1 & Hu1).
  { intros p Hp. split; [by apply (dw_taken _ _ _ Hd), Hsub|].
    destruct (dw_mapped _ _ _ Hd (p - first_page d)) as [f Hf']; [unfold b in Hp; in_pages|].
    by replace (first_page d + (p - first_page d)) with p in Hf' by lia; rewrite Hf'. }
  assert (forall p, bitmap_owns d p -> backing s1 p = None) as Hall.
  { intros p Hp. destruct (decide (inside b p)); [by apply Hu1|]. rewrite (remaps_backing Hr1) by done.
    apply Hg; [done|]. unfold b in *. in_pages. }
  destruct (unreserve_law S s1 (db_pages d) (remaps_wf Hr1)) as (s2 & E2 & Hr2).
  { split; [apply (dw_pages _ _ _ Hd)|lia]. }
  { intros p Hp. split; [by apply (remaps_taken Hr1), (dw_taken _ _ _ Hd)|by apply Hall]. }
  exists s2. split; [|split; [|split]].
  - unfold bitmap_unmap. rewrite bindM_bitmap, Hf, Z.eqb_refl, bindM_lift, Ep, bindM_lift. fold n. rewrite Es, bindM_lift.
    rewrite (bindM_ok _ _ _ (d, s1) tt) by (unfold on_snd; cbn [snd fst]; by rewrite E1).
    by rewrite (bindM_ok _ _ _ (d, s2) tt) by (unfold on_snd; cbn [snd fst]; by rewrite E2).
  - apply (touches_trans _ (inside (db_pages d)) _ s1); [|by apply retakes_touches|done].
    apply (touches_weaken _ _ _ _ (remaps_touches _ _ _ Hr1)). auto.
  - intros p Hp. rewrite (retakes_backing Hr2). by apply Hall.
  - intros p Hp. rewrite (retakes_backing Hr2). apply (remaps_backing Hr1). intros Hin. by apply Hp, Hsub.
Qed.

(** ** Theorems *)

(** Growing a bitmap never panics and touches only its own pages.  On success the
    elements present before keep their state, the new ones are free, the counts of
    elements and of free elements are exact, the pages of all elements are mapped,
    the answer is the number of pages newly mapped, and the guard zones and the
    pages not needed yet stay unmapped.  On failure the bitmap is as it was. *)
Theorem dynamic_bitmap_map_correct d s capacity new :
  dynamic_wf d s capacity -> len (db_bitmap d) < new <= capacity ->
  exists d' s' r, bitmap_map new (d, s) = ((d', s'), r) /\ touches (bitmap_owns d) s s' /\
    db_pages d' = db_pages d /\ guard_zone_page_count d' = guard_zone_page_count d /\
    dynamic_wf d' s' capacity /\
    ((r = Ok (page_count new - page_count (len (db_bitmap d))) /\ len (db_bitmap d') = new /\
        free (db_bitmap d') = free (db_bitmap d) + (new - len (db_bitmap d)) /\
        (forall n, 0 <= n -> allocated (bitmap (db_bitmap d')) n = allocated (bitmap (db_bitmap d)) n) /\
        (guarded d s -> guarded d' s')) \/
     (exists e, r = Err e) /\ d' = d).
Proof. apply bitmap_map_spec. Qed.

End Invariant.

(** ** Witnesses *)

(** A bitmap of capacity 349520 on the reference page allocator. *)
Definition sample_reserved : DynamicBitmap * Bump := (bitmap_reserve 349520 1 (dynamic_bitmap_new, bump_zero)).1.

Lemma sample_reserved_wf : dynamic_wf sample_reserved.1 sample_reserved.2 349520 /\ guarded sample_reserved.1 sample_reserved.2.
Proof.
  destruct (bitmap_reserve_spec dynamic_bitmap_new bump_zero 349520 1) as
    [(d & s & E & _ & _ & Hw & Hg & _)|(s & e & E & _)]; [done|done|apply bump_zero_wf|lia|lia|..].
  - unfold sample_reserved. rewrite E. by split.
  - exfalso. assert (is_ok (bitmap_reserve 349520 1 (dynamic_bitmap_new, bump_zero)).2 = true) as H by (vm_compute; reflexivity).
    by rewrite E in H.
Qed.

Lemma dynamic_bitmap_map_correct_witness :
  exists d s, bitmap_map 23 sample_reserved = ((d, s), Ok 1) /\ free (db_bitmap d) = 23 /\ guarded d s.
Proof.
  destruct (dynamic_bitmap_map_correct sample_reserved.1 sample_reserved.2 349520 23) as
    (d & s & r & E & _ & _ & _ & _ & Hcase); [apply sample_reserved_wf|vm_compute; split; [reflexivity|discriminate]|].
  rewrite <- surjective_pairing in E. assert ((bitmap_map 23 sample_reserved).2 = Ok 1) as Hr by (vm_compute; reflexivity).
  rewrite E in Hr. cbn [snd] in Hr. destruct Hcase as [(_ & _ & Hf & _ & Hg)|((e & H) & _)]; [|congruence].
  exists d, s. rewrite E, Hr. split; [reflexivity|]. split; [exact Hf|]. apply Hg, sample_reserved_wf.
Defined.
