(* ===== verification/AllocInfo.v ===== *)
(** * AllocInfo: the statistics of allocators

    Models [ku/src/allocator/info.rs] as it is built with the option
    [allocator-statistics]: counters of allocated and released amounts, their
    consistency check, and the counters shared between threads, which a sequence
    number guards.  The last part interleaves the single memory accesses of writers
    and of a reader. *)

From Stdlib Require Import ZArith Lia.
From stdpp Require Import base list numbers tactics relations.
From S2P Require Import Prelude Frage.

Open Scope Z_scope.
Open Scope outcome_scope.

(** ** Counters *)

Record Counter := mkCounter { negative : Z; positive : Z }.

#[export] Instance Counter_eq_dec : EqDecision Counter.
Proof. solve_decision. Defined.

Definition counter_new : Counter := mkCounter 0 0.

Definition balance (c : Counter) : outcome Z := unwrap_some (checked_sub (positive c) (negative c)).
Definition counter_is_valid (c : Counter) : bool := negative c <=? positive c.

Definition increase (c : Counter) (value : Z) : outcome Counter :=
  let? p := usize_add (positive c) value in Ok (mkCounter (negative c) p).
Definition decrease (c : Counter) (value : Z) : outcome Counter :=
  let? n := usize_add (negative c) value in Ok (mkCounter n (positive c)).

Definition counter_add_assign (c other : Counter) : outcome Counter :=
  let? n := usize_add (negative c) (negative other) in
  let? p := usize_add (positive c) (positive other) in
  Ok (mkCounter n p).

Definition counter_sub (c rhs : Counter) : outcome Counter :=
  let? n := ok_or (checked_sub (negative c) (negative rhs)) Overflow in
  let? p := ok_or (checked_sub (positive c) (positive rhs)) Overflow in
  Ok (mkCounter n p).

(** ** Statistics *)

Record Info := mkInfo {
  allocated : Counter;
  allocations : Counter;
  pages : Counter;
  requested : Counter;
}.

#[export] Instance Info_eq_dec : EqDecision Info.
Proof. solve_decision. Defined.

Definition info_new : Info := mkInfo counter_new counter_new counter_new counter_new.

Definition fragmentation_loss (i : Info) : outcome Z :=
  let? p := balance (pages i) in
  let? bytes := usize_mul p L0_SIZE in
  let? r := balance (requested i) in
  Ok (saturating_sub bytes r).

(** The chain of [&&] of [Info::is_valid]: a later test runs only if the earlier ones
    hold. *)
Definition info_is_valid (i : Info) : outcome bool :=
  if counter_is_valid (allocated i) && counter_is_valid (allocations i) &&
     counter_is_valid (pages i) && counter_is_valid (requested i) then
    let? r := balance (requested i) in
    let? a := balance (allocated i) in
    if r <=? a then
      if negative (requested i) <=? negative (allocated i) then
        let? a := balance (allocated i) in
        let? p := balance (pages i) in
        let? bytes := usize_mul p L0_SIZE in
        Ok (a <=? bytes)
      else Ok false
    else Ok false
  else Ok false.

Definition allocation (i : Info) (requested_ allocated_ allocated_pages : Z) : outcome Info :=
  let? a := increase (allocated i) allocated_ in
  let? n := increase (allocations i) 1 in
  let? p := increase (pages i) allocated_pages in
  let? r := increase (requested i) requested_ in
  Ok (mkInfo a n p r).

Definition deallocation (i : Info) (requested_ deallocated deallocated_pages : Z) : outcome Info :=
  let? a := decrease (allocated i) deallocated in
  let? n := decrease (allocations i) 1 in
  let? p := decrease (pages i) deallocated_pages in
  let? r := decrease (requested i) requested_ in
  Ok (mkInfo a n p r).

Definition pages_allocation (i : Info) (allocated_pages : Z) : outcome Info :=
  let? p := increase (pages i) allocated_pages in
  Ok (mkInfo (allocated i) (allocations i) p (requested i)).

Definition pages_deallocation (i : Info) (allocated_pages : Z) : outcome Info :=
  let? p := decrease (pages i) allocated_pages in
  Ok (mkInfo (allocated i) (allocations i) p (requested i)).

Definition info_add_assign (i other : Info) : outcome Info :=
  let? a := counter_add_assign (allocated i) (allocated other) in
  let? n := counter_add_assign (allocations i) (allocations other) in
  let? p := counter_add_assign (pages i) (pages other) in
  let? r := counter_add_assign (requested i) (requested other) in
  Ok (mkInfo a n p r).

Definition info_sub (i rhs : Info) : outcome Info :=
  let? a := counter_sub (allocated i) (allocated rhs) in
  let? n := counter_sub (allocations i) (allocations rhs) in
  let? p := counter_sub (pages i) (pages rhs) in
  let? r := counter_sub (requested i) (requested rhs) in
  Ok (mkInfo a n p r).

(** ** Shared statistics *)

(** The words of an [AtomicInfo] besides the sequence number. *)
Inductive Word :=
  | AllocatedPositive | AllocatedNegative | AllocationsPositive | AllocationsNegative
  | PagesPositive | PagesNegative | RequestedPositive | RequestedNegative.

#[export] Instance Word_eq_dec : EqDecision Word.
Proof. solve_decision. Defined.

Record AtomicInfo := mkAtomicInfo { words : Word -> Z; sequence : Z }.

Definition atomic_info_new : AtomicInfo := mkAtomicInfo (fun _ => 0) 0.

(** [fetch_add] on one word; atomic additions wrap around. *)
Definition fetch_add (w : Word) (value : Z) (m : Word -> Z) : Word -> Z := fun w' =>
  if decide (w' = w) then wrapping_add (m w) value else m w'.

(** The operations of a writer, as the additions they make between the two additions to
    the sequence number, in program order. *)
Definition allocation_writes (requested_ allocated_ allocated_pages : Z) : list (Word * Z) :=
  [(AllocatedPositive, allocated_); (AllocationsPositive, 1)] ++
  (if 0 <? allocated_pages then [(PagesPositive, allocated_pages)] else []) ++
  [(RequestedPositive, requested_)].

Definition deallocation_writes (requested_ deallocated deallocated_pages : Z) : list (Word * Z) :=
  [(AllocatedNegative, deallocated); (AllocationsNegative, 1)] ++
  (if 0 <? deallocated_pages then [(PagesNegative, deallocated_pages)] else []) ++
  [(RequestedNegative, requested_)].

Definition pages_allocation_writes (allocated_pages : Z) : list (Word * Z) := [(PagesPositive, allocated_pages)].
Definition pages_deallocation_writes (allocated_pages : Z) : list (Word * Z) := [(PagesNegative, allocated_pages)].

Definition apply_writes (writes : list (Word * Z)) (m : Word -> Z) : Word -> Z :=
  foldl (fun m write => fetch_add write.1 write.2 m) m writes.

(** A whole operation of a writer that nothing interrupts. *)
Definition write_all (writes : list (Word * Z)) (info : AtomicInfo) : AtomicInfo :=
  mkAtomicInfo (apply_writes writes (words info)) (wrapping_add (wrapping_add (sequence info) 1) 1).

Definition atomic_allocation (info : AtomicInfo) (requested_ allocated_ allocated_pages : Z) : AtomicInfo :=
  write_all (allocation_writes requested_ allocated_ allocated_pages) info.
Definition atomic_deallocation (info : AtomicInfo) (requested_ deallocated deallocated_pages : Z) : AtomicInfo :=
  write_all (deallocation_writes requested_ deallocated deallocated_pages) info.
Definition atomic_pages_allocation (info : AtomicInfo) (allocated_pages : Z) : AtomicInfo :=
  write_all (pages_allocation_writes allocated_pages) info.
Definition atomic_pages_deallocation (info : AtomicInfo) (allocated_pages : Z) : AtomicInfo :=
  write_all (pages_deallocation_writes allocated_pages) info.

(** The loads of the reader in program order, and the [Info] it makes of them. *)
Definition load_order : list Word :=
  [AllocatedPositive; AllocatedNegative; AllocationsPositive; AllocationsNegative;
   PagesPositive; PagesNegative; RequestedPositive; RequestedNegative].

Definition info_of (m : Word -> Z) : Info :=
  mkInfo (mkCounter (m AllocatedNegative) (m AllocatedPositive))
    (mkCounter (m AllocationsNegative) (m AllocationsPositive))
    (mkCounter (m PagesNegative) (m PagesPositive))
    (mkCounter (m RequestedNegative) (m RequestedPositive)).

(** The end of [AtomicInfo::load]: the statistics read must be consistent. *)
Definition checked_info (i : Info) : outcome Info :=
  let? valid := info_is_valid i in
  if valid : bool then Ok i else Panic.

(** [AtomicInfo::load] while nobody writes. *)
Definition load (info : AtomicInfo) : outcome Info := checked_info (info_of (words info)).

(** ** Threads that share statistics

    Every access to a word of an [AtomicInfo] is one step.  A writer is idle or has the
    additions left that it still has to make; the reader is before its load of the
    sequence number, has read that number and some words, or has left the loop.  The
    fields [ticks] and [finished] only observe the run: the number of additions to the
    sequence number and the operations that are over. *)

Definition writes := list (Word * Z).

Inductive is_operation : writes -> Prop :=
  | op_allocation r a p : is_operation (allocation_writes r a p)
  | op_deallocation r a p : is_operation (deallocation_writes r a p)
  | op_pages_allocation p : is_operation (pages_allocation_writes p)
  | op_pages_deallocation p : is_operation (pages_deallocation_writes p).

Inductive Reader :=
  | Start
  | Reading (seen : Z) (got : list (Word * Z)) (todo : list Word)
  | Done (got : list (Word * Z)).

Inductive Writer :=
  | Idle
  | Writing (op left_ : writes).

#[export] Instance Reader_eq_dec : EqDecision Reader.
Proof. solve_decision. Defined.

Record Config := mkConfig {
  shared : AtomicInfo;
  writers : list Writer;
  reader : Reader;
  ticks : Z;
  finished : list writes;
}.

Definition bump_sequence (c : AtomicInfo) : AtomicInfo :=
  mkAtomicInfo (words c) (wrapping_add (sequence c) 1).
Definition add_word (w : Word) (v : Z) (c : AtomicInfo) : AtomicInfo :=
  mkAtomicInfo (fetch_add w v (words c)) (sequence c).

Inductive step : Config -> Config -> Prop :=
  | w_begin m ws r t h i op : ws !! i = Some Idle -> is_operation op ->
      step (mkConfig m ws r t h)
        (mkConfig (bump_sequence m) (<[i := Writing op op]> ws) r (t + 1) h)
  | w_add m ws r t h i op w v rest : ws !! i = Some (Writing op ((w, v) :: rest)) ->
      step (mkConfig m ws r t h)
        (mkConfig (add_word w v m) (<[i := Writing op rest]> ws) r t h)
  | w_end m ws r t h i op : ws !! i = Some (Writing op []) ->
      step (mkConfig m ws r t h)
        (mkConfig (bump_sequence m) (<[i := Idle]> ws) r (t + 1) (h ++ [op]))
  | r_spin m ws t h : sequence m mod 2 = 1 ->
      step (mkConfig m ws Start t h) (mkConfig m ws Start t h)
  | r_begin m ws t h : sequence m mod 2 = 0 ->
      step (mkConfig m ws Start t h) (mkConfig m ws (Reading (sequence m) [] load_order) t h)
  | r_load m ws t h s got w todo :
      step (mkConfig m ws (Reading s got (w :: todo)) t h)
        (mkConfig m ws (Reading s (got ++ [(w, words m w)]) todo) t h)
  | r_retry m ws t h s got : sequence m <> s ->
      step (mkConfig m ws (Reading s got []) t h) (mkConfig m ws Start t h)
  | r_done m ws t h s got : sequence m = s ->
      step (mkConfig m ws (Reading s got []) t h) (mkConfig m ws (Done got) t h).

Definition config_start (m : AtomicInfo) (threads : nat) : Config :=
  mkConfig m (replicate threads Idle) Start 0 [].

(** What a reader that reads all words at one instant gets. *)
Definition snapshot (m : Word -> Z) : list (Word * Z) := (fun w => (w, m w)) <$> load_order.

(** The [Info] the reader makes of the words it has read, with its final check. *)
Fixpoint lookup_word (got : list (Word * Z)) (w : Word) : Z :=
  match got with
  | [] => 0
  | (w', v) :: got => if decide (w' = w) then v else lookup_word got w
  end.
Definition loaded (got : list (Word * Z)) : outcome Info := checked_info (info_of (lookup_word got)).

(** ** The consistency check *)

(** What [Info::is_valid] tests, as a proposition. *)
Definition counter_ok (c : Counter) : Prop :=
  0 <= negative c <= positive c /\ positive c < USIZE_MODULUS.
Definition info_ok (i : Info) : Prop :=
  counter_ok (allocated i) /\ counter_ok (allocations i) /\
  counter_ok (pages i) /\ counter_ok (requested i).
Definition net (c : Counter) : Z := positive c - negative c.
Definition consistent (i : Info) : Prop :=
  net (requested i) <= net (allocated i) /\
  negative (requested i) <= negative (allocated i) /\
  net (allocated i) <= net (pages i) * L0_SIZE.
Definition words_ok (i : Info) : Prop :=
  Forall (fun c => is_usize (negative c) /\ is_usize (positive c))
    [allocated i; allocations i; pages i; requested i].

Lemma words_ok_iff i : words_ok i <->
  (is_usize (negative (allocated i)) /\ is_usize (positive (allocated i))) /\
  (is_usize (negative (allocations i)) /\ is_usize (positive (allocations i))) /\
  (is_usize (negative (pages i)) /\ is_usize (positive (pages i))) /\
  is_usize (negative (requested i)) /\ is_usize (positive (requested i)).
Proof. unfold words_ok. rewrite !Forall_cons, Forall_nil. tauto. Qed.

Lemma balance_spec c :
  is_usize (negative c) -> is_usize (positive c) ->
  balance c = if counter_is_valid c then Ok (net c) else Panic.
Proof.
  intros. unfold balance, checked_sub, counter_is_valid, net, fits_usize, is_usize in *.
  repeat case_match; cbn; try reflexivity; lia.
Qed.

(** The check agrees with the proposition whenever the pages counted fit into the
    address space. *)
Lemma info_is_valid_spec i :
  words_ok i -> net (pages i) * L0_SIZE < USIZE_MODULUS ->
  exists b, info_is_valid i = Ok b /\ (b = true <-> info_ok i /\ consistent i).
Proof.
  intros Hw Hp. apply words_ok_iff in Hw as ((? & ?) & (? & ?) & (? & ?) & ? & ?).
  unfold info_is_valid. rewrite !balance_spec by done.
  unfold info_ok, consistent, counter_ok, counter_is_valid, net, usize_mul, fits_usize, is_usize in *.
  change L0_SIZE with 4096 in *.
  destruct (negative (allocated i) <=? positive (allocated i)) eqn:?; cbn [andb];
    [|eexists; split; [reflexivity|lia]].
  destruct (negative (allocations i) <=? positive (allocations i)) eqn:?; cbn [andb];
    [|eexists; split; [reflexivity|lia]].
  destruct (negative (pages i) <=? positive (pages i)) eqn:?; cbn [andb];
    [|eexists; split; [reflexivity|lia]].
  destruct (negative (requested i) <=? positive (requested i)) eqn:?; cbn [andb];
    [|eexists; split; [reflexivity|lia]].
  repeat case_match; simplify_eq; try lia; (eexists; split; [reflexivity|lia]).
Qed.

(** ** Statistics count the live blocks

    A live block is its requested and its real size.  [tracks i live held] says that the
    balances of [i] describe the live blocks and [held] pages. *)
Definition total (f : Z * Z -> Z) (live : list (Z * Z)) : Z := foldr (fun b acc => f b + acc) 0 live.

Record tracks (i : Info) (live : list (Z * Z)) (held : Z) : Prop := {
  tracks_words : words_ok i;
  tracks_requested : net (requested i) = total fst live;
  tracks_allocated : net (allocated i) = total snd live;
  tracks_allocations : net (allocations i) = Z.of_nat (length live);
  tracks_pages : net (pages i) = held;
  tracks_released : negative (requested i) <= negative (allocated i);
  tracks_blocks : Forall (fun b => 0 <= b.1 <= b.2) live;
}.

Lemma total_cons f b l : total f (b :: l) = f b + total f l.
Proof. reflexivity. Qed.
Lemma total_app f l k : total f (l ++ k) = total f l + total f k.
Proof. induction l as [|b l IH]; [reflexivity|]. cbn [app]. rewrite !total_cons. lia. Qed.

Lemma total_perm f l k : l ≡ₚ k -> total f l = total f k.
Proof. induction 1 as [|b l k _ IH|b b' l|l k m _ IH1 _ IH2]; rewrite ?total_cons; lia. Qed.

Lemma total_le live :
  Forall (fun b => 0 <= b.1 <= b.2) live -> 0 <= total fst live <= total snd live.
Proof. induction 1 as [|b l Hb _ IH]; [cbn; lia|]. rewrite !total_cons. lia. Qed.

Lemma tracks_start : tracks info_new [] 0.
Proof.
  split; try reflexivity; [|constructor].
  unfold words_ok, is_usize. repeat constructor; cbn; lia.
Qed.

(** A counter that describes [n] more, or [n] less. *)
Lemma increase_spec c v :
  is_usize (negative c) -> is_usize (positive c) -> 0 <= v -> positive c + v < USIZE_MODULUS ->
  increase c v = Ok (mkCounter (negative c) (positive c + v)).
Proof. intros. unfold increase. by rewrite usize_add_ok by (unfold is_usize in *; lia). Qed.
Lemma decrease_spec c v :
  is_usize (negative c) -> is_usize (positive c) -> 0 <= v <= net c ->
  decrease c v = Ok (mkCounter (negative c + v) (positive c)).
Proof. intros. unfold decrease. by rewrite usize_add_ok by (unfold is_usize, net in *; lia). Qed.

Definition room (i : Info) (r a p : Z) : Prop :=
  positive (requested i) + r < USIZE_MODULUS /\ positive (allocated i) + a < USIZE_MODULUS /\
  positive (allocations i) + 1 < USIZE_MODULUS /\ positive (pages i) + p < USIZE_MODULUS.

Ltac split_tracks H :=
  destruct H as [Hwords Hreq Hall Hcnt Hpg Hrel Hblocks];
  apply words_ok_iff in Hwords as ((? & ?) & (? & ?) & (? & ?) & ? & ?).

Ltac close_tracks :=
  split; unfold words_ok; cbn [allocated allocations pages requested];
  rewrite ?Forall_cons, ?total_app, ?total_cons; unfold net, is_usize in *;
  cbn [negative positive fst snd length] in *; rewrite ?length_app in *; cbn [length] in *;
  repeat split; auto; lia.

Lemma allocation_tracks i live held r a p :
  tracks i live held -> 0 <= r <= a -> 0 <= p -> room i r a p ->
  exists i', allocation i r a p = Ok i' /\ tracks i' ((r, a) :: live) (held + p).
Proof.
  intros Hi Hr Hp (? & ? & ? & ?). split_tracks Hi. unfold allocation.
  rewrite !increase_spec by (assumption || lia).
  eexists. split; [reflexivity|]. close_tracks.
Qed.

Lemma deallocation_tracks i live live' held r a p :
  tracks i live held -> live ≡ₚ (r, a) :: live' -> 0 <= p <= held ->
  exists i', deallocation i r a p = Ok i' /\ tracks i' live' (held - p).
Proof.
  intros Hi Hlive Hp. split_tracks Hi. unfold deallocation.
  rewrite (total_perm _ _ _ Hlive), total_cons in Hreq.
  rewrite (total_perm _ _ _ Hlive), total_cons in Hall. rewrite Hlive in Hcnt, Hblocks.
  apply Forall_cons in Hblocks as [Hb Hblocks]. pose proof (total_le _ Hblocks).
  cbn [fst snd length] in *.
  rewrite !decrease_spec by (assumption || lia).
  eexists. split; [reflexivity|]. close_tracks.
Qed.

Lemma pages_allocation_tracks i live held p :
  tracks i live held -> 0 <= p -> positive (pages i) + p < USIZE_MODULUS ->
  exists i', pages_allocation i p = Ok i' /\ tracks i' live (held + p).
Proof.
  intros Hi Hp Hroom. split_tracks Hi. unfold pages_allocation.
  rewrite increase_spec by (assumption || lia).
  eexists. split; [reflexivity|]. close_tracks.
Qed.

Lemma pages_deallocation_tracks i live held p :
  tracks i live held -> 0 <= p <= held ->
  exists i', pages_deallocation i p = Ok i' /\ tracks i' live (held - p).
Proof.
  intros Hi Hp. split_tracks Hi. unfold pages_deallocation.
  rewrite decrease_spec by (assumption || lia).
  eexists. split; [reflexivity|]. close_tracks.
Qed.

(** Statistics that describe live blocks within the held pages pass the check. *)
Lemma tracks_valid i live held :
  tracks i live held -> total snd live <= held * L0_SIZE < USIZE_MODULUS ->
  info_is_valid i = Ok true.
Proof.
  intros Hi Hheld. pose proof (tracks_words _ _ _ Hi) as Hw. pose proof (tracks_pages _ _ _ Hi) as Hp.
  destruct (info_is_valid_spec i Hw) as (b & -> & Hb); [rewrite Hp; lia|].
  f_equal. apply Hb. split_tracks Hi. pose proof (total_le _ Hblocks).
  unfold info_ok, consistent, counter_ok, is_usize, net in *. change L0_SIZE with 4096 in *. lia.
Qed.

(** ** The shared statistics refine the plain ones *)

(** Where the plain operation does not overflow, the additions of the shared one give
    its result. *)
Definition refines (op : writes) (f : Info -> outcome Info) : Prop := forall m i,
  f (info_of m) = Ok i -> info_of (apply_writes op m) = i.

Lemma wrapping_add_small a b : is_usize (a + b) -> wrapping_add a b = a + b.
Proof. intros. unfold wrapping_add, is_usize in *. by apply Z.mod_small. Qed.

Lemma increase_inv c v c' :
  increase c v = Ok c' -> c' = mkCounter (negative c) (wrapping_add (positive c) v) /\ is_usize (positive c + v).
Proof.
  unfold increase. intros H. destruct (usize_add _ _) as [p|e|] eqn:E; try discriminate.
  apply usize_add_inv in E as [-> ?]. injection H as <-. by rewrite wrapping_add_small.
Qed.
Lemma decrease_inv c v c' :
  decrease c v = Ok c' -> c' = mkCounter (wrapping_add (negative c) v) (positive c) /\ is_usize (negative c + v).
Proof.
  unfold decrease. intros H. destruct (usize_add _ _) as [p|e|] eqn:E; try discriminate.
  apply usize_add_inv in E as [-> ?]. injection H as <-. by rewrite wrapping_add_small.
Qed.

Ltac invert_counters :=
  repeat match goal with
  | H : match increase ?c ?v with _ => _ end = Ok _ |- _ =>
      let E := fresh "E" in destruct (increase c v) eqn:E; try discriminate H; apply increase_inv in E as [-> ?]
  | H : match decrease ?c ?v with _ => _ end = Ok _ |- _ =>
      let E := fresh "E" in destruct (decrease c v) eqn:E; try discriminate H; apply decrease_inv in E as [-> ?]
  | H : Ok _ = Ok _ |- _ => injection H as <-
  end.

Lemma apply_writes_app ops ops' m : apply_writes (ops ++ ops') m = apply_writes ops' (apply_writes ops m).
Proof. apply foldl_app. Qed.

Lemma allocation_refines r a p : 0 <= p -> refines (allocation_writes r a p) (fun i => allocation i r a p).
Proof.
  intros Hp m i H. unfold allocation in H. invert_counters. unfold allocation_writes.
  destruct (Z.ltb_spec 0 p); [reflexivity|]. assert (p = 0) as -> by lia.
  cbn [info_of pages positive negative] in *.
  rewrite (wrapping_add_small (m PagesPositive) 0), Z.add_0_r by done. reflexivity.
Qed.
Lemma deallocation_refines r a p : 0 <= p -> refines (deallocation_writes r a p) (fun i => deallocation i r a p).
Proof.
  intros Hp m i H. unfold deallocation in H. invert_counters. unfold deallocation_writes.
  destruct (Z.ltb_spec 0 p); [reflexivity|]. assert (p = 0) as -> by lia.
  cbn [info_of pages positive negative] in *.
  rewrite (wrapping_add_small (m PagesNegative) 0), Z.add_0_r by done. reflexivity.
Qed.
Lemma pages_allocation_refines p : refines (pages_allocation_writes p) (fun i => pages_allocation i p).
Proof. intros m i H. unfold pages_allocation in H. by invert_counters. Qed.
Lemma pages_deallocation_refines p : refines (pages_deallocation_writes p) (fun i => pages_deallocation i p).
Proof. intros m i H. unfold pages_deallocation in H. by invert_counters. Qed.

(** ** The sequence lock with one writer *)

Section sequence_lock.
Context (m0 : AtomicInfo) (Hm0 : sequence m0 = 0).

(** What the only writer has done to the words at any moment. *)
Definition writer_state (w : Writer) (h : list writes) (m : Word -> Z) : Prop :=
  match w with
  | Idle => m = apply_writes (concat h) (words m0)
  | Writing op rest => exists made, op = made ++ rest /\
      m = apply_writes (concat h ++ made) (words m0)
  end.

(** A reader that has loaded the sequence number at the current tick holds current words. *)
Definition reader_state (r : Reader) (m : Word -> Z) (t : Z) : Prop :=
  match r with
  | Reading s got todo => exists u, s = u mod USIZE_MODULUS /\ 0 <= u <= t /\ u mod 2 = 0 /\
      (u = t -> got ++ ((fun w => (w, m w)) <$> todo) = snapshot m)
  | _ => True
  end.

Record seq_inv (c : Config) : Prop := {
  inv_writer : exists w, writers c = [w] /\ writer_state w (finished c) (words (shared c)) /\
    (w = Idle <-> ticks c mod 2 = 0);
  inv_ticks : 0 <= ticks c /\ sequence (shared c) = ticks c mod USIZE_MODULUS;
  inv_reader : reader_state (reader c) (words (shared c)) (ticks c);
}.

Lemma seq_inv_start : seq_inv (config_start m0 1).
Proof.
  split; cbn; [|split; [lia|by rewrite Hm0]|done].
  exists Idle. repeat split.
Qed.

Lemma wrapping_succ t : wrapping_add (t mod USIZE_MODULUS) 1 = (t + 1) mod USIZE_MODULUS.
Proof. unfold wrapping_add. by rewrite Zplus_mod_idemp_l. Qed.

Lemma sequence_parity t : (t mod USIZE_MODULUS) mod 2 = t mod 2.
Proof. Z.div_mod_to_equations. lia. Qed.

Lemma single_lookup (w w' : Writer) i : [w] !! i = Some w' -> i = 0%nat /\ w = w'.
Proof. destruct i; cbn; [naive_solver|done]. Qed.

(** A reader that has not seen the current tick keeps its part of the invariant. *)
Lemma reader_late r m m' t t' :
  reader_state r m t -> t <= t' -> (t' = t -> t mod 2 = 1) -> reader_state r m' t'.
Proof.
  destruct r as [|s got todo|got]; try done. intros (u & -> & Hu & He & _) Hle Hodd.
  exists u. repeat split; try lia. intros ->. exfalso.
  assert (t' = t) as -> by lia. specialize (Hodd eq_refl). lia.
Qed.

Lemma seq_inv_step c c' : seq_inv c -> step c c' -> seq_inv c'.
Proof.
  intros [(w & Hws & Hw & Hidle) [Ht Hseq] Hr] Hstep. destruct Hstep;
    cbn [shared writers reader ticks finished] in *; subst.
  - apply single_lookup in H as [-> ->]. split; cbn [shared writers reader ticks finished].
    + exists (Writing op op). repeat split; [|done|].
      * exists []. by rewrite app_nil_r.
      * destruct Hidle as [Hidle _]. specialize (Hidle eq_refl). Z.div_mod_to_equations. lia.
    + cbn. rewrite Hseq, wrapping_succ. lia.
    + eapply reader_late; [exact Hr|lia|lia].
  - apply single_lookup in H as [-> ->]. destruct Hw as (made & -> & Hw). split; cbn [shared writers reader ticks finished].
    + exists (Writing (made ++ (w0, v) :: rest) rest). repeat split; [|done|].
      * exists (made ++ [(w0, v)]). rewrite <- app_assoc. split; [done|].
        rewrite app_assoc, apply_writes_app, <- Hw. reflexivity.
      * intros He. apply Hidle in He. done.
    + done.
    + eapply reader_late; [exact Hr|lia|]. intros _.
      destruct (decide (t mod 2 = 0)) as [He|]; [apply Hidle in He; done|].
      Z.div_mod_to_equations. lia.
  - apply single_lookup in H as [-> ->]. destruct Hw as (made & -> & Hw). split; cbn [shared writers reader ticks finished].
    + exists Idle. rewrite app_nil_r in *. repeat split.
      * cbn [writer_state bump_sequence words]. rewrite concat_app. cbn [concat]. by rewrite app_nil_r.
      * intros _. destruct (decide (t mod 2 = 0)) as [He|]; [apply Hidle in He; done|].
        Z.div_mod_to_equations. lia.
    + cbn. rewrite Hseq, wrapping_succ. lia.
    + eapply reader_late; [exact Hr|lia|lia].
  - split; cbn [shared writers reader ticks finished]; eauto.
  - split; cbn [shared writers reader ticks finished]; eauto. rewrite Hseq, sequence_parity in H.
    exists t. repeat split; auto; lia.
  - split; cbn [shared writers reader ticks finished]; eauto. destruct Hr as (u & -> & Hu & He & Hgot).
    exists u. repeat split; auto; try lia. intros ->. rewrite <- app_assoc. by apply Hgot.
  - split; cbn [shared writers reader ticks finished]; eauto. exact I.
  - split; cbn [shared writers reader ticks finished]; eauto. exact I.
Qed.

Lemma seq_inv_steps c c' : seq_inv c -> rtc step c c' -> seq_inv c'.
Proof. intros Hc Hsteps. induction Hsteps; eauto using seq_inv_step. Qed.

(** The reader's last check succeeds at an instant at which it holds the words of that
    instant and nobody writes. *)
Lemma reader_done c c' got :
  seq_inv c -> step c c' -> ticks c < USIZE_MODULUS -> reader c <> Done got -> reader c' = Done got ->
  writers c = [Idle] /\ got = snapshot (words (shared c)) /\
  words (shared c) = apply_writes (concat (finished c)) (words m0).
Proof.
  intros [(w & Hws & Hw & Hidle) [Ht Hseq] Hr] Hstep Hbound Hnot Hdone.
  destruct Hstep; cbn in *; simplify_eq.
  destruct Hr as (u & Hu & Hle & He & Hgot).
  assert (u = t) as -> by (rewrite Hseq, !Z.mod_small in Hu; lia).
  apply Hidle in He as ->. cbn in Hw. rewrite <- Hgot by done. by rewrite app_nil_r.
Qed.

Lemma step_ticks c c' : step c c' -> ticks c <= ticks c'.
Proof. destruct 1; cbn; lia. Qed.

(** A run that ends with the reader outside its loop has passed the check. *)
Lemma done_split c c' got :
  rtc step c c' -> reader c <> Done got -> reader c' = Done got ->
  exists mid next, rtc step c mid /\ step mid next /\ rtc step next c' /\
    reader mid <> Done got /\ reader next = Done got.
Proof.
  induction 1 as [c|c d e Hstep Hrest IH]; intros Hnot Hdone; [done|].
  destruct (decide (reader d = Done got)) as [Hd|Hd].
  - exists c, d. repeat split; auto using rtc_refl.
  - destruct (IH Hd Hdone) as (mid & next & ? & ? & ? & ? & ?).
    exists mid, next. repeat split; eauto using rtc_l.
Qed.

Lemma steps_ticks c c' : rtc step c c' -> ticks c <= ticks c'.
Proof. induction 1 as [|c d e Hs _ IH]; [lia|]. apply step_ticks in Hs. lia. Qed.

Lemma load_linearizable_spec c got :
  rtc step (config_start m0 1) c -> ticks c < USIZE_MODULUS -> reader c = Done got ->
  exists mid, rtc step (config_start m0 1) mid /\ rtc step mid c /\
    writers mid = [Idle] /\ got = snapshot (words (shared mid)) /\
    words (shared mid) = apply_writes (concat (finished mid)) (words m0) /\
    (exists s, reader mid = Reading s got []).
Proof.
  intros Hrun Hbound Hdone.
  destruct (done_split _ _ got Hrun) as (mid & next & Hto & Hstep & Hfrom & Hnot & Hnext); [done..|].
  pose proof (seq_inv_steps _ _ seq_inv_start Hto) as Hinv.
  pose proof (steps_ticks _ _ Hfrom). pose proof (step_ticks _ _ Hstep).
  destruct (reader_done _ _ got Hinv Hstep) as (? & ? & ?); [lia|done|done|].
  exists mid. repeat split; eauto using rtc_l.
  destruct Hstep; cbn in *; simplify_eq; eauto.
Qed.
End sequence_lock.

(** ** What a reader learns about the live blocks *)

(** Sequences of whole operations that allocate and release blocks and pages, with the
    blocks and pages that are live after them.  The pages cover the blocks after each
    operation. *)
Inductive history : list writes -> list (Z * Z) -> Z -> Prop :=
  | hist_nil : history [] [] 0
  | hist_allocation h live held r a p :
      history h live held -> 0 <= r <= a -> 0 <= p -> total snd live + a <= (held + p) * L0_SIZE ->
      history (h ++ [allocation_writes r a p]) ((r, a) :: live) (held + p)
  | hist_deallocation h live live' held r a p :
      history h live held -> live ≡ₚ (r, a) :: live' -> 0 <= p <= held ->
      total snd live' <= (held - p) * L0_SIZE ->
      history (h ++ [deallocation_writes r a p]) live' (held - p)
  | hist_pages_allocation h live held p :
      history h live held -> 0 <= p ->
      history (h ++ [pages_allocation_writes p]) live (held + p)
  | hist_pages_deallocation h live held p :
      history h live held -> 0 <= p <= held -> total snd live <= (held - p) * L0_SIZE ->
      history (h ++ [pages_deallocation_writes p]) live (held - p).

(** The amount a sequence of additions adds to a word. *)
Definition volume (ws : writes) (w : Word) : Z :=
  foldr (fun write acc => (if decide (w = write.1) then write.2 else 0) + acc) 0 ws.

Lemma volume_app ws ws' w : volume (ws ++ ws') w = volume ws w + volume ws' w.
Proof. induction ws as [|x ws IH]; [done|]. cbn [app volume foldr] in *. unfold volume in *. lia. Qed.

Lemma apply_writes_volume ws m w :
  apply_writes ws m w mod USIZE_MODULUS = (m w + volume ws w) mod USIZE_MODULUS.
Proof.
  revert m. induction ws as [|[w' v] ws IH]; intros m; cbn [apply_writes foldl volume foldr fst snd].
  { by rewrite Z.add_0_r. }
  unfold apply_writes in IH. rewrite IH. unfold fetch_add at 1, wrapping_add.
  fold (volume ws w). destruct (decide (w = w')) as [->|]; [|done].
  rewrite Zplus_mod_idemp_l. f_equal. lia.
Qed.

Definition volume_of (ap an cp cn pp pn rp rn : Z) (w : Word) : Z :=
  match w with
  | AllocatedPositive => ap | AllocatedNegative => an
  | AllocationsPositive => cp | AllocationsNegative => cn
  | PagesPositive => pp | PagesNegative => pn
  | RequestedPositive => rp | RequestedNegative => rn
  end.

Ltac compute_volume := cbn; repeat case_decide; try discriminate; try congruence; lia.

Lemma allocation_volume r a p w : 0 <= p ->
  volume (allocation_writes r a p) w = volume_of a 0 1 0 p 0 r 0 w.
Proof. intros. unfold allocation_writes. destruct (Z.ltb_spec 0 p), w; compute_volume. Qed.
Lemma deallocation_volume r a p w : 0 <= p ->
  volume (deallocation_writes r a p) w = volume_of 0 a 0 1 0 p 0 r w.
Proof. intros. unfold deallocation_writes. destruct (Z.ltb_spec 0 p), w; compute_volume. Qed.
Lemma pages_allocation_volume p w : volume (pages_allocation_writes p) w = volume_of 0 0 0 0 p 0 0 0 w.
Proof. destruct w; compute_volume. Qed.
Lemma pages_deallocation_volume p w : volume (pages_deallocation_writes p) w = volume_of 0 0 0 0 0 p 0 0 w.
Proof. destruct w; compute_volume. Qed.

Lemma volume_snoc h op w : volume (concat (h ++ [op])) w = volume (concat h) w + volume op w.
Proof. rewrite concat_app, volume_app. cbn [concat]. by rewrite app_nil_r. Qed.

(** The live blocks are the balances of the volumes. *)
Record balanced (v : Word -> Z) (live : list (Z * Z)) (held : Z) : Prop := {
  bal_nonneg : forall w, 0 <= v w;
  bal_requested : v RequestedPositive - v RequestedNegative = total fst live;
  bal_allocated : v AllocatedPositive - v AllocatedNegative = total snd live;
  bal_allocations : v AllocationsPositive - v AllocationsNegative = Z.of_nat (length live);
  bal_pages : v PagesPositive - v PagesNegative = held;
  bal_released : v RequestedNegative <= v AllocatedNegative;
  bal_blocks : Forall (fun b => 0 <= b.1 <= b.2) live;
  bal_covered : total snd live <= held * L0_SIZE;
}.

Ltac close_balanced :=
  split; rewrite ?volume_snoc, ?total_cons, ?Forall_cons;
  rewrite ?allocation_volume, ?deallocation_volume, ?pages_allocation_volume, ?pages_deallocation_volume by lia;
  cbn [volume_of fst snd length] in *;
  repeat match goal with |- forall w, _ => intros w; rewrite ?volume_snoc end;
  rewrite ?allocation_volume, ?deallocation_volume, ?pages_allocation_volume, ?pages_deallocation_volume by lia;
  try match goal with |- 0 <= _ + volume_of _ _ _ _ _ _ _ _ ?w =>
    apply Z.add_nonneg_nonneg; [auto|destruct w; cbn [volume_of]] end;
  auto; try lia.

Lemma history_balanced h live held : history h live held -> balanced (volume (concat h)) live held.
Proof.
  induction 1 as [|h live held r a p _ [? ? ? ? ? ? ? ?] ? ? ?
    |h live live' held r a p _ [? Hr Ha Hc ? ? Hb ?] Hperm ? ?
    |h live held p _ [? ? ? ? ? ? ? ?] ?|h live held p _ [? ? ? ? ? ? ? ?] ? ?].
  - split; cbn; try lia; done.
  - close_balanced.
  - rewrite (total_perm _ _ _ Hperm), total_cons in Hr. rewrite (total_perm _ _ _ Hperm), total_cons in Ha.
    rewrite Hperm in Hc, Hb. apply Forall_cons in Hb as [Hb Hbs]. pose proof (total_le _ Hbs).
    close_balanced.
  - close_balanced. change L0_SIZE with 4096 in *. lia.
  - close_balanced.
Qed.

Lemma apply_writes_word ws m : (forall w, is_usize (m w)) -> forall w, is_usize (apply_writes ws m w).
Proof.
  revert m. induction ws as [|[w' v] ws IH]; intros m Hm; [exact Hm|].
  apply IH. intros w. cbn. unfold fetch_add. case_decide; [|apply Hm].
  unfold wrapping_add, is_usize. by apply Z.mod_pos_bound.
Qed.

Lemma apply_writes_exact ws w :
  0 <= volume ws w < USIZE_MODULUS -> apply_writes ws (fun _ => 0) w = volume ws w.
Proof.
  intros Hv. pose proof (apply_writes_volume ws (fun _ => 0) w) as H.
  rewrite Z.add_0_l, (Z.mod_small (volume ws w)) in H by done.
  rewrite <- H. symmetry. apply Z.mod_small. apply apply_writes_word.
  intros ?. unfold is_usize. lia.
Qed.

(** Once the volumes fit into words, the words describe the live blocks and pass the
    final check of [load]. *)
Lemma history_load h live held :
  history h live held -> (forall w, volume (concat h) w < USIZE_MODULUS) -> held * L0_SIZE < USIZE_MODULUS ->
  let i := info_of (apply_writes (concat h) (fun _ => 0)) in
  checked_info i = Ok i /\ tracks i live held.
Proof.
  intros Hh Hv Hheld i. destruct (history_balanced _ _ _ Hh) as [Hpos Hr Ha Hc Hp Hrel Hb Hcov].
  assert (Hi : tracks i live held).
  { split; unfold words_ok; subst i; cbn [info_of allocated allocations pages requested];
      rewrite ?Forall_cons; unfold net, is_usize; cbn [negative positive];
      rewrite ?apply_writes_exact by auto; auto.
    repeat split; auto. }
  split; [|exact Hi]. unfold checked_info. by rewrite (tracks_valid _ _ _ Hi) by lia.
Qed.

Lemma prefix_snoc_cases {A} (k h : list A) x : k `prefix_of` h ++ [x] -> k = h ++ [x] \/ k `prefix_of` h.
Proof.
  intros [z Hz]. destruct z as [|y z _] using rev_ind.
  - left. by rewrite app_nil_r in Hz.
  - right. rewrite app_assoc in Hz. apply app_inj_tail in Hz as [-> _]. by eexists.
Qed.

Lemma history_prefix h live held k :
  history h live held -> k `prefix_of` h -> exists live' held', history k live' held'.
Proof.
  induction 1 as [|h live held r a p Hh IH|h live live' held r a p Hh IH|h live held p Hh IH|h live held p Hh IH];
    intros Hk.
  { apply prefix_nil_inv in Hk as ->. eauto using hist_nil. }
  all: apply prefix_snoc_cases in Hk as [->|Hk]; eauto using history.
Qed.

Lemma history_nonneg h live held : history h live held -> Forall (fun write => 0 <= write.2) (concat h).
Proof.
  assert (Hlive : forall h live live' held r a, history h live held -> live ≡ₚ (r, a) :: live' -> 0 <= r <= a).
  { intros k l l' n r a Hk Hl. pose proof (history_balanced _ _ _ Hk) as [_ _ _ _ _ _ Hb _].
    rewrite Hl in Hb. by apply Forall_cons in Hb as [Hb _]. }
  induction 1; [constructor|..]; rewrite concat_app; apply Forall_app_2; try done; cbn [concat];
    rewrite app_nil_r; try (pose proof (Hlive _ _ _ _ _ _ H H0));
    unfold allocation_writes, deallocation_writes; try case_match;
    repeat constructor; cbn; lia.
Qed.

Lemma volume_nonneg ws w : Forall (fun write => 0 <= write.2) ws -> 0 <= volume ws w.
Proof. induction 1; cbn; [lia|]. fold (volume l w). case_decide; lia. Qed.

Lemma volume_prefix h k live held w :
  history h live held -> k `prefix_of` h -> volume (concat k) w <= volume (concat h) w.
Proof.
  intros Hh [z ->]. apply history_nonneg in Hh. rewrite concat_app in *.
  apply Forall_app in Hh as [_ Hz]. rewrite volume_app. pose proof (volume_nonneg _ w Hz). lia.
Qed.

Lemma step_finished c c' : step c c' -> finished c `prefix_of` finished c'.
Proof. destruct 1; cbn; try reflexivity. by eexists. Qed.
Lemma steps_finished c c' : rtc step c c' -> finished c `prefix_of` finished c'.
Proof. induction 1 as [|c d e Hs _ IH]; [reflexivity|]. etrans; [apply step_finished, Hs|exact IH]. Qed.

Lemma loaded_snapshot m : loaded (snapshot m) = checked_info (info_of m).
Proof. reflexivity. Qed.

(** C32. A reader of shared statistics runs beside one writer whose finished operations
    allocate and release blocks and pages.  If the sequence number has not gone all the
    way round, a reader that has left its loop holds the words of one instant
    during its read at which the writer was between two operations, its final check
    does not panic, and the statistics it returns describe exactly the blocks and
    pages that were live at that instant. *)
Theorem load_linearizable c got live held :
  rtc step (config_start atomic_info_new 1) c -> reader c = Done got ->
  ticks c < USIZE_MODULUS -> history (finished c) live held ->
  (forall w, volume (concat (finished c)) w < USIZE_MODULUS) ->
  volume (concat (finished c)) PagesPositive * L0_SIZE < USIZE_MODULUS ->
  exists mid s live' held' i,
    rtc step (config_start atomic_info_new 1) mid /\ rtc step mid c /\
    writers mid = [Idle] /\ reader mid = Reading s got [] /\
    history (finished mid) live' held' /\ loaded got = Ok i /\ tracks i live' held'.
Proof.
  intros Hrun Hdone Hticks Hh Hv Hp.
  destruct (load_linearizable_spec atomic_info_new eq_refl c got)
    as (mid & Hto & Hfrom & Hidle & Hgot & Hwords & s & Hmid); [done..|].
  pose proof (steps_finished _ _ Hfrom) as Hpre.
  destruct (history_prefix _ _ _ _ Hh Hpre) as (live' & held' & Hh').
  pose proof (fun w => volume_prefix _ _ _ _ w Hh Hpre) as Hle.
  destruct (history_balanced _ _ _ Hh') as [Hpos _ _ _ Hheld _ _ _].
  destruct (history_load _ _ _ Hh') as [Hload Htracks].
  { intros w. specialize (Hv w). specialize (Hle w). lia. }
  { specialize (Hle PagesPositive). specialize (Hpos PagesNegative).
    change L0_SIZE with 4096 in *. lia. }
  eexists mid, s, live', held', _. repeat split; try done; try apply Htracks.
  rewrite Hgot, loaded_snapshot, Hwords. exact Hload.
Qed.

(** One writer that allocates a block, then a reader. *)
Definition one_write : list writes := [allocation_writes 5 8 1].
Definition one_write_done : Config :=
  let m := write_all (concat one_write) atomic_info_new in
  mkConfig m [Idle] (Done (snapshot (words m))) 2 one_write.

Ltac next_write := eapply rtc_l; [eapply (w_add _ _ _ _ _ 0%nat); reflexivity|].
Ltac next_load := eapply rtc_l; [apply r_load|].

Lemma one_write_run : rtc step (config_start atomic_info_new 1) one_write_done.
Proof.
  eapply rtc_l; [eapply (w_begin _ _ _ _ _ 0%nat (allocation_writes 5 8 1)); [reflexivity|constructor]|].
  do 4 next_write.
  eapply rtc_l; [eapply (w_end _ _ _ _ _ 0%nat); reflexivity|].
  eapply rtc_l; [apply r_begin; reflexivity|].
  do 8 next_load.
  eapply rtc_l; [apply r_done; reflexivity|].
  apply rtc_refl.
Qed.

Lemma one_write_history : history one_write [(5, 8)] 1.
Proof.
  apply (hist_allocation [] [] 0 5 8 1); [constructor|lia|lia|].
  change L0_SIZE with 4096. cbn. lia.
Qed.

Lemma load_linearizable_witness :
  exists mid s live' held' i,
    rtc step (config_start atomic_info_new 1) mid /\ rtc step mid one_write_done /\
    writers mid = [Idle] /\
    reader mid = Reading s (snapshot (words (write_all (concat one_write) atomic_info_new))) [] /\
    history (finished mid) live' held' /\
    loaded (snapshot (words (write_all (concat one_write) atomic_info_new))) = Ok i /\ tracks i live' held'.
Proof.
  apply (load_linearizable one_write_done _ [(5, 8)] 1 one_write_run).
  - reflexivity.
  - reflexivity.
  - exact one_write_history.
  - intros []; vm_compute; reflexivity.
  - vm_compute. reflexivity.
Defined.

(** With two writers the protection fails: their two additions make the sequence number
    even while both are writing.  There is a run of an allocation and a page allocation
    in which a reader leaves its loop with words of no single instant and
    panics in its final check, although [load] succeeds after either operation, after
    both, and before them. *)
Theorem two_writers_torn :
  exists op op' c got,
    is_operation op /\ is_operation op' /\
    Forall (fun h => is_ok (load (mkAtomicInfo (apply_writes (concat h) (words atomic_info_new)) 0)) = true)
      [[]; [op]; [op']; [op; op']; [op'; op]] /\
    rtc step (config_start atomic_info_new 2) c /\ finished c = [] /\
    reader c = Done got /\ loaded got = Panic.
Proof.
  exists (allocation_writes 8 8 1), (pages_allocation_writes 1).
  eexists _, _. split; [constructor|]. split; [constructor|].
  split; [repeat constructor; vm_compute; reflexivity|].
  split; [|split; [|split]].
  - eapply rtc_l; [eapply (w_begin _ _ _ _ _ 0%nat (allocation_writes 8 8 1)); [reflexivity|constructor]|].
    next_write.
    eapply rtc_l; [eapply (w_begin _ _ _ _ _ 1%nat (pages_allocation_writes 1)); [reflexivity|constructor]|].
    eapply rtc_l; [apply r_begin; reflexivity|].
    do 8 next_load.
    eapply rtc_l; [apply r_done; reflexivity|].
    apply rtc_refl.
  - reflexivity.
  - reflexivity.
  - vm_compute. reflexivity.
Qed.
