(* ===== verification/FixedSize.v ===== *)
(** * FixedSize: allocators of blocks of one size

    Models [ku/src/allocator/fixed_size.rs] and the clips of
    [ku/src/allocator/cache.rs]: a bitmap of the blocks in use over a quarry of memory,
    and the caches of blocks that are filled from it.  A pointer is its address. *)

From Stdlib Require Import ZArith Lia.
From stdpp Require Import base list numbers tactics.
From S2P Require Import Prelude Addr Frage Block Mmu PageAllocator BigAllocator.
From S2P Require Import AllocInfo Bitmap Bump DynamicBitmap Quarry.

Open Scope Z_scope.
Open Scope outcome_scope.

(** ** Clips *)

(** [heapless::Vec<*mut u8, CLIP_SIZE>], and the size of [heapless::Vec<*mut u8, 0>] in
    bytes.  [push] returns the element that did not fit. *)
Class HeaplessVec (V : Type) := {
  vec_empty_size : Z;
  vec_new : V;
  vec_len : V -> Z;
  vec_capacity : V -> Z;
  vec_push : Z -> V -> V * option Z;
  vec_push_unchecked : Z -> V -> V;
  vec_pop : V -> V * option Z;
}.

(** The minimal size and alignment of blocks: that of a [u64]. *)
Definition MIN_SIZE : Z := 8.

Definition POINTER_SIZE : Z := 8.
(** The size of an [Info]: eight words. *)
Definition INFO_SIZE : Z := 64.
Definition CLIP_METADATA_SIZE (V : Type) `{HeaplessVec V} : Z := vec_empty_size + POINTER_SIZE + INFO_SIZE.
Definition CLIP_SIZE (V : Type) `{HeaplessVec V} : Z := 32 - div_ceil (CLIP_METADATA_SIZE V) POINTER_SIZE.

(** The owner of a clip is the address of the lock of its allocator. *)
Record Clip (V : Type) := mkClip {
  allocations : V;
  allocation_owner : option Z;
  clip_info : Info;
}.
Arguments mkClip {V}.
Arguments allocations {V}.
Arguments allocation_owner {V}.
Arguments clip_info {V}.

Section Clips.
  Context {V : Type} `{HeaplessVec V}.

Definition clip_new : Clip V := mkClip vec_new None info_new.
Definition clip_len (c : Clip V) : Z := vec_len (allocations c).
Definition clip_is_empty (c : Clip V) : bool := clip_len c =? 0.
Definition clip_capacity (c : Clip V) : Z := vec_capacity (allocations c).
Definition is_bound (c : Clip V) : bool := bool_decide (is_Some (allocation_owner c)).

Definition bind_unchecked (owner : Z) : M (Clip V) unit := fun c =>
  if clip_is_empty c || bool_decide (allocation_owner c = Some owner)
  then (mkClip (allocations c) (Some owner) (clip_info c), Ok tt)
  else (c, Panic).
Definition bind (owner : Z) : M (Clip V) unit :=
  let! c := getM in
  if clip_is_empty c then bind_unchecked owner else liftM Panic.

Definition clip_push (ptr : Z) : M (Clip V) (option Z) := fun c =>
  if is_bound c then
    let '(v, rejected) := vec_push ptr (allocations c) in
    (mkClip v (allocation_owner c) (clip_info c), Ok rejected)
  else (c, Panic).
Definition clip_push_unchecked (ptr : Z) : M (Clip V) unit := fun c =>
  (mkClip (vec_push_unchecked ptr (allocations c)) (allocation_owner c) (clip_info c), Ok tt).
Definition clip_pop : M (Clip V) (option Z) := fun c =>
  let '(v, ptr) := vec_pop (allocations c) in
  (mkClip v (allocation_owner c) (clip_info c), Ok ptr).

End Clips.

(** ** The allocator *)

Record FixedSizeAllocator := mkFixed {
  fs_bitmap : DynamicBitmap;
  fs_info : Info;
  fs_quarry : option Quarry;
}.

Definition fixed_new : FixedSizeAllocator := mkFixed dynamic_bitmap_new info_new None.

Definition BITMAP_GUARD_ZONE_PAGE_COUNT : Z := 1.

(** [is_empty] of the allocator: no block is free. *)
Definition fixed_is_empty (f : FixedSizeAllocator) : bool := free (db_bitmap (fs_bitmap f)) =? 0.

(** [quarry]: the quarry must be there. *)
Definition quarry_of (f : FixedSizeAllocator) : outcome Quarry := unwrap_some (fs_quarry f).

Definition validate_layout (f : FixedSizeAllocator) (layout : Layout) : outcome unit :=
  let? q := quarry_of f in
  assert! layout_size layout <=? q_size q in
  assert! q_size q mod layout_align layout =? 0 in
  Ok tt.

(** An operation on the bitmap inside the dynamic bitmap, and a change of the statistics. *)
Definition with_bitmap {A} (op : Bitmap -> outcome (Bitmap * A)) : M FixedSizeAllocator A := fun f =>
  let d := fs_bitmap f in
  match op (db_bitmap d) with
  | Ok (b, a) => (mkFixed (mkDynamicBitmap b (guard_zone_page_count d) (db_pages d)) (fs_info f) (fs_quarry f), Ok a)
  | Err e => (f, Err e)
  | Panic => (f, Panic)
  end.
Definition update_info (op : Info -> outcome Info) : M FixedSizeAllocator unit := fun f =>
  match op (fs_info f) with
  | Ok i => (mkFixed (fs_bitmap f) i (fs_quarry f), Ok tt)
  | Err e => (f, Err e)
  | Panic => (f, Panic)
  end.
Definition free_number (number : Z) : M FixedSizeAllocator unit :=
  with_bitmap (fun b => let? b := set_free b number in Ok (b, tt)).

Definition fixed_allocate (layout : Layout) : M FixedSizeAllocator Z :=
  let! f := getM in
  let! _ := liftM (validate_layout f layout) in
  let! number := with_bitmap allocate in
  match number with
  | Some number =>
      let! q := liftM (quarry_of f) in
      let! address := liftM (allocation q number) in
      if address =? 0 then let! _ := free_number number in retM 0
      else retM address
  | None => retM 0
  end.

Definition deallocate_impl (ptr : Z) : M FixedSizeAllocator unit :=
  let! _ := liftM (assert! negb (ptr =? 0) in Ok tt) in
  let! f := getM in
  let! q := liftM (quarry_of f) in
  let! found := liftM (allocation_index q ptr) in
  let! number := liftM (unwrap_some found) in
  let! unused := liftM (is_free (db_bitmap (fs_bitmap f)) number) in
  let! _ := liftM (assert! negb unused in Ok tt) in
  free_number number.

Definition fixed_deallocate (ptr : Z) (layout : Layout) : M FixedSizeAllocator unit :=
  let! _ := liftM (assert! negb (ptr =? 0) in Ok tt) in
  let! f := getM in
  let! _ := liftM (validate_layout f layout) in
  deallocate_impl ptr.

(** ** Filling and emptying clips *)

Section Filling.
  Context {V : Type} `{HeaplessVec V}.

Definition fill_one (number : Z) : M (FixedSizeAllocator * Clip V) unit :=
  let! f := on_fst getM in
  let! q := liftM (quarry_of f) in
  let! address := liftM (allocation q number) in
  if address =? 0 then on_fst (free_number number)
  else on_snd (clip_push_unchecked address).

(** [allocator_lock] is the address of the lock of this allocator. *)
Definition fill_clip (len allocator_lock : Z) : M (FixedSizeAllocator * Clip V) unit :=
  let! clip := on_snd getM in
  let count := saturating_sub len (clip_len clip) in
  if count =? 0 then retM tt
  else
    let! _ :=
      (if negb (is_bound clip) && (0 <? clip_capacity clip)
       then on_snd (bind_unchecked allocator_lock) else retM tt) in
    let! numbers := on_fst (with_bitmap (fun b => bulk_allocate (CLIP_SIZE V) b count)) in
    for_list fill_one numbers.

(** The loop takes one block per iteration, so that the number of blocks in the clip is
    fuel enough. *)
Fixpoint unfill_loop (fuel : nat) (len : Z) : M (FixedSizeAllocator * Clip V) unit :=
  match fuel with
  | O => retM tt
  | S fuel =>
      let! clip := on_snd getM in
      if len <? clip_len clip then
        let! ptr := on_snd clip_pop in
        match ptr with
        | Some ptr => let! _ := on_fst (deallocate_impl ptr) in unfill_loop fuel len
        | None => retM tt
        end
      else retM tt
  end.
Definition unfill_clip (len : Z) : M (FixedSizeAllocator * Clip V) unit :=
  let! clip := on_snd getM in
  unfill_loop (S (Z.to_nat (clip_len clip))) len.

(** [Drop for Clip], with the allocator its owner refers to. *)
Definition clip_drop : M (FixedSizeAllocator * Clip V) unit :=
  let! clip := on_snd getM in
  let! _ :=
    (if is_bound clip && negb (clip_is_empty clip) then unfill_clip 0 else retM tt) in
  let! clip := on_snd getM in
  let! _ := liftM (assert! clip_is_empty clip in Ok tt) in
  on_snd (putM (mkClip (allocations clip) None (clip_info clip))).

End Filling.

(** ** Operations with the page allocator *)

Section Operations.
  Context (V : Type) `{HeaplessVec V} {S : Type} `{BigAllocator S}.

Definition on_bitmap {A} (c : M (DynamicBitmap * S) A) : M (FixedSizeAllocator * S) A := fun st =>
  let '((d, s), r) := c (fs_bitmap st.1, st.2) in
  ((mkFixed d (fs_info st.1) (fs_quarry st.1), s), r).
Definition on_quarry {A} (c : M (Quarry * S) A) : M (FixedSizeAllocator * S) A := fun st =>
  match fs_quarry st.1 with
  | Some q => let '((q, s), r) := c (q, st.2) in ((mkFixed (fs_bitmap st.1) (fs_info st.1) (Some q), s), r)
  | None => (st, Panic)
  end.
Definition set_quarry (q : option Quarry) : M (FixedSizeAllocator * S) unit := fun st =>
  ((mkFixed (fs_bitmap st.1) (fs_info st.1) q, st.2), Ok tt).

(** The parts of [stock_up] after the new number of blocks is known: the bitmap, then the
    quarry. *)
Definition grow_bitmap (capacity new_allocation_count : Z) : M (DynamicBitmap * S) Z :=
  let! d := on_fst getM in
  let! _ :=
    (if len (db_bitmap d) =? 0 then bitmap_reserve capacity BITMAP_GUARD_ZONE_PAGE_COUNT else retM tt) in
  let! d := on_fst getM in
  if len (db_bitmap d) <? new_allocation_count then bitmap_map new_allocation_count else retM 0.

Definition stock_up_to (capacity old_allocation_count new_allocation_count : Z) : M (FixedSizeAllocator * S) Z :=
  let! total_frames := on_bitmap (grow_bitmap capacity new_allocation_count) in
  let! (quarry_frames, _) := on_quarry (quarry_map old_allocation_count new_allocation_count) in
  let! total_frames := liftM (usize_add total_frames quarry_frames) in
  let! _ :=
    (if 0 <? total_frames
     then on_fst (update_info (fun i => pages_allocation i total_frames)) else retM tt) in
  retM total_frames.

Definition stock_up (size : Z) : M (FixedSizeAllocator * S) Z :=
  let! _ := liftM (assert! size mod MIN_SIZE =? 0 in Ok tt) in
  let! f := on_fst getM in
  let! _ :=
    (if bool_decide (fs_quarry f = None)
     then let! q := liftM (quarry_new size) in set_quarry (Some q)
     else retM tt) in
  let! f := on_fst getM in
  let! q := liftM (quarry_of f) in
  let! _ := liftM (assert! q_size q =? size in Ok tt) in
  let old_allocation_count := len (db_bitmap (fs_bitmap f)) in
  let! capacity := liftM (capacity q) in
  let! wanted := liftM (usize_add old_allocation_count (CLIP_SIZE V)) in
  let new_allocation_count := Z.min wanted capacity in
  if new_allocation_count =? old_allocation_count then retM 0
  else stock_up_to capacity old_allocation_count new_allocation_count.

(** No block is in use, by the statistics. *)
Definition assert_freed (i : Info) : outcome unit :=
  let? n := balance (AllocInfo.allocations i) in
  assert! n =? 0 in
  let? n := balance (AllocInfo.allocated i) in
  assert! n =? 0 in
  let? n := balance (AllocInfo.requested i) in
  assert! n =? 0 in
  Ok tt.

(** [unmap]; giving up the quarry drops it. *)
Definition fixed_unmap : M (FixedSizeAllocator * S) Z :=
  let! f := on_fst getM in
  let! _ := liftM (assert_freed (fs_info f)) in
  let! total_frames :=
    (if bool_decide (fs_quarry f = None) then retM 0
     else on_quarry (quarry_unmap (len (db_bitmap (fs_bitmap f))))) in
  let! total_frames :=
    (if 0 <? len (db_bitmap (fs_bitmap f)) then
       let! bitmap_frames := on_bitmap bitmap_unmap in
       liftM (usize_add total_frames bitmap_frames)
     else retM total_frames) in
  let! _ :=
    (if 0 <? total_frames
     then on_fst (update_info (fun i => pages_deallocation i total_frames)) else retM tt) in
  let! f := on_fst getM in
  let! _ := liftM (match fs_quarry f with Some q => quarry_drop q | None => Ok tt end) in
  let! _ := set_quarry None in
  retM total_frames.

End Operations.

(** [Drop for FixedSizeAllocator]. *)
Definition fixed_drop (f : FixedSizeAllocator) : outcome unit :=
  assert! len (db_bitmap (fs_bitmap f)) =? 0 in
  assert! bool_decide (fs_quarry f = None) in
  Ok tt.

(** ** What is assumed of the vectors *)

(** The documented behaviour of [heapless::Vec]: a stack of at most its capacity. *)
Class HeaplessVecLaws (V : Type) `{HeaplessVec V} := {
  vec_elements : V -> list Z;
  vec_size_law : 0 <= @vec_empty_size V _ <= 64;
  vec_new_law : vec_elements vec_new = [];
  vec_len_law v : vec_len v = Z.of_nat (length (vec_elements v));
  vec_capacity_law v : vec_capacity v = CLIP_SIZE V;
  vec_push_law x v :
    if vec_len v <? CLIP_SIZE V
    then exists v', vec_push x v = (v', None) /\ vec_elements v' = vec_elements v ++ [x]
    else vec_push x v = (v, Some x);
  vec_push_unchecked_law x v : vec_len v < CLIP_SIZE V ->
    vec_elements (vec_push_unchecked x v) = vec_elements v ++ [x];
  vec_pop_empty_law v : vec_elements v = [] -> vec_pop v = (v, None);
  vec_pop_law v l x : vec_elements v = l ++ [x] ->
    exists v', vec_pop v = (v', Some x) /\ vec_elements v' = l;
}.

Definition clip_blocks {V} `{HeaplessVec V} `{!HeaplessVecLaws V} (c : Clip V) : list Z :=
  vec_elements (allocations c).

Lemma bindM_get {T A} (k : T -> M T A) s : bindM getM k s = k s s.
Proof. done. Qed.

(** ** The invariant *)

(** The number of blocks there are, free or in use. *)
Definition blocks (f : FixedSizeAllocator) : Z := len (db_bitmap (fs_bitmap f)).
Definition max_blocks (q : Quarry) : Z := slab_allocation_count q * SLAB_COUNT.
Definition in_use (f : FixedSizeAllocator) (i : Z) : Prop :=
  0 <= i < blocks f /\ Bitmap.allocated (bitmap (db_bitmap (fs_bitmap f))) i = true.

(** The addresses of the blocks in use. *)
Definition live_block (f : FixedSizeAllocator) (a : Z) : Prop :=
  exists q i, fs_quarry f = Some q /\ in_use f i /\ a = allocation_address q i.

Definition fixed_owns (f : FixedSizeAllocator) (p : Z) : Prop :=
  bitmap_owns (fs_bitmap f) p \/
  match fs_quarry f with Some q => quarry_owns q (blocks f) p | None => False end.

(** The pages the allocator has mapped. *)
Definition held_pages (f : FixedSizeAllocator) : Z :=
  match fs_quarry f with Some q => total_pages q (blocks f) + page_count (blocks f) | None => 0 end.

(** The pages that an area of memory touches. *)
Definition touches_page (a size p : Z) : Prop := a / L0_SIZE <= p <= (a + size - 1) / L0_SIZE.

Definition apart (size a b : Z) : Prop := a + size <= b \/ b + size <= a.

Section Invariant.
  Context {S : Type} `{HB : BigAllocator S} `{HV : BigView S} `{HL : !BigAllocatorLaws S}.

Definition bitmap_state (d : DynamicBitmap) (s : S) (cap : Z) : Prop :=
  d = dynamic_bitmap_new \/
  0 < len (db_bitmap d) /\ dynamic_wf d s cap /\ guarded d s.

Record fixed_wf (f : FixedSizeAllocator) (s : S) (size : Z) : Prop := {
  fw_big : big_wf s;
  fw_size : 0 < size <= SLAB_SIZE /\ size mod MIN_SIZE = 0;
  fw_state :
    match fs_quarry f with
    | None => fs_bitmap f = dynamic_bitmap_new
    | Some q => q_size q = size /\ quarry_exact q s (blocks f) /\
        bitmap_state (fs_bitmap f) s (max_blocks q) /\
        forall p, bitmap_owns (fs_bitmap f) p -> ~ quarry_owns q (blocks f) p
    end;
}.

Lemma fixed_new_wf s size :
  big_wf s -> 0 < size <= SLAB_SIZE -> size mod MIN_SIZE = 0 -> fixed_wf fixed_new s size.
Proof. by split. Qed.

Lemma zero_bitmap_wf : bitmap_wf bitmap_zero /\ tail_clear bitmap_zero.
Proof.
  split; [split; cbn; [unfold is_usize; lia|done|done|lia|done]|].
  intros n _. unfold Bitmap.allocated. cbn. apply Z.bits_0.
Qed.

Lemma fixed_bitmap f s size : fixed_wf f s size ->
  bitmap_wf (db_bitmap (fs_bitmap f)) /\ tail_clear (db_bitmap (fs_bitmap f)).
Proof.
  intros [_ _ Hst]. destruct (fs_quarry f) as [q|].
  - destruct Hst as (_ & _ & [-> |(_ & Hd & _)] & _); [apply zero_bitmap_wf|].
    split; [apply (dw_bitmap _ _ _ Hd)|apply (dw_tail _ _ _ Hd)].
  - rewrite Hst. apply zero_bitmap_wf.
Qed.

(** Replacing the bits of the blocks. *)
Definition set_bits (f : FixedSizeAllocator) (b : Bitmap) : FixedSizeAllocator :=
  mkFixed (mkDynamicBitmap b (guard_zone_page_count (fs_bitmap f)) (db_pages (fs_bitmap f))) (fs_info f) (fs_quarry f).

Lemma set_bits_wf f s size b :
  fixed_wf f s size -> bitmap_wf b -> tail_clear b -> len b = blocks f -> 0 < blocks f ->
  fixed_wf (set_bits f b) s size.
Proof.
  intros [Hbig Hsize Hst] Hb Ht Hl Hpos. split; [done|done|].
  cbn [set_bits fs_quarry fs_bitmap]. unfold blocks in *. cbn [set_bits fs_bitmap db_bitmap]. rewrite Hl.
  destruct (fs_quarry f) as [q|].
  - destruct Hst as (Hq & Hex & Hbs & Hdis). split; [done|]. split; [done|]. split; [|done].
    right. destruct Hbs as [Hnew|(_ & Hd & Hg)]; [rewrite Hnew in Hpos; cbn in Hpos; lia|].
    cbn [db_bitmap]. rewrite Hl. split; [done|]. split.
    + destruct Hd. split; cbn [db_bitmap guard_zone_page_count db_pages]; rewrite ?Hl; try done.
    + intros p Hp. cbn [db_bitmap]. rewrite Hl. apply Hg, Hp.
  - rewrite Hst in Hpos. cbn in Hpos. lia.
Qed.

(** A block in use is mapped memory of this allocator, aligned, apart from the others, and
    found by each of its addresses. *)
Lemma fixed_number f s size q i : fixed_wf f s size -> fs_quarry f = Some q -> 0 <= i < blocks f ->
  allocation q i = Ok (allocation_address q i) /\ 0 < allocation_address q i /\
  (forall k, (k | size) -> (k | L0_SIZE) -> (k | allocation_address q i)) /\
  (forall d, 0 <= d < size -> allocation_index q (allocation_address q i + d) = Ok (Some i)) /\
  (forall p, touches_page (allocation_address q i) size p -> fixed_owns f p /\ taken s p /\ mapped_page s p) /\
  (forall j, 0 <= j < blocks f -> j <> i -> apart size (allocation_address q i) (allocation_address q j)).
Proof.
  intros [_ _ Hst] Hq Hi. rewrite Hq in Hst. destruct Hst as (<- & [Hh _] & _ & _).
  destruct (quarry_allocation_spec q s _ i Hh Hi) as (E & Hpos & Hal & Hix & Hpg & Hap).
  do 4 (split; [done|]). split; [|done]. intros p Hp. destruct (Hpg p Hp) as (Ho & Ht & Hm).
  split; [|done]. right. by rewrite Hq.
Qed.

Lemma with_bitmap_ok {A} (op : Bitmap -> outcome (Bitmap * A)) f b a :
  op (db_bitmap (fs_bitmap f)) = Ok (b, a) -> with_bitmap op f = (set_bits f b, Ok a).
Proof. intros E. unfold with_bitmap. by rewrite E. Qed.

(** Two blocks in use at one address are one block. *)
Lemma address_inj f s size q i j : fixed_wf f s size -> fs_quarry f = Some q ->
  0 <= i < blocks f -> 0 <= j < blocks f -> allocation_address q i = allocation_address q j -> i = j.
Proof.
  intros Hf Hq Hi Hj He. destruct (decide (j = i)) as [|Hne]; [done|exfalso].
  destruct (fixed_number f s size q i Hf Hq Hi) as (_ & _ & _ & _ & _ & Hap).
  pose proof (fw_size _ _ _ Hf). destruct (Hap j Hj Hne); lia.
Qed.

(** The blocks in use after the bits of some numbers have been set or cleared. *)
Lemma set_bits_live f s size b (P : Z -> bool) (v : bool) : fixed_wf f s size -> len b = blocks f ->
  (forall m, 0 <= m -> Bitmap.allocated (bitmap b) m = if P m then v else Bitmap.allocated (bitmap (db_bitmap (fs_bitmap f))) m) ->
  forall i, in_use (set_bits f b) i <-> 0 <= i < blocks f /\ (if P i then v = true else in_use f i).
Proof.
  intros _ Hl Hall i. unfold in_use, blocks in *. cbn [set_bits fs_bitmap db_bitmap].
  rewrite Hl. split; intros [Hi H]; (split; [done|]); rewrite Hall in * by lia; destruct (P i); tauto.
Qed.

Lemma allocate_fixed_spec f s size layout :
  fixed_wf f s size -> fs_quarry f <> None -> layout_size layout <= size -> size mod layout_align layout = 0 ->
  (fixed_is_empty f = true /\ fixed_allocate layout f = (f, Ok 0)) \/
  (fixed_is_empty f = false /\ exists f' a, fixed_allocate layout f = (f', Ok a) /\ 0 < a /\
     fixed_wf f' s size /\ fs_info f' = fs_info f /\ (forall p, fixed_owns f' p <-> fixed_owns f p) /\
     held_pages f' = held_pages f /\
     ~ live_block f a /\ forall b, live_block f' b <-> live_block f b \/ b = a).
Proof.
  intros Hf Hq Hsz Hal. destruct (fs_quarry f) as [q|] eqn:Eq; [|done].
  assert (q_size q = size) as Hqs by (pose proof (fw_state _ _ _ Hf) as H; rewrite Eq in H; apply H).
  destruct (fixed_bitmap f s size Hf) as [Hb Ht]. unfold fixed_allocate, fixed_is_empty.
  assert (validate_layout f layout = Ok tt) as Ev.
  { unfold validate_layout, quarry_of. rewrite Eq. cbn [unwrap_some].
    by rewrite Hqs, (proj2 (Z.leb_le _ _)), Hal. }
  rewrite bindM_get, Ev, bindM_lift.
  destruct (allocate_spec _ Hb) as [[H0 E]|(Hpos & b' & n & E & Hn & Ha & Hb' & Hf' & Hl' & Hall)]; [left|right].
  - split; [by rewrite H0|]. rewrite (bindM_ok _ _ _ _ _ (with_bitmap_ok _ _ _ _ E)).
    unfold set_bits. destruct f as [[] ? ?]. done.
  - split; [apply Z.eqb_neq; lia|].
    rewrite (bindM_ok _ _ _ _ _ (with_bitmap_ok _ _ _ _ E)). unfold quarry_of. rewrite Eq. cbn [unwrap_some]. rewrite bindM_lift.
    destruct (fixed_number f s size q n Hf Eq Hn) as (Ea & Hap & _). rewrite Ea, bindM_lift.
    rewrite (proj2 (Z.eqb_neq _ 0)) by lia. exists (set_bits f b'), (allocation_address q n).
    assert (tail_clear b') as Ht'.
    { intros m Hm. rewrite Hall by lia. destruct (Z.eqb_spec m n); [lia|]. apply Ht. lia. }
    pose proof (set_bits_live f s size b' (fun m => m =? n) true Hf Hl' Hall) as Hlive.
    split; [done|]. split; [done|]. split; [apply set_bits_wf; try done; unfold blocks; lia|]. split; [done|].
    split; [intros p; unfold fixed_owns, blocks; cbn [set_bits fs_bitmap db_bitmap fs_quarry]; by rewrite Hl'|].
    split; [unfold held_pages, blocks; cbn [set_bits fs_bitmap db_bitmap fs_quarry]; by rewrite Hl'|]. split.
    + intros (q' & i & Eq' & Hi & He). rewrite Eq in Eq'. injection Eq' as <-.
      apply (address_inj f s size q) in He as <-; [|done|done|done|apply Hi]. destruct Hi as [_ Hi]. congruence.
    + intros a. split.
      * intros (q' & i & Eq' & Hi & ->). cbn [set_bits fs_quarry] in Eq'. rewrite Eq in Eq'. injection Eq' as <-.
        apply Hlive in Hi as [Hi Hu]. destruct (Z.eqb_spec i n) as [->|]; [by right|left]. by exists q, i.
      * intros [(q' & i & Eq' & Hi & ->)| ->].
        -- exists q', i. split; [done|]. split; [|done]. apply Hlive. split; [apply Hi|]. by destruct (i =? n).
        -- exists q, n. split; [done|]. split; [|done]. apply Hlive. split; [done|]. by rewrite Z.eqb_refl.
Qed.

Lemma deallocate_impl_spec f s size a :
  fixed_wf f s size -> live_block f a ->
  exists f', deallocate_impl a f = (f', Ok tt) /\ fixed_wf f' s size /\ fs_info f' = fs_info f /\
    fs_quarry f' = fs_quarry f /\
    (forall p, fixed_owns f' p <-> fixed_owns f p) /\ held_pages f' = held_pages f /\
    free (db_bitmap (fs_bitmap f')) = free (db_bitmap (fs_bitmap f)) + 1 /\
    forall b, live_block f' b <-> live_block f b /\ b <> a.
Proof.
  intros Hf (q & n & Eq & [Hn Ha] & ->). destruct (fixed_bitmap f s size Hf) as [Hb Ht].
  destruct (fixed_number f s size q n Hf Eq Hn) as (_ & Hpos & _ & Hix & _). unfold deallocate_impl.
  rewrite (proj2 (Z.eqb_neq _ 0)) by lia. cbn [negb]. rewrite bindM_lift, bindM_get.
  unfold quarry_of. rewrite Eq. cbn [unwrap_some]. rewrite bindM_lift.
  specialize (Hix 0 ltac:(pose proof (fw_size _ _ _ Hf); lia)). rewrite Z.add_0_r in Hix. rewrite Hix, bindM_lift.
  cbn [unwrap_some]. rewrite bindM_lift, (is_free_spec _ Hb), bindM_lift, Ha by done. cbn [negb]. rewrite bindM_lift.
  destruct (set_free_spec _ Hb n Hn Ha) as (b' & E & Hb' & Hf' & Hl' & Hall).
  exists (set_bits f b'). split; [unfold free_number; apply with_bitmap_ok; by rewrite E|].
  assert (tail_clear b') as Ht'.
  { intros m Hm. rewrite Hall by (unfold blocks in Hn; lia). destruct (m =? n); [done|]. apply Ht. lia. }
  pose proof (set_bits_live f s size b' (fun m => m =? n) false Hf Hl' Hall) as Hlive.
  split; [apply set_bits_wf; try done; lia|]. do 2 (split; [done|]).
  split; [intros p; unfold fixed_owns, blocks; cbn [set_bits fs_bitmap db_bitmap fs_quarry]; by rewrite Hl'|].
  split; [unfold held_pages, blocks; cbn [set_bits fs_bitmap db_bitmap fs_quarry]; by rewrite Hl'|].
  split; [done|]. intros a. split.
  - intros (q' & i & Eq' & Hi & ->). cbn [set_bits fs_quarry] in Eq'. rewrite Eq in Eq'. injection Eq' as <-.
    apply Hlive in Hi as [Hi Hu]. destruct (Z.eqb_spec i n) as [->|Hne]; [done|]. split; [by exists q, i|].
    intros He. apply Hne. by apply (address_inj f s size q) in He.
  - intros [(q' & i & Eq' & Hi & ->) Hne]. exists q', i. split; [done|]. split; [|done]. apply Hlive.
    split; [apply Hi|]. destruct (Z.eqb_spec i n) as [->|]; [|done]. rewrite Eq in Eq'. by injection Eq' as <-.
Qed.

(** With a suitable layout the release of a block is that of its address. *)
Lemma fixed_deallocate_eq f s size layout q a : fixed_wf f s size -> fs_quarry f = Some q ->
  layout_size layout <= size -> size mod layout_align layout = 0 -> 0 < a ->
  fixed_deallocate a layout f = deallocate_impl a f.
Proof.
  intros Hf Eq Hs Ha Hpos. assert (q_size q = size) as Hqs by (pose proof (fw_state _ _ _ Hf) as H; rewrite Eq in H; apply H).
  unfold fixed_deallocate. rewrite (proj2 (Z.eqb_neq _ 0)) by lia. cbn [negb]. rewrite bindM_lift, bindM_get.
  unfold validate_layout, quarry_of. rewrite Eq. cbn [unwrap_some]. by rewrite Hqs, (proj2 (Z.leb_le _ _)), Ha.
Qed.

(** *** Stocking up *)

Lemma bitmap_state_frame Q d s s' cap :
  bitmap_state d s cap -> touches Q s s' -> (forall p, bitmap_owns d p -> ~ Q p) -> bitmap_state d s' cap.
Proof.
  intros [->|(Hl & Hd & Hg)] Hto HQ; [by left|right]. split; [done|].
  split; [by apply (dynamic_frame Q _ s)|]. apply (guarded_frame Q _ s); [done|done|].
  intros p Hp. split; [by apply (dw_taken _ _ _ Hd)|by apply HQ].
Qed.

Lemma bitmap_state_taken d s cap p : bitmap_state d s cap -> bitmap_owns d p -> taken s p.
Proof.
  intros [->|(_ & Hd & _)] Hp; [unfold bitmap_owns, inside in Hp; cbn in Hp; lia|]. by apply (dw_taken _ _ _ Hd).
Qed.

(** The bitmap grows: its new pages were free, its old elements keep their state. *)
Lemma grow_bitmap_spec d s cap new : bitmap_state d s cap -> big_wf s -> 0 < cap < 2 ^ 60 ->
  len (db_bitmap d) < new <= cap ->
  exists d' s' r, grow_bitmap cap new (d, s) = ((d', s'), r) /\
    touches (bitmap_owns d) s s' /\ (forall p, bitmap_owns d' p -> taken s p -> bitmap_owns d p) /\
    ((r = Ok (page_count new - page_count (len (db_bitmap d))) /\ bitmap_state d' s' cap /\
        len (db_bitmap d') = new /\ free (db_bitmap d') = free (db_bitmap d) + (new - len (db_bitmap d)) /\
        forall n, 0 <= n -> Bitmap.allocated (bitmap (db_bitmap d')) n = Bitmap.allocated (bitmap (db_bitmap d)) n) \/
     (exists e, r = Err e) /\ db_bitmap d' = db_bitmap d).
Proof.
  intros Hst Hw Hcap Hn. unfold grow_bitmap. rewrite bindM_bitmap.
  assert (exists d1 s1 r1,
    (if len (db_bitmap d) =? 0 then bitmap_reserve cap BITMAP_GUARD_ZONE_PAGE_COUNT else retM tt) (d, s) = ((d1, s1), r1) /\
    db_bitmap d1 = db_bitmap d /\ touches (fun _ => False) s s1 /\
    (forall p, bitmap_owns d1 p -> taken s p -> bitmap_owns d p) /\
    ((r1 = Ok tt /\ dynamic_wf d1 s1 cap /\ guarded d1 s1) \/ exists e, r1 = Err e))
    as (d1 & s1 & r1 & E1 & Hb1 & Hto1 & Hown1 & Hcase1).
  { destruct Hst as [->|(Hl & Hd & Hg)].
    - cbn [dynamic_bitmap_new db_bitmap bitmap_zero len]. rewrite Z.eqb_refl.
      destruct (bitmap_reserve_spec dynamic_bitmap_new s cap BITMAP_GUARD_ZONE_PAGE_COUNT) as
        [(d1 & s1 & E & Hb & Hto & Hd & Hg & _ & Hfree)|(s1 & e & E & Hto)];
        [done|done|done|done|unfold BITMAP_GUARD_ZONE_PAGE_COUNT; lia| |].
      + exists d1, s1, (Ok tt). split; [done|]. split; [done|]. split; [done|]. split; [|by left].
        intros p Hp Ht. by destruct (Hfree p Hp).
      + exists dynamic_bitmap_new, s1, (Err e). eauto 10.
    - rewrite (proj2 (Z.eqb_neq _ 0)) by lia. exists d, s, (Ok tt). split; [done|]. split; [done|].
      split; [by apply touches_refl|]. split; [done|]. by left. }
  destruct Hcase1 as [(-> & Hd1 & Hg1)|(e & ->)].
  2:{ rewrite (bindM_err _ _ _ _ _ E1). exists d1, s1, (Err e). split; [done|].
      split; [apply (touches_weaken _ _ _ _ Hto1); tauto|]. split; [done|right]. eauto. }
  rewrite (bindM_ok _ _ _ _ _ E1), bindM_bitmap, Hb1, (proj2 (Z.ltb_lt _ new)) by lia.
  destruct (bitmap_map_spec d1 s1 cap new Hd1) as (d2 & s2 & r & E2 & Hto2 & Hpg & Hgz & Hd2 & Hcase2); [by rewrite Hb1|].
  exists d2, s2, r. split; [done|].
  split; [apply (touches_trans _ (bitmap_owns d1) _ s1); [apply (touches_weaken _ _ _ _ Hto1); tauto|done|done]|].
  assert (forall p, bitmap_owns d2 p -> bitmap_owns d1 p) as Hown2 by (unfold bitmap_owns; by rewrite Hpg).
  split; [intros p Hp; by apply Hown1, Hown2|]. rewrite Hb1 in *.
  destruct Hcase2 as [(-> & Hl2 & Hf2 & Hall2 & Hg2)|(He & ->)]; [left|right; by rewrite Hb1].
  split; [done|]. split; [right; rewrite Hl2; pose proof (dw_len _ _ _ Hd1); rewrite Hb1 in *; split; [lia|]; auto|]. done.
Qed.

(** What [stock_up] leaves behind: blocks in use stay in use and mapped.  On success the
    invariant holds, [k] more pages are held and counted, and the new pages were free. *)
Definition live_mapped (f : FixedSizeAllocator) (s : S) (size : Z) : Prop :=
  forall a p, live_block f a -> touches_page a size p -> taken s p /\ mapped_page s p.

Definition stocked (f f' : FixedSizeAllocator) (s s' : S) (size new k : Z) : Prop :=
  fixed_wf f' s' size /\ fs_quarry f' <> None /\ blocks f' = new /\
  free (db_bitmap (fs_bitmap f')) = free (db_bitmap (fs_bitmap f)) + (new - blocks f) /\
  held_pages f' = held_pages f + k /\ 0 <= k /\ pages_allocation (fs_info f) k = Ok (fs_info f') /\
  forall p, fixed_owns f' p -> taken s p -> fixed_owns f p.

(** The total number of pages ever mapped stays far from overflowing. *)
Definition info_room (i : Info) : Prop := words_ok i /\ positive (AllocInfo.pages i) + 2 ^ 32 < USIZE_MODULUS.

Lemma pages_allocation_ok i k : info_room i -> 0 <= k <= 2 ^ 32 ->
  exists i', pages_allocation i k = Ok i' /\ (k = 0 -> i' = i).
Proof.
  intros [Hw Hr] Hk. apply words_ok_iff in Hw as (_ & _ & [Hn Hp] & _).
  unfold pages_allocation. rewrite increase_spec by (done || lia). eexists. split; [done|].
  intros ->. rewrite Z.add_0_r. by destruct i as [? ? [] ?].
Qed.

Lemma max_blocks_bounds q : sizes_ok q -> 0 < max_blocks q <= 2 ^ 24.
Proof. intros Hq. destruct (count_bounds q Hq) as (Hc & _). unfold max_blocks. consts. lia. Qed.

Lemma page_count_small n : 0 <= n <= 2 ^ 24 -> 0 <= page_count n <= 2 ^ 10.
Proof.
  intros Hn. pose proof (page_count_mono n (2 ^ 24) ltac:(lia)). change (page_count (2 ^ 24)) with 512 in *. lia.
Qed.

(** The allocator after its parts have grown. *)
Lemma stocked_wf f s size q d' s1 q' s2 new : fixed_wf f s size -> fs_quarry f = Some q ->
  bitmap_state d' s1 (max_blocks q) -> len (db_bitmap d') = new ->
  (forall p, bitmap_owns d' p -> taken s p -> bitmap_owns (fs_bitmap f) p) ->
  touches (bitmap_owns (fs_bitmap f)) s s1 -> touches (quarry_owns q (blocks f)) s1 s2 -> same_sizes q q' ->
  quarry_exact q' s2 new -> (forall p, quarry_owns q' new p -> taken s1 p -> quarry_owns q (blocks f) p) ->
  forall i, fixed_wf (mkFixed d' i (Some q')) s2 size /\
    forall p, fixed_owns (mkFixed d' i (Some q')) p -> taken s p -> fixed_owns f p.
Proof.
  intros Hf Eq Hbs Hl Hown Hto1 Hto2 [Hs Hc] Hex Hqown i. pose proof (fw_state _ _ _ Hf) as Hst. rewrite Eq in Hst.
  destruct Hst as (Hqs & [Hh _] & Hbs0 & Hdis).
  assert (forall p, bitmap_owns d' p -> ~ quarry_owns q (blocks f) p) as Hdis'.
  { intros p Hp Hq. apply (Hdis p); [|done]. apply Hown; [done|]. by apply (quarry_owns_taken q s (blocks f)). }
  split.
  - split; [apply (touches_wf Hto2)|apply (fw_size _ _ _ Hf)|]. unfold blocks. cbn [fs_quarry fs_bitmap]. rewrite Hl.
    split; [congruence|]. split; [done|]. split.
    + unfold max_blocks in *. rewrite Hc. by apply (bitmap_state_frame _ _ _ _ _ Hbs Hto2).
    + intros p Hp Hq. apply (Hdis' p Hp), Hqown; [done|]. by apply (bitmap_state_taken d' s1 (max_blocks q)).
  - intros p Hp Ht. unfold fixed_owns, blocks in *. cbn [fs_quarry fs_bitmap] in *. rewrite Hl, Eq in *.
    destruct Hp as [Hp|Hp]; [left; by apply Hown|].
    destruct (decide (inside (db_pages (fs_bitmap f)) p)) as [Hb|Hb]; [by left|right].
    apply Hqown; [done|]. by apply (touches_taken Hto1).
Qed.

(** Blocks in use are the same before and after. *)
Lemma same_live f s size q f' q' : fixed_wf f s size -> fs_quarry f = Some q -> fs_quarry f' = Some q' ->
  blocks f <= blocks f' ->
  (forall n, 0 <= n -> Bitmap.allocated (bitmap (db_bitmap (fs_bitmap f'))) n = Bitmap.allocated (bitmap (db_bitmap (fs_bitmap f))) n) ->
  (forall i, 0 <= i < blocks f -> allocation_address q' i = allocation_address q i) ->
  forall a, live_block f' a <-> live_block f a.
Proof.
  intros Hf Eq Eq' Hle Hall Haddr a. destruct (fixed_bitmap f s size Hf) as [_ Ht]. split.
  - intros (q1 & i & E & [Hi Hu] & ->). rewrite Eq' in E. injection E as <-. rewrite Hall in Hu by lia.
    assert (i < blocks f) as Hlt.
    { destruct (Z.lt_ge_cases i (blocks f)); [done|]. unfold tail_clear in Ht. rewrite Ht in Hu by done. done. }
    exists q, i. split; [done|]. split; [split; [lia|done]|]. apply Haddr. lia.
  - intros (q1 & i & E & [Hi Hu] & ->). rewrite Eq in E. injection E as <-. exists q', i. split; [done|].
    split; [split; [lia|by rewrite Hall by lia]|]. by rewrite Haddr.
Qed.

Lemma holds_live_mapped f s q n size : fs_quarry f = Some q -> q_size q = size -> quarry_holds q s n ->
  (forall i, in_use f i -> i < n) -> live_mapped f s size.
Proof.
  intros Eq <- Hh Hn a p (q1 & i & E & Hi & ->) Hp. rewrite Eq in E. injection E as <-.
  destruct (quarry_allocation_spec q s n i Hh) as (_ & _ & _ & _ & Hpg & _); [pose proof (Hn i Hi); destruct Hi; lia|].
  by apply Hpg.
Qed.

Lemma wf_live_mapped f s size : fixed_wf f s size -> live_mapped f s size.
Proof.
  intros Hf a p (q & i & Eq & [Hi _] & ->) Hp. destruct (fixed_number f s size q i Hf Eq Hi) as (_ & _ & _ & _ & Hpg & _).
  by apply Hpg.
Qed.

Lemma on_bitmap_eq {A} (c : M (DynamicBitmap * S) A) f s d s' r :
  c (fs_bitmap f, s) = ((d, s'), r) -> on_bitmap c (f, s) = ((mkFixed d (fs_info f) (fs_quarry f), s'), r).
Proof. intros E. unfold on_bitmap. cbn [fst snd]. by rewrite E. Qed.
Lemma on_quarry_eq {A} (c : M (Quarry * S) A) f q s q' s' r : fs_quarry f = Some q ->
  c (q, s) = ((q', s'), r) -> on_quarry c (f, s) = ((mkFixed (fs_bitmap f) (fs_info f) (Some q'), s'), r).
Proof. intros Eq E. unfold on_quarry. cbn [fst snd]. by rewrite Eq, E. Qed.

(** The end of [stock_up]: the new pages are counted. *)
Lemma count_pages d q i k (s : S) : info_room i -> 0 <= k <= 2 ^ 32 ->
  exists i', pages_allocation i k = Ok i' /\
    (let! _ := (if 0 <? k then on_fst (update_info (fun i => pages_allocation i k)) else retM tt) in retM k)
      (mkFixed d i q, s) = ((mkFixed d i' q, s), Ok k).
Proof.
  intros Hi Hk. destruct (pages_allocation_ok i k Hi Hk) as (i' & E & Hz). exists i'. split; [done|].
  destruct (Z.ltb_spec 0 k).
  - unfold bindM, on_fst, update_info. cbn [fst fs_info]. by rewrite E.
  - by rewrite Hz by lia.
Qed.

Lemma stock_up_to_spec f s size q new : fixed_wf f s size -> fs_quarry f = Some q -> info_room (fs_info f) ->
  blocks f < new <= max_blocks q ->
  exists f' s' r, stock_up_to (max_blocks q) (blocks f) new (f, s) = ((f', s'), r) /\
    touches (fixed_owns f) s s' /\ (forall a, live_block f' a <-> live_block f a) /\ live_mapped f' s' size /\
    ((exists k, r = Ok k /\ stocked f f' s s' size new k) \/ exists e, r = Err e).
Proof.
  intros Hf Eq Hroom Hn. pose proof (fw_state _ _ _ Hf) as Hst. rewrite Eq in Hst. destruct Hst as (Hqs & Hex & Hbs & Hdis).
  pose proof Hex as [[Hrange Hinv] _]. pose proof (qi_sizes _ _ _ _ Hinv) as Hq. pose proof (max_blocks_bounds q Hq) as Hmax.
  unfold stock_up_to.
  destruct (grow_bitmap_spec (fs_bitmap f) s (max_blocks q) new Hbs (fw_big _ _ _ Hf)) as
    (d1 & s1 & r1 & E1 & Hto1 & Hown1 & Hcase1); [lia|done|].
  assert (quarry_exact q s1 (blocks f)) as Hex1.
  { apply (quarry_exact_frame _ _ _ _ _ Hex Hto1). intros p Hp Hb. by apply (Hdis p). }
  apply on_bitmap_eq in E1.
  destruct Hcase1 as [(-> & Hbs1 & Hl1 & Hf1 & Hall1)|((e & ->) & Hsame)].
  2:{ rewrite (bindM_err _ _ _ _ _ E1). eexists _, s1, (Err e). split; [done|].
      split; [apply (touches_weaken _ _ _ _ Hto1); intros; by left|].
      assert (forall a, live_block (mkFixed d1 (fs_info f) (fs_quarry f)) a <-> live_block f a) as Hlive.
      { apply (same_live f s size q _ q Hf Eq); unfold blocks; cbn [fs_bitmap fs_quarry]; rewrite ?Hsame; done. }
      split; [done|]. split; [|right; eauto]. intros a p Ha Hp. apply Hlive in Ha. revert a p Ha Hp.
      apply (holds_live_mapped f s1 q (blocks f)); [done|done|apply Hex1|]. intros i [Hi _]. lia. }
  rewrite (bindM_ok _ _ _ _ _ E1).
  destruct (quarry_grow_spec q s1 (blocks f) new Hex1) as (q' & s2 & r & E2 & Hsz & Hto2 & Haddr & Hcase2); [lia|apply Hn|].
  apply (on_quarry_eq _ (mkFixed d1 (fs_info f) (fs_quarry f)) q) in E2; [|done]. cbn [fs_bitmap fs_info] in E2.
  assert (touches (fixed_owns f) s s2) as Hto.
  { apply (touches_trans _ (quarry_owns q (blocks f)) _ s1); [|done|].
    - apply (touches_weaken _ _ _ _ Hto1). intros; by left.
    - intros p Hp _. right. by rewrite Eq. }
  assert (forall i' a, live_block (mkFixed d1 i' (Some q')) a <-> live_block f a) as Hlive.
  { intros i'. apply (same_live f s size q _ q' Hf Eq); try done. unfold blocks in *. cbn [fs_bitmap]. lia. }
  destruct Hcase2 as [(n & -> & Hex2 & Hqown)|(e & -> & Hh)].
  2:{ rewrite (bindM_err _ _ _ _ _ E2). eexists _, s2, (Err e). split; [done|]. split; [done|]. split; [done|].
      split; [|right; eauto]. intros a p (q1 & i & E & [Hi _] & ->)%Hlive Hp. rewrite Eq in E. injection E as <-.
      rewrite <- (Haddr i Hi) in Hp. destruct Hsz as [Hqs' _]. rewrite Hqs in Hqs'. rewrite <- Hqs' in Hp.
      destruct (quarry_allocation_spec q' s2 _ i Hh Hi) as (_ & _ & _ & _ & Hpg & _). by apply Hpg. }
  pose proof (stocked_wf f s size q d1 s1 q' s2 new Hf Eq Hbs1 Hl1 Hown1 Hto1 Hto2 Hsz Hex2 Hqown) as Hwf.
  destruct (total_pages_bounds q (blocks f) new Hq) as [Htp Htp']; [lia|apply Hn|]. consts.
  fold (blocks f). destruct (page_count_mono (blocks f) new ltac:(lia)). pose proof (page_count_small new ltac:(lia)).
  set (k := page_count new - page_count (blocks f) + (total_pages q new - total_pages q (blocks f))).
  destruct (count_pages d1 (Some q') (fs_info f) k s2 Hroom ltac:(subst k; lia)) as (i' & Ei & Ek).
  rewrite (bindM_ok _ _ _ _ _ E2), usize_add_ok, bindM_lift by (unfold is_usize; lia). fold k.
  exists (mkFixed d1 i' (Some q')), s2, (Ok k). split; [exact Ek|]. split; [done|]. split; [done|].
  split; [apply wf_live_mapped, Hwf|left]. exists k. split; [done|]. split; [apply Hwf|].
  split; [done|]. split; [done|]. split; [done|]. split; [|split; [lia|split; [done|apply Hwf]]].
  unfold held_pages, blocks in *. cbn [fs_quarry fs_bitmap]. rewrite Eq, Hl1.
  destruct (same_sizes_facts q q' new Hsz) as (_ & _ & -> & _). lia.
Qed.

(** The first part of [stock_up] makes the quarry if there is none. *)
Lemma init_quarry f s size : fixed_wf f s size ->
  exists f1 q,
    (if bool_decide (fs_quarry f = None) then let! q := liftM (quarry_new size) in set_quarry (Some q) else retM tt) (f, s)
      = ((f1, s), Ok tt) /\
    fixed_wf f1 s size /\ fs_quarry f1 = Some q /\ q_size q = size /\ sizes_ok q /\
    fs_bitmap f1 = fs_bitmap f /\ fs_info f1 = fs_info f /\ held_pages f1 = held_pages f /\
    (forall p, fixed_owns f1 p <-> fixed_owns f p) /\ forall a, live_block f1 a <-> live_block f a.
Proof.
  intros Hf. destruct (fs_quarry f) as [q|] eqn:Eq.
  - rewrite bool_decide_eq_false_2 by done. pose proof (fw_state _ _ _ Hf) as H. rewrite Eq in H. destruct H as (Hs & [[_ Hinv] _] & _).
    exists f, q. do 4 (split; [done|]). split; [apply (qi_sizes _ _ _ _ Hinv)|]. done.
  - rewrite bool_decide_eq_true_2 by done. pose proof (fw_state _ _ _ Hf) as Hd. rewrite Eq in Hd.
    destruct (quarry_new_exact size s (proj1 (fw_size _ _ _ Hf)) (fw_big _ _ _ Hf)) as (q & E & Hs & Hex & Hown).
    rewrite E, bindM_lift. pose proof Hex as [[_ Hinv] _].
    assert (total_pages q 0 = 0) as Htp.
    { destruct (count_bounds q (qi_sizes _ _ _ _ Hinv)) as (Hc & _). unfold total_pages, allocation_coordinates.
      by rewrite Z.div_0_l, Z.mod_0_l by lia. }
    exists (mkFixed (fs_bitmap f) (fs_info f) (Some q)), q. split; [done|]. split; [|split; [done|]].
    + split; [apply (fw_big _ _ _ Hf)|apply (fw_size _ _ _ Hf)|]. unfold blocks. cbn [fs_quarry fs_bitmap]. rewrite Hd.
      split; [done|]. split; [done|]. split; [by left|]. intros p _. apply Hown.
    + split; [done|]. split; [apply (qi_sizes _ _ _ _ Hinv)|]. do 2 (split; [done|]).
      unfold held_pages, fixed_owns, live_block, in_use, blocks. cbn [fs_quarry fs_bitmap]. rewrite Eq, Hd.
      split; [cbn [dynamic_bitmap_new db_bitmap bitmap_zero len]; by rewrite Htp|]. split.
      * intros p. split; [intros [Hp|Hp]; [by left|by apply Hown in Hp]|intros [Hp|[]]; by left].
      * intros a. split; [|by intros (? & ? & ? & _)]. intros (q1 & i & _ & [Hi _] & _). cbn in Hi. lia.
Qed.

(** *** Releasing everything *)

Lemma unused_free f s size : fixed_wf f s size -> (forall i, ~ in_use f i) -> free (db_bitmap (fs_bitmap f)) = blocks f.
Proof.
  intros Hf Hno. destruct (fixed_bitmap f s size Hf) as [Hb _]. rewrite (wf_free _ Hb). unfold free_elements.
  pose proof (wf_len _ Hb) as Hl. unfold is_usize in Hl.
  rewrite filter_all_elem; [rewrite length_seqZ; unfold blocks; lia|]. intros n Hn%elem_of_seqZ.
  destruct (Bitmap.allocated _ n) eqn:E; [|done]. exfalso. apply (Hno n). split; [unfold blocks; lia|done].
Qed.

Lemma assert_freed_ok i held : tracks i [] held -> assert_freed i = Ok tt.
Proof.
  intros Hi. split_tracks Hi. unfold net in *. cbn in Hreq, Hall, Hcnt.
  unfold assert_freed. rewrite !balance_spec by done. unfold counter_is_valid, net.
  rewrite !(proj2 (Z.leb_le _ _)) by lia. by rewrite !(proj2 (Z.eqb_eq _ 0)) by lia.
Qed.

(** The memory of the quarry and of the bitmap is given back. *)
Lemma release_parts f s size q : fixed_wf f s size -> fs_quarry f = Some q -> (forall i, ~ in_use f i) ->
  exists q' s',
    (let! total_frames := on_quarry (quarry_unmap (blocks f)) in
     if 0 <? blocks f then
       let! bitmap_frames := on_bitmap bitmap_unmap in
       liftM (usize_add total_frames bitmap_frames)
     else retM total_frames) (f, s) = ((mkFixed dynamic_bitmap_new (fs_info f) (Some q'), s'), Ok (held_pages f)) /\
    quarry_drop q' = Ok tt /\ touches (fixed_owns f) s s' /\ forall p, fixed_owns f p -> backing s' p = None.
Proof.
  intros Hf Eq Hno. pose proof (unused_free f s size Hf Hno) as Hfree.
  pose proof (fw_state _ _ _ Hf) as Hst. rewrite Eq in Hst. destruct Hst as (Hqs & Hex & Hbs & Hdis).
  pose proof Hex as [[Hrange Hinv] _]. pose proof (qi_sizes _ _ _ _ Hinv) as Hq. pose proof (max_blocks_bounds q Hq) as Hmax.
  destruct (total_pages_bounds q (blocks f) (blocks f) Hq) as [Htp Htp']; [lia|apply Hrange|]. consts.
  pose proof (page_count_small (blocks f) ltac:(unfold max_blocks in *; consts; lia)) as Hpc.
  destruct (quarry_release_spec q s (blocks f) Hex) as (q' & s1 & E1 & Hto1 & Hun1 & Hdrop).
  apply (on_quarry_eq _ f q) in E1; [|done]. rewrite (bindM_ok _ _ _ _ _ E1).
  assert (touches (fixed_owns f) s s1) as Hto1'.
  { apply (touches_weaken _ _ _ _ Hto1). intros p Hp _. right. by rewrite Eq. }
  assert (bitmap_state (fs_bitmap f) s1 (max_blocks q)) as Hbs1 by (by apply (bitmap_state_frame _ _ _ _ _ Hbs Hto1)).
  exists q'. unfold held_pages. rewrite Eq. destruct Hbs1 as [Hnew|(Hl & Hd & Hg)].
  - assert (blocks f = 0) as Hz by (unfold blocks; by rewrite Hnew). exists s1. rewrite Hz in *. rewrite Z.ltb_irrefl.
    split; [rewrite Hnew; change (page_count 0) with 0; by rewrite Z.add_0_r|]. split; [done|]. split; [done|].
    unfold fixed_owns. rewrite Hnew, Eq, Hz. intros p [Hp|Hp]; [unfold bitmap_owns, inside in Hp; cbn in Hp; lia|by apply Hun1].
  - destruct (bitmap_unmap_spec (fs_bitmap f) s1 (max_blocks q) Hd Hg Hl Hfree) as (s2 & E2 & Hto2 & Hun2 & Hsame2).
    apply (on_bitmap_eq _ (mkFixed (fs_bitmap f) (fs_info f) (Some q'))) in E2. cbn [fs_info fs_quarry] in E2.
    exists s2. fold (blocks f) in Hl, E2. rewrite (proj2 (Z.ltb_lt 0 _)) by done. rewrite (bindM_ok _ _ _ _ _ E2).
    split; [by rewrite usize_add_ok by (unfold is_usize; lia)|]. split; [done|]. split.
    + apply (touches_trans _ (bitmap_owns (fs_bitmap f)) _ s1); [done|done|]. intros p Hp _. by left.
    + unfold fixed_owns. rewrite Eq. intros p [Hp|Hp]; [by apply Hun2|]. rewrite Hsame2; [by apply Hun1|].
      intros Hb. by apply (Hdis p).
Qed.

(** The end of [unmap]: the released pages are counted. *)
Lemma discount_pages d q i k (s : S) : tracks i [] k -> 0 <= k -> quarry_drop q = Ok tt ->
  exists i', tracks i' [] 0 /\
    (let! _ := (if 0 <? k then on_fst (update_info (fun i => pages_deallocation i k)) else retM tt) in
     let! f := on_fst getM in
     let! _ := liftM (match fs_quarry f with Some q => quarry_drop q | None => Ok tt end) in
     let! _ := set_quarry None in
     retM k) (mkFixed d i (Some q), s) = ((mkFixed d i' None, s), Ok k).
Proof.
  intros Hi Hk Hd. destruct (pages_deallocation_tracks i [] k k Hi ltac:(lia)) as (i0 & E & Hi'). rewrite Z.sub_diag in Hi'.
  assert (exists i', tracks i' [] 0 /\
    (if 0 <? k then on_fst (update_info (fun i => pages_deallocation i k)) else retM tt) (mkFixed d i (Some q), s)
      = ((mkFixed d i' (Some q), s), Ok tt)) as (i' & Ht & E').
  { destruct (Z.ltb_spec 0 k); [exists i0|exists i; by replace k with 0 in * by lia].
    split; [done|]. unfold on_fst, update_info. cbn [fst snd fs_info]. by rewrite E. }
  exists i'. split; [done|]. rewrite (bindM_ok _ _ _ _ _ E').
  change (bindM (on_fst getM) ?g (?x, s)) with (g x (x, s)). cbn [fs_quarry]. by rewrite Hd, bindM_lift.
Qed.

Lemma fixed_unmap_spec f s size : fixed_wf f s size -> (forall i, ~ in_use f i) -> tracks (fs_info f) [] (held_pages f) ->
  exists i' s', fixed_unmap (f, s) = ((mkFixed dynamic_bitmap_new i' None, s'), Ok (held_pages f)) /\
    tracks i' [] 0 /\ touches (fixed_owns f) s s' /\ forall p, fixed_owns f p -> backing s' p = None.
Proof.
  intros Hf Hno Hi. unfold fixed_unmap. change (bindM (on_fst getM) ?k (f, s)) with (k f (f, s)). cbv beta.
  rewrite (assert_freed_ok _ _ Hi), bindM_lift. fold (blocks f). destruct (fs_quarry f) as [q|] eqn:Eq.
  - rewrite bool_decide_eq_false_2 by done.
    destruct (release_parts f s size q Hf Eq Hno) as (q' & s' & E & Hd & Hto & Hun).
    assert (0 <= held_pages f) as Hpos.
    { pose proof (fw_state _ _ _ Hf) as H. rewrite Eq in H. destruct H as (_ & [[Hr Hinv] _] & _). unfold held_pages. rewrite Eq.
      pose proof (total_pages_bounds q (blocks f) (blocks f) (qi_sizes _ _ _ _ Hinv) ltac:(lia) (proj2 Hr)).
      pose proof (page_count_mono (blocks f) (blocks f) ltac:(lia)). lia. }
    destruct (discount_pages dynamic_bitmap_new q' (fs_info f) (held_pages f) s' Hi Hpos Hd) as (i' & Hi' & E').
    exists i', s'. split; [|done]. rewrite <- E'. revert E. unfold bindM at 1 3.
    destruct (on_quarry _ (f, s)) as [st [k|e|]]; try discriminate.
    intros E. by rewrite (bindM_ok _ _ _ _ _ E).
  - pose proof (fw_state _ _ _ Hf) as Hd. rewrite Eq in Hd. rewrite bool_decide_eq_true_2 by done.
    assert (blocks f = 0) as -> by (unfold blocks; by rewrite Hd). exists (fs_info f), s.
    unfold held_pages in *. rewrite Eq in *. split; [|split; [done|]].
    + destruct f as [d i q]. cbn [fs_quarry fs_bitmap fs_info] in *. by subst.
    + split; [apply touches_refl, (fw_big _ _ _ Hf)|]. unfold fixed_owns. rewrite Eq, Hd.
      intros p [Hp|[]]. unfold bitmap_owns, inside in Hp. cbn in Hp. lia.
Qed.

Context {V : Type} `{HVec : HeaplessVec V} `{HVL : !HeaplessVecLaws V}.

Lemma clip_size_bounds : 15 <= CLIP_SIZE V <= 23.
Proof.
  pose proof (vec_size_law (V := V)) as H. unfold CLIP_SIZE, CLIP_METADATA_SIZE, POINTER_SIZE, INFO_SIZE.
  pose proof (div_ceil_spec (vec_empty_size (V := V) + 8 + 64) 8 ltac:(lia)). lia.
Qed.

(** The number of blocks after the next [stock_up]. *)
Definition next_blocks (f : FixedSizeAllocator) (size : Z) : Z :=
  Z.min (blocks f + CLIP_SIZE V) (SLAB_SIZE / size * SLAB_COUNT).

Lemma stock_up_spec f s size : fixed_wf f s size -> info_room (fs_info f) ->
  exists f' s' r, stock_up V size (f, s) = ((f', s'), r) /\
    touches (fixed_owns f) s s' /\ (forall a, live_block f' a <-> live_block f a) /\ live_mapped f' s' size /\
    ((exists k, r = Ok k /\ stocked f f' s s' size (next_blocks f size) k) \/ exists e, r = Err e).
Proof.
  intros Hf Hroom. unfold stock_up. destruct (fw_size _ _ _ Hf) as [Hs Hm]. rewrite Hm, Z.eqb_refl, bindM_lift.
  destruct (init_quarry f s size Hf) as (f1 & q & E1 & Hf1 & Eq & Hqs & Hq & Hbm & Hinfo & Hheld & Hown & Hlive).
  change (bindM (on_fst getM) ?k (f, s)) with (k f (f, s)). cbv beta. rewrite (bindM_ok _ _ _ _ _ E1).
  change (bindM (on_fst getM) ?k (f1, s)) with (k f1 (f1, s)). cbv beta.
  unfold quarry_of. rewrite Eq. cbn [unwrap_some]. rewrite bindM_lift, Hqs, Z.eqb_refl, bindM_lift, capacity_ok, bindM_lift by done.
  pose proof clip_size_bounds as Hclip. pose proof (max_blocks_bounds q Hq) as Hmax.
  assert (0 <= blocks f1 <= max_blocks q) as Hb1.
  { pose proof (fw_state _ _ _ Hf1) as H. rewrite Eq in H. by destruct H as (_ & [[H _] _] & _). }
  assert (blocks f1 = blocks f) as Hbf by (unfold blocks; by rewrite Hbm).
  fold (blocks f1) (max_blocks q). rewrite usize_add_ok, bindM_lift by (unfold is_usize; lia).
  assert (next_blocks f size = Z.min (blocks f1 + CLIP_SIZE V) (max_blocks q)) as Hnext.
  { unfold next_blocks, max_blocks. by rewrite Hbf, (so_count _ Hq), Hqs. }
  rewrite <- Hnext. destruct (Z.eqb_spec (next_blocks f size) (blocks f1)) as [Hfull|Hmore].
  - exists f1, s, (Ok 0). split; [done|]. split; [apply touches_refl, (fw_big _ _ _ Hf)|]. split; [done|].
    split; [by apply wf_live_mapped|left]. exists 0. split; [done|].
    split; [done|]. split; [congruence|]. split; [done|].
    split; [rewrite Hbm, Hfull, Hbf; lia|]. split; [lia|]. split; [done|]. rewrite Hinfo.
    destruct (pages_allocation_ok (fs_info f) 0 Hroom ltac:(lia)) as (i' & Ei & Hi). rewrite Ei, Hi by done.
    split; [done|]. intros p Hp _. by apply Hown.
  - destruct (stock_up_to_spec f1 s size q (next_blocks f size) Hf1 Eq) as (f' & s' & r & E & Hto & Hlive' & Hlm & Hcase);
      [by rewrite Hinfo|lia|].
    exists f', s', r. split; [exact E|]. split; [apply (touches_weaken _ _ _ _ Hto); intros p Hp _; by apply Hown|].
    split; [intros a; by rewrite Hlive'|]. split; [done|]. destruct Hcase as [(k & -> & Hst)|He]; [left|by right].
    exists k. split; [done|]. destruct Hst as (H1 & H2 & H3 & H4 & H5 & H6 & H7 & H8). rewrite Hbm, Hbf, Hinfo, Hheld in *.
    do 7 (split; [done|]). intros p Hp Ht. apply Hown. by apply H8.
Qed.

(** *** Clips *)

(** The blocks of a clip are in use for its allocator, and a clip with blocks is bound. *)
Record clip_wf (f : FixedSizeAllocator) (c : Clip V) (owner : Z) : Prop := {
  cw_live a : a ∈ clip_blocks c -> live_block f a;
  cw_nodup : NoDup (clip_blocks c);
  cw_len : clip_len c <= CLIP_SIZE V;
  cw_owner : allocation_owner c = None /\ clip_blocks c = [] \/ allocation_owner c = Some owner;
}.

Lemma clip_len_blocks (c : Clip V) : clip_len c = Z.of_nat (length (clip_blocks c)).
Proof. apply vec_len_law. Qed.

Lemma fill_loop_ok f q l (c : Clip V) : fs_quarry f = Some q ->
  (forall n, n ∈ l -> allocation q n = Ok (allocation_address q n) /\ 0 < allocation_address q n) ->
  clip_len c + Z.of_nat (length l) <= CLIP_SIZE V ->
  exists c', for_list fill_one l (f, c) = ((f, c'), Ok tt) /\ allocation_owner c' = allocation_owner c /\
    clip_info c' = clip_info c /\ clip_blocks c' = clip_blocks c ++ (allocation_address q <$> l).
Proof.
  intros Eq. revert c. induction l as [|n l IH]; intros c Hl Hc.
  { exists c. cbn [for_list fmap list_fmap]. by rewrite app_nil_r. }
  destruct (Hl n) as [Ea Hpos]; [left|]. cbn [length] in Hc. rewrite clip_len_blocks in Hc.
  set (c1 := mkClip (vec_push_unchecked (allocation_address q n) (allocations c)) (allocation_owner c) (clip_info c)).
  assert (clip_blocks c1 = clip_blocks c ++ [allocation_address q n]) as Hc1.
  { unfold clip_blocks, c1. cbn [allocations]. apply vec_push_unchecked_law. rewrite vec_len_law. unfold clip_blocks in Hc. lia. }
  destruct (IH c1) as (c' & E & Ho & Hi & Hb); [intros m Hm; apply Hl; by right| |].
  { rewrite clip_len_blocks, Hc1, length_app. cbn [length]. lia. }
  exists c'. split; [|split; [done|split; [done|]]].
  - cbn [for_list]. rewrite (bindM_ok _ _ _ (f, c1) tt); [exact E|]. unfold fill_one.
    change (bindM (on_fst getM) ?k (f, c)) with (k f (f, c)). cbv beta. unfold quarry_of. rewrite Eq. cbn [unwrap_some].
    by rewrite bindM_lift, Ea, bindM_lift, (proj2 (Z.eqb_neq _ 0)) by lia.
  - rewrite Hb, Hc1, <- app_assoc. done.
Qed.

(** Marking [numbers] as used. *)
Lemma bulk_live f s size q b' l : fixed_wf f s size -> fs_quarry f = Some q -> len b' = blocks f -> NoDup l ->
  (forall n, n ∈ l -> 0 <= n < blocks f /\ Bitmap.allocated (bitmap (db_bitmap (fs_bitmap f))) n = false) ->
  (forall m, 0 <= m -> Bitmap.allocated (bitmap b') m =
     if bool_decide (m ∈ l) then true else Bitmap.allocated (bitmap (db_bitmap (fs_bitmap f))) m) ->
  NoDup (allocation_address q <$> l) /\ (forall a, a ∈ allocation_address q <$> l -> ~ live_block f a) /\
  forall a, live_block (set_bits f b') a <-> live_block f a \/ a ∈ allocation_address q <$> l.
Proof.
  intros Hf Eq Hl Hnd Hin Hall. split; [|split].
  - apply NoDup_fmap_2_strong; [|done]. intros n m Hn Hm He.
    apply (address_inj f s size q) in He; [done|done|done|by apply Hin|by apply Hin].
  - intros a (n & -> & Hn)%list_elem_of_fmap (q1 & m & E & [Hm Hu] & He). rewrite Eq in E. injection E as <-.
    destruct (Hin n Hn) as [Hr Hfr]. apply (address_inj f s size q) in He as ->; [|done..]. congruence.
  - pose proof (set_bits_live f s size b' (fun m => bool_decide (m ∈ l)) true Hf Hl Hall) as Hlive. intros a. split.
    + intros (q1 & i & E & Hi & ->). cbn [set_bits fs_quarry] in E. rewrite Eq in E. injection E as <-.
      apply Hlive in Hi as [Hi Hu]. destruct (bool_decide_reflect (i ∈ l)) as [Hil|].
      * right. apply list_elem_of_fmap. eauto.
      * left. by exists q, i.
    + intros [(q1 & i & E & Hi & ->)|(i & -> & Hi)%list_elem_of_fmap].
      * exists q1, i. split; [done|]. split; [|done]. apply Hlive. split; [apply Hi|]. by destruct (bool_decide _).
      * exists q, i. split; [done|]. split; [|done]. apply Hlive. split; [by apply Hin|]. by rewrite bool_decide_eq_true_2.
Qed.

(** What an operation that only marks or unmarks blocks keeps. *)
Record same_store (f f' : FixedSizeAllocator) : Prop := {
  ss_info : fs_info f' = fs_info f;
  ss_quarry : fs_quarry f' = fs_quarry f;
  ss_owns p : fixed_owns f' p <-> fixed_owns f p;
  ss_held : held_pages f' = held_pages f;
}.

Lemma same_store_refl f : same_store f f.
Proof. by split. Qed.
Lemma same_store_trans f f' f'' : same_store f f' -> same_store f' f'' -> same_store f f''.
Proof. intros [? ? H1 ?] [? ? H2 ?]. split; try congruence. intros p. by rewrite H2. Qed.
Lemma set_bits_store f b : len b = blocks f -> same_store f (set_bits f b).
Proof.
  intros Hl. split; try done; unfold held_pages, fixed_owns, blocks in *; cbn [set_bits fs_bitmap db_bitmap fs_quarry];
    rewrite Hl; done.
Qed.

(** The clip after the binding of [fill_clip]. *)
Lemma bind_clip f c owner : clip_wf f c owner ->
  exists c1, (if negb (is_bound c) && (0 <? clip_capacity c) then on_snd (bind_unchecked owner) else retM tt) (f, c)
    = ((f, c1), Ok tt) /\ allocations c1 = allocations c /\ allocation_owner c1 = Some owner.
Proof.
  intros [_ _ _ Ho]. pose proof clip_size_bounds as Hb. unfold is_bound, clip_capacity. rewrite vec_capacity_law.
  rewrite (proj2 (Z.ltb_lt 0 _)), andb_true_r by lia. destruct Ho as [[Ho Hz]|Ho].
  - rewrite bool_decide_eq_false_2 by (rewrite Ho; by intros [? ?]). cbn [negb].
    exists (mkClip (allocations c) (Some owner) (clip_info c)). split; [|done].
    unfold on_snd, bind_unchecked, clip_is_empty. cbn [fst snd]. by rewrite clip_len_blocks, Hz.
  - rewrite bool_decide_eq_true_2 by (rewrite Ho; eauto). cbn [negb]. by exists c.
Qed.

(** The numbers of [bulk_allocate]. *)
Lemma bulk_spec b n : bitmap_wf b -> 0 <= n <= CLIP_SIZE V ->
  exists b' l, bulk_allocate (CLIP_SIZE V) b n = Ok (b', l) /\ Z.of_nat (length l) = Z.min n (free b) /\
    (l = [] -> b' = b) /\ NoDup l /\
    (forall m, m ∈ l -> 0 <= m < len b /\ Bitmap.allocated (bitmap b) m = false) /\
    bitmap_wf b' /\ free b' = free b - Z.of_nat (length l) /\ len b' = len b /\
    forall m, 0 <= m -> Bitmap.allocated (bitmap b') m = if bool_decide (m ∈ l) then true else Bitmap.allocated (bitmap b) m.
Proof.
  intros Hb Hn. unfold bulk_allocate. rewrite (proj2 (Z.leb_le n _)) by lia. pose proof (wf_free _ Hb).
  destruct (allocate_times_spec (Z.to_nat (Z.min n (free b))) b Hb ltac:(lia)) as (b' & l & E & Hl & Hnd & Hin & Hb' & Hf & Hl' & Hall).
  exists b', l. split; [done|]. split; [lia|].
  split; [intros ->; rewrite <- Hl in E; by injection E|]. split; [done|]. split; [done|]. split; [done|].
  split; [lia|done].
Qed.

Lemma fill_clip_spec f s size (c : Clip V) len owner : fixed_wf f s size -> clip_wf f c owner ->
  clip_len c < len <= CLIP_SIZE V ->
  exists f' c' new, fill_clip len owner (f, c) = ((f', c'), Ok tt) /\ fixed_wf f' s size /\ same_store f f' /\
    clip_blocks c' = clip_blocks c ++ new /\ allocation_owner c' = Some owner /\
    Z.of_nat (length new) = Z.min (len - clip_len c) (free (db_bitmap (fs_bitmap f))) /\
    NoDup new /\ (forall a, a ∈ new -> ~ live_block f a) /\
    forall a, live_block f' a <-> live_block f a \/ a ∈ new.
Proof.
  intros Hf Hc Hlen. destruct (fixed_bitmap f s size Hf) as [Hb Ht]. unfold fill_clip.
  change (bindM (on_snd getM) ?k (f, c)) with (k c (f, c)). cbv beta.
  assert (saturating_sub len (clip_len c) = len - clip_len c) as -> by (unfold saturating_sub; lia).
  rewrite (proj2 (Z.eqb_neq _ 0)) by lia.
  destruct (bind_clip f c owner Hc) as (c1 & E1 & Ha1 & Ho1). rewrite (bindM_ok _ _ _ _ _ E1).
  assert (clip_blocks c1 = clip_blocks c) as Hb1 by (unfold clip_blocks; by rewrite Ha1).
  pose proof (clip_len_blocks c) as Hcl.
  destruct (bulk_spec _ (len - clip_len c) Hb) as (b' & l & E & Hl & Hz & Hnd & Hin & Hb' & Hf' & Hl' & Hall); [lia|].
  rewrite (bindM_ok _ _ _ (set_bits f b', c1) l) by (unfold on_fst; cbn [fst snd]; by rewrite (with_bitmap_ok _ _ _ _ E)).
  destruct l as [|n0 l0].
  { rewrite Hz by done. assert (set_bits f (db_bitmap (fs_bitmap f)) = f) as -> by (by destruct f as [[] ? ?]).
    exists f, c1, []. rewrite app_nil_r. split; [done|]. split; [done|]. split; [apply same_store_refl|].
    split; [done|]. split; [done|]. split; [done|]. split; [constructor|].
    split; [by intros a Ha%not_elem_of_nil|]. intros a. rewrite elem_of_nil. tauto. }
  set (l := n0 :: l0) in *. assert (0 < blocks f) as Hpos by (destruct (Hin n0 ltac:(left)); unfold blocks in *; lia).
  destruct (fs_quarry f) as [q|] eqn:Eq.
  2:{ pose proof (fw_state _ _ _ Hf) as Hd. rewrite Eq in Hd. unfold blocks in Hpos. rewrite Hd in Hpos. cbn in Hpos. lia. }
  destruct (bulk_live f s size q b' l Hf Eq Hl' Hnd Hin Hall) as (Hnd' & Hfresh & Hlive).
  destruct (fill_loop_ok (set_bits f b') q l c1) as (c' & E' & Ho' & _ & Hb''); [done| | |].
  { intros n Hn. destruct (fixed_number f s size q n Hf Eq) as (Ea & Hp & _); [by apply Hin|done]. }
  { rewrite clip_len_blocks, Hb1. lia. }
  exists (set_bits f b'), c', (allocation_address q <$> l). split; [exact E'|]. split; [|split; [by apply set_bits_store|]].
  - apply set_bits_wf; try done. intros m Hm. unfold blocks in Hpos. rewrite Hall by lia.
    rewrite bool_decide_eq_false_2; [apply Ht; lia|]. intros Hml. destruct (Hin m Hml). lia.
  - rewrite Hb'', Hb1, length_fmap. split; [done|]. split; [congruence|]. done.
Qed.

(** Emptying a clip frees the blocks on top of its first [len]. *)
Lemma unfill_loop_ok s size len fuel f (c : Clip V) owner : 0 <= len -> fixed_wf f s size -> clip_wf f c owner ->
  (length (clip_blocks c) < fuel)%nat ->
  exists f' c', unfill_loop fuel len (f, c) = ((f', c'), Ok tt) /\ fixed_wf f' s size /\ same_store f f' /\
    clip_blocks c' = take (Z.to_nat len) (clip_blocks c) /\ allocation_owner c' = allocation_owner c /\
    forall a, live_block f' a <-> live_block f a /\ ~ a ∈ drop (Z.to_nat len) (clip_blocks c).
Proof.
  intros Hlen. revert f c. induction fuel as [|fuel IH]; intros f c Hf Hc Hfuel; [lia|]. cbn [unfill_loop].
  change (bindM (on_snd getM) ?k (f, c)) with (k c (f, c)). cbv beta. rewrite clip_len_blocks.
  destruct (Z.ltb_spec len (Z.of_nat (length (clip_blocks c)))) as [Hlt|Hge].
  2:{ exists f, c. rewrite take_ge, drop_ge by lia. split; [done|]. split; [done|]. split; [apply same_store_refl|].
      split; [done|]. split; [done|]. intros a. rewrite elem_of_nil. tauto. }
  destruct (clip_blocks c) as [|x l _] eqn:El using rev_ind; [cbn in Hlt; lia|].
  destruct (vec_pop_law (allocations c) l x El) as (v & Epop & Hv).
  set (c1 := mkClip v (allocation_owner c) (clip_info c)). assert (clip_blocks c1 = l) as Hl1 by done.
  rewrite (bindM_ok _ _ _ (f, c1) (Some x)) by (unfold on_snd, clip_pop; cbn [fst snd]; by rewrite Epop).
  rewrite length_app in *. cbn [length] in *. pose proof (cw_nodup _ _ _ Hc) as Hnd. rewrite El in Hnd.
  apply list.NoDup_app in Hnd as (Hnd & Hx & _).
  destruct (deallocate_impl_spec f s size x Hf) as (f1 & E1 & Hf1 & Hi1 & Hq1 & Ho1 & Hh1 & _ & Hlive1).
  { apply (cw_live _ _ _ Hc). rewrite El. apply elem_of_app. right. by left. }
  assert (clip_wf f1 c1 owner) as Hc1.
  { split; rewrite ?clip_len_blocks, ?Hl1; [|done| |].
    - intros a Ha. apply Hlive1. split; [apply (cw_live _ _ _ Hc); rewrite El; apply elem_of_app; by left|].
      intros ->. apply (Hx x Ha). by left.
    - pose proof (cw_len _ _ _ Hc) as H. rewrite clip_len_blocks, El, length_app in H. cbn [length] in H. lia.
    - destruct (cw_owner _ _ _ Hc) as [[_ Hz]|Ho]; [rewrite El in Hz; by destruct l|by right]. }
  destruct (IH f1 c1 Hf1 Hc1) as (f' & c' & E' & Hf' & Hss & Hb' & Ho' & Hlive'); [rewrite Hl1; lia|].
  exists f', c'. split; [|split; [done|split; [|split; [|split; [done|]]]]].
  - rewrite (bindM_ok _ _ _ (f1, c1) tt) by (unfold on_fst; cbn [fst snd]; by rewrite E1). exact E'.
  - apply (same_store_trans f f1 f'); [by split|done].
  - rewrite Hb', Hl1, take_app_le by lia. done.
  - intros a. rewrite Hlive', Hlive1, Hl1, drop_app_le, elem_of_app, list_elem_of_singleton by lia. tauto.
Qed.

Lemma unfill_clip_spec s size len f (c : Clip V) owner : 0 <= len -> fixed_wf f s size -> clip_wf f c owner ->
  exists f' c', unfill_clip len (f, c) = ((f', c'), Ok tt) /\ fixed_wf f' s size /\ same_store f f' /\
    clip_blocks c' = take (Z.to_nat len) (clip_blocks c) /\ allocation_owner c' = allocation_owner c /\
    forall a, live_block f' a <-> live_block f a /\ ~ a ∈ drop (Z.to_nat len) (clip_blocks c).
Proof.
  intros Hlen Hf Hc. unfold unfill_clip. change (bindM (on_snd getM) ?k (f, c)) with (k c (f, c)). cbv beta.
  apply (unfill_loop_ok s size len _ f c owner); try done. rewrite clip_len_blocks. lia.
Qed.

(** ** Theorems *)

(** Allocating a block of a fixed size never panics.  If no block is free the answer is
    null and nothing changes; otherwise it is the address of a block that was not
    in use, aligned to the alignment asked for, whose memory is mapped and apart
    from that of every other block in use; exactly this block becomes used. *)
Theorem fixed_allocate_correct f s size layout :
  fixed_wf f s size -> fs_quarry f <> None -> layout_size layout <= size -> size mod layout_align layout = 0 ->
  (layout_align layout | L0_SIZE) ->
  (fixed_is_empty f = true /\ fixed_allocate layout f = (f, Ok 0)) \/
  (exists f' a, fixed_allocate layout f = (f', Ok a) /\ 0 < a /\ (layout_align layout | a) /\
     fixed_wf f' s size /\ ~ live_block f a /\ (forall b, live_block f' b <-> live_block f b \/ b = a) /\
     (forall p, touches_page a size p -> taken s p /\ mapped_page s p) /\
     forall b, live_block f b -> apart size a b).
Proof.
  intros Hf Hq Hs Ha Hd.
  destruct (allocate_fixed_spec f s size layout Hf Hq Hs Ha) as
    [H|(_ & f' & a & E & Hpos & Hf' & _ & _ & _ & Hnew & Hlive)]; [by left|right].
  assert (live_block f' a) as (q & n & Eq & [Hn Hu] & ->) by (apply Hlive; by right).
  destruct (fixed_number f' s size q n Hf' Eq Hn) as (_ & _ & Hal & _ & Hpg & Hap).
  exists f', (allocation_address q n). split; [done|]. split; [done|]. split.
  { apply Hal; [|done]. apply Z.mod_divide; [|done]. intros H0. rewrite H0 in Hd. destruct Hd as [x Hx].
    rewrite Z.mul_0_r in Hx. discriminate. }
  split; [done|]. split; [done|]. split; [done|]. split; [intros p Hp; by apply Hpg|].
  intros b Hb. assert (live_block f' b) as (q' & m & Eq' & [Hm _] & ->) by (apply Hlive; by left).
  rewrite Eq in Eq'. injection Eq' as <-. apply Hap; [done|]. by intros ->.
Qed.

(** Releasing a block: a block in use is released without panic, and no other block
    changes; releasing a block that is not in use panics. *)
Theorem fixed_deallocate_correct f s size layout q n :
  fixed_wf f s size -> fs_quarry f = Some q -> 0 <= n < blocks f ->
  layout_size layout <= size -> size mod layout_align layout = 0 ->
  let a := allocation_address q n in
  (in_use f n /\ exists f', fixed_deallocate a layout f = (f', Ok tt) /\ fixed_wf f' s size /\ same_store f f' /\
     forall b, live_block f' b <-> live_block f b /\ b <> a) \/
  (~ in_use f n /\ (fixed_deallocate a layout f).2 = Panic).
Proof.
  intros Hf Eq Hn Hs Ha a. destruct (fixed_number f s size q n Hf Eq Hn) as (_ & Hpos & _ & Hix & _).
  pose proof (fixed_deallocate_eq f s size layout q a Hf Eq Hs Ha Hpos) as Hde.
  destruct (Bitmap.allocated (bitmap (db_bitmap (fs_bitmap f))) n) eqn:Hu; [left|right].
  - split; [done|]. destruct (deallocate_impl_spec f s size a Hf) as (f' & E & Hf' & H1 & H2 & H3 & H4 & _ & Hlive).
    { by exists q, n. }
    exists f'. split; [by rewrite Hde|]. split; [done|]. by split.
  - split; [intros [_ H]; congruence|]. destruct (fixed_bitmap f s size Hf) as [Hb _].
    rewrite Hde. unfold deallocate_impl, a. rewrite (proj2 (Z.eqb_neq _ 0)) by lia. cbn [negb].
    rewrite bindM_lift, bindM_get. unfold quarry_of. rewrite Eq. cbn [unwrap_some]. rewrite bindM_lift.
    specialize (Hix 0 ltac:(pose proof (fw_size _ _ _ Hf); lia)). rewrite Z.add_0_r in Hix. rewrite Hix, bindM_lift.
    cbn [unwrap_some]. by rewrite bindM_lift, (is_free_spec _ Hb), bindM_lift, Hu by done.
Qed.

(** Stocking up never panics, touches no pages but its own, and keeps every block in use
    where it is and mapped, also when it fails.  On success the invariant holds, the number of blocks is
    the next one, the new ones are free, and the answer is the number of pages newly
    mapped, which is also what the statistics count. *)
Theorem stock_up_correct f s size :
  fixed_wf f s size -> info_room (fs_info f) ->
  exists f' s' r, stock_up V size (f, s) = ((f', s'), r) /\
    touches (fixed_owns f) s s' /\ (forall a, live_block f' a <-> live_block f a) /\ live_mapped f' s' size /\
    ((exists k, r = Ok k /\ stocked f f' s s' size (next_blocks f size) k) \/ exists e, r = Err e).
Proof. apply stock_up_spec. Qed.

(** Releasing the memory of an allocator without blocks in use always succeeds: none of
    its pages stays mapped, other pages are as they were, the answer is the number
    of pages it held, the statistics are balanced, and the allocator is as a new one, so that dropping it
    does not panic and it can be used again. *)
Theorem fixed_unmap_correct f s size :
  fixed_wf f s size -> (forall i, ~ in_use f i) -> tracks (fs_info f) [] (held_pages f) ->
  exists f' s', fixed_unmap (f, s) = ((f', s'), Ok (held_pages f)) /\ fixed_drop f' = Ok tt /\
    fixed_wf f' s' size /\ tracks (fs_info f') [] (held_pages f') /\
    touches (fixed_owns f) s s' /\ forall p, fixed_owns f p -> backing s' p = None.
Proof.
  intros Hf Hno Hi. destruct (fixed_unmap_spec f s size Hf Hno Hi) as (i' & s' & E & Hi' & Hto & Hun).
  exists (mkFixed dynamic_bitmap_new i' None), s'. split; [done|]. split; [done|]. split; [|done].
  split; [apply (touches_wf Hto)|apply (fw_size _ _ _ Hf)|done].
Qed.

(** Filling an empty clip and emptying it again: [fill_clip] moves as many fresh blocks into the clip as
    fit or are free, without panic, and [unfill_clip] gives exactly them back. *)
Theorem fill_unfill_roundtrip f s size (c : Clip V) len owner :
  fixed_wf f s size -> clip_wf f c owner -> clip_blocks c = [] -> 0 < len <= CLIP_SIZE V ->
  exists f1 c1 f2 c2, fill_clip len owner (f, c) = ((f1, c1), Ok tt) /\ clip_wf f1 c1 owner /\
    clip_len c1 = Z.min len (free (db_bitmap (fs_bitmap f))) /\
    (forall a, a ∈ clip_blocks c1 -> ~ live_block f a) /\
    unfill_clip 0 (f1, c1) = ((f2, c2), Ok tt) /\ fixed_wf f2 s size /\ clip_blocks c2 = [] /\
    forall a, live_block f2 a <-> live_block f a.
Proof.
  intros Hf Hc Hz Hl. assert (clip_len c = 0) as H0 by (rewrite clip_len_blocks, Hz; done).
  destruct (fill_clip_spec f s size c len owner Hf Hc) as
    (f1 & c1 & new & E1 & Hf1 & _ & Hb1 & Ho1 & Hn & Hnd & Hfresh & Hlive1); [lia|].
  rewrite Hz in Hb1. cbn [app] in Hb1. rewrite H0, Z.sub_0_r in Hn.
  assert (clip_wf f1 c1 owner) as Hc1.
  { split; rewrite ?clip_len_blocks, ?Hb1; [|done|lia|by right]. intros a Ha. apply Hlive1. by right. }
  destruct (unfill_clip_spec s size 0 f1 c1 owner ltac:(lia) Hf1 Hc1) as (f2 & c2 & E2 & Hf2 & _ & Hb2 & _ & Hlive2).
  exists f1, c1, f2, c2. split; [done|]. split; [done|]. split; [rewrite clip_len_blocks, Hb1; lia|].
  split; [by rewrite Hb1|]. split; [done|]. split; [done|]. split; [by rewrite Hb2|].
  intros a. rewrite Hlive2, Hlive1. cbn [Z.to_nat drop]. rewrite drop_0, Hb1. split; [tauto|]. intros Ha. split; [by left|].
  intros Hin. by apply (Hfresh a).
Qed.

End Invariant.

(** ** Witnesses *)

(** A list as the vector of a clip, with the one word [heapless::Vec] has beside its
    elements. *)
#[export] Instance list_vec : HeaplessVec (list Z) := {|
  vec_empty_size := 8;
  vec_new := [];
  vec_len := fun l => Z.of_nat (length l);
  vec_capacity := fun _ => 22;
  vec_push := fun x l => if Z.of_nat (length l) <? 22 then (l ++ [x], None) else (l, Some x);
  vec_push_unchecked := fun x l => l ++ [x];
  vec_pop := fun l => match rev l with [] => ([], None) | x :: r => (rev r, Some x) end;
|}.

#[export] Instance list_vec_laws : HeaplessVecLaws (list Z).
Proof.
  refine {| vec_elements := fun l => l |}; try done; cbn.
  - intros x v. change (CLIP_SIZE (list Z)) with 22. destruct (Z.of_nat (length v) <? 22); eauto.
  - by intros v ->.
  - intros v l x ->. rewrite rev_app_distr. cbn. exists l. by rewrite rev_involutive.
Defined.

(** An allocator of blocks of 48 bytes with its first blocks on the reference page allocator. *)
Definition sample_stock : FixedSizeAllocator * Bump := (stock_up (list Z) 48 (fixed_new, bump_zero)).1.

Lemma sample_new_wf frames : fixed_wf fixed_new (bump_frames frames) 48 /\ info_room (fs_info fixed_new).
Proof.
  split; [apply fixed_new_wf; [apply bump_frames_wf|consts; lia|reflexivity]|].
  split; [apply words_ok_iff; unfold is_usize; cbn; lia|cbn; lia].
Qed.

Lemma sample_stock_wf : fixed_wf sample_stock.1 sample_stock.2 48 /\ fs_quarry sample_stock.1 <> None.
Proof.
  destruct (sample_new_wf (2 ^ 40)) as [Hw Hi].
  destruct (stock_up_spec (V := list Z) fixed_new bump_zero 48 Hw Hi) as (f & s & r & E & _ & _ & _ & Hcase).
  unfold sample_stock. rewrite E. cbn [fst snd].
  destruct Hcase as [(k & -> & Hst)|(e & ->)]; [split; apply Hst|].
  exfalso. assert (is_ok (stock_up (list Z) 48 (fixed_new, bump_zero)).2 = true) as H by (vm_compute; reflexivity).
  by rewrite E in H.
Qed.

Lemma stock_up_correct_witness :
  exists f s, stock_up (list Z) 48 (fixed_new, bump_zero) = ((f, s), Ok 2) /\ blocks f = 22 /\ held_pages f = 2.
Proof.
  destruct (sample_new_wf (2 ^ 40)) as [Hw Hi].
  destruct (stock_up_correct (V := list Z) fixed_new bump_zero 48 Hw Hi) as (f & s & r & E & _ & _ & _ & Hcase).
  assert ((stock_up (list Z) 48 (fixed_new, bump_zero)).2 = Ok 2) as Hr by (vm_compute; reflexivity).
  rewrite E in Hr. cbn [snd] in Hr. subst r. exists f, s.
  destruct Hcase as [(k & [= <-] & Hst)|(e & He)]; [|discriminate He].
  destruct Hst as (_ & _ & Hb & _ & Hh & _). split; [exact E|]. split; [exact Hb|exact Hh].
Defined.

Lemma fixed_allocate_correct_witness :
  exists f a, fixed_allocate (mkLayout 40 16) sample_stock.1 = (f, Ok a) /\ (16 | a) /\ fixed_wf f sample_stock.2 48.
Proof.
  destruct (fixed_allocate_correct sample_stock.1 sample_stock.2 48 (mkLayout 40 16)) as
    [(He & _)|(f & a & E & _ & Ha & Hf & _)]; [apply sample_stock_wf|apply sample_stock_wf|cbn; lia|reflexivity|by exists 256|..].
  - exfalso. assert (fixed_is_empty sample_stock.1 = false) as H by (vm_compute; reflexivity). congruence.
  - exists f, a. split; [exact E|]. split; [exact Ha|exact Hf].
Defined.

(** The same after one block is taken. *)
Definition sample_taken : FixedSizeAllocator := (fixed_allocate (mkLayout 40 16) sample_stock.1).1.

Lemma sample_taken_wf : fixed_wf sample_taken sample_stock.2 48.
Proof.
  destruct (allocate_fixed_spec sample_stock.1 sample_stock.2 48 (mkLayout 40 16)) as
    [(He & _)|(_ & f & a & E & _ & Hf & _)]; [apply sample_stock_wf|apply sample_stock_wf|cbn; lia|reflexivity|..].
  - exfalso. assert (fixed_is_empty sample_stock.1 = false) as H by (vm_compute; reflexivity). congruence.
  - unfold sample_taken. by rewrite E.
Qed.

Lemma fixed_deallocate_correct_witness : exists q, fs_quarry sample_taken = Some q /\
  (exists f, fixed_deallocate (allocation_address q 0) (mkLayout 40 16) sample_taken = (f, Ok tt)) /\
  (fixed_deallocate (allocation_address q 1) (mkLayout 40 16) sample_taken).2 = Panic.
Proof.
  destruct (fs_quarry sample_taken) as [q|] eqn:Eq; [|vm_compute in Eq; discriminate Eq].
  exists q. split; [reflexivity|].
  assert (blocks sample_taken = 22) as Hb by (vm_compute; reflexivity). split.
  - destruct (fixed_deallocate_correct sample_taken sample_stock.2 48 (mkLayout 40 16) q 0) as
      [(_ & f & E & _)|(Hno & _)]; [apply sample_taken_wf|exact Eq|lia|cbn; lia|reflexivity|exists f; exact E|].
    exfalso. apply Hno. split; [lia|vm_compute; reflexivity].
  - destruct (fixed_deallocate_correct sample_taken sample_stock.2 48 (mkLayout 40 16) q 1) as
      [([_ Hu] & _)|(_ & E)]; [apply sample_taken_wf|exact Eq|lia|cbn; lia|reflexivity| |exact E].
    vm_compute in Hu. discriminate Hu.
Defined.

Lemma fixed_unmap_correct_witness :
  exists f s, fixed_unmap sample_stock = ((f, s), Ok 2) /\ fixed_drop f = Ok tt.
Proof.
  destruct (fixed_unmap_correct sample_stock.1 sample_stock.2 48) as (f & s & E & Hd & _).
  - apply sample_stock_wf.
  - intros i [Hi Hu]. assert (blocks sample_stock.1 = 22) as Hb by (vm_compute; reflexivity).
    assert (forallb (fun i => negb (Bitmap.allocated (bitmap (db_bitmap (fs_bitmap sample_stock.1))) i)) (seqZ 0 22) = true) as H
      by (vm_compute; reflexivity).
    rewrite forallb_forall in H. specialize (H i). rewrite Hu in H. discriminate H.
    apply list_elem_of_In, elem_of_seqZ. lia.
  - split; [apply words_ok_iff; unfold is_usize; vm_compute; repeat split; discriminate| | | | | |constructor];
      vm_compute; try reflexivity; discriminate.
  - exists f, s. rewrite <- surjective_pairing in E. split; [exact E|exact Hd].
Defined.

Lemma fill_unfill_roundtrip_witness :
  exists f c, fill_clip 11 7 (sample_stock.1, clip_new (V := list Z)) = ((f, c), Ok tt) /\ clip_len c = 11.
Proof.
  destruct (fill_unfill_roundtrip sample_stock.1 sample_stock.2 48 (clip_new (V := list Z)) 11 7) as
    (f & c & _ & _ & E & _ & Hl & _); [apply sample_stock_wf| |reflexivity|change (CLIP_SIZE (list Z)) with 22; lia|].
  - split; [intros a Ha; apply elem_of_nil in Ha; contradiction|constructor|vm_compute; discriminate|left; split; reflexivity].
  - exists f, c. split; [exact E|]. rewrite Hl. vm_compute. reflexivity.
Defined.

(** ** When the page allocator runs out of frames *)

(** A failing [stock_up] does not leave the allocator as it was.  If the frames run out
    after the bitmap has grown, the next allocation returns the address of memory
    that is not mapped; if they run out before, the next [stock_up] panics. *)
Theorem stock_up_failure_breaks :
  (let st := stock_up (list Z) 48 (fixed_new, bump_frames 1) in
   st.2 = Err NoFrame /\
   exists a, (fixed_allocate (mkLayout 40 16) st.1.1).2 = Ok a /\ 0 < a /\ backing st.1.2 (a / L0_SIZE) = None) /\
  (let st := stock_up (list Z) 48 (fixed_new, bump_frames 0) in
   st.2 = Err NoFrame /\ (stock_up (list Z) 48 st.1).2 = Panic).
Proof.
  split; (split; [vm_compute; reflexivity|]).
  - exists 57344. repeat split; vm_compute; reflexivity.
  - vm_compute. reflexivity.
Qed.
