(* ===== verification/Dispatcher.v ===== *)
(** * Dispatcher: the general purpose allocator

    Models [ku/src/allocator/dispatcher.rs]: it chooses by the layout between the
    allocators of fixed sizes, each with a clip of cached blocks, and the page
    allocator, and keeps the statistics.  The contents of memory are not modelled, so
    that copying and zeroing blocks leave no trace. *)

From Stdlib Require Import ZArith Lia.
From stdpp Require Import base list numbers tactics.
From S2P Require Import Prelude Addr Frage Block Mmu PageAllocator BigAllocator.
From S2P Require Import AllocInfo Bitmap Bump DynamicBitmap Quarry FixedSize.

Open Scope Z_scope.
Open Scope outcome_scope.

Definition FIXED_SIZE_COUNT : Z := (4 * L0_SIZE - 1) / MIN_SIZE.

Definition get_size (index : Z) : outcome Z :=
  let? n := usize_add index 1 in usize_mul n MIN_SIZE.

(** [usize::next_multiple_of] panics when the result does not fit. *)
Definition usize_next_multiple_of (a b : Z) : outcome Z :=
  if fits_usize (next_multiple_of a b) then Ok (next_multiple_of a b) else Panic.

Definition get_fixed_size_index (layout : Layout) : outcome (option Z) :=
  let? size := usize_next_multiple_of (layout_size layout) MIN_SIZE in
  let? align := usize_next_multiple_of (layout_align layout) MIN_SIZE in
  let required_size := Z.max size align in
  let? required_size := usize_next_multiple_of required_size align in
  if (required_size mod L0_SIZE =? 0) || (FIXED_SIZE_COUNT * MIN_SIZE <? required_size) then Ok None
  else
    let? index := usize_sub (required_size / MIN_SIZE) 1 in
    Ok (Some index).

(** [validate_layout] of the dispatcher. *)
Definition validate_nonempty (layout : Layout) : outcome unit :=
  assert! negb (layout_size layout =? 0) in Ok tt.

Inductive Operation := Allocation | Deallocation.

Record Dispatcher (V : Type) := mkDispatcher {
  cache : list (Clip V);
  fallback_info : AtomicInfo;
  fixed_size : list FixedSizeAllocator;
  info : AtomicInfo;
}.
Arguments mkDispatcher {V}.
Arguments cache {V}.
Arguments fallback_info {V}.
Arguments fixed_size {V}.
Arguments info {V}.

(** The cache of the dispatcher is the list of its clips; [available] is the constant
    [Cache::CACHE_AVAILABLE]. *)
Section Operations.
  Context {V : Type} `{HeaplessVec V} {S : Type} `{BigAllocator S} (available : bool).

Definition dispatcher_new : Dispatcher V :=
  mkDispatcher (replicate (Z.to_nat FIXED_SIZE_COUNT) clip_new) atomic_info_new
    (replicate (Z.to_nat FIXED_SIZE_COUNT) fixed_new) atomic_info_new.

(** *** Parts of the state *)

Definition update_total (f : AtomicInfo -> AtomicInfo) : M (Dispatcher V * S) unit := fun st =>
  let '(d, s) := st in ((mkDispatcher (cache d) (fallback_info d) (fixed_size d) (f (info d)), s), Ok tt).
Definition update_fallback (f : AtomicInfo -> AtomicInfo) : M (Dispatcher V * S) unit := fun st =>
  let '(d, s) := st in ((mkDispatcher (cache d) (f (fallback_info d)) (fixed_size d) (info d), s), Ok tt).

(** [cache.with_borrow_mut(index, ..)] and [fixed_size[index].lock()]. *)
Definition on_clip {A} (index : Z) (c : M (Clip V) A) : M (Dispatcher V * S) A := fun st =>
  let '(d, s) := st in
  match Prelude.index (cache d) index with
  | Ok clip =>
      let '(clip, r) := c clip in
      ((mkDispatcher (<[Z.to_nat index := clip]> (cache d)) (fallback_info d) (fixed_size d) (info d), s), r)
  | _ => (st, Panic)
  end.
Definition on_allocator {A} (index : Z) (c : M (FixedSizeAllocator * S) A) : M (Dispatcher V * S) A := fun st =>
  let '(d, s) := st in
  match Prelude.index (fixed_size d) index with
  | Ok f =>
      let '((f, s), r) := c (f, s) in
      ((mkDispatcher (cache d) (fallback_info d) (<[Z.to_nat index := f]> (fixed_size d)) (info d), s), r)
  | _ => (st, Panic)
  end.
Definition on_both {A} (index : Z) (c : M (FixedSizeAllocator * Clip V) A) : M (Dispatcher V * S) A := fun st =>
  let '(d, s) := st in
  match Prelude.index (fixed_size d) index, Prelude.index (cache d) index with
  | Ok f, Ok clip =>
      let '((f, clip), r) := c (f, clip) in
      ((mkDispatcher (<[Z.to_nat index := clip]> (cache d)) (fallback_info d)
          (<[Z.to_nat index := f]> (fixed_size d)) (info d), s), r)
  | _, _ => (st, Panic)
  end.

(** *** Statistics *)

(** The [#[cfg(feature = "allocator-statistics")]] parts: the statistics of the allocator of
    this size and the total. *)
Definition count_allocation (index : Z) (layout : Layout) : M (Dispatcher V * S) unit :=
  let! size := liftM (get_size index) in
  let! _ := on_allocator index (on_fst (update_info (fun i => AllocInfo.allocation i (layout_size layout) size 0))) in
  update_total (fun i => atomic_allocation i (layout_size layout) size 0).
Definition count_deallocation (index : Z) (layout : Layout) : M (Dispatcher V * S) unit :=
  let! size := liftM (get_size index) in
  let! _ := on_allocator index (on_fst (update_info (fun i => AllocInfo.deallocation i (layout_size layout) size 0))) in
  update_total (fun i => atomic_deallocation i (layout_size layout) size 0).

Definition update_fallback_info (operation : Operation) (layout : Layout) : M (Dispatcher V * S) unit :=
  let allocated_pages := div_ceil (layout_size layout) L0_SIZE in
  let! allocated := liftM (usize_mul allocated_pages L0_SIZE) in
  let change := fun i =>
    match operation with
    | Allocation => atomic_allocation i (layout_size layout) allocated allocated_pages
    | Deallocation => atomic_deallocation i (layout_size layout) allocated allocated_pages
    end in
  let! _ := update_fallback change in
  update_total change.

(** *** Allocation *)

Definition fallback_allocate (layout : Layout) (initialize : Initialize) : M (Dispatcher V * S) Z :=
  let! slice := okM (on_snd (dry_allocate layout initialize)) in
  match slice with
  | Some (ptr, _) => let! _ := update_fallback_info Allocation layout in retM ptr
  | None => retM 0
  end.

(** The stock is renewed when it is used up; [false] when that fails. *)
Definition refill (index : Z) : M (Dispatcher V * S) bool :=
  let! empty := on_allocator index (on_fst (let! f := getM in retM (fixed_is_empty f))) in
  if empty : bool then
    let! size := liftM (get_size index) in
    let! stocked := okM (on_allocator index (stock_up V size)) in
    match stocked with
    | Some allocated_pages =>
        let! _ :=
          (if 0 <? allocated_pages
           then update_total (fun i => atomic_pages_allocation i allocated_pages) else retM tt) in
        retM true
    | None => retM false
    end
  else retM true.

Definition fixed_size_allocate (index : Z) (layout : Layout) : M (Dispatcher V * S) Z :=
  if available then
    let! ptr := on_clip index clip_pop in
    match ptr with
    | Some ptr => let! _ := count_allocation index layout in retM ptr
    | None =>
        let! refilled := refill index in
        if refilled : bool then
          let! _ := on_both index (
            let! clip := on_snd getM in
            fill_clip (clip_capacity clip / 2) index) in
          let! ptr := on_clip index clip_pop in
          match ptr with
          | Some ptr => let! _ := count_allocation index layout in retM ptr
          | None => retM 0
          end
        else retM 0
    end
  else
    let! refilled := refill index in
    if refilled : bool then
      let! ptr := on_allocator index (on_fst (fixed_allocate layout)) in
      let! _ := (if negb (ptr =? 0) then count_allocation index layout else retM tt) in
      retM ptr
    else retM 0.

(** *** Deallocation *)

(** The block goes into the clip if there is room. *)
Definition try_cache (ptr : Z) : M (Clip V) bool :=
  let! clip := getM in
  if clip_len clip <? clip_capacity clip then let! _ := clip_push_unchecked ptr in retM true
  else retM false.

Definition fixed_size_deallocate (index ptr : Z) (layout : Layout) : M (Dispatcher V * S) unit :=
  if available then
    let! cached := on_clip index (try_cache ptr) in
    if cached : bool then count_deallocation index layout
    else
      let! _ := on_both index (
        let! clip := on_snd getM in
        unfill_clip (clip_capacity clip / 2)) in
      let! cached := on_clip index (try_cache ptr) in
      if cached : bool then count_deallocation index layout
      else
        let! _ := on_allocator index (on_fst (fixed_deallocate ptr layout)) in
        count_deallocation index layout
  else
    let! _ := on_allocator index (on_fst (fixed_deallocate ptr layout)) in
    count_deallocation index layout.

(** [fallback.deallocate] and the statistics, of [dealloc] and [realloc]. *)
Definition fallback_deallocate (ptr : Z) (layout : Layout) : M (Dispatcher V * S) unit :=
  let! _ := liftM (assert! negb (ptr =? 0) in Ok tt) in
  let! _ := on_snd (dry_deallocate ptr layout) in
  update_fallback_info Deallocation layout.

(** *** [GlobalAlloc] *)

Definition alloc (layout : Layout) : M (Dispatcher V * S) Z :=
  let! _ := liftM (validate_nonempty layout) in
  let! index := liftM (get_fixed_size_index layout) in
  match index with
  | Some index => fixed_size_allocate index layout
  | None => fallback_allocate layout Garbage
  end.

Definition dealloc (ptr : Z) (layout : Layout) : M (Dispatcher V * S) unit :=
  let! _ := liftM (validate_nonempty layout) in
  let! index := liftM (get_fixed_size_index layout) in
  match index with
  | Some index => fixed_size_deallocate index ptr layout
  | None => fallback_deallocate ptr layout
  end.

Definition alloc_zeroed (layout : Layout) : M (Dispatcher V * S) Z :=
  let! _ := liftM (validate_nonempty layout) in
  let! index := liftM (get_fixed_size_index layout) in
  match index with
  | Some index => fixed_size_allocate index layout
  | None => fallback_allocate layout Zero
  end.

(** The block stays in its size class. *)
Definition recount (index : Z) (old_layout new_layout : Layout) : M (Dispatcher V * S) unit :=
  let! size := liftM (get_size index) in
  let! _ := on_allocator index (on_fst (update_info (fun i => AllocInfo.deallocation i (layout_size old_layout) size 0))) in
  let! _ := on_allocator index (on_fst (update_info (fun i => AllocInfo.allocation i (layout_size new_layout) size 0))) in
  let! _ := update_total (fun i => atomic_deallocation i (layout_size old_layout) size 0) in
  update_total (fun i => atomic_allocation i (layout_size new_layout) size 0).

Definition fallback_realloc (old_ptr : Z) (old_layout new_layout : Layout) : M (Dispatcher V * S) Z :=
  let! _ := liftM (assert! negb (old_ptr =? 0) in Ok tt) in
  let! slice :=
    okM (on_snd (if layout_size old_layout <? layout_size new_layout
                 then dry_grow old_ptr old_layout new_layout Garbage
                 else dry_shrink old_ptr old_layout new_layout)) in
  match slice with
  | Some (ptr, _) =>
      let! _ := update_fallback_info Allocation new_layout in
      let! _ := update_fallback_info Deallocation old_layout in
      retM ptr
  | None => retM 0
  end.

Definition realloc (old_ptr : Z) (old_layout : Layout) (new_size : Z) : M (Dispatcher V * S) Z :=
  let! new_layout := liftM (unwrap (from_size_align new_size (layout_align old_layout))) in
  let! _ := liftM (validate_nonempty new_layout) in
  let! old_index := liftM (get_fixed_size_index old_layout) in
  let! new_index := liftM (get_fixed_size_index new_layout) in
  match old_index, new_index with
  | Some old_idx, Some new_idx =>
      if old_idx =? new_idx then let! _ := recount old_idx old_layout new_layout in retM old_ptr
      else
        let! new_ptr := fixed_size_allocate new_idx new_layout in
        if negb (new_ptr =? 0) then let! _ := fixed_size_deallocate old_idx old_ptr old_layout in retM new_ptr
        else retM new_ptr
  | Some old_idx, None =>
      let! new_ptr := fallback_allocate new_layout Garbage in
      if negb (new_ptr =? 0) then let! _ := fixed_size_deallocate old_idx old_ptr old_layout in retM new_ptr
      else retM new_ptr
  | None, Some new_idx =>
      let! new_ptr := fixed_size_allocate new_idx new_layout in
      if negb (new_ptr =? 0) then let! _ := fallback_deallocate old_ptr old_layout in retM new_ptr
      else retM new_ptr
  | None, None => fallback_realloc old_ptr old_layout new_layout
  end.

(** *** Releasing everything *)

Definition load_total : M (Dispatcher V * S) Info :=
  let! d := on_fst getM in liftM (load (info d)).

Definition empty_clip (index : Z) : M (Dispatcher V * S) unit :=
  on_both index (
    let! clip := on_snd getM in
    if negb (clip_is_empty clip) then unfill_clip 0 else retM tt).

Definition unmap_allocator (index : Z) : M (Dispatcher V * S) unit :=
  let! freed := okM (on_allocator index fixed_unmap) in
  match freed with
  | Some freed_pages => update_total (fun i => atomic_pages_deallocation i freed_pages)
  | None => retM tt
  end.

Definition unmap : M (Dispatcher V * S) unit :=
  let! d := on_fst getM in
  let! i := liftM (load (info d)) in
  let! _ := liftM (assert_freed i) in
  let! i := liftM (load (fallback_info d)) in
  let! _ := liftM (assert_freed i) in
  let! _ := (if available then for_list empty_clip (seqZ 0 FIXED_SIZE_COUNT) else retM tt) in
  let! _ := for_list unmap_allocator (seqZ 0 FIXED_SIZE_COUNT) in
  let! i := load_total in
  liftM (let? n := balance (pages i) in assert! n =? 0 in Ok tt).

End Operations.

(** ** Detailed statistics *)

Record DetailedInfo := mkDetailedInfo {
  total_info : Info;
  detailed_fallback : Info;
  detailed_fixed_size : list Info;
}.

Definition detailed_info {V} (d : Dispatcher V) : outcome DetailedInfo :=
  let? total := load (info d) in
  let? fallback := load (fallback_info d) in
  Ok (mkDetailedInfo total fallback (fs_info <$> fixed_size d)).

(** The loop of [DetailedInfo::is_valid]; an [Err] of the subtraction ends it. *)
Fixpoint subtract_all (balance : Info) (parts : list Info) : outcome (option Info) :=
  match parts with
  | [] => Ok (Some balance)
  | part :: parts =>
      let? valid := info_is_valid part in
      if valid : bool then
        match info_sub balance part with
        | Ok new_balance => subtract_all new_balance parts
        | Err _ => Ok None
        | Panic => Panic
        end
      else Ok None
  end.

Definition detailed_is_valid (i : DetailedInfo) : outcome bool :=
  let? valid := info_is_valid (total_info i) in
  if negb valid then Ok false
  else
    let? valid := info_is_valid (detailed_fallback i) in
    if negb valid then Ok false
    else
      match info_sub (total_info i) (detailed_fallback i) with
      | Ok balance =>
          let? balance := subtract_all balance (detailed_fixed_size i) in
          Ok (bool_decide (balance = Some info_new))
      | Err _ => Ok false
      | Panic => Panic
      end.

(** ** Size classes *)

Definition class_size (i : Z) : Z := (i + 1) * MIN_SIZE.

Lemma next_multiple_of_spec a b : 0 <= a -> 0 < b ->
  a <= next_multiple_of a b < a + b /\ (b | next_multiple_of a b).
Proof.
  intros Ha Hb. unfold next_multiple_of. pose proof (Z.div_mod a b ltac:(lia)). pose proof (Z.mod_pos_bound a b Hb).
  destruct (Z.eqb_spec (a mod b) 0) as [E|E].
  - split; [lia|]. by apply Z.mod_divide; [lia|].
  - split; [lia|]. exists (a / b + 1). lia.
Qed.

Lemma usize_next_multiple_ok a b : 0 <= a < 2 ^ 63 + 8 -> 0 < b <= 2 ^ 62 ->
  usize_next_multiple_of a b = Ok (next_multiple_of a b).
Proof.
  intros Ha Hb. destruct (next_multiple_of_spec a b ltac:(lia) ltac:(lia)) as [Hm _].
  unfold usize_next_multiple_of. by rewrite (proj2 (fits_usize_true _)) by (unfold is_usize; lia).
Qed.

(** The alignment that blocks of a class have at least. *)
Lemma align_class k : 0 <= k <= 62 -> exists k', k <= k' /\ 3 <= k' <= 62 /\ next_multiple_of (2 ^ k) MIN_SIZE = 2 ^ k' /\
  2 ^ k' = Z.max 8 (2 ^ k).
Proof.
  intros Hk. change MIN_SIZE with (2 ^ 3). destruct (Z.le_gt_cases 3 k).
  - exists k. pose proof (Z.pow_le_mono_r 2 3 k ltac:(lia) ltac:(lia)). split; [lia|]. split; [lia|]. split; [|lia].
    unfold next_multiple_of. rewrite (proj2 (Z.eqb_eq _ 0)); [done|]. apply Z.mod_divide; [lia|].
    exists (2 ^ (k - 3)). rewrite <- Z.pow_add_r by lia. f_equal. lia.
  - exists 3. split; [lia|]. split; [lia|]. assert (k = 0 \/ k = 1 \/ k = 2) as [->|[->| ->]] by lia; done.
Qed.

(** Powers of two that do not divide the page size are multiples of it. *)
Lemma pow_divides_page k n : 0 <= k -> (2 ^ k | n) -> n mod L0_SIZE <> 0 -> (2 ^ k | L0_SIZE).
Proof.
  intros Hk Hd Hn. change L0_SIZE with (2 ^ 12) in *. destruct (Z.le_gt_cases k 12).
  - exists (2 ^ (12 - k)). rewrite <- Z.pow_add_r by lia. f_equal. lia.
  - exfalso. apply Hn. apply Z.mod_divide; [lia|]. etrans; [|exact Hd]. exists (2 ^ (k - 12)).
    rewrite <- Z.pow_add_r by lia. f_equal. lia.
Qed.

Lemma size_class_spec l : layout_valid l -> 0 < layout_size l ->
  (get_fixed_size_index l = Ok None) \/
  (exists i, get_fixed_size_index l = Ok (Some i) /\ 0 <= i < FIXED_SIZE_COUNT /\ get_size i = Ok (class_size i) /\
     layout_size l <= class_size i < layout_size l + Z.max MIN_SIZE (layout_align l) /\
     class_size i mod layout_align l = 0 /\ (layout_align l | L0_SIZE)).
Proof.
  intros [Hs (k & Hk & Ha)] Hpos. unfold ISIZE_MAX in Hs. unfold get_fixed_size_index. rewrite Ha.
  pose proof (Z.pow_pos_nonneg 2 k ltac:(lia) ltac:(lia)) as Hp.
  destruct (align_class k Hk) as (k' & Hkk & Hk' & Ek & Em).
  assert (8 <= 2 ^ k' <= 2 ^ 62) as Hk2.
  { split; [apply (Z.pow_le_mono_r 2 3); lia|apply Z.pow_le_mono_r; lia]. }
  rewrite (usize_next_multiple_ok (layout_size l) MIN_SIZE) by (unfold MIN_SIZE; lia).
  rewrite (usize_next_multiple_ok (2 ^ k) MIN_SIZE) by (unfold MIN_SIZE; lia). rewrite Ek.
  destruct (next_multiple_of_spec (layout_size l) MIN_SIZE ltac:(lia) ltac:(done)) as [Hsz Hsd]. set (sz := next_multiple_of (layout_size l) MIN_SIZE) in *.
  change MIN_SIZE with 8 in *. rewrite usize_next_multiple_ok by lia.
  destruct (next_multiple_of_spec (Z.max sz (2 ^ k')) (2 ^ k') ltac:(lia) ltac:(lia)) as [Hr Hrd].
  set (r := next_multiple_of (Z.max sz (2 ^ k')) (2 ^ k')) in *.
  assert ((8 | 2 ^ k')) as H8. { exists (2 ^ (k' - 3)). change 8 with (2 ^ 3). rewrite <- Z.pow_add_r by lia. f_equal. lia. }
  assert (r < layout_size l + 2 ^ k') as Hwaste.
  { destruct Hrd as [x Hx], Hsd as [y Hy], H8 as [z Hz]. destruct (Z.le_gt_cases sz (2 ^ k')).
    - rewrite Z.max_r in Hr by lia. assert (x < 2) by (apply (Z.mul_lt_mono_pos_r (2 ^ k')); lia). nia.
    - rewrite Z.max_l in Hr by lia. assert (r = x * z * 8) by nia. lia. }
  destruct (Z.eqb_spec (r mod L0_SIZE) 0) as [|Hpage]; cbn [orb]; [by left|].
  change FIXED_SIZE_COUNT with 2047. change (2047 * 8) with 16376. destruct (Z.ltb_spec 16376 r); [by left|right].
  destruct (Z.divide_trans _ _ _ H8 Hrd) as [n Hn]. assert (r / 8 = n) as Hdiv by (rewrite Hn; apply Z.div_mul; lia).
  rewrite Hdiv, usize_sub_ok by (unfold is_usize; lia). exists (n - 1). split; [done|]. split; [lia|].
  assert (class_size (n - 1) = r) as Hcs by (unfold class_size, MIN_SIZE; lia).
  split; [unfold get_size; rewrite usize_add_ok by (unfold is_usize; lia); rewrite usize_mul_ok; [done|unfold is_usize, MIN_SIZE; lia]|].
  rewrite Hcs. split; [lia|].
  assert ((2 ^ k | r)) as Hkr.
  { etrans; [|exact Hrd]. exists (2 ^ (k' - k)). rewrite <- Z.pow_add_r by lia. f_equal. lia. }
  split; [by apply Z.mod_divide; [lia|]|]. by apply (pow_divides_page k r); [lia|..].
Qed.

(** ** The invariant *)

Lemma index_insert {A} (l : list A) i j a b : index l i = Ok b ->
  index (<[Z.to_nat i := a]> l) j = if decide (j = i) then Ok a else index l j.
Proof.
  intros [Hi Hb]%index_ok. apply lookup_lt_Some in Hb as Hlt. case_decide as Hj.
  - subst j. apply index_ok. split; [done|]. by apply list_lookup_insert_eq.
  - unfold index. destruct (Z.leb_spec 0 j); [|done]. by rewrite list_lookup_insert_ne by lia.
Qed.

(** Statistics below a bound. *)
Definition counter_below (B : Z) (c : Counter) : Prop := 0 <= negative c < B /\ 0 <= positive c < B.
Record info_below (B : Z) (i : Info) : Prop := {
  ib_allocated : counter_below B (AllocInfo.allocated i);
  ib_allocations : counter_below B (AllocInfo.allocations i);
  ib_pages : counter_below B (pages i);
  ib_requested : counter_below B (requested i);
}.

Lemma increase_below B c v : counter_below B c -> B <= 2 ^ 63 + 2 ^ 33 -> 0 <= v < 2 ^ 62 ->
  exists c', increase c v = Ok c'.
Proof. intros [? ?] ? ?. unfold increase. rewrite usize_add_ok by (unfold is_usize; lia). eauto. Qed.
Lemma decrease_below B c v : counter_below B c -> B <= 2 ^ 63 + 2 ^ 33 -> 0 <= v < 2 ^ 62 ->
  exists c', decrease c v = Ok c'.
Proof. intros [? ?] ? ?. unfold decrease. rewrite usize_add_ok by (unfold is_usize; lia). eauto. Qed.

(** Operations on such statistics do not overflow. *)
Lemma allocation_below B i r a p : info_below B i -> B <= 2 ^ 63 + 2 ^ 33 ->
  0 <= r < 2 ^ 62 -> 0 <= a < 2 ^ 62 -> 0 <= p < 2 ^ 62 -> exists i', AllocInfo.allocation i r a p = Ok i'.
Proof.
  intros [H1 H2 H3 H4] HB Hr Ha Hp. unfold AllocInfo.allocation.
  destruct (increase_below _ _ _ H1 HB Ha) as [? ->]. destruct (increase_below _ _ 1 H2 HB ltac:(lia)) as [? ->].
  destruct (increase_below _ _ _ H3 HB Hp) as [? ->]. destruct (increase_below _ _ _ H4 HB Hr) as [? ->]. eauto.
Qed.
Lemma deallocation_below B i r a p : info_below B i -> B <= 2 ^ 63 + 2 ^ 33 ->
  0 <= r < 2 ^ 62 -> 0 <= a < 2 ^ 62 -> 0 <= p < 2 ^ 62 -> exists i', AllocInfo.deallocation i r a p = Ok i'.
Proof.
  intros [H1 H2 H3 H4] HB Hr Ha Hp. unfold AllocInfo.deallocation.
  destruct (decrease_below _ _ _ H1 HB Ha) as [? ->]. destruct (decrease_below _ _ 1 H2 HB ltac:(lia)) as [? ->].
  destruct (decrease_below _ _ _ H3 HB Hp) as [? ->]. destruct (decrease_below _ _ _ H4 HB Hr) as [? ->]. eauto.
Qed.

Lemma info_below_room B i : info_below B i -> B <= 2 ^ 63 -> info_room i.
Proof.
  intros [[H1 H1'] [H2 H2'] [H3 H3'] [H4 H4']] HB. split; [|lia]. apply words_ok_iff. unfold is_usize. lia.
Qed.
Lemma pages_allocation_below i k i' : info_below (2 ^ 63) i -> 0 <= k <= 2 ^ 32 -> pages_allocation i k = Ok i' ->
  info_below (2 ^ 63 + 2 ^ 33) i'.
Proof.
  intros [[? ?] [? ?] [? ?] [? ?]] Hk E. unfold pages_allocation, increase in E.
  rewrite usize_add_ok in E by (unfold is_usize; lia). injection E as <-.
  split; split; cbn [AllocInfo.allocated AllocInfo.allocations pages requested negative positive]; lia.
Qed.

Section Invariant.
  Context {V : Type} `{HVec : HeaplessVec V} `{HVL : !HeaplessVecLaws V}.
  Context {S : Type} `{HB : BigAllocator S} `{HV : BigView S} `{HL : !BigAllocatorLaws S}.
  Context (available : bool).

Definition at_slot (d : Dispatcher V) (i : Z) (f : FixedSizeAllocator) (c : Clip V) : Prop :=
  index (fixed_size d) i = Ok f /\ index (cache d) i = Ok c.

(** An allocator and its clip.  A clip is bound to the allocator of its slot before the
    first block leaves it. *)
Record slot_wf (i : Z) (f : FixedSizeAllocator) (c : Clip V) (s : S) : Prop := {
  sl_fixed : fixed_wf f s (class_size i);
  sl_clip : clip_wf f c i;
  sl_bound a : available = true -> live_block f a -> allocation_owner c = Some i;
}.

Record disp_wf (d : Dispatcher V) (s : S) : Prop := {
  dp_big : big_wf s;
  dp_fixed_len : length (fixed_size d) = Z.to_nat FIXED_SIZE_COUNT;
  dp_cache_len : length (cache d) = Z.to_nat FIXED_SIZE_COUNT;
  dp_slot i f c : at_slot d i f c -> slot_wf i f c s;
  dp_apart i j f g p : i <> j -> index (fixed_size d) i = Ok f -> index (fixed_size d) j = Ok g ->
    fixed_owns f p -> ~ fixed_owns g p;
}.

(** The blocks of class [i] that are in the hands of the callers, and the pages of the
    allocators of fixed sizes. *)
Definition user_block (d : Dispatcher V) (i a : Z) : Prop :=
  exists f c, at_slot d i f c /\ live_block f a /\ ~ a ∈ clip_blocks c.
Definition disp_owns (d : Dispatcher V) (p : Z) : Prop :=
  exists i f, index (fixed_size d) i = Ok f /\ fixed_owns f p.

(** The statistics are far from overflowing. *)
Definition quiet (d : Dispatcher V) : Prop :=
  forall i f, index (fixed_size d) i = Ok f -> info_below (2 ^ 63) (fs_info f).

Definition set_slot (d : Dispatcher V) (i : Z) (f : FixedSizeAllocator) (c : Clip V) : Dispatcher V :=
  mkDispatcher (<[Z.to_nat i := c]> (cache d)) (fallback_info d) (<[Z.to_nat i := f]> (fixed_size d)) (info d).

Lemma slot_exists d s i : disp_wf d s -> 0 <= i < FIXED_SIZE_COUNT -> exists f c, at_slot d i f c.
Proof.
  intros Hd Hi. destruct (index_in_range (fixed_size d) i) as [f Hf]; [rewrite (dp_fixed_len _ _ Hd); lia|].
  destruct (index_in_range (cache d) i) as [c Hc]; [rewrite (dp_cache_len _ _ Hd); lia|]. by exists f, c.
Qed.

Lemma slot_of d s i f : disp_wf d s -> index (fixed_size d) i = Ok f -> exists c, at_slot d i f c.
Proof.
  intros Hd Hf. apply index_ok in Hf as [Hi Hl]. apply lookup_lt_Some in Hl as Hlt. rewrite (dp_fixed_len _ _ Hd) in Hlt.
  destruct (index_in_range (cache d) i) as [c Hc]; [rewrite (dp_cache_len _ _ Hd); lia|].
  exists c. split; [|done]. by apply index_ok.
Qed.

Lemma at_slot_set d i f c f' c' j g e : at_slot d i f c ->
  at_slot (set_slot d i f' c') j g e <-> (j = i /\ g = f' /\ e = c') \/ (j <> i /\ at_slot d j g e).
Proof.
  intros [Hf Hc]. unfold at_slot, set_slot. cbn [fixed_size cache].
  rewrite (index_insert _ i j f' f Hf), (index_insert _ i j c' c Hc). case_decide as Hj.
  - split; [intros [[= ->] [= ->]]; by left|intros [(_ & -> & ->)|[]]; done].
  - split; [intros H; by right|intros [[] | [_ H]]; done].
Qed.

Lemma fixed_owns_taken f s size p : fixed_wf f s size -> fixed_owns f p -> taken s p.
Proof.
  intros Hf Hp. pose proof (fw_state _ _ _ Hf) as Hst. unfold fixed_owns in Hp. destruct (fs_quarry f) as [q|].
  - destruct Hst as (_ & [Hh _] & Hbs & _). destruct Hp as [Hp|Hp]; [by apply (bitmap_state_taken _ _ _ _ Hbs)|].
    by apply (quarry_owns_taken q s (blocks f)).
  - rewrite Hst in Hp. destruct Hp as [Hp|[]]. unfold bitmap_owns, inside in Hp. cbn in Hp. lia.
Qed.

Lemma fixed_frame Q f s s' size : fixed_wf f s size -> touches Q s s' -> (forall p, fixed_owns f p -> ~ Q p) ->
  fixed_wf f s' size.
Proof.
  intros [Hb Hs Hst] Hto HQ. split; [apply (touches_wf Hto)|done|]. unfold fixed_owns in HQ. destruct (fs_quarry f) as [q|]; [|done].
  destruct Hst as (Hqs & Hex & Hbs & Hdis). split; [done|].
  split; [apply (quarry_exact_frame Q _ s); try done; intros p Hp; apply HQ; by right|]. split; [|done].
  apply (bitmap_state_frame Q _ s); try done. intros p Hp. apply HQ. by left.
Qed.

(** Only the allocators and the clips matter. *)
Lemma disp_wf_ext d d' s : cache d' = cache d -> fixed_size d' = fixed_size d -> disp_wf d s -> disp_wf d' s.
Proof. intros Hc Hf [H1 H2 H3 H4 H5]. unfold at_slot in *. split; unfold at_slot; rewrite ?Hc, ?Hf; done. Qed.

(** An operation on one slot. *)
Lemma update_slot d s s' i f c f' c' : disp_wf d s -> at_slot d i f c -> touches (fixed_owns f) s s' ->
  slot_wf i f' c' s' -> (forall p, fixed_owns f' p -> taken s p -> fixed_owns f p) -> disp_wf (set_slot d i f' c') s'.
Proof.
  intros Hd Hi Hto Hs Hown. pose proof Hi as [Hif _].
  assert (forall j g p, j <> i -> index (fixed_size d) j = Ok g -> fixed_owns g p -> ~ fixed_owns f p /\ taken s p) as Hother.
  { intros j g p Hj Hg Hp. split; [by apply (dp_apart _ _ Hd j i g f p)|].
    destruct (slot_of d s j g Hd Hg) as [e He]. apply (fixed_owns_taken g s (class_size j)); [|done].
    apply (sl_fixed _ _ _ _ (dp_slot _ _ Hd _ _ _ He)). }
  split.
  - apply (touches_wf Hto).
  - cbn [set_slot fixed_size]. rewrite length_insert. apply (dp_fixed_len _ _ Hd).
  - cbn [set_slot cache]. rewrite length_insert. apply (dp_cache_len _ _ Hd).
  - intros j g e [(-> & -> & ->)|[Hj He]]%(at_slot_set d i f c f' c'); [done| |done].
    destruct (dp_slot _ _ Hd _ _ _ He) as [Hgf Hgc Hgb]. split; [|done|done].
    apply (fixed_frame _ _ _ _ _ Hgf Hto). intros p Hp. destruct He as [He _]. by apply (Hother j g).
  - intros j k g h p Hjk. cbn [set_slot fixed_size]. rewrite !(index_insert _ i _ f' f Hif).
    case_decide as Hji; case_decide as Hki; [congruence|..].
    + intros [= <-] Hh Hp Hq. destruct (Hother k h p) as [Hn Ht]; [congruence|done|done|]. by apply Hn, Hown.
    + intros Hg [= <-] Hp Hq. destruct (Hother j g p) as [Hn Ht]; [congruence|done|done|]. by apply Hn, Hown.
    + intros Hg Hh. by apply (dp_apart _ _ Hd j k).
Qed.

Lemma user_block_at d i f c a : at_slot d i f c -> user_block d i a <-> live_block f a /\ ~ a ∈ clip_blocks c.
Proof.
  intros [Hsf Hsc]. split; [|by exists f, c]. intros (g & e & [Hg He] & Hx).
  assert (g = f) as -> by congruence. by assert (e = c) as -> by congruence.
Qed.

(** The blocks of callers after such an operation. *)
Lemma user_block_set d i f c f' c' j a : at_slot d i f c ->
  user_block (set_slot d i f' c') j a <->
    (j = i /\ live_block f' a /\ ~ a ∈ clip_blocks c') \/ (j <> i /\ user_block d j a).
Proof.
  intros Hi. split.
  - intros (g & e & He & Hl & Hn). apply (at_slot_set d i f c) in He as [(-> & -> & ->)|[Hj He]]; [by left|right|done].
    split; [done|]. by exists g, e.
  - intros [(-> & Hl & Hn)|(Hj & g & e & He & Hl & Hn)].
    + exists f', c'. split; [|done]. apply (at_slot_set d i f c); [done|by left].
    + exists g, e. split; [|done]. apply (at_slot_set d i f c); [done|by right].
Qed.

(** *** Operations on parts of the state *)

Lemma set_slot_id_fixed d i f c c' : at_slot d i f c ->
  mkDispatcher (<[Z.to_nat i := c']> (cache d)) (fallback_info d) (fixed_size d) (info d) = set_slot d i f c'.
Proof. intros [[_ Hf]%index_ok _]. unfold set_slot. by rewrite (list_insert_id (fixed_size d)). Qed.
Lemma set_slot_id_clip d i f c f' : at_slot d i f c ->
  mkDispatcher (cache d) (fallback_info d) (<[Z.to_nat i := f']> (fixed_size d)) (info d) = set_slot d i f' c.
Proof. intros [_ [_ Hc]%index_ok]. unfold set_slot. by rewrite (list_insert_id (cache d)). Qed.
Lemma set_slot_twice d i f c f' c' : set_slot (set_slot d i f c) i f' c' = set_slot d i f' c'.
Proof. unfold set_slot. cbn. by rewrite !list_insert_insert_eq. Qed.
Lemma at_slot_same d i f c f' c' : at_slot d i f c -> at_slot (set_slot d i f' c') i f' c'.
Proof. intros H. apply (at_slot_set d i f c); [done|by left]. Qed.

Lemma on_clip_ok {A} (op : M (Clip V) A) d s i f c c' r : at_slot d i f c -> op c = (c', r) ->
  on_clip i op (d, s) = ((set_slot d i f c', s : S), r).
Proof.
  intros Hi E. unfold on_clip. pose proof Hi as [_ Hc]. by rewrite Hc, E, (set_slot_id_fixed d i f c) by done.
Qed.
Lemma on_allocator_ok {A} (op : M (FixedSizeAllocator * S) A) d s i f c f' s' r : at_slot d i f c -> op (f, s) = ((f', s'), r) ->
  on_allocator i op (d, s) = ((set_slot d i f' c, s'), r).
Proof.
  intros Hi E. unfold on_allocator. pose proof Hi as [Hf _]. by rewrite Hf, E, (set_slot_id_clip d i f c) by done.
Qed.
Lemma on_both_ok {A} (op : M (FixedSizeAllocator * Clip V) A) d s i f c f' c' r : at_slot d i f c -> op (f, c) = ((f', c'), r) ->
  on_both i op (d, s) = ((set_slot d i f' c', s : S), r).
Proof. intros [Hf Hc] E. unfold on_both. by rewrite Hf, Hc, E. Qed.

(** *** Statistics change nothing else *)

Definition memory_of (f : FixedSizeAllocator) : DynamicBitmap * option Quarry := (fs_bitmap f, fs_quarry f).

Lemma same_memory f f' : memory_of f' = memory_of f ->
  (forall s size, fixed_wf f s size -> fixed_wf f' s size) /\ (forall a, live_block f' a <-> live_block f a) /\
  (forall p, fixed_owns f' p <-> fixed_owns f p) /\ held_pages f' = held_pages f.
Proof.
  intros [= Hb Hq]. unfold live_block, in_use, fixed_owns, held_pages, blocks. rewrite Hb, Hq.
  split; [|done]. intros s size [H1 H2 H3]. unfold blocks in H3. split; [done|done|]. unfold blocks. by rewrite Hb, Hq.
Qed.

Record recounted (d d' : Dispatcher V) : Prop := {
  rc_cache : cache d' = cache d;
  rc_memory : memory_of <$> fixed_size d' = memory_of <$> fixed_size d;
}.

Lemma recounted_refl d : recounted d d.
Proof. by split. Qed.
Lemma recounted_trans d d' d'' : recounted d d' -> recounted d' d'' -> recounted d d''.
Proof. intros [H1 H2] [H3 H4]. split; congruence. Qed.
Lemma recounted_sym d d' : recounted d d' -> recounted d' d.
Proof. intros [H1 H2]. by split. Qed.

Lemma recounted_index d d' i f : recounted d d' -> index (fixed_size d') i = Ok f ->
  exists g, index (fixed_size d) i = Ok g /\ memory_of f = memory_of g.
Proof.
  intros [_ H] [Hi Hl]%index_ok. assert ((memory_of <$> fixed_size d) !! Z.to_nat i = Some (memory_of f)) as Hm.
  { rewrite <- H, list_lookup_fmap, Hl. done. }
  rewrite list_lookup_fmap in Hm. destruct (fixed_size d !! Z.to_nat i) as [g|] eqn:E; [|done]. injection Hm as ? ?.
  exists g. split; [by apply index_ok|]. unfold memory_of. congruence.
Qed.

Lemma recounted_slot d d' i f c : recounted d d' -> at_slot d' i f c -> exists g, at_slot d i g c /\ memory_of f = memory_of g.
Proof.
  intros Hr [Hf Hc]. destruct (recounted_index d d' i f Hr Hf) as (g & Hg & Hm). exists g. split; [|done]. split; [done|].
  by rewrite <- (rc_cache _ _ Hr).
Qed.

Lemma disp_wf_recount d d' s : recounted d d' -> disp_wf d s -> disp_wf d' s.
Proof.
  intros Hr Hd. split.
  - apply (dp_big _ _ Hd).
  - rewrite <- (dp_fixed_len _ _ Hd), <- (length_fmap memory_of), (rc_memory _ _ Hr). apply length_fmap.
  - rewrite (rc_cache _ _ Hr). apply (dp_cache_len _ _ Hd).
  - intros i f c Hs. destruct (recounted_slot d d' i f c Hr Hs) as (g & Hg & Hm). destruct (same_memory g f Hm) as (Hw & Hl & _).
    destruct (dp_slot _ _ Hd _ _ _ Hg) as [Hgf [H1 H2 H3 H4] Hgb]. split; [by apply Hw| |].
    + split; try done. intros a Ha. by apply Hl, H1.
    + intros a Hav Ha. apply (Hgb a); [done|]. by apply Hl.
  - intros i j f g p Hij Hf Hg. destruct (recounted_index _ _ _ _ Hr Hf) as (f' & Hf' & Hmf).
    destruct (recounted_index _ _ _ _ Hr Hg) as (g' & Hg' & Hmg).
    destruct (same_memory _ _ Hmf) as (_ & _ & Ho & _). destruct (same_memory _ _ Hmg) as (_ & _ & Ho' & _). rewrite Ho, Ho'.
    by apply (dp_apart _ _ Hd i j).
Qed.

Lemma user_block_recount d d' i a : recounted d d' -> user_block d' i a <-> user_block d i a.
Proof.
  assert (forall d d', recounted d d' -> user_block d' i a -> user_block d i a) as H.
  { intros e e' Hr (f & c & Hs & Hl & Hn). destruct (recounted_slot e e' i f c Hr Hs) as (g & Hg & Hm).
    exists g, c. split; [done|]. split; [|done]. by apply (same_memory g f Hm). }
  intros Hr. split; apply H; [done|by apply recounted_sym].
Qed.

Lemma disp_owns_recount d d' p : recounted d d' -> disp_owns d' p <-> disp_owns d p.
Proof.
  assert (forall d d', recounted d d' -> disp_owns d' p -> disp_owns d p) as H.
  { intros e e' Hr (i & f & Hf & Hp). destruct (recounted_index _ _ _ _ Hr Hf) as (g & Hg & Hm).
    exists i, g. split; [done|]. by apply (same_memory g f Hm). }
  intros Hr. split; apply H; [done|by apply recounted_sym].
Qed.

Lemma set_info_recounted d i f c i' : at_slot d i f c ->
  recounted d (set_slot d i (mkFixed (fs_bitmap f) i' (fs_quarry f)) c).
Proof.
  intros [[_ Hf]%index_ok [_ Hc]%index_ok]. split; cbn [set_slot cache fixed_size].
  - by apply list_insert_id.
  - rewrite list_fmap_insert. apply list_insert_id. rewrite list_lookup_fmap, Hf. done.
Qed.

Lemma total_recounted (d : Dispatcher V) t : recounted d (mkDispatcher (cache d) (fallback_info d) (fixed_size d) t).
Proof. by split. Qed.

(** Counting in the statistics of a slot, then in the total. *)
Lemma count_ok (op : Info -> outcome Info) (t : AtomicInfo -> AtomicInfo) d s i f c i' :
  at_slot d i f c -> op (fs_info f) = Ok i' ->
  exists d', (let! _ := on_allocator i (on_fst (update_info op)) in update_total t) (d, s) = ((d', s : S), Ok tt) /\ recounted d d'.
Proof.
  intros Hi E. set (f' := mkFixed (fs_bitmap f) i' (fs_quarry f)).
  rewrite (bindM_ok _ _ _ (set_slot d i f' c, s) tt).
  2:{ apply (on_allocator_ok _ d s i f c); [done|]. unfold on_fst, update_info. cbn [fst snd]. by rewrite E. }
  eexists. split; [done|]. eapply recounted_trans; [by apply (set_info_recounted d i f c i')|]. apply total_recounted.
Qed.

Definition small_layout (l : Layout) : Prop := 0 <= layout_size l < 2 ^ 62.

Lemma get_size_ok i : 0 <= i < FIXED_SIZE_COUNT -> get_size i = Ok (class_size i) /\ 8 <= class_size i <= 16376.
Proof.
  intros Hi. change FIXED_SIZE_COUNT with 2047 in Hi. unfold get_size, class_size, MIN_SIZE.
  rewrite usize_add_ok, usize_mul_ok by (unfold is_usize; lia). split; [done|lia].
Qed.

Lemma count_allocation_spec d s i f c l : at_slot d i f c -> 0 <= i < FIXED_SIZE_COUNT -> small_layout l ->
  info_below (2 ^ 63 + 2 ^ 33) (fs_info f) ->
  exists d', count_allocation i l (d, s) = ((d', s : S), Ok tt) /\ recounted d d'.
Proof.
  intros Hs Hi Hl Hb. destruct (get_size_ok i Hi) as [Eg Hc]. unfold count_allocation. rewrite Eg, bindM_lift.
  destruct (allocation_below _ _ (layout_size l) (class_size i) 0 Hb ltac:(lia) Hl) as [i' E]; [lia..|].
  by apply (count_ok _ _ d s i f c i').
Qed.
Lemma count_deallocation_spec d s i f c l : at_slot d i f c -> 0 <= i < FIXED_SIZE_COUNT -> small_layout l ->
  info_below (2 ^ 63 + 2 ^ 33) (fs_info f) ->
  exists d', count_deallocation i l (d, s) = ((d', s : S), Ok tt) /\ recounted d d'.
Proof.
  intros Hs Hi Hl Hb. destruct (get_size_ok i Hi) as [Eg Hc]. unfold count_deallocation. rewrite Eg, bindM_lift.
  destruct (deallocation_below _ _ (layout_size l) (class_size i) 0 Hb ltac:(lia) Hl) as [i' E]; [lia..|].
  by apply (count_ok _ _ d s i f c i').
Qed.

(** *** Allocation *)

Definition with_total (d : Dispatcher V) (t : AtomicInfo) : Dispatcher V :=
  mkDispatcher (cache d) (fallback_info d) (fixed_size d) t.

Lemma with_total_id (d : Dispatcher V) : with_total d (info d) = d.
Proof. by destruct d. Qed.

Lemma held_bounds f s size : fixed_wf f s size -> 0 <= held_pages f <= 2 ^ 14.
Proof.
  intros [_ _ Hst]. unfold held_pages. destruct (fs_quarry f) as [q|]; [|lia]. destruct Hst as (_ & [[Hr Hinv] _] & _).
  pose proof (qi_sizes _ _ _ _ Hinv) as Hq. pose proof (max_blocks_bounds q Hq) as Hm.
  pose proof (total_pages_bounds q (blocks f) (blocks f) Hq ltac:(lia) (proj2 Hr)) as Ht.
  pose proof (page_count_small (blocks f) ltac:(unfold max_blocks in Hm; lia)). consts. lia.
Qed.

Lemma free_has_quarry f s size : fixed_wf f s size -> fixed_is_empty f = false -> fs_quarry f <> None.
Proof.
  intros [_ _ Hst] He Hq. rewrite Hq in Hst. unfold fixed_is_empty in He. by rewrite Hst in He.
Qed.

Lemma refill_spec d s i f c : at_slot d i f c -> 0 <= i < FIXED_SIZE_COUNT ->
  fixed_wf f s (class_size i) -> info_below (2 ^ 63) (fs_info f) ->
  exists f' t s' r, refill i (d, s) = ((with_total (set_slot d i f' c) t, s'), Ok r) /\
    touches (fixed_owns f) s s' /\ (forall a, live_block f' a <-> live_block f a) /\
    ((r = true /\ fixed_wf f' s' (class_size i) /\ (forall p, fixed_owns f' p -> taken s p -> fixed_owns f p) /\
        info_below (2 ^ 63 + 2 ^ 33) (fs_info f') /\ fs_quarry f' <> None) \/
     (r = false /\ live_mapped f' s' (class_size i) /\ exists e, (stock_up V (class_size i) (f, s)).2 = Err e)).
Proof.
  intros Hs Hi Hf Hb. unfold refill.
  rewrite (bindM_ok _ _ _ (set_slot d i f c, s) (fixed_is_empty f)) by (by apply (on_allocator_ok _ d s i f c)).
  pose proof (at_slot_same d i f c f c Hs) as Hs1. destruct (fixed_is_empty f) eqn:Ee.
  2:{ exists f, (info d), s, true. split; [done|]. split; [apply touches_refl, (fw_big _ _ _ Hf)|]. split; [done|left].
      split; [done|]. split; [done|]. split; [done|]. split; [|by apply (free_has_quarry f s (class_size i))].
      destruct Hb as [[? ?] [? ?] [? ?] [? ?]]. split; split; lia. }
  destruct (get_size_ok i Hi) as [Eg Hc]. rewrite Eg, bindM_lift.
  destruct (stock_up_spec (V := V) f s (class_size i) Hf (info_below_room _ _ Hb ltac:(lia))) as
    (f' & s' & r & E & Hto & Hlive & Hlm & Hcase).
  pose proof E as Estock. apply (on_allocator_ok _ (set_slot d i f c) s i f c) in E; [|done]. rewrite set_slot_twice in E.
  destruct Hcase as [(k & -> & Hst)|(e & ->)].
  - rewrite (bindM_ok _ _ _ (set_slot d i f' c, s') (Some k)) by (unfold okM; by rewrite E).
    destruct Hst as (Hf' & Hq & _ & _ & Hh & Hk & Hpg & Hown).
    assert (k <= 2 ^ 32) as Hk'. { pose proof (held_bounds f s _ Hf). pose proof (held_bounds f' s' _ Hf'). lia. }
    exists f', (if 0 <? k then atomic_pages_allocation (info d) k else info d), s', true.
    split; [by destruct (0 <? k)|]. split; [done|]. split; [done|left]. split; [done|]. split; [done|]. split; [done|].
    split; [|done]. by apply (pages_allocation_below (fs_info f) k).
  - rewrite (bindM_ok _ _ _ (set_slot d i f' c, s') None) by (unfold okM; by rewrite E).
    exists f', (info d), s', false. split; [done|]. split; [done|]. split; [done|]. right. split; [done|]. split; [done|].
    exists e. by rewrite Estock.
Qed.

(** What [fixed_size_allocate] promises. *)
Definition allocated_block (d d' : Dispatcher V) (s s' : S) (i r : Z) : Prop :=
  0 < r /\ disp_wf d' s' /\ ~ user_block d i r /\
  (forall j a, user_block d' j a <-> user_block d j a \/ (j = i /\ a = r)) /\
  forall p, disp_owns d' p -> taken s p -> disp_owns d p.
Definition no_block (d d' : Dispatcher V) (s' : S) : Prop :=
  (forall j a, user_block d' j a <-> user_block d j a) /\
  forall j a p, user_block d j a -> touches_page a (class_size j) p -> taken s' p /\ mapped_page s' p.

(** The invariant after an allocation that found no block: it holds, unless the
    allocator of the size class [i] could not get memory from the page allocator; then
    it still holds for all other size classes, which are as they were. *)
Definition only_spoils (d d' : Dispatcher V) (s s' : S) (i : Z) : Prop :=
  disp_wf d' s' \/
  exists f e, index (fixed_size d) i = Ok f /\ (stock_up V (class_size i) (f, s)).2 = Err e /\
    forall j g c, j <> i -> at_slot d' j g c -> at_slot d j g c /\ slot_wf j g c s'.

(** The last steps of a successful allocation: the block leaves slot [i] and is counted. *)
Lemma finish_allocation d s s' i f c f' c' t l r : disp_wf d s -> at_slot d i f c -> 0 <= i < FIXED_SIZE_COUNT -> small_layout l ->
  touches (fixed_owns f) s s' -> slot_wf i f' c' s' -> (forall p, fixed_owns f' p -> taken s p -> fixed_owns f p) ->
  info_below (2 ^ 63 + 2 ^ 33) (fs_info f') -> 0 < r -> ~ user_block d i r ->
  (forall a, live_block f' a /\ ~ a ∈ clip_blocks c' <-> (live_block f a /\ ~ a ∈ clip_blocks c) \/ a = r) ->
  exists d', count_allocation i l (with_total (set_slot d i f' c') t, s') = ((d', s'), Ok tt) /\
    touches (disp_owns d) s s' /\ allocated_block d d' s s' i r.
Proof.
  intros Hd Hs Hi Hl Hto Hsw Hown Hb Hr Hnu Hlive. set (d1 := with_total (set_slot d i f' c') t).
  assert (at_slot d1 i f' c') as Hs1 by apply (at_slot_same d i f c f' c' Hs).
  destruct (count_allocation_spec d1 s' i f' c' l Hs1 Hi Hl Hb) as (d2 & E & Hrc).
  assert (recounted (set_slot d i f' c') d2) as Hrc' by (eapply recounted_trans; [apply total_recounted|done]).
  exists d2. split; [done|]. split.
  { apply (touches_weaken _ _ _ _ Hto). intros p Hp _. destruct Hs as [Hs _]. by exists i, f. }
  split; [done|]. split; [apply (disp_wf_recount _ _ _ Hrc'), (update_slot d s s' i f c); done|]. split; [done|]. split.
  - intros j a. rewrite (user_block_recount _ _ _ _ Hrc'), (user_block_set d i f c) by done. destruct (decide (j = i)) as [->|Hj].
    + rewrite (user_block_at d i f c) by done. specialize (Hlive a). tauto.
    + tauto.
  - intros p Hp Ht. apply (disp_owns_recount _ _ _ Hrc') in Hp as (j & g & Hg & Hp).
    cbn [set_slot fixed_size] in Hg. destruct Hs as [Hs _]. rewrite (index_insert _ i j f' f Hs) in Hg. case_decide as Hj.
    + injection Hg as <-. exists i, f. split; [done|]. by apply Hown.
    + by exists j, g.
Qed.

Lemma set_slot_self d i f c : at_slot d i f c -> set_slot d i f c = d.
Proof.
  intros [[_ Hf]%index_ok [_ Hc]%index_ok]. unfold set_slot. rewrite !list_insert_id by done. by destruct d.
Qed.

(** A failed [stock_up] leaves the other size classes alone. *)
Lemma only_spoils_intro d s s' i f c f' c' t e : disp_wf d s -> at_slot d i f c -> touches (fixed_owns f) s s' ->
  (stock_up V (class_size i) (f, s)).2 = Err e ->
  only_spoils d (with_total (set_slot d i f' c') t) s s' i.
Proof.
  intros Hd [Hsf Hsc] Hto He. right. exists f, e. split; [done|]. split; [done|]. intros j g b Hj [Hg Hb].
  cbn [with_total set_slot fixed_size cache] in Hg, Hb.
  rewrite (index_insert _ i j f' f Hsf), decide_False in Hg by done.
  rewrite (index_insert _ i j c' c Hsc), decide_False in Hb by done.
  assert (at_slot d j g b) as Hs by done. split; [done|].
  destruct (dp_slot _ _ Hd _ _ _ Hs) as [Hgf Hgc Hgb]. split; [|done|done].
  apply (fixed_frame _ _ _ _ _ Hgf Hto). intros x Hx. by apply (dp_apart _ _ Hd j i g f x).
Qed.

Lemma spoils_nothing d s s' i f c f' c' t : disp_wf d s -> at_slot d i f c -> touches (fixed_owns f) s s' ->
  slot_wf i f' c' s' -> (forall p, fixed_owns f' p -> taken s p -> fixed_owns f p) ->
  only_spoils d (with_total (set_slot d i f' c') t) s s' i.
Proof.
  intros Hd Hs Hto Hsw Hown. left.
  apply (disp_wf_recount (set_slot d i f' c')); [apply total_recounted|]. by apply (update_slot d s s' i f c).
Qed.

(** A failed allocation leaves the callers' blocks alone. *)
Lemma no_block_intro d s s' i f c f' c' t : disp_wf d s -> at_slot d i f c -> touches (fixed_owns f) s s' ->
  (forall a, live_block f' a /\ ~ a ∈ clip_blocks c' <-> live_block f a /\ ~ a ∈ clip_blocks c) ->
  live_mapped f' s' (class_size i) ->
  touches (disp_owns d) s s' /\ no_block d (with_total (set_slot d i f' c') t) s'.
Proof.
  intros Hd Hs Hto Hlive Hlm. pose proof Hs as [Hsf Hsc].
  pose proof (fun a => user_block_at d i f c a Hs) as Hu.
  split; [apply (touches_weaken _ _ _ _ Hto); intros p Hp _; by exists i, f|]. split.
  - intros j a. change (user_block (set_slot d i f' c') j a <-> user_block d j a).
    rewrite (user_block_set d i f c) by done. destruct (decide (j = i)) as [->|Hj]; [rewrite Hu, Hlive|]; tauto.
  - intros j a p Ha Hp. destruct (decide (j = i)) as [->|Hj].
    + apply Hu, Hlive in Ha. apply (Hlm a); tauto.
    + destruct Ha as (g & e & He & Hl & _). pose proof (sl_fixed _ _ _ _ (dp_slot _ _ Hd _ _ _ He)) as Hg.
      apply (wf_live_mapped g s' (class_size j)) with a; [|done|done].
      apply (fixed_frame _ _ _ _ _ Hg Hto). intros x Hx. destruct He as [He _]. by apply (dp_apart _ _ Hd j i g f x).
Qed.

Lemma live_positive f s size a : fixed_wf f s size -> live_block f a -> 0 < a.
Proof. intros Hf (q & n & Eq & [Hn _] & ->). by destruct (fixed_number f s size q n Hf Eq Hn) as (_ & H & _). Qed.

(** Taking the last block out of a clip. *)
Lemma pop_last (c : Clip V) l x : clip_blocks c = l ++ [x] ->
  exists c', clip_pop c = (c', Ok (Some x)) /\ clip_blocks c' = l /\ allocation_owner c' = allocation_owner c.
Proof.
  intros Hc. destruct (vec_pop_law (allocations c) l x Hc) as (v & E & Hv).
  exists (mkClip v (allocation_owner c) (clip_info c)). unfold clip_pop. by rewrite E.
Qed.
Lemma pop_empty (c : Clip V) : clip_blocks c = [] -> clip_pop c = (c, Ok None).
Proof. intros Hc. unfold clip_pop. rewrite (vec_pop_empty_law (allocations c) Hc). by destruct c. Qed.

Lemma popped_slot i f c c' l x s : slot_wf i f c s -> clip_blocks c = l ++ [x] -> clip_blocks c' = l ->
  allocation_owner c' = allocation_owner c ->
  slot_wf i f c' s /\ live_block f x /\ ~ x ∈ l.
Proof.
  intros [Hf [H1 H2 H3 H4] Hb] Hc Hc' Ho. rewrite Hc in *. apply list.NoDup_app in H2 as (Hnd & Hx & _).
  split; [|split; [apply H1, elem_of_app; right; by left|intros Hin; apply (Hx x Hin); by left]].
  split; [done| |intros a Hav Ha; rewrite Ho; by apply (Hb a)].
  split; rewrite ?clip_len_blocks, ?Hc'; [|done| |].
  - intros a Ha. apply H1, elem_of_app. by left.
  - rewrite clip_len_blocks, Hc, length_app in H3. lia.
  - rewrite Ho. destruct H4 as [[_ Hz]|H4]; [by destruct l|by right].
Qed.

Definition fits_class (l : Layout) (i : Z) : Prop :=
  layout_size l <= class_size i /\ class_size i mod layout_align l = 0 /\ small_layout l.

Definition allocate_result (d : Dispatcher V) (s : S) (i : Z) (res : (Dispatcher V * S) * outcome Z) : Prop :=
  exists d' s' r, res = ((d', s'), Ok r) /\ touches (disp_owns d) s s' /\
    (allocated_block d d' s s' i r \/ (r = 0 /\ no_block d d' s' /\ only_spoils d d' s s' i)).

(** A block is taken from the clip. *)
Lemma allocate_hit d s i f c l k x : disp_wf d s -> quiet d -> at_slot d i f c -> 0 <= i < FIXED_SIZE_COUNT -> small_layout l ->
  clip_blocks c = k ++ [x] ->
  exists c', clip_pop c = (c', Ok (Some x)) /\
    allocate_result d s i ((let! _ := count_allocation i l in retM x) (set_slot d i f c', s)).
Proof.
  intros Hd Hq Hs Hi Hl Hc. pose proof Hs as [Hsf Hsc]. pose proof (dp_slot _ _ Hd _ _ _ Hs) as Hsw.
  destruct (pop_last c k x Hc) as (c' & E & Hc' & Ho). exists c'. split; [done|].
  destruct (popped_slot i f c c' k x s Hsw Hc Hc' Ho) as (Hsw' & Hx & Hxk).
  pose proof (Hq i f Hsf) as [[? ?] [? ?] [? ?] [? ?]].
  destruct (finish_allocation d s s i f c f c' (info d) l x) as (d' & E' & Hto & Hres); try done.
  - apply touches_refl, (dp_big _ _ Hd).
  - split; split; lia.
  - by apply (live_positive f s (class_size i)); [apply (sl_fixed _ _ _ _ Hsw)|].
  - intros (g & e & [Hg He] & _ & Hn). assert (e = c) as -> by congruence. apply Hn. rewrite Hc. apply elem_of_app. right. by left.
  - intros a. rewrite Hc', Hc, elem_of_app, list_elem_of_singleton. destruct (decide (a = x)) as [->|]; tauto.
  - change (with_total (set_slot d i f c') (info d)) with (set_slot d i f c') in E'.
    rewrite (bindM_ok _ _ _ _ _ E'). exists d', s, x. split; [done|]. split; [done|by left].
Qed.

(** A block is taken from a clip that has just been filled with fresh blocks. *)
Lemma allocate_filled d s s1 i f c f2 c2 t l : disp_wf d s -> at_slot d i f c -> 0 <= i < FIXED_SIZE_COUNT -> small_layout l ->
  touches (fixed_owns f) s s1 -> slot_wf i f2 c2 s1 -> (forall p, fixed_owns f2 p -> taken s p -> fixed_owns f p) ->
  info_below (2 ^ 63 + 2 ^ 33) (fs_info f2) -> clip_blocks c = [] ->
  (forall a, a ∈ clip_blocks c2 -> ~ live_block f a) ->
  (forall a, live_block f2 a <-> live_block f a \/ a ∈ clip_blocks c2) ->
  allocate_result d s i ((let! ptr := on_clip i clip_pop in
    match ptr with
    | Some ptr => let! _ := count_allocation i l in retM ptr
    | None => retM 0
    end) (with_total (set_slot d i f2 c2) t, s1)).
Proof.
  intros Hd Hs Hi Hl Hto Hsw Hown Hb Hc Hfresh Hlive. set (d1 := with_total (set_slot d i f2 c2) t).
  assert (at_slot d1 i f2 c2) as Hs1 by apply (at_slot_same d i f c f2 c2 Hs).
  assert (forall c', set_slot d1 i f2 c' = with_total (set_slot d i f2 c') t) as Hset.
  { intros c'. unfold d1, with_total. by rewrite <- (set_slot_twice d i f2 c2 f2 c'). }
  destruct (clip_blocks c2) as [|x k _] eqn:Hb2 using rev_ind.
  - rewrite (bindM_ok _ _ _ (d1, s1) None).
    2:{ rewrite <- (set_slot_self d1 i f2 c2 Hs1) at 2. apply (on_clip_ok _ _ s1 i f2 c2); [done|by apply pop_empty]. }
    destruct (no_block_intro d s s1 i f c f2 c2 t Hd Hs Hto) as [Hto' Hno].
    { intros a. rewrite Hlive, Hb2, Hc, elem_of_nil. tauto. }
    { apply wf_live_mapped, (sl_fixed _ _ _ _ Hsw). }
    exists d1, s1, 0. split; [done|]. split; [done|right]. split; [done|]. split; [done|]. by apply (spoils_nothing d s s1 i f c).
  - destruct (pop_last c2 k x Hb2) as (c3 & E3 & Hb3 & Ho3).
    rewrite (bindM_ok _ _ _ (set_slot d1 i f2 c3, s1) (Some x)) by (by apply (on_clip_ok _ _ s1 i f2 c2)).
    destruct (popped_slot i f2 c2 c3 k x s1 Hsw Hb2 Hb3 Ho3) as (Hsw3 & Hx & Hxk).
    assert (~ live_block f x) as Hnx by (apply Hfresh, elem_of_app; right; by left).
    destruct (finish_allocation d s s1 i f c f2 c3 t l x) as (d' & E' & Hto' & Hres); try done.
    + apply (live_positive f2 s1 (class_size i)); [apply (sl_fixed _ _ _ _ Hsw)|done].
    + intros (g & e & [Hg He] & Hlx & _). destruct Hs as [Hsf _]. by assert (g = f) as -> by congruence.
    + intros a. rewrite Hb3, Hc, elem_of_nil, Hlive, elem_of_app, list_elem_of_singleton.
      assert (a ∈ k -> ~ live_block f a) by (intros Ha; apply Hfresh, elem_of_app; by left).
      destruct (decide (a = x)) as [->|]; tauto.
    + rewrite Hset, (bindM_ok _ _ _ _ _ E'). exists d', s1, x. split; [done|]. split; [done|by left].
Qed.

(** The clip is filled first. *)
Lemma allocate_miss d s i f c l : disp_wf d s -> quiet d -> at_slot d i f c -> 0 <= i < FIXED_SIZE_COUNT -> small_layout l ->
  clip_blocks c = [] ->
  allocate_result d s i ((let! refilled := refill i in
    if refilled : bool then
      let! _ := on_both i (let! clip := on_snd getM in fill_clip (clip_capacity clip / 2) i) in
      let! ptr := on_clip i clip_pop in
      match ptr with
      | Some ptr => let! _ := count_allocation i l in retM ptr
      | None => retM 0
      end
    else retM 0) (d, s)).
Proof.
  intros Hd Hq Hs Hi Hl Hc. pose proof Hs as [Hsf Hsc]. pose proof (dp_slot _ _ Hd _ _ _ Hs) as Hsw.
  destruct (refill_spec d s i f c Hs Hi (sl_fixed _ _ _ _ Hsw) (Hq i f Hsf)) as (f1 & t & s1 & r & E1 & Hto & Hlive1 & Hcase).
  rewrite (bindM_ok _ _ _ _ _ E1). destruct Hcase as [(-> & Hf1 & Hown & Hb1 & _)|(-> & Hlm & e & He)].
  2:{ destruct (no_block_intro d s s1 i f c f1 c t Hd Hs Hto) as [Hto' Hno]; [intros a; by rewrite Hlive1|done|].
      eexists _, s1, 0. split; [done|]. split; [done|right]. split; [done|]. split; [done|].
      by apply (only_spoils_intro d s s1 i f c f1 c t e). }
  set (d1 := with_total (set_slot d i f1 c) t). assert (at_slot d1 i f1 c) as Hs1 by apply (at_slot_same d i f c f1 c Hs).
  assert (clip_wf f1 c i) as Hc1.
  { destruct (sl_clip _ _ _ _ Hsw) as [H1 H2 H3 H4]. split; try done. intros a Ha. by apply Hlive1, H1. }
  pose proof (clip_size_bounds (V := V)) as Hcs. assert (clip_len c = 0) as Hc0 by (rewrite clip_len_blocks, Hc; done).
  assert (7 <= clip_capacity c / 2 <= CLIP_SIZE V) as Hcap.
  { unfold clip_capacity. rewrite vec_capacity_law. Z.div_mod_to_equations. lia. }
  destruct (fill_clip_spec f1 s1 (class_size i) c (clip_capacity c / 2) i Hf1 Hc1) as
    (f2 & c2 & new & E2 & Hf2 & Hss & Hb2 & Ho2 & Hn & Hnd & Hfresh & Hlive2); [lia|].
  rewrite Hc in Hb2. cbn [app] in Hb2. subst new.
  rewrite (bindM_ok _ _ _ (set_slot d1 i f2 c2, s1) tt) by (by apply (on_both_ok _ d1 s1 i f1 c)).
  assert (set_slot d1 i f2 c2 = with_total (set_slot d i f2 c2) t) as ->
    by (unfold d1, with_total; by rewrite <- (set_slot_twice d i f1 c f2 c2)).
  apply (allocate_filled d s s1 i f c f2 c2 t l); try done.
  - split; [done| |done]. split; rewrite ?clip_len_blocks; [|done|lia|by right]. intros a Ha. apply Hlive2. by right.
  - intros p Hp. apply (ss_owns _ _ Hss) in Hp. by apply Hown.
  - by rewrite (ss_info _ _ Hss).
  - intros a Ha Hla. apply (Hfresh a Ha). by apply Hlive1.
  - intros a. by rewrite Hlive2, Hlive1.
Qed.

(** Without a cache the block comes from the allocator. *)
Lemma allocate_direct d s i f c l : available = false ->
  disp_wf d s -> quiet d -> at_slot d i f c -> 0 <= i < FIXED_SIZE_COUNT -> fits_class l i ->
  allocate_result d s i ((let! refilled := refill i in
    if refilled : bool then
      let! ptr := on_allocator i (on_fst (fixed_allocate l)) in
      let! _ := (if negb (ptr =? 0) then count_allocation i l else retM tt) in
      retM ptr
    else retM 0) (d, s)).
Proof.
  intros Hav Hd Hq Hs Hi (Hsz & Hal & Hl). pose proof Hs as [Hsf Hsc]. pose proof (dp_slot _ _ Hd _ _ _ Hs) as Hsw.
  destruct (refill_spec d s i f c Hs Hi (sl_fixed _ _ _ _ Hsw) (Hq i f Hsf)) as (f1 & t & s1 & r & E1 & Hto & Hlive1 & Hcase).
  rewrite (bindM_ok _ _ _ _ _ E1). destruct Hcase as [(-> & Hf1 & Hown & Hb1 & Hqu)|(-> & Hlm & e & He)].
  2:{ destruct (no_block_intro d s s1 i f c f1 c t Hd Hs Hto) as [Hto' Hno]; [intros a; by rewrite Hlive1|done|].
      eexists _, s1, 0. split; [done|]. split; [done|right]. split; [done|]. split; [done|].
      by apply (only_spoils_intro d s s1 i f c f1 c t e). }
  set (d1 := with_total (set_slot d i f1 c) t). assert (at_slot d1 i f1 c) as Hs1 by apply (at_slot_same d i f c f1 c Hs).
  assert (forall f', set_slot d1 i f' c = with_total (set_slot d i f' c) t) as Hset.
  { intros f'. unfold d1, with_total. by rewrite <- (set_slot_twice d i f1 c f' c). }
  destruct (allocate_fixed_spec f1 s1 (class_size i) l Hf1 Hqu Hsz Hal) as
    [[_ E]|(_ & f2 & x & E & Hx & Hf2 & Hinfo & Hown2 & _ & Hnx & Hlive2)].
  - rewrite (bindM_ok _ _ _ (set_slot d1 i f1 c, s1) 0).
    2:{ apply (on_allocator_ok _ d1 s1 i f1 c); [done|]. unfold on_fst. cbn [fst snd]. by rewrite E. }
    destruct (no_block_intro d s s1 i f c f1 c t Hd Hs Hto) as [Hto' Hno]; [intros a; by rewrite Hlive1|by apply wf_live_mapped|].
    rewrite Hset. eexists _, s1, 0. split; [done|]. split; [done|right]. split; [done|]. split; [done|].
    apply (spoils_nothing d s s1 i f c); try done. destruct (sl_clip _ _ _ _ Hsw) as [H1 H2 H3 H4].
    split; [done| |by rewrite Hav]. split; try done. intros a Ha. by apply Hlive1, H1.
  - rewrite (bindM_ok _ _ _ (set_slot d1 i f2 c, s1) x).
    2:{ apply (on_allocator_ok _ d1 s1 i f1 c); [done|]. unfold on_fst. cbn [fst snd]. by rewrite E. }
    rewrite (proj2 (Z.eqb_neq x 0)) by lia. cbn [negb].
    destruct (sl_clip _ _ _ _ Hsw) as [H1 H2 H3 H4].
    assert (~ live_block f x) as Hnl by (by rewrite <- Hlive1).
    destruct (finish_allocation d s s1 i f c f2 c t l x) as (d' & E' & Hto' & Hres); try done.
    + split; [done| |by rewrite Hav]. split; try done. intros a Ha. apply Hlive2. left. by apply Hlive1, H1.
    + intros p Hp. apply Hown2 in Hp. by apply Hown.
    + by rewrite Hinfo.
    + intros (g & e & [Hg He] & Hlx & _). by assert (g = f) as -> by congruence.
    + intros a. rewrite Hlive2, Hlive1. destruct (decide (a = x)) as [->|]; [|tauto].
      split; [by right|]. intros _. split; [by right|]. intros Ha. by apply Hnl, H1.
    + rewrite Hset, (bindM_ok _ _ _ _ _ E'). exists d', s1, x. split; [done|]. split; [done|by left].
Qed.

Lemma fixed_size_allocate_spec d s i l : disp_wf d s -> quiet d -> 0 <= i < FIXED_SIZE_COUNT -> fits_class l i ->
  allocate_result d s i (fixed_size_allocate available i l (d, s)).
Proof.
  intros Hd Hq Hi Hl. destruct (slot_exists d s i Hd Hi) as (f & c & Hs). unfold fixed_size_allocate.
  destruct available eqn:Hav; [|by apply (allocate_direct d s i f c)].
  destruct (clip_blocks c) as [|x k _] eqn:Hc using rev_ind.
  - rewrite (bindM_ok _ _ _ (d, s) None).
    2:{ rewrite <- (set_slot_self d i f c Hs) at 2. apply (on_clip_ok _ d s i f c); [done|by apply pop_empty]. }
    apply (allocate_miss d s i f c); try done. apply Hl.
  - destruct (allocate_hit d s i f c l k x Hd Hq Hs Hi (proj2 (proj2 Hl)) Hc) as (c' & E & Hres).
    rewrite (bindM_ok _ _ _ (set_slot d i f c', s) (Some x)) by (by apply (on_clip_ok _ d s i f c)). exact Hres.
Qed.

(** *** Deallocation *)

Definition released_block (d d' : Dispatcher V) (s : S) (i a : Z) : Prop :=
  disp_wf d' s /\ (forall j b, user_block d' j b <-> user_block d j b /\ ~ (j = i /\ b = a)) /\
  forall p, disp_owns d' p <-> disp_owns d p.

(** The last steps of a deallocation: the block is in the clip or free, and is counted. *)
Lemma finish_deallocation d s i f c f' c' l a : disp_wf d s -> quiet d -> at_slot d i f c -> 0 <= i < FIXED_SIZE_COUNT ->
  small_layout l -> slot_wf i f' c' s -> (forall p, fixed_owns f' p <-> fixed_owns f p) -> fs_info f' = fs_info f ->
  (forall b, live_block f' b /\ ~ b ∈ clip_blocks c' <-> (live_block f b /\ ~ b ∈ clip_blocks c) /\ b <> a) ->
  exists d', count_deallocation i l (set_slot d i f' c', s) = ((d', s), Ok tt) /\ released_block d d' s i a.
Proof.
  intros Hd Hq Hs Hi Hl Hsw Hown Hinfo Hlive. pose proof Hs as [Hsf Hsc]. pose proof (at_slot_same d i f c f' c' Hs) as Hs1.
  destruct (count_deallocation_spec _ s i f' c' l Hs1 Hi Hl) as (d2 & E & Hrc).
  { rewrite Hinfo. pose proof (Hq i f Hsf) as [[? ?] [? ?] [? ?] [? ?]]. split; split; lia. }
  exists d2. split; [done|]. split; [|split].
  - apply (disp_wf_recount _ _ _ Hrc), (update_slot d s s i f c); try done; [apply touches_refl, (dp_big _ _ Hd)|].
    intros p Hp _. by apply Hown.
  - intros j b. rewrite (user_block_recount _ _ _ _ Hrc), (user_block_set d i f c) by done. destruct (decide (j = i)) as [->|Hj].
    + rewrite (user_block_at d i f c), Hlive by done. tauto.
    + tauto.
  - intros p. rewrite (disp_owns_recount _ _ _ Hrc). unfold disp_owns. cbn [set_slot fixed_size].
    split; intros (j & g & Hg & Hp).
    + rewrite (index_insert _ i j f' f Hsf) in Hg. case_decide; [injection Hg as <-|by exists j, g].
      exists i, f. split; [done|]. by apply Hown.
    + destruct (decide (j = i)) as [->|Hj].
      * exists i, f'. rewrite (index_insert _ i i f' f Hsf), decide_True by done. split; [done|]. apply Hown. by assert (f = g) as -> by congruence.
      * exists j, g. by rewrite (index_insert _ i j f' f Hsf), decide_False.
Qed.

(** Putting a block into a clip with room. *)
Lemma cache_block i f c a s : slot_wf i f c s -> available = true -> live_block f a -> ~ a ∈ clip_blocks c -> clip_len c < CLIP_SIZE V ->
  exists c', try_cache a c = (c', Ok true) /\ clip_blocks c' = clip_blocks c ++ [a] /\ slot_wf i f c' s.
Proof.
  intros [Hf [H1 H2 H3 H4] Hb] Hav Ha Hn Hlen. unfold try_cache. rewrite bindM_get. unfold clip_capacity. rewrite vec_capacity_law.
  rewrite (proj2 (Z.ltb_lt _ _)) by done.
  set (c' := mkClip (vec_push_unchecked a (allocations c)) (allocation_owner c) (clip_info c)). exists c'.
  assert (clip_blocks c' = clip_blocks c ++ [a]) as Hc' by (by apply vec_push_unchecked_law).
  split; [done|]. split; [done|]. split; [done| |done].
  split; rewrite ?clip_len_blocks, ?Hc'.
  - intros b [Hb'|Hb']%elem_of_app; [by apply H1|]. by apply list_elem_of_singleton in Hb' as ->.
  - apply list.NoDup_app. split; [done|]. split; [|apply NoDup_singleton]. intros b Hb' ->%list_elem_of_singleton. done.
  - rewrite length_app. cbn [length]. rewrite clip_len_blocks in Hlen. lia.
  - right. by apply (Hb a).
Qed.

Lemma full_cache c a : ~ clip_len c < CLIP_SIZE V -> try_cache a c = (c, Ok false).
Proof.
  intros Hlen. unfold try_cache. rewrite bindM_get. unfold clip_capacity. rewrite vec_capacity_law.
  by rewrite (proj2 (Z.ltb_ge _ _)) by lia.
Qed.

(** The clip has room for the block. *)
Lemma deallocate_cached d s i f c l a (rest : M (Dispatcher V * S) unit) : disp_wf d s -> quiet d -> at_slot d i f c ->
  0 <= i < FIXED_SIZE_COUNT -> small_layout l -> available = true ->
  live_block f a -> ~ a ∈ clip_blocks c -> clip_len c < CLIP_SIZE V ->
  exists d', (let! cached := on_clip i (try_cache a) in
     if cached : bool then count_deallocation i l else rest) (d, s) = ((d', s), Ok tt) /\ released_block d d' s i a.
Proof.
  intros Hd Hq Hs Hi Hl Hav Hla Hna Hroom. pose proof (dp_slot _ _ Hd _ _ _ Hs) as Hsw.
  destruct (cache_block i f c a s Hsw Hav Hla Hna Hroom) as (c' & E & Hc' & Hsw').
  rewrite (bindM_ok _ _ _ (set_slot d i f c', s) true) by (by apply (on_clip_ok _ d s i f c)).
  apply (finish_deallocation d s i f c f c' l a); try done.
  intros b. rewrite Hc', elem_of_app, list_elem_of_singleton. tauto.
Qed.

(** A clip after some of its blocks have been given back. *)
Lemma unfilled_slot i f c f1 c1 s k a : slot_wf i f c s -> fixed_wf f1 s (class_size i) ->
  clip_blocks c1 = take k (clip_blocks c) -> allocation_owner c1 = allocation_owner c ->
  (forall b, live_block f1 b <-> live_block f b /\ ~ b ∈ drop k (clip_blocks c)) ->
  live_block f a -> ~ a ∈ clip_blocks c ->
  slot_wf i f1 c1 s /\ live_block f1 a /\ ~ a ∈ clip_blocks c1.
Proof.
  intros [Hf [H1 H2 H3 H4] Hb] Hf1 Hb1 Ho1 Hlive Hla Hna.
  rewrite <- (take_drop k (clip_blocks c)) in H2, Hna. apply list.NoDup_app in H2 as (Hnd & Hx & _). rewrite elem_of_app in Hna.
  split; [|rewrite Hlive, Hb1; tauto]. split; [done| |].
  - split; rewrite ?clip_len_blocks, ?Hb1, ?Ho1; [|done| |].
    + intros b Hb'. apply Hlive. split; [|by apply Hx]. apply H1. rewrite <- (take_drop k). apply elem_of_app. by left.
    + rewrite clip_len_blocks in H3. rewrite length_take. lia.
    + destruct H4 as [[Hn Hz]|H4]; [left; by rewrite Hz, take_nil|by right].
  - intros b Hav Hlb. rewrite Ho1. apply (Hb b); [done|]. by apply Hlive.
Qed.

Lemma fixed_size_deallocate_spec d s i l a : disp_wf d s -> quiet d -> 0 <= i < FIXED_SIZE_COUNT -> fits_class l i ->
  user_block d i a ->
  exists d', fixed_size_deallocate available i a l (d, s) = ((d', s), Ok tt) /\ released_block d d' s i a.
Proof.
  intros Hd Hq Hi (Hsz & Hal & Hl) (f & c & Hs & Hla & Hna). pose proof (dp_slot _ _ Hd _ _ _ Hs) as Hsw.
  assert (available = true \/ available = false) as [Hav|Hav] by (destruct available; auto);
    unfold fixed_size_deallocate; rewrite Hav.
  - destruct (decide (clip_len c < CLIP_SIZE V)) as [Hroom|Hfull]; [by apply (deallocate_cached d s i f c)|].
    rewrite (bindM_ok _ _ _ (d, s) false).
    2:{ rewrite <- (set_slot_self d i f c Hs) at 2. apply (on_clip_ok _ d s i f c); [done|by apply full_cache]. }
    pose proof (clip_size_bounds (V := V)) as Hcs. pose proof (sl_clip _ _ _ _ Hsw) as Hc.
    assert (7 <= clip_capacity c / 2 < CLIP_SIZE V) as Hcap.
    { unfold clip_capacity. rewrite vec_capacity_law. Z.div_mod_to_equations. lia. }
    assert (0 <= clip_capacity c / 2) as Hcap0 by lia.
    destruct (unfill_clip_spec s (class_size i) (clip_capacity c / 2) f c i Hcap0 (sl_fixed _ _ _ _ Hsw) Hc)
      as (f1 & c1 & E1 & Hf1 & Hss & Hb1 & Ho1 & Hlive1).
    rewrite (bindM_ok _ _ _ (set_slot d i f1 c1, s) tt) by (by apply (on_both_ok _ d s i f c)).
    destruct (unfilled_slot i f c f1 c1 s (Z.to_nat (clip_capacity c / 2)) a Hsw Hf1 Hb1 Ho1 Hlive1 Hla Hna) as (Hsw1 & Hla1 & Hna1).
    destruct (cache_block i f1 c1 a s Hsw1 Hav Hla1 Hna1) as (c2 & E2 & Hc2 & Hsw2).
    { rewrite clip_len_blocks, Hb1, length_take. lia. }
    rewrite (bindM_ok _ _ _ (set_slot (set_slot d i f1 c1) i f1 c2, s) true)
      by (apply (on_clip_ok _ _ s i f1 c1); [by apply (at_slot_same d i f c)|done]).
    rewrite set_slot_twice. apply (finish_deallocation d s i f c f1 c2 l a); try done; [apply (ss_owns _ _ Hss)|apply (ss_info _ _ Hss)|].
    intros b. rewrite Hc2, elem_of_app, list_elem_of_singleton, Hlive1, Hb1.
    rewrite <- (take_drop (Z.to_nat (clip_capacity c / 2)) (clip_blocks c)) at 3. rewrite elem_of_app. tauto.
  - pose proof Hla as (q & n & Eq & [Hn _] & _).
    pose proof (fixed_deallocate_eq f s (class_size i) l q a (sl_fixed _ _ _ _ Hsw) Eq Hsz Hal
      (live_positive f s _ a (sl_fixed _ _ _ _ Hsw) Hla)) as Ede.
    destruct (deallocate_impl_spec f s (class_size i) a (sl_fixed _ _ _ _ Hsw) Hla) as (f1 & E & Hf1 & Hi1 & _ & Ho1 & _ & _ & Hlive1).
    rewrite (bindM_ok _ _ _ (set_slot d i f1 c, s) tt).
    2:{ apply (on_allocator_ok _ d s i f c); [done|]. unfold on_fst. cbn [fst snd]. by rewrite Ede, E. }
    destruct (sl_clip _ _ _ _ Hsw) as [H1 H2 H3 H4]. apply (finish_deallocation d s i f c f1 c l a); try done.
    + split; [done| |by rewrite Hav]. split; try done. intros b Hb. apply Hlive1. split; [by apply H1|]. by intros ->.
    + intros b. rewrite Hlive1. tauto.
Qed.

(** *** The page allocator *)

Lemma update_fallback_info_ok o l d s : layout_valid l ->
  exists d', update_fallback_info o l (d, s) = ((d', s : S), Ok tt) /\ recounted d d'.
Proof.
  intros [Hl _]. unfold update_fallback_info. pose proof (div_ceil_spec (layout_size l) L0_SIZE ltac:(done)).
  rewrite usize_mul_ok, bindM_lift by (unfold is_usize, ISIZE_MAX in *; change L0_SIZE with 4096 in *; lia).
  eexists. split; [done|]. by split.
Qed.

(** Everything stays where it is, up to the statistics. *)
Definition same_blocks (d d' : Dispatcher V) (s' : S) : Prop :=
  disp_wf d' s' /\ (forall j a, user_block d' j a <-> user_block d j a) /\ forall p, disp_owns d' p <-> disp_owns d p.

Lemma disp_owns_taken d s p : disp_wf d s -> disp_owns d p -> taken s p.
Proof.
  intros Hd (i & f & Hf & Hp). destruct (slot_of d s i f Hd Hf) as [c Hc].
  apply (fixed_owns_taken f s (class_size i)); [|done]. apply (sl_fixed _ _ _ _ (dp_slot _ _ Hd _ _ _ Hc)).
Qed.

Lemma disp_frame Q d s s' : disp_wf d s -> touches Q s s' -> (forall p, disp_owns d p -> ~ Q p) -> disp_wf d s'.
Proof.
  intros [H1 H2 H3 H4 H5] Hto HQ. split; try done; [apply (touches_wf Hto)|]. intros i f c Hs.
  destruct (H4 i f c Hs) as [Hf Hc Hb]. split; [|done|done]. apply (fixed_frame Q _ s); [done|done|].
  intros p Hp. apply HQ. destruct Hs as [Hs _]. by exists i, f.
Qed.

Lemma same_blocks_intro Q d d' s s' : disp_wf d s -> touches Q s s' -> (forall p, disp_owns d p -> ~ Q p) -> recounted d d' ->
  same_blocks d d' s'.
Proof.
  intros Hd Hto HQ Hrc. split; [apply (disp_wf_recount _ _ _ Hrc); by apply (disp_frame Q d s)|].
  split; [intros j a; by apply user_block_recount|intros p; by apply disp_owns_recount].
Qed.

Lemma fallback_allocate_spec d s l init : disp_wf d s -> layout_valid l -> 0 < layout_size l ->
  exists d' s' r, fallback_allocate l init (d, s) = ((d', s'), Ok r) /\ touches (fun _ => False) s s' /\ same_blocks d d' s' /\
    (r = 0 \/ 0 < r /\ r mod L0_SIZE = 0 /\ (layout_align l | r) /\
       forall p, inside (span r (layout_size l)) p -> ~ taken s p /\ taken s' p /\ mapped_page s' p).
Proof.
  intros Hd Hl Hpos. destruct (dry_allocate_spec s l init (dp_big _ _ Hd) Hl Hpos) as (s' & r & E & Hto & Hcase).
  unfold fallback_allocate. destruct Hcase as [(a & -> & Ha & Hal & Hdiv & Hpg)|(e & ->)].
  - rewrite (bindM_ok _ _ _ (d, s') (Some (a, div_ceil (layout_size l) L0_SIZE * L0_SIZE)))
      by (unfold okM, on_snd; cbn [fst snd]; by rewrite E).
    destruct (update_fallback_info_ok Allocation l d s' Hl) as (d' & E' & Hrc). rewrite (bindM_ok _ _ _ _ _ E').
    exists d', s', a. split; [done|]. split; [done|]. split; [by apply (same_blocks_intro (fun _ => False) d d' s); [..|tauto|]|]. right. done.
  - rewrite (bindM_ok _ _ _ (d, s') None) by (unfold okM, on_snd; cbn [fst snd]; by rewrite E).
    exists d, s', 0. split; [done|]. split; [done|]. split; [|by left].
    apply (same_blocks_intro (fun _ => False) d d s); [done|done|tauto|apply recounted_refl].
Qed.

(** A block of whole pages in the hands of a caller. *)
Record user_pages (d : Dispatcher V) (s : S) (a : Z) (l : Layout) : Prop := {
  up_layout : layout_valid l /\ 0 < layout_size l;
  up_address : 0 < a /\ a mod L0_SIZE = 0;
  up_end : a + layout_size l < LOWER_HALF_PAGES * L0_SIZE;
  up_pages p : inside (span a (layout_size l)) p -> taken s p /\ backing s p <> None;
  up_foreign p : inside (span a (layout_size l)) p -> ~ disp_owns d p;
}.

Lemma fallback_deallocate_spec d s a l : disp_wf d s -> user_pages d s a l ->
  exists d' s', fallback_deallocate a l (d, s) = ((d', s'), Ok tt) /\
    touches (inside (span a (layout_size l))) s s' /\ same_blocks d d' s' /\
    forall p, inside (span a (layout_size l)) p -> backing s' p = None.
Proof.
  intros Hd [[Hl Hpos] [Ha Hal] Hend Hpg Hfor]. unfold fallback_deallocate. rewrite (proj2 (Z.eqb_neq a 0)) by lia. cbn [negb].
  rewrite bindM_lift. destruct (dry_deallocate_spec s a l (dp_big _ _ Hd) Ha Hal Hpos Hend Hpg) as (s' & E & Hto & Hun).
  rewrite (bindM_ok _ _ _ (d, s') tt) by (unfold on_snd; cbn [fst snd]; by rewrite E).
  destruct (update_fallback_info_ok Deallocation l d s' Hl) as (d' & E' & Hrc).
  exists d', s'. split; [done|]. split; [done|]. split; [|done].
  apply (same_blocks_intro _ d d' s s' Hd Hto); [|done]. intros p Hp Hin. by apply (Hfor p).
Qed.

(** *** Blocks of callers *)

Definition separate (a m b n : Z) : Prop := a + m <= b \/ b + n <= a.

Lemma overlap_page a m b n : 0 < m -> 0 < n -> separate a m b n \/ exists p, touches_page a m p /\ touches_page b n p.
Proof.
  intros Hm Hn. destruct (decide (a + m <= b)); [by left; left|]. destruct (decide (b + n <= a)); [by left; right|right].
  exists (Z.max a b / L0_SIZE). unfold touches_page. change L0_SIZE with 4096. Z.div_mod_to_equations. lia.
Qed.

(** A block in the hands of a caller is mapped memory of the allocator of its class. *)
Lemma user_block_pages d s i a : disp_wf d s -> user_block d i a ->
  0 < a /\ 0 < class_size i /\ (forall k, (k | class_size i) -> (k | L0_SIZE) -> (k | a)) /\
  exists f, index (fixed_size d) i = Ok f /\
    forall p, touches_page a (class_size i) p -> fixed_owns f p /\ taken s p /\ mapped_page s p.
Proof.
  intros Hd (f & c & Hs & (q & n & Eq & [Hn _] & ->) & _). pose proof (sl_fixed _ _ _ _ (dp_slot _ _ Hd _ _ _ Hs)) as Hf.
  destruct (fixed_number f s (class_size i) q n Hf Eq Hn) as (_ & Hpos & Hal & _ & Hpg & _).
  split; [done|]. split; [apply (fw_size _ _ _ Hf)|]. split; [done|]. exists f. by destruct Hs.
Qed.

Lemma user_blocks_separate d s i a j b : disp_wf d s -> user_block d i a -> user_block d j b -> ~ (i = j /\ a = b) ->
  separate a (class_size i) b (class_size j).
Proof.
  intros Hd Ha Hb Hne. destruct (user_block_pages d s i a Hd Ha) as (_ & Hi & _ & f & Hf & Hpa).
  destruct (user_block_pages d s j b Hd Hb) as (_ & Hj & _ & g & Hg & Hpb).
  destruct (overlap_page a (class_size i) b (class_size j) Hi Hj) as [|(p & Hp & Hp')]; [done|].
  destruct (decide (i = j)) as [<-|Hij].
  - destruct Ha as (f1 & c1 & Hs & (q & n & Eq & [Hn _] & ->) & _), Hb as (f2 & c2 & [Hs2 _] & (q2 & m & Eq2 & [Hm _] & ->) & _).
    assert (f2 = f1) as -> by (destruct Hs; congruence). assert (q2 = q) as -> by congruence.
    pose proof (sl_fixed _ _ _ _ (dp_slot _ _ Hd _ _ _ Hs)) as Hwf.
    destruct (fixed_number f1 s (class_size i) q n Hwf Eq Hn) as (_ & _ & _ & _ & _ & Hap). apply Hap; [done|].
    intros ->. by apply Hne.
  - exfalso. apply (dp_apart _ _ Hd i j f g p Hij Hf Hg); [by apply Hpa|by apply Hpb].
Qed.

Lemma span_touches a n p : a mod L0_SIZE = 0 -> 0 < n -> touches_page a n p <-> inside (span a n) p.
Proof.
  intros Ha Hn. unfold touches_page, inside, span. cbn [b_start b_end]. pose proof (div_ceil_spec n L0_SIZE ltac:(done)).
  change L0_SIZE with 4096 in *. split; Z.div_mod_to_equations; lia.
Qed.

Lemma fits_class_spec l i : layout_valid l -> 0 <= i < FIXED_SIZE_COUNT ->
  layout_size l <= class_size i -> class_size i mod layout_align l = 0 -> fits_class l i.
Proof.
  intros [[H0 _] _] Hi Hle Hal. destruct (get_size_ok i Hi) as [_ Hc]. split; [done|]. split; [done|]. unfold small_layout. lia.
Qed.

(** ** Theorems *)

(** The size class of a layout: if it has one, its blocks hold the layout, their size is
    a multiple of the alignment, and the waste is less than the larger of the
    alignment and the minimal size; the number of the class is in range. *)
Theorem size_class_fits l : layout_valid l -> 0 < layout_size l ->
  get_fixed_size_index l = Ok None \/
  (exists i, get_fixed_size_index l = Ok (Some i) /\ 0 <= i < FIXED_SIZE_COUNT /\ get_size i = Ok (class_size i) /\
     layout_size l <= class_size i < layout_size l + Z.max MIN_SIZE (layout_align l) /\
     class_size i mod layout_align l = 0 /\ (layout_align l | L0_SIZE)).
Proof. apply size_class_spec. Qed.

(** C5. Allocation from the general purpose allocator never panics, changes no page that
    belongs to somebody else and keeps all blocks of callers where they are and mapped.
    If the answer is not null it is aligned as asked, its memory is mapped and apart from
    that of every other block a caller holds, the callers hold exactly one block of the
    size class more, or the same blocks if the request is served with whole pages, and the
    invariant is kept.  If it is null the callers hold
    exactly the blocks they held, and the invariant is kept unless the request has a
    size class whose allocator was refused memory by the page allocator; then it is kept
    for all other size classes. *)
Theorem alloc_correct d s l : disp_wf d s -> quiet d -> layout_valid l -> 0 < layout_size l ->
  exists d' s' r, alloc available l (d, s) = ((d', s'), Ok r) /\ touches (disp_owns d) s s' /\
    (forall j a, user_block d j a -> user_block d' j a) /\
    (forall j a p, user_block d j a -> touches_page a (class_size j) p -> taken s' p /\ mapped_page s' p) /\
    ((r = 0 /\ (forall j a, user_block d' j a -> user_block d j a) /\
      match get_fixed_size_index l with
      | Ok (Some i) => only_spoils d d' s s' i
      | _ => disp_wf d' s' /\ forall p, disp_owns d' p <-> disp_owns d p
      end) \/
     0 < r /\ (layout_align l | r) /\ disp_wf d' s' /\
     (forall j a, user_block d' j a <->
        user_block d j a \/ (get_fixed_size_index l = Ok (Some j) /\ a = r)) /\
     (forall p, touches_page r (layout_size l) p -> taken s' p /\ mapped_page s' p) /\
     (forall p, touches_page r (layout_size l) p -> taken s p -> disp_owns d p) /\
     forall j a, user_block d j a -> separate r (layout_size l) a (class_size j)).
Proof.
  intros Hd Hq Hl Hpos. unfold alloc, validate_nonempty. rewrite (proj2 (Z.eqb_neq _ 0)) by lia. cbn [negb]. rewrite bindM_lift.
  destruct (size_class_spec l Hl Hpos) as [->|(i & -> & Hi & _ & Hfit & Hal & Hdv)]; rewrite bindM_lift.
  - destruct (fallback_allocate_spec d s l Garbage Hd Hl Hpos) as (d' & s' & r & E & Hto & (Hd' & Hu & Ho) & Hcase).
    exists d', s', r. split; [done|]. split; [apply (touches_weaken _ _ _ _ Hto); tauto|]. split; [intros j a; by apply Hu|].
    split.
    { intros j a p Ha%Hu Hp. destruct (user_block_pages d' s' j a Hd' Ha) as (_ & _ & _ & f & _ & Hpg). by apply Hpg. }
    destruct Hcase as [->|(Hr & Hrm & Hra & Hpg)]; [left; split; [done|]; split; [intros j a; by apply Hu|done]|right].
    split; [done|]. split; [done|]. split; [done|]. split; [intros j a; rewrite Hu; naive_solver|].
    split; [intros p Hp%span_touches; [by apply Hpg|done|done]|].
    split; [intros p Hp%span_touches Ht; [by destruct (Hpg p Hp)|done|done]|]. intros j a Ha.
    destruct (user_block_pages d s j a Hd Ha) as (_ & Hc & _ & f & _ & Hpa).
    destruct (overlap_page r (layout_size l) a (class_size j) Hpos Hc) as [|(p & Hp%span_touches & Hp')]; [done| |done..].
    exfalso. apply (Hpg p Hp). by apply Hpa.
  - destruct (fixed_size_allocate_spec d s i l Hd Hq Hi) as (d' & s' & r & E & Hto & Hcase); [apply fits_class_spec; [done|done|lia|done]|].
    exists d', s', r. split; [done|]. split; [done|]. destruct Hcase as [(Hr & Hd' & Hnu & Hu & Hown)|(-> & [Hu Hm] & Hsp)].
    2:{ split; [intros j a; by apply Hu|]. split; [done|left]. split; [done|]. split; [intros j a; by apply Hu|done]. }
    split; [intros j a Ha; apply Hu; by left|].
    split.
    { intros j a p Ha Hp. destruct (user_block_pages d' s' j a Hd') as (_ & _ & _ & f & _ & Hpg); [apply Hu; by left|]. by apply Hpg. }
    right. assert (user_block d' i r) as Hru by (apply Hu; by right).
    destruct (user_block_pages d' s' i r Hd' Hru) as (_ & _ & Hdiv & f & Hf & Hpg).
    assert (forall p, touches_page r (layout_size l) p -> touches_page r (class_size i) p) as Hsub.
    { unfold touches_page. change L0_SIZE with 4096. intros p Hp. Z.div_mod_to_equations. lia. }
    split; [done|]. split.
    { apply Hdiv; [|done]. apply Z.mod_divide; [|done]. destruct Hl as [_ (k & Hk & ->)]. apply Z.pow_nonzero; lia. }
    split; [done|]. split; [intros j a; rewrite Hu; naive_solver|].
    split; [intros p Hp; by apply Hpg, Hsub|]. split.
    { intros p Hp Ht. apply Hown; [|done]. exists i, f. split; [done|]. by apply Hpg, Hsub. }
    intros j a Ha. assert (separate r (class_size i) a (class_size j)) as [|]; [|left; lia|by right].
    apply (user_blocks_separate d' s' i r j a Hd' Hru); [apply Hu; by left|]. by intros [-> ->].
Qed.

(** The block at [a] with layout [l] is in the hands of a caller. *)
Definition holds (d : Dispatcher V) (s : S) (a : Z) (l : Layout) : Prop :=
  match get_fixed_size_index l with
  | Ok (Some i) => user_block d i a
  | Ok None => user_pages d s a l
  | _ => False
  end.

(** C6. Releasing a block that a caller holds never panics, keeps the invariant, and leaves
    the pages of others and all other blocks of callers as they were.  A block of a
    size class is no longer in the hands of callers; the pages of a larger block are
    no longer mapped. *)
Theorem dealloc_correct d s a l : disp_wf d s -> quiet d -> layout_valid l -> 0 < layout_size l -> holds d s a l ->
  exists d' s', dealloc available a l (d, s) = ((d', s'), Ok tt) /\ disp_wf d' s' /\
    (forall p, disp_owns d' p <-> disp_owns d p) /\
    match get_fixed_size_index l with
    | Ok (Some i) => s' = s /\ forall j b, user_block d' j b <-> user_block d j b /\ ~ (j = i /\ b = a)
    | _ => (forall j b, user_block d' j b <-> user_block d j b) /\
        touches (inside (span a (layout_size l))) s s' /\
        forall p, inside (span a (layout_size l)) p -> backing s' p = None
    end.
Proof.
  intros Hd Hq Hl Hpos Hh. unfold holds, dealloc, validate_nonempty in *. rewrite (proj2 (Z.eqb_neq _ 0)) by lia. cbn [negb].
  rewrite bindM_lift. destruct (size_class_spec l Hl Hpos) as [E|(i & E & Hi & _ & Hfit & Hal & Hdv)]; rewrite E in Hh |- *; rewrite bindM_lift.
  - destruct (fallback_deallocate_spec d s a l Hd Hh) as (d' & s' & E' & Hto & (Hd' & Hu & Ho) & Hun).
    exists d', s'. split; [exact E'|]. done.
  - destruct (fixed_size_deallocate_spec d s i l a Hd Hq Hi) as (d' & E' & Hd' & Hu & Ho);
      [apply fits_class_spec; [done|done|lia|done]|done|].
    exists d', s. split; [exact E'|]. done.
Qed.

End Invariant.

(** ** Witnesses *)

Lemma index_replicate {A} n (a x : A) i : index (replicate n a) i = Ok x -> x = a /\ 0 <= i < Z.of_nat n.
Proof. intros [Hi H]%index_ok. apply lookup_replicate in H as [-> H]. split; [done|lia]. Qed.

Lemma dispatcher_new_wf {V} `{HeaplessVec V} `{!HeaplessVecLaws V} {S} `{BigAllocator S} `{BigView S} available (s : S) :
  big_wf s -> disp_wf available (dispatcher_new (V := V)) s /\ quiet (dispatcher_new (V := V)).
Proof.
  intros Hw. split; [split; [done|apply length_replicate..| |]|].
  - intros i f c [[-> Hi]%index_replicate [-> _]%index_replicate]. change (Z.of_nat (Z.to_nat FIXED_SIZE_COUNT)) with 2047 in Hi.
    assert (clip_blocks (clip_new (V := V)) = []) as Hc by apply vec_new_law. split.
    + apply fixed_new_wf; [done|unfold class_size, MIN_SIZE; consts; lia|]. unfold class_size. by apply Z.mod_mul.
    + split; rewrite ?clip_len_blocks, ?Hc; [by intros a Ha%not_elem_of_nil|constructor| |by left].
      pose proof (clip_size_bounds (V := V)). cbn. lia.
    + intros a _ (q & n & Hq & _). done.
  - intros i j f g p _ [-> _]%index_replicate _ [Hp|[]]. unfold bitmap_owns, inside in Hp. cbn in Hp. lia.
  - intros i f [-> _]%index_replicate. split; split; cbn; lia.
Qed.

(** Statistics below a bound, by computation. *)
Definition below_check (B : Z) (i : Info) : bool :=
  forallb (fun c => (0 <=? negative c) && (negative c <? B) && (0 <=? positive c) && (positive c <? B))
    [AllocInfo.allocated i; AllocInfo.allocations i; pages i; requested i].

Lemma quiet_by_check {V} (d : Dispatcher V) : forallb (fun f => below_check (2 ^ 63) (fs_info f)) (fixed_size d) = true -> quiet d.
Proof.
  intros Hd i f [_ Hf]%index_ok. apply list_elem_of_lookup_2, list_elem_of_In in Hf.
  rewrite forallb_forall in Hd. apply Hd in Hf. unfold below_check in Hf. cbn [forallb] in Hf.
  rewrite !andb_true_iff, !Z.leb_le, !Z.ltb_lt in Hf. split; split; lia.
Qed.

Lemma size_class_fits_witness : exists i, get_fixed_size_index (mkLayout 100 16) = Ok (Some i) /\ class_size i = 112.
Proof.
  destruct (size_class_fits (mkLayout 100 16)) as [E|(i & E & _ & _ & Hc & Hm & _)].
  - split; [cbn; unfold ISIZE_MAX; lia|]. exists 4. split; [lia|reflexivity].
  - cbn. lia.
  - vm_compute in E. discriminate E.
  - exists i. split; [exact E|]. vm_compute in E. injection E as <-. reflexivity.
Defined.

(** A dispatcher with one block of 40 bytes in the hands of a caller. *)
Definition sample_dispatcher : Dispatcher (list Z) * Bump := (dispatcher_new, bump_zero).
Definition sample_layout : Layout := mkLayout 40 8.
Definition sample_alloc : (Dispatcher (list Z) * Bump) * outcome Z := alloc true sample_layout sample_dispatcher.
Definition sample_ptr : Z := match sample_alloc.2 with Ok r => r | _ => 0 end.

Lemma sample_layout_valid : layout_valid sample_layout.
Proof. split; [cbn; unfold ISIZE_MAX; lia|]. exists 3. split; [lia|reflexivity]. Qed.

Lemma sample_dispatcher_wf : disp_wf true (dispatcher_new (V := list Z)) bump_zero /\ quiet (dispatcher_new (V := list Z)).
Proof. apply dispatcher_new_wf. apply bump_zero_wf. Qed.

Lemma alloc_correct_witness : exists d s, alloc true sample_layout sample_dispatcher = ((d, s), Ok sample_ptr) /\
  0 < sample_ptr /\ disp_wf true d s.
Proof.
  destruct sample_dispatcher_wf as [Hd Hq].
  destruct (alloc_correct true (dispatcher_new (V := list Z)) bump_zero sample_layout Hd Hq) as
    (d & s & r & E & _ & _ & _ & Hcase); [exact sample_layout_valid|cbn; lia|].
  assert (r = sample_ptr) as -> by (unfold sample_ptr, sample_alloc, sample_dispatcher; rewrite E; reflexivity).
  exists d, s. split; [exact E|]. destruct Hcase as [[Hz _]|(Hp & _ & Hwf & _)]; [|split; [exact Hp|exact Hwf]].
  exfalso. vm_compute in Hz. discriminate Hz.
Defined.

Lemma sample_alloc_wf : disp_wf true sample_alloc.1.1 sample_alloc.1.2 /\ quiet sample_alloc.1.1 /\
  user_block sample_alloc.1.1 4 sample_ptr.
Proof.
  destruct sample_dispatcher_wf as [Hd Hq].
  destruct (fixed_size_allocate_spec true (dispatcher_new (V := list Z)) bump_zero 4 sample_layout Hd Hq) as
    (d & s & r & E & _ & Hcase); [done|split; [done|split; [done|unfold small_layout; cbn; lia]]|].
  assert (sample_alloc = ((d, s), Ok r)) as Ea.
  { unfold sample_alloc, alloc, sample_dispatcher. change (validate_nonempty sample_layout) with (Ok tt). rewrite bindM_lift.
    assert (get_fixed_size_index sample_layout = Ok (Some 4)) as -> by (vm_compute; reflexivity). rewrite bindM_lift. exact E. }
  assert (r = sample_ptr) as -> by (unfold sample_ptr; rewrite Ea; reflexivity).
  destruct Hcase as [(_ & Hwf & _ & Hu & _)|(Hz & _)]; [|exfalso; vm_compute in Hz; discriminate Hz].
  rewrite Ea. cbn [fst snd]. split; [exact Hwf|]. split; [|apply Hu; right; split; reflexivity].
  apply quiet_by_check. assert (d = sample_alloc.1.1) as -> by (rewrite Ea; reflexivity). vm_compute. reflexivity.
Qed.

Lemma dealloc_correct_witness : exists d s, dealloc true sample_ptr sample_layout sample_alloc.1 = ((d, s), Ok tt) /\
  disp_wf true d s /\ ~ user_block d 4 sample_ptr.
Proof.
  destruct sample_alloc_wf as (Hwf & Hq & Hu).
  destruct (dealloc_correct true sample_alloc.1.1 sample_alloc.1.2 sample_ptr sample_layout Hwf Hq) as (d & s & E & Hd & _ & Hrel).
  - exact sample_layout_valid.
  - cbn. lia.
  - unfold holds. change (get_fixed_size_index sample_layout) with (Ok (Some 4)). exact Hu.
  - rewrite <- surjective_pairing in E. exists d, s. split; [exact E|]. split; [exact Hd|].
    change (get_fixed_size_index sample_layout) with (Ok (Some 4)) in Hrel. destruct Hrel as [_ Hrel].
    intros Hu'. apply Hrel in Hu' as [_ Hn]. apply Hn. split; reflexivity.
Defined.
