(* ===== verification/DispatcherStats.v ===== *)
(** * DispatcherStats: the statistics of the general purpose allocator add up

    The total statistics of a dispatcher are kept apart from those of its parts: the page
    allocator and the allocators of fixed sizes.  This file shows that every operation
    of [ku/src/allocator/dispatcher.rs] keeps the total equal to the sum of the parts,
    whatever the state of the memory, so that the check of [DetailedInfo::is_valid]
    succeeds. *)

From Stdlib Require Import ZArith Lia.
From stdpp Require Import base list numbers tactics.
From S2P Require Import Prelude Addr Frage Block Mmu PageAllocator BigAllocator.
From S2P Require Import AllocInfo Bitmap Bump DynamicBitmap Quarry FixedSize Dispatcher.

Open Scope Z_scope.
Open Scope outcome_scope.

(** The words of statistics, and the sum of the parts. *)
Definition info_word (i : Info) : Word -> Z :=
  volume_of (positive (AllocInfo.allocated i)) (negative (AllocInfo.allocated i))
    (positive (AllocInfo.allocations i)) (negative (AllocInfo.allocations i))
    (positive (pages i)) (negative (pages i)) (positive (requested i)) (negative (requested i)).

Definition parts {V} (d : Dispatcher V) (w : Word) : Z :=
  words (fallback_info d) w + sum ((fun f => info_word (fs_info f) w) <$> fixed_size d).

Definition adds_up {V} (d : Dispatcher V) : Prop :=
  forall w, words (info d) w mod USIZE_MODULUS = parts d w mod USIZE_MODULUS.

(** A change of statistics that adds the volume of the given additions. *)
Definition info_adds (op : Info -> outcome Info) (ws : writes) : Prop :=
  forall i, (exists i', op i = Ok i' /\ forall w, info_word i' w = info_word i w + volume ws w) \/ op i = Panic.

Ltac solve_info_adds :=
  intros i;
  unfold AllocInfo.allocation, AllocInfo.deallocation, pages_allocation, pages_deallocation, increase, decrease, usize_add;
  repeat match goal with |- context [fits_usize ?x] => destruct (fits_usize x); [|by right] end;
  left; eexists; split; [reflexivity|]; intros w.

Lemma allocation_adds r a p : 0 <= p -> info_adds (fun i => AllocInfo.allocation i r a p) (allocation_writes r a p).
Proof. intros Hp. solve_info_adds. rewrite allocation_volume by done. destruct w; cbn; lia. Qed.
Lemma deallocation_adds r a p : 0 <= p -> info_adds (fun i => AllocInfo.deallocation i r a p) (deallocation_writes r a p).
Proof. intros Hp. solve_info_adds. rewrite deallocation_volume by done. destruct w; cbn; lia. Qed.
Lemma pages_allocation_adds p : info_adds (fun i => pages_allocation i p) (pages_allocation_writes p).
Proof. solve_info_adds. rewrite pages_allocation_volume. destruct w; cbn; lia. Qed.
Lemma pages_deallocation_adds p : info_adds (fun i => pages_deallocation i p) (pages_deallocation_writes p).
Proof. solve_info_adds. rewrite pages_deallocation_volume. destruct w; cbn; lia. Qed.

(** ** Operations that do not touch the statistics of an allocator *)

Definition keeps_info {X A} (op : M (FixedSizeAllocator * X) A) : Prop :=
  forall f x, fs_info (op (f, x)).1.1 = fs_info f.

Section Keeps.
  Context {X : Type}.

Lemma keeps_ret {A} (a : A) : keeps_info (X := X) (retM a).
Proof. done. Qed.
Lemma keeps_lift {A} (r : outcome A) : keeps_info (X := X) (liftM r).
Proof. done. Qed.
Lemma keeps_get : keeps_info (X := X) (on_fst getM).
Proof. done. Qed.
Lemma keeps_snd {A} (c : M X A) : keeps_info (on_snd c).
Proof. intros f x. unfold on_snd. cbn [snd fst]. by destruct (c x). Qed.
Lemma keeps_bind {A B} (c : M (FixedSizeAllocator * X) A) (k : A -> M (FixedSizeAllocator * X) B) :
  keeps_info c -> (forall a, keeps_info (k a)) -> keeps_info (bindM c k).
Proof.
  intros Hc Hk f x. specialize (Hc f x). unfold bindM. destruct (c (f, x)) as [[f' x'] [a|e|]]; cbn [fst] in *; [|done..].
  by rewrite (Hk a f' x').
Qed.
Lemma keeps_bitmap {A} (op : Bitmap -> outcome (Bitmap * A)) : keeps_info (X := X) (on_fst (with_bitmap op)).
Proof. intros f x. unfold on_fst, with_bitmap. cbn [fst snd]. by destruct (op _) as [[b a]|e|]. Qed.
Lemma keeps_fst {A} (c : M FixedSizeAllocator A) : (forall f, fs_info (c f).1 = fs_info f) -> keeps_info (X := X) (on_fst c).
Proof. intros Hc f x. specialize (Hc f). unfold on_fst. cbn [fst snd]. by destruct (c f). Qed.
Lemma keeps_deallocate ptr : keeps_info (X := X) (on_fst (deallocate_impl ptr)).
Proof.
  apply keeps_fst. intros f. unfold deallocate_impl, bindM, liftM, getM, free_number, with_bitmap, retM.
  repeat (case_match; simplify_eq; try done).
Qed.
Lemma keeps_allocate l : keeps_info (X := X) (on_fst (fixed_allocate l)).
Proof.
  apply keeps_fst. intros f. unfold fixed_allocate, bindM, liftM, getM, free_number, with_bitmap, retM.
  repeat (case_match; simplify_eq; try done).
Qed.
Lemma keeps_fixed_deallocate ptr l : keeps_info (X := X) (on_fst (fixed_deallocate ptr l)).
Proof.
  apply keeps_fst. intros f. unfold fixed_deallocate, deallocate_impl, bindM, liftM, getM, free_number, with_bitmap, retM.
  repeat (case_match; simplify_eq; try done).
Qed.
Lemma keeps_for {A} (body : A -> M (FixedSizeAllocator * X) unit) l :
  (forall a, keeps_info (body a)) -> keeps_info (for_list body l).
Proof. intros H. induction l as [|a l IH]; [done|]. by apply keeps_bind. Qed.
End Keeps.

Create HintDb stats.
#[export] Hint Resolve keeps_ret keeps_lift keeps_get keeps_snd keeps_bitmap keeps_deallocate : stats.

Section Clips.
  Context {V : Type} `{HeaplessVec V}.

Lemma keeps_fill_one n : keeps_info (X := Clip V) (fill_one n).
Proof. unfold fill_one. repeat (apply keeps_bind; [auto with stats|intros ?]). case_match; [apply keeps_bitmap|auto with stats]. Qed.

Lemma keeps_fill len owner : keeps_info (X := Clip V) (fill_clip len owner).
Proof.
  unfold fill_clip. apply keeps_bind; [auto with stats|intros c]. case_match; [auto with stats|].
  apply keeps_bind; [case_match; auto with stats|intros _]. apply keeps_bind; [auto with stats|intros l].
  apply keeps_for, keeps_fill_one.
Qed.

Lemma keeps_unfill len : keeps_info (X := Clip V) (unfill_clip len).
Proof.
  unfold unfill_clip. apply keeps_bind; [auto with stats|intros c]. generalize (S (Z.to_nat (clip_len c))) as fuel.
  induction fuel as [|fuel IH]; [apply keeps_ret|]. cbn [unfill_loop]. apply keeps_bind; [auto with stats|intros c'].
  case_match; [|auto with stats]. apply keeps_bind; [auto with stats|intros [ptr|]]; [|auto with stats].
  apply keeps_bind; [auto with stats|done].
Qed.
End Clips.

(** ** Operations that count the pages they answer *)

Definition counts {X} (op : M (FixedSizeAllocator * X) Z) (ws : Z -> writes) : Prop := forall f x,
  match op (f, x) with
  | ((f', _), Ok k) => 0 <= k /\ forall w, info_word (fs_info f') w = info_word (fs_info f) w + volume (ws k) w
  | ((f', _), Err _) => fs_info f' = fs_info f
  | (_, Panic) => True
  end.

Section Counts.
  Context {V : Type} `{HeaplessVec V} {X : Type} `{BigAllocator X}.

Lemma counts_bind {A} (c : M (FixedSizeAllocator * X) A) k ws :
  keeps_info c -> (forall a, counts (k a) ws) -> counts (bindM c k) ws.
Proof.
  intros Hc Hk f x. specialize (Hc f x). unfold bindM. destruct (c (f, x)) as [[f' x'] [a|e|]]; cbn [fst] in *; [|done..].
  specialize (Hk a f' x'). destruct (k a (f', x')) as [[f'' x''] [j|e|]]; by rewrite ?Hc in Hk.
Qed.

Lemma counts_zero ws : (forall w, volume (ws 0) w = 0) -> counts (X := X) (retM 0) ws.
Proof. intros Hz f x. cbn. split; [done|]. intros w. rewrite Hz. lia. Qed.

Lemma keeps_on_bitmap {A} (c : M (DynamicBitmap * X) A) : keeps_info (on_bitmap c).
Proof. intros f x. unfold on_bitmap. cbn [fst snd]. by destruct (c _) as [[d x'] r]. Qed.
Lemma keeps_on_quarry {A} (c : M (Quarry * X) A) : keeps_info (on_quarry c).
Proof. intros f x. unfold on_quarry. cbn [fst snd]. destruct (fs_quarry f); [|done]. by destruct (c _) as [[d x'] r]. Qed.
Lemma keeps_set_quarry q : keeps_info (X := X) (set_quarry q).
Proof. done. Qed.

(** The last steps of [stock_up] and of [unmap]. *)
Lemma counts_update (op : Z -> Info -> outcome Info) ws k : 0 <= k -> info_adds (op k) (ws k) ->
  (k = 0 -> forall w, volume (ws k) w = 0) -> forall rest : M (FixedSizeAllocator * X) unit, keeps_info rest ->
  (forall st e, (rest st).2 <> Err e) ->
  counts (let! _ := (if 0 <? k then on_fst (update_info (op k)) else retM tt) in let! _ := rest in retM k) ws.
Proof.
  intros Hk Hop Hz rest Hrest Hne f x. unfold bindM at 1. destruct (Z.ltb_spec 0 k).
  - unfold on_fst, update_info. cbn [fst snd]. destruct (Hop (fs_info f)) as [(i' & -> & Hi)| ->]; [|done].
    set (f1 := mkFixed (fs_bitmap f) i' (fs_quarry f)). specialize (Hrest f1 x). specialize (Hne (f1, x)). unfold bindM.
    destruct (rest _) as [[f' x'] [[]|e|]]; cbn in *; [by rewrite Hrest|by destruct (Hne e)|done].
  - specialize (Hrest f x). specialize (Hne (f, x)). unfold bindM, retM.
    destruct (rest _) as [[f' x'] [[]|e|]]; cbn in *; rewrite ?Hrest; [|done..].
    split; [done|]. intros w. rewrite Hz by lia. lia.
Qed.

Lemma stock_up_counts size : counts (stock_up V size) pages_allocation_writes.
Proof.
  unfold stock_up. apply counts_bind; [auto with stats|intros _]. apply counts_bind; [auto with stats|intros f0].
  apply counts_bind; [case_match; [apply keeps_bind; [auto with stats|intros q; apply keeps_set_quarry]|auto with stats]|intros _].
  apply counts_bind; [auto with stats|intros f1]. do 4 (apply counts_bind; [auto with stats|intros ?]).
  case_match; [apply counts_zero; intros w; rewrite pages_allocation_volume; by destruct w|].
  unfold stock_up_to. apply counts_bind; [apply keeps_on_bitmap|intros n].
  apply counts_bind; [apply keeps_on_quarry|intros [m ?]]. intros f x.
  unfold bindM at 1, liftM. destruct (usize_add n m) as [k|e|] eqn:E; [|done..]. apply usize_add_inv in E as [_ Hk].
  pose proof (counts_update (fun k i => pages_allocation i k) pages_allocation_writes k (proj1 Hk)
    (pages_allocation_adds k)) as Hc.
  specialize (Hc ltac:(intros -> w; rewrite pages_allocation_volume; by destruct w)).
  apply (Hc (retM tt) ltac:(auto with stats) ltac:(done) f x).
Qed.

(** The frames counted by [Quarry::unmap] are a [usize]. *)
Lemma unmap_slabs_usize n l (st : Quarry * X) k : is_usize n -> (for_fold unmap_slab n l st).2 = Ok k -> is_usize k.
Proof.
  revert n st. induction l as [|i l IH]; intros n st Hn; [cbn; by intros [= <-]|]. cbn [for_fold]. unfold bindM at 1.
  destruct (unmap_slab n i st) as [st' [m|e|]] eqn:E; [|done..]. apply IH.
  unfold unmap_slab in E. do 2 (apply bindM_inv_ok in E as (? & ? & _ & E)).
  do 2 (apply bindM_inv_ok in E as (? & ? & _ & E)). apply bindM_inv_ok in E as (? & ? & E & E').
  apply bindM_inv_ok in E' as (? & ? & _ & E'). injection E' as _ <-. unfold liftM in E. injection E as _ E.
  by apply usize_add_inv in E as [_ ?].
Qed.

Ltac next_ok E := apply bindM_inv_ok in E as (? & ? & _ & E).

Lemma quarry_unmap_usize n (st st' : Quarry * X) k : quarry_unmap n st = (st', Ok k) -> is_usize k.
Proof.
  unfold quarry_unmap. intros E. next_ok E. destruct (allocation_coordinates _ n) as [i off]. next_ok E.
  apply bindM_inv_ok in E as (st1 & m & E1 & E).
  assert (is_usize m) as Hm by (apply (unmap_slabs_usize 0 (seqZ 0 i) x1 m); [unfold is_usize; lia|by rewrite E1]).
  destruct (0 <? off); [|by injection E as _ <-]. do 5 next_ok E. apply bindM_inv_ok in E as (? & j & E2 & E). next_ok E.
  injection E as _ <-. unfold liftM in E2. injection E2 as _ E2. by apply usize_add_inv in E2 as [_ ?].
Qed.

(** The parts of [unmap] before the count. *)
Lemma unmap_frames_usize (f f' : FixedSizeAllocator) (s s' : X) n k :
  (let! total_frames := (if bool_decide (fs_quarry f = None) then retM 0 else on_quarry (quarry_unmap n)) in
   if 0 <? n then
     let! bitmap_frames := on_bitmap bitmap_unmap in
     liftM (usize_add total_frames bitmap_frames)
   else retM total_frames) (f, s) = ((f', s'), Ok k) -> is_usize k.
Proof.
  intros E. apply bindM_inv_ok in E as ([f1 s1] & m & E1 & E). destruct (0 <? n).
  { next_ok E. unfold liftM in E. injection E as _ E. by apply usize_add_inv in E as [_ ?]. }
  unfold retM in E. assert (m = k) as <- by congruence. clear E. destruct (bool_decide _); [injection E1 as _ <-; unfold is_usize; lia|].
  unfold on_quarry in E1. cbn [fst snd] in E1. destruct (fs_quarry f); [|discriminate].
  destruct (quarry_unmap n _) as [[q' s2] r] eqn:Eq. injection E1 as _ _ ->. exact (quarry_unmap_usize _ _ _ _ Eq).
Qed.

Lemma unmap_parts_keeps f n : keeps_info (X := X)
  (let! total_frames := (if bool_decide (fs_quarry f = None) then retM 0 else on_quarry (quarry_unmap n)) in
   if 0 <? n then
     let! bitmap_frames := on_bitmap bitmap_unmap in
     liftM (usize_add total_frames bitmap_frames)
   else retM total_frames).
Proof.
  apply keeps_bind; [destruct (bool_decide _); [auto with stats|apply keeps_on_quarry]|intros m].
  destruct (0 <? n); [apply keeps_bind; [apply keeps_on_bitmap|auto with stats]|auto with stats].
Qed.

Lemma bindM_assoc {T A B C} (c : M T A) (g : A -> M T B) (k : B -> M T C) st :
  bindM c (fun a => bindM (g a) k) st = bindM (bindM c g) k st.
Proof. unfold bindM. by destruct (c st) as [st' [a|e|]]. Qed.

Definition drop_quarry : M (FixedSizeAllocator * X) unit :=
  let! f := on_fst getM in
  let! _ := liftM (match fs_quarry f with Some q => quarry_drop q | None => Ok tt end) in
  set_quarry None.

Lemma drop_quarry_eq {A} (k : M (FixedSizeAllocator * X) A) st :
  (let! f := on_fst getM in
   let! _ := liftM (match fs_quarry f with Some q => quarry_drop q | None => Ok tt end) in
   let! _ := set_quarry None in k) st = (let! _ := drop_quarry in k) st.
Proof.
  destruct st as [f x]. unfold drop_quarry, bindM, on_fst, getM, liftM. cbn [fst snd].
  by destruct (match fs_quarry f with Some q => quarry_drop q | None => Ok tt end).
Qed.
Lemma drop_quarry_keeps : keeps_info drop_quarry.
Proof. unfold drop_quarry. repeat (apply keeps_bind; [auto with stats|intros ?]). apply keeps_set_quarry. Qed.
Lemma drop_quarry_err st e : (drop_quarry st).2 <> Err e.
Proof.
  destruct st as [f x]. unfold drop_quarry, bindM, on_fst, getM, liftM, quarry_drop. cbn [fst snd].
  destruct (fs_quarry f); [|done]. by destruct (forallb _ _).
Qed.

Lemma unmap_counts : counts (X := X) fixed_unmap pages_deallocation_writes.
Proof.
  intros f x. unfold fixed_unmap. change (bindM (on_fst getM) ?k (f, x)) with (k f (f, x)). cbv beta.
  unfold bindM at 1, liftM at 1. destruct (assert_freed (fs_info f)) as [[]|e|]; [|done..]. rewrite bindM_assoc.
  match goal with |- context [bindM ?c _ (f, x)] => assert (keeps_info c) as Hk by apply unmap_parts_keeps;
    specialize (Hk f x); destruct (c (f, x)) as [[f1 x1] r] eqn:E1 end.
 cbn [fst] in Hk. unfold bindM at 1. rewrite E1. destruct r as [k|e|]; [|done..].
  apply unmap_frames_usize in E1.
  pose proof (counts_update (fun k i => pages_deallocation i k) pages_deallocation_writes k (proj1 E1)
    (pages_deallocation_adds k)) as Hc.
  specialize (Hc ltac:(intros -> w; rewrite pages_deallocation_volume; by destruct w)).
  specialize (Hc drop_quarry drop_quarry_keeps drop_quarry_err f1 x1). rewrite <- Hk. revert Hc. clear Hk.
  unfold bindM at 1 3.
  destruct ((if 0 <? k then on_fst (update_info (fun i => pages_deallocation i k)) else retM tt) (f1, x1)) as [st [[]|e|]]; [|done..].
  by rewrite drop_quarry_eq.
Qed.
End Counts.

(** ** The balance of total and parts *)

Section Balance.
  Context {V : Type} `{HeaplessVec V} {S : Type} `{BigAllocator S} (available : bool).

(** The total exceeds the parts by [delta], up to wrap-around. *)
Definition ahead (d : Dispatcher V) (delta : Word -> Z) : Prop :=
  forall w, exists z, words (info d) w = parts d w + delta w + z * USIZE_MODULUS.

Lemma adds_up_ahead d : adds_up d <-> ahead d (fun _ => 0).
Proof.
  split; intros Hd w; specialize (Hd w).
  - exists (words (info d) w / USIZE_MODULUS - parts d w / USIZE_MODULUS). Z.div_mod_to_equations. lia.
  - destruct Hd as [z ->]. rewrite Z.add_0_r. apply Z_mod_plus_full.
Qed.

Lemma ahead_ext d delta delta' : (forall w, delta w = delta' w) -> ahead d delta -> ahead d delta'.
Proof. intros Hw Hd w. rewrite <- Hw. apply Hd. Qed.

Lemma words_write_all ws i w : exists z, words (write_all ws i) w = words i w + volume ws w + z * USIZE_MODULUS.
Proof.
  pose proof (apply_writes_volume ws (words i) w) as Hv. cbn [write_all words].
  exists (apply_writes ws (words i) w / USIZE_MODULUS - (words i w + volume ws w) / USIZE_MODULUS).
  Z.div_mod_to_equations. lia.
Qed.

(** Counting in the total, in the page allocator, in the allocator of a size. *)
Lemma ahead_total ws d delta : ahead d delta ->
  ahead (mkDispatcher (cache d) (fallback_info d) (fixed_size d) (write_all ws (info d))) (fun w => delta w + volume ws w).
Proof.
  intros Hd w. destruct (Hd w) as [z Hz]. destruct (words_write_all ws (info d) w) as [z' Hz']. cbn [info].
  exists (z + z'). unfold parts in *. cbn [fallback_info fixed_size]. lia.
Qed.
Lemma ahead_fallback ws d delta : ahead d delta ->
  ahead (mkDispatcher (cache d) (write_all ws (fallback_info d)) (fixed_size d) (info d)) (fun w => delta w - volume ws w).
Proof.
  intros Hd w. destruct (Hd w) as [z Hz]. destruct (words_write_all ws (fallback_info d) w) as [z' Hz'].
  exists (z - z'). unfold parts in *. cbn [fallback_info fixed_size info]. lia.
Qed.

Lemma sum_insert {A} (g : A -> Z) l i x y : l !! i = Some x -> sum (g <$> <[i := y]> l) = sum (g <$> l) - g x + g y.
Proof.
  revert i. induction l as [|a l IH]; intros [|i] Hl; try done.
  - injection Hl as ->. change (<[0%nat := y]> (x :: l)) with (y :: l). rewrite !fmap_cons.
    change (g y + sum (g <$> l) = g x + sum (g <$> l) - g x + g y). lia.
  - change (<[Datatypes.S i := y]> (a :: l)) with (a :: <[i := y]> l). rewrite !fmap_cons.
    change (g a + sum (g <$> <[i := y]> l) = g a + sum (g <$> l) - g x + g y). rewrite (IH i Hl). lia.
Qed.

Lemma ahead_fixed d delta i f f' e : index (fixed_size d) i = Ok f ->
  (forall w, info_word (fs_info f') w = info_word (fs_info f) w + e w) -> ahead d delta ->
  ahead (mkDispatcher (cache d) (fallback_info d) (<[Z.to_nat i := f']> (fixed_size d)) (info d)) (fun w => delta w - e w).
Proof.
  intros [_ Hf]%index_ok He Hd w. destruct (Hd w) as [z Hz]. exists z. unfold parts in *. cbn [fallback_info fixed_size info].
  rewrite (sum_insert (fun f => info_word (fs_info f) w) _ _ f f' Hf), He. lia.
Qed.

(** An operation that keeps the balance, unless it panics. *)
Definition balanced_op {A} (op : M (Dispatcher V * S) A) : Prop := forall d s, adds_up d ->
  match op (d, s) with
  | (_, Panic) => True
  | ((d', _), _) => adds_up d'
  end.

Lemma balanced_ret {A} (a : A) : balanced_op (retM a).
Proof. intros d s Hd. exact Hd. Qed.
Lemma balanced_lift {A} (r : outcome A) : balanced_op (liftM r).
Proof. intros d s Hd. unfold liftM. by destruct r. Qed.
Lemma balanced_get : balanced_op (on_fst getM).
Proof. intros d s Hd. exact Hd. Qed.
Lemma balanced_snd {A} (c : M S A) : balanced_op (on_snd c).
Proof. intros d s Hd. unfold on_snd. cbn [fst snd]. by destruct (c s) as [s' [a|e|]]. Qed.
Lemma balanced_ok {A} (c : M (Dispatcher V * S) A) : balanced_op c -> balanced_op (okM c).
Proof. intros Hc d s Hd. specialize (Hc d s Hd). unfold okM. by destruct (c (d, s)) as [[d' s'] [a|e|]]. Qed.
Lemma balanced_bind {A B} (c : M (Dispatcher V * S) A) (k : A -> M (Dispatcher V * S) B) :
  balanced_op c -> (forall a, balanced_op (k a)) -> balanced_op (bindM c k).
Proof.
  intros Hc Hk d s Hd. specialize (Hc d s Hd). unfold bindM. destruct (c (d, s)) as [[d' s'] [a|e|]]; [|done..]. by apply Hk.
Qed.
Lemma balanced_for {A} (body : A -> M (Dispatcher V * S) unit) l :
  (forall a, balanced_op (body a)) -> balanced_op (for_list body l).
Proof. intros Hb. induction l as [|a l IH]; [apply balanced_ret|]. by apply balanced_bind. Qed.

Lemma ahead_zero_sub d e : ahead d (fun w => 0 - e w) -> (forall w, e w = 0) -> adds_up d.
Proof. intros Hd He. apply adds_up_ahead. apply (ahead_ext d (fun w => 0 - e w)); [|done]. intros w. rewrite He. lia. Qed.

Lemma balanced_clip {A} i (c : M (Clip V) A) : balanced_op (on_clip i c).
Proof.
  intros d s Hd. unfold on_clip. destruct (index (cache d) i) as [clip|e|]; [|done..]. by destruct (c clip) as [clip' [a|e|]].
Qed.
Lemma balanced_allocator {A} i (c : M (FixedSizeAllocator * S) A) : keeps_info c -> balanced_op (on_allocator i c).
Proof.
  intros Hc d s Hd. unfold on_allocator. destruct (index (fixed_size d) i) as [f|e|] eqn:Ef; [|done..].
  specialize (Hc f s). destruct (c (f, s)) as [[f' s'] r]. cbn [fst] in Hc.
  assert (adds_up (mkDispatcher (cache d) (fallback_info d) (<[Z.to_nat i := f']> (fixed_size d)) (info d))) as Hd'.
  { apply (ahead_zero_sub _ (fun _ => 0)); [|done].
    apply (ahead_fixed d _ i f f'); [done|intros w; rewrite Hc; lia|by apply adds_up_ahead]. }
  by destruct r.
Qed.
Lemma balanced_both {A} i (c : M (FixedSizeAllocator * Clip V) A) : keeps_info c -> balanced_op (on_both i c).
Proof.
  intros Hc d s Hd. unfold on_both. destruct (index (fixed_size d) i) as [f|e|] eqn:Ef; [|done..].
  destruct (index (cache d) i) as [clip|e|]; [|done..]. specialize (Hc f clip). destruct (c (f, clip)) as [[f' clip'] r]. cbn [fst] in Hc.
  assert (adds_up (mkDispatcher (<[Z.to_nat i := clip']> (cache d)) (fallback_info d) (<[Z.to_nat i := f']> (fixed_size d)) (info d))) as Hd'.
  { apply (ahead_zero_sub _ (fun _ => 0)); [|done].
    apply (ahead_fixed d _ i f f'); [done|intros w; rewrite Hc; lia|by apply adds_up_ahead]. }
  by destruct r.
Qed.

(** One operation counted in an allocator of fixed size and in the total. *)
Lemma ahead_count op ws i d s delta : info_adds op ws -> ahead d delta ->
  match on_allocator (V := V) (S := S) i (on_fst (update_info op)) (d, s) with
  | ((d', _), Ok _) => ahead d' (fun w => delta w - volume ws w)
  | (_, Err _) => False
  | (_, Panic) => True
  end.
Proof.
  intros Hop Hd. unfold on_allocator. destruct (index (fixed_size d) i) as [f|e|] eqn:Ef; [|done..].
  unfold on_fst, update_info. cbn [fst snd]. destruct (Hop (fs_info f)) as [(i' & -> & Hi)| ->]; [|done].
  by apply (ahead_fixed d delta i f).
Qed.

Lemma balanced_count op ws i : info_adds op ws ->
  balanced_op (let! _ := on_allocator i (on_fst (update_info op)) in update_total (write_all ws)).
Proof.
  intros Hop d s Hd%adds_up_ahead. pose proof (ahead_count op ws i d s _ Hop Hd) as Hc. unfold bindM.
  destruct (on_allocator _ _ _) as [[d' s'] [[]|e|]]; [|done..]. apply (ahead_total ws) in Hc. apply adds_up_ahead.
  apply (ahead_ext _ _ _ (fun w => Z.sub_add _ _) Hc).
Qed.

Lemma balanced_count_allocation i l : balanced_op (count_allocation i l).
Proof.
  apply balanced_bind; [apply balanced_lift|intros size].
  apply (balanced_count _ (allocation_writes (layout_size l) size 0)), allocation_adds. lia.
Qed.
Lemma balanced_count_deallocation i l : balanced_op (count_deallocation i l).
Proof.
  apply balanced_bind; [apply balanced_lift|intros size].
  apply (balanced_count _ (deallocation_writes (layout_size l) size 0)), deallocation_adds. lia.
Qed.

Lemma balanced_recount i l l' : balanced_op (recount i l l').
Proof.
  apply balanced_bind; [apply balanced_lift|intros size]. intros d s Hd%adds_up_ahead.
  pose proof (ahead_count _ _ i d s _ (deallocation_adds (layout_size l) size 0 ltac:(lia)) Hd) as H1. unfold bindM at 1.
  destruct (on_allocator _ _ _) as [[d1 s1] [[]|e|]]; [|done..].
  pose proof (ahead_count _ _ i d1 s1 _ (allocation_adds (layout_size l') size 0 ltac:(lia)) H1) as H2. unfold bindM at 1.
  destruct (on_allocator _ _ _) as [[d2 s2] [[]|e|]]; [|done..].
  apply (ahead_total (deallocation_writes (layout_size l) size 0)), (ahead_total (allocation_writes (layout_size l') size 0)) in H2.
  apply adds_up_ahead. eapply ahead_ext; [|exact H2]. intros w. lia.
Qed.

(** One operation counted in the page allocator and in the total. *)
Lemma balanced_fallback_info o l : balanced_op (update_fallback_info o l).
Proof.
  apply balanced_bind; [apply balanced_lift|intros n]. intros d s Hd%adds_up_ahead.
  destruct o; (eapply (ahead_fallback _), (ahead_total _) in Hd; apply adds_up_ahead;
    apply (ahead_ext _ _ _ (fun w => Z.sub_add _ _) Hd)).
Qed.

(** Pages counted by an allocator of fixed size and in the total. *)
Lemma ahead_counts c ws i d s delta : counts c ws -> ahead d delta ->
  match on_allocator (V := V) (S := S) i c (d, s) with
  | ((d', _), Ok k) => 0 <= k /\ ahead d' (fun w => delta w - volume (ws k) w)
  | ((d', _), Err _) => ahead d' delta
  | (_, Panic) => True
  end.
Proof.
  intros Hc Hd. unfold on_allocator. destruct (index (fixed_size d) i) as [f|e|] eqn:Ef; [|done..].
  specialize (Hc f s). destruct (c (f, s)) as [[f' s'] [k|e|]]; [destruct Hc as [Hk Hc]; split; [done|]; by apply (ahead_fixed d delta i f)| |done].
  apply (ahead_ext _ (fun w => delta w - 0) delta); [intros w; lia|].
  apply (ahead_fixed d delta i f); [done|intros w; rewrite Hc; lia|done].
Qed.

Lemma refill_balanced i : balanced_op (refill i).
Proof.
  apply balanced_bind; [apply balanced_allocator; intros f x; done|intros empty]. destruct empty; [|apply balanced_ret].
  apply balanced_bind; [apply balanced_lift|intros size]. intros d s Hd%adds_up_ahead.
  pose proof (ahead_counts _ _ i d s _ (stock_up_counts (V := V) size) Hd) as Hc. unfold bindM at 1, okM.
  destruct (on_allocator _ _ _) as [[d' s'] [k|e|]]; [| |done].
  - destruct Hc as [Hk Hc]. unfold bindM at 1. destruct (Z.ltb_spec 0 k); apply adds_up_ahead.
    + apply (ahead_total (pages_allocation_writes k)) in Hc. eapply ahead_ext; [|exact Hc]. intros w. lia.
    + apply (ahead_ext d' (fun w => 0 - volume (pages_allocation_writes k) w)); [|exact Hc].
      intros w. rewrite pages_allocation_volume. destruct w; cbn; lia.
  - apply adds_up_ahead. exact Hc.
Qed.

Hint Resolve balanced_ret balanced_lift balanced_get balanced_snd balanced_clip balanced_count_allocation
  balanced_count_deallocation balanced_fallback_info refill_balanced balanced_recount : stats.

Lemma balanced_fixed_allocate i l : balanced_op (fixed_size_allocate available i l).
Proof.
  unfold fixed_size_allocate. destruct available.
  - apply balanced_bind; [auto with stats|intros [ptr|]]; [apply balanced_bind; auto with stats|].
    apply balanced_bind; [auto with stats|intros [|]]; [|auto with stats].
    apply balanced_bind; [apply balanced_both, keeps_bind; [auto with stats|intros c; apply keeps_fill]|intros _].
    apply balanced_bind; [auto with stats|intros [ptr|]]; [apply balanced_bind; auto with stats|auto with stats].
  - apply balanced_bind; [auto with stats|intros [|]]; [|auto with stats].
    apply balanced_bind; [apply balanced_allocator, keeps_allocate|intros ptr].
    apply balanced_bind; [destruct (negb _); auto with stats|auto with stats].
Qed.

Lemma balanced_fallback_allocate l init : balanced_op (fallback_allocate l init).
Proof.
  apply balanced_bind; [apply balanced_ok, balanced_snd|intros [[ptr n]|]]; [|auto with stats].
  apply balanced_bind; auto with stats.
Qed.

Lemma balanced_fixed_deallocate i ptr l : balanced_op (fixed_size_deallocate available i ptr l).
Proof.
  unfold fixed_size_deallocate. destruct available.
  - apply balanced_bind; [auto with stats|intros [|]]; [auto with stats|].
    apply balanced_bind; [apply balanced_both, keeps_bind; [auto with stats|intros c; apply keeps_unfill]|intros _].
    apply balanced_bind; [auto with stats|intros [|]]; [auto with stats|].
    apply balanced_bind; [apply balanced_allocator, keeps_fixed_deallocate|auto with stats].
  - apply balanced_bind; [apply balanced_allocator, keeps_fixed_deallocate|auto with stats].
Qed.

Lemma balanced_fallback_deallocate ptr l : balanced_op (fallback_deallocate ptr l).
Proof. do 2 (apply balanced_bind; [auto with stats|intros _]). apply balanced_fallback_info. Qed.

Hint Resolve balanced_fixed_allocate balanced_fallback_allocate balanced_fixed_deallocate balanced_fallback_deallocate : stats.

Lemma alloc_balanced l : balanced_op (alloc available l).
Proof. do 2 (apply balanced_bind; [auto with stats|intros ?]). case_match; auto with stats. Qed.
Lemma alloc_zeroed_balanced l : balanced_op (alloc_zeroed available l).
Proof. do 2 (apply balanced_bind; [auto with stats|intros ?]). case_match; auto with stats. Qed.
Lemma dealloc_balanced ptr l : balanced_op (dealloc available ptr l).
Proof. do 2 (apply balanced_bind; [auto with stats|intros ?]). case_match; auto with stats. Qed.

Lemma then_balanced (c : M (Dispatcher V * S) Z) (k : M (Dispatcher V * S) unit) : balanced_op c -> balanced_op k ->
  balanced_op (let! r := c in if negb (r =? 0) then let! _ := k in retM r else retM r).
Proof.
  intros Hc Hk. apply balanced_bind; [done|intros r]. destruct (negb _); [apply balanced_bind; auto with stats|auto with stats].
Qed.

Lemma realloc_balanced ptr l n : balanced_op (realloc available ptr l n).
Proof.
  unfold realloc. do 4 (apply balanced_bind; [auto with stats|intros ?]).
  destruct a1 as [i|], a2 as [j|].
  - destruct (i =? j); [apply balanced_bind; auto with stats|apply then_balanced; auto with stats].
  - apply then_balanced; auto with stats.
  - apply then_balanced; auto with stats.
  - apply balanced_bind; [auto with stats|intros _]. apply balanced_bind; [apply balanced_ok, balanced_snd|intros [[r m]|]]; [|auto with stats].
    do 2 (apply balanced_bind; [apply balanced_fallback_info|intros _]). auto with stats.
Qed.

Lemma unmap_balanced : balanced_op (unmap available).
Proof.
  unfold unmap. do 5 (apply balanced_bind; [auto with stats|intros ?]).
  apply balanced_bind; [destruct available; [apply balanced_for; intros i; apply balanced_both|auto with stats]|intros _].
  { apply keeps_bind; [auto with stats|intros c]. destruct (negb _); [apply keeps_unfill|auto with stats]. }
  apply balanced_bind.
  - apply balanced_for. intros i d s Hd%adds_up_ahead.
    pose proof (ahead_counts _ _ i d s _ unmap_counts Hd) as Hc. unfold unmap_allocator, bindM, okM.
    destruct (on_allocator _ _ _) as [[d' s'] [k|e|]]; [| |done]; apply adds_up_ahead; [|exact Hc].
    destruct Hc as [_ Hc]. apply (ahead_total (pages_deallocation_writes k)) in Hc. eapply ahead_ext; [|exact Hc]. intros w. lia.
  - intros _. apply balanced_bind; [unfold load_total; apply balanced_bind; auto with stats|auto with stats].
Qed.

Lemma new_adds_up : adds_up (dispatcher_new (V := V)).
Proof.
  intros w. cbn [dispatcher_new info atomic_info_new words]. unfold parts. cbn [fallback_info fixed_size atomic_info_new words dispatcher_new].
  rewrite fmap_replicate. generalize (Z.to_nat FIXED_SIZE_COUNT) as n. intros n.
  assert (sum (replicate n (info_word (fs_info fixed_new) w)) = 0) as ->; [|done].
  assert (info_word (fs_info fixed_new) w = 0) as -> by (by destruct w).
  induction n as [|n IH]; [done|]. change (0 + sum (replicate n 0) = 0). by rewrite IH.
Qed.

(** The requests of callers. *)
Inductive Request :=
  | Alloc (l : Layout)
  | AllocZeroed (l : Layout)
  | Dealloc (ptr : Z) (l : Layout)
  | Realloc (ptr : Z) (l : Layout) (new_size : Z)
  | Unmap.

Definition serve (r : Request) : M (Dispatcher V * S) unit :=
  match r with
  | Alloc l => let! _ := alloc available l in retM tt
  | AllocZeroed l => let! _ := alloc_zeroed available l in retM tt
  | Dealloc ptr l => dealloc available ptr l
  | Realloc ptr l n => let! _ := realloc available ptr l n in retM tt
  | Unmap => unmap available
  end.

Lemma serve_balanced r : balanced_op (serve r).
Proof.
  destruct r; cbn [serve];
    [apply balanced_bind; [apply alloc_balanced|]|apply balanced_bind; [apply alloc_zeroed_balanced|]
    |apply dealloc_balanced|apply balanced_bind; [apply realloc_balanced|]|apply unmap_balanced]; auto with stats.
Qed.

Lemma serve_all_balanced requests d s : adds_up d -> (for_list serve requests (d, s)).2 <> Panic ->
  adds_up (for_list serve requests (d, s)).1.1.
Proof.
  intros Hd Hp. pose proof (balanced_for serve requests serve_balanced d s Hd) as Hb.
  by destruct (for_list serve requests (d, s)) as [[d' s'] [a|e|]].
Qed.

End Balance.

(** ** The detailed statistics *)

Lemma info_eq i j : (forall w, info_word i w = info_word j w) -> i = j.
Proof.
  intros H. destruct i as [[] [] [] []], j as [[] [] [] []].
  pose proof (H AllocatedPositive). pose proof (H AllocatedNegative). pose proof (H AllocationsPositive). pose proof (H AllocationsNegative).
  pose proof (H PagesPositive). pose proof (H PagesNegative). pose proof (H RequestedPositive). pose proof (H RequestedNegative).
  cbn in *. congruence.
Qed.

Lemma checked_sub_ok a b : 0 <= b <= a -> a < USIZE_MODULUS -> checked_sub a b = Some (a - b).
Proof. intros Hb Ha. unfold checked_sub. by rewrite (proj2 (fits_usize_true _)) by (unfold is_usize; lia). Qed.

Lemma info_sub_ok i j : (forall w, 0 <= info_word j w <= info_word i w) -> (forall w, info_word i w < USIZE_MODULUS) ->
  exists k, info_sub i j = Ok k /\ forall w, info_word k w = info_word i w - info_word j w.
Proof.
  intros Hle Hlt.
  pose proof (Hle AllocatedPositive). pose proof (Hle AllocatedNegative). pose proof (Hle AllocationsPositive). pose proof (Hle AllocationsNegative).
  pose proof (Hle PagesPositive). pose proof (Hle PagesNegative). pose proof (Hle RequestedPositive). pose proof (Hle RequestedNegative).
  pose proof (Hlt AllocatedPositive). pose proof (Hlt AllocatedNegative). pose proof (Hlt AllocationsPositive). pose proof (Hlt AllocationsNegative).
  pose proof (Hlt PagesPositive). pose proof (Hlt PagesNegative). pose proof (Hlt RequestedPositive). pose proof (Hlt RequestedNegative).
  unfold info_word, volume_of in *. unfold info_sub, counter_sub. rewrite !checked_sub_ok by lia. cbn [ok_or].
  eexists. split; [done|]. by intros [].
Qed.

Definition valid_part (i : Info) : Prop := info_is_valid i = Ok true /\ forall w, 0 <= info_word i w.

Lemma subtract_all_ok parts b : Forall valid_part parts -> (forall w, info_word b w < USIZE_MODULUS) ->
  (forall w, info_word b w = sum ((fun i => info_word i w) <$> parts)) -> subtract_all b parts = Ok (Some info_new).
Proof.
  revert b. induction parts as [|i parts IH]; intros b Hv Hlt Hsum.
  { cbn. do 2 f_equal. apply info_eq. intros w. rewrite Hsum. by destruct w. }
  inversion Hv as [|? ? [Hi Hpos] Hrest]; subst. cbn [subtract_all]. rewrite Hi.
  assert (forall w, 0 <= sum ((fun i => info_word i w) <$> parts)) as Hnn.
  { intros w. clear -Hrest. induction Hrest as [|j l [_ Hj] _ IHl]; [done|].
    change (0 <= info_word j w + sum ((fun i => info_word i w) <$> l)). specialize (Hj w). lia. }
  assert (forall w, info_word b w = info_word i w + sum ((fun i => info_word i w) <$> parts)) as Hsum' by exact Hsum.
  destruct (info_sub_ok b i) as (k & -> & Hk); [intros w; rewrite Hsum'; specialize (Hnn w); specialize (Hpos w); lia|done|].
  apply IH; [done| |]; intros w; rewrite Hk; specialize (Hsum' w); specialize (Hpos w); specialize (Hlt w); lia.
Qed.

(** ** Theorems *)

(** C33. Whatever requests callers make, in whatever state the memory is and whether they succeed or fail,
    as long as nothing panics the total statistics are, word by word and up to
    wrap-around, the sum of those of the page allocator and of the allocators of
    all fixed sizes. *)
Theorem statistics_add_up {V} `{HeaplessVec V} {S} `{BigAllocator S} available requests (s : S) :
  (for_list (serve available) requests (dispatcher_new (V := V), s)).2 <> Panic ->
  adds_up (for_list (serve available) requests (dispatcher_new (V := V), s)).1.1.
Proof. apply serve_all_balanced, new_adds_up. Qed.

(** The check of the detailed statistics succeeds for statistics that add up, if the
    sums fit into words and the check of each part succeeds. *)
Theorem detailed_info_valid {V} (d : Dispatcher V) :
  adds_up d -> (forall w, is_usize (words (info d) w)) -> (forall w, parts d w < USIZE_MODULUS) ->
  info_is_valid (info_of (words (info d))) = Ok true -> valid_part (info_of (words (fallback_info d))) ->
  Forall valid_part (fs_info <$> fixed_size d) ->
  exists i, detailed_info d = Ok i /\ detailed_is_valid i = Ok true.
Proof.
  intros Hd Hu Hlt Ht [Hf Hfp] Hp. unfold detailed_info, load, checked_info. rewrite Ht, Hf.
  eexists. split; [done|]. unfold detailed_is_valid. cbn [total_info detailed_fallback detailed_fixed_size]. rewrite Ht, Hf. cbn [negb].
  assert (forall m w, info_word (info_of m) w = m w) as Hw by (by intros m []).
  assert (forall w, 0 <= sum ((fun i => info_word i w) <$> (fs_info <$> fixed_size d))) as Hnn.
  { intros w. clear -Hp. induction Hp as [|j l [_ Hj] _ IHl]; [done|].
    change (0 <= info_word j w + sum ((fun i => info_word i w) <$> l)). specialize (Hj w). lia. }
  assert (forall w, words (info d) w = words (fallback_info d) w + sum ((fun i => info_word i w) <$> (fs_info <$> fixed_size d))) as Hsum.
  { intros w. specialize (Hd w). specialize (Hu w). specialize (Hlt w). specialize (Hfp w). specialize (Hnn w).
    rewrite Hw in Hfp. unfold parts in *. rewrite <- list_fmap_compose in *. unfold compose in *.
    rewrite !Z.mod_small in Hd; [done|lia|unfold is_usize in Hu; lia]. }
  destruct (info_sub_ok (info_of (words (info d))) (info_of (words (fallback_info d)))) as (b & -> & Hb).
  - intros w. rewrite !Hw, Hsum. specialize (Hfp w). rewrite Hw in Hfp. specialize (Hnn w). lia.
  - intros w. rewrite Hw. apply Hu.
  - rewrite (subtract_all_ok _ b); [by rewrite bool_decide_eq_true_2|done| |].
    + intros w. rewrite Hb, !Hw. specialize (Hfp w). rewrite Hw in Hfp. specialize (Hu w). unfold is_usize in Hu. lia.
    + intros w. rewrite Hb, !Hw, Hsum. lia.
Qed.

(** ** Witnesses *)

Definition sample_requests : list Request :=
  [Alloc (mkLayout 40 8); AllocZeroed (mkLayout 5000 8); Alloc (mkLayout 100 16); Alloc (mkLayout 8192 4096)].
Local Abbreviation sample_served := (for_list (serve true) sample_requests (dispatcher_new (V := list Z), bump_zero)).

Lemma sample_served_ok : sample_served.2 = Ok tt.
Proof. vm_compute. reflexivity. Qed.

Lemma sample_served_fine : sample_served.2 <> Panic.
Proof. rewrite sample_served_ok. discriminate. Qed.

Lemma statistics_add_up_witness : sample_served.2 = Ok tt /\ adds_up sample_served.1.1.
Proof.
  split; [exact sample_served_ok|].
  exact (statistics_add_up (V := list Z) true sample_requests bump_zero sample_served_fine).
Defined.

Definition part_check (i : Info) : bool :=
  bool_decide (info_is_valid i = Ok true) && forallb (fun w => 0 <=? info_word i w) load_order.

Lemma valid_by_check i : part_check i = true -> valid_part i.
Proof.
  intros [Hv Hw]%andb_true_iff. apply bool_decide_eq_true_1 in Hv. split; [done|]. intros w.
  rewrite forallb_forall in Hw. apply Z.leb_le, Hw. destruct w; cbn; tauto.
Qed.

Lemma sample_served_adds_up : adds_up sample_served.1.1.
Proof.
  exact (serve_all_balanced (V := list Z) true sample_requests _ _ new_adds_up sample_served_fine).
Qed.

Definition word_check (d : Dispatcher (list Z)) : bool :=
  forallb (fun w => (0 <=? words (info d) w) && (words (info d) w <? USIZE_MODULUS) && (parts d w <? USIZE_MODULUS)) load_order.

Lemma words_by_check d : word_check d = true -> (forall w, is_usize (words (info d) w)) /\ (forall w, parts d w < USIZE_MODULUS).
Proof.
  unfold word_check. rewrite forallb_forall. intros H.
  assert (forall w, is_usize (words (info d) w) /\ parts d w < USIZE_MODULUS) as Hw.
  { intros w. assert (In w load_order) as Hin by (destruct w; cbn; tauto). specialize (H w Hin).
    rewrite !andb_true_iff, Z.leb_le, !Z.ltb_lt in H. unfold is_usize. lia. }
  split; intros w; apply Hw.
Qed.

Lemma sample_words : (forall w, is_usize (words (info sample_served.1.1) w)) /\ (forall w, parts sample_served.1.1 w < USIZE_MODULUS).
Proof. apply words_by_check. vm_compute. reflexivity. Qed.

Lemma sample_total_valid : info_is_valid (info_of (words (info sample_served.1.1))) = Ok true.
Proof. vm_compute. reflexivity. Qed.

Lemma sample_fallback_valid : valid_part (info_of (words (fallback_info sample_served.1.1))).
Proof. apply valid_by_check. vm_compute. reflexivity. Qed.

Lemma parts_by_check l : forallb part_check l = true -> Forall valid_part l.
Proof.
  rewrite forallb_forall. intros H. apply Forall_forall. intros i Hi. exact (valid_by_check _ (H _ Hi)).
Qed.

Lemma sample_parts_valid : Forall valid_part (fs_info <$> fixed_size sample_served.1.1).
Proof. apply parts_by_check. vm_compute. reflexivity. Qed.

Lemma detailed_info_valid_witness :
  exists i, detailed_info sample_served.1.1 = Ok i /\ detailed_is_valid i = Ok true.
Proof.
  exact (detailed_info_valid _ sample_served_adds_up (proj1 sample_words) (proj2 sample_words)
    sample_total_valid sample_fallback_valid sample_parts_valid).
Defined.
