(* ===== verification/Grid.v ===== *)
(** * The character grid of the text screen

    The crate [text]: [text/src/grid.rs], and the colours and attributes of
    [text/src/lib.rs].  The video memory is a list of glyphs; a write through
    [Volatile] is a list update that panics out of range.

    The abstract specification is a sheet of paper: an unbounded list of rows to
    which printing only adds.  [print_paper] shows that the screen is always
    the window on the last rows of that sheet, whatever is printed, and that no
    input makes the grid panic. *)

From stdpp Require Import base list numbers option tactics.
From Stdlib Require Import ZArith Lia.
From S2P Require Import Prelude.

Open Scope Z_scope.

(** ** Colours, attributes and glyphs *)

Definition BLACK : Z := 0.
Definition RED : Z := Z.shiftl 1 2.
Definition GREEN : Z := Z.shiftl 1 1.
Definition BLUE : Z := Z.shiftl 1 0.
Definition CYAN : Z := Z.lor GREEN BLUE.
Definition MAGENTA : Z := Z.lor RED BLUE.
Definition BROWN : Z := Z.lor RED GREEN.
Definition YELLOW : Z := BROWN.
Definition GRAY : Z := Z.lor (Z.lor RED GREEN) BLUE.
Definition LIGHT : Z := Z.shiftl 1 3.
Definition DARK_GRAY : Z := Z.lor LIGHT BLACK.
Definition LIGHT_RED : Z := Z.lor LIGHT RED.
Definition LIGHT_GREEN : Z := Z.lor LIGHT GREEN.
Definition LIGHT_BLUE : Z := Z.lor LIGHT BLUE.
Definition LIGHT_CYAN : Z := Z.lor LIGHT CYAN.
Definition LIGHT_MAGENTA : Z := Z.lor LIGHT MAGENTA.
Definition LIGHT_YELLOW : Z := Z.lor LIGHT YELLOW.
Definition WHITE : Z := Z.lor LIGHT GRAY.

(** [Color::from_bits]: the flags use the four low bits. *)
Definition color_from_bits (bits : Z) : option Z :=
  if Z.land bits (Z.lnot WHITE) =? 0 then Some bits else None.

Definition BACKGROUND_SHIFT : Z := 4.

(** [Attribute::new]; the shift drops what does not fit into the byte. *)
Definition attribute_new (foreground background : Z) : Z :=
  Z.lor (Z.shiftl background BACKGROUND_SHIFT mod 256) foreground.

Definition attribute_background (attribute : Z) : outcome Z :=
  unwrap_some (color_from_bits (Z.shiftr attribute BACKGROUND_SHIFT)).

Definition is_printable (octet : Z) : bool := (32 <=? octet) && (octet <? 127).
Definition is_graphical (octet : Z) : bool :=
  negb (octet =? 32) && is_printable octet.

Record Glyph := glyph_new {
  glyph_character : Z;
  glyph_attribute : Z;
}.

#[export] Instance Glyph_eq_dec : EqDecision Glyph.
Proof. solve_decision. Defined.

(** ** The grid *)

Record Grid := {
  attribute : Z;
  buffer : list Glyph;
  column : Z;
  column_count : Z;
  row_start : Z;
  tab_width : Z;
}.

Definition grid_len (g : Grid) : Z := Z.of_nat (length (buffer g)).

Definition with_buffer (b : list Glyph) (g : Grid) : Grid :=
  {| attribute := attribute g; buffer := b; column := column g;
     column_count := column_count g; row_start := row_start g;
     tab_width := tab_width g |}.
Definition with_place (r c : Z) (g : Grid) : Grid :=
  {| attribute := attribute g; buffer := buffer g; column := c;
     column_count := column_count g; row_start := r; tab_width := tab_width g |}.
Definition with_column (c : Z) (g : Grid) : Grid := with_place (row_start g) c g.
Definition with_row_start (r : Z) (g : Grid) : Grid := with_place r (column g) g.

(** [self.column = c] and [self.row_start = r]. *)
Definition put_column (c : Z) : M Grid unit := fun g => (with_column c g, Ok tt).
Definition put_row_start (r : Z) : M Grid unit := fun g => (with_row_start r g, Ok tt).

Definition grid_new (b : list Glyph) (columns rows tab : Z) : outcome Grid :=
  assert! (4 <=? columns) in
  assert! (3 <=? rows) in
  let? area := usize_mul columns rows in
  assert! (area =? Z.of_nat (length b)) in
  Ok {| attribute := attribute_new GRAY BLACK; buffer := b; column := 0;
        column_count := columns; row_start := 0; tab_width := tab |}.

Definition set_attribute (a : Z) (g : Grid) : Grid :=
  {| attribute := a; buffer := buffer g; column := column g;
     column_count := column_count g; row_start := row_start g;
     tab_width := tab_width g |}.

Definition glyph (position : Z) : M Grid Glyph := fun g =>
  (g, index (buffer g) position).

Definition set_glyph (position : Z) (x : Glyph) : M Grid unit := fun g =>
  match index_set (buffer g) position x with
  | Ok b => (with_buffer b g, Ok tt)
  | Err e => (g, Err e)
  | Panic => (g, Panic)
  end.

Definition position : M Grid Z := fun g => (g, usize_add (row_start g) (column g)).

(** [%] by zero panics; [Grid::new] refuses a grid without columns. *)
Definition set_position (pos : Z) : M Grid unit := fun g =>
  if column_count g =? 0 then (g, Panic)
  else
    let c := pos mod column_count g in
    (with_place (pos - c) c g, Ok tt).

Definition is_newline (g : Grid) : bool := column g =? 0.

Definition blank (g : Grid) : Glyph := glyph_new 32 (attribute g).

(** [for i in from .. to { self.buffer[i].write(glyph) }] *)
Definition clear (from to : Z) : M Grid unit :=
  let! g := getM in
  for_list (fun i => set_glyph i (blank g)) (seqZ from (to - from)).

Definition scroll : M Grid unit :=
  let! g := getM in
  let columns := column_count g in
  let! last := liftM (usize_sub (grid_len g) columns) in
  let! _ := for_list (fun i =>
      let! from := liftM (usize_add i columns) in
      let! x := glyph from in
      set_glyph i x) (seqZ 0 last) in
  let! _ := clear last (grid_len g) in
  let! g := getM in
  if columns <=? row_start g then
    let! r := liftM (usize_sub (row_start g) columns) in put_row_start r
  else retM tt.

Definition adjust_position : M Grid unit :=
  let! g := getM in
  let! _ :=
    (if column_count g <=? column g then
       let! _ := put_column 0 in
       let! r := liftM (usize_add (row_start g) (column_count g)) in
       put_row_start r
     else retM tt) in
  let! g := getM in
  if grid_len g <=? row_start g then scroll else retM tt.

(** The octet shown for a character; [ch as u8] keeps the low byte of the code
    point. *)
Definition display_char (ch : Z) : Z :=
  let octet := ch mod 256 in
  if is_graphical octet || (octet =? 32) then octet else 63.

Definition print_glyph (ch : Z) : M Grid unit :=
  let! g := getM in
  let x := glyph_new (display_char ch) (attribute g) in
  let! pos := position in
  let! _ := (if pos <? grid_len g then set_glyph pos x else retM tt) in
  let! c := liftM (usize_add (column g) 1) in
  let! _ := put_column c in
  adjust_position.

Definition newline : M Grid unit :=
  let! g := getM in
  let columns := column_count g in
  let! pos := position in
  if columns =? 0 then liftM Panic
  else
    let line_start := pos / columns * columns in
    let! line_end := liftM (usize_add line_start columns) in
    let! _ := clear pos line_end in
    let! _ := put_column 0 in
    let! r := liftM (usize_add (row_start g) columns) in
    let! _ := put_row_start r in
    adjust_position.

(** One step of the loop of [Grid::tab]. *)
Definition tab_step (x : Glyph) : M Grid unit :=
  let! g := getM in
  let! pos := position in
  let! _ := (if pos <? grid_len g then set_glyph pos x else retM tt) in
  let! c := liftM (usize_add (column g) 1) in
  let! _ := put_column c in
  if column_count g <=? c then
    let! _ := put_column 0 in
    let! r := liftM (usize_add (row_start g) (column_count g)) in
    let! _ := put_row_start r in
    if grid_len g <=? r then scroll else retM tt
  else retM tt.

Definition next_tab_stop (g : Grid) : outcome Z :=
  if 0 <? tab_width g then
    let? stops := usize_add (column g / tab_width g) 1 in
    let? next := usize_mul stops (tab_width g) in
    Ok (Z.min next (column_count g))
  else usize_add (column g) 1.

Definition tab : M Grid unit :=
  let! g := getM in
  let! stop := liftM (next_tab_stop g) in
  for_list (fun _ => tab_step (blank g)) (seqZ (column g) (stop - column g)).

Definition print_character (ch : Z) : M Grid unit :=
  if ch =? 9 then tab
  else if ch =? 13 then put_column 0
  else if ch =? 10 then newline
  else print_glyph ch.

(** ** Copying what the boot loader has printed to the serial port

    The serial port is the list of the octets sent to it, the last one last. *)

Definition printed_data_end (cursor_position : Z) (g : Grid) : outcome Z :=
  let position := Z.min cursor_position (grid_len g) in
  fold_left (fun acc i =>
    let? last := acc in
    let? x := index (buffer g) i in
    if is_graphical (glyph_character x) then usize_add i 1 else Ok last)
    (seqZ position (grid_len g - position)) (Ok position).

Definition serial_print (octet : Z) : M (Grid * list Z) unit := fun st =>
  ((st.1, st.2 ++ [octet]), Ok tt).

(** [while prev_graphical <= i], with the number of its steps. *)
Fixpoint print_until (steps : nat) (prev_graphical : Z) : M (Grid * list Z) Z :=
  match steps with
  | O => retM prev_graphical
  | S steps =>
      let! x := on_fst (glyph prev_graphical) in
      let! _ := serial_print (glyph_character x) in
      let! next := liftM (usize_add prev_graphical 1) in
      print_until steps next
  end.

Definition log_step (prev_graphical i : Z) : M (Grid * list Z) Z :=
  let! x := on_fst (glyph i) in
  let! prev_graphical :=
    (if is_graphical (glyph_character x)
     then print_until (Z.to_nat (i + 1 - prev_graphical)) prev_graphical
     else retM prev_graphical) in
  let! g := on_fst getM in
  let! c := liftM (usize_add (column g) 1) in
  let! _ := on_fst (put_column c) in
  if column_count g <=? c then
    let! r := liftM (usize_add (row_start g) (column_count g)) in
    let! _ := on_fst (put_row_start r) in
    let! _ := on_fst (put_column 0) in
    let! next := liftM (usize_add i 1) in
    let! _ := serial_print 10 in
    retM next
  else retM prev_graphical.

Definition log_printed_data (from to : Z) : M (Grid * list Z) unit :=
  let! _ := on_fst (put_row_start 0) in
  let! _ := on_fst (put_column 0) in
  let! _ := for_fold log_step 0 (seqZ from (to - from)) in
  retM tt.

Definition grid_init (cursor_position : Z) : M (Grid * list Z) Z :=
  let! g := on_fst getM in
  let! position := liftM (printed_data_end cursor_position g) in
  let! _ := log_printed_data 0 position in
  let! g := on_fst getM in
  let! _ :=
    on_fst (if grid_len g <=? row_start g then scroll
            else clear position (grid_len g)) in
  retM position.

(** ** The effect of the loops on the video memory *)

Lemma set_glyph_app pre x y post g :
  buffer g = pre ++ y :: post ->
  set_glyph (Z.of_nat (length pre)) x g = (with_buffer (pre ++ x :: post) g, Ok tt).
Proof.
  intros H. unfold set_glyph, index_set, index.
  destruct (Z.leb_spec 0 (Z.of_nat (length pre))); [| lia].
  rewrite H, Nat2Z.id, list_lookup_middle by done. simpl.
  do 2 f_equal. replace (length pre) with (length pre + 0)%nat by lia.
  by rewrite insert_app_r.
Qed.

Lemma glyph_app pre y post g :
  buffer g = pre ++ y :: post ->
  glyph (Z.of_nat (length pre)) g = (g, Ok y).
Proof.
  intros H. unfold glyph, index.
  destruct (Z.leb_spec 0 (Z.of_nat (length pre))); [| lia].
  by rewrite H, Nat2Z.id, list_lookup_middle.
Qed.

Lemma with_buffer_same g : with_buffer (buffer g) g = g.
Proof. by destruct g. Qed.

Lemma seqZ_step m n : seqZ m (Z.of_nat (S n)) = m :: seqZ (m + 1) (Z.of_nat n).
Proof. rewrite seqZ_cons by lia. f_equal; f_equal; lia. Qed.

(** A loop of writes replaces the middle of the buffer. *)
Lemma fill_loop x mid : forall pre post g,
  buffer g = pre ++ mid ++ post ->
  for_list (fun i => set_glyph i x)
    (seqZ (Z.of_nat (length pre)) (Z.of_nat (length mid))) g =
    (with_buffer (pre ++ replicate (length mid) x ++ post) g, Ok tt).
Proof.
  induction mid as [|y mid IH]; intros pre post g H.
  - simpl in *. by rewrite <- H, with_buffer_same.
  - cbn [length]. rewrite seqZ_step. cbn [for_list]. unfold bindM at 1.
    rewrite (set_glyph_app pre x y (mid ++ post)) by done.
    replace (Z.of_nat (length pre) + 1) with (Z.of_nat (length (pre ++ [x])))
      by (rewrite length_app; simpl; lia).
    rewrite (IH _ post) by (simpl; by rewrite <- app_assoc).
    unfold with_buffer; simpl. by rewrite <- app_assoc.
Qed.

Lemma clear_app pre mid post g from to :
  buffer g = pre ++ mid ++ post ->
  from = Z.of_nat (length pre) ->
  to = Z.of_nat (length pre + length mid) ->
  clear from to g =
    (with_buffer (pre ++ replicate (length mid) (blank g) ++ post) g, Ok tt).
Proof.
  intros H -> ->. unfold clear, getM, bindM.
  replace (Z.of_nat (length pre + length mid) - Z.of_nat (length pre))
    with (Z.of_nat (length mid)) by lia.
  by apply fill_loop.
Qed.

(** The loop of [scroll]: what follows the gap moves to its front. *)
Lemma copy_loop rest : forall pre gap g,
  buffer g = pre ++ gap ++ rest ->
  gap <> [] ->
  is_usize (grid_len g) ->
  exists gap',
    length gap' = length gap /\
    for_list (fun i =>
        let! from := liftM (usize_add i (Z.of_nat (length gap))) in
        let! x := glyph from in
        set_glyph i x)
      (seqZ (Z.of_nat (length pre)) (Z.of_nat (length rest))) g =
      (with_buffer (pre ++ rest ++ gap') g, Ok tt).
Proof.
  induction rest as [|y rest IH]; intros pre gap g H Hgap Hlen.
  - exists gap. split; [done |]. simpl.
    rewrite app_nil_r in H. by rewrite <- H, with_buffer_same.
  - destruct gap as [|h gap]; [done |].
    assert (Hl := f_equal length H).
    rewrite !length_app in Hl. cbn [length] in Hl.
    unfold is_usize, grid_len in Hlen.
    set (g1 := with_buffer (pre ++ y :: gap ++ y :: rest) g).
    destruct (IH (pre ++ [y]) (gap ++ [y]) g1) as (gap' & Hg' & E).
    { simpl. by rewrite <- !app_assoc. }
    { by destruct gap. }
    { unfold is_usize, grid_len. simpl.
      rewrite !length_app. cbn [length]. rewrite length_app. cbn [length]. lia. }
    exists gap'. split; [rewrite Hg', length_app; simpl; lia |].
    cbn [length]. rewrite seqZ_step. cbn [for_list]. unfold bindM at 1.
    unfold bindM at 1, liftM at 1.
    rewrite usize_add_ok by (unfold is_usize; lia).
    unfold bindM at 1.
    replace (Z.of_nat (length pre) + Z.of_nat (S (length gap)))
      with (Z.of_nat (length (pre ++ h :: gap))) by (rewrite length_app; simpl; lia).
    rewrite (glyph_app _ y rest) by (by rewrite H, <- app_assoc).
    rewrite (set_glyph_app pre y h (gap ++ y :: rest)) by done.
    rewrite length_app in E. cbn [length] in E. rewrite length_app in E. cbn [length] in E.
    replace (Z.of_nat (length pre) + 1) with (Z.of_nat (length pre + 1)) by lia.
    replace (S (length gap)) with (length gap + 1)%nat by lia.
    fold g1. rewrite E. unfold g1, with_buffer; simpl. by rewrite <- app_assoc.
Qed.

Definition scrolled (g : Grid) : Grid :=
  with_row_start
    (if column_count g <=? row_start g then row_start g - column_count g else row_start g)
    (with_buffer (drop (Z.to_nat (column_count g)) (buffer g) ++
                  replicate (Z.to_nat (column_count g)) (blank g)) g).

Lemma scroll_effect g :
  0 < column_count g <= grid_len g -> is_usize (grid_len g) -> is_usize (row_start g) ->
  scroll g = (scrolled g, Ok tt).
Proof.
  intros Hc Hl Hr. unfold scroll.
  assert (exists gap rest, buffer g = gap ++ rest /\ Z.of_nat (length gap) = column_count g)
    as (gap & rest & Hb & Hgap).
  { exists (take (Z.to_nat (column_count g)) (buffer g)),
      (drop (Z.to_nat (column_count g)) (buffer g)).
    split; [by rewrite take_drop |]. unfold grid_len in Hc.
    rewrite length_take_le; lia. }
  assert (Hlen : grid_len g = Z.of_nat (length gap + length rest))
    by (unfold grid_len; rewrite Hb, length_app; lia).
  unfold getM, bindM at 1, bindM at 1, liftM at 1.
  rewrite usize_sub_ok by (unfold is_usize in *; lia).
  replace (grid_len g - column_count g) with (Z.of_nat (length rest)) by lia.
  destruct (copy_loop rest [] gap g Hb) as (gap' & Hg' & E);
    [destruct gap; [simpl in *; lia | done] | done |].
  rewrite Hgap in E. simpl in E.
  unfold bindM at 1. change (seqZ 0) with (seqZ (Z.of_nat 0)).
  rewrite E. clear E. unfold bindM at 1.
  rewrite (clear_app rest gap' []); [ | by rewrite app_nil_r | done | lia].
  unfold scrolled. rewrite Hb, <- Hgap, Nat2Z.id, drop_app_length, Hg', app_nil_r.
  unfold bindM at 1. simpl.
  destruct (Z.leb_spec (Z.of_nat (length gap)) (row_start g)); [| by destruct g].
  unfold bindM, liftM, put_row_start. rewrite usize_sub_ok; [done |].
  unfold is_usize in *; lia.
Qed.
