(* ===== verification/Paper.v ===== *)
(** * The screen as a window on a sheet of paper

    The abstract specification of [text/src/grid.rs] and of the printing of
    [text/src/lib.rs].  A [Paper] is an unbounded sheet of rows; printing writes
    at the cursor and adds rows at the end, and never touches a row above the
    cursor.  [shows] relates a grid to the sheet whose last rows are on the
    screen; every operation of the grid simulates the operation on paper. *)

From stdpp Require Import base list numbers option tactics.
From Stdlib Require Import ZArith Lia.
From S2P Require Import Prelude Grid.

Open Scope Z_scope.

(** ** The specification *)

Record Paper := {
  rows : list (list Glyph);
  line : nat;
  place : nat;
}.

Section Paper.
Context (width : nat).

Definition paper_return (p : Paper) : Paper :=
  {| rows := rows p; line := line p; place := 0 |}.

(** Moving to the next row, which is a new one under the last row. *)
Definition paper_feed (space : Glyph) (p : Paper) : Paper :=
  {| rows := if (S (line p) <? length (rows p))%nat then rows p
             else rows p ++ [replicate width space];
     line := S (line p);
     place := 0 |}.

Definition paper_write (f : list Glyph -> list Glyph) (p : Paper) : Paper :=
  {| rows := alter f (line p) (rows p); line := line p; place := place p |}.

Definition paper_put (space x : Glyph) (p : Paper) : Paper :=
  let q := paper_write (<[place p := x]>) p in
  if (S (place p) <? width)%nat
  then {| rows := rows q; line := line q; place := S (place p) |}
  else paper_feed space q.

Definition paper_newline (space : Glyph) (p : Paper) : Paper :=
  paper_feed space
    (paper_write (fun row => take (place p) row ++ replicate (width - place p) space) p).

(** A tab prints spaces up to the next multiple of the tab width or the end of
    the row, whichever comes first, and at least one. *)
Definition paper_stop (tab place : nat) : nat :=
  match tab with O => S place | S _ => (place / tab + 1) * tab end.

Definition paper_tab (tab : nat) (space : Glyph) (p : Paper) : Paper :=
  Nat.iter (Nat.min (paper_stop tab (place p)) width - place p) (paper_put space space) p.

(** What is typed for a character: printable ASCII as itself, everything else as
    a question mark. *)
Definition ascii_glyph (ch : Z) : Z :=
  if bool_decide (32 <= ch <= 126) then ch else 63.

(** The rule of the code, which agrees with it on ASCII: of a character outside
    ASCII only the low byte of its code point counts. *)
Definition low_byte_glyph (ch : Z) : Z := ascii_glyph (ch mod 256).

Definition paper_print (shape : Z -> Z) (tab : nat) (attr ch : Z) (p : Paper) : Paper :=
  let space := glyph_new 32 attr in
  if ch =? 9 then paper_tab tab space p
  else if ch =? 13 then paper_return p
  else if ch =? 10 then paper_newline space p
  else paper_put space (glyph_new (shape ch) attr) p.

Definition paper_text (shape : Z -> Z) (tab : nat) (attr : Z) (text : list Z) (p : Paper) : Paper :=
  fold_left (fun p ch => paper_print shape tab attr ch p) text p.

Lemma paper_text_shape f g tab attr text p :
  Forall (fun ch => f ch = g ch) text -> paper_text f tab attr text p = paper_text g tab attr text p.
Proof.
  unfold paper_text. intros H. revert p. induction H as [|ch text E _ IH]; intros p; [done |].
  simpl. rewrite IH. f_equal. unfold paper_print. by rewrite E.
Qed.

End Paper.

Lemma display_char_low_byte ch : display_char ch = low_byte_glyph ch.
Proof.
  unfold display_char, low_byte_glyph, ascii_glyph, is_graphical, is_printable.
  pose proof (Z.mod_pos_bound ch 256). case_bool_decide; case_match; lia.
Qed.

Lemma low_byte_glyph_ascii ch : 0 <= ch < 128 -> low_byte_glyph ch = ascii_glyph ch.
Proof. intros H. unfold low_byte_glyph. by rewrite Z.mod_small by lia. Qed.

(** ** The relation *)

Section Shows.
Context (width height : nat).

(** The index of the first visible row. *)
Definition top (p : Paper) : nat := (length (rows p) - height)%nat.
Definition window (p : Paper) : list (list Glyph) := drop (top p) (rows p).

Record paper_wf (p : Paper) : Prop := {
  wf_width : Forall (fun row => length row = width) (rows p);
  wf_height : (height <= length (rows p))%nat;
  wf_top : (top p <= line p)%nat;
  wf_line : (line p < length (rows p))%nat;
  wf_place : (place p < width)%nat;
}.

(** A grid as [Grid::new] makes it: the dimensions are positive, the buffer is
    an object in memory, and the next tab stop is computed without overflow. *)
Record grid_shape (g : Grid) : Prop := {
  shape_columns : column_count g = Z.of_nat width;
  shape_width : (0 < width)%nat;
  shape_height : (0 < height)%nat;
  shape_len : length (buffer g) = (height * width)%nat;
  shape_memory : 2 * grid_len g < USIZE_MODULUS;
  shape_tab : 0 <= tab_width g < USIZE_MODULUS / 2;
}.

Record shows (g : Grid) (p : Paper) : Prop := {
  shows_buffer : buffer g = mjoin (window p);
  shows_row : row_start g = Z.of_nat ((line p - top p) * width);
  shows_column : column g = Z.of_nat (place p);
}.

(** ** Rows of one width *)

Lemma uniform_join (l : list (list Glyph)) :
  Forall (fun row => length row = width) l ->
  length (mjoin l) = (length l * width)%nat.
Proof. induction 1; simpl; [done |]. rewrite length_app. lia. Qed.

(** A row of the screen and what is around it in the buffer. *)
Lemma join_split (l : list (list Glyph)) i row :
  Forall (fun row => length row = width) l ->
  l !! i = Some row ->
  exists pre post,
    length pre = (i * width)%nat /\ length row = width /\
    mjoin l = pre ++ row ++ post /\
    (forall f, mjoin (alter f i l) = pre ++ f row ++ post).
Proof.
  intros Hl Hi. exists (mjoin (take i l)), (mjoin (drop (S i) l)).
  assert (Hlt := lookup_lt_Some _ _ _ Hi).
  split; [| split; [| split]].
  - rewrite uniform_join, length_take_le by (try apply Forall_take; done || lia). done.
  - by apply (Forall_lookup_1 _ _ _ _ Hl Hi).
  - rewrite <- (take_drop_middle l i row Hi) at 1. by rewrite join_app.
  - intros f. rewrite <- (take_drop_middle l i row Hi) at 1.
    rewrite alter_app_r_alt by (rewrite length_take; lia).
    rewrite length_take_le, Nat.sub_diag by lia. simpl. by rewrite join_app.
Qed.

(** ** The simulation *)

Record screen (g : Grid) (p : Paper) : Prop := {
  screen_shape : grid_shape g;
  screen_wf : paper_wf p;
  screen_shows : shows g p;
}.

(** The parts of a grid that printing keeps. *)
Definition keeps (g g' : Grid) : Prop :=
  attribute g' = attribute g /\ tab_width g' = tab_width g.

Lemma printing_keeps_trans g1 g2 g3 : keeps g1 g2 -> keeps g2 g3 -> keeps g1 g3.
Proof. unfold keeps. intros [] []. split; congruence. Qed.

Lemma printing_keeps_blank g g' : keeps g g' -> blank g' = blank g.
Proof. intros [E _]. unfold blank. by rewrite E. Qed.

Lemma window_length p : paper_wf p -> length (window p) = height.
Proof. intros []. unfold window, top in *. rewrite length_drop. lia. Qed.

Lemma window_uniform p : paper_wf p -> Forall (fun row => length row = width) (window p).
Proof. intros []. by apply Forall_drop. Qed.

Lemma window_lookup p : paper_wf p ->
  exists row, window p !! (line p - top p)%nat = Some row /\ rows p !! line p = Some row.
Proof.
  intros [_ _ Ht Hl _]. destruct (lookup_lt_is_Some_2 _ _ Hl) as [row E].
  exists row. split; [| done]. unfold window. rewrite lookup_drop.
  by replace (top p + (line p - top p))%nat with (line p) by lia.
Qed.

Lemma shape_with_place r c g : grid_shape g -> grid_shape (with_place r c g).
Proof. by intros []. Qed.

Lemma shape_with_buffer b g :
  grid_shape g -> length b = length (buffer g) -> grid_shape (with_buffer b g).
Proof.
  intros [] E. split; try done; simpl; [congruence |].
  unfold grid_len in *. simpl. by rewrite E.
Qed.

(** Writing into the row of the cursor. *)
Lemma write_window f p :
  paper_wf p -> (forall row, length row = width -> length (f row) = width) ->
  paper_wf (paper_write f p) /\
  window (paper_write f p) = alter f (line p - top p)%nat (window p).
Proof.
  intros [Hw Hh Ht Hl Hp] Hf. unfold paper_write, window, top in *. split.
  - split; unfold top in *; simpl; rewrite ?length_alter; try done.
    apply Forall_alter; [done |]. intros row _ E. by apply Hf.
  - simpl. rewrite length_alter. symmetry.
    rewrite <- drop_alter_ge by lia. by f_equal; lia.
Qed.

Lemma screen_grid_len g p : screen g p -> grid_len g = Z.of_nat (height * width).
Proof. intros [[]]. unfold grid_len. lia. Qed.

(** The next row is on the screen. *)
Lemma feed_inside g p :
  screen g p -> (S (line p) < length (rows p))%nat ->
  row_start g + column_count g < grid_len g /\
  screen (with_place (row_start g + column_count g) 0 g)
    {| rows := rows p; line := S (line p); place := 0 |}.
Proof.
  intros Hscr Hin. rewrite (screen_grid_len g p Hscr).
  destruct Hscr as [Hs [Pw Ph Pt Pl Pp] [Eb Er Ec]].
  destruct (Hs) as [Hcols Hw Hh _ _ _].
  assert (S (line p - top p) < height)%nat by (unfold top in *; lia).
  rewrite Er, Hcols. split; [nia |]. split; [by apply shape_with_place | |].
  - split; unfold top in *; simpl; try done; lia.
  - split; [done | | done]. simpl. change (top _) with (top p). nia.
Qed.

(** The cursor is in the last row: the screen scrolls, the sheet grows. *)
Lemma feed_scrolls g p :
  screen g p -> length (rows p) = S (line p) ->
  row_start g + column_count g = grid_len g /\
  screen (scrolled (with_place (row_start g + column_count g) 0 g))
    {| rows := rows p ++ [replicate width (blank g)]; line := S (line p); place := 0 |}.
Proof.
  intros Hscr Hout. rewrite (screen_grid_len g p Hscr).
  destruct Hscr as [Hs Hp [Eb Er Ec]].
  destruct (Hs) as [Hcols Hw Hh Hlen _ _]. destruct (Hp) as [Pw Ph Pt Pl Pp].
  assert (line p - top p = height - 1)%nat as Elast by (unfold top in *; lia).
  assert (Erow : row_start g + column_count g = Z.of_nat (height * width)).
  { rewrite Er, Hcols, Elast. nia. }
  split; [done |]. rewrite Erow.
  assert (exists first rest, window p = first :: rest) as (first & rest & Ew).
  { pose proof (window_length p Hp). destruct (window p); [simpl in *; lia | by eauto]. }
  pose proof (window_uniform p Hp) as Hu. rewrite Ew in Hu.
  apply list.Forall_cons in Hu as [Hfirst Hrest].
  assert (Hwin : drop (S (top p)) (rows p) = rest).
  { unfold window in Ew. rewrite <- (Nat.add_1_r (top p)), <- drop_drop, Ew. done. }
  assert (Etop : top {| rows := rows p ++ [replicate width (blank g)];
                        line := S (line p); place := 0 |} = S (top p)).
  { unfold top. simpl. rewrite length_app. simpl. unfold top in *. lia. }
  split.
  - apply shape_with_place, shape_with_buffer; [by apply shape_with_place |].
    simpl. rewrite length_app, length_drop, length_replicate, Hcols. nia.
  - split; rewrite ?Etop; simpl; rewrite ?length_app; simpl; try lia.
    apply Forall_app. split; [done |]. by repeat constructor; rewrite length_replicate.
  - split; [| rewrite Etop; simpl; rewrite Hcols | done].
    + unfold window. rewrite Etop. simpl. rewrite drop_app_le by (unfold top in *; lia).
      rewrite Hwin, Eb, Ew, Hcols, Nat2Z.id, join_app. simpl.
      rewrite drop_app_length' by done. by rewrite app_nil_r.
    + replace (line p - top p)%nat with (height - 1)%nat by lia.
      destruct (Z.leb_spec (Z.of_nat width) (Z.of_nat (height * width))); nia.
Qed.

Lemma feed_sim g p :
  screen g p ->
  exists g',
    (if grid_len g <=? row_start g + column_count g then scroll else retM tt)
      (with_place (row_start g + column_count g) 0 g) = (g', Ok tt) /\
    screen g' (paper_feed width (blank g) p) /\ keeps g g'.
Proof.
  intros Hscr. unfold paper_feed.
  pose proof (wf_line _ (screen_wf _ _ Hscr)).
  destruct (Nat.ltb_spec (S (line p)) (length (rows p))) as [Hin | Hout].
  - destruct (feed_inside g p Hscr Hin) as [E Hscr'].
    destruct (Z.leb_spec (grid_len g) (row_start g + column_count g)); [lia |].
    eexists. split; [done | by split].
  - destruct (feed_scrolls g p Hscr) as [E Hscr']; [lia |].
    destruct (Z.leb_spec (grid_len g) (row_start g + column_count g)); [| lia].
    eexists. split; [apply scroll_effect | by split].
    all: destruct Hscr as [[Hc Hw Hh Hl Hm _] _ _]; unfold grid_len in *; simpl in *;
      unfold is_usize; nia.
Qed.

(** The position is inside the row of the cursor, hence on the screen. *)
Lemma position_ok g p :
  screen g p ->
  exists pre row post,
    buffer g = pre ++ row ++ post /\ length row = width /\
    row_start g = Z.of_nat (length pre) /\
    position g = (g, Ok (Z.of_nat (length pre + place p))) /\
    (forall f, (forall row, length row = width -> length (f row) = width) ->
       screen (with_buffer (pre ++ f row ++ post) g) (paper_write f p)).
Proof.
  intros [Hs Hp [Eb Er Ec]]. destruct (window_lookup p Hp) as (row & Ew & _).
  destruct (join_split (window p) _ row (window_uniform p Hp) Ew)
    as (pre & post & Hpre & Hrow & Hj & Hf).
  exists pre, row, post. rewrite Eb, Er, Hpre. do 3 (split; [done |]). split.
  - unfold position. rewrite Er, Ec, usize_add_ok; [do 2 f_equal; lia |].
    pose proof (shape_memory _ Hs) as Hm. pose proof (wf_place _ Hp).
    unfold is_usize, grid_len in *. rewrite Eb, Hj, !length_app in Hm. lia.
  - intros f Hlf. destruct (write_window f p Hp Hlf) as [Hp' Ew'].
    split; [apply shape_with_buffer; [done |] | done |].
    + rewrite Eb, Hj, !length_app, (Hlf row) by done. lia.
    + split; simpl; [by rewrite Ew', Hf | | done].
      rewrite Er. unfold top. simpl. by rewrite length_alter.
Qed.

Definition same_place (g g' : Grid) : Prop :=
  grid_len g' = grid_len g /\ row_start g' = row_start g /\ column g' = column g /\
  column_count g' = column_count g.

(** Writing the glyph under the cursor. *)
Lemma write_cell x g p :
  screen g p ->
  exists g1 pos,
    position g = (g, Ok pos) /\ (pos <? grid_len g) = true /\
    set_glyph pos x g = (g1, Ok tt) /\
    screen g1 (paper_write (<[place p := x]>) p) /\ keeps g g1 /\ same_place g g1.
Proof.
  intros Hscr. destruct (position_ok g p Hscr) as (pre & row & post & Eb & Hrow & Er & Epos & Hf).
  pose proof (wf_place _ (screen_wf _ _ Hscr)) as Hpl.
  exists (with_buffer (pre ++ <[place p := x]> row ++ post) g), (Z.of_nat (length pre + place p)).
  split; [done |]. split.
  { apply Z.ltb_lt. unfold grid_len. rewrite Eb, !length_app. lia. }
  split; [| split; [apply Hf; intros; by rewrite length_insert |]; split; [done |]].
  - destruct (lookup_lt_is_Some_2 row (place p)) as [y Hy]; [lia |].
    pose proof (take_drop_middle row _ _ Hy) as Erow.
    pose proof (set_glyph_app (pre ++ take (place p) row) x y
                  (drop (S (place p)) row ++ post) g) as Hset.
    rewrite length_app, length_take_le in Hset by lia. rewrite Hset.
    + rewrite <- Erow at 3. rewrite insert_app_r_alt by (rewrite length_take; lia).
      rewrite length_take_le, Nat.sub_diag by lia. simpl. by rewrite <- !app_assoc.
    + rewrite Eb, <- Erow at 1. by rewrite <- !app_assoc.
  - unfold same_place, grid_len. simpl. by rewrite Eb, !length_app, length_insert.
Qed.

(** The arithmetic on the position does not overflow. *)
Lemma place_bounds g p :
  screen g p ->
  column g < column_count g /\ 0 <= row_start g < grid_len g /\ 0 < column_count g /\
  column_count g <= grid_len g /\
  usize_add (column g) 1 = Ok (column g + 1) /\
  usize_add (row_start g) (column_count g) = Ok (row_start g + column_count g) /\
  (0 <= column g /\ 2 * grid_len g < USIZE_MODULUS).
Proof.
  intros Hscr. destruct (position_ok g p Hscr) as (pre & row & post & Eb & Hrow & Er & _ & _).
  destruct Hscr as [[Hc Hw _ _ Hm _] [_ _ _ _ Hp] [_ _ Ec]].
  unfold grid_len in *. rewrite Eb, !length_app in *.
  rewrite !usize_add_ok by (unfold is_usize; lia). repeat split; lia || done.
Qed.

Lemma put_sim x g p :
  screen g p ->
  exists g', tab_step x g = (g', Ok tt) /\
    screen g' (paper_put width (blank g) x p) /\ keeps g g'.
Proof.
  intros Hscr. destruct (place_bounds g p Hscr) as (B1 & B2 & B3 & B4 & Ac & Ar & B5).
  destruct (write_cell x g p Hscr)
    as (g1 & pos & Epos & Hlt & Ew & Hscr1 & Hk & El & Er & Ec & Ecc).
  pose proof (shows_column _ _ (screen_shows _ _ Hscr)) as Hcol.
  pose proof (shape_columns _ (screen_shape _ _ Hscr)) as Hcc.
  unfold tab_step, bindM at 1, getM. unfold bindM at 1. rewrite Epos, Hlt.
  unfold bindM at 1. rewrite Ew. unfold bindM at 1, liftM at 1. rewrite Ac.
  unfold bindM at 1, put_column at 1. unfold paper_put.
  destruct (Nat.ltb_spec (S (place p)) width) as [Hin | Hout];
    destruct (Z.leb_spec (column_count g) (column g + 1)); try lia.
  - eexists. split; [done |]. split; [| done].
    destruct Hscr1 as [Hs1 [] [E1 E2 E3]]. split; [by apply shape_with_place | by split |].
    split; [done | done |]. simpl. lia.
  - destruct (feed_sim g1 _ Hscr1) as (g' & E & Hscr' & Hk').
    rewrite (printing_keeps_blank g g1 Hk) in Hscr'.
    exists g'. split; [| split; [done | by eapply printing_keeps_trans]].
    rewrite <- E, El, Er, Ecc.
    unfold bindM, put_column, liftM, put_row_start. by rewrite Ar.
Qed.

(** Printing a character is one step of a tab with another glyph. *)
Lemma print_glyph_step ch g p :
  screen g p ->
  print_glyph ch g = tab_step (glyph_new (low_byte_glyph ch) (attribute g)) g.
Proof.
  intros Hscr. rewrite <- display_char_low_byte.
  destruct (place_bounds g p Hscr) as (B1 & B2 & B3 & B4 & Ac & Ar & B5).
  destruct (write_cell (glyph_new (display_char ch) (attribute g)) g p Hscr)
    as (g1 & pos & Epos & Hlt & Ew & Hscr1 & Hk & El & Er & Ec & Ecc).
  unfold print_glyph, tab_step, bindM at 1, getM. unfold bindM at 1, bindM at 5.
  unfold bindM, getM. rewrite Epos, Hlt, Ew. unfold liftM. rewrite Ac.
  unfold put_column, put_row_start, adjust_position, bindM, getM, liftM. simpl.
  rewrite Ecc, Er, Ar.
  destruct (Z.leb_spec (column_count g) (column g + 1)); simpl.
  - by rewrite <- El.
  - change (grid_len (with_column (column g + 1) g1)) with (grid_len g1).
    rewrite El, Er. by destruct (Z.leb_spec (grid_len g) (row_start g)); [lia |].
Qed.

Lemma newline_sim g p :
  screen g p ->
  exists g', newline g = (g', Ok tt) /\
    screen g' (paper_newline width (blank g) p) /\ keeps g g'.
Proof.
  intros Hscr. destruct (place_bounds g p Hscr) as (B1 & B2 & B3 & B4 & Ac & Ar & B5).
  destruct (position_ok g p Hscr) as (pre & row & post & Eb & Hrow & Er & Epos & Hf).
  pose proof (wf_place _ (screen_wf _ _ Hscr)) as Hpl.
  pose proof (shape_columns _ (screen_shape _ _ Hscr)) as Hcc.
  pose proof (shows_row _ _ (screen_shows _ _ Hscr)) as Hr.
  assert (Hdiv : Z.of_nat (length pre + place p) / column_count g * column_count g = row_start g).
  { rewrite Hcc, Nat2Z.inj_add, <- Er, Hr, Nat2Z.inj_mul.
    rewrite Z.div_add_l, Z.div_small by lia. lia. }
  set (f := fun row => take (place p) row ++ replicate (width - place p) (blank g)).
  set (g1 := with_buffer (pre ++ f row ++ post) g).
  assert (Hclear : clear (Z.of_nat (length pre + place p)) (row_start g + column_count g) g =
                   (g1, Ok tt)).
  { rewrite (clear_app (pre ++ take (place p) row) (drop (place p) row) post).
    - unfold g1, f. by rewrite length_drop, Hrow, <- !app_assoc.
    - by rewrite Eb, <- app_assoc, (app_assoc (take _ _)), take_drop.
    - rewrite length_app, length_take_le by lia. lia.
    - rewrite length_app, length_take_le, length_drop by lia. lia. }
  assert (Hscr1 : screen g1 (paper_write f p)).
  { apply Hf. intros r Hl. unfold f. rewrite length_app, length_take_le, length_replicate; lia. }
  destruct (feed_sim g1 _ Hscr1) as (g' & E & Hscr' & Hk').
  exists g'. split; [| by split].
  assert (El : grid_len g1 = grid_len g).
  { unfold grid_len, g1, f. simpl.
    rewrite Eb, !length_app, length_take_le, length_replicate; lia. }
  unfold newline, bindM at 1, getM. unfold bindM at 1. rewrite Epos.
  destruct (Z.eqb_spec (column_count g) 0); [lia |].
  rewrite Hdiv. unfold bindM at 1, liftM at 1. rewrite Ar.
  unfold bindM at 1. rewrite Hclear.
  unfold bindM at 1, put_column. unfold bindM at 1, liftM.
  unfold bindM at 1, put_row_start, adjust_position, bindM, getM. simpl.
  destruct (Z.leb_spec (column_count g) 0); [lia |]. simpl.
  change (grid_len (with_row_start _ (with_column 0 g1))) with (grid_len g1).
  by rewrite <- E, El.
Qed.

Lemma puts_sim x l : forall g p,
  screen g p ->
  exists g', for_list (fun _ : Z => tab_step x) l g = (g', Ok tt) /\
    screen g' (Nat.iter (length l) (paper_put width (blank g) x) p) /\ keeps g g'.
Proof.
  induction l as [|i l IH]; intros g p Hscr; [by exists g |].
  destruct (put_sim x g p Hscr) as (g1 & E1 & Hscr1 & Hk1).
  destruct (IH g1 _ Hscr1) as (g2 & E2 & Hscr2 & Hk2).
  exists g2. cbn [for_list length]. unfold bindM. rewrite E1. split; [done |].
  rewrite (printing_keeps_blank g g1 Hk1) in Hscr2.
  rewrite Nat.iter_succ_r. split; [done | by eapply printing_keeps_trans].
Qed.

Lemma tab_sim g p :
  screen g p ->
  exists g', tab g = (g', Ok tt) /\
    screen g' (paper_tab width (Z.to_nat (tab_width g)) (blank g) p) /\ keeps g g'.
Proof.
  intros Hscr. destruct (place_bounds g p Hscr) as (B1 & B2 & B3 & B4 & Ac & _ & B5).
  pose proof (shape_tab _ (screen_shape _ _ Hscr)) as Ht.
  pose proof (shape_columns _ (screen_shape _ _ Hscr)) as Hcc.
  pose proof (shows_column _ _ (screen_shows _ _ Hscr)) as Hcol.
  assert (exists stop, next_tab_stop g = Ok stop /\
    length (seqZ (column g) (stop - column g)) =
      (Nat.min (paper_stop (Z.to_nat (tab_width g)) (place p)) width - place p)%nat) as (stop & Es & El).
  { unfold next_tab_stop. destruct (Z.ltb_spec 0 (tab_width g)) as [Hpos | Hzero].
    - set (t := tab_width g) in *. set (c := column g) in *.
      assert (Hq : 0 <= c / t <= c) by (split; [apply Z.div_pos; lia | apply Z.div_le_upper_bound; nia]).
      assert (Hqt : c / t * t <= c) by (pose proof (Z.mul_div_le c t); lia).
      change (USIZE_MODULUS / 2) with 9223372036854775808 in Ht.
      assert (E1 : (c / t + 1) * t = c / t * t + t) by lia.
      assert (0 <= c / t * t) by nia.
      rewrite usize_add_ok, usize_mul_ok by (unfold is_usize; rewrite ?E1; lia).
      eexists. split; [done |]. rewrite length_seqZ.
      unfold paper_stop. destruct (Z.to_nat t) as [|t'] eqn:Et; [lia |]. rewrite <- Et.
      assert (Hd : c / t = Z.of_nat (place p / Z.to_nat t)).
      { rewrite Nat2Z.inj_div, Z2Nat.id by lia. by rewrite <- Hcol. }
      rewrite Hd, Hcc. nia.
    - rewrite Ac. eexists. split; [done |]. rewrite length_seqZ.
      replace (Z.to_nat (tab_width g)) with O by lia. unfold paper_stop. lia. }
  destruct (puts_sim (blank g) (seqZ (column g) (stop - column g)) g p Hscr) as (g' & E & H).
  exists g'. unfold tab, bindM, getM, liftM. rewrite Es. split; [done |].
  unfold paper_tab. by rewrite <- El.
Qed.

Lemma print_sim ch g p :
  screen g p ->
  exists g', print_character ch g = (g', Ok tt) /\
    screen g' (paper_print width low_byte_glyph (Z.to_nat (tab_width g)) (attribute g) ch p) /\ keeps g g'.
Proof.
  intros Hscr. unfold print_character, paper_print.
  destruct (Z.eqb_spec ch 9); [by apply tab_sim |]. destruct (Z.eqb_spec ch 13).
  - eexists. split; [done |]. split; [| done].
    destruct Hscr as [Hs [] [E1 E2 E3]].
    split; [by apply shape_with_place | split; simpl; done || lia | by split].
  - destruct (Z.eqb_spec ch 10); [by apply newline_sim |].
    rewrite (print_glyph_step ch g p Hscr). by apply put_sim.
Qed.

Lemma text_sim text : forall g p,
  screen g p ->
  exists g', for_list print_character text g = (g', Ok tt) /\
    screen g' (paper_text width low_byte_glyph (Z.to_nat (tab_width g)) (attribute g) text p) /\ keeps g g'.
Proof.
  induction text as [|ch text IH]; intros g p Hscr; [by exists g |].
  destruct (print_sim ch g p Hscr) as (g1 & E1 & Hscr1 & Hk1).
  destruct (IH g1 _ Hscr1) as (g2 & E2 & Hscr2 & Hk2).
  exists g2. cbn [for_list]. unfold bindM. rewrite E1. split; [done |].
  destruct (Hk1) as [Ea Et]. rewrite Ea, Et in Hscr2.
  split; [done | by eapply printing_keeps_trans].
Qed.

(** Every grid shows some sheet: the rows of the screen itself. *)
Definition grid_rows (g : Grid) : list (list Glyph) :=
  reshape (replicate height width) (buffer g).

Definition grid_paper (g : Grid) : Paper :=
  {| rows := grid_rows g; line := Z.to_nat (row_start g / column_count g);
     place := Z.to_nat (column g) |}.

(** The type of a grid in use: the cursor is at the start of a row plus a column
    of that row, on the screen. *)
Record grid_wf (g : Grid) : Prop := {
  grid_wf_shape : grid_shape g;
  grid_wf_row : exists r, (r < height)%nat /\ row_start g = Z.of_nat (r * width);
  grid_wf_column : 0 <= column g < column_count g;
}.

Lemma grid_wf_screen g : grid_wf g -> screen g (grid_paper g).
Proof.
  intros [Hs (r & Hr & Er) Hc]. destruct (Hs) as [Hcc Hw Hh Hl _ _].
  assert (Eline : Z.to_nat (row_start g / column_count g) = r).
  { rewrite Er, Hcc, Nat2Z.inj_mul, Z.div_mul by lia. lia. }
  assert (Elen : length (grid_rows g) = height).
  { unfold grid_rows. by rewrite length_reshape, length_replicate. }
  split; [done | |].
  - split; unfold top; simpl; rewrite ?Elen, ?Eline; try lia.
    by apply reshape_uniform.
  - split; unfold window, top; simpl; rewrite ?Elen, ?Eline, ?Nat.sub_diag.
    + symmetry. by apply join_rows.
    + by rewrite Nat.sub_0_r.
    + lia.
Qed.

Lemma screen_grid_wf g p : screen g p -> grid_wf g.
Proof.
  intros Hscr. destruct (place_bounds g p Hscr) as (B1 & B2 & B3 & B4 & _ & _ & B5).
  destruct Hscr as [Hs [] [_ Er _]]. split; [done | | lia].
  exists (line p - top p)%nat. unfold top in *. split; [lia | done].
Qed.

(** The rows above the cursor are final. *)
Definition extends (p p' : Paper) : Prop :=
  (line p <= line p')%nat /\ take (line p) (rows p') = take (line p) (rows p) /\
  (length (rows p) <= length (rows p'))%nat.

Lemma extends_trans p1 p2 p3 : extends p1 p2 -> extends p2 p3 -> extends p1 p3.
Proof.
  intros (A1 & B1 & C1) (A2 & B2 & C2). split; [lia |]. split; [| lia].
  rewrite <- B1, <- (Nat.min_l (line p1) (line p2)) at 1 by done.
  rewrite <- take_take, B2, take_take. by rewrite Nat.min_l.
Qed.

Lemma extends_write f p : extends p (paper_write f p).
Proof.
  split; [done |]. split; [by apply take_alter_ge |]. simpl. by rewrite length_alter.
Qed.

Lemma extends_feed space p :
  (line p <= length (rows p))%nat -> extends p (paper_feed width space p).
Proof.
  intros H. unfold extends, paper_feed. simpl. destruct (_ <? _)%nat.
  - split; [lia | done].
  - split; [lia |]. rewrite take_app_le, length_app by done. simpl. split; [done | lia].
Qed.

Lemma extends_put space x p :
  (line p < length (rows p))%nat -> extends p (paper_put width space x p).
Proof.
  intros H. unfold paper_put. destruct (_ <? _)%nat; [apply extends_write |].
  eapply extends_trans; [apply (extends_write (<[place p:=x]>)) |]. apply extends_feed.
  simpl. rewrite length_alter. lia.
Qed.

Lemma extends_print g p ch :
  screen g p ->
  extends p (paper_print width low_byte_glyph (Z.to_nat (tab_width g)) (attribute g) ch p).
Proof.
  intros Hscr. pose proof (wf_line _ (screen_wf _ _ Hscr)) as Hl. unfold paper_print.
  destruct (ch =? 9); [| destruct (ch =? 13); [done |]; destruct (ch =? 10)].
  - unfold paper_tab. change (glyph_new 32 (attribute g)) with (blank g).
    induction (Nat.min _ width - place p)%nat as [|n IH]; [done |]. simpl.
    eapply extends_trans; [exact IH |]. apply extends_put.
    destruct (puts_sim (blank g) (seqZ 0 (Z.of_nat n)) g p Hscr) as (g' & _ & Hscr' & _).
    rewrite length_seqZ, Nat2Z.id in Hscr'. apply (wf_line _ (screen_wf _ _ Hscr')).
  - unfold paper_newline. eapply extends_trans; [apply extends_write |].
    apply extends_feed. simpl. rewrite length_alter. lia.
  - by apply extends_put.
Qed.

Lemma extends_text text : forall g p,
  screen g p ->
  extends p (paper_text width low_byte_glyph (Z.to_nat (tab_width g)) (attribute g) text p).
Proof.
  induction text as [|ch text IH]; intros g p Hscr; [done |].
  destruct (print_sim ch g p Hscr) as (g1 & _ & Hscr1 & [Ea Et]).
  eapply extends_trans; [by apply (extends_print g p ch) |].
  specialize (IH g1 _ Hscr1). by rewrite Ea, Et in IH.
Qed.

End Shows.

(** ** The other operations of a grid in use *)

Lemma set_position_typed width height g pos :
  grid_wf width height g -> 0 <= pos < grid_len g ->
  exists g', set_position pos g = (g', Ok tt) /\ grid_wf width height g' /\
    position g' = (g', Ok pos).
Proof.
  intros [Hs _ _] Hp. destruct (Hs) as [Hc Hw Hh Hl Hm _].
  unfold set_position. destruct (Z.eqb_spec (column_count g) 0); [lia |].
  eexists. split; [done |].
  pose proof (Z.mod_pos_bound pos (column_count g)). pose proof (Z.div_mod pos (column_count g)).
  split; [split; [by apply shape_with_place | | simpl; lia] |].
  - exists (Z.to_nat (pos / column_count g)). simpl.
    assert (0 <= pos / column_count g) by (apply Z.div_pos; lia).
    split; [| nia]. apply Nat2Z.inj_lt. rewrite Z2Nat.id by done.
    apply Z.div_lt_upper_bound; [lia |]. unfold grid_len in Hp. nia.
  - unfold position. simpl. rewrite usize_add_ok; [do 2 f_equal; lia |].
    unfold is_usize. lia.
Qed.

Lemma clear_typed width height g from to :
  grid_wf width height g -> 0 <= from <= to -> to <= grid_len g ->
  exists g', clear from to g = (g', Ok tt) /\ grid_wf width height g'.
Proof.
  intros [Hs Hr Hc] Hf Ht. unfold grid_len in Ht.
  assert (El : length (take (Z.to_nat from) (buffer g)) = Z.to_nat from)
    by (rewrite length_take_le; lia).
  assert (Em : length (take (Z.to_nat (to - from)) (drop (Z.to_nat from) (buffer g))) =
               Z.to_nat (to - from)) by (rewrite length_take_le; rewrite ?length_drop; lia).
  rewrite (clear_app (take (Z.to_nat from) (buffer g))
             (take (Z.to_nat (to - from)) (drop (Z.to_nat from) (buffer g)))
             (drop (Z.to_nat (to - from)) (drop (Z.to_nat from) (buffer g)))).
  - eexists. split; [done |]. split; [| done | done].
    apply shape_with_buffer; [done |].
    rewrite !length_app, El, length_replicate, Em, !length_drop. lia.
  - by rewrite !take_drop.
  - lia.
  - lia.
Qed.

Lemma scroll_typed width height g :
  grid_wf width height g -> exists g', scroll g = (g', Ok tt) /\ grid_wf width height g'.
Proof.
  intros [Hs (r & Hr & Er) Hc]. destruct (Hs) as [S1 Hw Hh Hl Hm _].
  exists (scrolled g). split.
  - apply scroll_effect; unfold is_usize, grid_len in *; nia.
  - split; [| | done].
    + apply shape_with_place, shape_with_buffer; [done |].
      rewrite length_app, length_drop, length_replicate, S1. nia.
    + unfold scrolled. simpl. rewrite S1, Er.
      destruct (Z.leb_spec (Z.of_nat width) (Z.of_nat (r * width))) as [Hle | Hgt].
      * exists (r - 1)%nat. split; [lia |]. nia.
      * exists r. by split.
Qed.

(** C31. A grid keeps its type: [Grid::new] makes a grid whose cursor is on the
    screen, and from such a grid printing any character, moving to a position
    on the screen, clearing a range of the screen and scrolling return without
    a panic and leave such a grid. *)
Theorem grid_typed (width height : nat) :
  (forall b tab, length b = (height * width)%nat -> (4 <= width)%nat -> (3 <= height)%nat ->
     2 * Z.of_nat (length b) < USIZE_MODULUS -> 0 <= tab < USIZE_MODULUS / 2 ->
     exists g, grid_new b (Z.of_nat width) (Z.of_nat height) tab = Ok g /\
       grid_wf width height g) /\
  (forall g, grid_wf width height g ->
     (forall ch, exists g', print_character ch g = (g', Ok tt) /\ grid_wf width height g') /\
     (forall pos, 0 <= pos < grid_len g ->
        exists g', set_position pos g = (g', Ok tt) /\ grid_wf width height g' /\
          position g' = (g', Ok pos)) /\
     (forall from to, 0 <= from <= to -> to <= grid_len g ->
        exists g', clear from to g = (g', Ok tt) /\ grid_wf width height g') /\
     (exists g', scroll g = (g', Ok tt) /\ grid_wf width height g')).
Proof.
  split.
  - intros b tab Hb Hw Hh Hm Ht. eexists. split.
    + unfold grid_new. destruct (Z.leb_spec 4 (Z.of_nat width)); [| lia].
      destruct (Z.leb_spec 3 (Z.of_nat height)); [| lia].
      rewrite usize_mul_ok by (unfold is_usize; nia).
      rewrite Hb. destruct (Z.eqb_spec (Z.of_nat width * Z.of_nat height)
                              (Z.of_nat (height * width))); [done | lia].
    + split; [split; simpl; try done; lia | exists 0%nat; simpl; lia | simpl; lia].
  - intros g Hg. pose proof (grid_wf_screen _ _ _ Hg) as Hscr. split; [| split; [| split]].
    + intros ch. destruct (print_sim width height ch g _ Hscr) as (g' & E & Hs & _).
      exists g'. split; [done | by eapply screen_grid_wf].
    + intros pos Hpos. by apply set_position_typed.
    + intros from to Hf Ht. by apply clear_typed.
    + by apply scroll_typed.
Qed.
