(* ===== verification/TextInit.v ===== *)
(** * Taking over the screen from the boot loader

    [Grid::init] of [text/src/grid.rs]: where the text on the screen ends, what
    of it is copied to the serial port, and the state the grid starts in. *)

From stdpp Require Import base list numbers option tactics.
From Stdlib Require Import ZArith Lia.
From S2P Require Import Prelude Grid Paper.

Open Scope Z_scope.

(** ** The end of the text *)

Definition chars (g : Grid) : list Z := glyph_character <$> buffer g.

Lemma length_chars g : length (chars g) = length (buffer g).
Proof. apply length_fmap. Qed.

(** The length of [l] without its trailing octets that are not graphical. *)
Fixpoint trim (l : list Z) : list Z :=
  match l with
  | [] => []
  | c :: l =>
      match trim l with
      | [] => if is_graphical c then [c] else []
      | t => c :: t
      end
  end.

Lemma trim_snoc l c :
  trim (l ++ [c]) = if is_graphical c then l ++ [c] else trim l.
Proof.
  induction l as [|d l IH]; simpl; [by destruct (is_graphical c) |].
  rewrite IH. destruct (is_graphical c); [| done].
  by destruct l.
Qed.

Lemma trim_prefix l : trim l `prefix_of` l.
Proof.
  induction l as [|c l IH] using rev_ind; [done |].
  rewrite trim_snoc. destruct (is_graphical c); [done |]. by apply prefix_app_r.
Qed.

Lemma trim_length l : (length (trim l) <= length l)%nat.
Proof. apply prefix_length, trim_prefix. Qed.

(** The text on the screen ends at the cursor or after the last graphical
    character, whichever is later. *)
Definition text_end (cursor : Z) (g : Grid) : nat :=
  let c := Z.to_nat (Z.min cursor (grid_len g)) in
  (c + length (trim (drop c (chars g))))%nat.

Lemma index_chars g i c :
  chars g !! i = Some c ->
  exists x, index (buffer g) (Z.of_nat i) = Ok x /\ glyph_character x = c.
Proof.
  intros (x & E & Hx)%list_lookup_fmap_Some. exists x. unfold index.
  destruct (Z.leb_spec 0 (Z.of_nat i)); [| lia].
  rewrite Nat2Z.id, Hx. by split.
Qed.

Lemma printed_data_end_spec cursor g :
  0 <= cursor -> is_usize (grid_len g) ->
  printed_data_end cursor g = Ok (Z.of_nat (text_end cursor g)).
Proof.
  intros Hc Hlen. unfold printed_data_end, text_end.
  set (p := Z.min cursor (grid_len g)).
  assert (Hp : p = Z.of_nat (Z.to_nat p)) by (unfold grid_len in *; lia).
  assert (Hle : (Z.to_nat p <= length (chars g))%nat)
    by (rewrite length_chars; unfold grid_len in *; lia).
  set (n := Z.to_nat p) in *. rewrite Hp.
  assert (Hrest : grid_len g - Z.of_nat n = Z.of_nat (length (drop n (chars g)))).
  { rewrite length_drop, length_chars. unfold grid_len in *.
    rewrite length_chars in Hle. lia. }
  rewrite Hrest. clear Hrest Hp.
  set (body := fun acc i => _).
  assert (H : forall l, l `prefix_of` drop n (chars g) ->
    fold_left body (seqZ (Z.of_nat n) (Z.of_nat (length l))) (Ok (Z.of_nat n)) =
    Ok (Z.of_nat (n + length (trim l)))).
  { induction l as [|c l IH] using rev_ind; intros Hpre.
    - simpl. by rewrite Nat.add_0_r.
    - rewrite length_app. cbn [length].
      rewrite Nat.add_1_r, seqZ_S, fold_left_app, IH.
      2: { etrans; [| exact Hpre]. by apply prefix_app_r. }
      destruct (index_chars g (n + length l) c) as (x & Ex & Hx).
      { destruct Hpre as [k Hk]. rewrite <- lookup_drop, Hk, <- app_assoc.
        by apply list_lookup_middle. }
      simpl. unfold body. rewrite Nat2Z.inj_add in Ex. rewrite Ex, Hx, trim_snoc.
      destruct (is_graphical c); [| done].
      rewrite usize_add_ok; [rewrite length_app; simpl; f_equal; lia |].
      apply prefix_length in Hpre. rewrite length_app, length_drop in Hpre.
      simpl in Hpre. rewrite length_chars in Hpre. unfold is_usize, grid_len in *. lia. }
  by apply H.
Qed.

(** ** The copy on the serial port *)

(** The rows of a text, each without trailing blanks and, when it is complete,
    followed by a line feed. *)
Fixpoint rows_text (width : nat) (row text : list Z) : list Z :=
  match text with
  | [] => trim row
  | c :: text =>
      if (width <=? S (length row))%nat
      then trim (row ++ [c]) ++ 10 :: rows_text width [] text
      else rows_text width (row ++ [c]) text
  end.

Lemma glyph_chars g (out : list Z) i c :
  chars g !! i = Some c ->
  exists x, on_fst (glyph (Z.of_nat i)) (g, out) = ((g, out), Ok x) /\ glyph_character x = c.
Proof.
  intros (x & E & Hx)%index_chars. exists x. unfold on_fst, glyph. simpl. by rewrite E.
Qed.

Lemma print_until_spec g l : forall pre post out,
  chars g = pre ++ l ++ post -> is_usize (grid_len g) ->
  print_until (length l) (Z.of_nat (length pre)) (g, out) =
    ((g, out ++ l), Ok (Z.of_nat (length (pre ++ l)))).
Proof.
  induction l as [|c l IH]; intros pre post out H Hlen.
  - simpl. by rewrite !app_nil_r.
  - assert (Hl := f_equal length H). rewrite length_chars, !length_app in Hl. simpl in Hl.
    destruct (glyph_chars g out (length pre) c) as (x & Ex & Hx).
    { rewrite H. by apply list_lookup_middle. }
    cbn [print_until length]. unfold bindM at 1. rewrite Ex.
    unfold bindM at 1, serial_print. unfold bindM at 1, liftM.
    rewrite usize_add_ok by (unfold is_usize, grid_len in *; lia). rewrite Hx. simpl.
    replace (Z.of_nat (length pre) + 1) with (Z.of_nat (length (pre ++ [c])))
      by (rewrite length_app; simpl; lia).
    rewrite (IH (pre ++ [c]) post) by (rewrite <- ?app_assoc; done).
    by rewrite <- !app_assoc.
Qed.

Section Log.
Context (width : nat).

(** Between two steps: [done] is the text of the complete rows, [row] that of the
    row of the cursor. *)
Record logging (done row : list Z) (g : Grid) : Prop := {
  log_columns : column_count g = Z.of_nat width;
  log_row_start : row_start g = Z.of_nat (length done);
  log_column : column g = Z.of_nat (length row);
  log_row : (length row < width)%nat;
  log_len : 2 * grid_len g < USIZE_MODULUS;
  log_width : Z.of_nat width <= grid_len g;
}.

(** The copy of what has not been copied of the row when [c] is graphical. *)
Lemma log_flush g done row c post out :
  chars g = done ++ row ++ c :: post -> is_usize (grid_len g) ->
  (if is_graphical c
   then print_until
     (Z.to_nat (Z.of_nat (length (done ++ row)) + 1 -
                Z.of_nat (length (done ++ trim row))))
     (Z.of_nat (length (done ++ trim row)))
   else retM (Z.of_nat (length (done ++ trim row)))) (g, out ++ trim row) =
  ((g, out ++ trim (row ++ [c])), Ok (Z.of_nat (length (done ++ trim (row ++ [c]))))).
Proof.
  intros H Hlen. rewrite trim_snoc. destruct (is_graphical c); [| done].
  destruct (trim_prefix row) as [k Hk].
  assert (Ek : Z.to_nat (Z.of_nat (length (done ++ row)) + 1 -
                 Z.of_nat (length (done ++ trim row))) = length (k ++ [c])).
  { rewrite Hk at 1. rewrite !length_app. simpl. lia. }
  rewrite Ek, (print_until_spec g (k ++ [c]) (done ++ trim row) post); [| | done].
  - by rewrite <- !app_assoc, !(app_assoc (trim row)), <- Hk.
  - by rewrite H, <- !app_assoc, (app_assoc (trim row)), <- Hk.
Qed.

Lemma log_step_spec g done row c post out :
  logging done row g -> chars g = done ++ row ++ c :: post ->
  exists g' done' row',
    log_step (Z.of_nat (length (done ++ trim row))) (Z.of_nat (length (done ++ row)))
      (g, out ++ trim row) =
      ((g', out ++ (if (width <=? S (length row))%nat then trim (row ++ [c]) ++ [10]
                    else trim (row ++ [c]))),
       Ok (Z.of_nat (length (done' ++ trim row')))) /\
    done' ++ row' = done ++ row ++ [c] /\
    row' = (if (width <=? S (length row))%nat then [] else row ++ [c]) /\
    logging done' row' g' /\ with_place 0 0 g' = with_place 0 0 g.
Proof.
  intros [L1 L2 L3 L4 L5 L6] H. assert (Hu : is_usize (grid_len g)).
  { unfold is_usize. unfold grid_len in *. lia. }
  assert (Hl := f_equal length H). rewrite length_chars, !length_app in Hl. simpl in Hl.
  destruct (glyph_chars g (out ++ trim row) (length (done ++ row)) c) as (x & Ex & Hx).
  { rewrite H, app_assoc. by apply list_lookup_middle. }
  unfold log_step, bindM at 1. rewrite Ex. unfold bindM at 1. rewrite Hx.
  rewrite (log_flush g done row c post out H Hu). clear Ex Hx.
  unfold bindM, liftM, on_fst, getM, put_column, put_row_start, serial_print. simpl.
  unfold is_usize, grid_len in *.
  rewrite usize_add_ok by (unfold is_usize; lia).
  rewrite L1, L3.
  destruct (Nat.leb_spec width (S (length row))) as [Hfull | Hpart];
    destruct (Z.leb_spec (Z.of_nat width) (Z.of_nat (length row) + 1)); try lia.
  - rewrite usize_add_ok by (unfold is_usize; lia).
    rewrite usize_add_ok by (rewrite length_app; unfold is_usize; lia).
    eexists _, (done ++ row ++ [c]), []. simpl. rewrite !app_nil_r. split; [| split; [done |]].
    { rewrite <- app_assoc.
      by replace (Z.of_nat (length (done ++ row ++ [c])))
        with (Z.of_nat (length (done ++ row)) + 1) by (rewrite !length_app; simpl; lia). }
    split; [done |]. split; [| done]. split; simpl; try done; try lia.
    rewrite !length_app. simpl. lia.
  - eexists _, done, (row ++ [c]). split; [done |]. split; [done |]. split; [done |].
    split; [| done]. split; simpl; try done; rewrite length_app; simpl; lia.
Qed.

Lemma log_loop text : forall g done row post out,
  logging done row g -> chars g = done ++ row ++ text ++ post ->
  exists g' done' row' prev,
    for_fold log_step (Z.of_nat (length (done ++ trim row)))
      (seqZ (Z.of_nat (length (done ++ row))) (Z.of_nat (length text)))
      (g, out ++ trim row) = ((g', out ++ rows_text width row text), Ok prev) /\
    done' ++ row' = done ++ row ++ text /\
    (exists k, length done' = (length done + k * width)%nat) /\
    logging done' row' g' /\ with_place 0 0 g' = with_place 0 0 g.
Proof.
  induction text as [|c text IH]; intros g done row post out Hl H.
  - exists g, done, row. eexists. simpl. rewrite app_nil_r.
    do 3 (split; [done || (exists 0%nat; lia) |]). done.
  - destruct (log_step_spec g done row c (text ++ post) out Hl H)
      as (g1 & done1 & row1 & E1 & Hd & Hr & Hl1 & Hp1).
    assert (Hc : chars g1 = chars g) by exact (f_equal chars Hp1).
    assert (Ei : Z.of_nat (length (done ++ row)) + 1 = Z.of_nat (length (done1 ++ row1))).
    { rewrite Hd, !length_app. simpl. lia. }
    destruct (IH g1 done1 row1 post
      (if (width <=? S (length row))%nat then out ++ trim (row ++ [c]) ++ [10] else out) Hl1)
      as (g' & done' & row' & prev & E' & Hd' & (k & Hk) & Hl' & Hp').
    { rewrite Hc, H, (app_assoc done1), Hd. by rewrite <- !app_assoc. }
    exists g', done', row', prev.
    split; [| split; [rewrite Hd', app_assoc, Hd; by rewrite <- !app_assoc |]; split; [|]].
    + cbn [length]. rewrite seqZ_step. cbn [for_fold rows_text]. unfold bindM.
      rewrite E1, Ei.
      destruct (width <=? S (length row))%nat; subst row1; simpl in E'; rewrite ?app_nil_r in E'.
      * cbn [trim]. rewrite !app_nil_r, E'. by rewrite <- !app_assoc.
      * by rewrite E'.
    + apply (f_equal length) in Hd. rewrite !length_app in Hd. simpl in Hd.
      pose proof (log_row _ _ _ Hl).
      destruct (Nat.leb_spec width (S (length row))); subst row1; simpl in Hd.
      * exists (S k). lia.
      * exists k. rewrite length_app in Hd. simpl in Hd. lia.
    + split; [done | congruence].
Qed.

(** From the top of the screen. *)
Lemma log_printed_data_spec height g n out :
  grid_shape width height g -> (n <= length (buffer g))%nat ->
  log_printed_data 0 (Z.of_nat n) (g, out) =
    ((with_place (Z.of_nat (n - n mod width)) (Z.of_nat (n mod width)) g,
      out ++ rows_text width [] (take n (chars g))), Ok tt).
Proof.
  intros [S1 S2 S3 S4 S5 S6] Hn.
  set (g0 := with_column 0 (with_row_start 0 g)).
  assert (Hl0 : logging [] [] g0).
  { split; simpl; try done. unfold grid_len in *. simpl. nia. }
  assert (Hlen : length (take n (chars g)) = n) by (rewrite length_take_le; rewrite ?length_chars; lia).
  destruct (log_loop (take n (chars g)) g0 [] [] (drop n (chars g)) out Hl0)
    as (g' & done & row & prev & E & Hd & (k & Hk) & Hl & Hp).
  { by rewrite app_nil_l, app_nil_l, take_drop. }
  rewrite Hlen in E. cbn [length app trim] in E. rewrite app_nil_r in E.
  unfold log_printed_data, bindM, on_fst, put_row_start, put_column. simpl fst. simpl snd.
  rewrite Z.sub_0_r. change (seqZ 0) with (seqZ (Z.of_nat 0)). fold g0.
  change (for_fold log_step 0) with (for_fold log_step (Z.of_nat 0)). rewrite E. unfold retM.
  destruct Hl as [_ Hr Hc Hrow _ _].
  apply (f_equal length) in Hd. cbn [app] in Hd. rewrite length_app, Hlen in Hd. simpl in Hk.
  assert (Hm : (n mod width = length row)%nat).
  { rewrite <- Hd, Hk. rewrite Nat.add_comm, Nat.Div0.mod_add. by apply Nat.mod_small. }
  rewrite Hm, <- Hd. replace (length done + length row - length row)%nat with (length done) by lia.
  destruct g', g. unfold with_place in *. simpl in *. by simplify_eq.
Qed.

End Log.

(** ** The state after the initialisation *)

(** The grid after [log_printed_data]. *)
Definition placed (width n : nat) (g : Grid) : Grid :=
  with_place (Z.of_nat (n - n mod width)) (Z.of_nat (n mod width)) g.

Lemma init_full width height g :
  grid_shape width height g ->
  exists g', scroll (placed width (length (buffer g)) g) = (g', Ok tt) /\
    grid_wf width height g' /\ keeps g g' /\
    row_start g' + column g' = Z.of_nat (length (buffer g) - width) /\
    buffer g' = drop width (buffer g) ++ replicate width (blank g).
Proof.
  intros Hs. destruct (Hs) as [S1 S2 S3 S4 S5 S6].
  assert (Em : (length (buffer g) mod width = 0)%nat) by (rewrite S4; by apply Nat.Div0.mod_mul).
  assert (Hp : placed width (length (buffer g)) g = with_place (grid_len g) 0 g).
  { unfold placed, grid_len. by rewrite Em, Nat.sub_0_r. }
  rewrite Hp. exists (scrolled (with_place (grid_len g) 0 g)).
  assert (Hle : Z.of_nat width <= grid_len g) by (unfold grid_len; nia).
  split; [apply scroll_effect; unfold is_usize, grid_len in *; simpl; lia |].
  unfold scrolled. simpl. rewrite S1, Nat2Z.id.
  destruct (Z.leb_spec (Z.of_nat width) (grid_len g)); [| lia].
  split; [| split; [done |]; split; [unfold grid_len in *; lia | done]].
  split; simpl; [| exists (height - 1)%nat; split; [lia | unfold grid_len; nia] | lia].
  apply shape_with_place, shape_with_buffer; [by apply shape_with_place |].
  simpl. rewrite length_app, length_drop, length_replicate. unfold grid_len in *. lia.
Qed.

Lemma init_partial width height g n :
  grid_shape width height g -> (n < length (buffer g))%nat ->
  exists g', clear (Z.of_nat n) (grid_len g) (placed width n g) = (g', Ok tt) /\
    grid_wf width height g' /\ keeps g g' /\
    row_start g' + column g' = Z.of_nat n /\
    buffer g' = take n (buffer g) ++ replicate (length (buffer g) - n) (blank g).
Proof.
  intros Hs Hn. destruct (Hs) as [S1 S2 S3 S4 S5 S6].
  pose proof (Nat.mod_upper_bound n width ltac:(lia)) as Hm.
  pose proof (Nat.div_mod n width ltac:(lia)) as Hdm.
  rewrite (clear_app (take n (buffer g)) (drop n (buffer g)) []).
  - eexists. split; [done |].
    split; [| split; [done |]; split; [simpl; lia |]].
    + split; simpl; [| exists (n / width)%nat; split; [| lia] | lia].
      * apply shape_with_buffer; [by apply shape_with_place |].
        rewrite app_nil_r, length_app, length_replicate, length_drop, length_take. simpl. lia.
      * apply Nat.Div0.div_lt_upper_bound. lia.
    + simpl. by rewrite app_nil_r, length_drop.
  - simpl. by rewrite app_nil_r, take_drop.
  - rewrite length_take_le; lia.
  - rewrite length_take_le, length_drop by lia. unfold grid_len. lia.
Qed.

Lemma text_end_le cursor g : (text_end cursor g <= length (buffer g))%nat.
Proof.
  unfold text_end. set (c := Z.to_nat _).
  pose proof (trim_length (drop c (chars g))) as Ht. rewrite length_drop, length_chars in Ht.
  assert (c <= length (buffer g))%nat by (unfold c, grid_len; lia). lia.
Qed.

(** What [Grid::init] leaves on the screen: the text that was there, with the
    rest cleared; a full screen is scrolled by one row. *)
Definition taken_over (width : nat) (cursor : Z) (g g' : Grid) : Prop :=
  let e := text_end cursor g in
  if (e <? length (buffer g))%nat then
    row_start g' + column g' = Z.of_nat e /\
    buffer g' = take e (buffer g) ++ replicate (length (buffer g) - e) (blank g)
  else
    row_start g' + column g' = Z.of_nat (length (buffer g) - width) /\
    buffer g' = drop width (buffer g) ++ replicate width (blank g).

Lemma grid_init_spec width height g cursor out :
  grid_shape width height g -> 0 <= cursor ->
  exists g',
    grid_init cursor (g, out) =
      ((g', out ++ rows_text width [] (take (text_end cursor g) (chars g))),
       Ok (Z.of_nat (text_end cursor g))) /\
    grid_wf width height g' /\ keeps g g' /\ taken_over width cursor g g'.
Proof.
  intros Hs Hc. destruct (Hs) as [S1 S2 S3 S4 S5 S6].
  assert (Hu : is_usize (grid_len g)) by (unfold is_usize, grid_len in *; lia).
  pose proof (text_end_le cursor g) as He. unfold taken_over.
  unfold grid_init, bindM at 1, on_fst, getM. unfold bindM at 1, liftM. simpl fst. simpl snd.
  rewrite printed_data_end_spec by done. set (e := text_end cursor g) in *. unfold bindM at 1.
  rewrite (log_printed_data_spec width height) by done.
  fold (placed width e g). unfold bindM at 1. simpl fst. simpl snd.
  unfold bindM. cbn [fst snd].
  change (grid_len (placed width e g)) with (grid_len g).
  change (row_start (placed width e g)) with (Z.of_nat (e - e mod width)).
  pose proof (Nat.mod_upper_bound e width ltac:(lia)) as Hm.
  pose proof (Nat.div_mod e width ltac:(lia)) as Hdm.
  destruct (Nat.ltb_spec e (length (buffer g))) as [Hlt | Hge].
  - destruct (Z.leb_spec (grid_len g) (Z.of_nat (e - e mod width)));
      [unfold grid_len in *; lia |].
    destruct (init_partial width height g e Hs Hlt) as (g' & E & Hg').
    exists g'. rewrite E. by split.
  - assert (Ee : e = length (buffer g)) by lia.
    assert (e mod width = 0)%nat as Em by (rewrite Ee, S4; by apply Nat.Div0.mod_mul).
    destruct (Z.leb_spec (grid_len g) (Z.of_nat (e - e mod width)));
      [| unfold grid_len in *; lia].
    destruct (init_full width height g Hs) as (g' & E & Hg').
    exists g'. rewrite Ee, E. by split.
Qed.
