(* ===== verification/VgaCursor.v ===== *)
(** * The text cursor of the VGA controller

    [text/src/cursor.rs] on top of the interface [IndexDataPair] of
    [ku/src/memory/port.rs].  The controller is a register file behind an index
    port and a data port.  [IndexDataLaws] states what the cursor relies on;
    [CursorLaws] is what the cursor promises to [Text].  The pair of ports
    [IndexDataPortPair] meets the former on a device that latches the index. *)

From stdpp Require Import base list numbers option tactics gmap.
From Stdlib Require Import ZArith Lia.
From S2P Require Import Prelude Addr.

Open Scope Z_scope.

(** ** The interface of the registers *)

Class IndexDataPair (T : Type) := {
  pair_read : T -> Z -> T * Z;
  pair_write : T -> Z -> Z -> T;
}.

(** [reg t i] is the value of the register [i]. *)
Class IndexDataLaws (T : Type) `{IndexDataPair T} (reg : T -> Z -> Z) := {
  reg_byte : forall t i, 0 <= reg t i < 256;
  read_value : forall t i, (pair_read t i).2 = reg t i;
  read_keeps : forall t i j, reg (pair_read t i).1 j = reg t j;
  write_value : forall t i d j, 0 <= d < 256 ->
    reg (pair_write t i d) j = if decide (j = i) then d else reg t j;
}.

(** ** The interface of the cursor *)

Class Cursor (C : Type) := {
  cursor_get : C -> C * Z;
  cursor_set : C -> Z -> C;
  cursor_set_disable : C -> bool -> C;
  cursor_set_height : C -> Z -> C;
}.

(** [shown c] is the position at which the cursor is drawn. *)
Class CursorLaws (C : Type) `{Cursor C} (shown : C -> Z) := {
  shown_nonneg : forall c, 0 <= shown c;
  get_value : forall c, (cursor_get c).2 = shown c;
  get_keeps : forall c, shown (cursor_get c).1 = shown c;
  set_value : forall c p, 0 <= p -> shown (cursor_set c p) = p mod 65536;
  disable_keeps : forall c b, shown (cursor_set_disable c b) = shown c;
  height_keeps : forall c h, 0 <= h < 256 -> shown (cursor_set_height c h) = shown c;
}.

(** ** The VGA cursor *)

Definition CURSOR_DISABLE : Z := Z.shiftl 1 5.
Definition CURSOR_LINE_MASK : Z := Z.shiftl 1 5 - 1.
Definition START_LINE : Z := 0x0A.
Definition END_LINE : Z := 0x0B.
Definition MAX_LINES : Z := Z.shiftl 1 4.
Definition POSITION_HIGH : Z := 0x0E.
Definition POSITION_LOW : Z := 0x0F.

(** [!x] of a byte. *)
Definition lnot8 (x : Z) : Z := 255 - x.

Section VgaCursor.
Context {T : Type} `{IndexDataPair T}.

Definition vga_get (t : T) : T * Z :=
  let '(t, high) := pair_read t POSITION_HIGH in
  let '(t, low) := pair_read t POSITION_LOW in
  (t, Z.lor (Z.shiftl high 8) low).

Definition vga_set (t : T) (position : Z) : T :=
  let high := Z.shiftr position 8 mod 256 in
  let low := position mod 256 in
  pair_write (pair_write t POSITION_HIGH high) POSITION_LOW low.

Definition vga_set_disable (t : T) (disable : bool) : T :=
  let '(t, start_line) := pair_read t START_LINE in
  let new_start_line :=
    if disable then Z.lor start_line CURSOR_DISABLE
    else Z.land start_line (lnot8 CURSOR_DISABLE) in
  pair_write t START_LINE new_start_line.

Definition vga_set_height (t : T) (height : Z) : T :=
  let end_line := MAX_LINES - 1 in
  let start_line := saturating_sub (end_line + 1) height in
  let '(t, current_start) := pair_read t START_LINE in
  let disable_bit := Z.land current_start CURSOR_DISABLE in
  let new_start_line := Z.lor (Z.land start_line CURSOR_LINE_MASK) disable_bit in
  pair_write (pair_write t START_LINE new_start_line) END_LINE end_line.

#[export] Instance VgaCursor : Cursor T := {
  cursor_get := vga_get;
  cursor_set := vga_set;
  cursor_set_disable := vga_set_disable;
  cursor_set_height := vga_set_height;
}.

(** *** What it does to the registers *)

Context (reg : T -> Z -> Z) `{!IndexDataLaws T reg}.

Definition vga_position (t : T) : Z := 256 * reg t POSITION_HIGH + reg t POSITION_LOW.

(** The cursor is drawn on the lines from the start to the end, unless it is
    disabled. *)
Definition vga_disabled (t : T) : bool := Z.testbit (reg t START_LINE) 5.
Definition vga_lines (t : T) : Z :=
  Z.max 0 (Z.land (reg t END_LINE) CURSOR_LINE_MASK + 1 -
           Z.land (reg t START_LINE) CURSOR_LINE_MASK).

Lemma byte_land x : 0 <= x < 256 <-> Z.land x 255 = x.
Proof.
  change 255 with (Z.ones 8). rewrite Z.land_ones by lia. change (2 ^ 8) with 256.
  pose proof (Z.mod_pos_bound x 256). split; [by apply Z.mod_small | lia].
Qed.

Lemma byte_lor x y : 0 <= x < 256 -> 0 <= y < 256 -> 0 <= Z.lor x y < 256.
Proof. rewrite !byte_land, Z.land_lor_distr_l. by intros -> ->. Qed.

Lemma byte_land_r x y : 0 <= y < 256 -> 0 <= Z.land x y < 256.
Proof. rewrite !byte_land, <- Z.land_assoc. by intros ->. Qed.

Lemma vga_get_spec t :
  (vga_get t).2 = vga_position t /\ vga_position (vga_get t).1 = vga_position t.
Proof.
  unfold vga_get, vga_position.
  pose proof (read_value t POSITION_HIGH) as E1.
  pose proof (read_keeps t POSITION_HIGH) as K1.
  destruct (pair_read t POSITION_HIGH) as [t1 high]. simpl in E1, K1.
  pose proof (read_value t1 POSITION_LOW) as E2.
  pose proof (read_keeps t1 POSITION_LOW) as K2.
  destruct (pair_read t1 POSITION_LOW) as [t2 low]. simpl in E2, K2. simpl.
  rewrite !K2, !K1, E1, E2, K1. split; [| done].
  pose proof (reg_byte t POSITION_LOW).
  rewrite lor_shiftl_add by lia. change (2 ^ 8) with 256. lia.
Qed.

Lemma vga_set_spec t p : 0 <= p -> vga_position (vga_set t p) = p mod 65536.
Proof.
  intros Hp. unfold vga_set, vga_position.
  pose proof (Z.mod_pos_bound p 256). pose proof (Z.mod_pos_bound (Z.shiftr p 8) 256).
  rewrite !write_value by lia.
  destruct (decide _); [discriminate |]. repeat (destruct (decide _); [| done]).
  rewrite Z.shiftr_div_pow2 by lia. change (2 ^ 8) with 256.
  Z.div_mod_to_equations. lia.
Qed.

(** The registers of the position and of the shape are different ones. *)
Lemma vga_position_shape t i d :
  0 <= d < 256 -> (i = START_LINE \/ i = END_LINE) ->
  vga_position (pair_write t i d) = vga_position t.
Proof.
  intros Hd Hi. unfold vga_position. rewrite !write_value by done.
  by destruct Hi as [-> | ->].
Qed.

Lemma vga_set_disable_spec t b :
  vga_disabled (vga_set_disable t b) = b /\
  vga_lines (vga_set_disable t b) = vga_lines t /\
  vga_position (vga_set_disable t b) = vga_position t.
Proof.
  unfold vga_set_disable.
  pose proof (read_value t START_LINE) as E. pose proof (read_keeps t START_LINE) as K.
  destruct (pair_read t START_LINE) as [t1 s]. simpl in E, K. subst s.
  set (new := if b then _ else _).
  pose proof (reg_byte t START_LINE) as Hs.
  assert (Hn : 0 <= new < 256)
    by (unfold new; destruct b; [apply byte_lor | apply byte_land_r]; done).
  rewrite (vga_position_shape t1 START_LINE new) by auto.
  unfold vga_disabled, vga_lines, vga_position.
  rewrite !write_value by done. repeat (destruct (decide _); try discriminate; try done).
  rewrite !K. unfold new.
  destruct b; rewrite ?Z.lor_spec, ?Z.land_spec, ?Z.land_lor_distr_l, <- ?Z.land_assoc;
    change (Z.land CURSOR_DISABLE CURSOR_LINE_MASK) with 0;
    change (Z.land (lnot8 CURSOR_DISABLE) CURSOR_LINE_MASK) with CURSOR_LINE_MASK;
    change (Z.testbit CURSOR_DISABLE 5) with true;
    change (Z.testbit (lnot8 CURSOR_DISABLE) 5) with false;
    rewrite ?Z.lor_0_r, ?orb_true_r, ?andb_false_r; done.
Qed.

Lemma vga_set_height_spec t h :
  0 <= h < 256 ->
  vga_lines (vga_set_height t h) = Z.min h MAX_LINES /\
  vga_disabled (vga_set_height t h) = vga_disabled t /\
  vga_position (vga_set_height t h) = vga_position t.
Proof.
  intros Hh. unfold vga_set_height.
  pose proof (read_value t START_LINE) as E. pose proof (read_keeps t START_LINE) as K.
  destruct (pair_read t START_LINE) as [t1 s]. simpl in E, K. subst s.
  change (MAX_LINES - 1) with 15. change (15 + 1) with 16. change MAX_LINES with 16.
  set (start := saturating_sub 16 h).
  assert (Hst : 0 <= start <= 16) by (unfold start, saturating_sub; lia).
  assert (Hm : Z.land start CURSOR_LINE_MASK = start).
  { change CURSOR_LINE_MASK with (Z.ones 5). rewrite Z.land_ones by lia.
    apply Z.mod_small. lia. }
  rewrite Hm. set (new := Z.lor start _).
  assert (Hn : 0 <= new < 256) by (apply byte_lor; [lia | by apply byte_land_r]).
  rewrite !vga_position_shape by (auto; lia).
  unfold vga_disabled, vga_lines, vga_position.
  rewrite !write_value by lia. repeat (destruct (decide _); try discriminate; try done).
  rewrite !K. unfold new. rewrite Z.land_lor_distr_l, Z.lor_spec, Z.land_spec, Hm, <- Z.land_assoc.
  change (Z.land CURSOR_DISABLE CURSOR_LINE_MASK) with 0.
  change (Z.testbit CURSOR_DISABLE 5) with true.
  rewrite Z.land_0_r, Z.lor_0_r, andb_true_r.
  assert (Hb : Z.testbit start 5 = false).
  { destruct (Z.eq_dec start 0) as [-> |]; [done |].
    apply Z.bits_above_log2; [lia |]. apply Z.log2_lt_pow2; lia. }
  rewrite Hb. change (Z.land 15 CURSOR_LINE_MASK) with 15.
  unfold start, saturating_sub. split; [lia | done].
Qed.

#[export] Instance VgaCursor_laws : CursorLaws T vga_position.
Proof.
  split.
  - intros t. unfold vga_position.
    pose proof (reg_byte t POSITION_HIGH). pose proof (reg_byte t POSITION_LOW). lia.
  - apply vga_get_spec.
  - apply vga_get_spec.
  - apply vga_set_spec.
  - apply vga_set_disable_spec.
  - apply vga_set_height_spec.
Qed.

End VgaCursor.

(** ** The pair of ports

    The instructions [in] and [out] act on a machine [W].  A device latches the
    index written to its index port and gives access to that register on the
    data port. *)

Class PortIo (W : Type) := {
  port_in : W -> Z -> W * Z;
  port_out : W -> Z -> Z -> W;
}.

Record IndexDataPortPair := { index_port : Z; data_port : Z }.

Section Ports.
Context {W : Type} `{PortIo W} (ports : IndexDataPortPair).

Definition ports_read (w : W) (i : Z) : W * Z :=
  port_in (port_out w (index_port ports) i) (data_port ports).
Definition ports_write (w : W) (i d : Z) : W :=
  port_out (port_out w (index_port ports) i) (data_port ports) d.

Definition PortPair : IndexDataPair W := {|
  pair_read := ports_read;
  pair_write := ports_write;
|}.

(** What a device with indexed registers does. *)
Class IndexedDevice (reg : W -> Z -> Z) (latched : W -> Z) := {
  device_byte : forall w i, 0 <= reg w i < 256;
  out_index_latch : forall w i, latched (port_out w (index_port ports) i) = i;
  out_index_keeps : forall w i j, reg (port_out w (index_port ports) i) j = reg w j;
  in_data_value : forall w, (port_in w (data_port ports)).2 = reg w (latched w);
  in_data_keeps : forall w j, reg (port_in w (data_port ports)).1 j = reg w j;
  out_data_value : forall w d j, 0 <= d < 256 ->
    reg (port_out w (data_port ports) d) j = if decide (j = latched w) then d else reg w j;
}.

Lemma PortPair_laws reg latched :
  IndexedDevice reg latched -> @IndexDataLaws W PortPair reg.
Proof.
  intros []. split; simpl; unfold ports_read, ports_write; intros.
  - done.
  - by rewrite in_data_value0, out_index_latch0, out_index_keeps0.
  - by rewrite in_data_keeps0, out_index_keeps0.
  - rewrite out_data_value0, out_index_latch0, out_index_keeps0 by done. done.
Qed.

End Ports.

(** [create_vga_cursor]: the ports of the controller. *)
Definition create_vga_cursor : outcome IndexDataPortPair :=
  let? (i, d) := unwrap (Port.from_index_port 1 0x03D4) in
  Ok {| index_port := i; data_port := d |}.

(** ** A controller

    The part of the CRT controller the cursor uses. *)
Record Crtc := { crtc_latch : Z; crtc_regs : gmap Z Z }.

Definition crtc_reg (w : Crtc) (i : Z) : Z := default 0 (crtc_regs w !! i) mod 256.

#[export] Instance Crtc_io : PortIo Crtc := {
  port_in := fun w port =>
    (w, if port =? 0x03D5 then crtc_reg w (crtc_latch w) else 255);
  port_out := fun w port d =>
    if port =? 0x03D4 then {| crtc_latch := d; crtc_regs := crtc_regs w |}
    else if port =? 0x03D5
    then {| crtc_latch := crtc_latch w; crtc_regs := <[crtc_latch w := d]> (crtc_regs w) |}
    else w;
}.

Definition vga_ports : IndexDataPortPair := {| index_port := 0x03D4; data_port := 0x03D5 |}.

Lemma create_vga_cursor_ports : create_vga_cursor = Ok vga_ports.
Proof. reflexivity. Qed.

Lemma Crtc_device : IndexedDevice vga_ports crtc_reg crtc_latch.
Proof.
  split; try done.
  - intros w i. apply Z.mod_pos_bound. lia.
  - intros w d j Hd. unfold crtc_reg. simpl. destruct (decide (j = crtc_latch w)) as [-> | Hne].
    + rewrite lookup_insert. destruct (decide _); [| done]. simpl. by apply Z.mod_small.
    + by rewrite lookup_insert_ne.
Qed.

(** The VGA cursor over any registers that hold what is written to them: a
    position of up to 16 bits set is the one read back; hiding or showing the
    cursor changes nothing else; a height sets the number of the lines drawn, at
    most 16, and neither moves the cursor nor shows a hidden one. *)
Theorem vga_cursor_correct {T : Type} `{IndexDataPair T} (reg : T -> Z -> Z)
    (Hlaws : IndexDataLaws T reg) (t : T) :
  (forall p, 0 <= p < 65536 -> (vga_get (vga_set t p)).2 = p) /\
  (forall b, vga_disabled reg (vga_set_disable t b) = b /\
     vga_lines reg (vga_set_disable t b) = vga_lines reg t /\
     vga_position reg (vga_set_disable t b) = vga_position reg t) /\
  (forall h, 0 <= h < 256 ->
     vga_lines reg (vga_set_height t h) = Z.min h MAX_LINES /\
     vga_disabled reg (vga_set_height t h) = vga_disabled reg t /\
     vga_position reg (vga_set_height t h) = vga_position reg t).
Proof.
  split; [| split].
  - intros p Hp. rewrite (proj1 (vga_get_spec reg _)), (vga_set_spec reg) by lia.
    apply Z.mod_small. lia.
  - intros b. by apply vga_set_disable_spec.
  - intros h Hh. by apply vga_set_height_spec.
Qed.

#[local] Instance crtc_pair : IndexDataPair Crtc := PortPair vga_ports.

Lemma vga_cursor_correct_witness :
  let t := {| crtc_latch := 0; crtc_regs := ∅ |} in
  (vga_get (vga_set t 1999)).2 = 1999 /\
  vga_lines crtc_reg (vga_set_height t 2) = 2.
Proof.
  intros t.
  destruct (vga_cursor_correct crtc_reg
              (PortPair_laws vga_ports crtc_reg crtc_latch Crtc_device) t)
    as (Hget & _ & Hh).
  split; [apply (Hget 1999); lia | apply (Hh 2); lia].
Defined.
