(* ===== verification/Text.v ===== *)
(** * Printing on the screen and the serial port

    [Text] of [text/src/lib.rs]: the grid, the cursor and the serial port
    together, for any cursor that keeps the promises of [CursorLaws].  The
    serial port is the list of octets sent to it.  A string is the list of its
    characters (code points). *)

From stdpp Require Import base list numbers option tactics gmap.
From Stdlib Require Import ZArith Lia.
From S2P Require Import Prelude Grid Paper TextInit VgaCursor.

Open Scope Z_scope.

(** [str::as_bytes]: the UTF-8 encoding. *)
Definition encode_utf8 (ch : Z) : list Z :=
  if ch <? 0x80 then [ch]
  else if ch <? 0x800 then [0xC0 + ch / 64; 0x80 + ch mod 64]
  else if ch <? 0x10000 then [0xE0 + ch / 4096; 0x80 + ch / 64 mod 64; 0x80 + ch mod 64]
  else [0xF0 + ch / 262144; 0x80 + ch / 4096 mod 64; 0x80 + ch / 64 mod 64; 0x80 + ch mod 64].
Definition as_bytes (text : list Z) : list Z := mjoin (encode_utf8 <$> text).

Section Text.
Context {C : Type} `{Cursor C}.

Record Text := {
  cursor : C;
  grid : Grid;
  serial : list Z;
}.

(** An operation of the grid, and one that also prints to the serial port. *)
Definition on_grid {A} (c : M Grid A) : M Text A := fun t =>
  let '(g, r) := c (grid t) in
  ({| cursor := cursor t; grid := g; serial := serial t |}, r).
Definition on_output {A} (c : M (Grid * list Z) A) : M Text A := fun t =>
  let '((g, out), r) := c (grid t, serial t) in
  ({| cursor := cursor t; grid := g; serial := out |}, r).

Definition move_cursor (position : Z) : M Text unit := fun t =>
  ({| cursor := cursor_set (cursor t) position; grid := grid t; serial := serial t |}, Ok tt).
Definition read_cursor : M Text Z := fun t =>
  let '(c, position) := cursor_get (cursor t) in
  ({| cursor := c; grid := grid t; serial := serial t |}, Ok position).
Definition print_octet (octet : Z) : M Text unit := fun t =>
  ({| cursor := cursor t; grid := grid t; serial := serial t ++ [octet] |}, Ok tt).

Definition text_set_position (pos : Z) : M Text unit :=
  let! _ := on_grid (set_position pos) in
  move_cursor pos.

Definition write_str (text : list Z) : M Text unit :=
  let! _ := for_list (fun ch => on_grid (print_character ch)) text in
  let! _ := for_list print_octet (as_bytes text) in
  let! pos := on_grid position in
  move_cursor pos.

(** [writeln!(self)] writes a line feed. *)
Definition text_init : M Text unit :=
  let! cursor_position := read_cursor in
  let! position := on_output (grid_init cursor_position) in
  if position =? 0 then retM tt
  else
    let! g := on_grid getM in
    let! _ := (if is_newline g then retM tt else expectM (write_str [10])) in
    expectM (write_str [10]).

Definition text_clear : M Text unit :=
  let! g := on_grid getM in
  let! _ := on_grid (clear 0 (grid_len g)) in
  text_set_position 0.

(** [print!]: the formatting machinery calls [write_str] for the pieces of the
    text. *)
Definition write_fmt (pieces : list (list Z)) : M Text unit := for_list write_str pieces.

Definition put_attribute (a : Z) : M Text unit :=
  on_grid (fun g => (set_attribute a g, Ok tt)).

(** [make_attribute!] with a foreground and, optionally, a background. *)
Definition make_attribute (base foreground : Z) (background : option Z) : outcome Z :=
  match background with
  | Some b => Ok (attribute_new foreground b)
  | None =>
      let? b := attribute_background base in
      Ok (attribute_new foreground b)
  end.

Definition print_color (foreground : Z) (background : option Z) (pieces : list (list Z)) :
    M Text unit :=
  let! g := on_grid getM in
  let old_attribute := attribute g in
  let! new_attribute := liftM (make_attribute old_attribute foreground background) in
  let! _ := put_attribute new_attribute in
  let! ok := succeeds (write_fmt pieces) in
  let! _ := (if ok then retM tt else expectM (write_str [69; 114; 114])) in
  put_attribute old_attribute.

Definition print (pieces : list (list Z)) : M Text unit := expectM (write_fmt pieces).

(** ** The promises of [Text] *)

Context (shown : C -> Z) `{!CursorLaws C shown}.

Lemma on_grid_for text : forall t g',
  for_list print_character text (grid t) = (g', Ok tt) ->
  for_list (fun ch => on_grid (print_character ch)) text t =
    ({| cursor := cursor t; grid := g'; serial := serial t |}, Ok tt).
Proof.
  induction text as [|ch text IH]; intros t g' E; simpl in *; unfold bindM, on_grid, retM in *.
  - injection E as <-. by destruct t.
  - destruct (print_character ch (grid t)) as [g1 [[]| |]] eqn:E1; try discriminate.
    by rewrite (IH _ g').
Qed.

Lemma print_octets l : forall t,
  for_list print_octet l t =
    ({| cursor := cursor t; grid := grid t; serial := serial t ++ l |}, Ok tt).
Proof.
  induction l as [|o l IH]; intros t; simpl.
  - rewrite app_nil_r. by destruct t.
  - unfold bindM. simpl. rewrite IH. simpl. by rewrite <- app_assoc.
Qed.

(** The state of a text screen: the grid shows the sheet [p], and the cursor is
    drawn where the next character goes. *)
Record text_shows (width height : nat) (t : Text) (p : Paper) : Prop := {
  ts_screen : screen width height (grid t) p;
  ts_cursor : shown (cursor t) = (row_start (grid t) + column (grid t)) mod 65536;
}.

Lemma write_str_spec width height text t p :
  screen width height (grid t) p ->
  exists t',
    write_str text t = (t', Ok tt) /\
    text_shows width height t'
      (paper_text width low_byte_glyph (Z.to_nat (tab_width (grid t))) (attribute (grid t)) text p) /\
    keeps (grid t) (grid t') /\
    serial t' = serial t ++ as_bytes text.
Proof.
  intros Hscr. destruct (text_sim width height text (grid t) p Hscr) as (g' & E & Hscr' & Hk).
  destruct (place_bounds width height g' _ Hscr') as (B1 & B2 & B3 & B4 & _ & _ & B5).
  assert (Epos : position g' = (g', Ok (row_start g' + column g'))).
  { unfold position. rewrite usize_add_ok; [done |]. unfold is_usize. lia. }
  eexists. split.
  - unfold write_str, bindM. rewrite (on_grid_for text t g' E), print_octets.
    unfold on_grid. cbn [grid cursor serial]. rewrite Epos. done.
  - split; [split; [done |] | by split]. simpl. apply set_value. lia.
Qed.

(** Printing on an initialised screen. *)
Lemma print_spec width height pieces : forall t p,
  screen width height (grid t) p ->
  exists t',
    write_fmt pieces t = (t', Ok tt) /\
    screen width height (grid t')
      (paper_text width low_byte_glyph (Z.to_nat (tab_width (grid t))) (attribute (grid t)) (mjoin pieces) p) /\
    keeps (grid t) (grid t') /\
    serial t' = serial t ++ as_bytes (mjoin pieces) /\
    (pieces <> [] ->
       shown (cursor t') = (row_start (grid t') + column (grid t')) mod 65536).
Proof.
  induction pieces as [|text pieces IH]; intros t p Hscr.
  - exists t. simpl. rewrite app_nil_r. done.
  - destruct (write_str_spec width height text t p Hscr) as (t1 & E1 & [Hs1 Hc1] & Hk1 & So1).
    destruct (IH t1 _ Hs1) as (t2 & E2 & Hs2 & Hk2 & So2 & Hc2).
    exists t2. unfold write_fmt in *. simpl. unfold bindM. rewrite E1.
    split; [done |]. split; [| split; [by eapply printing_keeps_trans |]; split].
    + destruct Hk1 as [Ea Et]. rewrite Ea, Et in Hs2.
      unfold paper_text in *. by rewrite fold_left_app.
    + rewrite So2, So1, <- app_assoc. unfold as_bytes. by rewrite fmap_app, join_app.
    + intros _. destruct pieces as [|text2 pieces]; [| by apply Hc2].
      simpl in E2. by injection E2 as <-.
Qed.

Lemma screen_set_attribute width height a g p :
  screen width height g p -> screen width height (set_attribute a g) p.
Proof. intros [[] ? []]. split; [by split | done | by split]. Qed.

(** Every byte is a pair of colours. *)
Lemma attribute_background_ok a :
  0 <= a < 256 -> attribute_background a = Ok (a / 16).
Proof.
  intros Ha. unfold attribute_background, color_from_bits.
  change WHITE with (Z.ones 4). rewrite Z.shiftr_div_pow2 by done.
  change (2 ^ BACKGROUND_SHIFT) with 16.
  assert (Hq : 0 <= a / 16 < 16) by (Z.div_mod_to_equations; lia).
  rewrite <- Z.ldiff_land, Z.ldiff_ones_r_low; [done | lia |].
  destruct (Z.eq_dec (a / 16) 0) as [-> |]; [done |]. apply Z.log2_lt_pow2; lia.
Qed.

(** [print!(color(...), ...)] on an initialised screen. *)
Lemma print_color_spec width height fg bg pieces t p :
  screen width height (grid t) p ->
  (bg = None -> 0 <= attribute (grid t) < 256) ->
  exists t',
    print_color fg bg pieces t = (t', Ok tt) /\
    screen width height (grid t')
      (paper_text width low_byte_glyph (Z.to_nat (tab_width (grid t)))
         (attribute_new fg (default (attribute (grid t) / 16) bg)) (mjoin pieces) p) /\
    keeps (grid t) (grid t') /\
    serial t' = serial t ++ as_bytes (mjoin pieces).
Proof.
  intros Hscr Hbg. set (a := attribute_new _ _).
  assert (Ea : make_attribute (attribute (grid t)) fg bg = Ok a).
  { destruct bg as [b|]; [done |]. simpl. by rewrite attribute_background_ok by auto. }
  set (t0 := {| cursor := cursor t; grid := set_attribute a (grid t); serial := serial t |}).
  destruct (print_spec width height pieces t0 p) as (t1 & E1 & Hs1 & [_ Ht] & So1 & _).
  { by apply screen_set_attribute. }
  eexists. split.
  - unfold print_color, put_attribute, on_grid, getM, liftM, succeeds, retM, bindM.
    cbn [grid cursor serial].
    assert (Et : {| cursor := cursor t; grid := grid t; serial := serial t |} = t) by by destruct t.
    rewrite Ea. fold t0. rewrite E1. done.
  - split; [by apply screen_set_attribute | by split].
Qed.

(** *** Taking over the screen *)

(** The paper after the line feeds that end the text found on the screen. *)
Definition feeds (n : nat) (t : Text) (g' : Grid) (width height : nat) : Paper :=
  paper_text width low_byte_glyph (Z.to_nat (tab_width (grid t))) (attribute (grid t))
    (replicate n 10) (grid_paper width height g').

(** The grid takes over the screen, then the line feeds are written. *)
Lemma text_init_start width height t :
  grid_shape width height (grid t) ->
  exists t1,
    text_init t = (
      if (text_end (shown (cursor t)) (grid t) =? 0)%nat then retM tt
      else let! _ := (if is_newline (grid t1) then retM tt else expectM (write_str [10])) in
           expectM (write_str [10])) t1 /\
    grid_wf width height (grid t1) /\ keeps (grid t) (grid t1) /\
    taken_over width (shown (cursor t)) (grid t) (grid t1) /\
    shown (cursor t1) = shown (cursor t) /\
    serial t1 = serial t ++
      rows_text width [] (take (text_end (shown (cursor t)) (grid t)) (chars (grid t))).
Proof.
  intros Hs. pose proof (shown_nonneg (cursor t)) as Hc.
  pose proof (get_value (cursor t)) as Ec. pose proof (get_keeps (cursor t)) as Kc.
  destruct (cursor_get (cursor t)) as [c1 pos] eqn:Eg. simpl in Ec, Kc. subst pos.
  destruct (grid_init_spec width height (grid t) (shown (cursor t)) (serial t) Hs Hc)
    as (g1 & E1 & Hwf & Hk & Ht).
  set (e := text_end (shown (cursor t)) (grid t)) in *.
  exists {| cursor := c1; grid := g1; serial := serial t ++ rows_text width [] (take e (chars (grid t))) |}.
  split; [| by repeat (split; [done |])].
  unfold text_init, read_cursor, on_output, on_grid, getM, bindM at 1. rewrite Eg.
  unfold bindM at 1. cbn [grid cursor serial]. rewrite E1.
  destruct (Nat.eqb_spec e 0); destruct (Z.eqb_spec (Z.of_nat e) 0); done || lia.
Qed.

(** An empty screen has its cursor in the corner. *)
Lemma text_end_zero width height c g :
  grid_shape width height g -> 0 <= c -> text_end c g = 0%nat -> c = 0.
Proof.
  intros [_ Hw Hh Hl _ _] Hc E. unfold text_end, grid_len in E. nia.
Qed.

Lemma text_init_spec width height t :
  grid_shape width height (grid t) ->
  exists t' g' n,
    text_init t = (t', Ok tt) /\
    grid_wf width height g' /\ keeps (grid t) g' /\
    taken_over width (shown (cursor t)) (grid t) g' /\
    n = (if (text_end (shown (cursor t)) (grid t) =? 0)%nat then 0
         else if is_newline g' then 1 else 2)%nat /\
    text_shows width height t' (feeds n t g' width height) /\
    serial t' = serial t ++
      rows_text width [] (take (text_end (shown (cursor t)) (grid t)) (chars (grid t))) ++
      replicate n 10.
Proof.
  intros Hs. destruct (text_init_start width height t Hs) as (t1 & -> & Hwf & Hk & Ht & Kc & So).
  pose proof (grid_wf_screen width height _ Hwf) as Hscr. unfold feeds.
  destruct (Hk) as [Ka Kt].
  destruct (Nat.eqb_spec (text_end (shown (cursor t)) (grid t)) 0) as [E0 | E0].
  - exists t1, (grid t1), 0%nat. do 5 (split; [done |]).
    split; [| simpl; by rewrite app_nil_r].
    split; [done |]. rewrite Kc.
    rewrite (text_end_zero width height _ _ Hs (shown_nonneg _) E0).
    unfold taken_over in Ht. rewrite E0 in Ht.
    destruct (Nat.ltb_spec 0 (length (buffer (grid t)))) as [Hl | Hl]; [by destruct Ht as [-> _] |].
    destruct Hs; nia.
  - destruct (write_str_spec width height [10] t1 _ Hscr) as (t2 & E2 & H2 & K2 & S2).
    destruct (is_newline (grid t1)) eqn:En.
    + exists t2, (grid t1), 1%nat. unfold bindM, retM, expectM. rewrite E2. split; [done |].
      do 3 (split; [done |]). split; [by rewrite En |].
      rewrite Ka, Kt in H2. split; [done |]. rewrite S2, So, <- app_assoc. done.
    + destruct (write_str_spec width height [10] t2 _ (ts_screen _ _ _ _ H2))
        as (t3 & E3 & H3 & [K2a K2t] & S3).
      exists t3, (grid t1), 2%nat. unfold bindM, expectM. rewrite E2. simpl unwrap. rewrite E3.
      split; [done |]. do 3 (split; [done |]). split; [by rewrite En |].
      destruct K2 as [Kb Kd]. rewrite Kb, Kd, Ka, Kt in H3.
      split; [done |]. rewrite S3, S2, So, <- !app_assoc. done.
Qed.

End Text.

(** ** Claims *)


(** A screen of three rows of four columns with the VGA cursor. *)
#[local] Instance vga_pair : IndexDataPair Crtc := PortPair vga_ports.

Lemma vga_laws : CursorLaws Crtc (vga_position crtc_reg).
Proof. apply VgaCursor_laws, (PortPair_laws vga_ports _ crtc_latch), Crtc_device. Qed.

Definition sample_text : Text (C := Crtc) :=
  {| cursor := {| crtc_latch := 0; crtc_regs := <[POSITION_LOW := 5]> ∅ |};
     grid := {| attribute := 7; buffer := glyph_new 65 7 :: replicate 11 (glyph_new 0 7);
                column := 0; column_count := 4; row_start := 0; tab_width := 8 |};
     serial := [] |}.

Lemma sample_grid_wf : grid_wf 4 3 (grid sample_text).
Proof.
  split; [split; try done; lia | exists 0%nat; split; [lia | done] | done].
Qed.


(** What is on that screen: the second row is the tab, the text has wrapped. *)
Example sample_screen :
  glyph_character <$> buffer (grid (fst (write_str [72; 105; 10; 9; 65; 66; 67; 68; 69] sample_text)))
  = [32; 32; 32; 32; 65; 66; 67; 68; 69; 32; 32; 32].
Proof. vm_compute. reflexivity. Qed.

(** A character outside ASCII is shown as the letter with the same low byte, not
    as the documented question mark. *)
Example non_ascii_shown_as_letter : low_byte_glyph 0x141 = 65 /\ ascii_glyph 0x141 = 63.
Proof. done. Qed.

(** C30. [Text::init] takes over a screen with any contents without failing: the
    text found on it (up to the cursor or the last visible character) stays, the
    rest is cleared, a full screen is scrolled by a row; the serial port
    receives the rows of that text without trailing blanks; the next text starts
    on a fresh row under an empty one, and the cursor is drawn there. *)
Theorem text_init_correct {C : Type} `{Cursor C} (shown : C -> Z) (width height : nat)
    (t : Text (C := C))
    (Hlaws : CursorLaws C shown)
    (Hshape : grid_shape width height (grid t)) :
  exists t' g' n,
    text_init t = (t', Ok tt) /\
    grid_wf width height g' /\ keeps (grid t) g' /\
    taken_over width (shown (cursor t)) (grid t) g' /\
    n = (if (text_end (shown (cursor t)) (grid t) =? 0)%nat then 0
         else if is_newline g' then 1 else 2)%nat /\
    text_shows shown width height t' (feeds n t g' width height) /\
    serial t' = serial t ++
      rows_text width [] (take (text_end (shown (cursor t)) (grid t)) (chars (grid t))) ++
      replicate n 10.
Proof. exact (text_init_spec shown width height t Hshape). Qed.

Lemma text_init_correct_witness :
  exists t' g' n,
    text_init sample_text = (t', Ok tt) /\
    grid_wf 4 3 g' /\ keeps (grid sample_text) g' /\
    taken_over 4 5 (grid sample_text) g' /\
    n = (if is_newline g' then 1 else 2)%nat /\
    text_shows (vga_position crtc_reg) 4 3 t' (feeds n sample_text g' 4 3) /\
    serial t' = [65; 10] ++ replicate n 10.
Proof.
  exact (text_init_correct (vga_position crtc_reg) 4 3 sample_text vga_laws
           (grid_wf_shape _ _ _ sample_grid_wf)).
Defined.
