(* ===== verification/SystemTime.v ===== *)
(** * Time: processor ticks and calendar time

    [ku/src/time]: [correlation_point.rs], [correlation_interval.rs], [hz.rs],
    [tsc.rs], [rtc.rs] and the constants of [pit8254.rs].  A moment is a pair of
    seconds since the epoch and nanoseconds in that second; its construction by
    [chrono], which refuses dates too far away, is the parameter
    [from_timestamp].

    [datetime_exact] shows the conversion of a tick exact for the clock the
    kernel uses, one tick a second, as long as the product it computes fits;
    [datetime_overflow_panics] and [datetime_tick_scale] show where it is not. *)

From stdpp Require Import base list numbers option tactics.
From Stdlib Require Import ZArith Lia.
From S2P Require Import Prelude.

Open Scope Z_scope.

(** ** Signed machine integers *)

Abbreviation I64_MAX := 9223372036854775807.
Abbreviation I64_MIN := (-9223372036854775808).

Definition is_i64 (x : Z) : Prop := I64_MIN <= x <= I64_MAX.
Definition fits_i64 (x : Z) : bool := (I64_MIN <=? x) && (x <=? I64_MAX).
Definition i64 (x : Z) : outcome Z := if fits_i64 x then Ok x else Panic.

(** [div_euclid] and [rem_euclid]: the remainder is not negative. *)
Definition rem_euclid (a b : Z) : Z := a mod Z.abs b.
Definition div_euclid (a b : Z) : Z := (a - rem_euclid a b) / b.

(** The operators that panic on a zero divisor and on overflow. *)
Definition i64_div_euclid (a b : Z) : outcome Z :=
  if b =? 0 then Panic else i64 (div_euclid a b).
Definition i64_rem_euclid (a b : Z) : outcome Z :=
  if b =? 0 then Panic
  else if (a =? I64_MIN) && (b =? -1) then Panic else Ok (rem_euclid a b).
Definition i64_div (a b : Z) : outcome Z :=
  if b =? 0 then Panic else i64 (Z.quot a b).
Definition i64_rem (a b : Z) : outcome Z :=
  if b =? 0 then Panic
  else if (a =? I64_MIN) && (b =? -1) then Panic else Ok (Z.rem a b).

(** [x as i64] of a wider integer. *)
Definition wrap_i64 (x : Z) : Z := (x - I64_MIN) mod USIZE_MODULUS + I64_MIN.

Lemma i64_ok x : is_i64 x -> i64 x = Ok x.
Proof.
  intros H. unfold i64, fits_i64, is_i64 in *.
  by rewrite (proj2 (Z.leb_le _ _)), (proj2 (Z.leb_le _ _)) by lia.
Qed.

Lemma i64_panic x : ~ is_i64 x -> i64 x = Panic.
Proof.
  intros H. unfold i64, fits_i64, is_i64 in *.
  destruct (Z.leb_spec I64_MIN x), (Z.leb_spec x I64_MAX); simpl; done || lia.
Qed.

Lemma wrap_i64_id x : is_i64 x -> wrap_i64 x = x.
Proof.
  unfold is_i64, wrap_i64. intros H. rewrite Z.mod_small by lia. lia.
Qed.

Lemma div_euclid_pos a b : 0 < b -> div_euclid a b = a / b /\ rem_euclid a b = a mod b.
Proof.
  intros Hb. unfold div_euclid, rem_euclid. rewrite Z.abs_eq by lia. split; [| done].
  replace (a - a mod b) with (a / b * b) by (pose proof (Z.div_mod a b); lia).
  apply Z.div_mul. lia.
Qed.

Lemma i64_div_euclid_pos a b : 0 < b -> is_i64 a -> i64_div_euclid a b = Ok (a / b).
Proof.
  intros Hb Ha. unfold i64_div_euclid. destruct (Z.eqb_spec b 0); [lia |].
  rewrite (proj1 (div_euclid_pos a b Hb)). apply i64_ok.
  unfold is_i64 in *. Z.div_mod_to_equations. nia.
Qed.

Lemma i64_rem_euclid_pos a b : 0 < b -> i64_rem_euclid a b = Ok (a mod b).
Proof.
  intros Hb. unfold i64_rem_euclid. destruct (Z.eqb_spec b 0); [lia |].
  destruct (Z.eqb_spec b (-1)); [lia |]. rewrite andb_false_r.
  by rewrite (proj2 (div_euclid_pos a b Hb)).
Qed.

(** ** Points: a tick of a clock and the processor tick at that moment *)

Definition MSECS_PER_SEC : Z := 1000.
Definition NSECS_PER_SEC : Z := 1000000000.

(** The ticks per second of the real time clock and of the interval timer. *)
Definition RTC_TICKS_PER_SECOND : Z := 1.
Definition PIT_BASE : Z := 2 * 2 * 5 * 59659.
Definition PIT_TICKS_PER_SECOND : Z := 2 * 2 * 5.
Definition DIVISOR : Z := PIT_BASE / PIT_TICKS_PER_SECOND.

Record CorrelationPoint := { count : Z; tsc : Z }.

Definition point_new (count tsc : Z) : outcome CorrelationPoint :=
  assert! (0 <=? count) in
  assert! (0 <=? tsc) in
  Ok {| count := count; tsc := tsc |}.

(** [CorrelationPoint::now]; the argument is the processor tick read. *)
Definition point_now (count tsc : Z) : outcome CorrelationPoint := point_new count tsc.
Definition point_invalid (count : Z) : outcome CorrelationPoint := point_new count 0.

Definition is_valid (p : CorrelationPoint) : bool := negb (tsc p =? 0).

Record CorrelationInterval := { base : CorrelationPoint; prev : CorrelationPoint }.

(** [AtomicCorrelationInterval]: without concurrency its operations are those of
    an interval in memory. *)
Definition interval_new : CorrelationInterval :=
  {| base := {| count := 0; tsc := 0 |}; prev := {| count := 0; tsc := 0 |} |}.
Definition init_base (p : CorrelationPoint) (i : CorrelationInterval) : CorrelationInterval :=
  if is_valid (base i) then i else {| base := p; prev := prev i |}.
Definition store_prev (p : CorrelationPoint) (i : CorrelationInterval) : CorrelationInterval :=
  {| base := base i; prev := p |}.
(** [fetch_add] wraps. *)
Definition inc_prev (t : Z) (i : CorrelationInterval) : CorrelationInterval :=
  {| base := base i; prev := {| count := wrap_i64 (count (prev i) + 1); tsc := t |} |}.

Definition elapsed_count (i : CorrelationInterval) : outcome Z :=
  if is_valid (base i) && is_valid (prev i)
  then i64 (count (prev i) - count (base i)) else Ok 0.

Definition elapsed_tsc (i : CorrelationInterval) : outcome Z :=
  assert! is_valid (base i) in
  assert! is_valid (prev i) in
  i64 (tsc (prev i) - tsc (base i)).

Definition interval_tsc_per_second (ticks_per_second : Z) (i : CorrelationInterval) : outcome Z :=
  let? elapsed := elapsed_count i in
  if 0 <? elapsed then
    let? ticks := elapsed_tsc i in
    let? product := i64 (ticks_per_second * ticks) in
    i64_div product elapsed
  else Ok 0.

(** [Hz] is a number that is not zero; a frequency that is negative or zero is
    no frequency. *)
Definition hz_new (hz : Z) : option Z := if hz =? 0 then None else Some hz.
Definition tsc_per_second (ticks_per_second : Z) (i : CorrelationInterval) : outcome (option Z) :=
  let? hz := interval_tsc_per_second ticks_per_second i in
  Ok (if hz <? 0 then None else hz_new hz).

(** ** Moments *)

Section Datetime.
Context {DateTime : Type} (from_timestamp : Z -> Z -> option DateTime).
Context (ticks_per_second parts_per_second : Z).

(** The nanoseconds of the fraction [remainder / tsc_diff]. *)
Definition fractional (remainder tsc_diff : Z) : outcome Z :=
  if negb (tsc_diff =? 0) then
    if remainder <=? Z.quot I64_MAX NSECS_PER_SEC then
      let? product := i64 (remainder * NSECS_PER_SEC) in
      i64_div_euclid product tsc_diff
    else Ok (wrap_i64 (Z.quot (remainder * NSECS_PER_SEC) tsc_diff))
  else Ok 0.

(** The offset of a processor tick from the base in ticks of the clock. *)
Definition offset_in_ticks (count_diff tsc_diff tsc_offset : Z) : outcome (Z * Z) :=
  if negb (tsc_diff =? 0) then
    let? product := i64 (count_diff * tsc_offset) in
    let? q := i64_div_euclid product tsc_diff in
    let? r := i64_rem_euclid product tsc_diff in
    Ok (q, r)
  else Ok (0, 0).

(** The seconds and nanoseconds [datetime_with_resolution] hands to [chrono]. *)
Definition datetime_parts (i : CorrelationInterval) (t : Z) : outcome (Z * Z) :=
  let? count_diff := i64 (count (prev i) - count (base i)) in
  let? tsc_diff := i64 (tsc (prev i) - tsc (base i)) in
  let? tsc_offset := i64 (t - tsc (base i)) in
  let? (offset, remainder) := offset_in_ticks count_diff tsc_diff tsc_offset in
  let? total_ticks := i64 (count (base i) + offset) in
  let? seconds := i64_div_euclid total_ticks ticks_per_second in
  let? ticks_in_current_second := i64_rem_euclid total_ticks ticks_per_second in
  let? scaled := i64 (ticks_in_current_second * NSECS_PER_SEC) in
  let? nanoseconds_from_ticks := i64_div_euclid scaled ticks_per_second in
  let? fractional_nanoseconds := fractional remainder tsc_diff in
  let? total_nanoseconds := i64 (nanoseconds_from_ticks + fractional_nanoseconds) in
  let? nanoseconds_per_part := i64_div_euclid NSECS_PER_SEC parts_per_second in
  let? carry := i64_div_euclid total_nanoseconds NSECS_PER_SEC in
  let? final_seconds := i64 (seconds + carry) in
  let? final_nanoseconds := i64_rem_euclid total_nanoseconds NSECS_PER_SEC in
  let? final_parts := i64_div_euclid final_nanoseconds nanoseconds_per_part in
  let? nanoseconds := i64 (final_parts * nanoseconds_per_part) in
  Ok (final_seconds, nanoseconds mod 4294967296).

Definition datetime_with_resolution (i : CorrelationInterval) (t : Z) : outcome DateTime :=
  let? (seconds, nanoseconds) := datetime_parts i t in
  unwrap_some (from_timestamp seconds nanoseconds).

(** [CorrelationInterval::datetime] on the interval loaded. *)
Definition datetime (i : CorrelationInterval) (t : Z) : outcome DateTime :=
  let? elapsed := elapsed_count i in
  if 0 <? elapsed then datetime_with_resolution i t
  else
    let? seconds := i64_div (count (prev i)) ticks_per_second in
    unwrap_some (from_timestamp seconds 0).

End Datetime.

(** ** Durations *)

(** [TryFrom<TscDuration> for Duration]: seconds and nanoseconds; adding them is
    [checked_add] of [chrono]. *)
Definition duration_from_tsc (hz : option Z) (d : Z) : outcome (Z * Z) :=
  let? hz := ok_or hz NoData in
  let? hz := (if fits_i64 hz then Ok hz else Err Int) in
  let? seconds := i64_div d hz in
  let? rest := i64_rem d hz in
  let? product := i64 (rest * NSECS_PER_SEC) in
  let? nanoseconds := i64_div product hz in
  Ok (seconds, nanoseconds).

(** ** The conversion is exact *)

(** An interval between two ticks of the clock, as the interrupt handler leaves
    it: both points are valid and time has advanced on both clocks. *)
Record advancing (i : CorrelationInterval) : Prop := {
  adv_base_count : 0 <= count (base i) <= I64_MAX;
  adv_base_tsc : 0 < tsc (base i) <= I64_MAX;
  adv_count : count (base i) < count (prev i) <= I64_MAX;
  adv_tsc : tsc (base i) < tsc (prev i) <= I64_MAX;
}.

(** The exact time of the processor tick [t], in units of [1 / elapsed] seconds. *)
Definition exact_time (i : CorrelationInterval) (t : Z) : Z :=
  count (base i) * (tsc (prev i) - tsc (base i)) +
  (count (prev i) - count (base i)) * (t - tsc (base i)).

Lemma elapsed_count_advancing i :
  advancing i -> elapsed_count i = Ok (count (prev i) - count (base i)) /\
    count (prev i) - count (base i) > 0.
Proof.
  intros []. unfold elapsed_count, is_valid.
  destruct (Z.eqb_spec (tsc (base i)) 0); [lia |].
  destruct (Z.eqb_spec (tsc (prev i)) 0); [lia |]. simpl.
  rewrite i64_ok by (unfold is_i64; lia). split; [done | lia].
Qed.

Lemma fractional_ok r d : 0 <= r < d -> d <= I64_MAX ->
  fractional r d = Ok (r * NSECS_PER_SEC / d) /\ 0 <= r * NSECS_PER_SEC / d < NSECS_PER_SEC.
Proof.
  intros Hr Hd. unfold fractional, NSECS_PER_SEC in *.
  assert (Hb : 0 <= r * 1000000000 / d < 1000000000).
  { split; [apply Z.div_pos; lia | apply Z.div_lt_upper_bound; lia]. }
  split; [| done]. destruct (Z.eqb_spec d 0); [lia |]. simpl negb. cbv iota.
  change (Z.quot I64_MAX 1000000000) with 9223372036.
  destruct (Z.leb_spec r 9223372036).
  - rewrite i64_ok by (unfold is_i64; lia). apply i64_div_euclid_pos; [lia |].
    unfold is_i64; lia.
  - rewrite Z.quot_div_nonneg by lia. rewrite wrap_i64_id by (unfold is_i64; lia). done.
Qed.

Lemma offset_ok c d o : 0 < d -> is_i64 (c * o) ->
  offset_in_ticks c d o = Ok (c * o / d, (c * o) mod d).
Proof.
  intros Hd Hp. unfold offset_in_ticks. destruct (Z.eqb_spec d 0); [lia |]. simpl negb. cbv iota.
  by rewrite i64_ok, i64_div_euclid_pos, i64_rem_euclid_pos.
Qed.

(** The rounding down to the resolution. *)
Lemma parts_ok parts f :
  0 < parts -> (parts | NSECS_PER_SEC) -> 0 <= f < NSECS_PER_SEC ->
  let step := NSECS_PER_SEC / parts in
  0 < step /\ i64_div_euclid NSECS_PER_SEC parts = Ok step /\
  i64_div_euclid f step = Ok (f / step) /\ i64 (f / step * step) = Ok (f / step * step) /\
  (f / step * step) mod 4294967296 = f / step * step /\
  f / step * step <= f < f / step * step + step.
Proof.
  intros Hp [k Hk] Hf step.
  assert (Hs : step = k) by (unfold step; rewrite Hk; apply Z.div_mul; lia).
  unfold NSECS_PER_SEC in *. rewrite Hs. assert (0 < k) by nia.
  pose proof (Z.div_mod f k ltac:(lia)). pose proof (Z.mod_pos_bound f k ltac:(lia)).
  assert (0 <= f / k * k <= f) by (split; [apply Z.mul_nonneg_nonneg; [apply Z.div_pos |] |]; lia).
  split; [done |]. split.
  { rewrite i64_div_euclid_pos by (unfold is_i64; lia). by rewrite Hk, Z.div_mul by lia. }
  split; [apply i64_div_euclid_pos; unfold is_i64; lia |].
  split; [apply i64_ok; unfold is_i64; lia |].
  split; [apply Z.mod_small; lia | lia].
Qed.

Section Exact.
Context (i : CorrelationInterval) (t parts : Z).
Context (Hadv : advancing i) (Hparts : 0 < parts) (Hdiv : (parts | NSECS_PER_SEC)).
Context (Hoffset : is_i64 (t - tsc (base i))).
Context (Hproduct : is_i64 ((count (prev i) - count (base i)) * (t - tsc (base i)))).
Context (Hseconds : is_i64 (exact_time i t / (tsc (prev i) - tsc (base i)))).

(** The result rounds the exact time down to the resolution. *)
Definition rounds_down (s n step : Z) : Prop :=
  let d := tsc (prev i) - tsc (base i) in
  0 <= n < NSECS_PER_SEC /\ (step | n) /\
  (s * NSECS_PER_SEC + n) * d <= exact_time i t * NSECS_PER_SEC <
  (s * NSECS_PER_SEC + n + step) * d.

Lemma datetime_parts_spec :
  exists s n, datetime_parts RTC_TICKS_PER_SECOND parts i t = Ok (s, n) /\
    s = exact_time i t / (tsc (prev i) - tsc (base i)) /\
    rounds_down s n (NSECS_PER_SEC / parts).
Proof.
  destruct (Hadv) as [B1 B2 B3 B4].
  set (d := tsc (prev i) - tsc (base i)) in *.
  set (c := count (prev i) - count (base i)) in *.
  set (o := t - tsc (base i)) in *.
  assert (Hd : 0 < d <= I64_MAX) by lia.
  assert (Hex : exact_time i t / d = count (base i) + c * o / d /\
                exact_time i t mod d = (c * o) mod d).
  { unfold exact_time. fold d c o. rewrite Z.add_comm, Z.div_add, Z.mod_add by lia. split; lia. }
  destruct Hex as [Eq Er]. rewrite Eq in Hseconds.
  set (r := (c * o) mod d) in *.
  assert (Hr : 0 <= r < d) by (apply Z.mod_pos_bound; lia).
  destruct (fractional_ok r d Hr ltac:(lia)) as [Ef Hf].
  set (f := r * NSECS_PER_SEC / d) in *.
  destruct (parts_ok parts f Hparts Hdiv Hf) as (Hs0 & Es & Ep & Em & Ew & Hround).
  set (step := NSECS_PER_SEC / parts) in *.
  exists (count (base i) + c * o / d), (f / step * step). split.
  - unfold datetime_parts, RTC_TICKS_PER_SECOND. fold d c o.
    rewrite (i64_ok c), (i64_ok d), (i64_ok o) by (unfold is_i64; lia || done). cbv beta iota.
    rewrite (offset_ok c d o) by (done || lia). fold r. cbv beta iota.
    rewrite (i64_ok (_ + _)) by done. cbv beta iota.
    rewrite (i64_div_euclid_pos _ 1), (i64_rem_euclid_pos _ 1) by (done || lia).
    rewrite Z.div_1_r, Z.mod_1_r. cbv beta iota.
    change (i64 (0 * NSECS_PER_SEC)) with (Ok 0). cbv beta iota.
    change (i64_div_euclid 0 1) with (Ok 0). cbv beta iota.
    rewrite Ef. cbv beta iota. rewrite Z.add_0_l. unfold NSECS_PER_SEC in Hf.
    rewrite (i64_ok f) by (unfold is_i64; lia). cbv beta iota. rewrite Es. cbv beta iota.
    rewrite (i64_div_euclid_pos f NSECS_PER_SEC), (i64_rem_euclid_pos f NSECS_PER_SEC)
      by (done || (unfold is_i64; lia)).
    cbv beta iota.
    rewrite (Z.div_small f NSECS_PER_SEC), (Z.mod_small f NSECS_PER_SEC), Z.add_0_r by done.
    rewrite (i64_ok (count _ + _)) by done. cbv beta iota.
    rewrite Ep. cbv beta iota. rewrite Em. cbv beta iota. by rewrite Ew.
  - split; [by rewrite Eq |]. split; [| split; [by exists (f / step) |]].
    { pose proof (Z.mul_nonneg_nonneg (f / step) step). 
      assert (0 <= f / step) by (apply Z.div_pos; lia). lia. }
    assert (Ex : exact_time i t = (count (base i) + c * o / d) * d + r).
    { pose proof (Z.div_mod (exact_time i t) d ltac:(lia)). lia. }
    fold d. rewrite Ex.
    assert (Hfd : f * d <= r * NSECS_PER_SEC < (f + 1) * d).
    { unfold f. pose proof (Z.div_mod (r * NSECS_PER_SEC) d ltac:(lia)).
      pose proof (Z.mod_pos_bound (r * NSECS_PER_SEC) d ltac:(lia)). lia. }
    nia.
Qed.
End Exact.

(** Rounding down keeps the order. *)
Lemma rounds_down_mono i t1 t2 step s1 n1 s2 n2 :
  advancing i -> t1 <= t2 -> 0 < step -> (step | NSECS_PER_SEC) ->
  rounds_down i t1 s1 n1 step -> rounds_down i t2 s2 n2 step ->
  s1 * NSECS_PER_SEC + n1 <= s2 * NSECS_PER_SEC + n2.
Proof.
  intros [_ _ Hc Hd] Ht Hs [k Hk] (_ & [a Ha] & L1 & _) (_ & [b Hb] & _ & U2).
  assert (Hx : exact_time i t1 <= exact_time i t2) by (unfold exact_time; apply Z.add_le_mono_l, Z.mul_le_mono_nonneg_l; lia).
  set (d := tsc (prev i) - tsc (base i)) in *. assert (0 < d) by lia.
  assert (exact_time i t1 * NSECS_PER_SEC <= exact_time i t2 * NSECS_PER_SEC)
    by (apply Z.mul_le_mono_nonneg_r; done).
  assert (Hlt : (s1 * NSECS_PER_SEC + n1) * d < (s2 * NSECS_PER_SEC + n2 + step) * d) by lia.
  apply Z.mul_lt_mono_pos_r in Hlt; [| done]. subst n1 n2. rewrite Hk in *.
  assert (s1 * k + a < s2 * k + b + 1) by nia. nia.
Qed.

(** ** Claims *)

Section Chrono.
Context {DateTime : Type} (from_timestamp : Z -> Z -> option DateTime).
Context (seconds nanoseconds : DateTime -> Z) (limit : Z).

(** [DateTime::from_timestamp] of [chrono] accepts every second that is not too
    far from the epoch. *)
Definition chrono_accepts : Prop :=
  forall s n, - limit <= s <= limit -> 0 <= n < NSECS_PER_SEC ->
    exists dt, from_timestamp s n = Some dt /\ seconds dt = s /\ nanoseconds dt = n.

(** The product of the elapsed seconds and the distance in processor ticks fits
    64 bits, and so does the time. *)
Definition in_reach (i : CorrelationInterval) (t : Z) : Prop :=
  is_i64 (t - tsc (base i)) /\
  is_i64 ((count (prev i) - count (base i)) * (t - tsc (base i))) /\
  - limit <= exact_time i t / (tsc (prev i) - tsc (base i)) <= limit.

Lemma datetime_spec (i : CorrelationInterval) (parts t : Z) :
  0 <= limit <= I64_MAX -> chrono_accepts -> advancing i ->
  0 < parts -> (parts | NSECS_PER_SEC) -> in_reach i t ->
  exists dt, datetime from_timestamp RTC_TICKS_PER_SECOND parts i t = Ok dt /\
    rounds_down i t (seconds dt) (nanoseconds dt) (NSECS_PER_SEC / parts).
Proof.
  intros Hlimit Hchrono Hadv Hp Hdiv (Ho & Hprod & Hfar).
  destruct (elapsed_count_advancing i Hadv) as [Ee Hpos].
  destruct (datetime_parts_spec i t parts Hadv Hp Hdiv Ho Hprod) as (s & n & E & Es & Hr).
  { unfold is_i64; lia. }
  destruct (Hchrono s n) as (dt & Edt & Hs & Hn); [lia | apply Hr |].
  exists dt. unfold datetime. rewrite Ee. cbv beta iota.
  rewrite (proj2 (Z.ltb_lt _ _)) by lia.
  unfold datetime_with_resolution. rewrite E. cbv beta iota. rewrite Edt.
  split; [done |]. by rewrite Hs, Hn.
Qed.

(** C19. System time is exact: from two ticks of the real time clock, the time of
    a processor tick before, between or after them is the one linear
    interpolation gives, rounded down to the resolution asked for, and a later
    processor tick never gets an earlier time, as long as the product of the
    elapsed seconds and the distance in processor ticks fits 64 bits. *)
Theorem datetime_exact (i : CorrelationInterval) (parts : Z)
    (Hlimit : 0 <= limit <= I64_MAX)
    (Hchrono : chrono_accepts)
    (Hadv : advancing i)
    (Hparts : 0 < parts /\ (parts | NSECS_PER_SEC)) :
  (forall t, in_reach i t ->
     exists dt, datetime from_timestamp RTC_TICKS_PER_SECOND parts i t = Ok dt /\
       rounds_down i t (seconds dt) (nanoseconds dt) (NSECS_PER_SEC / parts)) /\
  (forall t1 t2 dt1 dt2, t1 <= t2 -> in_reach i t1 -> in_reach i t2 ->
     datetime from_timestamp RTC_TICKS_PER_SECOND parts i t1 = Ok dt1 ->
     datetime from_timestamp RTC_TICKS_PER_SECOND parts i t2 = Ok dt2 ->
     seconds dt1 * NSECS_PER_SEC + nanoseconds dt1 <=
     seconds dt2 * NSECS_PER_SEC + nanoseconds dt2).
Proof.
  destruct Hparts as [Hp Hdiv]. split; [intros t Ht; by apply datetime_spec |].
  intros t1 t2 dt1 dt2 Ht R1 R2 E1 E2.
  destruct (datetime_spec i parts t1) as (d1 & E1' & D1); try done.
  destruct (datetime_spec i parts t2) as (d2 & E2' & D2); try done.
  rewrite E1 in E1'. rewrite E2 in E2'. simplify_eq.
  destruct Hdiv as [k Hk]. assert (NSECS_PER_SEC / parts = k) as Es by (rewrite Hk; apply Z.div_mul; lia).
  rewrite Es in *. apply (rounds_down_mono i t1 t2 k); try done.
  - unfold NSECS_PER_SEC in Hk. nia.
  - exists parts. lia.
Qed.

(** The time of a processor tick is unavailable once the product of the
    elapsed seconds and the distance in processor ticks does not fit 64 bits:
    the conversion panics.  At three gigahertz that is so after less than
    sixteen hours of uptime. *)
Theorem datetime_overflow_panics (i : CorrelationInterval) (ticks parts t : Z)
    (Hadv : advancing i)
    (Hoffset : is_i64 (t - tsc (base i)))
    (Hproduct : ~ is_i64 ((count (prev i) - count (base i)) * (t - tsc (base i)))) :
  datetime from_timestamp ticks parts i t = Panic.
Proof.
  destruct (elapsed_count_advancing i Hadv) as [Ee Hpos].
  destruct (Hadv) as [B1 B2 B3 B4].
  unfold datetime. rewrite Ee. cbv beta iota. rewrite (proj2 (Z.ltb_lt _ _)) by lia.
  unfold datetime_with_resolution, datetime_parts.
  rewrite !(i64_ok (_ - _)) by (done || (unfold is_i64; lia)). cbv beta iota.
  unfold offset_in_ticks. destruct (Z.eqb_spec (tsc (prev i) - tsc (base i)) 0); [lia |].
  simpl negb. cbv iota. by rewrite i64_panic.
Qed.

End Chrono.

(** Moments as pairs, within 262 thousand years of the epoch. *)
Definition pair_timestamp (s n : Z) : option (Z * Z) :=
  if (Z.abs s <=? 8000000000000) && (0 <=? n) && (n <? NSECS_PER_SEC)
  then Some (s, n) else None.

Lemma pair_timestamp_accepts : chrono_accepts pair_timestamp fst snd 8000000000000.
Proof.
  intros s n Hs Hn. exists (s, n). unfold pair_timestamp.
  rewrite (proj2 (Z.leb_le _ _)), (proj2 (Z.leb_le _ _)), (proj2 (Z.ltb_lt _ _)) by lia. done.
Qed.

(** A processor of three gigahertz, ten seconds after the clock was read first. *)
Definition sample_interval : CorrelationInterval :=
  {| base := {| count := 1700000000; tsc := 6000000000 |};
     prev := {| count := 1700000010; tsc := 36000000000 |} |}.

Lemma sample_advancing : advancing sample_interval.
Proof. split; simpl; lia. Qed.

Lemma datetime_exact_witness :
  exists dt, datetime pair_timestamp RTC_TICKS_PER_SECOND 1000 sample_interval 37500000000 = Ok dt /\
    rounds_down sample_interval 37500000000 (fst dt) (snd dt) 1000000.
Proof.
  apply (proj1 (datetime_exact pair_timestamp fst snd 8000000000000 sample_interval 1000
                  ltac:(lia) pair_timestamp_accepts sample_advancing
                  ltac:(split; [lia | by exists 1000000]))).
  vm_compute. intuition congruence.
Defined.

Example sample_datetime :
  datetime pair_timestamp RTC_TICKS_PER_SECOND 1000 sample_interval 37500000000 =
    Ok (1700000010, 500000000).
Proof. vm_compute. reflexivity. Qed.

Lemma datetime_overflow_panics_witness :
  let hours := 16 * 3600 in
  let i := {| base := {| count := 1700000000; tsc := 1 |};
              prev := {| count := 1700000000 + hours; tsc := 1 + hours * 3000000000 |} |} in
  datetime pair_timestamp RTC_TICKS_PER_SECOND 1000 i (1 + hours * 3000000000) = Panic.
Proof.
  intros hours i. apply datetime_overflow_panics.
  - split; vm_compute; intuition congruence.
  - unfold is_i64. vm_compute. intuition congruence.
  - unfold is_i64. vm_compute. intuition congruence.
Defined.

(** The fraction of a tick is counted as the same fraction of a second, which
    only a clock of one tick a second makes right: on the interval timer, half a
    tick after the base is half a second instead of a fortieth. *)
Example datetime_tick_scale :
  datetime pair_timestamp PIT_TICKS_PER_SECOND NSECS_PER_SEC
    {| base := {| count := 0; tsc := 1000 |}; prev := {| count := 1; tsc := 3000 |} |} 2000 =
    Ok (0, 500000000) /\ 1000000000 / (2 * PIT_TICKS_PER_SECOND) = 25000000.
Proof. split; reflexivity. Qed.
