(* ===== verification/Rtc.v ===== *)
(** * The real time clock

    [kernel/src/time/rtc.rs]: reading the date out of the chip, which ticks
    while it is read, its formats, the set-up of the chip and the interrupt
    handler that feeds the system time of [SystemTime].  The chip is a machine [W]
    behind two ports; any access may find it one tick later.  The calendar of
    [chrono] is the parameter [naive_timestamp]. *)

From stdpp Require Import base list numbers option tactics.
From Stdlib Require Import ZArith Lia.
From S2P Require Import Prelude SystemTime VgaCursor.

Open Scope Z_scope.

(** ** Registers *)

Definition ADDRESS_PORT : Z := 0x0070.
Definition DATA_PORT : Z := 0x0071.
Definition DISABLE_NMI : Z := Z.shiftl 1 7.

Definition REGISTER_A : Z := 0xA.
Definition REGISTER_B : Z := 0xB.
Definition REGISTER_C : Z := 0xC.
Definition REGISTER_D : Z := 0xD.
Definition SECONDS_REGISTER : Z := 0x00.
Definition MINUTES_REGISTER : Z := 0x02.
Definition HOURS_REGISTER : Z := 0x04.
Definition DAY_OF_MONTH_REGISTER : Z := 0x07.
Definition MONTH_REGISTER : Z := 0x08.
Definition YEAR_REGISTER : Z := 0x09.

(** The flags of the registers [A] to [D]. *)
Definition UPDATE_IN_PROGRESS : Z := Z.shiftl 1 7.

Definition DAYLIGHT_SAVING : Z := Z.shiftl 1 0.
Definition USE_24_HOUR_FORMAT : Z := Z.shiftl 1 1.
Definition USE_BINARY_FORMAT : Z := Z.shiftl 1 2.
Definition SQUARE_WAVE : Z := Z.shiftl 1 3.
Definition UPDATE_ENDED_INTERRUPT : Z := Z.shiftl 1 4.
Definition ALARM_INTERRUPT : Z := Z.shiftl 1 5.
Definition PERIODIC_INTERRUPT : Z := Z.shiftl 1 6.
Definition SET_CLOCK : Z := Z.shiftl 1 7.

Definition VALID_RAM_AND_TIME : Z := Z.shiftl 1 7.

(** [contains] of a flag; bits without a name are dropped by
    [from_bits_truncate], which no test of a named flag notices. *)
Definition contains (bits flag : Z) : bool := Z.land bits flag =? flag.

(** ** Formats *)

Definition u8 (x : Z) : outcome Z := if (0 <=? x) && (x <? 256) then Ok x else Panic.

Definition from_bcd (x : Z) : outcome Z :=
  let? tens := u8 (x / 16 * 10) in
  u8 (tens + x mod 16).

Definition parse_value (x format : Z) : outcome Z :=
  if contains format USE_BINARY_FORMAT then Ok x else from_bcd x.

Definition parse_hour (hour format : Z) : outcome Z :=
  let hour_24 := contains format USE_24_HOUR_FORMAT in
  let is_pm := if hour_24 then false else negb (Z.land hour 0x80 =? 0) in
  let hour_value := if hour_24 then hour else Z.land hour 0x7F in
  let? hour_value :=
    (if contains format USE_BINARY_FORMAT then Ok hour_value else from_bcd hour_value) in
  if hour_24 then Ok hour_value
  else if hour_value =? 12 then Ok (if is_pm then hour_value else 0)
  else if is_pm then u8 (hour_value + 12)
  else Ok hour_value.

Record Date := {
  year : Z;
  month : Z;
  day : Z;
  hour : Z;
  minute : Z;
  second : Z;
}.

#[export] Instance Date_eq_dec : EqDecision Date.
Proof. solve_decision. Defined.

(** ** Reading *)

Section Chip.
Context {W : Type} `{PortIo W}.

Definition rtc_read (address : Z) : M W Z := fun w =>
  let '(w, x) := port_in (port_out w ADDRESS_PORT address) DATA_PORT in (w, Ok x).

Definition rtc_write (address data : Z) : M W unit := fun w =>
  (port_out (port_out w ADDRESS_PORT address) DATA_PORT data, Ok tt).

Definition is_time_valid : M W bool :=
  let! d := rtc_read REGISTER_D in
  retM (contains d VALID_RAM_AND_TIME).

Definition update_in_progress : M W bool :=
  let! a := rtc_read REGISTER_A in
  retM (contains a UPDATE_IN_PROGRESS).

(** [while update in progress { spin_loop() }], at most [fuel] polls; [None] when
    the update has not ended by then. *)
Fixpoint wait_update (fuel : nat) : M W (option unit) :=
  match fuel with
  | O => retM None
  | S fuel =>
      let! busy := update_in_progress in
      if busy then wait_update fuel else retM (Some tt)
  end.

(** The raw values of the six registers, in the order they are read. *)
Definition read_registers : M W (list Z) :=
  let! second := rtc_read SECONDS_REGISTER in
  let! minute := rtc_read MINUTES_REGISTER in
  let! hour := rtc_read HOURS_REGISTER in
  let! day := rtc_read DAY_OF_MONTH_REGISTER in
  let! month := rtc_read MONTH_REGISTER in
  let! year := rtc_read YEAR_REGISTER in
  retM [second; minute; hour; day; month; year].

Definition parse_date (settings : Z) (raw : list Z) : outcome Date :=
  match raw with
  | [second; minute; hour; day; month; year] =>
      let? second := parse_value second settings in
      let? minute := parse_value minute settings in
      let? hour := parse_hour hour settings in
      let? day := parse_value day settings in
      let? month := parse_value month settings in
      let? year := parse_value year settings in
      let full_year := if 70 <=? year then 1900 + year else 2000 + year in
      Ok {| year := full_year; month := month; day := day;
            hour := hour; minute := minute; second := second |}
  | _ => Panic
  end.

Definition read_inconsistent (settings : Z) : M W Date :=
  let! raw := read_registers in
  liftM (parse_date settings raw).

(** One round of [Date::read]: [None] is [continue] or a mismatch. *)
Definition read_twice (fuel : nat) (settings : Z) : M W (option (option Date)) :=
  let! first := read_inconsistent settings in
  let! busy := update_in_progress in
  if busy then retM (Some None)
  else
    let! waited := wait_update fuel in
    match waited with
    | None => retM None
    | Some _ =>
        let! second := read_inconsistent settings in
        let! busy := update_in_progress in
        if busy then retM (Some None)
        else retM (Some (if decide (first = second) then Some first else None))
    end.

(** The [for] loop; the outer [None] is a chip whose update does not end. *)
Fixpoint read_rounds (rounds fuel : nat) (settings : Z) : M W (option (option Date)) :=
  match rounds with
  | O => retM (Some None)
  | S rounds =>
      let! waited := wait_update fuel in
      match waited with
      | None => retM None
      | Some _ =>
          let! date := read_twice fuel settings in
          match date with
          | Some None => read_rounds rounds fuel settings
          | _ => retM date
          end
      end
  end.

Definition date_read (fuel : nat) (settings : Z) : M W (option (option Date)) :=
  let! valid := is_time_valid in
  if negb valid then retM (Some None) else read_rounds 10 fuel settings.

(** [interrupt_status] and [enable_next_interrupt]: reading the register [C]
    resets it. *)
Definition interrupt_status : M W Z := rtc_read REGISTER_C.
Definition enable_next_interrupt : M W unit :=
  let! _ := interrupt_status in retM tt.

(** *** The time stamp *)

Context (naive_timestamp : Date -> option Z).

Definition DATE_DEFAULT : Date :=
  {| year := 0; month := 0; day := 0; hour := 0; minute := 0; second := 0 |}.

(** [NaiveDateTime::try_from(date)] and its time stamp. *)
Definition date_timestamp (date : Date) : outcome Z :=
  if decide (date = DATE_DEFAULT) then Ok 0
  else ok_or (naive_timestamp date) InvalidArgument.

Definition timestamp (fuel : nat) (settings : Z) : M W (option (option Z)) :=
  let! date := date_read fuel settings in
  match date with
  | None => retM None
  | Some None => retM (Some None)
  | Some (Some date) =>
      match date_timestamp date with
      | Ok t => retM (Some (Some t))
      | _ => retM (Some None)
      end
  end.

(** *** The interrupt handler and the set-up

    The state the handler shares with the rest of the kernel: the copy of the
    settings, the prediction error and the interval of the system time.  The
    arguments [now] are the processor ticks read, in order. *)

Record Rtc := {
  chip : W;
  SETTINGS : Z;
  ERROR : Z;
  rtc : CorrelationInterval;
}.

Definition on_chip {A} (c : M W A) : M Rtc A := fun s =>
  let '(w, r) := c (chip s) in
  ({| chip := w; SETTINGS := SETTINGS s; ERROR := ERROR s; rtc := rtc s |}, r).
Definition put_settings (x : Z) : M Rtc unit := fun s =>
  ({| chip := chip s; SETTINGS := x; ERROR := ERROR s; rtc := rtc s |}, Ok tt).
Definition put_error (x : Z) : M Rtc unit := fun s =>
  ({| chip := chip s; SETTINGS := SETTINGS s; ERROR := x; rtc := rtc s |}, Ok tt).
Definition put_rtc (i : CorrelationInterval) : M Rtc unit := fun s =>
  ({| chip := chip s; SETTINGS := SETTINGS s; ERROR := ERROR s; rtc := i |}, Ok tt).

Context {DateTime : Type} (from_timestamp : Z -> Z -> option DateTime).
(** [(a - b).num_nanoseconds()] and [a < b] of [chrono]. *)
Context (sub_nanoseconds : DateTime -> DateTime -> option Z).
Context (earlier : DateTime -> DateTime -> bool).

Definition system_time (t : Z) : M Rtc DateTime := fun s =>
  (s, SystemTime.datetime from_timestamp RTC_TICKS_PER_SECOND NSECS_PER_SEC (rtc s) t).

(** The part of [interrupt] after a time stamp has been read. *)
Definition correct_time (ts now : Z) : M Rtc unit :=
  let! count := liftM (i64 (ts * RTC_TICKS_PER_SECOND)) in
  let! point := liftM (point_now count now) in
  let! s := getM in
  let! _ := put_rtc (init_base point (rtc s)) in
  let! before_correction := system_time now in
  let! s := getM in
  let! _ := put_rtc (store_prev point (rtc s)) in
  let! after_correction := system_time now in
  match sub_nanoseconds before_correction after_correction with
  | Some error => put_error error
  | None =>
      if earlier before_correction after_correction
      then put_error I64_MIN else put_error I64_MAX
  end.

(** [None] is a chip whose update does not end. *)
Definition interrupt (fuel : nat) (now : Z) : M Rtc (option unit) :=
  let! status := on_chip interrupt_status in
  if contains status UPDATE_ENDED_INTERRUPT then
    let! s := getM in
    let! ts := on_chip (timestamp fuel (SETTINGS s)) in
    match ts with
    | None => retM None
    | Some None => retM (Some tt)
    | Some (Some ts) => let! _ := correct_time ts now in retM (Some tt)
    end
  else retM (Some tt).

(** The messages of [init] to the log are left out. *)
Definition rtc_init (fuel : nat) : M Rtc (option unit) :=
  let address := Z.lor DISABLE_NMI REGISTER_B in
  let! old_settings := on_chip (rtc_read address) in
  let new_settings := Z.lor old_settings UPDATE_ENDED_INTERRUPT in
  let! _ := on_chip (rtc_write address new_settings) in
  let! acknowledged_settings := on_chip (rtc_read address) in
  let! _ := put_settings acknowledged_settings in
  let! _ := on_chip (rtc_read (lnot8 DISABLE_NMI)) in
  if acknowledged_settings =? new_settings then
    let! s := getM in
    let! ts := on_chip (timestamp fuel (SETTINGS s)) in
    match ts with
    | None => retM None
    | Some ts =>
        let! count := liftM (i64 (default 0 ts * RTC_TICKS_PER_SECOND)) in
        let! point := liftM (point_invalid count) in
        let! s := getM in
        let! _ := put_rtc (store_prev point (rtc s)) in
        let! _ := on_chip is_time_valid in
        retM (Some tt)
    end
  else retM (Some tt).

End Chip.

(** ** The formats are read back *)

Definition to_bcd (x : Z) : Z := x / 10 * 16 + x mod 10.

Definition encode_value (format x : Z) : Z :=
  if contains format USE_BINARY_FORMAT then x else to_bcd x.

(** Twelve o'clock is 12 in the twelve-hour format, and the highest bit marks the
    afternoon. *)
Definition encode_hour (format h : Z) : Z :=
  if contains format USE_24_HOUR_FORMAT then encode_value format h
  else Z.lor (encode_value format ((h + 11) mod 12 + 1)) (if h <? 12 then 0 else 0x80).

Definition encode_date (format : Z) (d : Date) : list Z :=
  [encode_value format (second d); encode_value format (minute d);
   encode_hour format (hour d); encode_value format (day d);
   encode_value format (month d); encode_value format (year d mod 100)].

(** The dates the chip can hold: its year has two digits. *)
Record date_valid (d : Date) : Prop := {
  valid_year : 1970 <= year d < 2070;
  valid_month : 1 <= month d <= 12;
  valid_day : 1 <= day d <= 31;
  valid_hour : 0 <= hour d < 24;
  valid_minute : 0 <= minute d < 60;
  valid_second : 0 <= second d < 60;
}.

Lemma u8_ok x : 0 <= x < 256 -> u8 x = Ok x.
Proof.
  intros Hx. unfold u8. by rewrite (proj2 (Z.leb_le _ _)), (proj2 (Z.ltb_lt _ _)) by lia.
Qed.

Lemma parse_encode_value format x :
  0 <= x < 100 -> parse_value (encode_value format x) format = Ok x.
Proof.
  intros Hx. unfold parse_value, encode_value.
  destruct (contains format USE_BINARY_FORMAT); [done |]. unfold from_bcd, to_bcd.
  assert (E1 : (x / 10 * 16 + x mod 10) / 16 = x / 10) by (Z.div_mod_to_equations; lia).
  assert (E2 : (x / 10 * 16 + x mod 10) mod 16 = x mod 10) by (Z.div_mod_to_equations; lia).
  rewrite E1, E2, u8_ok by (Z.div_mod_to_equations; lia). cbv beta iota.
  rewrite u8_ok by (Z.div_mod_to_equations; lia). f_equal. Z.div_mod_to_equations; lia.
Qed.

Lemma parse_encode_hour format h :
  0 <= h < 24 -> parse_hour (encode_hour format h) format = Ok h.
Proof.
  intros Hh. unfold parse_hour, encode_hour, encode_value.
  assert (Hin : h ∈ seqZ 0 24) by (apply elem_of_seqZ; lia). revert h Hin Hh.
  destruct (contains format USE_24_HOUR_FORMAT), (contains format USE_BINARY_FORMAT);
    intros h Hin _; pattern h;
    refine (proj1 (list.Forall_forall _ (seqZ 0 24)) _ h Hin);
    let l := eval vm_compute in (seqZ 0 24) in change (seqZ 0 24) with l;
    repeat (apply list.Forall_cons_2; [vm_compute; reflexivity |]); apply list.Forall_nil_2.
Qed.

Lemma parse_encode_date format d :
  date_valid d -> parse_date format (encode_date format d) = Ok d.
Proof.
  intros []. unfold parse_date, encode_date.
  rewrite !parse_encode_value, parse_encode_hour by (try lia; Z.div_mod_to_equations; lia).
  cbv beta iota. destruct d as [y mo da ho mi se]. simpl in *. f_equal. f_equal.
  destruct (Z.leb_spec 70 (y mod 100)); Z.div_mod_to_equations; lia.
Qed.

(** ** Reading a ticking chip *)

Definition time_registers : list Z :=
  [SECONDS_REGISTER; MINUTES_REGISTER; HOURS_REGISTER;
   DAY_OF_MONTH_REGISTER; MONTH_REGISTER; YEAR_REGISTER].

(** [ticks w] counts the ticks of the chip so far, and [clock n a] is the register
    [a] after [n] ticks.  An access returns what the register holds at some
    moment while it runs. *)
Class RtcChip (W : Type) `{PortIo W} (ticks : W -> Z) (clock : Z -> Z -> Z) := {
  rtc_read_ok : forall w a, exists w' x, rtc_read a w = (w', Ok x);
  rtc_read_mono : forall w a w' x, rtc_read a w = (w', Ok x) -> ticks w <= ticks w';
  rtc_read_clock : forall w a w' x, a ∈ time_registers -> rtc_read a w = (w', Ok x) ->
    exists n, ticks w <= n <= ticks w' /\ x = clock n a;
}.

Section Consistent.
Context {W : Type} `{PortIo W} (ticks : W -> Z) (clock : Z -> Z -> Z).
Context `{!RtcChip W ticks clock}.

(** The six registers after [n] ticks. *)
Definition clock_registers (n : Z) : list Z := clock n <$> time_registers.

(** The operation does not move the chip back in time. *)
Definition forward {A} (c : M W A) : Prop := forall w, ticks w <= ticks (c w).1.

Lemma forward_read a : forward (rtc_read a).
Proof.
  intros w. destruct (rtc_read_ok w a) as (w' & x & E). rewrite E. by eapply rtc_read_mono.
Qed.

Lemma forward_lift {A} (r : outcome A) : forward (liftM r).
Proof. intros w. simpl. lia. Qed.

Lemma forward_ret {A} (a : A) : forward (retM a).
Proof. intros w. simpl. lia. Qed.

Lemma forward_bind {A B} (c : M W A) (k : A -> M W B) :
  forward c -> (forall a, forward (k a)) -> forward (let! x := c in k x).
Proof.
  intros Hc Hk w. specialize (Hc w). unfold bindM. destruct (c w) as [w1 [a | |]]; try done.
  specialize (Hk a w1). simpl in Hc. lia.
Qed.

#[local] Hint Resolve forward_read forward_lift forward_ret forward_bind : nikka.

Lemma forward_update : forward update_in_progress.
Proof. unfold update_in_progress. auto with nikka. Qed.

Lemma forward_wait fuel : forward (wait_update fuel).
Proof.
  induction fuel as [|fuel IH]; simpl; [apply forward_ret |].
  apply forward_bind; [apply forward_update |]. intros []; [done | apply forward_ret].
Qed.

Lemma forward_inconsistent settings : forward (read_inconsistent settings).
Proof.
  unfold read_inconsistent, read_registers.
  repeat (apply forward_bind; [auto with nikka | intros ?]); auto with nikka.
Qed.

(** The accesses to a list of registers in turn. *)
Fixpoint read_list (l : list Z) : M W (list Z) :=
  match l with
  | [] => retM []
  | a :: l => let! x := rtc_read a in let! xs := read_list l in retM (x :: xs)
  end.

Lemma read_registers_list w : read_registers w = read_list time_registers w.
Proof.
  unfold read_registers, time_registers, read_list, bindM, retM.
  repeat (match goal with |- context [rtc_read ?a ?w] =>
            destruct (rtc_read a w) as [? [? | |]]; [| done | done] end).
  done.
Qed.

Lemma forward_list l : forward (read_list l).
Proof. induction l; simpl; auto 10 with nikka. Qed.

(** Accesses while the chip does not tick. *)
Lemma read_list_still n l : forall w w' raw,
  (forall a, a ∈ l -> a ∈ time_registers) ->
  read_list l w = (w', Ok raw) -> n <= ticks w -> ticks w' <= n -> raw = clock n <$> l.
Proof.
  induction l as [|a l IH]; intros w w' raw Hl E Hn Hn'; simpl in E.
  - by injection E as <- <-.
  - unfold bindM at 1 in E. destruct (rtc_read_ok w a) as (w1 & x & E1). rewrite E1 in E.
    unfold bindM, retM in E. pose proof (rtc_read_mono _ _ _ _ E1).
    pose proof (forward_list l w1) as Hf.
    destruct (read_list l w1) as [w2 [xs | |]] eqn:E2; try discriminate.
    injection E as <- <-. simpl in Hf.
    destruct (rtc_read_clock w a w1 x (Hl a ltac:(by left)) E1) as (m & Hm & ->).
    rewrite (IH w1 w2 xs); [| intros b Hb; apply Hl; by right | done | lia | lia].
    simpl. do 2 f_equal. lia.
Qed.

Lemma read_inconsistent_still settings w w' d :
  read_inconsistent settings w = (w', Ok d) -> ticks w' <= ticks w ->
  parse_date settings (clock_registers (ticks w)) = Ok d.
Proof.
  unfold read_inconsistent, bindM. rewrite read_registers_list. intros E Ht.
  destruct (read_list time_registers w) as [w1 [raw | |]] eqn:E1; try discriminate.
  injection E as <- <-.
  by rewrite (read_list_still (ticks w) time_registers w w1 raw) by (done || lia).
Qed.

(** Two reads that agree while the chip ticks at most once show the clock of one
    moment: the tick spares one of them. *)
Lemma read_twice_consistent fuel settings w w' d :
  read_twice fuel settings w = (w', Ok (Some (Some d))) -> ticks w' <= ticks w + 1 ->
  exists n, ticks w <= n <= ticks w' /\ parse_date settings (clock_registers n) = Ok d.
Proof.
  unfold read_twice. intros E Ht. unfold bindM at 1 in E.
  pose proof (forward_inconsistent settings w) as F1.
  destruct (read_inconsistent settings w) as [w1 [first | |]] eqn:E1; try discriminate.
  unfold bindM at 1 in E. pose proof (forward_update w1) as F2.
  destruct (update_in_progress w1) as [w2 [[] | |]] eqn:E2; try discriminate.
  unfold bindM at 1 in E. pose proof (forward_wait fuel w2) as F3.
  destruct (wait_update fuel w2) as [w3 [[[]|] | |]] eqn:E3; try discriminate.
  unfold bindM at 1 in E. pose proof (forward_inconsistent settings w3) as F4.
  destruct (read_inconsistent settings w3) as [w4 [second | |]] eqn:E4; try discriminate.
  unfold bindM in E. pose proof (forward_update w4) as F5.
  destruct (update_in_progress w4) as [w5 [[] | |]] eqn:E5; try discriminate.
  unfold retM in E. destruct (decide (first = second)); [| discriminate]. simplify_eq.
  simpl in *. destruct (decide (ticks w1 <= ticks w)).
  - exists (ticks w). split; [lia |]. by apply (read_inconsistent_still settings w w1).
  - exists (ticks w3). split; [lia |]. apply (read_inconsistent_still settings w3 w4); [done | lia].
Qed.

Lemma forward_twice fuel settings : forward (read_twice fuel settings).
Proof.
  unfold read_twice. apply forward_bind; [apply forward_inconsistent | intros first].
  apply forward_bind; [apply forward_update | intros []; [apply forward_ret |]].
  apply forward_bind; [apply forward_wait | intros [|]; [| apply forward_ret]].
  apply forward_bind; [apply forward_inconsistent | intros second].
  apply forward_bind; [apply forward_update | intros []; apply forward_ret].
Qed.

Lemma read_rounds_consistent fuel settings rounds : forall w w' d,
  (forall w, ticks (read_twice fuel settings w).1 <= ticks w + 1) ->
  read_rounds rounds fuel settings w = (w', Ok (Some (Some d))) ->
  exists n, ticks w <= n <= ticks w' /\ parse_date settings (clock_registers n) = Ok d.
Proof.
  induction rounds as [|rounds IH]; intros w w' d Hslow E; simpl in E; [discriminate |].
  unfold bindM at 1 in E. pose proof (forward_wait fuel w) as F1.
  destruct (wait_update fuel w) as [w1 [[[]|] | |]] eqn:E1; try discriminate.
  unfold bindM at 1 in E. pose proof (forward_twice fuel settings w1) as F2.
  specialize (Hslow w1) as Ht.
  destruct (read_twice fuel settings w1) as [w2 [[[date|]|] | |]] eqn:E2; try discriminate.
  - unfold retM in E. simplify_eq.
    destruct (read_twice_consistent fuel settings w1 w' d E2 Ht) as (n & Hn & Hd).
    exists n. simpl in *. split; [lia | done].
  - destruct (IH w2 w' d Hslow E) as (n & Hn & Hd). exists n. simpl in *. split; [lia | done].
Qed.

Lemma date_read_consistent_spec fuel settings w w' d :
  (forall w, ticks (read_twice fuel settings w).1 <= ticks w + 1) ->
  date_read fuel settings w = (w', Ok (Some (Some d))) ->
  exists n, ticks w <= n <= ticks w' /\ parse_date settings (clock_registers n) = Ok d.
Proof.
  unfold date_read, is_time_valid. intros Hslow E. unfold bindM at 1, bindM at 1 in E.
  pose proof (forward_read REGISTER_D w) as F.
  destruct (rtc_read REGISTER_D w) as [w1 [x | |]] eqn:E1; try discriminate.
  unfold retM in E. destruct (contains x VALID_RAM_AND_TIME); [| discriminate].
  destruct (read_rounds_consistent fuel settings 10 w1 w' d Hslow E) as (n & Hn & Hd).
  exists n. simpl in *. split; [lia | done].
Qed.

End Consistent.

(** *** A chip between two ticks *)

Section Still.
Context {W : Type} `{PortIo W} (still : W -> Prop) (value : Z -> Z).

(** While [still] holds, the registers keep their values. *)
Definition holds_still : Prop :=
  forall w a, still w -> exists w', rtc_read a w = (w', Ok (value a)) /\ still w'.

Context (Hstill : holds_still).
Context (Hidle : contains (value REGISTER_A) UPDATE_IN_PROGRESS = false).

Lemma still_update w : still w ->
  exists w', update_in_progress w = (w', Ok false) /\ still w'.
Proof.
  intros Hw. destruct (Hstill w REGISTER_A Hw) as (w' & E & Hw'). exists w'.
  unfold update_in_progress, bindM, retM. by rewrite E, Hidle.
Qed.

Lemma still_wait fuel w : still w ->
  exists w', wait_update (S fuel) w = (w', Ok (Some tt)) /\ still w'.
Proof.
  intros Hw. destruct (still_update w Hw) as (w' & E & Hw'). exists w'.
  simpl. unfold bindM, retM. by rewrite E.
Qed.

Lemma still_list l : forall w, still w ->
  exists w', read_list l w = (w', Ok (value <$> l)) /\ still w'.
Proof.
  induction l as [|a l IH]; intros w Hw; [by exists w |].
  destruct (Hstill w a Hw) as (w1 & E1 & Hw1). destruct (IH w1 Hw1) as (w2 & E2 & Hw2).
  exists w2. simpl. unfold bindM, retM. by rewrite E1, E2.
Qed.

Lemma still_inconsistent settings d w :
  parse_date settings (value <$> time_registers) = Ok d -> still w ->
  exists w', read_inconsistent settings w = (w', Ok d) /\ still w'.
Proof.
  intros Hd Hw. destruct (still_list time_registers w Hw) as (w' & E & Hw'). exists w'.
  unfold read_inconsistent, bindM, liftM. rewrite read_registers_list, E. by rewrite Hd.
Qed.

Lemma still_twice fuel settings d w :
  parse_date settings (value <$> time_registers) = Ok d -> still w ->
  exists w', read_twice (S fuel) settings w = (w', Ok (Some (Some d))) /\ still w'.
Proof.
  intros Hd Hw.
  destruct (still_inconsistent settings d w Hd Hw) as (w1 & E1 & H1).
  destruct (still_update w1 H1) as (w2 & E2 & H2).
  destruct (still_wait fuel w2 H2) as (w3 & E3 & H3).
  destruct (still_inconsistent settings d w3 Hd H3) as (w4 & E4 & H4).
  destruct (still_update w4 H4) as (w5 & E5 & H5).
  exists w5. unfold read_twice, bindM, retM. rewrite E1, E2, E3, E4, E5.
  by destruct (decide (d = d)).
Qed.

Lemma still_date_read fuel settings d w :
  contains (value REGISTER_D) VALID_RAM_AND_TIME = true ->
  parse_date settings (value <$> time_registers) = Ok d -> still w ->
  exists w', date_read (S fuel) settings w = (w', Ok (Some (Some d))) /\ still w'.
Proof.
  intros Hv Hd Hw. destruct (Hstill w REGISTER_D Hw) as (w1 & E1 & H1).
  destruct (still_wait fuel w1 H1) as (w2 & E2 & H2).
  destruct (still_twice fuel settings d w2 Hd H2) as (w3 & E3 & H3).
  exists w3. unfold date_read, is_time_valid, bindM at 1, bindM at 1, retM. rewrite E1, Hv.
  cbn [negb read_rounds]. unfold bindM at 1. rewrite E2. unfold bindM. by rewrite E3.
Qed.

End Still.

(** *** The interrupt handler keeps the system time in step *)

Section Interrupt.
Context {W : Type} `{PortIo W}.
Context {DateTime : Type} (from_timestamp : Z -> Z -> option DateTime).
Context (seconds nanoseconds : DateTime -> Z) (limit : Z).
Context (sub_nanoseconds : DateTime -> DateTime -> option Z).
Context (earlier : DateTime -> DateTime -> bool).
Context (Hlimit : 0 <= limit <= I64_MAX).
Context (Hchrono : chrono_accepts from_timestamp seconds nanoseconds limit).

(** An interval from which the time of the processor tick [t] can be told: the
    clock has ticked twice, or else the last reading of the clock is used. *)
Definition readable (i : CorrelationInterval) (t : Z) : Prop :=
  (elapsed_count i = Ok 0 /\ 0 <= count (prev i) <= limit) \/
  (advancing i /\ in_reach limit i t).

Lemma readable_datetime i t :
  readable i t ->
  exists dt, SystemTime.datetime from_timestamp RTC_TICKS_PER_SECOND NSECS_PER_SEC i t = Ok dt.
Proof.
  intros [[E Hc] | [Hadv Hr]].
  - unfold SystemTime.datetime. rewrite E. simpl. unfold i64_div, RTC_TICKS_PER_SECOND. simpl.
    rewrite Z.quot_1_r, i64_ok by (unfold is_i64; lia).
    destruct (Hchrono (count (prev i)) 0) as (dt & Edt & _); [lia | done |].
    exists dt. by rewrite Edt.
  - destruct (datetime_spec from_timestamp seconds nanoseconds limit i NSECS_PER_SEC t)
      as (dt & E & _); try done. by exists dt.
Qed.

(** At the last tick of the clock the system time is the time of the clock. *)
Lemma readable_at_tick i :
  readable i (tsc (prev i)) ->
  exists dt, SystemTime.datetime from_timestamp RTC_TICKS_PER_SECOND NSECS_PER_SEC i (tsc (prev i)) = Ok dt /\
    seconds dt = count (prev i) /\ nanoseconds dt = 0.
Proof.
  intros [[E Hc] | [Hadv Hr]].
  - unfold SystemTime.datetime. rewrite E. simpl. unfold i64_div, RTC_TICKS_PER_SECOND. simpl.
    rewrite Z.quot_1_r, i64_ok by (unfold is_i64; lia).
    destruct (Hchrono (count (prev i)) 0) as (dt & Edt & Es & En); [lia | done |].
    exists dt. by rewrite Edt.
  - destruct (datetime_spec from_timestamp seconds nanoseconds limit i NSECS_PER_SEC (tsc (prev i)))
      as (dt & E & Hn & _ & Hl & Hu); try done.
    exists dt. split; [done |]. destruct Hadv as [_ _ _ Hd].
    set (d := tsc (prev i) - tsc (base i)) in *.
    assert (Ex : exact_time i (tsc (prev i)) = count (prev i) * d) by (unfold exact_time; fold d; lia).
    rewrite Ex in Hl, Hu. change (NSECS_PER_SEC / NSECS_PER_SEC) with 1 in Hu.
    set (v := seconds dt * NSECS_PER_SEC + nanoseconds dt) in *.
    assert (Hv : v = count (prev i) * NSECS_PER_SEC).
    { assert (v * d <= count (prev i) * NSECS_PER_SEC * d < (v + 1) * d) as [L U] by lia.
      apply Z.mul_le_mono_pos_r in L; [| lia]. apply Z.mul_lt_mono_pos_r in U; lia. }
    unfold v, NSECS_PER_SEC in *. lia.
Qed.

Lemma correct_time_spec (s : Rtc (W := W)) ts now p :
  p = {| count := ts; tsc := now |} -> 0 <= ts <= I64_MAX -> 0 <= now ->
  readable (init_base p (rtc s)) now ->
  readable (store_prev p (init_base p (rtc s))) now ->
  exists s', correct_time from_timestamp sub_nanoseconds earlier ts now s = (s', Ok tt) /\
    rtc s' = store_prev p (init_base p (rtc s)) /\ chip s' = chip s /\ SETTINGS s' = SETTINGS s.
Proof.
  intros -> Hts Hnow Hb Ha.
  destruct (readable_datetime _ _ Hb) as (before & Eb).
  destruct (readable_datetime _ _ Ha) as (after & Ea).
  unfold correct_time, bindM at 1, liftM. unfold RTC_TICKS_PER_SECOND at 1.
  rewrite Z.mul_1_r, i64_ok by (unfold is_i64; lia).
  unfold bindM at 1, point_now, point_new.
  rewrite (proj2 (Z.leb_le 0 ts)), (proj2 (Z.leb_le 0 now)) by lia.
  unfold getM, system_time, bindM, put_rtc. simpl rtc. rewrite Eb. simpl rtc. rewrite Ea.
  destruct (sub_nanoseconds before after); [| destruct (earlier before after)];
    (eexists; split; [done |]; done).
Qed.

End Interrupt.

(** ** Claims *)

(** C20. The date read from the clock is a date it has shown: if two reads of one
    round span at most one tick of the chip, a date [Date::read] returns is, as a
    whole, the contents of the registers at one moment during the read, even when
    the chip ticks between the accesses to the registers. *)
Theorem rtc_date_consistent {W : Type} `{PortIo W} (ticks : W -> Z) (clock : Z -> Z -> Z)
    (fuel : nat) (settings : Z) (w w' : W) (d : Date)
    (Hchip : RtcChip W ticks clock)
    (Hslow : forall w, ticks (read_twice fuel settings w).1 <= ticks w + 1)
    (Hread : date_read fuel settings w = (w', Ok (Some (Some d)))) :
  exists n, ticks w <= n <= ticks w' /\
    parse_date settings (clock_registers clock n) = Ok d.
Proof. by eapply date_read_consistent_spec. Qed.

(** C37. A chip that holds a date of the years 1970 to 2069, in any of its four
    formats, is read correctly: between two ticks, with a charged battery,
    [Date::read] returns that date in its first round. *)
Theorem rtc_date_roundtrip {W : Type} `{PortIo W} (still : W -> Prop) (value : Z -> Z)
    (fuel : nat) (settings : Z) (w : W) (d : Date)
    (Hstill : holds_still still value)
    (Hidle : contains (value REGISTER_A) UPDATE_IN_PROGRESS = false)
    (Hbattery : contains (value REGISTER_D) VALID_RAM_AND_TIME = true)
    (Hvalid : date_valid d)
    (Hdate : value <$> time_registers = encode_date settings d)
    (Hw : still w) :
  exists w', date_read (S fuel) settings w = (w', Ok (Some (Some d))) /\ still w'.
Proof.
  apply (still_date_read still value Hstill Hidle); [done | | done].
  rewrite Hdate. by apply parse_encode_date.
Qed.

(** C21. The interrupt of the clock puts the system time in step with it: the
    handler, having read the time stamp [ts] at the processor tick [now], does
    not fail while the interval can be read, keeps the first point of the
    interval, and leaves an interval in which the system time of [now] is
    exactly [ts]. *)
Theorem rtc_interrupt_synchronises {W : Type} `{PortIo W} {DateTime : Type}
    (from_timestamp : Z -> Z -> option DateTime) (seconds nanoseconds : DateTime -> Z) (limit : Z)
    (sub_nanoseconds : DateTime -> DateTime -> option Z)
    (earlier : DateTime -> DateTime -> bool)
    (naive_timestamp : Date -> option Z)
    (fuel : nat) (s s1 : Rtc (W := W)) (status ts now : Z)
    (Hlimit : 0 <= limit <= I64_MAX)
    (Hchrono : chrono_accepts from_timestamp seconds nanoseconds limit)
    (Hstatus : on_chip interrupt_status s = (s1, Ok status) /\
               contains status UPDATE_ENDED_INTERRUPT = true)
    (Hstamp : (timestamp naive_timestamp fuel (SETTINGS s1) (chip s1)).2 = Ok (Some (Some ts)))
    (Hts : 0 <= ts <= I64_MAX) (Hnow : 0 <= now)
    (Hbefore : readable limit (init_base {| count := ts; tsc := now |} (rtc s)) now)
    (Hafter : readable limit (store_prev {| count := ts; tsc := now |}
                (init_base {| count := ts; tsc := now |} (rtc s))) now) :
  exists s',
    interrupt naive_timestamp from_timestamp sub_nanoseconds earlier fuel now s =
      (s', Ok (Some tt)) /\
    prev (rtc s') = {| count := ts; tsc := now |} /\
    base (rtc s') = (if is_valid (base (rtc s)) then base (rtc s)
                     else {| count := ts; tsc := now |}) /\
    exists dt,
      SystemTime.datetime from_timestamp RTC_TICKS_PER_SECOND NSECS_PER_SEC (rtc s') now = Ok dt /\
      seconds dt = ts /\ nanoseconds dt = 0.
Proof.
  destruct Hstatus as [Es Hc].
  assert (Hr1 : rtc s1 = rtc s).
  { unfold on_chip in Es. destruct (interrupt_status (chip s)). by injection Es as <- _. }
  destruct (timestamp naive_timestamp fuel (SETTINGS s1) (chip s1)) as [w2 r2] eqn:E2.
  simpl in Hstamp. subst r2.
  set (s2 := {| chip := w2; SETTINGS := SETTINGS s1; ERROR := ERROR s1; rtc := rtc s1 |}).
  destruct (correct_time_spec from_timestamp seconds nanoseconds limit sub_nanoseconds earlier
              Hlimit Hchrono s2 ts now {| count := ts; tsc := now |})
    as (s' & E' & Hrtc & _); try done; [simpl; by rewrite Hr1 | simpl; by rewrite Hr1 |].
  exists s'. simpl in Hrtc. rewrite Hr1 in Hrtc. split; [| split; [by rewrite Hrtc | split]].
  - unfold interrupt, bindM at 1. rewrite Es, Hc. unfold bindM, getM. 
    unfold on_chip at 1. rewrite E2. fold s2. rewrite E'. done.
  - rewrite Hrtc. unfold init_base. simpl. by destruct (is_valid (base (rtc s))).
  - rewrite Hrtc.
    destruct (readable_at_tick from_timestamp seconds nanoseconds limit Hlimit Hchrono _ Hafter)
      as (dt & Edt & Hs & Hn). by exists dt.
Qed.

(** ** A chip that ticks once while it is read

    New Year's Eve: the chip moves to the next second after its fifth access. *)

Record SampleChip := { sample_latch : Z; sample_accesses : Z }.

Definition sample_ticks (w : SampleChip) : Z := if sample_accesses w <? 5 then 0 else 1.

Definition old_year : Date :=
  {| year := 2023; month := 12; day := 31; hour := 23; minute := 59; second := 59 |}.
Definition new_year : Date :=
  {| year := 2024; month := 1; day := 1; hour := 0; minute := 0; second := 0 |}.

Definition sample_clock (n a : Z) : Z :=
  let date := encode_date USE_24_HOUR_FORMAT (if n =? 0 then old_year else new_year) in
  if a =? REGISTER_D then 0x80
  else if a =? REGISTER_C then 0x90
  else if a =? SECONDS_REGISTER then nth 0 date 0
  else if a =? MINUTES_REGISTER then nth 1 date 0
  else if a =? HOURS_REGISTER then nth 2 date 0
  else if a =? DAY_OF_MONTH_REGISTER then nth 3 date 0
  else if a =? MONTH_REGISTER then nth 4 date 0
  else if a =? YEAR_REGISTER then nth 5 date 0
  else 0.

#[export] Instance SampleChip_io : PortIo SampleChip := {
  port_in := fun w _ =>
    ({| sample_latch := sample_latch w; sample_accesses := sample_accesses w + 1 |},
     sample_clock (sample_ticks w) (sample_latch w));
  port_out := fun w _ a => {| sample_latch := a; sample_accesses := sample_accesses w |};
}.

Lemma SampleChip_laws : RtcChip SampleChip sample_ticks sample_clock.
Proof.
  split.
  - intros w a. by eexists _, _.
  - intros w a w' x E. unfold rtc_read in E. simpl in E. simplify_eq.
    unfold sample_ticks. simpl.
    destruct (Z.ltb_spec (sample_accesses w) 5), (Z.ltb_spec (sample_accesses w + 1) 5); lia.
  - intros w a w' x _ E. unfold rtc_read in E. simpl in E. simplify_eq.
    exists (sample_ticks w). split; [| done]. unfold sample_ticks. simpl.
    destruct (Z.ltb_spec (sample_accesses w) 5), (Z.ltb_spec (sample_accesses w + 1) 5); lia.
Qed.

Lemma sample_ticks_bound w : 0 <= sample_ticks w <= 1.
Proof. unfold sample_ticks. destruct (_ <? _); lia. Qed.

Example sample_read :
  date_read 3 USE_24_HOUR_FORMAT {| sample_latch := 0; sample_accesses := 0 |} =
    ({| sample_latch := REGISTER_A; sample_accesses := 33 |}, Ok (Some (Some new_year))).
Proof. vm_compute. reflexivity. Qed.

Lemma rtc_date_consistent_witness :
  exists n,
    sample_ticks {| sample_latch := 0; sample_accesses := 0 |} <= n <=
      sample_ticks {| sample_latch := REGISTER_A; sample_accesses := 33 |} /\
    parse_date USE_24_HOUR_FORMAT (clock_registers sample_clock n) = Ok new_year.
Proof.
  apply (rtc_date_consistent sample_ticks sample_clock 3 USE_24_HOUR_FORMAT
    {| sample_latch := 0; sample_accesses := 0 |}
    {| sample_latch := REGISTER_A; sample_accesses := 33 |} new_year SampleChip_laws).
  - intros w. pose proof (sample_ticks_bound w).
    pose proof (sample_ticks_bound (read_twice 3 USE_24_HOUR_FORMAT w).1). lia.
  - exact sample_read.
Defined.

Lemma rtc_date_roundtrip_witness :
  exists w', date_read 3 USE_24_HOUR_FORMAT {| sample_latch := 0; sample_accesses := 5 |} =
      (w', Ok (Some (Some new_year))) /\ 5 <= sample_accesses w'.
Proof.
  apply (rtc_date_roundtrip (fun w => 5 <= sample_accesses w) (sample_clock 1) 2
           USE_24_HOUR_FORMAT {| sample_latch := 0; sample_accesses := 5 |} new_year).
  - intros w a Hw. exists {| sample_latch := a; sample_accesses := sample_accesses w + 1 |}.
    split; [| simpl; lia]. unfold rtc_read, sample_ticks. simpl. unfold sample_ticks. simpl.
    by destruct (Z.ltb_spec (sample_accesses w) 5); [lia |].
  - reflexivity.
  - reflexivity.
  - split; simpl; lia.
  - reflexivity.
  - simpl. lia.
Defined.

(** The interrupt at the new year, ten seconds after the first one. *)
Definition sample_state : Rtc (W := SampleChip) :=
  {| chip := {| sample_latch := 0; sample_accesses := 5 |};
     SETTINGS := USE_24_HOUR_FORMAT; ERROR := 0;
     rtc := {| base := {| count := 1704067190; tsc := 6000000000 |};
               prev := {| count := 1704067199; tsc := 33000000000 |} |} |}.

Definition sample_naive (d : Date) : option Z :=
  if decide (d = new_year) then Some 1704067200 else None.

Definition pair_sub (a b : Z * Z) : option Z :=
  let x := (a.1 - b.1) * NSECS_PER_SEC + (a.2 - b.2) in
  if fits_i64 x then Some x else None.
Definition pair_earlier (a b : Z * Z) : bool :=
  (a.1 <? b.1) || ((a.1 =? b.1) && (a.2 <? b.2)).

Lemma rtc_interrupt_synchronises_witness :
  exists s',
    interrupt sample_naive pair_timestamp pair_sub pair_earlier 3 36000000000 sample_state =
      (s', Ok (Some tt)) /\
    prev (rtc s') = {| count := 1704067200; tsc := 36000000000 |} /\
    base (rtc s') = {| count := 1704067190; tsc := 6000000000 |} /\
    exists dt,
      SystemTime.datetime pair_timestamp RTC_TICKS_PER_SECOND NSECS_PER_SEC (rtc s') 36000000000 = Ok dt /\
      fst dt = 1704067200 /\ snd dt = 0.
Proof.
  apply (rtc_interrupt_synchronises pair_timestamp fst snd 8000000000000 pair_sub pair_earlier
           sample_naive 3 sample_state (on_chip interrupt_status sample_state).1 0x90
           1704067200 36000000000 ltac:(lia) pair_timestamp_accepts).
  - split; vm_compute; reflexivity.
  - vm_compute. reflexivity.
  - lia.
  - lia.
  - right. split; [split; simpl; lia | vm_compute; intuition congruence].
  - right. split; [split; simpl; lia | vm_compute; intuition congruence].
Defined.
