(* ===== verification/Pci.v ===== *)
(** * The configuration of PCI devices

    The crate [pci]: [config_space.rs], [routing_id.rs], [id.rs],
    [device_id.rs], [class.rs], [bar.rs] and [device.rs].  The configuration
    space is an interface; [BarDevice] states how a device answers the probing
    of a base address register, and [bar_new_exact] shows that the probing finds
    the address, the size and the kind of the register and restores every
    register.  The names of devices come from the library [pci_ids] and are
    parameters. *)

From stdpp Require Import base list numbers option tactics strings gmap.
From Stdlib Require Import ZArith Lia.
From S2P Require Import Prelude Addr Frage Block VgaCursor.

Open Scope Z_scope.

(** ** The configuration space *)

Record RoutingId := { bus : Z; device : Z; function : Z }.

Definition MAX_DEVICE_COUNT : Z := Z.shiftl 1 5.
Definition MAX_FUNCTION_COUNT : Z := Z.shiftl 1 3.

Definition routing_id_new (bus device function : Z) : outcome RoutingId :=
  assert! (device <? MAX_DEVICE_COUNT) in
  assert! (function <? MAX_FUNCTION_COUNT) in
  Ok {| bus := bus; device := device; function := function |}.

Class ConfigSpace (C : Type) := {
  config_read : RoutingId -> Z -> M C Z;
  config_write : RoutingId -> Z -> Z -> M C unit;
}.

(** [PortConfigSpace]: the registers behind a pair of ports of 32 bits. *)
Definition PCI_INDEX_PORT : Z := 0x0CF8.

Definition config_index (id : RoutingId) (offset : Z) : outcome Z :=
  assert! (offset mod 4 =? 0) in
  assert! (offset <? 256) in
  Ok (Z.lor (Z.lor (Z.lor (Z.lor 0x80000000 (Z.shiftl (bus id) 16))
                          (Z.shiftl (device id) 11))
                   (Z.shiftl (function id) 8))
            offset).

Section PortConfigSpace.
Context {T : Type} `{IndexDataPair T}.

Definition port_config_read (id : RoutingId) (offset : Z) : M T Z :=
  let! i := liftM (config_index id offset) in
  fun t => let '(t, x) := pair_read t i in (t, Ok x).
Definition port_config_write (id : RoutingId) (offset data : Z) : M T unit :=
  let! i := liftM (config_index id offset) in
  fun t => (pair_write t i data, Ok tt).

#[export] Instance PortConfigSpace : ConfigSpace T := {
  config_read := port_config_read;
  config_write := port_config_write;
}.
End PortConfigSpace.

(** ** Base address registers *)

Inductive Width := Memory32 | Memory64.

Inductive Bar :=
  | BarMemory (block : Block) (prefetchable : bool) (width : Width)
  | BarPort (block : Block).

Definition COMMAND_ADDRESS : Z := 0x04.
Definition BARS_START_ADDRESS : Z := 0x10.
Definition BARS_END_ADDRESS : Z := 0x28.

Definition U32_MAX : Z := 0xFFFFFFFF.
Definition lnot32 (x : Z) : Z := U32_MAX - x.
Definition u32 (x : Z) : outcome Z := if (0 <=? x) && (x <=? U32_MAX) then Ok x else Panic.

Definition bar_size (bar : option Bar) : Z :=
  match bar with
  | Some (BarMemory _ _ Memory64) => 8
  | _ => 4
  end.

Section Config.
Context {C : Type} `{ConfigSpace C}.

Definition address_width (bar_value : Z) : Z := Z.shiftr (Z.land bar_value 0x6) 1.

(** The probing of a register of 32 bits with the decoding of addresses switched
    off: what it reads after all ones are written. *)
Definition probe32 (id : RoutingId) (offset bar_value : Z) : M C Z :=
  let! command := config_read id COMMAND_ADDRESS in
  let! _ := config_write id COMMAND_ADDRESS (Z.land command (lnot32 0x3)) in
  let! _ := config_write id offset U32_MAX in
  let! size_mask := config_read id offset in
  let! _ := config_write id offset bar_value in
  let! _ := config_write id COMMAND_ADDRESS command in
  retM size_mask.

Definition address_size_port (id : RoutingId) (offset bar_value : Z) : M C (Z * Z) :=
  let! size_mask := probe32 id offset bar_value in
  let! size := liftM (u32 (lnot32 (Z.land size_mask 0xFFFFFFFC) + 1)) in
  retM (Z.land bar_value 0xFFFFFFFC, size).

Definition address_size_32 (id : RoutingId) (offset bar_value : Z) : M C (Z * Z) :=
  let! size_mask := probe32 id offset bar_value in
  let! size := liftM (u32 (lnot32 (Z.land size_mask 0xFFFFFFF0) + 1)) in
  retM (Z.land bar_value 0xFFFFFFF0, size).

Definition address_size_64 (id : RoutingId) (offset bar_value : Z) : M C (Z * Z) :=
  let! next_offset := liftM (usize_add offset 4) in
  let! high_bits := config_read id next_offset in
  let! command := config_read id COMMAND_ADDRESS in
  let! _ := config_write id COMMAND_ADDRESS (Z.land command (lnot32 0x3)) in
  let! _ := config_write id offset U32_MAX in
  let! _ := config_write id next_offset U32_MAX in
  let! low_mask := config_read id offset in
  let! high_mask := config_read id next_offset in
  let! _ := config_write id offset bar_value in
  let! _ := config_write id next_offset high_bits in
  let! _ := config_write id COMMAND_ADDRESS command in
  let mask := Z.lor (Z.shiftl high_mask 32) (Z.land low_mask 0xFFFFFFF0) in
  let! size := liftM (usize_add (lnot64 mask) 1) in
  retM (Z.lor (Z.shiftl high_bits 32) (Z.land bar_value 0xFFFFFFF0), size).

Definition address_size (id : RoutingId) (offset : Z) : M C (Z * Z) :=
  let! bar_value := config_read id offset in
  if negb (Z.land bar_value 0x1 =? 0) then address_size_port id offset bar_value
  else if address_width bar_value =? 0x2 then address_size_64 id offset bar_value
  else address_size_32 id offset bar_value.

Definition bar_new (id : RoutingId) (offset : Z) : M C (option Bar) :=
  let! bar_value := config_read id offset in
  if bar_value =? 0 then retM None
  else
    let! (address, size) := address_size id offset in
    if negb (Z.land bar_value 0x1 =? 0) then
      if size =? 0 then retM None
      else
        let! block := liftM (from_index_count_unchecked address size) in
        retM (Some (BarPort block))
    else
      let prefetchable := negb (Z.land bar_value 0x8 =? 0) in
      if size =? 0 then retM None
      else
        let! block := liftM (from_index_count_unchecked address size) in
        retM (Some (BarMemory block prefetchable
                      (if address_width bar_value =? 0x2 then Memory64 else Memory32))).

(** ** Identifiers

    [names] looks the name of a vendor, a device of a vendor, a class or a
    subclass up. *)

Record Id := { id : Z; name : option string }.
Record Names := {
  vendor_name : Z -> option string;
  device_name : Z -> Z -> option string;
  class_name : Z -> option string;
  subclass_name : Z -> Z -> option string;
}.
Context (names : Names).

Definition NO_DEVICE : Z := 0xFFFF.
Definition VENDOR_ID_ADDRESS : Z := 0x00.
Definition REVISION_ADDRESS : Z := 0x08.
Definition CLASS_ADDRESS : Z := 0x09.

Definition vendor_device (data : Z) : option (Id * Id) :=
  let vendor_id := Z.land data 0xFFFF in
  let device_id := Z.land (Z.shiftr data 16) 0xFFFF in
  if vendor_id =? NO_DEVICE then None
  else Some ({| id := device_id; name := device_name names vendor_id device_id |},
             {| id := vendor_id; name := vendor_name names vendor_id |}).

Record DeviceId := { device_id_device : Id; device_id_vendor : Id; device_id_revision : Z }.

Definition device_id_new (rid : RoutingId) : M C (option DeviceId) :=
  let! data := config_read rid VENDOR_ID_ADDRESS in
  match vendor_device data with
  | None => retM None
  | Some (device, vendor) =>
      let! revision := config_read rid REVISION_ADDRESS in
      retM (Some {| device_id_device := device; device_id_vendor := vendor;
                    device_id_revision := Z.land revision 0xFF |})
  end.

Record PciClass := { pci_class : Id; pci_subclass : Id; pci_interface : Id }.

(** The bytes at 0x09, 0x0A and 0x0B to class, subclass and interface. *)
Definition class_bytes (b1 b2 b3 : Z) : Z * Z * Z :=
  if (b1 =? 0x00) && (b2 =? 0x00) && (b3 =? 0x03) then (0x03, 0x00, 0x00)
  else if (b1 =? 0x04) && (b2 =? 0x8F) && (b3 =? 0x01) then (0x01, 0x01, 0x8F)
  else if (b1 =? 0x04) && (b2 =? 0x00) && (b3 =? 0x05) then (0x0C, 0x05, 0x00)
  else if (b1 =? 0x09) && (b2 =? 0x00) && (b3 =? 0x04) then (0x06, 0x04, 0x00)
  else (b3, b2, b1).

(** The source reads the register twice and drops what it computes first. *)
Definition class_new (rid : RoutingId) : M C PciClass :=
  let! _ := config_read rid (CLASS_ADDRESS - 1) in
  let! class_data := config_read rid (CLASS_ADDRESS - 1) in
  let '(class_byte, subclass_byte, interface_byte) :=
    class_bytes (Z.land (Z.shiftr class_data 8) 0xFF)
                (Z.land (Z.shiftr class_data 16) 0xFF)
                (Z.land (Z.shiftr class_data 24) 0xFF) in
  retM {| pci_class := {| id := class_byte; name := class_name names class_byte |};
          pci_subclass := {| id := subclass_byte;
                             name := subclass_name names class_byte subclass_byte |};
          pci_interface := {| id := interface_byte; name := None |} |}.

(** ** Devices *)

Inductive Kind :=
  | Normal (bars : list (option Bar))
  | PciPciBridge (bars : list (option Bar)) (primary secondary subordinate : Z)
      (io_behind_bridge memory_behind_bridge prefetchable_memory_behind_bridge : Block)
  | CardBusBridge
  | Unknown.

Record Device := {
  device_class : PciClass;
  device_id : DeviceId;
  is_multi_function : bool;
  kind : Kind;
  subvendor : option Id;
  subdevice : option Id;
}.

Definition HEADER_TYPE_ADDRESS : Z := 0x0E.
Definition SUBSYSTEM_VENDOR_ID_ADDRESS : Z := 0x2C.
Definition PRIMARY_BUS_NUMBER_ADDRESS : Z := 0x18.
Definition IO_BASE_ADDRESS : Z := 0x1C.
Definition MEMORY_BASE_ADDRESS : Z := 0x20.
Definition PREFETCHABLE_MEMORY_BASE_ADDRESS : Z := 0x24.
Definition PREFETCHABLE_MEMORY_BASE_UPPER_ADDRESS : Z := 0x28.
Definition PREFETCHABLE_MEMORY_LIMIT_UPPER_ADDRESS : Z := 0x2C.
Definition PREFETCHABLE_MEMORY_TYPE_MASK : Z := 0xF0000.
Definition PREFETCHABLE_MEMORY_TYPE_64 : Z := 0x10000.

(** The [while] loop of [read_bars]: [count] slots are left. *)
Fixpoint read_bars_from (count : nat) (rid : RoutingId) (offset : Z) : M C (list (option Bar)) :=
  match count with
  | O => retM []
  | S count =>
      if offset <? BARS_END_ADDRESS then
        let! bar := bar_new rid offset in
        let next := match bar with
                    | Some (BarMemory _ _ Memory64) => offset + 8
                    | _ => offset + 4
                    end in
        let! bars := read_bars_from count rid next in
        retM (bar :: bars)
      else retM (replicate (S count) None)
  end.
Definition read_bars (n : nat) (rid : RoutingId) : M C (list (option Bar)) :=
  read_bars_from n rid BARS_START_ADDRESS.

Definition read_normal (rid : RoutingId) : M C Kind :=
  let! bars := read_bars 6 rid in
  let! _ := liftM (assert! (Z.of_nat (length bars) =?
                            (BARS_END_ADDRESS - BARS_START_ADDRESS) / 4) in Ok tt) in
  retM (Normal bars).

(** [Block::from_index(start, end).unwrap_or_default()] *)
Definition block_or_default (M : Memory) (start end_ : Z) : outcome Block :=
  match block_from_index M start end_ with
  | Ok b => Ok b
  | Err _ => Ok block_zero
  | Panic => Panic
  end.

(** The offset of the aligned register: [address & !0x3]. *)
Definition aligned (address : Z) : Z := address - address mod 4.

Definition io_behind (data : Z) : outcome Block :=
  let io_base := Z.land data 0xFF in
  let io_limit := Z.land (Z.shiftr data 8) 0xFF in
  if io_base <=? io_limit
  then block_or_default (AddrMem (PortTag 1)) (Z.shiftl io_base 8)
         (Z.lor (Z.shiftl io_limit 8) 0xFFF + 1)
  else Ok block_zero.

Definition memory_behind (data : Z) : outcome Block :=
  let base := Z.land data 0xFFFF in
  let limit := Z.land (Z.shiftr data 16) 0xFFFF in
  if base <=? limit
  then block_or_default (AddrMem PhysTag) (Z.shiftl base 16)
         (Z.lor (Z.shiftl limit 16) 0xFFFFF + 1)
  else Ok block_zero.

Definition prefetchable_behind (data : Z) (upper : option (Z * Z)) : outcome Block :=
  let base := Z.land data 0xFFFF in
  let limit := Z.land (Z.shiftr data 16) 0xFFFF in
  let low_start := Z.shiftl (Z.land base 0xFFF0) 16 in
  let low_end := Z.lor (Z.shiftl (Z.land limit 0xFFF0) 16) 0xFFFFF in
  match upper with
  | Some (base_upper, limit_upper) =>
      let start := Z.lor (Z.shiftl base_upper 32) low_start in
      let? end_ := usize_add (Z.lor (Z.shiftl limit_upper 32) low_end) 1 in
      block_or_default (AddrMem PhysTag) start end_
  | None => block_or_default (AddrMem PhysTag) low_start (low_end + 1)
  end.

Definition read_bridge (rid : RoutingId) : M C Kind :=
  let! numbers := config_read rid (aligned PRIMARY_BUS_NUMBER_ADDRESS) in
  let! io := config_read rid (aligned IO_BASE_ADDRESS) in
  let! io_block := liftM (io_behind io) in
  let! memory := config_read rid (aligned MEMORY_BASE_ADDRESS) in
  let! memory_block := liftM (memory_behind memory) in
  let! prefetchable := config_read rid (aligned PREFETCHABLE_MEMORY_BASE_ADDRESS) in
  let! type := config_read rid (PREFETCHABLE_MEMORY_BASE_ADDRESS + 4) in
  let is_64bit := Z.land type PREFETCHABLE_MEMORY_TYPE_MASK =? PREFETCHABLE_MEMORY_TYPE_64 in
  let! prefetchable_block :=
    (if Z.land prefetchable 0xFFFF <=? Z.land (Z.shiftr prefetchable 16) 0xFFFF then
       if is_64bit then
         let! base_upper := config_read rid PREFETCHABLE_MEMORY_BASE_UPPER_ADDRESS in
         let! limit_upper := config_read rid PREFETCHABLE_MEMORY_LIMIT_UPPER_ADDRESS in
         liftM (prefetchable_behind prefetchable (Some (base_upper, limit_upper)))
       else liftM (prefetchable_behind prefetchable None)
     else retM block_zero) in
  let! bars := read_bars 2 rid in
  retM (PciPciBridge bars (Z.land numbers 0xFF) (Z.land (Z.shiftr numbers 8) 0xFF)
          (Z.land (Z.shiftr numbers 16) 0xFF) io_block memory_block prefetchable_block).

Definition device_new (rid : RoutingId) : M C (option Device) :=
  let! device := device_id_new rid in
  match device with
  | None => retM None
  | Some device =>
      let! class := class_new rid in
      let! header := config_read rid (aligned HEADER_TYPE_ADDRESS) in
      let header_type := Z.shiftr header (HEADER_TYPE_ADDRESS mod 4 * 8) mod 256 in
      let multi := negb (Z.land header_type 0x80 =? 0) in
      let header_type := Z.land header_type 0x7F in
      let! subsystem := config_read rid SUBSYSTEM_VENDOR_ID_ADDRESS in
      let '(sub_device, sub_vendor) :=
        default ({| id := 0; name := None |}, {| id := 0; name := None |})
          (vendor_device subsystem) in
      let! kind :=
        (if header_type =? 0x00 then read_normal rid
         else if header_type =? 0x01 then read_bridge rid
         else if header_type =? 0x02 then retM CardBusBridge
         else retM Unknown) in
      retM (Some
        {| device_class := class; device_id := device; is_multi_function := multi; kind := kind;
           subvendor := if id sub_vendor =? 0 then None else Some sub_vendor;
           subdevice := if id sub_device =? 0 then None else Some sub_device |})
  end.

End Config.

(** ** How a device answers

    [reg c o] is the register at the offset [o] of the device, and [store o d] what
    it holds after [d] is written to it.  A base address register may be written
    only while the decoding of addresses is off, the two low bits of the command
    register. *)

Definition is_bar (o : Z) : Prop := BARS_START_ADDRESS <= o < BARS_END_ADDRESS.

Class BarDevice (C : Type) `{ConfigSpace C} (rid : RoutingId)
    (reg : C -> Z -> Z) (store : Z -> Z -> Z) := {
  reg_u32 : forall c o, 0 <= reg c o <= U32_MAX;
  device_read : forall c o, exists c',
    config_read rid o c = (c', Ok (reg c o)) /\ forall o', reg c' o' = reg c o';
  device_write : forall c o d,
    o = COMMAND_ADDRESS \/ (is_bar o /\ Z.land (reg c COMMAND_ADDRESS) 0x3 = 0) ->
    exists c', config_write rid o d c = (c', Ok tt) /\
      forall o', reg c' o' = if decide (o' = o) then store o d else reg c o';
  command_decode : forall d, Z.land (store COMMAND_ADDRESS d) 0x3 = Z.land d 0x3;
}.

(** The kinds of registers, with the logarithm of the size they ask for. *)
Inductive BarKind :=
  | KindPort (k : Z)
  | Kind32 (k : Z) (prefetchable : bool)
  | Kind64 (k : Z) (prefetchable : bool).

Definition kind_log (b : BarKind) : Z :=
  match b with KindPort k | Kind32 k _ | Kind64 k _ => k end.
Definition kind_ok (b : BarKind) : Prop :=
  match b with
  | KindPort k => 2 <= k < 32
  | Kind32 k _ => 4 <= k < 32
  | Kind64 k _ => 4 <= k < 64
  end.

(** The bits of the address that can be written, and the bits that tell the kind. *)
Definition kind_mask (b : BarKind) : Z :=
  match b with
  | KindPort k | Kind32 k _ => 2 ^ 32 - 2 ^ k
  | Kind64 k _ => 2 ^ 64 - 2 ^ k
  end.
Definition kind_info (b : BarKind) : Z :=
  match b with
  | KindPort _ => 0x1
  | Kind32 _ p => if p then 0x8 else 0x0
  | Kind64 _ p => if p then 0xC else 0x4
  end.

Definition answers (store : Z -> Z -> Z) (o : Z) (b : BarKind) : Prop :=
  (forall d, store o d = Z.lor (Z.land d (kind_mask b mod 2 ^ 32)) (kind_info b)) /\
  match b with
  | Kind64 _ _ => is_bar (o + 4) /\ forall d, store (o + 4) d = Z.land d (kind_mask b / 2 ^ 32)
  | _ => True
  end.

(** The address the register holds. *)
Definition kind_base {C : Type} (reg : C -> Z -> Z) (c : C) (o : Z) (b : BarKind) : Z :=
  match b with
  | Kind64 _ _ =>
      Z.lor (Z.shiftl (reg c (o + 4)) 32) (Z.land (reg c o) (kind_mask b mod 2 ^ 32))
  | _ => Z.land (reg c o) (kind_mask b mod 2 ^ 32)
  end.

Definition kind_bar (b : BarKind) (base : Z) : Bar :=
  let block := mkBlock base (base + 2 ^ kind_log b) in
  match b with
  | KindPort _ => BarPort block
  | Kind32 _ p => BarMemory block p Memory32
  | Kind64 _ p => BarMemory block p Memory64
  end.

(** *** The masks *)

(** What the code relies on of the low half [m] of a mask. *)
Record low_mask (m low : Z) : Prop := {
  low_keeps : Z.land m low = m;
  low_info : Z.land m (U32_MAX - low) = 0;
  low_ones : Z.land U32_MAX m = m;
}.

Ltac check_masks k lo n :=
  let Hin := fresh in
  assert (Hin : k ∈ seqZ lo n) by (apply elem_of_seqZ; lia);
  pattern k; refine (proj1 (list.Forall_forall _ (seqZ lo n)) _ k Hin);
  let l := eval vm_compute in (seqZ lo n) in change (seqZ lo n) with l;
  repeat (apply list.Forall_cons_2; [vm_compute; repeat split; reflexivity |]);
  apply list.Forall_nil_2.

Lemma port_mask k : 2 <= k < 32 -> low_mask ((2 ^ 32 - 2 ^ k) mod 2 ^ 32) 0xFFFFFFFC.
Proof. intros Hk. check_masks k 2 30. Qed.

Lemma memory_mask k : 4 <= k < 32 -> low_mask ((2 ^ 32 - 2 ^ k) mod 2 ^ 32) 0xFFFFFFF0.
Proof. intros Hk. check_masks k 4 28. Qed.

Lemma wide_mask k : 4 <= k < 64 ->
  low_mask ((2 ^ 64 - 2 ^ k) mod 2 ^ 32) 0xFFFFFFF0 /\
  Z.lor (Z.shiftl (Z.land U32_MAX ((2 ^ 64 - 2 ^ k) / 2 ^ 32)) 32)
    ((2 ^ 64 - 2 ^ k) mod 2 ^ 32) = 2 ^ 64 - 2 ^ k.
Proof. intros Hk. check_masks k 4 60. Qed.

(** The register read back with its information bits. *)
Lemma mask_info m low v info :
  low_mask m low -> Z.land info low = 0 -> Z.land info (U32_MAX - low) = info ->
  Z.land (Z.lor (Z.land v m) info) low = Z.land v m /\
  Z.land (Z.lor (Z.land v m) info) (U32_MAX - low) = info.
Proof.
  intros [H1 H2 _] Hi Hj. rewrite !Z.land_lor_distr_l, <- !Z.land_assoc, H1, H2, Hi, Hj.
  by rewrite Z.land_0_r, Z.lor_0_r, Z.lor_0_l.
Qed.

(** *** The probing *)

Section Probe.
Context {C : Type} `{ConfigSpace C} (rid : RoutingId) (reg : C -> Z -> Z) (store : Z -> Z -> Z).
Context `{!BarDevice C rid reg store}.

Definition same_regs (c c' : C) : Prop := forall o, reg c' o = reg c o.

(** Writing back what was read changes nothing: no error is pending in the status
    half of the command register. *)
Definition stable (c : C) (o : Z) : Prop := store o (reg c o) = reg c o.

(** The registers after one write. *)
Definition upd (r : Z -> Z) (o d : Z) : Z -> Z :=
  fun o' => if decide (o' = o) then store o d else r o'.

Lemma upd_eq r o d : upd r o d o = store o d.
Proof. unfold upd. by destruct (decide (o = o)). Qed.
Lemma upd_ne r o d o' : o' <> o -> upd r o d o' = r o'.
Proof. unfold upd. by destruct (decide (o' = o)). Qed.

Lemma read_at c r o : (forall o', reg c o' = r o') ->
  exists c', config_read rid o c = (c', Ok (r o)) /\ forall o', reg c' o' = r o'.
Proof.
  intros Hr. destruct (device_read c o) as (c' & E & K). exists c'.
  rewrite E, Hr. split; [done |]. intros o'. by rewrite K.
Qed.

Lemma write_at c r o d : (forall o', reg c o' = r o') ->
  o = COMMAND_ADDRESS \/ (is_bar o /\ Z.land (r COMMAND_ADDRESS) 0x3 = 0) ->
  exists c', config_write rid o d c = (c', Ok tt) /\ forall o', reg c' o' = upd r o d o'.
Proof.
  intros Hr Ho. rewrite <- Hr in Ho. destruct (device_write c o d Ho) as (c' & E & K).
  exists c'. split; [done |]. intros o'. rewrite K. unfold upd. by rewrite Hr.
Qed.

Lemma bar_not_command o : is_bar o -> o <> COMMAND_ADDRESS.
Proof. unfold is_bar, BARS_START_ADDRESS, COMMAND_ADDRESS. lia. Qed.

(** Switching the decoding off allows the writes that follow. *)
Lemma decode_off d : Z.land (store COMMAND_ADDRESS (Z.land d (lnot32 0x3))) 0x3 = 0.
Proof. rewrite command_decode, <- Z.land_assoc. apply Z.land_0_r. Qed.

Ltac upds := repeat first [rewrite upd_eq | rewrite upd_ne by (congruence || lia)].

(** One access of a probing, from a state whose registers are known. *)
Ltac config_step :=
  match goal with
  | K : forall o', reg ?c o' = _ |- context [bindM (config_read rid ?o) _ ?c] =>
      let c' := fresh "c" in let E := fresh "E" in let K' := fresh "K" in
      destruct (read_at c _ o K) as (c' & E & K'); clear K;
      unfold bindM at 1; rewrite E; clear E
  | K : forall o', reg ?c o' = _ |- context [bindM (config_write rid ?o ?d) _ ?c] =>
      let c' := fresh "c" in let E := fresh "E" in let K' := fresh "K" in
      destruct (write_at c _ o d K) as (c' & E & K');
        [first [by left | right; split; [done |]; upds; apply decode_off] |];
      clear K; unfold bindM at 1; rewrite E; clear E
  end.

Lemma probe32_spec c o :
  is_bar o -> stable c o -> stable c COMMAND_ADDRESS ->
  exists c', probe32 rid o (reg c o) c = (c', Ok (store o U32_MAX)) /\ same_regs c c'.
Proof.
  intros Ho So Sc. pose proof (bar_not_command o Ho) as Hne. unfold probe32.
  set (v := reg c o) in *. set (command := reg c COMMAND_ADDRESS) in *.
  assert (K : forall o', reg c o' = reg c o') by done.
  do 6 config_step. eexists. unfold retM. upds. split; [done |].
  intros o'. match goal with K : forall o', reg _ o' = _ |- _ => rewrite K end.
  destruct (decide (o' = COMMAND_ADDRESS)) as [-> |]; upds; [done |].
  destruct (decide (o' = o)) as [-> |]; upds; done.
Qed.

Lemma address_size_64_spec c o :
  is_bar o -> is_bar (o + 4) -> stable c o -> stable c (o + 4) -> stable c COMMAND_ADDRESS ->
  exists c',
    address_size_64 rid o (reg c o) c =
      (c', let? size := usize_add (lnot64 (Z.lor (Z.shiftl (store (o + 4) U32_MAX) 32)
                                                 (Z.land (store o U32_MAX) 0xFFFFFFF0))) 1 in
           Ok (Z.lor (Z.shiftl (reg c (o + 4)) 32) (Z.land (reg c o) 0xFFFFFFF0), size)) /\
    same_regs c c'.
Proof.
  intros Ho Hn So Sn Sc. pose proof (bar_not_command o Ho). pose proof (bar_not_command _ Hn).
  assert (o + 4 <> o) by lia. assert (o <> o + 4) by lia.
  unfold address_size_64. unfold bindM at 1, liftM at 1. rewrite usize_add_ok.
  2: { unfold is_bar, is_usize, BARS_START_ADDRESS, BARS_END_ADDRESS in *. lia. }
  assert (K : forall o', reg c o' = reg c o') by done.
  do 10 config_step. upds. eexists. split.
  - unfold bindM, liftM, retM. by destruct (usize_add _ _).
  - intros o'. match goal with K : forall o', reg _ o' = _ |- _ => rewrite K end.
    destruct (decide (o' = COMMAND_ADDRESS)) as [-> |]; upds; [done |].
    destruct (decide (o' = o + 4)) as [-> |]; upds; [done |].
    destruct (decide (o' = o)) as [-> |]; upds; done.
Qed.

(** The bits of a register that tell its kind. *)
Record tells (b : BarKind) (v : Z) : Prop := {
  tells_port : Z.land v 0x1 = (if b is KindPort _ then 1 else 0);
  tells_width : b <> KindPort (kind_log b) ->
    address_width v = (if b is Kind64 _ _ then 2 else 0);
  tells_prefetchable : b <> KindPort (kind_log b) ->
    negb (Z.land v 0x8 =? 0) = match b with Kind32 _ p | Kind64 _ p => p | _ => false end;
  tells_address :
    Z.land v (if b is KindPort _ then 0xFFFFFFFC else 0xFFFFFFF0) =
    Z.land v (kind_mask b mod 2 ^ 32);
}.

Lemma land_part v n x : Z.land n x = x -> Z.land v x = Z.land (Z.land v n) x.
Proof. intros E. by rewrite <- Z.land_assoc, E. Qed.

Lemma kind_low_mask b : kind_ok b ->
  low_mask (kind_mask b mod 2 ^ 32) (if b is KindPort _ then 0xFFFFFFFC else 0xFFFFFFF0).
Proof.
  destruct b; simpl; intros Hk; [by apply port_mask | by apply memory_mask |].
  by apply wide_mask.
Qed.

Lemma stored_tells o b d : kind_ok b -> answers store o b -> tells b (store o d) /\
  Z.land (store o d) (if b is KindPort _ then 0xFFFFFFFC else 0xFFFFFFF0) =
    Z.land d (kind_mask b mod 2 ^ 32).
Proof.
  intros Hk [Ha _]. rewrite Ha. pose proof (kind_low_mask b Hk) as Hm.
  destruct (mask_info _ _ d (kind_info b) Hm) as [Hlow Hinfo];
    [by destruct b as [| ? [] | ? []] .. |].
  set (v := Z.lor _ (kind_info b)) in *. split; [| done]. split.
  - rewrite (land_part v (U32_MAX - (if b is KindPort _ then 0xFFFFFFFC else 0xFFFFFFF0))),
      Hinfo by (by destruct b). by destruct b as [| ? [] | ? []].
  - intros Hb. unfold address_width. destruct b as [k | k p | k p]; [done | |];
      rewrite (land_part v (U32_MAX - 0xFFFFFFF0)), Hinfo by done; by destruct p.
  - intros Hb. destruct b as [k | k p | k p]; [done | |];
      rewrite (land_part v (U32_MAX - 0xFFFFFFF0)), Hinfo by done; by destruct p.
  - rewrite Hlow. unfold v. rewrite Z.land_lor_distr_l, <- Z.land_assoc, Z.land_diag.
    assert (Ei : Z.land (kind_info b) (kind_mask b mod 2 ^ 32) = 0).
    { rewrite <- (low_keeps _ _ Hm), (Z.land_comm (kind_mask b mod _)), Z.land_assoc.
      by destruct b as [| ? [] | ? []]. }
    by rewrite Ei, Z.lor_0_r.
Qed.

(** The size read back from a register of 32 bits. *)
Lemma size32 m k : 2 <= k < 32 -> m = (2 ^ 32 - 2 ^ k) mod 2 ^ 32 ->
  u32 (lnot32 m + 1) = Ok (2 ^ k).
Proof.
  intros Hk ->. assert (0 < 2 ^ k <= 2 ^ 31).
  { split; [by apply Z.pow_pos_nonneg; lia | apply Z.pow_le_mono_r; lia]. }
  rewrite Z.mod_small by lia. unfold u32, lnot32, U32_MAX.
  rewrite (proj2 (Z.leb_le _ _)), (proj2 (Z.leb_le _ _)) by lia.
  change (2 ^ 32) with 4294967296. simpl. f_equal. lia.
Qed.

(** The size and the address, for each kind of register. *)
Lemma address_size_spec c o b :
  is_bar o -> kind_ok b -> answers store o b -> stable c o -> stable c COMMAND_ADDRESS ->
  (if b is Kind64 _ _ then stable c (o + 4) else True) ->
  exists c', address_size rid o c =
    (c', Ok (kind_base reg c o b, 2 ^ kind_log b)) /\ same_regs c c'.
Proof.
  intros Ho Hk Ha So Sc Sn.
  destruct (device_read c o) as (c1 & E1 & K1).
  assert (S1 : forall o', stable c o' -> stable c1 o') by (intros o' S'; unfold stable; by rewrite K1).
  destruct (stored_tells o b (reg c o) Hk Ha) as [[T1 T2 _ T4] _].
  rewrite So in T1, T2, T4.
  destruct (stored_tells o b U32_MAX Hk Ha) as [_ Hones].
  rewrite (low_ones _ _ (kind_low_mask b Hk)) in Hones.
  unfold address_size, bindM at 1. rewrite E1, T1.
  destruct b as [k | k p | k p]; simpl in Hk.
  - destruct (probe32_spec c1 o Ho) as (c2 & E2 & K2); [by auto .. |].
    rewrite K1 in E2. exists c2. simpl. unfold address_size_port, bindM, liftM, retM.
    rewrite E2, Hones, (size32 _ k) by done. split; [by rewrite T4 |].
    intros o'. by rewrite K2, K1.
  - destruct (probe32_spec c1 o Ho) as (c2 & E2 & K2); [by auto .. |].
    rewrite K1 in E2. exists c2. rewrite T2 by done. simpl.
    unfold address_size_32, bindM, liftM, retM.
    rewrite E2, Hones, (size32 _ k) by (done || lia). split; [by rewrite T4 |].
    intros o'. by rewrite K2, K1.
  - destruct Ha as [_ [Hn Ha]].
    destruct (address_size_64_spec c1 o Ho Hn) as (c2 & E2 & K2); [by auto .. |].
    rewrite !K1 in E2. exists c2. rewrite T2 by done. simpl.
    rewrite E2, Hones, Ha. simpl kind_mask. rewrite (proj2 (wide_mask k Hk)).
    split; [| intros o'; by rewrite K2, K1].
    assert (0 < 2 ^ k <= 2 ^ 63).
    { split; [by apply Z.pow_pos_nonneg; lia | apply Z.pow_le_mono_r; lia]. }
    unfold lnot64. rewrite usize_add_ok.
    + rewrite T4. do 2 f_equal. change (2 ^ 64) with USIZE_MODULUS. f_equal. lia.
    + change (2 ^ 64) with USIZE_MODULUS. change (2 ^ 63) with 9223372036854775808 in *.
      unfold is_usize. lia.
Qed.

End Probe.

(** ** Claims *)

(** C22. Probing a base address register is exact and leaves no trace: on a device
    that answers as the PCI specification says, [Bar::new] finds the kind of the
    register, its address and its size, for every size a port, a 32-bit or a
    64-bit memory register can have, writes to the register only while the
    device does not decode addresses, and leaves all registers as they were. *)
Theorem bar_new_exact {C : Type} `{ConfigSpace C} (rid : RoutingId)
    (reg : C -> Z -> Z) (store : Z -> Z -> Z) (c : C) (o : Z) (b : BarKind)
    (Hdevice : BarDevice C rid reg store)
    (Hoffset : is_bar o)
    (Hkind : kind_ok b)
    (Hanswers : answers store o b)
    (Hstable : stable reg store c o /\ stable reg store c COMMAND_ADDRESS /\
               (if b is Kind64 _ _ then stable reg store c (o + 4) else True))
    (Hassigned : reg c o <> 0)
    (Hfits : kind_base reg c o b + 2 ^ kind_log b < USIZE_MODULUS) :
  exists c', bar_new rid o c = (c', Ok (Some (kind_bar b (kind_base reg c o b)))) /\
    forall o', reg c' o' = reg c o'.
Proof.
  destruct Hstable as (So & Sc & Sn).
  destruct (device_read c o) as (c1 & E1 & K1).
  assert (S1 : forall o', stable reg store c o' -> stable reg store c1 o')
    by (intros o' S'; unfold stable; by rewrite K1).
  assert (Eb : kind_base reg c1 o b = kind_base reg c o b) by (destruct b; simpl; by rewrite !K1).
  destruct (address_size_spec rid reg store c1 o b) as (c2 & E2 & K2); try by auto.
  { destruct b; auto. }
  assert (K : forall o', reg c2 o' = reg c o') by (intros o'; by rewrite K2, K1).
  destruct (stored_tells store o b (reg c o) Hkind Hanswers) as [[T1 T2 T3 _] _].
  rewrite So in T1, T2, T3.
  exists c2. split; [| done].
  assert (Hsize : 0 < 2 ^ kind_log b) by (apply Z.pow_pos_nonneg; destruct b; simpl in *; lia).
  assert (Hbase : 0 <= kind_base reg c o b).
  { pose proof (reg_u32 c o). pose proof (reg_u32 c (o + 4)).
    assert (Hland : 0 <= Z.land (reg c o) (kind_mask b mod 2 ^ 32)) by (apply Z.land_nonneg; lia).
    destruct b; simpl in *; [done | done |].
    apply Z.lor_nonneg. split; [apply Z.shiftl_nonneg; lia | done]. }
  unfold bar_new, bindM at 1. rewrite E1.
  destruct (Z.eqb_spec (reg c o) 0); [done |].
  unfold bindM at 1. rewrite E2, T1, Eb.
  destruct (Z.eqb_spec (2 ^ kind_log b) 0); [lia |].
  unfold from_index_count_unchecked, bindM, liftM, retM.
  rewrite usize_add_ok by (unfold is_usize; lia).
  destruct b as [k | k p | k p]; simpl; [done | |];
    rewrite (T2 ltac:(done)), (T3 ltac:(done)); done.
Qed.

(** A device with a prefetchable 64-bit register of eight gigabytes at 0x14. *)
Definition sample_store (o d : Z) : Z :=
  if o =? 0x14 then Z.lor (Z.land d ((2 ^ 64 - 2 ^ 33) mod 2 ^ 32)) 0xC
  else if o =? 0x18 then Z.land d ((2 ^ 64 - 2 ^ 33) / 2 ^ 32)
  else Z.land d U32_MAX.

Definition sample_reg (c : gmap Z Z) (o : Z) : Z := Z.land (default 0 (c !! o)) U32_MAX.

#[export] Instance SampleConfig : ConfigSpace (gmap Z Z) := {
  config_read := fun _ o c => (c, Ok (sample_reg c o));
  config_write := fun _ o d c => (<[o := sample_store o d]> c, Ok tt);
}.

Lemma land_u32_range x : 0 <= Z.land x U32_MAX <= U32_MAX.
Proof.
  change U32_MAX with (Z.ones 32). rewrite Z.land_ones by lia.
  pose proof (Z.mod_pos_bound x (2 ^ 32) ltac:(lia)).
  change (Z.ones 32) with (2 ^ 32 - 1). lia.
Qed.

Lemma sample_store_u32 o d : Z.land (sample_store o d) U32_MAX = sample_store o d.
Proof.
  unfold sample_store. destruct (o =? 0x14); [| destruct (o =? 0x18)];
    rewrite ?Z.land_lor_distr_l, <- ?Z.land_assoc; done.
Qed.

Lemma SampleConfig_device rid : BarDevice (gmap Z Z) rid sample_reg sample_store.
Proof.
  split.
  - intros c o. apply land_u32_range.
  - intros c o. by exists c.
  - intros c o d _. eexists. split; [done |]. intros o'. unfold sample_reg.
    destruct (decide (o' = o)) as [-> | Hne].
    + rewrite lookup_insert. destruct (decide _); [| done]. apply sample_store_u32.
    + by rewrite lookup_insert_ne.
  - intros d. unfold sample_store. simpl. by rewrite <- Z.land_assoc.
Qed.

Definition sample_config : gmap Z Z :=
  <[0x14 := 0xC]> (<[0x18 := 0x40]> (<[COMMAND_ADDRESS := 0x7]> ∅)).

Lemma bar_new_exact_witness :
  exists c',
    bar_new {| bus := 0; device := 3; function := 0 |} 0x14 sample_config =
      (c', Ok (Some (BarMemory (mkBlock 0x4000000000 0x4200000000) true Memory64))) /\
    forall o', sample_reg c' o' = sample_reg sample_config o'.
Proof.
  apply (bar_new_exact {| bus := 0; device := 3; function := 0 |} sample_reg sample_store
           sample_config 0x14 (Kind64 33 true) (SampleConfig_device _)).
  - unfold is_bar, BARS_START_ADDRESS, BARS_END_ADDRESS. lia.
  - simpl. lia.
  - split; [by intros d |]. split; [unfold is_bar, BARS_START_ADDRESS, BARS_END_ADDRESS; lia |].
    by intros d.
  - by repeat split.
  - by vm_compute.
  - by vm_compute.
Defined.

(** The class code of a device is its byte at 0x0B.  Three codes are reported as
    others, for instance a multimedia device of the interface 9 as a bridge. *)
Example class_bytes_remaps :
  class_bytes 0x09 0x00 0x04 = (0x06, 0x04, 0x00) /\
  class_bytes 0x04 0x00 0x05 = (0x0C, 0x05, 0x00) /\
  class_bytes 0x04 0x8F 0x01 = (0x01, 0x01, 0x8F) /\
  class_bytes 0x08 0x00 0x04 = (0x04, 0x00, 0x08).
Proof. repeat split. Qed.
