(* ===== verification/Disk.v ===== *)
(** * The disk driver

    [kernel/src/fs/disk.rs]: programmed input and output of sectors of a PATA
    disk.  The controller is a machine [W] behind its ports.  [Ata] is the part of
    the ATA command set the driver uses; [AtaBus] says that the registers of a bus
    behave like it whenever its status says that it is ready, however long that
    takes and whatever errors it reports; [Healthy] disks answer in time and
    without errors. *)

From stdpp Require Import base list numbers option tactics.
From Stdlib Require Import ZArith Lia.
From S2P Require Import Prelude Frage VgaCursor.

Open Scope Z_scope.

(** ** Constants *)

Definition BLOCK_SIZE : Z := L0_SIZE.
Definition SECTOR_SIZE : Z := Z.shiftl 1 9.
Definition SECTORS_PER_BLOCK : Z := BLOCK_SIZE / SECTOR_SIZE.

(** [SECTOR_SIZE / mem::size_of::<u32>()]. *)
Definition SECTOR_WORDS : Z := SECTOR_SIZE / 4.

Definition FLUSH_CACHE : Z := 0xE7.
Definition READ : Z := 0x20.
Definition READ_NATIVE_MAX_ADDRESS : Z := 0xF8.
Definition WRITE : Z := 0x30.

Definition LBA : Z := Z.shiftl 1 6.
Definition RESERVED_SHOULD_BE_ONES : Z := Z.lor (Z.shiftl 1 5) (Z.shiftl 1 7).
Definition SECTOR_NUMBER_MASK : Z := Z.shiftl 1 28 - 1.

(** The flags of the status register. *)
Definition STATUS_ERROR : Z := Z.shiftl 1 0.
Definition STATUS_FAILURE : Z := Z.shiftl 1 5.
Definition STATUS_READY : Z := Z.shiftl 1 6.
Definition STATUS_BUSY : Z := Z.shiftl 1 7.

Definition ATA0_BASE_PORT : Z := 0x01F0.
Definition ATA1_BASE_PORT : Z := 0x0170.

(** ** The disk *)

Record Disk := {
  id : Z;
  io_disk : Z;
  io_port : Z;
}.

Definition disk_io_port (id : Z) : outcome Z :=
  if id / 2 =? 0 then Ok ATA0_BASE_PORT
  else if id / 2 =? 1 then Ok ATA1_BASE_PORT
  else Err NoDisk.

Definition disk_io_disk (id : Z) : Z := id mod 2.

Definition disk_new (id : Z) : outcome Disk :=
  let? id := (if id <? 256 then Ok id else Err NoDisk) in
  let? port := disk_io_port id in
  Ok {| io_port := port; io_disk := disk_io_disk id; id := id |}.

(** ** Port input and output

    [port_ins32] and [port_outs32] are [rep ins] and [rep outs]; [polls w] is how
    many more polls of the status fit into [TIMEOUT_IN_SECONDS] after the first
    one of a wait that starts in [w]. *)

Class DiskIo (W : Type) `{PortIo W} := {
  port_ins32 : W -> Z -> nat -> W * list Z;
  port_outs32 : W -> Z -> list Z -> W;
  polls : W -> nat;
}.

(** [io_disk << 4] of a byte. *)
Definition drive_bit (d : Disk) : Z := Z.shiftl (io_disk d) 4 mod 256.

(** [to_le_bytes] of a [u32]. *)
Definition le_bytes (v : Z) : list Z :=
  [v mod 256; v / 256 mod 256; v / 65536 mod 256; v / 16777216 mod 256].

(** [chunks(n)] of a slice. *)
Definition chunks (n : Z) (l : list Z) : list (list Z) :=
  reshape (replicate (Z.to_nat (div_ceil (Z.of_nat (length l)) n)) (Z.to_nat n)) l.

Section Driver.
Context {W : Type} `{DiskIo W}.

Definition inb (port : Z) : M W Z := fun w =>
  let '(w, x) := port_in w port in (w, Ok x).
Definition outb (port x : Z) : M W unit := fun w => (port_out w port x, Ok tt).

Definition status_ready (s : Z) : bool :=
  negb (Z.land s STATUS_READY =? 0) && (Z.land s STATUS_BUSY =? 0).
Definition status_failed (s : Z) : bool :=
  negb (Z.land s (Z.lor STATUS_ERROR STATUS_FAILURE) =? 0).

(** The loop of [wait_ready] with [fuel] polls left. *)
Fixpoint wait_loop (d : Disk) (fuel : nat) : M W unit :=
  match fuel with
  | O => liftM (Err Timeout)
  | S fuel =>
      let! status := inb (io_port d + 7) in
      if status_ready status
      then liftM (if status_failed status then Err Medium else Ok tt)
      else wait_loop d fuel
  end.

Definition wait_ready (d : Disk) : M W unit := fun w => wait_loop d (S (polls w)) w.

Definition sector_number_ports (d : Disk) : list Z :=
  [io_port d + 3; io_port d + 4; io_port d + 5; io_port d + 6].

Definition write_sector_number (d : Disk) (sector : Z) : M W unit :=
  if Z.land sector (lnot64 SECTOR_NUMBER_MASK) =? 0 then
    let! sector := liftM (if sector <? 2 ^ 32 then Ok sector else Panic) in
    let value := Z.lor sector
      (Z.shiftl (Z.lor (Z.lor RESERVED_SHOULD_BE_ONES LBA) (drive_bit d)) 24) in
    for_list (fun px => outb px.1 px.2) (zip (sector_number_ports d) (le_bytes value))
  else liftM Panic.

Definition read_sector_number (d : Disk) : M W Z :=
  let! n := for_fold (fun n port =>
    let! x := inb port in retM (Z.lor (Z.shiftl n 8) x)) 0 (rev (sector_number_ports d)) in
  retM (Z.land n SECTOR_NUMBER_MASK).

Definition send_command (d : Disk) (command argument : Z) : M W unit :=
  let! _ := wait_ready d in
  let! _ := outb (io_port d + 6)
              (Z.lor (Z.lor RESERVED_SHOULD_BE_ONES argument) (drive_bit d)) in
  let! _ := outb (io_port d + 7) command in
  wait_ready d.

Definition send_rw_command (d : Disk) (command start_sector sector_count : Z) : M W unit :=
  if sector_count <? Z.shiftl 1 8 then
    let! _ := wait_ready d in
    let! _ := outb (io_port d + 2) sector_count in
    let! _ := write_sector_number d start_sector in
    outb (io_port d + 7) command
  else liftM Panic.

Definition flush (d : Disk) : M W unit := fun w =>
  let '(w, result) := send_command d FLUSH_CACHE 0 w in
  match result with
  | Err e => let '(w, _) := read_sector_number d w in (w, Err e)
  | _ => (w, result)
  end.

Definition block_count (d : Disk) : M W Z :=
  let! _ := send_command d READ_NATIVE_MAX_ADDRESS LBA in
  let! max_sector_number := read_sector_number d in
  let! n := liftM (usize_add max_sector_number 1) in
  retM (n / SECTORS_PER_BLOCK).

(** [sectors.len()] of a range. *)
Definition sectors_len (start end_ : Z) : Z := Z.max 0 (end_ - start).

(** The loop over the chunks of the buffer, with the buffer it leaves: a chunk
    that is not read keeps its contents. *)
Fixpoint read_sectors (d : Disk) (buffer : list (list Z)) (w : W) :
    W * (list Z * outcome unit) :=
  match buffer with
  | [] => (w, ([], Ok tt))
  | sector :: rest =>
      match wait_ready d w with
      | (w, Ok _) =>
          let '(w, data) := port_ins32 w (io_port d) (length sector) in
          let '(w, (rest, result)) := read_sectors d rest w in
          (w, (data ++ rest, result))
      | (w, result) => (w, (concat buffer, result))
      end
  end.

Definition pio_read (d : Disk) (start end_ : Z) (buffer : list Z) (w : W) :
    W * (list Z * outcome unit) :=
  if 4 * Z.of_nat (length buffer) =? sectors_len start end_ * SECTOR_SIZE then
    match send_rw_command d READ start (sectors_len start end_) w with
    | (w, Ok _) => read_sectors d (chunks SECTOR_WORDS buffer) w
    | (w, result) => (w, (buffer, result))
    end
  else (w, (buffer, Panic)).

Definition pio_write (d : Disk) (start end_ : Z) (buffer : list Z) : M W unit :=
  if 4 * Z.of_nat (length buffer) =? sectors_len start end_ * SECTOR_SIZE then
    let! _ := send_rw_command d WRITE start (sectors_len start end_) in
    for_list (fun sector =>
      let! _ := wait_ready d in
      fun w => (port_outs32 w (io_port d) sector, Ok tt)) (chunks SECTOR_WORDS buffer)
  else liftM Panic.

End Driver.

(** ** The device

    The registers of a bus with two drives, the transfer in progress and the
    contents of the drives by drive and sector number.  A sector count of zero
    stands for 256. *)

Inductive Transfer :=
  | Idle
  | Reading (drive lba : Z) (left : nat)
  | Writing (drive lba : Z) (left : nat).

Record Ata := {
  ata_count : Z;
  lba_low : Z;
  lba_mid : Z;
  lba_high : Z;
  ata_device : Z;
  transfer : Transfer;
  sectors : Z -> Z -> list Z;
  native_max : Z -> Z;
}.

Definition ata_drive (a : Ata) : Z := ata_device a / 16 mod 2.
Definition ata_lba (a : Ata) : Z :=
  lba_low a + 256 * lba_mid a + 65536 * lba_high a + 16777216 * (ata_device a mod 16).

Definition set_transfer (t : Transfer) (a : Ata) : Ata :=
  {| ata_count := ata_count a; lba_low := lba_low a; lba_mid := lba_mid a;
     lba_high := lba_high a; ata_device := ata_device a; transfer := t;
     sectors := sectors a; native_max := native_max a |}.

Definition set_lba (low mid high device : Z) (a : Ata) : Ata :=
  {| ata_count := ata_count a; lba_low := low; lba_mid := mid;
     lba_high := high; ata_device := device; transfer := transfer a;
     sectors := sectors a; native_max := native_max a |}.

Definition set_count (n : Z) (a : Ata) : Ata :=
  {| ata_count := n; lba_low := lba_low a; lba_mid := lba_mid a;
     lba_high := lba_high a; ata_device := ata_device a; transfer := transfer a;
     sectors := sectors a; native_max := native_max a |}.

Definition set_sector (drive lba : Z) (data : list Z) (a : Ata) : Ata :=
  {| ata_count := ata_count a; lba_low := lba_low a; lba_mid := lba_mid a;
     lba_high := lba_high a; ata_device := ata_device a; transfer := transfer a;
     sectors := fun d l => if decide (d = drive /\ l = lba) then data else sectors a d l;
     native_max := native_max a |}.

Definition ata_write_register (a : Ata) (i x : Z) : Ata :=
  if i =? 2 then set_count x a
  else if i =? 3 then set_lba x (lba_mid a) (lba_high a) (ata_device a) a
  else if i =? 4 then set_lba (lba_low a) x (lba_high a) (ata_device a) a
  else if i =? 5 then set_lba (lba_low a) (lba_mid a) x (ata_device a) a
  else if i =? 6 then set_lba (lba_low a) (lba_mid a) (lba_high a) x a
  else a.

Definition ata_read_register (a : Ata) (i : Z) : Z :=
  if i =? 3 then lba_low a
  else if i =? 4 then lba_mid a
  else if i =? 5 then lba_high a
  else ata_device a.

Definition ata_left (a : Ata) : nat :=
  Z.to_nat (if ata_count a =? 0 then 256 else ata_count a).

Definition ata_command (a : Ata) (c : Z) : Ata :=
  if negb (Z.testbit (ata_device a) 6) then a
  else if c =? READ then set_transfer (Reading (ata_drive a) (ata_lba a) (ata_left a)) a
  else if c =? WRITE then set_transfer (Writing (ata_drive a) (ata_lba a) (ata_left a)) a
  else if c =? READ_NATIVE_MAX_ADDRESS then
    let n := native_max a (ata_drive a) in
    set_lba (n mod 256) (n / 256 mod 256) (n / 65536 mod 256)
            (ata_device a / 16 * 16 + n / 16777216 mod 16) a
  else a.

Definition read_on (drive lba : Z) (left : nat) : Transfer :=
  match left with O => Idle | S _ => Reading drive lba left end.
Definition write_on (drive lba : Z) (left : nat) : Transfer :=
  match left with O => Idle | S _ => Writing drive lba left end.

(** *** A bus whose registers behave like [Ata]

    [view] is the state of the device when it has done what it is doing, [busy]
    the number of polls until then and [fault] whether it then reports an error.
    Reading the status changes nothing else; the other registers are promised to
    work only when the device is ready without an error, and a command only when
    no transfer is under way.  The error of a command, of a sector that was
    written or of the next sector to read is reported afterwards, and nothing is
    promised of what has failed: a transfer may be over, and the sector may hold
    anything. *)

Class AtaBus (W : Type) `{DiskIo W} (base : Z)
    (view : W -> Ata) (busy : W -> nat) (fault : W -> bool) := {
  poll_view : forall w, view (port_in w (base + 7)).1 = view w;
  poll_busy : forall w, busy w <> O ->
    status_ready (port_in w (base + 7)).2 = false /\
    busy (port_in w (base + 7)).1 = pred (busy w) /\
    fault (port_in w (base + 7)).1 = fault w;
  poll_ready : forall w, busy w = O ->
    status_ready (port_in w (base + 7)).2 = true /\
    status_failed (port_in w (base + 7)).2 = fault w /\
    busy (port_in w (base + 7)).1 = O /\
    fault (port_in w (base + 7)).1 = fault w;
  register_out : forall w i x, busy w = O -> fault w = false -> 2 <= i <= 6 -> 0 <= x < 256 ->
    view (port_out w (base + i) x) = ata_write_register (view w) i x /\
    busy (port_out w (base + i) x) = O /\ fault (port_out w (base + i) x) = false;
  register_in : forall w i, busy w = O -> fault w = false -> 3 <= i <= 6 ->
    (port_in w (base + i)).2 = ata_read_register (view w) i /\
    view (port_in w (base + i)).1 = view w /\
    busy (port_in w (base + i)).1 = O /\ fault (port_in w (base + i)).1 = false;
  command_out : forall w c, busy w = O -> fault w = false -> transfer (view w) = Idle ->
    sectors (view (port_out w (base + 7) c)) = sectors (view w) /\
    (fault (port_out w (base + 7) c) = false ->
     view (port_out w (base + 7) c) = ata_command (view w) c);
  data_in : forall w drive lba left, busy w = O -> fault w = false ->
    transfer (view w) = Reading drive lba (S left) ->
    let '(w', data) := port_ins32 w base (Z.to_nat SECTOR_WORDS) in
    data = sectors (view w) drive lba /\
    sectors (view w') = sectors (view w) /\
    (fault w' = false -> transfer (view w') = read_on drive (lba + 1) left);
  data_out : forall w drive lba left data, busy w = O -> fault w = false ->
    transfer (view w) = Writing drive lba (S left) -> length data = Z.to_nat SECTOR_WORDS ->
    let w' := port_outs32 w base data in
    (forall drive' l, ~ (drive' = drive /\ l = lba) ->
       sectors (view w') drive' l = sectors (view w) drive' l) /\
    (fault w' = false -> sectors (view w') drive lba = data /\
       transfer (view w') = write_on drive (lba + 1) left);
}.

(** A disk in such a state answers within the time-out and reports no errors,
    and stays so. *)
Class Healthy (W : Type) `{DiskIo W} (busy : W -> nat) (fault : W -> bool) (ok : W -> Prop) := {
  healthy_answers : forall w, ok w -> (busy w <= polls w)%nat;
  healthy_fault : forall w, ok w -> fault w = false;
  healthy_in : forall w port, ok w -> ok (port_in w port).1;
  healthy_out : forall w port x, ok w -> ok (port_out w port x);
  healthy_ins32 : forall w port n, ok w -> ok (port_ins32 w port n).1;
  healthy_outs32 : forall w port l, ok w -> ok (port_outs32 w port l);
}.

(** ** Correctness on such a bus *)

(** *** Sector numbers *)

Lemma sector_fits sector : 0 <= sector < 2 ^ 28 ->
  Z.land sector (lnot64 SECTOR_NUMBER_MASK) = 0.
Proof.
  intros Hs. change (lnot64 SECTOR_NUMBER_MASK) with (Z.shiftl (2 ^ 36 - 1) 28).
  apply Z.bits_inj'. intros i Hi. rewrite Z.land_spec, Z.bits_0.
  destruct (Z_lt_dec i 28).
  - by rewrite Z.shiftl_spec_low, andb_false_r.
  - by rewrite (testbit_high sector 28) by lia.
Qed.

Lemma drive_byte x d : (io_disk d = 0 \/ io_disk d = 1) ->
  (x = 0 \/ x = LBA) ->
  Z.lor (Z.lor RESERVED_SHOULD_BE_ONES x) (drive_bit d) = 160 + x + 16 * io_disk d.
Proof. unfold drive_bit. by intros [-> | ->] [-> | ->]. Qed.

Lemma sector_value sector d : 0 <= sector < 2 ^ 28 -> (io_disk d = 0 \/ io_disk d = 1) ->
  Z.lor sector (Z.shiftl (Z.lor (Z.lor RESERVED_SHOULD_BE_ONES LBA) (drive_bit d)) 24) =
    sector + (224 + 16 * io_disk d) * 2 ^ 24.
Proof.
  intros Hs Hd. rewrite drive_byte by auto. change (160 + LBA) with 224.
  replace sector with (Z.lor (Z.shiftl (sector / 2 ^ 24) 24) (sector mod 2 ^ 24)) at 1.
  2: { rewrite lor_shiftl_add by (try apply Z.mod_pos_bound; lia). pose proof (Z.div_mod sector (2 ^ 24)). lia. }
  rewrite Z.lor_comm, Z.lor_assoc, <- Z.shiftl_lor.
  rewrite lor_shiftl_add by (try apply Z.mod_pos_bound; lia).
  assert (Hq : 0 <= sector / 2 ^ 24 < 2 ^ 4)
    by (split; [apply Z.div_pos | apply Z.div_lt_upper_bound]; lia).
  replace (224 + 16 * io_disk d) with (Z.shiftl (14 + io_disk d) 4)
    by (rewrite Z.shiftl_mul_pow2 by lia; lia).
  rewrite lor_shiftl_add by lia. rewrite Z.shiftl_mul_pow2 by lia.
  pose proof (Z.div_mod sector (2 ^ 24)). lia.
Qed.

(** The device with the number of a sector of drive [drive] in its registers. *)
Definition address (drive sector : Z) (a : Ata) : Ata :=
  set_lba (sector mod 256) (sector / 256 mod 256) (sector / 65536 mod 256)
          (224 + 16 * drive + sector / 16777216) a.

Lemma sector_bytes sector d : 0 <= sector < 2 ^ 28 -> (io_disk d = 0 \/ io_disk d = 1) ->
  le_bytes (sector + (224 + 16 * io_disk d) * 2 ^ 24) =
    [sector mod 256; sector / 256 mod 256; sector / 65536 mod 256;
     224 + 16 * io_disk d + sector / 16777216].
Proof.
  intros Hs Hd. unfold le_bytes. change (2 ^ 24) with 16777216. change (2 ^ 28) with 268435456 in Hs.
  destruct Hd as [-> | ->];
    repeat (apply (f_equal2 cons); [Z.div_mod_to_equations; lia |]); reflexivity.
Qed.

Lemma address_registers drive sector a : 0 <= sector < 2 ^ 28 -> (drive = 0 \/ drive = 1) ->
  ata_drive (address drive sector a) = drive /\ ata_lba (address drive sector a) = sector /\
  Z.testbit (ata_device (address drive sector a)) 6 = true.
Proof.
  intros Hs Hd. change (2 ^ 28) with 268435456 in Hs. unfold ata_drive, ata_lba. cbn [address set_lba
    lba_low lba_mid lba_high ata_device].
  split_and!.
  - destruct Hd as [-> | ->]; Z.div_mod_to_equations; lia.
  - destruct Hd as [-> | ->]; Z.div_mod_to_equations; lia.
  - rewrite Z.testbit_odd, Z.shiftr_div_pow2 by lia.
    replace ((224 + 16 * drive + sector / 16777216) / 2 ^ 6) with 3; [done |].
    change (2 ^ 6) with 64. destruct Hd as [-> | ->]; Z.div_mod_to_equations; lia.
Qed.

Lemma chunks_sectors n (l : list Z) : length l = (n * 128)%nat ->
  chunks SECTOR_WORDS l = reshape (replicate n 128%nat) l.
Proof.
  intros Hl. unfold chunks. rewrite Hl. change SECTOR_WORDS with 128.
  replace (div_ceil (Z.of_nat (n * 128)) 128) with (Z.of_nat n).
  - by rewrite Nat2Z.id.
  - pose proof (div_ceil_spec (Z.of_nat (n * 128)) 128). lia.
Qed.

Lemma length_rows {A} n m (l : list A) : length (reshape (replicate n m) l) = n.
Proof. by rewrite length_reshape, length_replicate. Qed.

Lemma lookup_rows {A} n m (l : list A) i : (i < n)%nat ->
  reshape (replicate n m) l !! i = Some (take m (drop (m * i) l)).
Proof.
  revert l i. induction n as [|n IH]; intros l i Hi; [lia |]. destruct i as [|i]; simpl.
  - by rewrite Nat.mul_0_r.
  - rewrite IH by lia. by rewrite drop_drop, Nat.mul_succ_r, Nat.add_comm.
Qed.

Lemma concat_rows {A} n m (l : list A) : length l = (n * m)%nat ->
  concat (reshape (replicate n m) l) = l.
Proof.
  intros Hl. rewrite <- (join_rows m n l Hl) at 2. generalize (reshape (replicate n m) l).
  intros rows. induction rows as [|x rows IH]; [done |]. simpl. by rewrite IH.
Qed.

Section Bus.
Context {W : Type} `{DiskIo W} {view : W -> Ata} {busy : W -> nat} {fault : W -> bool}.
Context (d : Disk) `{!AtaBus W (io_port d) view busy fault}.
Context {ok : W -> Prop} `{!Healthy W busy fault ok}.
Context (Hdrive : io_disk d = 0 \/ io_disk d = 1).

Definition ready (w : W) : Prop := busy w = O /\ fault w = false.

(** A command either succeeds, or reports an error of the disk, which a healthy
    one does not do; it does not panic. *)
Definition runs {A} (c : M W A) (w : W) (Q : W -> A -> Prop) (E : W -> Prop) : Prop :=
  match c w with
  | (w', Ok a) => Q w' a /\ (ok w -> ok w')
  | (w', Err e) => E w' /\ (e = Timeout \/ e = Medium) /\ ~ ok w
  | (_, Panic) => False
  end.

Lemma runs_ret {A} (a : A) w (Q : W -> A -> Prop) E : Q w a -> runs (retM a) w Q E.
Proof. by split. Qed.

Lemma runs_bind {A B} (c : M W A) (k : A -> M W B) w Q1 (Q : W -> B -> Prop) E E1 :
  runs c w Q1 E1 -> (forall w', E1 w' -> E w') ->
  (forall w' a, Q1 w' a -> runs (k a) w' Q E) -> runs (bindM c k) w Q E.
Proof.
  unfold runs, bindM. destruct (c w) as [w' [a|e|]]; [| naive_solver ..].
  intros [H1 Hok] _ Hk. specialize (Hk w' a H1).
  destruct (k a w') as [w'' [b|e|]]; naive_solver.
Qed.

Lemma runs_mono {A} (c : M W A) w Q1 E1 (Q : W -> A -> Prop) E :
  runs c w Q1 E1 -> (forall w' a, Q1 w' a -> Q w' a) -> (forall w', E1 w' -> E w') -> runs c w Q E.
Proof. unfold runs. destruct (c w) as [w' [a|e|]]; naive_solver. Qed.

Lemma wait_loop_cases (P : Prop) fuel w : (P -> ok w /\ (busy w < fuel)%nat) ->
  match wait_loop d fuel w with
  | (w', Ok _) => (ready w' /\ view w' = view w /\ fault w = false) /\ (P -> ok w')
  | (w', Err e) => (view w' = view w /\ fault w' = fault w) /\
      (e = Timeout \/ e = Medium) /\ ~ P
  | (_, Panic) => False
  end.
Proof.
  revert w. induction fuel as [|fuel IH]; intros w HP.
  - split; [done |]. split; [by left |]. intros [_ ?]%HP. lia.
  - pose proof (poll_view w) as Hv. pose proof (healthy_in w (io_port d + 7)) as Hin.
    pose proof (healthy_fault w) as Hff.
    simpl. unfold bindM, inb.
    destruct (port_in w (io_port d + 7)) as [w' s] eqn:E. simpl in Hv, Hin.
    destruct (decide (busy w = O)) as [Hb|Hb].
    + destruct (poll_ready w Hb) as (Hr & Hs & Hb' & Hf'). rewrite E in *. simpl in *.
      rewrite Hr, Hs. unfold liftM, ready. destruct (fault w) eqn:Ew; naive_solver.
    + destruct (poll_busy w Hb) as (Hr & Hb' & Hf'). rewrite E in *. simpl in *. rewrite Hr.
      rewrite <- Hv, <- Hf'. apply IH. intros [? ?]%HP. split; [auto | lia].
Qed.

Lemma runs_wait_ready w :
  runs (wait_ready d) w (fun w' _ => ready w' /\ view w' = view w /\ fault w = false)
    (fun w' => view w' = view w /\ fault w' = fault w).
Proof.
  apply wait_loop_cases. intros Hok. split; [done |]. pose proof (healthy_answers w Hok). lia.
Qed.

Lemma runs_register w i x : ready w -> 2 <= i <= 6 -> 0 <= x < 256 ->
  runs (outb (io_port d + i) x) w
    (fun w' _ => ready w' /\ view w' = ata_write_register (view w) i x) (fun _ => False).
Proof.
  intros [Hb Hf] Hi Hx. destruct (register_out w i x Hb Hf Hi Hx) as (? & ? & ?).
  unfold ready. split; [done |]. apply healthy_out.
Qed.

Lemma runs_command w c : ready w -> transfer (view w) = Idle ->
  runs (outb (io_port d + 7) c) w
    (fun w' _ => sectors (view w') = sectors (view w) /\
                 (fault w' = false -> view w' = ata_command (view w) c)) (fun _ => False).
Proof.
  intros [Hb Hf] Hi. split; [by apply (command_out w c Hb Hf Hi) |]. apply healthy_out.
Qed.

Lemma runs_inb w i : ready w -> 3 <= i <= 6 ->
  runs (inb (io_port d + i)) w
    (fun w' x => x = ata_read_register (view w) i /\ ready w' /\ view w' = view w) (fun _ => False).
Proof.
  intros [Hb Hf] Hi. destruct (register_in w i Hb Hf Hi) as (Hx & Hv & ? & ?).
  pose proof (healthy_in w (io_port d + i)).
  unfold runs, inb, ready. destruct (port_in w (io_port d + i)) as [w' x]. simpl in *. auto.
Qed.

Lemma runs_sector_number w sector : ready w -> 0 <= sector < 2 ^ 28 ->
  runs (write_sector_number d sector) w
    (fun w' _ => ready w' /\ view w' = address (io_disk d) sector (view w)) (fun _ => False).
Proof.
  intros Hw Hs. unfold write_sector_number.
  rewrite sector_fits by done. change (0 =? 0) with true. cbv iota beta.
  replace (sector <? 2 ^ 32) with true by lia. unfold runs. rewrite bindM_lift.
  rewrite sector_value, sector_bytes by done. cbn [zip zip_with sector_number_ports for_list].
  change (2 ^ 28) with 268435456 in Hs.
  assert (0 <= sector / 16777216 < 16) by (Z.div_mod_to_equations; lia).
  repeat (eapply runs_bind; [apply runs_register; [tauto | lia |
    cbn [fst snd]; solve [apply Z.mod_pos_bound; lia | lia]] | done | intros ? _ [? ?]]).
  apply runs_ret. split; [done |]. 
  repeat match goal with E : view _ = _ |- _ => rewrite E; clear E end. done.
Qed.

(** What the commands [READ] and [WRITE] start. *)
Definition started (command : Z) (drive lba : Z) (n : nat) : Transfer :=
  if command =? READ then Reading drive lba n else Writing drive lba n.

Lemma runs_rw_command w command start n :
  (command = READ \/ command = WRITE) -> transfer (view w) = Idle ->
  0 <= start < 2 ^ 28 -> (0 < n < 256)%nat ->
  runs (send_rw_command d command start (Z.of_nat n)) w
    (fun w' _ => sectors (view w') = sectors (view w) /\
       (fault w' = false -> transfer (view w') = started command (io_disk d) start n))
    (fun w' => view w' = view w).
Proof.
  intros Hc Hi Hs Hn. unfold send_rw_command. change (Z.shiftl 1 8) with 256.
  replace (Z.of_nat n <? 256) with true by lia.
  eapply runs_bind; [apply runs_wait_ready | by intros ? [] |]. intros w1 _ (Hr1 & Hv1 & _).
  eapply runs_bind; [apply runs_register; [done | lia | lia] | done |]. intros w2 _ [Hr2 Hv2].
  eapply runs_bind; [by apply runs_sector_number | done |]. intros w3 _ [Hr3 Hv3].
  rewrite Hv1 in Hv2. change (ata_write_register (view w) 2 (Z.of_nat n)) with
    (set_count (Z.of_nat n) (view w)) in Hv2. rewrite Hv2 in Hv3.
  destruct (address_registers (io_disk d) start (set_count (Z.of_nat n) (view w)) Hs Hdrive)
    as (Ed & El & Et).
  eapply runs_mono; [apply runs_command; [done | by rewrite Hv3] | | done].
  intros w4 _ [Es Ev]. rewrite Hv3 in Es, Ev. split; [by rewrite Es |]. intros Hf. rewrite (Ev Hf).
  unfold ata_command. rewrite Et, Ed, El. unfold ata_left.
  cbn [address set_lba set_count ata_count negb].
  replace (Z.of_nat n =? 0) with false by lia. rewrite Nat2Z.id.
  destruct Hc as [-> | ->]; done.
Qed.

(** How a write of [data] to the sectors from [lba] on gets from [w] to [w'] when it
    transfers [k] sectors: no other sector changes, and each of them was accepted
    unless it is the last one and the device reports an error. *)
Record wrote (w w' : W) (lba : Z) (data : list (list Z)) (k : nat) : Prop := {
  wrote_others : forall drive l, ~ (drive = io_disk d /\ lba <= l < lba + Z.of_nat k) ->
    sectors (view w') drive l = sectors (view w) drive l;
  wrote_data : forall i x, data !! i = Some x ->
    (S i < k \/ S i = k /\ fault w' = false)%nat ->
    sectors (view w') (io_disk d) (lba + Z.of_nat i) = x;
  wrote_none : k = O -> fault w' = fault w;
  wrote_some : k <> O -> fault w = false;
}.

Lemma wrote_nothing w w' lba data :
  view w' = view w -> fault w' = fault w -> wrote w w' lba data 0.
Proof. intros Hv Hf. split; [by rewrite Hv | lia | done | done]. Qed.

Lemma wrote_next w w1 w' lba x data k :
  fault w = false ->
  (forall drive l, ~ (drive = io_disk d /\ l = lba) ->
     sectors (view w1) drive l = sectors (view w) drive l) ->
  (fault w1 = false -> sectors (view w1) (io_disk d) lba = x) ->
  wrote w1 w' (lba + 1) data k -> wrote w w' lba (x :: data) (S k).
Proof.
  intros Hw Hothers Hx [Ho Hd Hn Hs]. split; [| | done | done].
  - intros drive l Hl. rewrite Ho by lia. apply Hothers. lia.
  - intros [|i] y; simpl; [intros [= ->] Hk | intros Hi Hk].
    + rewrite Z.add_0_r, Ho by lia. apply Hx. destruct k; [| by apply Hs].
      destruct Hk as [Hk | [_ Hk]]; [lia | by rewrite <- Hn].
    + replace (lba + Z.of_nat (S i)) with (lba + 1 + Z.of_nat i) by lia. apply Hd; [done |].
      destruct Hk as [? | [? ?]]; [left | right]; auto with lia.
Qed.

Lemma runs_write_sector w lba x left : length x = 128%nat ->
  (fault w = false -> transfer (view w) = Writing (io_disk d) lba (S left)) ->
  runs (let! _ := wait_ready d in fun w => (port_outs32 w (io_port d) x, Ok tt)) w
    (fun w' _ => fault w = false /\
       (forall drive l, ~ (drive = io_disk d /\ l = lba) ->
          sectors (view w') drive l = sectors (view w) drive l) /\
       (fault w' = false -> sectors (view w') (io_disk d) lba = x /\
          transfer (view w') = write_on (io_disk d) (lba + 1) left))
    (fun w' => view w' = view w /\ fault w' = fault w).
Proof.
  intros Hx Ht. eapply runs_bind; [apply runs_wait_ready | done |].
  intros w1 _ ([Hb Hf] & Hv & Hw). specialize (Ht Hw). rewrite <- Hv in Ht |- *.
  split; [split; [done |] | apply healthy_outs32].
  by apply (data_out w1 (io_disk d) lba left x Hb Hf Ht).
Qed.

Lemma runs_write_loop w data lba :
  Forall (fun row => length row = 128%nat) data ->
  (fault w = false -> transfer (view w) = write_on (io_disk d) lba (length data)) ->
  runs (for_list (fun sector =>
      let! _ := wait_ready d in
      fun w => (port_outs32 w (io_port d) sector, Ok tt)) data) w
    (fun w' _ => wrote w w' lba data (length data) /\
                 (fault w' = false -> transfer (view w') = Idle))
    (fun w' => exists k, (k < length data)%nat /\ wrote w w' lba data k).
Proof.
  revert w lba. induction data as [|x data IH]; intros w lba Hlen Ht; simpl for_list.
  - apply runs_ret. split; [by apply wrote_nothing | done].
  - apply list.Forall_cons in Hlen as [Hx Hlen].
    eapply runs_bind; [by apply (runs_write_sector w lba x (length data)) | |].
    + intros w1 [Hv Hf]. exists O. split; [simpl; lia | by apply wrote_nothing].
    + intros w1 [] (Hw & Ho & Hx1).
      eapply runs_mono; [apply (IH w1 (lba + 1)); [done | intros Hf1; by apply Hx1] | |].
      * intros w2 _ [E ?]. split; [| done].
        by apply (wrote_next w w1); [| | intros Hf1; by apply Hx1 |].
      * intros w2 (k & Hk & E). exists (S k). split; [simpl; lia |].
        by apply (wrote_next w w1); [| | intros Hf1; by apply Hx1 |].
Qed.

(** The same in terms of the buffer. *)
Record stored (w w' : W) (start : Z) (buffer : list Z) (k : nat) : Prop := {
  stored_others : forall drive l, ~ (drive = io_disk d /\ start <= l < start + Z.of_nat k) ->
    sectors (view w') drive l = sectors (view w) drive l;
  stored_data : forall i, (S i < k \/ S i = k /\ fault w' = false)%nat ->
    sectors (view w') (io_disk d) (start + Z.of_nat i) = take 128 (drop (128 * i) buffer);
}.

Lemma wrote_stored w w0 w' start n buffer k : (k <= n)%nat ->
  sectors (view w) = sectors (view w0) ->
  wrote w w' start (reshape (replicate n 128%nat) buffer) k -> stored w0 w' start buffer k.
Proof.
  intros Hk Hs [Ho Hd _ _]. split; [by rewrite <- Hs |].
  intros i Hi. apply Hd; [apply lookup_rows; lia | done].
Qed.

Lemma runs_pio_write w start n buffer :
  transfer (view w) = Idle -> 0 <= start < 2 ^ 28 -> (0 < n < 256)%nat ->
  length buffer = (n * 128)%nat ->
  runs (pio_write d start (start + Z.of_nat n) buffer) w
    (fun w' _ => stored w w' start buffer n /\ (fault w' = false -> transfer (view w') = Idle))
    (fun w' => exists k, (k < n)%nat /\ stored w w' start buffer k).
Proof.
  intros Hi Hs Hn Hl. unfold pio_write, sectors_len.
  replace (Z.max 0 (start + Z.of_nat n - start)) with (Z.of_nat n) by lia.
  change SECTOR_SIZE with 512. rewrite Hl.
  replace (_ =? _) with true by (symmetry; apply Z.eqb_eq; lia).
  rewrite (chunks_sectors n) by done.
  eapply runs_bind; [by apply runs_rw_command; [right | ..] | |].
  - intros w1 Hv. exists O. split; [lia |]. split; [by rewrite Hv | lia].
  - intros w1 _ [Es Ht]. assert (Hc : length (reshape (replicate n 128%nat) buffer) = n)
      by apply length_rows.
    eapply runs_mono; [apply (runs_write_loop w1 _ start) | |].
    + by apply reshape_uniform.
    + intros Hf. rewrite (Ht Hf), Hc. by destruct n; [lia |].
    + rewrite Hc. intros w2 _ [? ?]. split; [by apply (wrote_stored w1 w w2 start n) | done].
    + rewrite Hc. intros w2 (k & Hk & ?). exists k. split; [done |].
      apply (wrote_stored w1 w w2 start n); [lia | done | done].
Qed.

(** A write that is not followed by an error has stored the buffer. *)
Lemma stored_all w w' start n buffer : stored w w' start buffer n -> fault w' = false ->
  forall drive l, sectors (view w') drive l =
    if decide (drive = io_disk d /\ start <= l < start + Z.of_nat n)
    then take 128 (drop (128 * Z.to_nat (l - start)) buffer)
    else sectors (view w) drive l.
Proof.
  intros [Ho Hd] Hf drive l. case_decide as Hc; [| by apply Ho].
  destruct Hc as [-> Hl]. rewrite <- (Hd (Z.to_nat (l - start))); [f_equal; lia |].
  destruct (decide (S (Z.to_nat (l - start)) = n)); [by right | left; lia].
Qed.

(** The contents of the sectors from [lba] on. *)
Definition contents (s : Z -> Z -> list Z) (drive lba : Z) (n : nat) : list Z :=
  concat ((fun i => s drive (lba + Z.of_nat i)) <$> seq 0 n).

Lemma contents_S s drive lba n :
  contents s drive lba (S n) = s drive lba ++ contents s drive (lba + 1) n.
Proof.
  unfold contents. cbn [seq fmap list_fmap concat]. rewrite Z.add_0_r. f_equal.
  rewrite <- fmap_S_seq, <- list_fmap_compose. f_equal. apply list_fmap_ext. intros _ i _. simpl.
  f_equal. lia.
Qed.

Lemma read_sectors_spec buffer w lba :
  Forall (fun row => length row = 128%nat) buffer ->
  (fault w = false -> transfer (view w) = read_on (io_disk d) lba (length buffer)) ->
  match read_sectors d buffer w with
  | (w', (data, Ok _)) => data = contents (sectors (view w)) (io_disk d) lba (length buffer) /\
      sectors (view w') = sectors (view w) /\
      (fault w' = false -> transfer (view w') = Idle) /\ (ok w -> ok w')
  | (w', (data, Err e)) => (e = Timeout \/ e = Medium) /\ ~ ok w /\
      sectors (view w') = sectors (view w) /\
      exists k, (k < length buffer)%nat /\
        data = contents (sectors (view w)) (io_disk d) lba k ++ concat (drop k buffer)
  | (_, (_, Panic)) => False
  end.
Proof.
  revert w lba. induction buffer as [|x buffer IH]; intros w lba Hlen Ht; [done |].
  apply list.Forall_cons in Hlen as [Hx Hlen]. cbn [read_sectors].
  pose proof (runs_wait_ready w) as Hw. unfold runs in Hw.
  destruct (wait_ready d w) as [w1 [[]|e|]]; [| | done].
  - destruct Hw as [([Hb Hf] & Hv & Hw) Hok]. specialize (Ht Hw).
    rewrite <- Hv in Ht |- *. rewrite Hx.
    pose proof (data_in w1 (io_disk d) lba (length buffer) Hb Hf Ht) as Hd.
    pose proof (healthy_ins32 w1 (io_port d) 128%nat) as Hh.
    change (Z.to_nat SECTOR_WORDS) with 128%nat in *.
    destruct (port_ins32 w1 (io_port d) 128%nat) as [w2 data]. simpl in Hh.
    destruct Hd as (-> & Ev & Et).
    specialize (IH w2 (lba + 1) Hlen Et). rewrite Ev in IH. cbn [length].
    destruct (read_sectors d buffer w2) as [w3 [rest [[]|e|]]]; [| | done].
    + destruct IH as (-> & Es & Ei & Ho). rewrite contents_S. split_and!; auto.
    + destruct IH as (He & Ho & Es & k & Hk & ->). split_and!; [done | auto | done |].
      exists (S k). split; [lia |]. rewrite contents_S. by rewrite app_assoc.
  - destruct Hw as ([Hv _] & He & Ho). split_and!; [done | done | by rewrite Hv |].
    exists O. split; [simpl; lia | done].
Qed.

Lemma pio_read_spec w start n buffer :
  transfer (view w) = Idle -> 0 <= start < 2 ^ 28 -> (0 < n < 256)%nat ->
  length buffer = (n * 128)%nat -> ok w ->
  exists w', pio_read d start (start + Z.of_nat n) buffer w =
      (w', (contents (sectors (view w)) (io_disk d) start n, Ok tt)) /\
    sectors (view w') = sectors (view w) /\ transfer (view w') = Idle /\ ok w'.
Proof.
  intros Hi Hs Hn Hl Hok. unfold pio_read, sectors_len.
  replace (Z.max 0 (start + Z.of_nat n - start)) with (Z.of_nat n) by lia.
  change SECTOR_SIZE with 512. rewrite Hl.
  replace (_ =? _) with true by (symmetry; apply Z.eqb_eq; lia).
  rewrite (chunks_sectors n) by done.
  pose proof (runs_rw_command w READ start n (or_introl eq_refl) Hi Hs Hn) as Hc. unfold runs in Hc.
  destruct (send_rw_command d READ start (Z.of_nat n) w) as [w1 [[]|e|]]; [| tauto | tauto].
  destruct Hc as [[<- Ht] Ho].
  assert (Hr : length (reshape (replicate n 128%nat) buffer) = n)
    by apply length_rows.
  pose proof (read_sectors_spec (reshape (replicate n 128%nat) buffer) w1 start
    (reshape_uniform _ _ _ Hl)) as Hd.
  rewrite Hr in Hd. specialize (Hd ltac:(intros Hf; rewrite (Ht Hf); by destruct n; [lia |])).
  destruct (read_sectors d _ w1) as [w2 [data [[]|e|]]]; [| tauto | done].
  destruct Hd as (-> & ? & Hi2 & ?). exists w2. split_and!; [done | done | | auto].
  apply Hi2, healthy_fault. auto.
Qed.

(** What is stored is read. *)
Lemma contents_rows s drive lba rows :
  (forall i x, rows !! i = Some x -> s drive (lba + Z.of_nat i) = x) ->
  contents s drive lba (length rows) = concat rows.
Proof.
  revert lba. induction rows as [|x rows IH]; intros lba Hx; [done |].
  cbn [length]. rewrite contents_S. cbn [concat]. f_equal.
  - rewrite <- (Hx O x eq_refl). f_equal. lia.
  - apply IH. intros i y Hi. rewrite <- (Hx (S i) y Hi). f_equal. lia.
Qed.

Lemma contents_stored w w' start n buffer : length buffer = (n * 128)%nat ->
  stored w w' start buffer n -> fault w' = false ->
  contents (sectors (view w')) (io_disk d) start n = buffer.
Proof.
  intros Hl [_ Hd] Hf. rewrite <- (concat_rows n 128 buffer Hl).
  rewrite <- (length_rows n 128 buffer) at 1. apply contents_rows. intros i x Hi.
  pose proof (lookup_lt_Some _ _ _ Hi) as Hlt. rewrite length_rows in Hlt.
  rewrite lookup_rows in Hi by done. injection Hi as <-. apply Hd.
  destruct (decide (S i = n)); [by right | left; lia].
Qed.

(** *** Other commands *)

Lemma runs_send_command w command argument :
  (argument = 0 \/ argument = LBA) -> (fault w = false -> transfer (view w) = Idle) ->
  runs (send_command d command argument) w
    (fun w' _ => ready w' /\ fault w = false /\
       view w' = ata_command (ata_write_register (view w) 6
                   (160 + argument + 16 * io_disk d)) command)
    (fun w' => sectors (view w') = sectors (view w)).
Proof.
  intros Ha Hi. unfold send_command. rewrite drive_byte by done.
  eapply runs_bind; [apply runs_wait_ready | by intros ? [-> _] |]. intros w1 _ (Hr1 & Hv1 & Hf).
  eapply runs_bind; [apply runs_register; [done | lia | change LBA with 64 in Ha; lia] | done |].
  intros w2 _ [Hr2 Hv2]. rewrite Hv1 in Hv2.
  eapply runs_bind; [apply runs_command; [done | rewrite Hv2; auto] | done |].
  intros w3 [] [Es3 Hv3]. rewrite Hv2 in Hv3, Es3.
  eapply runs_mono; [apply runs_wait_ready | |].
  - intros w4 _ (? & -> & ?). auto.
  - intros w4 [-> _]. by rewrite Es3.
Qed.

(** A flush that succeeds leaves the sectors, and the device had no error to
    report. *)
Lemma flush_ok w w' : (fault w = false -> transfer (view w) = Idle) ->
  flush d w = (w', Ok tt) -> fault w = false /\ sectors (view w') = sectors (view w).
Proof.
  intros Hi. pose proof (runs_send_command w FLUSH_CACHE 0 (or_introl eq_refl) Hi) as Hc.
  unfold flush. unfold runs in Hc.
  destruct (send_command d FLUSH_CACHE 0 w) as [w1 [[]|e|]]; [| by destruct (read_sector_number d w1) |
    done].
  intros [= <-]. destruct Hc as [(_ & Hf & ->) _]. split; [done |].
  unfold ata_command. by repeat case_match.
Qed.

Lemma runs_read_sector_number w : ready w ->
  0 <= lba_low (view w) < 256 -> 0 <= lba_mid (view w) < 256 -> 0 <= lba_high (view w) < 256 ->
  0 <= ata_device (view w) ->
  runs (read_sector_number d) w
    (fun w' n => n = ata_lba (view w) /\ view w' = view w) (fun _ => False).
Proof.
  intros Hr HL0 HL1 HL2 HL3. unfold read_sector_number.
  cbn [rev sector_number_ports app for_fold].
  assert (Hstep : forall n i w', view w' = view w -> ready w' -> 3 <= i <= 6 ->
    runs (let! x := inb (io_port d + i) in retM (Z.lor (Z.shiftl n 8) x)) w'
      (fun w'' m => m = Z.lor (Z.shiftl n 8) (ata_read_register (view w) i) /\
                    ready w'' /\ view w'' = view w) (fun _ => False)).
  { intros n i w' Hv' Hr' Hi. eapply runs_bind; [by apply runs_inb | done |].
    intros w'' x (-> & ? & Hv''). apply runs_ret. rewrite Hv''. by rewrite Hv'. }
  eapply (runs_bind _ _ _ (fun w' n => n = 16777216 * ata_device (view w) + 65536 * lba_high (view w) +
    256 * lba_mid (view w) + lba_low (view w) /\ view w' = view w) _ _ (fun _ => False)); [| done |].
  - eapply runs_bind; [apply Hstep; [done | done | lia] | done |]. intros w1 ? (-> & ? & ?).
    eapply runs_bind; [apply Hstep; [done | done | lia] | done |]. intros w2 ? (-> & ? & ?).
    eapply runs_bind; [apply Hstep; [done | done | lia] | done |]. intros w3 ? (-> & ? & ?).
    eapply runs_bind; [apply Hstep; [done | done | lia] | done |]. intros w4 ? (-> & ? & ?).
    apply runs_ret. split; [| done].
    change (Z.shiftl 0 8) with 0. rewrite Z.lor_0_l.
    cbn [ata_read_register Z.eqb Pos.eqb].
    rewrite !lor_shiftl_add by (change (2 ^ 8) with 256; lia). lia.
  - intros w1 ? [-> ?]. apply runs_ret. split; [| done].
    change SECTOR_NUMBER_MASK with (Z.ones 28). rewrite Z.land_ones by lia.
    unfold ata_lba. change (2 ^ 28) with 268435456. Z.div_mod_to_equations. lia.
Qed.

Lemma runs_block_count w : transfer (view w) = Idle ->
  0 <= native_max (view w) (io_disk d) < 2 ^ 28 ->
  runs (block_count d) w
    (fun w' n => n = (native_max (view w) (io_disk d) + 1) / 8 /\
                 sectors (view w') = sectors (view w))
    (fun w' => sectors (view w') = sectors (view w)).
Proof.
  intros Hi Hm. unfold block_count. change (2 ^ 28) with 268435456 in Hm.
  eapply runs_bind; [apply runs_send_command; [by right | done] | done |]. intros w1 _ (Hr & _ & Hv).
  set (m := native_max (view w) (io_disk d)) in *.
  assert (E : view w1 = set_lba (m mod 256) (m / 256 mod 256) (m / 65536 mod 256)
            (224 + 16 * io_disk d + m / 16777216) (ata_write_register (view w) 6 (224 + 16 * io_disk d))).
  { rewrite Hv. change (160 + LBA) with 224. unfold ata_command.
    replace (Z.testbit _ 6) with true by (cbn [ata_write_register set_lba ata_device Z.eqb Pos.eqb];
      destruct Hdrive as [-> | ->]; done).
    cbn [negb]. change (READ_NATIVE_MAX_ADDRESS =? READ) with false.
    change (READ_NATIVE_MAX_ADDRESS =? WRITE) with false. rewrite Z.eqb_refl. cbv iota zeta.
    replace (ata_drive _) with (io_disk d)
      by (unfold ata_drive; cbn; destruct Hdrive as [-> | ->]; done).
    cbn [ata_write_register set_lba ata_device native_max Z.eqb Pos.eqb]. fold m. f_equal.
    destruct Hdrive as [-> | ->]; Z.div_mod_to_equations; lia. }
  assert (Hq : 0 <= m / 16777216 < 16) by (Z.div_mod_to_equations; lia).
  assert (Hread := runs_read_sector_number w1 Hr). rewrite E in Hread.
  cbn [set_lba lba_low lba_mid lba_high ata_device] in Hread.
  eapply runs_bind; [apply Hread; try apply Z.mod_pos_bound; lia | done |].
  intros w2 n [-> Hv2].
  replace (ata_lba _) with m by (unfold ata_lba; cbn [set_lba lba_low lba_mid lba_high ata_device];
    destruct Hdrive as [-> | ->]; Z.div_mod_to_equations; lia).
  unfold runs. rewrite usize_add_ok by solve_word. rewrite bindM_lift.
  apply runs_ret. split; [done |]. by rewrite Hv2.
Qed.

End Bus.

(** For a disk about which nothing is known. *)
#[local] Instance Unhealthy {W : Type} `{DiskIo W} (busy : W -> nat) (fault : W -> bool) :
  Healthy W busy fault (fun _ => False).
Proof. by constructor. Qed.

(** C23. On a disk that answers, any range of 1 to 255 sectors below the limit of
    28-bit sector numbers can be written: afterwards the sectors of the range on
    this drive hold the buffer, every other sector of both drives is unchanged,
    and reading the range returns exactly the buffer, whatever the destination
    held, and leaves the disk as it was. *)
Theorem disk_roundtrip {W : Type} `{DiskIo W} (view : W -> Ata) (busy : W -> nat)
    (fault : W -> bool) (ok : W -> Prop) (d : Disk)
    `{!AtaBus W (io_port d) view busy fault} `{!Healthy W busy fault ok}
    (w : W) (start : Z) (n : nat) (buffer old : list Z) :
  (io_disk d = 0 \/ io_disk d = 1) -> ok w -> transfer (view w) = Idle ->
  0 <= start -> start + Z.of_nat n <= 2 ^ 28 -> (0 < n < 256)%nat ->
  length buffer = (n * 128)%nat -> length old = (n * 128)%nat ->
  exists w1 w2,
    pio_write d start (start + Z.of_nat n) buffer w = (w1, Ok tt) /\
    (forall drive l, sectors (view w1) drive l =
       if decide (drive = io_disk d /\ start <= l < start + Z.of_nat n)
       then take 128 (drop (128 * Z.to_nat (l - start)) buffer)
       else sectors (view w) drive l) /\
    pio_read d start (start + Z.of_nat n) old w1 = (w2, (buffer, Ok tt)) /\
    sectors (view w2) = sectors (view w1) /\ transfer (view w2) = Idle /\ ok w2.
Proof.
  intros Hd Hok Hi Hs0 Hs1 Hn Hb Ho.
  pose proof (runs_pio_write d Hd w start n buffer Hi ltac:(lia) Hn Hb) as Hw. unfold runs in Hw.
  destruct (pio_write d start (start + Z.of_nat n) buffer w) as [w1 [[]|e|]] eqn:E;
    [| tauto | tauto].
  destruct Hw as [[Hs Hi1] Hok1]. specialize (Hok1 Hok).
  pose proof (healthy_fault w1 Hok1) as Hf1.
  destruct (pio_read_spec d Hd w1 start n old (Hi1 Hf1) ltac:(lia) Hn Ho Hok1)
    as (w2 & Er & Es & Hi2 & Hok2).
  exists w1, w2. rewrite (contents_stored d w w1 start n buffer Hb Hs Hf1) in Er.
  split_and!; auto. exact (stored_all d w w1 start n buffer Hs Hf1).
Qed.

(** C24. Whatever errors the disk reports, a write of 1 to 255 sectors does not
    panic and fails only with a time-out or an error of the medium.  A write that
    succeeds has transferred all sectors, one that fails only some first ones; no
    other sector of both drives changes.  Each transferred sector holds its part of
    the buffer, the last one if the disk does not then report an error.  The driver
    does not look for that error, but the next [flush] does: when the write and a
    flush after it succeed, the sectors of the range hold the buffer. *)
Theorem disk_write_prefix {W : Type} `{DiskIo W} (view : W -> Ata) (busy : W -> nat)
    (fault : W -> bool) (d : Disk) `{!AtaBus W (io_port d) view busy fault}
    (w : W) (start : Z) (n : nat) (buffer : list Z) :
  (io_disk d = 0 \/ io_disk d = 1) -> transfer (view w) = Idle ->
  0 <= start -> start + Z.of_nat n <= 2 ^ 28 -> (0 < n < 256)%nat ->
  length buffer = (n * 128)%nat ->
  exists w' r k,
    pio_write d start (start + Z.of_nat n) buffer w = (w', r) /\
    (r = Ok tt /\ k = n \/ (r = Err Timeout \/ r = Err Medium) /\ (k < n)%nat) /\
    (forall drive l, ~ (drive = io_disk d /\ start <= l < start + Z.of_nat k) ->
       sectors (view w') drive l = sectors (view w) drive l) /\
    (forall i, (S i < k \/ S i = k /\ fault w' = false)%nat ->
       sectors (view w') (io_disk d) (start + Z.of_nat i) = take 128 (drop (128 * i) buffer)) /\
    (forall w'', r = Ok tt -> flush d w' = (w'', Ok tt) ->
       forall drive l, sectors (view w'') drive l =
         if decide (drive = io_disk d /\ start <= l < start + Z.of_nat n)
         then take 128 (drop (128 * Z.to_nat (l - start)) buffer)
         else sectors (view w) drive l).
Proof.
  intros Hd Hi Hs0 Hs1 Hn Hb.
  pose proof (runs_pio_write (ok := fun _ => False) d Hd w start n buffer Hi ltac:(lia) Hn Hb) as Hw.
  unfold runs in Hw.
  destruct (pio_write d start (start + Z.of_nat n) buffer w) as [w1 [[]|e|]] eqn:E; [| | done].
  - destruct Hw as [[Hs Hi1] _]. exists w1, (Ok tt), n.
    split_and!; [done | by left | apply Hs | apply Hs |]. intros w2 _ Hfl.
    destruct (flush_ok (ok := fun _ => False) d Hd w1 w2 Hi1 Hfl) as [Hf ->].
    exact (stored_all d w w1 start n buffer Hs Hf).
  - destruct Hw as ((k & Hk & Hs) & He & _). exists w1, (Err e), k.
    split_and!; [done | right; split; [naive_solver | done] | apply Hs | apply Hs | done].
Qed.

(** The disks 0 to 3 exist, and no two of them answer to the same port and
    drive. *)
Lemma disk_new_exact i : 0 <= i ->
  match disk_new i with
  | Ok d => i < 4 /\ id d = i /\ (io_disk d = 0 \/ io_disk d = 1) /\
            i = 2 * (if io_port d =? ATA0_BASE_PORT then 0 else 1) + io_disk d
  | Err e => e = NoDisk /\ 4 <= i
  | Panic => False
  end.
Proof.
  intros Hi. destruct (Z_lt_dec i 4) as [H4|H4].
  - assert (Hc : i = 0 \/ i = 1 \/ i = 2 \/ i = 3) by lia.
    destruct Hc as [-> | [-> | [-> | ->]]]; (split_and!; [lia | done | by auto | done]).
  - unfold disk_new. destruct (i <? 256); [| split; [done | lia]].
    assert (2 <= i / 2) by (apply Z.div_le_lower_bound; lia).
    unfold disk_io_port. replace (i / 2 =? 0) with false by lia.
    replace (i / 2 =? 1) with false by lia. split; [done | lia].
Qed.

(** ** A bus with two drives

    It is busy for two polls after a command and for one after each sector, and
    may be set up to report an error after some sectors; a sector for which it
    does so is spoilt. *)

Record SampleBus := {
  bus_ata : Ata;
  bus_busy : nat;
  bus_fault : option nat;
}.

Definition bus_failing (w : SampleBus) : bool :=
  match bus_fault w with Some O => true | _ => false end.

Definition bus_set (a : Ata) (w : SampleBus) : SampleBus :=
  {| bus_ata := a; bus_busy := bus_busy w; bus_fault := bus_fault w |}.

Definition bus_status (w : SampleBus) : Z :=
  if (bus_busy w =? 0)%nat
  then Z.lor STATUS_READY (if bus_failing w then STATUS_ERROR else 0) else STATUS_BUSY.

Definition bus_sector (a : Ata) (w : SampleBus) : SampleBus :=
  {| bus_ata := a; bus_busy := 1; bus_fault := pred <$> bus_fault w |}.

#[export] Instance SampleBus_io : PortIo SampleBus := {
  port_in := fun w port =>
    if port =? ATA0_BASE_PORT + 7
    then ({| bus_ata := bus_ata w; bus_busy := pred (bus_busy w); bus_fault := bus_fault w |},
          bus_status w)
    else (w, ata_read_register (bus_ata w) (port - ATA0_BASE_PORT));
  port_out := fun w port x =>
    if port =? ATA0_BASE_PORT + 7
    then {| bus_ata := ata_command (bus_ata w) x; bus_busy := 2; bus_fault := bus_fault w |}
    else bus_set (ata_write_register (bus_ata w) (port - ATA0_BASE_PORT) x) w;
}.

#[export] Instance SampleBus_disk : DiskIo SampleBus := {
  port_ins32 := fun w _ _ =>
    match transfer (bus_ata w) with
    | Reading drive lba (S n) =>
        (bus_sector (set_transfer (read_on drive (lba + 1) n) (bus_ata w)) w,
         sectors (bus_ata w) drive lba)
    | _ => (w, [])
    end;
  port_outs32 := fun w _ data =>
    match transfer (bus_ata w) with
    | Writing drive lba (S n) =>
        match bus_fault w with
        | Some 1%nat => bus_sector (set_sector drive lba (replicate 128 0xFFFFFFFF)
                          (set_transfer Idle (bus_ata w))) w
        | _ => bus_sector (set_sector drive lba data
                 (set_transfer (write_on drive (lba + 1) n) (bus_ata w))) w
        end
    | _ => w
    end;
  polls := fun _ => 3%nat;
}.

Definition second_disk : Disk := {| id := 1; io_disk := 1; io_port := ATA0_BASE_PORT |}.

#[export] Instance SampleBus_ata :
  AtaBus SampleBus (io_port second_disk) bus_ata bus_busy bus_failing.
Proof.
  constructor; cbn [port_in port_out port_ins32 port_outs32 SampleBus_io SampleBus_disk].
  - done.
  - intros w Hb. rewrite Z.eqb_refl. cbn [fst snd bus_busy].
    unfold bus_status. by destruct (bus_busy w).
  - intros w Hb. rewrite Z.eqb_refl. cbn [fst snd bus_busy].
    unfold bus_status. rewrite Hb. simpl. destruct (bus_failing w) eqn:E; split_and!; try done.
  - intros w i x Hb Hf Hi Hx. replace (_ =? _) with false by (cbn [io_port second_disk]; lia).
    replace (_ + i - _) with i by (cbn [io_port second_disk]; lia). done.
  - intros w i Hb Hf Hi. replace (_ =? _) with false by (cbn [io_port second_disk]; lia).
    replace (_ + i - _) with i by (cbn [io_port second_disk]; lia). done.
  - intros w c Hb Hf Hi. rewrite Z.eqb_refl. cbn [bus_ata]. split; [| done].
    unfold ata_command. by repeat case_match.
  - intros w drive lba left Hb Hf ->. done.
  - intros w drive lba left data Hb Hf -> Hl. unfold bus_failing in *.
    destruct (bus_fault w) as [[|[|f]]|] eqn:E; [done | ..]; simpl; rewrite E; simpl;
      (split; [intros drive' l ?; by rewrite decide_False | intros ?]);
      try done; by rewrite decide_True.
Qed.

Definition bus_healthy (w : SampleBus) : Prop := bus_fault w = None /\ (bus_busy w <= 3)%nat.

#[export] Instance SampleBus_healthy : Healthy SampleBus bus_busy bus_failing bus_healthy.
Proof.
  unfold bus_healthy, bus_failing. constructor;
    cbn [port_in port_out port_ins32 port_outs32 polls SampleBus_io SampleBus_disk].
  - by intros w [_ ?].
  - by intros w [-> _].
  - intros w port [? ?]. destruct (port =? _); simpl; split; [done | lia | done | done].
  - intros w port x [? ?]. destruct (port =? _); simpl; split; [done | lia | done | done].
  - intros w port n [Hf ?]. destruct (transfer (bus_ata w)) as [|? ? []|]; simpl; rewrite ?Hf;
      simpl; auto with lia.
  - intros w port l [Hf ?]. rewrite Hf.
    destruct (transfer (bus_ata w)) as [| |? ? []]; simpl; rewrite ?Hf; auto with lia.
Qed.

Definition sample_bus (f : option nat) : SampleBus :=
  {| bus_ata := {| ata_count := 0; lba_low := 0; lba_mid := 0; lba_high := 0; ata_device := 0;
                   transfer := Idle; sectors := fun _ _ => replicate 128 0;
                   native_max := fun _ => 2047 |};
     bus_busy := 1; bus_fault := f |}.

Definition sample_buffer : list Z := replicate 128 1 ++ replicate 128 2.

Lemma disk_roundtrip_witness : exists w1 w2,
  pio_write second_disk 20000000 (20000000 + Z.of_nat 2) sample_buffer (sample_bus None) =
    (w1, Ok tt) /\
  (forall drive l, sectors (bus_ata w1) drive l =
     if decide (drive = io_disk second_disk /\ 20000000 <= l < 20000000 + Z.of_nat 2)
     then take 128 (drop (128 * Z.to_nat (l - 20000000)) sample_buffer)
     else sectors (bus_ata (sample_bus None)) drive l) /\
  pio_read second_disk 20000000 (20000000 + Z.of_nat 2) (replicate 256 9) w1 =
    (w2, (sample_buffer, Ok tt)) /\
  sectors (bus_ata w2) = sectors (bus_ata w1) /\ transfer (bus_ata w2) = Idle /\ bus_healthy w2.
Proof.
  apply (disk_roundtrip bus_ata bus_busy bus_failing bus_healthy second_disk
    (sample_bus None) 20000000 2%nat sample_buffer (replicate 256 9));
    [by right | split; [done | simpl; lia] | done | lia | lia | lia | done | done].
Defined.

(** The first of two sectors fails. *)
Lemma disk_write_prefix_witness : exists w' r k,
  pio_write second_disk 7 (7 + Z.of_nat 2) sample_buffer (sample_bus (Some 1%nat)) = (w', r) /\
  (r = Ok tt /\ k = 2%nat \/ (r = Err Timeout \/ r = Err Medium) /\ (k < 2)%nat) /\
  (forall drive l, ~ (drive = io_disk second_disk /\ 7 <= l < 7 + Z.of_nat k) ->
     sectors (bus_ata w') drive l = sectors (bus_ata (sample_bus (Some 1%nat))) drive l) /\
  (forall i, (S i < k \/ S i = k /\ bus_failing w' = false)%nat ->
     sectors (bus_ata w') (io_disk second_disk) (7 + Z.of_nat i) =
       take 128 (drop (128 * i) sample_buffer)) /\
  (forall w'', r = Ok tt -> flush second_disk w' = (w'', Ok tt) ->
     forall drive l, sectors (bus_ata w'') drive l =
       if decide (drive = io_disk second_disk /\ 7 <= l < 7 + Z.of_nat 2)
       then take 128 (drop (128 * Z.to_nat (l - 7)) sample_buffer)
       else sectors (bus_ata (sample_bus (Some 1%nat))) drive l).
Proof.
  apply (disk_write_prefix bus_ata bus_busy bus_failing second_disk
    (sample_bus (Some 1%nat)) 7 2%nat sample_buffer);
    [by right | done | lia | lia | lia | done].
Defined.

Example sample_write_fails :
  (pio_write second_disk 7 9 sample_buffer (sample_bus (Some 1%nat))).2 = Err Medium.
Proof. vm_compute. reflexivity. Qed.

(** The error of the last sector goes unnoticed by the write, though the sector
    does not hold the buffer, and is reported by the flush. *)
Example sample_last_sector_lost :
  let '(w, r) := pio_write second_disk 7 9 sample_buffer (sample_bus (Some 2%nat)) in
  r = Ok tt /\ sectors (bus_ata w) 1 8 <> drop 128 sample_buffer /\
  (flush second_disk w).2 = Err Medium.
Proof. vm_compute. split_and!; congruence. Qed.

Example sample_block_count : (block_count second_disk (sample_bus None)).2 = Ok 256.
Proof. vm_compute. reflexivity. Qed.

Example sample_flush : (flush second_disk (sample_bus None)).2 = Ok tt.
Proof. vm_compute. reflexivity. Qed.

(** An empty range of sectors asks the disk for a transfer of 256 sectors, of
    which the driver then transfers none. *)
Example empty_write_leaves_transfer :
  let '(w, r) := pio_write second_disk 7 7 [] (sample_bus None) in
  r = Ok tt /\ transfer (bus_ata w) = Writing 1 7 256.
Proof. vm_compute. done. Qed.
