(* ===== verification/FileSystem.v ===== *)
(** * The file system

    The parts of [kernel/src/fs] that are independent of the block cache: the
    layout described by the superblock ([superblock.rs]), directory entries
    ([directory_entry.rs]), the bitmaps of blocks and inodes ([bitmap.rs]) on top
    of [Bitmap], the limits of an inode ([inode.rs]) and the accounting of space
    ([file_system.rs]).  The size of an inode depends on the time stamp of
    [chrono] and is the parameter [inode_size]; the sources assert that it divides
    the size of a block. *)

From stdpp Require Import base list numbers option tactics sets.
From Stdlib Require Import ZArith Lia.
From S2P Require Import Prelude Bitmap Syscall Disk.

Open Scope Z_scope.

(** ** The superblock *)

(** ["Nikka's simple file system"]. *)
Definition MAGIC : list Z :=
  [78; 105; 107; 107; 97; 39; 115; 32; 115; 105; 109; 112; 108; 101; 32;
   102; 105; 108; 101; 32; 115; 121; 115; 116; 101; 109].
Definition ENDIAN : Z := 0x0102030405060708.
Definition SUPERBLOCK_BLOCK : Z := 1.
Definition FIRST_BITMAP_BLOCK : Z := SUPERBLOCK_BLOCK + 1.
Definition ROOT_INODE : Z := 2.

Record Superblock := {
  magic : list Z;
  endian : Z;
  sb_block_count : Z;
  inode_count : Z;
}.

(** The number of blocks that a bitmap occupies. *)
Definition size_in_blocks (elements : Z) : Z := div_ceil elements (8 * BLOCK_SIZE).

Section Layout.
Context (inode_size : Z).

(** The ranges of blocks as their bounds. *)
Definition block_bitmap (s : Superblock) : outcome (Z * Z) :=
  let start := FIRST_BITMAP_BLOCK in
  let? end_ := usize_add start (size_in_blocks (sb_block_count s)) in
  Ok (start, end_).

Definition inode_bitmap (s : Superblock) : outcome (Z * Z) :=
  let? (_, start) := block_bitmap s in
  let? end_ := usize_add start (size_in_blocks (inode_count s)) in
  Ok (start, end_).

Definition inode_table (s : Superblock) : outcome (Z * Z) :=
  let? (_, start) := inode_bitmap s in
  let? bytes := usize_mul inode_size (inode_count s) in
  let? end_ := usize_add start (div_ceil bytes BLOCK_SIZE) in
  Ok (start, end_).

Definition blocks (s : Superblock) : outcome (Z * Z) :=
  let? (_, start) := inode_table s in
  Ok (start, sb_block_count s).

Definition inodes (s : Superblock) : Z * Z := (ROOT_INODE + 1, inode_count s).

Definition root (s : Superblock) : Z := ROOT_INODE.

Definition superblock_validate (s : Superblock) : outcome unit :=
  if bool_decide (magic s = MAGIC) && (endian s =? ENDIAN) then
    let? (start, _) := blocks s in
    if (start <? sb_block_count s) && ((inodes s).1 <? inode_count s) then Ok tt else Err Medium
  else Err Medium.

(** The fields that [Superblock::format] fills in, with the check it ends with. *)
Definition superblock_format (block_count inode_count : Z) : outcome Superblock :=
  let s := {| magic := MAGIC; endian := ENDIAN;
              sb_block_count := block_count; inode_count := inode_count |} in
  let? _ := superblock_validate s in
  Ok s.

(** The numbers that [FileSystem::format] passes for a disk of [block_count]
    blocks. *)
Definition default_blocks_per_inode : Z := 4.
Definition format_superblock (block_count : Z) : outcome Superblock :=
  superblock_format block_count (block_count / default_blocks_per_inode).

(** *** The layout *)

(** The boundaries without the checks for overflow. *)
Definition bitmap_end (s : Superblock) : Z := 2 + size_in_blocks (sb_block_count s).
Definition inode_bitmap_end (s : Superblock) : Z := bitmap_end s + size_in_blocks (inode_count s).
Definition table_end (s : Superblock) : Z :=
  inode_bitmap_end s + div_ceil (inode_size * inode_count s) BLOCK_SIZE.

Record superblock_typed (s : Superblock) : Prop := {
  typed_blocks : is_usize (sb_block_count s);
  typed_inodes : is_usize (inode_count s);
}.

Lemma size_in_blocks_bound n : is_usize n ->
  0 <= size_in_blocks n <= 2 ^ 49 /\
  (size_in_blocks n - 1) * (8 * BLOCK_SIZE) < n <= size_in_blocks n * (8 * BLOCK_SIZE).
Proof.
  unfold is_usize, size_in_blocks. change (8 * BLOCK_SIZE) with 32768. intros Hn.
  pose proof (div_ceil_spec n 32768). pose proof (div_ceil_nonneg n 32768). lia.
Qed.

Lemma table_bound n : is_usize (inode_size * n) ->
  0 <= div_ceil (inode_size * n) BLOCK_SIZE <= 2 ^ 52 /\
  (div_ceil (inode_size * n) BLOCK_SIZE - 1) * BLOCK_SIZE < inode_size * n <=
    div_ceil (inode_size * n) BLOCK_SIZE * BLOCK_SIZE.
Proof.
  unfold is_usize. change BLOCK_SIZE with 4096. intros Hn.
  pose proof (div_ceil_spec (inode_size * n) 4096). pose proof (div_ceil_nonneg (inode_size * n) 4096).
  lia.
Qed.

Lemma layout_bitmaps s : superblock_typed s ->
  block_bitmap s = Ok (2, bitmap_end s) /\ inode_bitmap s = Ok (bitmap_end s, inode_bitmap_end s).
Proof.
  intros [Hb Hi]. destruct (size_in_blocks_bound _ Hb) as [B1 _].
  destruct (size_in_blocks_bound _ Hi) as [B2 _].
  assert (E : block_bitmap s = Ok (2, bitmap_end s)).
  { unfold block_bitmap, bitmap_end. rewrite usize_add_ok; [done |].
    change FIRST_BITMAP_BLOCK with 2. unfold is_usize. lia. }
  split; [done |]. unfold inode_bitmap, inode_bitmap_end. rewrite E.
  rewrite usize_add_ok; [done |]. unfold is_usize, bitmap_end. lia.
Qed.

Lemma layout_table s : superblock_typed s -> is_usize (inode_size * inode_count s) ->
  inode_table s = Ok (inode_bitmap_end s, table_end s) /\
  blocks s = Ok (table_end s, sb_block_count s).
Proof.
  intros Hs Hm. destruct (layout_bitmaps s Hs) as [_ E]. destruct (table_bound _ Hm) as [B3 _].
  destruct Hs as [Hb Hi]. destruct (size_in_blocks_bound _ Hb) as [B1 _].
  destruct (size_in_blocks_bound _ Hi) as [B2 _].
  assert (Et : inode_table s = Ok (inode_bitmap_end s, table_end s)).
  { unfold inode_table, table_end. rewrite E, usize_mul_ok by done.
    rewrite usize_add_ok; [done |]. unfold is_usize, inode_bitmap_end, bitmap_end. lia. }
  split; [done |]. unfold blocks. by rewrite Et.
Qed.

Lemma validate_spec s : superblock_typed s -> is_usize (inode_size * inode_count s) ->
  superblock_validate s =
    (if decide (magic s = MAGIC /\ endian s = ENDIAN /\
                table_end s < sb_block_count s /\ root s + 1 < inode_count s)
     then Ok tt else Err Medium).
Proof.
  intros Hs Hm. destruct (layout_table s Hs Hm) as [_ E].
  unfold superblock_validate. rewrite E. unfold root, inodes. cbn [fst].
  destruct (decide (magic s = MAGIC)) as [Hg|Hg];
    [rewrite bool_decide_true by done | by rewrite bool_decide_false, decide_False by tauto].
  destruct (Z.eqb_spec (endian s) ENDIAN) as [He|He]; [| by rewrite decide_False by tauto].
  destruct (Z.ltb_spec (table_end s) (sb_block_count s));
    destruct (Z.ltb_spec (ROOT_INODE + 1) (inode_count s)); simpl;
    first [rewrite decide_True by tauto | rewrite decide_False by lia]; done.
Qed.

Lemma layout_overflow s : superblock_typed s -> ~ is_usize (inode_size * inode_count s) ->
  blocks s = Panic.
Proof.
  intros Hs Hm. destruct (layout_bitmaps s Hs) as [_ E].
  unfold blocks, inode_table. rewrite E. unfold usize_mul.
  by rewrite (proj2 (fits_usize_false _)).
Qed.

End Layout.

(** C26. A superblock is accepted exactly when its signature and byte order are
    right, the user has at least one inode and the metadata leaves at least one
    block; and then the regions follow each other without gaps, none overlaps
    the superblock or the end of the disk, the bitmaps have a bit for every block
    and inode without a spare block, and the table has room for every inode. *)
Theorem superblock_layout inode_size s :
  superblock_typed s -> is_usize (inode_size * inode_count s) ->
  exists b i t,
    block_bitmap s = Ok (SUPERBLOCK_BLOCK + 1, b) /\ inode_bitmap s = Ok (b, i) /\
    inode_table inode_size s = Ok (i, t) /\ blocks inode_size s = Ok (t, sb_block_count s) /\
    SUPERBLOCK_BLOCK + 1 <= b /\ b <= i /\ i <= t /\
    (b - 3) * (8 * BLOCK_SIZE) < sb_block_count s <= (b - 2) * (8 * BLOCK_SIZE) /\
    (i - b - 1) * (8 * BLOCK_SIZE) < inode_count s <= (i - b) * (8 * BLOCK_SIZE) /\
    inode_size * inode_count s <= (t - i) * BLOCK_SIZE /\
    superblock_validate inode_size s =
      (if decide (magic s = MAGIC /\ endian s = ENDIAN /\
                  t < sb_block_count s /\ root s + 1 < inode_count s)
       then Ok tt else Err Medium).
Proof.
  intros Hs Hm. destruct (layout_bitmaps s Hs) as [E1 E2].
  destruct (layout_table inode_size s Hs Hm) as [E3 E4].
  destruct (size_in_blocks_bound _ (typed_blocks _ Hs)) as [B1 C1].
  destruct (size_in_blocks_bound _ (typed_inodes _ Hs)) as [B2 C2].
  destruct (table_bound inode_size _ Hm) as [B3 C3].
  exists (bitmap_end s), (inode_bitmap_end s), (table_end inode_size s).
  change (SUPERBLOCK_BLOCK + 1) with 2.
  assert (bitmap_end s = 2 + size_in_blocks (sb_block_count s)) by done.
  assert (inode_bitmap_end s = bitmap_end s + size_in_blocks (inode_count s)) by done.
  assert (table_end inode_size s =
    inode_bitmap_end s + div_ceil (inode_size * inode_count s) BLOCK_SIZE) by done.
  change BLOCK_SIZE with 4096 in *. split_and!; try done; try lia.
  by apply validate_spec.
Qed.

(** A disk that holds the right signature and a number of inodes whose table
    does not fit 64 bits makes the kernel panic where the check of the superblock
    should report [Medium]. *)
Theorem superblock_overflow_panics inode_size s :
  superblock_typed s -> ~ is_usize (inode_size * inode_count s) ->
  magic s = MAGIC -> endian s = ENDIAN -> superblock_validate inode_size s = Panic.
Proof.
  intros Hs Hm Hg He. unfold superblock_validate.
  rewrite layout_overflow by done. rewrite bool_decide_true by done. by rewrite He, Z.eqb_refl.
Qed.

(** Formatting a disk of at most 2^25 blocks, all that 28-bit sector numbers can
    address, succeeds exactly if it has 16 blocks. *)
Theorem format_exact inode_size n :
  0 < inode_size -> (inode_size | BLOCK_SIZE) -> 0 <= n <= 2 ^ 25 ->
  format_superblock inode_size n =
    if 16 <=? n
    then Ok {| magic := MAGIC; endian := ENDIAN; sb_block_count := n; inode_count := n / 4 |}
    else Err Medium.
Proof.
  intros Hz Hdiv Hn. apply Z.divide_pos_le in Hdiv; [| done]. change BLOCK_SIZE with 4096 in Hdiv.
  unfold format_superblock, superblock_format. change default_blocks_per_inode with 4.
  assert (Hq : 4 * (n / 4) <= n < 4 * (n / 4) + 4) by (pose proof (Z.div_mod n 4); pose proof (Z.mod_pos_bound n 4); lia).
  change (2 ^ 25) with 33554432 in Hn.
  assert (Hm : 0 <= inode_size * (n / 4) <= 4096 * (n / 4))
    by (split; [apply Z.mul_nonneg_nonneg | apply Z.mul_le_mono_nonneg_r]; lia).
  set (s := {| magic := MAGIC; endian := ENDIAN; sb_block_count := n; inode_count := n / 4 |}).
  assert (En : sb_block_count s = n) by done. assert (Ei : inode_count s = n / 4) by done.
  assert (Hs : superblock_typed s) by (split; rewrite ?En, ?Ei; unfold is_usize; lia).
  assert (Hu : is_usize (inode_size * inode_count s)) by (rewrite Ei; unfold is_usize; lia).
  rewrite validate_spec by done.
  destruct (size_in_blocks_bound _ (typed_blocks _ Hs)) as [B1 C1].
  destruct (size_in_blocks_bound _ (typed_inodes _ Hs)) as [B2 C2].
  destruct (table_bound inode_size _ Hu) as [B3 C3].
  unfold table_end, inode_bitmap_end, bitmap_end, root, ROOT_INODE.
  change BLOCK_SIZE with 4096 in *. rewrite En, Ei in *.
  destruct (Z.leb_spec 16 n).
  - rewrite decide_True; [done |]. split_and!; [done | done | lia | lia].
  - rewrite decide_False; [done | lia].
Qed.

(** ** Directory entries *)

(** [(1 << 7) - mem::size_of::<usize>()]. *)
Definition MAX_NAME_LEN : Z := Z.shiftl 1 7 - 8.
Definition UNUSED : Z := 0.

Record DirectoryEntry := {
  de_inode : Z;
  de_name : list Z;
}.

Definition de_is_free (e : DirectoryEntry) : bool := de_inode e =? UNUSED.
Definition set_inode (inode : Z) (e : DirectoryEntry) : DirectoryEntry :=
  {| de_inode := inode; de_name := de_name e |}.
Definition de_set_free (e : DirectoryEntry) : DirectoryEntry := set_inode UNUSED e.

(** [x == 0 || x == b'/' || !x.is_ascii()]. *)
Definition bad_byte (x : Z) : bool := (x =? 0) || (x =? 47) || negb (x <? 128).

Definition validate_name (bytes : list Z) : outcome unit :=
  if (Z.of_nat (length bytes) =? 0) || (MAX_NAME_LEN <? Z.of_nat (length bytes)) ||
     existsb bad_byte bytes
  then Err InvalidArgument else Ok tt.

(** [map_err(|_| Medium)]. *)
Definition or_medium {A} (r : outcome A) : outcome A :=
  match r with Err _ => Err Medium | _ => r end.

Definition name_len (bytes : list Z) : nat :=
  match list_find (fun x => x = 0) bytes with
  | Some (i, _) => i
  | None => Z.to_nat MAX_NAME_LEN
  end.

Definition name (e : DirectoryEntry) : outcome (list Z) :=
  let? name := or_medium (from_utf8 (take (name_len (de_name e)) (de_name e))) in
  let? _ := or_medium (validate_name name) in
  Ok name.

(** [copy_from_slice] and [fill] panic on a slice that is too short, which the
    check excludes. *)
Definition set_name (bytes : list Z) (e : DirectoryEntry) : outcome DirectoryEntry :=
  let? _ := validate_name bytes in
  if Z.of_nat (length bytes) <=? Z.of_nat (length (de_name e)) then
    Ok {| de_inode := de_inode e;
          de_name := bytes ++ replicate (length (de_name e) - length bytes) 0 |}
  else Panic.

(** What a name is: 1 to 120 characters of ASCII other than [NUL] and [/]. *)
Definition good_name (bytes : list Z) : Prop :=
  (0 < length bytes <= 120)%nat /\ Forall (fun x => x <> 0 /\ x <> 47 /\ x < 128) bytes.

Record entry_typed (e : DirectoryEntry) : Prop := {
  typed_length : length (de_name e) = 120%nat;
  typed_bytes : Forall (fun x => 0 <= x < 256) (de_name e);
}.

Lemma bad_byte_false x : bad_byte x = false <-> x <> 0 /\ x <> 47 /\ x < 128.
Proof. unfold bad_byte. lia. Qed.

Lemma validate_name_good bytes : validate_name bytes = Ok tt <-> good_name bytes.
Proof.
  unfold validate_name, good_name. change MAX_NAME_LEN with 120.
  assert (Hex : existsb bad_byte bytes = false <-> Forall (fun x => x <> 0 /\ x <> 47 /\ x < 128) bytes).
  { induction bytes as [|x bytes IH]; simpl; [by split |].
    rewrite orb_false_iff, list.Forall_cons, IH, bad_byte_false. done. }
  destruct (existsb bad_byte bytes); rewrite <- Hex.
  - rewrite orb_true_r. split; [done | intros [_ ?]; done].
  - rewrite orb_false_r. destruct (_ || _) eqn:E; split; intros ?; try done; [lia |].
    split; [lia | done].
Qed.

Lemma validate_name_bad bytes : ~ good_name bytes -> validate_name bytes = Err InvalidArgument.
Proof.
  rewrite <- validate_name_good. unfold validate_name. by destruct (_ || _).
Qed.

#[export] Instance good_name_dec bytes : Decision (good_name bytes).
Proof. unfold good_name. apply _. Defined.

Lemma utf8_ascii bytes fuel : Forall (fun x => 0 <= x < 128) bytes -> (length bytes <= fuel)%nat ->
  utf8_valid fuel bytes = true.
Proof.
  revert fuel. induction bytes as [|x bytes IH]; intros fuel Hb Hf; [by destruct fuel |].
  apply list.Forall_cons in Hb as [Hx Hb]. destruct fuel as [|fuel]; simpl in Hf; [lia |].
  simpl. unfold in_range at 1. replace ((0 <=? x) && (x <=? 127)) with true by lia.
  simpl. apply IH; [done | lia].
Qed.

(** The name field up to its terminator. *)
Lemma name_len_padded bytes k : Forall (fun x => x <> 0) bytes ->
  (length bytes + k = 120)%nat -> name_len (bytes ++ replicate k 0) = length bytes.
Proof.
  intros Hb Hk. unfold name_len.
  assert (Hfind : forall l : list Z, Forall (fun x => x <> 0) l -> list_find (fun x => x = 0) l = None).
  { intros l Hl. apply list_find_None. done. }
  destruct k as [|k].
  - rewrite app_nil_r, Hfind by done. change MAX_NAME_LEN with 120. lia.
  - rewrite (proj2 (list_find_Some (fun x => x = 0) _ (length bytes) 0)); [done |].
    split_and!; [| done |].
    + cbn [replicate]. by apply list_lookup_middle.
    + intros j y Hj Hlt. rewrite lookup_app_l in Hj by done.
      by eapply (Forall_lookup_1 _ _ _ _ Hb Hj).
Qed.

Lemma name_terminated l : length l = 120%nat ->
  exists rest, l = take (name_len l) l ++ rest /\ (rest = [] \/ head rest = Some 0).
Proof.
  intros Hl. exists (drop (name_len l) l). split; [by rewrite take_drop |]. unfold name_len.
  destruct (list_find _ l) as [[i x]|] eqn:E.
  - right. apply list_find_Some in E as (Hi & -> & _). by rewrite (drop_S _ _ _ Hi).
  - left. apply drop_ge. rewrite Hl. done.
Qed.

(** C29. Setting a name succeeds exactly for the names of 1 to 120 ASCII
    characters other than [NUL] and [/], reading it then returns it, the inode is
    kept and the entry stays well formed; any other name is refused with
    [InvalidArgument].  Whatever bytes a disk holds, reading a name does not panic
    and returns only such names. *)
Theorem entry_name_roundtrip e bytes :
  entry_typed e -> Forall (fun x => 0 <= x < 256) bytes ->
  (if decide (good_name bytes) then
     exists e', set_name bytes e = Ok e' /\ name e' = Ok bytes /\
       de_inode e' = de_inode e /\ entry_typed e'
   else set_name bytes e = Err InvalidArgument) /\
  match name e with
  | Ok n => good_name n /\
      exists rest, de_name e = n ++ rest /\ (rest = [] \/ head rest = Some 0)
  | Err e => e = Medium
  | Panic => False
  end.
Proof.
  intros [Hl Ht] Hb. split.
  - destruct (decide (good_name bytes)) as [Hg|Hg].
    + unfold set_name. rewrite (proj2 (validate_name_good bytes) Hg), Hl.
      pose proof Hg as [Hn Hall].
      rewrite (proj2 (Z.leb_le (Z.of_nat (length bytes)) (Z.of_nat 120))) by lia.
      eexists. split; [done |]. unfold name. cbn [de_name de_inode].
      rewrite name_len_padded;
        [| eapply list.Forall_impl; [exact Hall | simpl; tauto] | lia].
      rewrite take_app_length. unfold from_utf8. rewrite utf8_ascii; [| | done].
      * cbn [or_medium]. rewrite (proj2 (validate_name_good bytes) Hg). split_and!; [done | done |].
        split; cbn [de_name].
        -- rewrite length_app, length_replicate. lia.
        -- apply Forall_app. split; [done |]. apply Forall_replicate. lia.
      * rewrite list.Forall_forall in Hall, Hb |- *. intros x Hx. specialize (Hall x Hx). specialize (Hb x Hx). simpl in *. lia.
    + unfold set_name. by rewrite validate_name_bad.
  - unfold name, from_utf8. destruct (utf8_valid _ _); [| done]. cbn [or_medium].
    set (n := take (name_len (de_name e)) (de_name e)).
    destruct (decide (good_name n)) as [Hg|Hg]; [| by rewrite validate_name_bad].
    rewrite (proj2 (validate_name_good n) Hg). cbn [or_medium]. split; [done |].
    apply name_terminated. done.
Qed.

(** ** Bitmaps of blocks and inodes *)

Record FsBitmap := {
  fb_bitmap : Bitmap.Bitmap;
  fb_start : Z;
  fb_end : Z;
}.

Definition new_unchecked (words : list Z) (start end_ : Z) (free : option Z) : outcome FsBitmap :=
  let? b := bitmap_new words end_ free in
  Ok {| fb_bitmap := b; fb_start := start; fb_end := end_ |}.

Definition fs_is_free (b : FsBitmap) (number : Z) : outcome bool := is_free (fb_bitmap b) number.

(** [all] stops at the first reserved element that is free. *)
Fixpoint all_reserved (b : FsBitmap) (numbers : list Z) : outcome bool :=
  match numbers with
  | [] => Ok true
  | number :: numbers =>
      let? free := fs_is_free b number in
      if free : bool then Ok false else all_reserved b numbers
  end.

Definition fs_validate (b : FsBitmap) : outcome FsBitmap :=
  let len := Bitmap.len (fb_bitmap b) in
  if (fb_end b <=? fb_start b) || (len <? fb_end b) then Err Medium
  else
    let? reserved := all_reserved b
      (seqZ 0 (fb_start b) ++ seqZ (fb_end b) (len - fb_end b)) in
    if reserved : bool then Ok b else Err Medium.

(** The words are the slice of the block cache that [Bitmap::bitmap] returns. *)
Definition fs_new (words : list Z) (start end_ : Z) : outcome FsBitmap :=
  let? b := new_unchecked words start end_ None in
  fs_validate b.

Definition with_bitmap (b : FsBitmap) (bits : Bitmap.Bitmap) : FsBitmap :=
  {| fb_bitmap := bits; fb_start := fb_start b; fb_end := fb_end b |}.

Definition fs_set_free (b : FsBitmap) (number : Z) : outcome FsBitmap :=
  if (fb_start b <=? number) && (number <? fb_end b) then
    let? bits := set_free (fb_bitmap b) number in
    Ok (with_bitmap b bits)
  else Panic.

Definition fs_allocate (b : FsBitmap) : outcome (FsBitmap * Z) :=
  let? (bits, number) := allocate (fb_bitmap b) in
  let? number := ok_or number NoDisk in
  Ok (with_bitmap b bits, number).

Definition free_count (b : FsBitmap) : Z := free (fb_bitmap b).

(** *** The space of the file system *)

Definition free_space (b : FsBitmap) : outcome Z := usize_mul (free_count b) BLOCK_SIZE.

Definition used_space (b : FsBitmap) (start end_ : Z) : outcome Z :=
  let? total := usize_mul (Z.max 0 (end_ - start)) BLOCK_SIZE in
  let? free := free_space b in
  usize_sub total free.

(** *** The invariant *)

Record fs_wf (b : FsBitmap) : Prop := {
  fs_bits : bitmap_wf (fb_bitmap b);
  fs_len : Bitmap.len (fb_bitmap b) = fb_end b;
  fs_range : 0 <= fb_start b < fb_end b;
  fs_reserved : forall n, 0 <= n < fb_start b -> allocated (bitmap (fb_bitmap b)) n = true;
}.

Lemma all_reserved_spec b numbers : bitmap_wf (fb_bitmap b) ->
  Forall (fun n => 0 <= n < Bitmap.len (fb_bitmap b)) numbers ->
  exists r : bool, all_reserved b numbers = Ok r /\
    (r = true <-> Forall (fun n => allocated (bitmap (fb_bitmap b)) n = true) numbers).
Proof.
  intros Hb. induction numbers as [|n numbers IH]; intros Hn.
  - exists true. split; [done |]. split; [by constructor | done].
  - apply list.Forall_cons in Hn as [Hn Hr]. destruct (IH Hr) as (r & E & Hiff). simpl.
    unfold fs_is_free. rewrite is_free_spec by done.
    destruct (allocated _ n) eqn:Ea; simpl; [exists r | exists false];
      (split; [done | rewrite list.Forall_cons, Ea; naive_solver]).
Qed.

(** The bitmap on a disk is accepted exactly when no reserved element is free. *)
Lemma fs_new_spec words s e :
  Forall is_usize words -> is_usize e -> 0 <= s -> div_ceil e 64 <= Z.of_nat (length words) ->
  (exists b, fs_new words s e = Ok b /\ fs_wf b /\ fb_start b = s /\ fb_end b = e /\
     s < e /\ forall n, 0 <= n < s -> allocated words n = true) \/
  (fs_new words s e = Err Medium /\ ~ (s < e /\ forall n, 0 <= n < s -> allocated words n = true)).
Proof.
  intros Hw He Hs Hlen.
  destruct (bitmap_new_spec words e Hw He Hlen) as (b & E & Hb & Hl & _ & Hf & _).
  assert (Ha : forall n, 0 <= n < e -> allocated (bitmap b) n = allocated words n).
  { intros n Hn. specialize (Hf n Hn). rewrite is_free_spec in Hf by (rewrite ?Hl; done).
    injection Hf as Hf. by destruct (allocated _ _), (allocated _ _). }
  unfold fs_new, new_unchecked. rewrite E. unfold fs_validate. cbn [fb_bitmap fb_start fb_end].
  rewrite Hl, Z.ltb_irrefl, orb_false_r, Z.sub_diag. change (seqZ e 0) with (@nil Z). rewrite app_nil_r.
  destruct (Z.leb_spec e s); [right; split; [done | lia] |].
  set (fb := {| fb_bitmap := b; fb_start := s; fb_end := e |}).
  destruct (all_reserved_spec fb (seqZ 0 s)) as (r & -> & Hr).
  { done. }
  { apply list.Forall_forall. intros n Hn%elem_of_seqZ. cbn [fb_bitmap fb]. simpl. lia. }
  rewrite list.Forall_forall in Hr. destruct r.
  - left. exists fb. pose proof (proj1 Hr eq_refl) as Hall. split_and!; try done.
    + split; [done | done | simpl; lia |]. intros n Hn. apply Hall, elem_of_seqZ. simpl in Hn. lia.
    + intros n Hn. rewrite <- Ha by lia. apply Hall, elem_of_seqZ. lia.
  - right. split; [done |]. intros [_ Hall]. assert (false = true); [| done].
    apply Hr. intros n Hn%elem_of_seqZ. cbn. rewrite Ha by lia. apply Hall. lia.
Qed.

Lemma fs_allocate_spec b : fs_wf b ->
  (free_count b = 0 /\ fs_allocate b = Err NoDisk) \/
  (0 < free_count b /\ exists b' n, fs_allocate b = Ok (b', n) /\ fs_wf b' /\
     fb_start b' = fb_start b /\ fb_end b' = fb_end b /\ fb_start b <= n < fb_end b /\
     allocated (bitmap (fb_bitmap b)) n = false /\ free_count b' = free_count b - 1 /\
     forall m, 0 <= m -> allocated (bitmap (fb_bitmap b')) m =
       if m =? n then true else allocated (bitmap (fb_bitmap b)) m).
Proof.
  intros [Hb Hl Hr Hres]. unfold fs_allocate, free_count.
  destruct (allocate_spec _ Hb) as [[H0 ->]|(Hf & bits & n & -> & Hn & Ha & Hb' & Hf' & Hl' & Hall)];
    [by left |]. right. split; [done |]. exists (with_bitmap b bits), n.
  assert (fb_start b <= n).
  { destruct (Z_lt_dec n (fb_start b)); [| lia]. rewrite Hres in Ha by lia. done. }
  split_and!; try done; [| lia].
  split; cbn [with_bitmap fb_bitmap fb_start fb_end]; [done | lia | done |].
  intros m Hm. rewrite Hall, Hres by lia. by destruct (m =? n).
Qed.

Lemma fs_set_free_spec b n : fs_wf b -> fb_start b <= n < fb_end b ->
  allocated (bitmap (fb_bitmap b)) n = true ->
  exists b', fs_set_free b n = Ok b' /\ fs_wf b' /\
    fb_start b' = fb_start b /\ fb_end b' = fb_end b /\ free_count b' = free_count b + 1 /\
    forall m, 0 <= m -> allocated (bitmap (fb_bitmap b')) m =
      if m =? n then false else allocated (bitmap (fb_bitmap b)) m.
Proof.
  intros [Hb Hl Hr Hres] Hn Ha. unfold fs_set_free.
  replace ((fb_start b <=? n) && (n <? fb_end b)) with true by lia.
  destruct (set_free_spec _ Hb n ltac:(lia) Ha) as (bits & -> & Hb' & Hf' & Hl' & Hall).
  exists (with_bitmap b bits). split_and!; try done.
  split; cbn [with_bitmap fb_bitmap fb_start fb_end]; [done | lia | done |].
  intros m Hm. rewrite Hall by lia. destruct (Z.eqb_spec m n); [lia | by apply Hres].
Qed.

(** *** Who holds which elements

    The states of a bitmap taken from a disk, with the elements that were
    allocated since and not released. *)
Inductive fs_reachable (b0 : FsBitmap) : FsBitmap -> list Z -> Prop :=
  | reach_new : fs_reachable b0 b0 []
  | reach_allocate b held b' n :
      fs_reachable b0 b held -> fs_allocate b = Ok (b', n) -> fs_reachable b0 b' (n :: held)
  | reach_set_free b before n after b' :
      fs_reachable b0 b (before ++ n :: after) -> fs_set_free b n = Ok b' ->
      fs_reachable b0 b' (before ++ after).

Record held_by (b0 b : FsBitmap) (held : list Z) : Prop := {
  held_wf : fs_wf b;
  held_start : fb_start b = fb_start b0;
  held_end : fb_end b = fb_end b0;
  held_nodup : NoDup held;
  held_range : Forall (fun n => fb_start b0 <= n < fb_end b0 /\
                               allocated (bitmap (fb_bitmap b)) n = true) held;
  held_free : free_count b = free_count b0 - Z.of_nat (length held);
}.

Lemma reachable_held b0 b held : fs_wf b0 -> fs_reachable b0 b held -> held_by b0 b held.
Proof.
  intros Hb0. induction 1 as [|b held b' n _ [Hb Hs He Hnd Hr Hf] E|b before n after b' _ [Hb Hs He Hnd Hr Hf] E].
  - split; [done | done | done | constructor | constructor | simpl; lia].
  - destruct (fs_allocate_spec b Hb) as [[_ ?]|(_ & b1 & m & E1 & Hb1 & Hs1 & He1 & Hm & Ha & Hc & Hall)];
      [congruence |]. rewrite E in E1. injection E1 as <- <-.
    rewrite list.Forall_forall in Hr. split; [done | congruence | congruence | | |].
    + constructor; [| done]. intros Hin. apply Hr in Hin as [_ Hin]. congruence.
    + apply list.Forall_cons. rewrite <- Hs, <- He. split.
      * split; [lia |]. rewrite Hall by (destruct (fs_range _ Hb); lia). by rewrite Z.eqb_refl.
      * apply list.Forall_forall. intros x Hx. apply Hr in Hx as [Hx Hax]. split; [lia |].
        destruct (fs_range _ Hb). rewrite Hall, Hax by lia. by destruct (x =? n).
    + rewrite Hc, Hf. simpl. lia.
  - pose proof Hr as Hr'. rewrite list.Forall_forall in Hr'.
    destruct (Hr' n) as [Hn Han]; [set_solver |].
    destruct (fs_set_free_spec b n Hb ltac:(lia) Han) as (b1 & E1 & Hb1 & Hs1 & He1 & Hc & Hall).
    rewrite E in E1. injection E1 as <-.
    apply NoDup_app in Hnd as (N1 & N2 & N3). apply NoDup_cons in N3 as [N4 N5].
    split; [done | congruence | congruence | | |].
    + apply NoDup_app. split_and!; [done | set_solver | done].
    + apply list.Forall_forall. intros x Hx. destruct (Hr' x) as [Hx1 Hx2]; [set_solver |].
      split; [done |]. destruct (fs_range _ Hb). rewrite Hall, Hx2 by lia.
      destruct (Z.eqb_spec x n); [set_solver | done].
    + rewrite Hc, Hf, !length_app. simpl. lia.
Qed.

(** C25. The bitmaps of blocks and inodes never hand out an element twice or a
    reserved one: starting from a bitmap accepted from a disk, after any sequence
    of allocations and releases the elements held are distinct, lie in the range
    of user elements and are counted exactly; an allocation returns an element
    nobody holds or, exactly when none is free, fails with [NoDisk]; every
    element held can be released, and releasing a reserved one panics. *)
Theorem fs_bitmap_ownership words s e b0 b held :
  Forall is_usize words -> is_usize e -> 0 <= s -> div_ceil e 64 <= Z.of_nat (length words) ->
  fs_new words s e = Ok b0 -> fs_reachable b0 b held ->
  NoDup held /\ Forall (fun n => s <= n < e) held /\
  free_count b = free_count b0 - Z.of_nat (length held) /\
  (if free_count b =? 0 then fs_allocate b = Err NoDisk
   else exists b' n, fs_allocate b = Ok (b', n) /\ s <= n < e /\ n ∉ held) /\
  (forall n, n ∈ held -> exists b', fs_set_free b n = Ok b') /\
  (forall n, n < s -> fs_set_free b n = Panic).
Proof.
  intros Hw He Hs Hl E Hreach.
  destruct (fs_new_spec words s e Hw He Hs Hl) as [(b1 & E1 & Hb1 & Es & Ee & _)|[? _]]; [| congruence].
  rewrite E in E1. injection E1 as <-.
  destruct (reachable_held b0 b held Hb1 Hreach) as [Hb Hbs Hbe Hnd Hr Hf].
  rewrite Es, Ee in *. pose proof Hr as Hr'. rewrite list.Forall_forall in Hr'.
  split_and!; [done | | done | | |].
  - eapply list.Forall_impl; [exact Hr | simpl; tauto].
  - destruct (fs_allocate_spec b Hb) as [[-> ->]|(Hpos & b' & n & -> & _ & _ & _ & Hn & Ha & _)]; [done |].
    replace (free_count b =? 0) with false by lia. exists b', n. split_and!; [done | lia | lia |].
    intros Hin. apply Hr' in Hin as [_ Hin]. congruence.
  - intros n Hn. destruct (Hr' n Hn) as [Hn1 Hn2].
    destruct (fs_set_free_spec b n Hb ltac:(lia) Hn2) as (b' & ? & _). by exists b'.
  - intros n Hn. unfold fs_set_free. by replace ((fb_start b <=? n) && _) with false by lia.
Qed.

(** The accounting of space does not overflow and counts what is held. *)
Lemma reserved_free b : fs_wf b -> 0 <= free_count b <= fb_end b - fb_start b.
Proof.
  intros [Hb Hl Hr Hres]. unfold free_count. rewrite (wf_free _ Hb), Hl.
  assert (Hsub : free_elements (bitmap (fb_bitmap b)) (fb_end b) ⊆+
    seqZ (fb_start b) (fb_end b - fb_start b)).
  { apply NoDup_submseteq; [apply NoDup_filter, NoDup_seqZ |].
    intros n [Hn Ha]%elem_of_free_elements. apply elem_of_seqZ.
    destruct (Z_lt_dec n (fb_start b)); [| lia]. rewrite Hres in Ha by lia. done. }
  apply submseteq_length in Hsub. rewrite length_seqZ in Hsub. lia.
Qed.

Lemma used_space_spec b : fs_wf b -> is_usize (fb_end b * BLOCK_SIZE) ->
  used_space b (fb_start b) (fb_end b) =
    Ok ((fb_end b - fb_start b - free_count b) * BLOCK_SIZE) /\
  free_space b = Ok (free_count b * BLOCK_SIZE).
Proof.
  intros Hb Hu. pose proof (reserved_free b Hb). pose proof (fs_range b Hb).
  unfold used_space, free_space. unfold is_usize in Hu. change BLOCK_SIZE with 4096 in *.
  rewrite Z.max_r by lia. rewrite !usize_mul_ok by (unfold is_usize; lia).
  rewrite usize_sub_ok by (unfold is_usize; lia). split; [| done]. f_equal. lia.
Qed.

(** ** Inodes *)

Definition INDIRECT_BLOCK_ARITY : Z := BLOCK_SIZE / 8.
Definition MAX_HEIGHT : Z := 4.
Definition NO_BLOCK : Z := 0.

Inductive Kind := File | Directory.

#[export] Instance Kind_eq_dec : EqDecision Kind.
Proof. solve_decision. Defined.

(** The time stamp is a value of [chrono]. *)
Record Inode (DateTime : Type) := {
  inode_kind : Kind;
  modify_time : DateTime;
  inode_bytes : Z;
  root_blocks : list Z;
}.
Arguments inode_kind {DateTime} _.
Arguments inode_bytes {DateTime} _.
Arguments root_blocks {DateTime} _.

(** [now] is the answer of [time::now_ms()]. *)
Definition inode_init {DateTime} (now : DateTime) (kind : Kind) (i : Inode DateTime) :
    Inode DateTime :=
  {| inode_kind := kind; modify_time := now; inode_bytes := 0;
     root_blocks := replicate (length (root_blocks i)) NO_BLOCK |}.

(** [pow] by repeated multiplication, with the checks for overflow. *)
Fixpoint usize_pow (a : Z) (n : nat) : outcome Z :=
  match n with
  | O => Ok 1
  | S n => let? p := usize_pow a n in usize_mul p a
  end.

Definition leaf_count_in_tree (tree_height : Z) : outcome Z :=
  if tree_height <? 2 ^ 32 then usize_pow INDIRECT_BLOCK_ARITY (Z.to_nat tree_height) else Panic.

(** [map], [reduce] and [expect]. *)
Fixpoint sum_leaves (heights : list Z) (acc : Z) : outcome Z :=
  match heights with
  | [] => Ok acc
  | height :: heights =>
      let? n := leaf_count_in_tree height in
      let? acc := usize_add acc n in
      sum_leaves heights acc
  end.

Definition leaf_count : outcome Z :=
  match seqZ 0 MAX_HEIGHT with
  | [] => Panic
  | height :: heights =>
      let? n := leaf_count_in_tree height in
      sum_leaves heights n
  end.

Definition max_size : outcome Z :=
  let? max_blocks := leaf_count in
  usize_mul max_blocks BLOCK_SIZE.

(** Every block that a disk can have fits into one file. *)
Example max_size_value :
  leaf_count = Ok 134480385 /\ max_size = Ok 550831656960 /\ 2 ^ 25 <= 134480385.
Proof. split_and!; vm_compute; [reflexivity | reflexivity | discriminate]. Qed.

(** ** Witnesses *)

Definition sample_superblock : Superblock :=
  {| magic := MAGIC; endian := ENDIAN; sb_block_count := 1000; inode_count := 250 |}.

Lemma superblock_layout_witness : exists b i t,
  block_bitmap sample_superblock = Ok (SUPERBLOCK_BLOCK + 1, b) /\
  inode_bitmap sample_superblock = Ok (b, i) /\
  inode_table 64 sample_superblock = Ok (i, t) /\
  blocks 64 sample_superblock = Ok (t, 1000) /\
  superblock_validate 64 sample_superblock = Ok tt.
Proof.
  destruct (superblock_layout 64 sample_superblock) as (b & i & t & E1 & E2 & E3 & E4 & _).
  - split; unfold is_usize; simpl; lia.
  - unfold is_usize. simpl. lia.
  - exists b, i, t. split_and!; try done.
Defined.

Lemma superblock_overflow_panics_witness :
  superblock_validate 64 {| magic := MAGIC; endian := ENDIAN; sb_block_count := 1000;
                            inode_count := 2 ^ 58 |} = Panic.
Proof.
  apply (superblock_overflow_panics 64).
  - split; unfold is_usize; simpl; lia.
  - unfold is_usize. simpl. lia.
  - done.
  - done.
Defined.

Definition sample_entry : DirectoryEntry := {| de_inode := 7; de_name := replicate 120 255 |}.

Lemma entry_name_roundtrip_witness :
  (exists e', set_name [97; 46; 116; 120; 116] sample_entry = Ok e' /\
     name e' = Ok [97; 46; 116; 120; 116] /\ de_inode e' = 7) /\
  name sample_entry = Err Medium.
Proof.
  destruct (entry_name_roundtrip sample_entry [97; 46; 116; 120; 116]) as [H1 H2].
  - split; [done |]. apply Forall_replicate. lia.
  - repeat constructor; lia.
  - rewrite decide_True in H1.
    + split; [| vm_compute; reflexivity]. destruct H1 as (e' & ? & ? & ? & _). by exists e'.
    + split; [simpl; lia |]. repeat constructor; lia.
Defined.

Definition sample_words : list Z := [7; 0].

Example sample_fs_new : exists b0 b1 n, fs_new sample_words 3 70 = Ok b0 /\
  fs_allocate b0 = Ok (b1, n) /\ n = 3.
Proof. eexists _, _, _. split; [vm_compute; reflexivity |]. split; vm_compute; reflexivity. Qed.

Lemma fs_bitmap_ownership_witness : exists b0 b held,
  fs_new sample_words 3 70 = Ok b0 /\ fs_reachable b0 b held /\ held = [3] /\
  NoDup held /\ Forall (fun n => 3 <= n < 70) held /\
  free_count b = free_count b0 - 1.
Proof.
  destruct sample_fs_new as (b0 & b1 & n & E0 & E1 & ->). exists b0, b1, [3].
  assert (Hr : fs_reachable b0 b1 [3]) by (eapply reach_allocate; [apply reach_new | exact E1]).
  destruct (fs_bitmap_ownership sample_words 3 70 b0 b1 [3]) as (? & ? & ? & _); try done.
  repeat constructor; unfold is_usize; lia.
Defined.
