(* ===== verification/CorrelationLock.v ===== *)
(** * The shared correlation point

    The concurrent part of [ku/src/time/correlation_point.rs]: the interrupt
    handler of a clock updates an [AtomicCorrelationPoint] while other code reads
    it.  Every access to a field is one step; any number of readers interleave
    with the one writer.  The model keeps the list of the points written so far
    beside the shared fields, which the code does not have, to state what a
    reader returns. *)

From stdpp Require Import base list numbers option tactics relations.
From Stdlib Require Import ZArith Lia.
From S2P Require Import Prelude SystemTime.

Open Scope Z_scope.

(** ** The fields and their accesses *)

Record AtomicCorrelationPoint := {
  a_count : Z;
  a_sequence : Z;
  a_tsc : Z;
}.

Definition atomic_point_new : AtomicCorrelationPoint :=
  {| a_count := 0; a_sequence := 0; a_tsc := 0 |}.

Definition atomic_is_valid (a : AtomicCorrelationPoint) : bool := negb (a_tsc a =? 0).

Definition is_locked (sequence : Z) : bool := negb (sequence mod 2 =? 0).

Definition bump_sequence (a : AtomicCorrelationPoint) : AtomicCorrelationPoint :=
  {| a_count := a_count a; a_sequence := wrapping_add (a_sequence a) 1; a_tsc := a_tsc a |}.
Definition set_count (n : Z) (a : AtomicCorrelationPoint) : AtomicCorrelationPoint :=
  {| a_count := n; a_sequence := a_sequence a; a_tsc := a_tsc a |}.
Definition set_tsc (t : Z) (a : AtomicCorrelationPoint) : AtomicCorrelationPoint :=
  {| a_count := a_count a; a_sequence := a_sequence a; a_tsc := t |}.

(** ** The writer *)

Inductive Update :=
  | Inc (tsc : Z)
  | Store (p : CorrelationPoint).

(** The fields an update writes; [fetch_add] wraps. *)
Definition new_count (u : Update) (count : Z) : Z :=
  match u with Inc _ => wrap_i64 (count + 1) | Store p => SystemTime.count p end.
Definition new_tsc (u : Update) : Z :=
  match u with Inc t => t | Store p => SystemTime.tsc p end.

Definition updated (u : Update) (p : CorrelationPoint) : CorrelationPoint :=
  {| SystemTime.count := new_count u (SystemTime.count p); SystemTime.tsc := new_tsc u |}.

(** Where the writer is: between updates, or before the access to the field. *)
Inductive Writer :=
  | Idle
  | AtCount (u : Update)
  | AtTsc (u : Update)
  | AtRelease (u : Update).

Definition writer_step (w : Writer) (a : AtomicCorrelationPoint) : AtomicCorrelationPoint * Writer :=
  match w with
  | Idle => (a, Idle)
  | AtCount u => (set_count (new_count u (a_count a)) a, AtTsc u)
  | AtTsc u => (set_tsc (new_tsc u) a, AtRelease u)
  | AtRelease u => (bump_sequence a, Idle)
  end.

(** An update that is not interrupted: [inc] and [store]. *)
Definition write_point (u : Update) (a : AtomicCorrelationPoint) : AtomicCorrelationPoint :=
  let '(a, w) := writer_step (AtCount u) (bump_sequence a) in
  let '(a, w) := writer_step w a in
  (writer_step w a).1.
Definition atomic_inc (tsc : Z) : AtomicCorrelationPoint -> AtomicCorrelationPoint :=
  write_point (Inc tsc).
Definition atomic_store (p : CorrelationPoint) : AtomicCorrelationPoint -> AtomicCorrelationPoint :=
  write_point (Store p).

(** ** The readers *)

Inductive Mode := Load | TryLoad.

(** A reader is before the first load of the sequence number, in the loop that
    waits for the writer, before the second load of the number, before the loads
    of the fields and before the last check, with what it has read; or it has
    returned. *)
Inductive Reader :=
  | First
  | Spin
  | Second
  | LoadCount (seq1 : Z)
  | LoadTsc (seq1 count : Z)
  | LastCheck (seq1 count tsc : Z)
  | Returned (p : option CorrelationPoint).

Definition load_step (a : AtomicCorrelationPoint) (r : Reader) : Reader :=
  match r with
  | First => if is_locked (a_sequence a) then Spin else Second
  | Spin => if is_locked (a_sequence a) then Spin else Second
  | Second => if is_locked (a_sequence a) then First else LoadCount (a_sequence a)
  | LoadCount seq1 => LoadTsc seq1 (a_count a)
  | LoadTsc seq1 count => LastCheck seq1 count (a_tsc a)
  | LastCheck seq1 count tsc =>
      if seq1 =? a_sequence a
      then Returned (Some {| SystemTime.count := count; SystemTime.tsc := tsc |}) else First
  | Returned p => Returned p
  end.

Definition try_load_step (a : AtomicCorrelationPoint) (r : Reader) : Reader :=
  match r with
  | First | Spin | Second =>
      if is_locked (a_sequence a) then Returned None else LoadCount (a_sequence a)
  | LoadCount seq1 => LoadTsc seq1 (a_count a)
  | LoadTsc seq1 count => LastCheck seq1 count (a_tsc a)
  | LastCheck seq1 count tsc =>
      Returned (if seq1 =? a_sequence a
                then Some {| SystemTime.count := count; SystemTime.tsc := tsc |} else None)
  | Returned p => Returned p
  end.

Definition reader_step (m : Mode) : AtomicCorrelationPoint -> Reader -> Reader :=
  match m with Load => load_step | TryLoad => try_load_step end.

(** ** Interleavings

    [past] lists the points that the field held between updates, oldest first;
    [began] of a reader is the number of updates completed when it started. *)

Record Thread := { mode : Mode; began : nat; at_ : Reader }.

Record Config := {
  shared : AtomicCorrelationPoint;
  writer : Writer;
  threads : list Thread;
  past : list CorrelationPoint;
}.

Definition updates (c : Config) : nat := pred (length (past c)).

Definition begin_update (u : Update) (c : Config) : Config :=
  {| shared := bump_sequence (shared c); writer := AtCount u; threads := threads c; past := past c |}.

Definition go_on (c : Config) : Config :=
  let '(a, w) := writer_step (writer c) (shared c) in
  {| shared := a; writer := w; threads := threads c;
     past := match writer c with
             | AtRelease u => past c ++ [{| SystemTime.count := a_count a; SystemTime.tsc := a_tsc a |}]
             | _ => past c
             end |}.

Definition start_reader (m : Mode) (c : Config) : Config :=
  {| shared := shared c; writer := writer c; past := past c;
     threads := threads c ++ [{| mode := m; began := updates c; at_ := First |}] |}.

Definition thread_step (a : AtomicCorrelationPoint) (t : Thread) : Thread :=
  {| mode := mode t; began := began t; at_ := reader_step (mode t) a (at_ t) |}.

Definition run_reader (i : nat) (c : Config) : Config :=
  {| shared := shared c; writer := writer c; past := past c;
     threads := alter (thread_step (shared c)) i (threads c) |}.

Inductive step : Config -> Config -> Prop :=
  | step_begin c u : writer c = Idle -> step c (begin_update u c)
  | step_writer c : step c (go_on c)
  | step_start c m : step c (start_reader m c)
  | step_reader c i : step c (run_reader i c).

Definition config_new : Config :=
  {| shared := atomic_point_new; writer := Idle; threads := [];
     past := [{| SystemTime.count := 0; SystemTime.tsc := 0 |}] |}.

(** ** The invariant *)

(** The additions to the sequence number so far. *)
Definition ticks (c : Config) : Z :=
  2 * Z.of_nat (updates c) + match writer c with Idle => 0 | _ => 1 end.

Definition point (a : AtomicCorrelationPoint) : CorrelationPoint :=
  {| SystemTime.count := a_count a; SystemTime.tsc := a_tsc a |}.

(** The fields during an update of the point [p]. *)
Definition fields_ok (w : Writer) (a : AtomicCorrelationPoint) (p : CorrelationPoint) : Prop :=
  match w with
  | Idle | AtCount _ => point a = p
  | AtTsc u => a_count a = new_count u (SystemTime.count p) /\ a_tsc a = SystemTime.tsc p
  | AtRelease u => point a = updated u p
  end.

(** A reader that holds the number of the update [k] holds fields of the point [k]
    as long as no further update has begun. *)
Definition reader_ok (c : Config) (b : nat) (r : Reader) : Prop :=
  match r with
  | First | Spin | Second => (b <= updates c)%nat
  | LoadCount s => exists k, (b <= k <= updates c)%nat /\ s = (2 * Z.of_nat k) mod USIZE_MODULUS
  | LoadTsc s n => exists k, (b <= k <= updates c)%nat /\ s = (2 * Z.of_nat k) mod USIZE_MODULUS /\
      (2 * Z.of_nat k = ticks c -> n = a_count (shared c))
  | LastCheck s n t => exists k, (b <= k <= updates c)%nat /\
      s = (2 * Z.of_nat k) mod USIZE_MODULUS /\
      (2 * Z.of_nat k = ticks c -> n = a_count (shared c) /\ t = a_tsc (shared c))
  | Returned None => True
  | Returned (Some p) => exists k, (b <= k)%nat /\ past c !! k = Some p
  end.

Record lock_inv (c : Config) : Prop := {
  inv_past : exists p, past c !! updates c = Some p /\ fields_ok (writer c) (shared c) p;
  inv_length : length (past c) = S (updates c);
  inv_sequence : a_sequence (shared c) = ticks c mod USIZE_MODULUS;
  inv_threads : Forall (fun t => reader_ok c (began t) (at_ t)) (threads c);
}.

Lemma wrapping_next t : wrapping_add (t mod USIZE_MODULUS) 1 = (t + 1) mod USIZE_MODULUS.
Proof. unfold wrapping_add. by rewrite Zplus_mod_idemp_l. Qed.

Lemma locked_ticks c : a_sequence (shared c) = ticks c mod USIZE_MODULUS ->
  is_locked (a_sequence (shared c)) = match writer c with Idle => false | _ => true end.
Proof.
  intros ->. unfold is_locked, ticks.
  assert (E : forall t, (t mod USIZE_MODULUS) mod 2 = t mod 2) by (intros t; Z.div_mod_to_equations; lia).
  rewrite E, Z.mul_comm, Z.add_comm, Z.mod_add by lia. by destruct (writer c).
Qed.

(** A reader keeps its part of the invariant while the writer goes on. *)
Lemma reader_ok_later c c' b r : reader_ok c b r ->
  (updates c <= updates c')%nat -> ticks c <= ticks c' ->
  (ticks c' = ticks c -> shared c' = shared c \/ writer c <> Idle) ->
  (forall k p, past c !! k = Some p -> past c' !! k = Some p) -> reader_ok c' b r.
Proof.
  intros Hr Hu Ht Hs Hp.
  assert (Hk : forall k, 2 * Z.of_nat k = ticks c' -> (k <= updates c)%nat ->
    2 * Z.of_nat k = ticks c /\ shared c' = shared c).
  { intros k E Hle. assert (Hle2 : 2 * Z.of_nat k <= ticks c) by (unfold ticks; destruct (writer c); lia).
    assert (E' : 2 * Z.of_nat k = ticks c) by lia. split; [done |].
    destruct Hs as [? | Hw]; [lia | done |]. unfold ticks in E'. destruct (writer c); [done | lia ..]. }
  destruct r as [| | |s|s n|s n t|[p|]]; cbn [reader_ok] in *; try lia; try done.
  - destruct Hr as (k & ? & ?). exists k. split; [lia | done].
  - destruct Hr as (k & ? & ? & Hn). exists k. split_and!; [lia | lia | done |].
    intros [E ->]%Hk; [auto | lia].
  - destruct Hr as (k & ? & ? & Hn). exists k. split_and!; [lia | lia | done |].
    intros [E ->]%Hk; [auto | lia].
  - destruct Hr as (k & ? & ?). exists k. auto.
Qed.

Lemma reader_step_ok c m b r : lock_inv c -> ticks c < USIZE_MODULUS ->
  reader_ok c b r -> reader_ok c b (reader_step m (shared c) r).
Proof.
  intros [(p & Hp & Hf) Hlen Hs _] Hb Hr.
  assert (Hu : forall k, (2 * Z.of_nat k) mod USIZE_MODULUS = a_sequence (shared c) ->
    (k <= updates c)%nat -> 2 * Z.of_nat k = ticks c).
  { intros k E Hk. rewrite Hs in E. unfold ticks in *.
    rewrite !Z.mod_small in E by (destruct (writer c); lia). done. }
  pose proof (locked_ticks c Hs) as Hl.
  assert (Hsec : forall r', (b <= updates c)%nat -> reader_ok c b r' -> reader_ok c b
    (if is_locked (a_sequence (shared c)) then r' else LoadCount (a_sequence (shared c)))).
  { intros r' Hle Hr'. rewrite Hl. destruct (writer c) eqn:Hw; [| done ..].
    exists (updates c). split; [lia |]. rewrite Hs. unfold ticks. by rewrite Hw, Z.add_0_r. }
  assert (Hdone : forall k n t, (b <= k <= updates c)%nat ->
    (2 * Z.of_nat k) mod USIZE_MODULUS = a_sequence (shared c) ->
    (2 * Z.of_nat k = ticks c -> n = a_count (shared c) /\ t = a_tsc (shared c)) ->
    reader_ok c b (Returned (Some {| SystemTime.count := n; SystemTime.tsc := t |}))).
  { intros k n t Hk E Hnt. apply Hu in E; [| lia]. destruct (Hnt E) as [-> ->].
    exists k. split; [lia |]. unfold ticks in E. destruct (writer c); [| lia ..].
    assert (k = updates c) as -> by lia. rewrite Hp. f_equal. symmetry. exact Hf. }
  destruct r as [| | |s|s n|s n t|q].
  1-3: destruct m; cbn [reader_step load_step try_load_step];
    first [by apply Hsec | by destruct (is_locked _)].
  - destruct Hr as (k & ? & ?). destruct m; by exists k.
  - destruct Hr as (k & ? & ? & Hn). destruct m; (exists k; split_and!; auto; lia).
  - destruct Hr as (k & Hk & -> & Hnt). destruct m; cbn [reader_step load_step try_load_step];
      destruct (Z.eqb_spec ((2 * Z.of_nat k) mod USIZE_MODULUS) (a_sequence (shared c)));
      [by apply (Hdone k) | cbn [reader_ok]; lia | by apply (Hdone k) | done].
  - by destruct m.
Qed.

(** The writer and new readers leave the readers alone. *)
Lemma readers_later c c' ts : Forall (fun t => reader_ok c (began t) (at_ t)) ts ->
  (updates c <= updates c')%nat -> ticks c <= ticks c' ->
  (ticks c' = ticks c -> shared c' = shared c \/ writer c <> Idle) ->
  (forall k p, past c !! k = Some p -> past c' !! k = Some p) ->
  Forall (fun t => reader_ok c' (began t) (at_ t)) ts.
Proof.
  intros Hts Hu Ht Hs Hp. eapply list.Forall_impl; [exact Hts |]. intros t Hr.
  by apply (reader_ok_later c).
Qed.

Lemma begin_inv c u : lock_inv c -> writer c = Idle ->
  lock_inv (begin_update u c) /\ ticks c <= ticks (begin_update u c).
Proof.
  intros [(p & Hp & Hf) Hlen Hs Ht] Hw. rewrite Hw in Hf.
  assert (Hticks : ticks (begin_update u c) = ticks c + 1).
  { unfold ticks. rewrite Hw. change (updates (begin_update u c)) with (updates c). simpl. lia. }
  split; [| lia]. split.
  - by exists p.
  - done.
  - rewrite Hticks. cbn. rewrite Hs. apply wrapping_next.
  - apply (readers_later c); [done | done | lia | lia | done].
Qed.

(** A step inside an update. *)
Lemma field_inv c w a p : lock_inv c -> writer c <> Idle -> w <> Idle ->
  past c !! updates c = Some p -> a_sequence a = a_sequence (shared c) -> fields_ok w a p ->
  let c' := {| shared := a; writer := w; threads := threads c; past := past c |} in
  lock_inv c' /\ ticks c <= ticks c'.
Proof.
  intros [_ Hlen Hs Ht] Hw Hw' Hp Ha Hf c'.
  assert (Hticks : ticks c' = ticks c).
  { unfold ticks. change (updates c') with (updates c). cbn. by destruct w, (writer c). }
  split; [| lia]. split.
  - by exists p.
  - done.
  - rewrite Hticks. cbn. by rewrite Ha.
  - apply (readers_later c); [done | done | lia | by right | done].
Qed.

Lemma release_inv c u : lock_inv c -> writer c = AtRelease u ->
  lock_inv (go_on c) /\ ticks c <= ticks (go_on c).
Proof.
  intros [(p & Hp & Hf) Hlen Hs Ht] Hw.
  assert (Ho : go_on c = {| shared := bump_sequence (shared c); writer := Idle;
      threads := threads c; past := past c ++ [point (shared c)] |}) by (unfold go_on; by rewrite Hw).
  rewrite Ho. set (c' := {| shared := _; writer := _; threads := _; past := _ |}).
  assert (Hup : updates c' = S (updates c)).
  { unfold updates at 1. cbn [c' past]. rewrite length_app, Hlen. simpl. lia. }
  assert (Hticks : ticks c' = ticks c + 1).
  { unfold ticks. rewrite Hup, Hw. cbn [c' writer]. lia. }
  split; [| lia]. split.
  - exists (point (shared c)). rewrite Hup. cbn [c' past writer shared]. split; [| done].
    by apply list_lookup_middle.
  - cbn [c' past]. rewrite Hup, length_app, Hlen. simpl. lia.
  - rewrite Hticks. cbn. rewrite Hs. apply wrapping_next.
  - apply (readers_later c); [done | lia | lia | lia |].
    intros k q Hk. cbn [c' past]. by apply lookup_app_l_Some.
Qed.

Lemma writer_inv c : lock_inv c -> lock_inv (go_on c) /\ ticks c <= ticks (go_on c).
Proof.
  intros Hinv. pose proof Hinv as [(p & Hp & Hf) _ _ _].
  destruct (writer c) as [|u|u|u] eqn:Ew.
  - assert (go_on c = c) as -> by (unfold go_on; rewrite Ew; destruct c; cbn in *; by subst).
    split; [done | lia].
  - unfold go_on. rewrite Ew. cbn [writer_step].
    apply (field_inv c _ _ p); try done; [by rewrite Ew |]. cbn in *. by subst.
  - unfold go_on. rewrite Ew. cbn [writer_step].
    apply (field_inv c _ _ p); try done; [by rewrite Ew |]. cbn in *.
    unfold point, updated. cbn. by destruct Hf as [-> _].
  - by apply (release_inv c u).
Qed.

Lemma start_inv c m : lock_inv c -> lock_inv (start_reader m c).
Proof.
  intros [Hp Hlen Hs Ht]. split; [done | done | done |]. cbn [start_reader threads].
  apply Forall_app. split.
  - apply (readers_later c); [done | done | by unfold ticks | by left | done].
  - constructor; [| constructor]. cbn. by unfold updates.
Qed.

Lemma reader_inv c i : lock_inv c -> ticks c < USIZE_MODULUS -> lock_inv (run_reader i c).
Proof.
  intros Hinv Hb. pose proof Hinv as [Hp Hlen Hs Ht]. split; [done | done | done |].
  apply (readers_later c); [| done | by unfold ticks | by left | done].
  cbn [run_reader threads]. apply Forall_alter; [done |]. intros t Ht1 Ht2.
  by apply reader_step_ok.
Qed.

Lemma lock_inv_step c c' : lock_inv c -> step c c' -> ticks c < USIZE_MODULUS ->
  lock_inv c' /\ ticks c <= ticks c'.
Proof.
  intros Hinv Hstep Hb. destruct Hstep as [c u Hw|c|c m|c i].
  - by apply begin_inv.
  - by apply writer_inv.
  - split; [by apply start_inv | by unfold ticks].
  - split; [by apply reader_inv | by unfold ticks].
Qed.

Lemma lock_inv_new : lock_inv config_new.
Proof.
  split; [| done | done | constructor].
  exists {| SystemTime.count := 0; SystemTime.tsc := 0 |}. done.
Qed.

Lemma lock_step_ticks c c' : step c c' -> (0 < length (past c))%nat ->
  ticks c <= ticks c' /\ (0 < length (past c'))%nat.
Proof.
  intros Hstep Hp. destruct Hstep as [c u Hw|c|c m|c i]; [| | done | done].
  - unfold ticks. rewrite Hw. change (updates (begin_update u c)) with (updates c).
    cbn [begin_update writer past]. lia.
  - unfold ticks, go_on, updates. destruct (writer c);
      cbn [writer_step past writer]; rewrite ?length_app; cbn [length]; lia.
Qed.

Lemma lock_steps_ticks c c' : rtc step c c' -> (0 < length (past c))%nat -> ticks c <= ticks c'.
Proof.
  induction 1 as [|c d e Hs _ IH]; intros Hp; [lia |].
  destruct (lock_step_ticks _ _ Hs Hp) as [? Hp']. specialize (IH Hp'). lia.
Qed.

Lemma lock_inv_steps c c' : lock_inv c -> rtc step c c' -> ticks c' < USIZE_MODULUS -> lock_inv c'.
Proof.
  intros Hinv Hrun Hb. induction Hrun as [|c d e Hs Hrest IH]; [done |].
  assert (Hp : (0 < length (past c))%nat) by (rewrite (inv_length c Hinv); lia).
  destruct (lock_step_ticks _ _ Hs Hp) as [? Hp']. pose proof (lock_steps_ticks _ _ Hrest Hp').
  apply IH; [| done]. apply (lock_inv_step c); [done | done | lia].
Qed.

(** C27. Whatever the interleaving of one writer and any number of readers, a
    point returned by [load] or [try_load] is never a mixture of two updates: it
    is one of the points written, and no older than the last update completed
    before the reader started, as long as fewer than 2^63 updates are made. *)
Theorem load_returns_written_point c i t p :
  rtc step config_new c -> ticks c < USIZE_MODULUS ->
  threads c !! i = Some t -> at_ t = Returned (Some p) ->
  exists k, (began t <= k <= updates c)%nat /\ past c !! k = Some p.
Proof.
  intros Hrun Hb Ht Hp. destruct (lock_inv_steps _ _ lock_inv_new Hrun Hb) as [_ Hlen _ Hts].
  pose proof (Forall_lookup_1 _ _ _ _ Hts Ht) as Hr. cbn beta in Hr. rewrite Hp in Hr.
  destruct Hr as (k & Hk & E). exists k. split; [| done].
  apply lookup_lt_Some in E. lia.
Qed.

(** The last point written is what an uninterrupted update makes of the one
    before. *)
Lemma write_point_spec u a :
  point (write_point u a) = updated u (point a) /\
  a_sequence (write_point u a) = wrapping_add (wrapping_add (a_sequence a) 1) 1.
Proof. done. Qed.

(** The loads of a reader while nobody else runs. *)
Definition load_alone (m : Mode) (steps : nat) (a : AtomicCorrelationPoint) (r : Reader) : Reader :=
  Nat.iter steps (reader_step m a) r.

Definition has_returned (r : Reader) : bool :=
  match r with Returned _ => true | _ => false end.

(** The readers wait for nobody but the writer: between updates [load] returns
    after at most nine more accesses wherever it is, after five if it starts then,
    with the current point; [try_load] returns in any state. *)
Theorem load_terminates a r :
  (is_locked (a_sequence a) = false ->
     has_returned (load_alone Load 9 a r) = true /\
     load_alone Load 5 a First = Returned (Some (point a))) /\
  has_returned (load_alone TryLoad 4 a r) = true.
Proof.
  assert (H4 : has_returned (load_alone TryLoad 4 a r) = true).
  { unfold load_alone. destruct r as [| | |s|s n|s n t|q]; cbn [Nat.iter nat_rect reader_step try_load_step];
      try destruct (is_locked (a_sequence a)); cbn; try rewrite Z.eqb_refl; done. }
  split; [| done]. intros Hl. split.
  - unfold load_alone.
    destruct r as [| | |s|s n|s n t|q]; cbn [Nat.iter nat_rect reader_step load_step];
      repeat (rewrite ?Hl, ?Z.eqb_refl; cbn [load_step]; try destruct (s =? _)); done.
  - unfold load_alone. cbn. rewrite Hl. cbn. rewrite Hl. cbn. by rewrite Z.eqb_refl.
Qed.

(** ** Witness: a reader overtaken by an update *)

Definition sample_point : CorrelationPoint := {| SystemTime.count := 7; SystemTime.tsc := 100 |}.

Definition sample_run : list (Config -> Config) :=
  [start_reader Load] ++ replicate 3 (run_reader 0) ++
  [begin_update (Store sample_point); go_on; run_reader 0; go_on; go_on] ++
  replicate 6 (run_reader 0).

Definition sample_config : Config := foldl (fun c f => f c) config_new sample_run.

Example sample_config_reader :
  threads sample_config !! 0%nat =
    Some {| mode := Load; began := 0; at_ := Returned (Some sample_point) |}.
Proof. vm_compute. reflexivity. Qed.

Lemma sample_reaches : rtc step config_new sample_config.
Proof.
  unfold sample_config, sample_run. cbn [app replicate foldl].
  repeat lazymatch goal with
  | |- rtc _ _ (start_reader ?m ?c) => eapply (rtc_r _ c); [| apply step_start]
  | |- rtc _ _ (run_reader ?i ?c) => eapply (rtc_r _ c); [| apply step_reader]
  | |- rtc _ _ (go_on ?c) => eapply (rtc_r _ c); [| apply step_writer]
  | |- rtc _ _ (begin_update ?u ?c) => eapply (rtc_r _ c); [| by apply step_begin]
  end. apply rtc_refl.
Qed.

Lemma load_returns_written_point_witness :
  exists k, (0 <= k <= updates sample_config)%nat /\ past sample_config !! k = Some sample_point.
Proof.
  apply (load_returns_written_point sample_config 0
    {| mode := Load; began := 0; at_ := Returned (Some sample_point) |} sample_point).
  - apply sample_reaches.
  - vm_compute. reflexivity.
  - apply sample_config_reader.
  - reflexivity.
Defined.
