(* ===== verification/Phys2Virt.v ===== *)
(** * The window on physical memory

    [kernel/src/memory/phys2virt.rs]: the kernel reaches physical memory through
    a region of virtual memory to which all of it is mapped linearly.  [make]
    builds that mapping out of pages of 1 GiB before any such window exists: it
    reaches the page tables themselves through an entry of the root table that
    points back to the root.  The accesses through that entry are translated by
    [Mapping.node], the walk of the processor; [hardware_walk] is the same walk
    with large pages. *)

From stdpp Require Import base gmap list numbers option tactics.
From Stdlib Require Import ZArith Lia.
From S2P Require Import Prelude Addr Frage Block Mmu FrameAllocator Range Mapping.

Open Scope Z_scope.
Open Scope outcome_scope.

Record Phys2Virt := {
  window : Block;
  physical_memory : Block;
  used_frame_count : option Z;
}.

Definition new_impl (memory : Block) (start : Z) (used : option Z) : outcome Phys2Virt :=
  let? index := frage_index L0_SIZE start in
  let? count := Block.count memory in
  let? end_ := usize_add index count in
  let? mapping := block_from_index Page index end_ in
  Ok {| window := mapping; physical_memory := memory; used_frame_count := used |}.

Definition phys2virt_new (memory : Block) (start : Z) : outcome Phys2Virt :=
  new_impl memory start None.

Definition map_phys (p : Phys2Virt) (phys : Z) : outcome Z :=
  let? start := start_address Page (window p) in
  let? virt := addr_add VirtTag start phys in
  let? inside := contains_address Page (window p) virt in
  if inside : bool then Ok virt else Err Overflow.

(** The free function [map]. *)
Definition map_window (phys2virt address : Z) : outcome Z :=
  let? frame := containing PhysTag L0_SIZE address in
  let? next := unwrap (frage_add PhysTag L0_SIZE frame 1) in
  let? pseudo := unwrap (block_new Frame 0 next) in
  let? p := unwrap (phys2virt_new pseudo phys2virt) in
  unwrap (map_phys p address).

(** ** Building the window *)

(** The address of the page through which the table of entry [index] of the root
    table is accessed. *)
Definition node_page (entry recursive : Z) : outcome Z :=
  let? virt := Virt.from_page_table_indexes [entry; recursive; recursive; recursive] 0 in
  let? page := unwrap (frage_new L0_SIZE virt) in
  let? next := unwrap (frage_add VirtTag L0_SIZE page 1) in
  let? _ := unwrap (block_new Page page next) in
  Ok page.

Section Make.
Context (root : Z).

(** The frame that an access to that page reaches; a page fault is a panic. *)
Definition node_access (entry recursive : Z) : M Kmem Z := fun st =>
  (st, let? page := node_page entry recursive in
       unwrap_some (node (memory st) root (indexes page))).

(** [write_filled] and [fill] of a whole table. *)
Definition fill_table (frame : Z) : M Kmem unit :=
  let! _ := page_table frame in
  fun st => (mkKmem (frames st) (<[frame := empty_table]> (memory st)), Ok tt).

Definition allocate_root_entry (root_entry recursive : Z) : M Kmem unit :=
  let! table := node_access recursive recursive in
  let! pte := read_pte (table, root_entry) in
  let! present := liftM (Pte.is_present pte) in
  let! _ :=
    (if present : bool then retM tt
     else
       let! frame := with_frames allocate in
       let! pte := liftM (guard_store frame KERNEL_RW) in
       write_pte (table, root_entry) pte) in
  let! frame := node_access root_entry recursive in
  fill_table frame.

(** The entry for the GiB number [frame_index]. *)
Definition fill_entry (memory_start entry_count frame j frame_index : Z) : M Kmem unit :=
  if frame_index <? entry_count then
    let! offset := liftM (usize_mul frame_index (Z.shiftl 1 30)) in
    let! phys := liftM (addr_add PhysTag memory_start offset) in
    let! l2_frame := liftM (unwrap (frage_new L2_SIZE phys)) in
    write_pte (frame, j) (Pte.set_huge_frame l2_frame KERNEL_RW)
  else retM tt.

(** The second loop of [fill_entries], with its [break]. *)
Fixpoint fill_nodes (memory_start entry_count recursive : Z) (root_entries : list Z)
    (entries_filled : Z) : M Kmem unit :=
  match root_entries with
  | [] => retM tt
  | root_entry :: root_entries =>
      let! frame := node_access root_entry recursive in
      let! left_ := liftM (usize_sub entry_count entries_filled) in
      let entries_to_fill := Z.min left_ PAGE_TABLE_ENTRY_COUNT in
      let! _ := for_list (fun j =>
        let! frame_index := liftM (usize_add entries_filled j) in
        fill_entry memory_start entry_count frame j frame_index) (seqZ 0 entries_to_fill) in
      let! _ := for_list (fun j => write_pte (frame, j) 0)
        (seqZ entries_to_fill (PAGE_TABLE_ENTRY_COUNT - entries_to_fill)) in
      let! entries_filled := liftM (usize_add entries_filled entries_to_fill) in
      if entry_count <=? entries_filled then retM tt
      else fill_nodes memory_start entry_count recursive root_entries entries_filled
  end.

Definition fill_entries (memory : Block)
    (start_root_entry root_entry_count entry_count recursive : Z) : M Kmem unit :=
  let root_entries := seqZ start_root_entry root_entry_count in
  let! _ := for_list (fun root_entry => allocate_root_entry root_entry recursive) root_entries in
  let! memory_start := liftM (start_address Frame memory) in
  fill_nodes memory_start entry_count recursive root_entries 0.

Definition make (memory : Block) (recursive : Z) : M Kmem Phys2Virt :=
  if (recursive =? 0) || (PAGE_TABLE_ENTRY_COUNT <=? recursive) then liftM (Err InvalidArgument)
  else if (user_root_level_entries.1 <=? recursive) && (recursive <? user_root_level_entries.2)
  then liftM (Err PermissionDenied)
  else
    let! size := liftM (Block.size Frame memory) in
    let entry_count := div_ceil size (Z.shiftl 1 30) in
    let root_entry_count := div_ceil entry_count PAGE_TABLE_ENTRY_COUNT in
    let start_root_entry := PAGE_TABLE_ENTRY_COUNT / 2 in
    if PAGE_TABLE_ENTRY_COUNT <? start_root_entry + root_entry_count then liftM (Err NoPage)
    else
      let! _ := fill_entries memory start_root_entry root_entry_count entry_count recursive in
      let! used := liftM (if root_entry_count =? 0 then Panic else Ok root_entry_count) in
      let! start := liftM (page_higher_half L0_SIZE) in
      liftM (new_impl memory start (Some used)).

End Make.

(** ** The recursive entry *)

(** The entries that [make] accepts for the recursive mapping, but the last one,
    whose page has no successor. *)
Definition recursive_ok (recursive : Z) : Prop := 0 < recursive < 32 \/ 256 <= recursive < 511.

Lemma page_below w : 0 <= w -> w + 4096 < 2 ^ 48 -> (w < LOWER_END -> w + 4096 < LOWER_END) ->
  (4096 | w) ->
  let page := Virt.canonize w in
  frage_new L0_SIZE page = Ok page /\ frage_add VirtTag L0_SIZE page 1 = Ok (page + 4096) /\
  exists b, block_new Page page (page + 4096) = Ok b.
Proof.
  intros H0 H1 H2 [q Hq] page. subst w.
  assert (Hpage : exists r, page = r * 4096 /\
    (0 <= r /\ r + 1 < 34359738368 \/ 4503565267632128 <= r /\ r + 1 < 4503599627370496)).
  { unfold page. rewrite canonize_48 by lia. change (2 ^ 48) with 281474976710656 in *.
    destruct (Z.ltb_spec (q * 4096) LOWER_END).
    - exists q. lia.
    - exists (q + 4503530907893760). lia. }
  destruct Hpage as (r & -> & Hr).
  assert (Hnew : forall x, frage_new L0_SIZE (x * 4096) = Ok (x * 4096)).
  { intros x. unfold frage_new. change (validate_size L0_SIZE) with true.
    change L0_SIZE with 4096. 
    rewrite (proj2 (is_multiple_of_divide (x * 4096) 4096 ltac:(lia))); [done |]. by exists x. }
  split; [apply Hnew |].
  assert (Vr : valid VirtTag (r * 4096)) by (apply virt_valid_iff; unfold canonical; lia).
  assert (Vn : valid VirtTag (r * 4096 + 4096)) by (apply virt_valid_iff; unfold canonical; lia).
  split.
  - unfold frage_add. change L0_SIZE with 4096 at 1. rewrite usize_mul_ok by (unfold is_usize; lia).
    rewrite (proj2 (addr_add_spec (r * 4096) (1 * 4096) (r * 4096 + 4096) Vr ltac:(lia))).
    + replace (r * 4096 + 4096) with ((r + 1) * 4096) by lia. apply Hnew.
    + split; [done |]. split; [done |]. apply virt_same_half_iff; [by apply virt_valid_iff .. |]. lia.
  - assert (Hwf : block_wf Page (mkBlock r (r + 1))).
    { change L0_SIZE with 4096. split; unfold last_index, is_usize; cbn [b_start b_end];
        rewrite ?(proj2 (Z.ltb_lt r (r + 1))) by lia; try lia.
      - done.
      - by replace (r + 1 - 1) with r by lia.
      - replace (r + 1 - 1) with r by lia. apply same_half_refl. }
    exists (mkBlock r (r + 1)). unfold block_new. cbn [mem_index FrageMem].
    rewrite !frage_index_ok. change L0_SIZE with 4096.
    replace (r * 4096 + 4096) with ((r + 1) * 4096) by lia. rewrite !Z.div_mul by lia.
    by apply wf_from_index.
Qed.

Lemma node_page_spec entry recursive : 0 <= entry < 512 -> recursive_ok recursive ->
  exists page, node_page entry recursive = Ok page /\
    indexes page = [Z.to_nat recursive; Z.to_nat recursive; Z.to_nat recursive; Z.to_nat entry].
Proof.
  intros He Hr. assert (0 <= recursive < 511) by (unfold recursive_ok in Hr; lia).
  unfold node_page. rewrite from_page_table_indexes_word by lia. cbn [unwrap].
  destruct (index_word_index entry recursive recursive recursive 0) as (Hw & _ & I0 & I1 & I2 & I3);
    [lia .. |].
  set (w := index_word entry recursive recursive recursive 0) in *.
  destruct (page_below w) as (E1 & E2 & b & E3).
  - lia.
  - unfold w, index_word. lia.
  - unfold w, index_word. unfold recursive_ok in Hr. lia.
  - unfold w, index_word. exists (((recursive * 512 + recursive) * 512 + recursive) * 512 + entry). lia.
  - rewrite E1. cbn [unwrap]. rewrite E2. cbn [unwrap]. rewrite E3. cbn [unwrap].
    eexists. split; [done |].
    unfold indexes, idx. rewrite !page_table_index_canonize by lia. by rewrite I0, I1, I2, I3.
Qed.

(** With an entry that points back to the root, the page reaches the table of the
    entry. *)
Lemma node_access_spec root mem fa entry recursive table back :
  0 <= entry < 512 -> recursive_ok recursive -> mem !! root = Some table ->
  table !! Z.to_nat recursive = Some back -> target back = Some root ->
  node_access root entry recursive (mkKmem fa mem) =
    (mkKmem fa mem, unwrap_some (child mem root (Z.to_nat entry))).
Proof.
  intros He Hr Hroot Hback Ht. unfold node_access.
  destruct (node_page_spec entry recursive He Hr) as (page & -> & ->). cbn [memory].
  assert (Hc : child mem root (Z.to_nat recursive) = Some root)
    by (unfold child; rewrite Hroot; cbn; by rewrite Hback).
  assert (En : forall i, node mem root [Z.to_nat recursive; Z.to_nat recursive; Z.to_nat recursive; i] =
    child mem root i).
  { intros i. cbn [node]. rewrite Hc. cbn [mbind option_bind]. rewrite Hc. cbn [mbind option_bind].
    rewrite Hc. cbn [mbind option_bind]. by destruct (child mem root i). }
  by rewrite En.
Qed.

(** ** The tables while they are built *)

(** The entry of the root table for a new table, and the table of the root entry
    number [i] of the window: one page of 1 GiB after the other. *)
Definition root_pte (n : Z) : Z := Pte.set_phys n (Z.lor KERNEL_RW PageTableFlags.PRESENT).

Definition gib_pte (g : Z) : Z := Pte.set_huge_frame (g * 2 ^ 30) KERNEL_RW.

Definition gib_table (entry_count : Z) (i : nat) : list Z :=
  (fun j => if 512 * Z.of_nat i + j <? entry_count then gib_pte (512 * Z.of_nat i + j) else 0)
    <$> seqZ 0 512.

Section Build.
Context (root recursive : Z) (old_root : list Z) (back : Z) (old : Kmem) (guards : list Z) (k : nat).
Context (Hrec : recursive_ok recursive) (Hout : recursive < 256 \/ 256 + Z.of_nat k <= recursive).
Context (Hk : (k <= 256)%nat) (Hlen : length old_root = 512%nat).
Context (Hback : old_root !! Z.to_nat recursive = Some back) (Htarget : target back = Some root).
Context (Hroot : root ∈ guards).

(** The new tables [ns], the first of them filled. *)
Record built (st : Kmem) (ns : list Z) (tables : nat -> list Z) : Prop := {
  bl_root : exists table, memory st !! root = Some table /\
    forall j, table !! j =
      if decide (256 <= j < 256 + length ns)%nat then root_pte <$> (ns !! (j - 256)%nat)
      else old_root !! j;
  bl_nodup : NoDup ns;
  bl_fresh : Forall (fun n => (n ∉ guards) /\ is_frame n) ns;
  bl_tables : forall i n, ns !! i = Some n -> memory st !! n = Some (tables i);
  bl_rest : forall f, f <> root -> f ∉ ns -> memory st !! f = memory old !! f;
  bl_owned : owned (frames st) (ns ++ guards);
  bl_free : free_count (frames st) = free_count (frames old) - Z.of_nat (length ns);
  bl_info : length (frame_info (frames st)) = length (frame_info (frames old));
}.

Context (Hdom : forall i, 0 <= i < Z.of_nat (length (frame_info (frames old))) ->
  is_Some (memory old !! (i * L0_SIZE))).

Lemma built_dom st ns tables i : built st ns tables ->
  0 <= i < Z.of_nat (length (frame_info (frames old))) -> is_Some (memory st !! (i * L0_SIZE)).
Proof.
  intros Hb Hi. destruct (decide (i * L0_SIZE = root)) as [->|Hr].
  - destruct (bl_root _ _ _ Hb) as (t & -> & _). done.
  - destruct (decide (i * L0_SIZE ∈ ns)) as [Hn|Hn].
    + apply list_elem_of_lookup in Hn as [j Hj]. rewrite (bl_tables _ _ _ Hb _ _ Hj). done.
    + rewrite (bl_rest _ _ _ Hb) by done. by apply Hdom.
Qed.

Lemma rec_index st ns tables : built st ns tables -> (length ns <= k)%nat ->
  exists table, memory st !! root = Some table /\
    table !! Z.to_nat recursive = Some back /\ length table = 512%nat.
Proof.
  intros Hb Hle. destruct (bl_root _ _ _ Hb) as (t & Ht & Hj). exists t. split; [done |]. split.
  - rewrite Hj, decide_False by (unfold recursive_ok in Hrec; lia). done.
  - assert (H1 : t !! 511%nat <> None).
    { rewrite Hj. destruct (decide _) as [Hd|Hd].
      - destruct (lookup_lt_is_Some_2 ns (511 - 256)) as [x ->]; [lia | done].
      - destruct (lookup_lt_is_Some_2 old_root 511) as [x ->]; [lia | done]. }
    assert (H2 : t !! 512%nat = None).
    { rewrite Hj, decide_False by lia. apply lookup_ge_None_2. lia. }
    apply not_eq_None_Some, lookup_lt_is_Some_1 in H1. apply lookup_ge_None_1 in H2. lia.
Qed.

(** An access to the table of an entry. *)
Lemma access_root st ns tables : built st ns tables -> (length ns <= k)%nat ->
  node_access root recursive recursive st = (st, Ok root).
Proof.
  intros Hb Hle. destruct (rec_index _ _ _ Hb Hle) as (t & Ht & Hr & _). destruct st as [fa mem].
  cbn [memory] in Ht. rewrite (node_access_spec root mem fa recursive recursive t back); try done.
  - unfold child. rewrite Ht. cbn [mbind option_bind]. rewrite Hr. cbn [mbind option_bind].
    by rewrite Htarget.
  - unfold recursive_ok in Hrec. lia.
Qed.

Lemma kernel_rw_flags : is_flags (Z.lor KERNEL_RW PageTableFlags.PRESENT).
Proof. apply is_flags_const. reflexivity. Qed.

Lemma target_root_pte n : is_frame n -> target (root_pte n) = Some n.
Proof. intros Hn. unfold root_pte. by rewrite target_set_phys by (done || apply kernel_rw_flags). Qed.

Lemma access_new st ns tables i n : built st ns tables -> (length ns <= k)%nat ->
  ns !! i = Some n -> node_access root (256 + Z.of_nat i) recursive st = (st, Ok n).
Proof.
  intros Hb Hle Hi. destruct (bl_root _ _ _ Hb) as (t & Ht & Hj).
  destruct (rec_index _ _ _ Hb Hle) as (t' & Ht' & Hr & _). assert (t' = t) as -> by congruence.
  destruct st as [fa mem]. cbn [memory] in *. apply lookup_lt_Some in Hi as Hlt.
  rewrite (node_access_spec root mem fa _ recursive t back); try done; [| lia].
  unfold child. rewrite Ht. cbn [mbind option_bind]. rewrite Hj, decide_True by lia.
  replace (Z.to_nat (256 + Z.of_nat i) - 256)%nat with i by lia. rewrite Hi.
  cbn [fmap option_fmap option_map mbind option_bind]. rewrite target_root_pte; [done |].
  by apply (Forall_lookup_1 _ _ _ _ (bl_fresh _ _ _ Hb) Hi).
Qed.

(** The entries of the window are free before. *)
Context (Hfree : forall j, (256 <= j < 256 + k)%nat -> old_root !! j = Some 0).

Lemma read_free st ns tables : built st ns tables -> (length ns < k)%nat ->
  read_pte (root, 256 + Z.of_nat (length ns)) st = (st, Ok 0).
Proof.
  intros Hb Hlt. destruct (bl_root _ _ _ Hb) as (t & Ht & Hj).
  unfold read_pte, page_table, bindM. cbn [fst snd]. rewrite Ht. cbn [unwrap_some].
  unfold liftM. f_equal. apply index_ok. split; [lia |].
  rewrite Hj, decide_False by lia. apply Hfree. lia.
Qed.

(** One more table. *)
Definition linked (st : Kmem) (fa : FrameAllocator) (table : list Z) (ns : list Z) (n : Z) : Kmem :=
  mkKmem fa (<[n := empty_table]>
    (<[root := <[(256 + length ns)%nat := root_pte n]> table]> (memory st))).

Lemma built_extend st ns fa n table : built st ns (fun _ => empty_table) -> (length ns < k)%nat ->
  memory st !! root = Some table -> length table = 512%nat -> (n ∉ ns) -> (n ∉ guards) -> is_frame n ->
  owned fa (n :: ns ++ guards) -> free_count fa = free_count (frames st) - 1 ->
  length (frame_info fa) = length (frame_info (frames st)) ->
  built (linked st fa table ns n) (ns ++ [n]) (fun _ => empty_table).
Proof.
  intros Hb Hlt Ht Hl Hn1 Hn2 Hfr Ho Hfc Hfi. assert (Hnr : n <> root) by congruence.
  split; cbn [linked memory frames].
  - eexists. split; [by rewrite lookup_insert_ne, lookup_insert_eq by done |].
    destruct (bl_root _ _ _ Hb) as (t' & Ht' & Hj). assert (t' = table) as -> by congruence.
    intros j. rewrite length_app. cbn [length].
    destruct (decide (j = 256 + length ns)%nat) as [->|Hne].
    + rewrite list_lookup_insert_eq by lia. rewrite decide_True by lia.
      replace (256 + length ns - 256)%nat with (length ns) by lia.
      by rewrite list_lookup_middle.
    + rewrite list_lookup_insert_ne, Hj by lia. destruct (decide _).
      * rewrite decide_True, lookup_app_l by lia. done.
      * by rewrite decide_False by lia.
  - apply list.NoDup_app. split_and!; [apply (bl_nodup _ _ _ Hb) | set_solver | apply list.NoDup_singleton].
  - apply Forall_app. split; [apply (bl_fresh _ _ _ Hb) | by apply list.Forall_singleton].
  - intros j m Hj. destruct (decide (m = n)) as [->|Hmn]; [by rewrite lookup_insert_eq |].
    apply lookup_app_Some in Hj as [Hj|[_ Hj]].
    + rewrite lookup_insert_ne by done.
      pose proof (Forall_lookup_1 _ _ _ _ (bl_fresh _ _ _ Hb) Hj) as [Hg _].
      rewrite lookup_insert_ne by congruence. by apply (bl_tables _ _ _ Hb j).
    + apply list_lookup_singleton_Some in Hj as [_ Hj]. done.
  - intros f Hf1 Hf2. rewrite !lookup_insert_ne by set_solver. apply (bl_rest _ _ _ Hb); set_solver.
  - apply (owned_perm fa (n :: ns ++ guards)); [| done]. by rewrite <- app_assoc, Permutation_middle.
  - rewrite Hfc, (bl_free _ _ _ Hb), length_app. cbn [length]. lia.
  - by rewrite Hfi, (bl_info _ _ _ Hb).
Qed.

Lemma allocate_entry st ns : built st ns (fun _ => empty_table) -> (length ns < k)%nat ->
  if free_count (frames st) =? 0
  then allocate_root_entry root (256 + Z.of_nat (length ns)) recursive st = (st, Err NoFrame)
  else exists st' n, built st' (ns ++ [n]) (fun _ => empty_table) /\
    allocate_root_entry root (256 + Z.of_nat (length ns)) recursive st = (st', Ok tt).
Proof.
  intros Hb Hlt. pose proof (own_wf _ _ (bl_owned _ _ _ Hb)) as Hwf.
  destruct (rec_index _ _ _ Hb ltac:(lia)) as (t & Ht & Hr & Hl).
  unfold allocate_root_entry. rewrite (bindM_ok _ _ _ _ _ (access_root _ _ _ Hb ltac:(lia))).
  rewrite (bindM_ok _ _ _ _ _ (read_free _ _ _ Hb Hlt)).
  change (Pte.is_present 0) with (@Ok bool false). rewrite bindM_lift. cbv iota.
  destruct (allocate_cases (frames st) Hwf) as
    [(E0 & _ & E)|(Hpos & i & next & fa & _ & Hi & _ & E & Hfi & Hfc & _ & _ & _)].
  { rewrite E0. cbn [Z.eqb]. unfold bindM, with_frames. rewrite E. by destruct st. }
  replace (free_count (frames st) =? 0) with false by lia.
  destruct (owned_allocate _ _ _ _ (bl_owned _ _ _ Hb) E) as [Hni Ho].
  assert (Hfr : is_frame (i * L0_SIZE)) by (apply (own_frames _ _ Ho); left).
  assert (Hdomn : is_Some (memory st !! (i * L0_SIZE))).
  { rewrite (bl_info _ _ _ Hb) in Hi. by apply (built_dom st ns (fun _ => empty_table)). }
  set (n := i * L0_SIZE) in *. rewrite not_elem_of_app in Hni. destruct Hni as [Hn1 Hn2].
  assert (Hbuilt : built (linked st fa t ns n) (ns ++ [n]) (fun _ => empty_table)).
  { apply built_extend; try done. by rewrite Hfi, length_insert. }
  exists (linked st fa t ns n), n. split; [done |].
  set (st1 := mkKmem fa (<[root := <[(256 + length ns)%nat := root_pte n]> t]> (memory st))).
  rewrite (bindM_ok _ _ st st1 tt).
  - assert (Hacc : node_access root (256 + Z.of_nat (length ns)) recursive st1 = (st1, Ok n)).
    { unfold st1. rewrite (node_access_spec root _ fa _ recursive
        (<[(256 + length ns)%nat := root_pte n]> t) back); try done.
      - unfold child. rewrite lookup_insert_eq. cbn [mbind option_bind].
        replace (Z.to_nat (256 + Z.of_nat (length ns))) with (256 + length ns)%nat by lia.
        rewrite list_lookup_insert_eq by lia. cbn [mbind option_bind].
        by rewrite target_root_pte.
      - lia.
      - apply lookup_insert_eq.
      - rewrite list_lookup_insert_ne by (unfold recursive_ok in Hrec; lia). done. }
    rewrite (bindM_ok _ _ _ _ _ Hacc). unfold fill_table, page_table, bindM. cbn [st1 memory frames].
    destruct Hdomn as [x Hx]. rewrite lookup_insert_ne, Hx by congruence. done.
  - unfold bindM at 1, with_frames. rewrite E. unfold guard_store, Pte.set_frame.
    change (PageTableFlags.contains KERNEL_RW PageTableFlags.HUGE) with false. cbn [negb].
    rewrite bindM_lift. unfold write_pte. cbn [fst snd memory frames]. rewrite Ht. cbn [unwrap_some].
    rewrite index_set_ok by lia.
    replace (Z.to_nat (256 + Z.of_nat (length ns))) with (256 + length ns)%nat by lia. done.
Qed.

Lemma allocate_loop m st ns : built st ns (fun _ => empty_table) -> (length ns + m = k)%nat ->
  let loop := for_list (fun root_entry => allocate_root_entry root root_entry recursive)
    (seqZ (256 + Z.of_nat (length ns)) (Z.of_nat m)) st in
  if Z.of_nat m <=? free_count (frames st)
  then exists st' ns', length ns' = k /\ built st' ns' (fun _ => empty_table) /\ loop = (st', Ok tt)
  else exists st' ns', Z.of_nat (length ns') = free_count (frames old) /\
    built st' ns' (fun _ => empty_table) /\ loop = (st', Err NoFrame).
Proof.
  revert st ns. induction m as [|m IH]; intros st ns Hb Hm.
  - pose proof (free_count_bound _ (own_wf _ _ (bl_owned _ _ _ Hb))).
    change (Z.of_nat 0) with 0. replace (0 <=? free_count (frames st)) with true by lia.
    exists st, ns. split_and!; [lia | done | done].
  - rewrite Nat2Z.inj_succ. rewrite (seqZ_cons _ (Z.succ _)) by lia. cbn [for_list].
    pose proof (free_count_bound _ (own_wf _ _ (bl_owned _ _ _ Hb))) as [Hpos _].
    pose proof (allocate_entry st ns Hb ltac:(lia)) as Ha.
    destruct (Z.eqb_spec (free_count (frames st)) 0) as [E0|E0].
    + rewrite (proj2 (Z.leb_gt _ _)) by lia.
      exists st, ns. split_and!; [pose proof (bl_free _ _ _ Hb); lia | done |].
      by rewrite (bindM_err _ _ _ _ _ Ha).
    + destruct Ha as (st1 & n & Hb1 & Ha). rewrite (bindM_ok _ _ _ _ _ Ha).
      pose proof (bl_free _ _ _ Hb) as F0. pose proof (bl_free _ _ _ Hb1) as F1.
      specialize (IH st1 (ns ++ [n]) Hb1). rewrite length_app in IH, F1. cbn [length] in IH, F1.
      specialize (IH ltac:(lia)).
      replace (Z.succ (256 + Z.of_nat (length ns))) with (256 + Z.of_nat (length ns + 1)) by lia.
      replace (Z.pred (Z.succ (Z.of_nat m))) with (Z.of_nat m) by lia.
      destruct (Z.leb_spec (Z.of_nat m) (free_count (frames st1)));
        [rewrite (proj2 (Z.leb_le _ _)) by lia | rewrite (proj2 (Z.leb_gt _ _)) by lia]; exact IH.
Qed.

End Build.

(** ** Filling a table *)

Lemma write_loop body frame g n a st table :
  memory st !! frame = Some table -> length table = 512%nat -> 0 <= a -> a + Z.of_nat n <= 512 ->
  (forall j s, a <= j < a + Z.of_nat n -> body j s = write_pte (frame, j) (g j) s) ->
  exists table', length table' = 512%nat /\
    for_list body (seqZ a (Z.of_nat n)) st =
      (mkKmem (frames st) (<[frame := table']> (memory st)), Ok tt) /\
    forall j, table' !! j =
      if decide (a <= Z.of_nat j < a + Z.of_nat n) then Some (g (Z.of_nat j)) else table !! j.
Proof.
  revert a st table. induction n as [|n IH]; intros a st table Ht Hl Ha Hn Hbody.
  - exists table. split; [done |]. split.
    + destruct st as [fa mem]. cbn [memory frames] in *. by rewrite insert_id.
    + intros j. by rewrite decide_False by lia.
  - rewrite Nat2Z.inj_succ, (seqZ_cons _ (Z.succ _)) by lia. cbn [for_list].
    assert (Hw : body a st =
      (mkKmem (frames st) (<[frame := <[Z.to_nat a := g a]> table]> (memory st)), Ok tt)).
    { rewrite Hbody by lia. unfold write_pte. cbn [fst snd]. rewrite Ht. cbn [unwrap_some].
      by rewrite index_set_ok by lia. }
    rewrite (bindM_ok _ _ _ _ _ Hw).
    replace (Z.pred (Z.succ (Z.of_nat n))) with (Z.of_nat n) by lia.
    destruct (IH (Z.succ a) (mkKmem (frames st) (<[frame := <[Z.to_nat a := g a]> table]> (memory st)))
      (<[Z.to_nat a := g a]> table)) as (t' & Hl' & E & Hj).
    + cbn [memory]. by rewrite lookup_insert_eq.
    + by rewrite length_insert.
    + lia.
    + lia.
    + intros j s' Hj. apply Hbody. lia.
    + exists t'. split; [done |]. rewrite E. cbn [memory frames]. rewrite insert_insert_eq.
      split; [done |]. intros j. rewrite Hj.
      destruct (decide (Z.of_nat j = a)) as [<-|Hne].
      * rewrite decide_False by lia. rewrite decide_True by lia. rewrite Nat2Z.id.
        apply list_lookup_insert_eq. lia.
      * rewrite list_lookup_insert_ne by lia.
        destruct (decide _); [rewrite decide_True by lia | rewrite decide_False by lia]; done.
Qed.

Lemma fill_entry_spec entry_count frame j g st : 0 <= g < entry_count -> entry_count <= 131072 ->
  fill_entry 0 entry_count frame j g st = write_pte (frame, j) (gib_pte g) st.
Proof.
  intros Hg He. unfold fill_entry. replace (g <? entry_count) with true by lia.
  change (Z.shiftl 1 30) with 1073741824. rewrite usize_mul_ok by (unfold is_usize; lia).
  rewrite bindM_lift.
  rewrite (proj2 (addr_add_spec (T := PhysTag) 0 (g * 1073741824) (g * 1073741824)
    ltac:(apply phys_valid_iff; lia) ltac:(lia))).
  2: { split; [lia |]. split; [apply phys_valid_iff; lia | done]. }
  rewrite bindM_lift. unfold frage_new. change (validate_size L2_SIZE) with true.
  change L2_SIZE with 1073741824.
  rewrite (proj2 (is_multiple_of_divide (g * 1073741824) 1073741824 ltac:(lia))) by (by exists g).
  cbn [unwrap]. by rewrite bindM_lift.
Qed.

Lemma gib_table_lookup entry_count i j : (j < 512)%nat ->
  gib_table entry_count i !! j =
    Some (if 512 * Z.of_nat i + Z.of_nat j <? entry_count
          then gib_pte (512 * Z.of_nat i + Z.of_nat j) else 0).
Proof.
  intros Hj. unfold gib_table. rewrite list_lookup_fmap, lookup_seqZ_lt by lia.
  cbn [fmap option_fmap option_map]. by rewrite Z.add_0_l.
Qed.

Section Fill.
Context (root recursive : Z) (old_root : list Z) (back : Z) (old : Kmem) (guards : list Z) (k : nat).
Context (Hrec : recursive_ok recursive) (Hout : recursive < 256 \/ 256 + Z.of_nat k <= recursive).
Context (Hk : (k <= 256)%nat) (Hlen : length old_root = 512%nat).
Context (Hback : old_root !! Z.to_nat recursive = Some back) (Htarget : target back = Some root).
Context (Hroot : root ∈ guards).
Context (entry_count : Z) (Hcount : (Z.of_nat k - 1) * 512 < entry_count <= Z.of_nat k * 512).

Abbreviation built := (built root old_root old guards).

(** The first [i] tables are filled. *)
Definition filled (i : nat) : nat -> list Z := fun j =>
  if decide (j < i)%nat then gib_table entry_count j else empty_table.

Lemma built_fill st ns i n : built st ns (filled i) -> ns !! i = Some n ->
  built (mkKmem (frames st) (<[n := gib_table entry_count i]> (memory st))) ns (filled (S i)).
Proof.
  intros Hb Hi. pose proof (Forall_lookup_1 _ _ _ _ (bl_fresh _ _ _ _ _ _ _ Hb) Hi) as [Hg _].
  assert (Hnr : n <> root) by congruence.
  split; cbn [memory frames].
  - destruct (bl_root _ _ _ _ _ _ _ Hb) as (t & Htt & Hj). exists t. split; [| done].
    by rewrite lookup_insert_ne.
  - apply (bl_nodup _ _ _ _ _ _ _ Hb).
  - apply (bl_fresh _ _ _ _ _ _ _ Hb).
  - intros j m Hj. destruct (decide (j = i)) as [->|Hne].
    + assert (m = n) as -> by congruence. rewrite lookup_insert_eq. unfold filled.
      by rewrite decide_True by lia.
    + assert (m <> n). { intros ->. apply Hne. by eapply NoDup_lookup; [apply (bl_nodup _ _ _ _ _ _ _ Hb) | ..]. }
      rewrite lookup_insert_ne by done. rewrite (bl_tables _ _ _ _ _ _ _ Hb j m Hj). unfold filled.
      destruct (decide (j < i)%nat); [by rewrite decide_True by lia | by rewrite decide_False by lia].
  - intros f Hf1 Hf2. rewrite lookup_insert_ne.
    + by apply (bl_rest _ _ _ _ _ _ _ Hb).
    + intros ->. apply Hf2. by eapply list_elem_of_lookup_2.
  - apply (bl_owned _ _ _ _ _ _ _ Hb).
  - apply (bl_free _ _ _ _ _ _ _ Hb).
  - apply (bl_info _ _ _ _ _ _ _ Hb).
Qed.

Lemma fill_one st ns i n : built st ns (filled i) -> length ns = k -> ns !! i = Some n ->
  let to_fill := Z.min (entry_count - 512 * Z.of_nat i) 512 in
  exists st', built st' ns (filled (S i)) /\
    bindM (for_list (fun j =>
        let! frame_index := liftM (usize_add (512 * Z.of_nat i) j) in
        fill_entry 0 entry_count n j frame_index) (seqZ 0 to_fill))
      (fun _ => for_list (fun j => write_pte (n, j) 0) (seqZ to_fill (512 - to_fill))) st =
    (st', Ok tt).
Proof.
  intros Hb Hns Hi to_fill. apply lookup_lt_Some in Hi as Hlt.
  assert (Hto : 0 < to_fill <= 512) by lia.
  assert (Ht : memory st !! n = Some empty_table).
  { rewrite (bl_tables _ _ _ _ _ _ _ Hb i n Hi). unfold filled. by rewrite decide_False by lia. }
  destruct (write_loop (fun j => let! frame_index := liftM (usize_add (512 * Z.of_nat i) j) in
      fill_entry 0 entry_count n j frame_index) n (fun j => gib_pte (512 * Z.of_nat i + j))
    (Z.to_nat to_fill) 0 st empty_table Ht) as (t1 & L1 & E1 & J1); [done | lia | lia | |].
  { intros j s Hj. rewrite usize_add_ok by (unfold is_usize; lia). rewrite bindM_lift.
    apply fill_entry_spec; lia. }
  rewrite Z2Nat.id in E1, J1 by lia.
  set (st1 := mkKmem (frames st) (<[n := t1]> (memory st))) in *.
  destruct (write_loop (fun j => write_pte (n, j) 0) n (fun _ => 0) (Z.to_nat (512 - to_fill)) to_fill
    st1 t1) as (t2 & L2 & E2 & J2); [by cbn; rewrite lookup_insert_eq | done | lia | lia | done |].
  rewrite Z2Nat.id in E2, J2 by lia.
  rewrite (bindM_ok _ _ _ _ _ E1), E2. cbn [st1 frames memory]. rewrite insert_insert_eq.
  eexists. split; [| done].
  assert (Et : t2 = gib_table entry_count i).
  { apply list_eq. intros j. destruct (decide (j < 512)%nat) as [Hj|Hj].
    - rewrite gib_table_lookup, J2, J1 by done. destruct (decide _) as [D|D].
      + rewrite (proj2 (Z.ltb_ge _ _)) by lia. done.
      + rewrite decide_True by lia. rewrite (proj2 (Z.ltb_lt _ _)) by lia. done.
    - rewrite (lookup_ge_None_2 t2), lookup_ge_None_2; [done | | lia].
      unfold gib_table. rewrite length_fmap, length_seqZ. lia. }
  subst t2. by apply built_fill.
Qed.

Lemma fill_nodes_loop m i st ns : built st ns (filled i) -> length ns = k -> (i + m = k)%nat ->
  exists st', built st' ns (filled k) /\
    fill_nodes root 0 entry_count recursive (seqZ (256 + Z.of_nat i) (Z.of_nat m))
      (512 * Z.of_nat i) st = (st', Ok tt).
Proof.
  revert i st. induction m as [|m IH]; intros i st Hb Hns Him.
  { assert (i = k) as -> by lia. by exists st. }
  destruct (lookup_lt_is_Some_2 ns i) as [n Hi]; [lia |].
  rewrite Nat2Z.inj_succ, (seqZ_cons _ (Z.succ _)) by lia. cbn [fill_nodes].
  assert (Hacc : node_access root (256 + Z.of_nat i) recursive st = (st, Ok n)).
  { eapply (access_new root recursive old_root back old guards k); eauto; lia. }
  rewrite (bindM_ok _ _ _ _ _ Hacc). rewrite usize_sub_ok by (unfold is_usize; lia). rewrite bindM_lift.
  change PAGE_TABLE_ENTRY_COUNT with 512. cbv zeta.
  destruct (fill_one st ns i n Hb Hns Hi) as (st1 & Hb1 & E). cbv zeta in E.
  set (to_fill := Z.min (entry_count - 512 * Z.of_nat i) 512) in *.
  apply bindM_inv_ok in E as (st2 & [] & E1 & E2).
  rewrite (bindM_ok _ _ _ _ _ E1), (bindM_ok _ _ _ _ _ E2).
  rewrite usize_add_ok by (unfold is_usize; lia). rewrite bindM_lift.
  destruct (Z.leb_spec entry_count (512 * Z.of_nat i + to_fill)).
  - assert (S i = k) as <- by lia. by exists st1.
  - replace (512 * Z.of_nat i + to_fill) with (512 * Z.of_nat (S i)) by lia.
    replace (Z.succ (256 + Z.of_nat i)) with (256 + Z.of_nat (S i)) by lia.
    replace (Z.pred (Z.succ (Z.of_nat m))) with (Z.of_nat m) by lia.
    apply IH; [done | done | lia].
Qed.

End Fill.

(** ** The window *)

(** The first page of the upper half, by number. *)
Abbreviation HIGHER_PAGE := 4503565267632128.

Lemma window_wf n : 0 < n <= 34359738368 -> block_wf Page (mkBlock HIGHER_PAGE (HIGHER_PAGE + n)).
Proof.
  intros Hn. assert (Hv : forall r, HIGHER_PAGE <= r < 4503599627370496 -> valid VirtTag (r * 4096))
    by (intros r Hr; apply virt_valid_iff; unfold canonical; lia).
  split; unfold last_index, is_usize; cbn [b_start b_end];
    rewrite ?(proj2 (Z.ltb_lt HIGHER_PAGE (HIGHER_PAGE + n))) by lia; try lia.
  - apply (Hv HIGHER_PAGE). lia.
  - apply (Hv (HIGHER_PAGE + n - 1)). lia.
  - change (is_same_half (mem_tag Page)) with Virt.same_half. change (SIZE_OF Page) with 4096.
    apply virt_same_half_iff; [apply virt_valid_iff, Hv; lia .. |]. lia.
Qed.

Lemma new_impl_spec n used : 0 < n <= 34359738368 ->
  new_impl (mkBlock 0 n) HIGHER_START used =
    Ok {| window := mkBlock HIGHER_PAGE (HIGHER_PAGE + n); physical_memory := mkBlock 0 n;
          used_frame_count := used |}.
Proof.
  intros Hn. unfold new_impl. rewrite frage_index_ok. change (HIGHER_START / L0_SIZE) with HIGHER_PAGE.
  unfold Block.count. cbn [b_start b_end]. rewrite usize_sub_ok by (unfold is_usize; lia).
  rewrite Z.sub_0_r, usize_add_ok by (unfold is_usize; lia).
  by rewrite (wf_from_index _ _ (window_wf n Hn)).
Qed.

Lemma map_phys_spec n memory used a : 0 < n <= 34359738368 -> 0 <= a < PHYS_END ->
  map_phys {| window := mkBlock HIGHER_PAGE (HIGHER_PAGE + n); physical_memory := memory;
              used_frame_count := used |} a =
    if a <? n * 4096 then Ok (HIGHER_START + a) else Err Overflow.
Proof.
  intros Hn Ha. pose proof (window_wf n Hn) as Hwf. unfold map_phys. cbn [window].
  rewrite wf_start_address by done. cbn [b_start]. change (HIGHER_PAGE * SIZE_OF Page) with HIGHER_START.
  assert (Vh : valid VirtTag HIGHER_START) by (apply virt_valid_iff; unfold canonical; lia).
  destruct (Z.lt_ge_cases a LOWER_END) as [Hlt|Hge].
  - assert (Va : valid VirtTag (HIGHER_START + a)) by (apply virt_valid_iff; unfold canonical; lia).
    assert (Hh : Virt.same_half HIGHER_START (HIGHER_START + a) = true)
      by (apply virt_same_half_iff; [by apply virt_valid_iff .. |]; lia).
    rewrite (proj2 (addr_add_spec (T := VirtTag) HIGHER_START a (HIGHER_START + a) Vh ltac:(lia)))
      by (split; [done | by split]).
    rewrite (contains_address_spec _ _ _ Hwf Va (or_introl Hh) ltac:(cbn; lia)). cbn [b_start b_end].
    change (SIZE_OF Page) with 4096. rewrite (proj2 (Z.leb_le _ _)) by lia. cbn [andb].
    assert (Hd : (HIGHER_START + a) / 4096 = HIGHER_PAGE + a / 4096)
      by (Z.div_mod_to_equations; lia).
    rewrite Hd. destruct (Z.ltb_spec a (n * 4096)).
    + by rewrite (proj2 (Z.ltb_lt _ _)) by (Z.div_mod_to_equations; lia).
    + by rewrite (proj2 (Z.ltb_ge _ _)) by (Z.div_mod_to_equations; lia).
  - rewrite (proj2 (Z.ltb_ge _ _)) by lia. unfold addr_add, checked_add.
    rewrite (proj2 (fits_usize_false _)) by (unfold is_usize; lia). done.
Qed.

(** The walk of the processor: the address a virtual address is translated to. *)
Fixpoint hardware_walk (mem : gmap Z (list Z)) (frame virt : Z) (levels : list Z) : option Z :=
  match levels with
  | [] => None
  | level :: levels =>
      table ← mem !! frame;
      pte ← table !! idx virt level;
      match Pte.is_present pte, Pte.is_huge pte, Pte.phys pte with
      | Ok true, Ok huge, Ok phys =>
          if huge || (level =? 0) then Some (phys + virt mod 2 ^ (12 + 9 * level))
          else hardware_walk mem phys virt levels
      | _, _, _ => None
      end
  end.

Definition processor_translate (mem : gmap Z (list Z)) (root virt : Z) : option Z :=
  hardware_walk mem root virt LEVELS.

Lemma window_indexes a : 0 <= a < LOWER_END ->
  idx (HIGHER_START + a) 3 = (256 + Z.to_nat (a / 2 ^ 39))%nat /\
  idx (HIGHER_START + a) 2 = Z.to_nat (a / 2 ^ 30 mod 512) /\
  (HIGHER_START + a) mod 2 ^ 30 = a mod 2 ^ 30.
Proof.
  intros Ha. unfold idx. rewrite !page_table_index_div by lia.
  change (2 ^ (12 + 3 * 9)) with 549755813888. change (2 ^ (12 + 2 * 9)) with 1073741824.
  change (2 ^ 39) with 549755813888. change (2 ^ 30) with 1073741824.
  assert (E3 : (HIGHER_START + a) / 549755813888 mod 512 = 256 + a / 549755813888)
    by (Z.div_mod_to_equations; lia).
  split; [| split].
  - rewrite E3. assert (0 <= a / 549755813888) by (Z.div_mod_to_equations; lia). lia.
  - f_equal. Z.div_mod_to_equations. lia.
  - Z.div_mod_to_equations. lia.
Qed.

Lemma root_pte_fields n : is_frame n ->
  Pte.is_present (root_pte n) = Ok true /\ Pte.is_huge (root_pte n) = Ok false /\
  Pte.phys (root_pte n) = Ok n.
Proof.
  intros Hn. unfold root_pte, Pte.is_present, Pte.is_huge.
  rewrite set_phys_flags, set_phys_phys by (done || apply kernel_rw_flags). done.
Qed.

Lemma gib_pte_fields g : 0 <= g < 131072 ->
  Pte.is_present (gib_pte g) = Ok true /\ Pte.is_huge (gib_pte g) = Ok true /\
  Pte.phys (gib_pte g) = Ok (g * 2 ^ 30).
Proof.
  intros Hg. unfold gib_pte, Pte.set_huge_frame, frage_address, Pte.is_present, Pte.is_huge.
  assert (Hf : is_frame (g * 2 ^ 30)).
  { split; [apply phys_valid_iff; lia |]. exists (g * 2 ^ 18). change L0_SIZE with (2 ^ 12). lia. }
  assert (Hfl : is_flags (Z.lor (Z.lor KERNEL_RW PageTableFlags.HUGE) PageTableFlags.PRESENT))
    by (apply is_flags_const; reflexivity).
  rewrite set_phys_flags, set_phys_phys by done. done.
Qed.

(** What the tables translate. *)
Lemma built_translate root old_root old guards k entry_count st ns a :
  built root old_root old guards st ns (filled entry_count k) -> length ns = k ->
  0 <= a < LOWER_END -> a / 2 ^ 30 < entry_count -> a / 2 ^ 39 < Z.of_nat k ->
  processor_translate (memory st) root (HIGHER_START + a) = Some a.
Proof.
  intros Hb Hns Ha Hg Hi. destruct (window_indexes a Ha) as (I3 & I2 & Hm).
  destruct (bl_root _ _ _ _ _ _ _ Hb) as (t & Ht & Hj).
  assert (Hq : 0 <= a / 2 ^ 39) by (apply Z.div_pos; lia).
  destruct (lookup_lt_is_Some_2 ns (Z.to_nat (a / 2 ^ 39))) as [n Hn]; [lia |].
  pose proof (Forall_lookup_1 _ _ _ _ (bl_fresh _ _ _ _ _ _ _ Hb) Hn) as [_ Hfr].
  destruct (root_pte_fields n Hfr) as (P1 & P2 & P3).
  unfold processor_translate, LEVELS. cbn [hardware_walk]. rewrite Ht. cbn [mbind option_bind].
  rewrite I3, Hj, decide_True by lia.
  replace (256 + Z.to_nat (a / 2 ^ 39) - 256)%nat with (Z.to_nat (a / 2 ^ 39)) by lia.
  rewrite Hn. cbn [fmap option_fmap option_map mbind option_bind]. rewrite P1, P2, P3.
  cbn [orb Z.eqb]. rewrite (bl_tables _ _ _ _ _ _ _ Hb _ _ Hn). unfold filled.
  rewrite decide_True by lia. cbn [mbind option_bind].
  pose proof (Z.mod_pos_bound (a / 2 ^ 30) 512 ltac:(lia)) as Hb2.
  rewrite I2, gib_table_lookup by lia.
  assert (Eg : 512 * Z.of_nat (Z.to_nat (a / 2 ^ 39)) + Z.of_nat (Z.to_nat (a / 2 ^ 30 mod 512)) =
    a / 2 ^ 30).
  { rewrite !Z2Nat.id by lia. change (2 ^ 39) with (2 ^ 30 * 512). rewrite <- Z.div_div by lia.
    pose proof (Z.div_mod (a / 2 ^ 30) 512). lia. }
  rewrite Eg, (proj2 (Z.ltb_lt _ _)) by lia. cbn [mbind option_bind].
  destruct (gib_pte_fields (a / 2 ^ 30)) as (G1 & G2 & G3).
  { split; [apply Z.div_pos; lia | apply Z.div_lt_upper_bound; lia]. }
  rewrite G1, G2, G3. cbn [orb]. change (12 + 9 * 2) with 30. rewrite Hm. f_equal.
  pose proof (Z.div_mod a (2 ^ 30)). lia.
Qed.

Lemma built_start root old_root old guards :
  memory old !! root = Some old_root -> owned (frames old) guards ->
  built root old_root old guards old [] (fun _ => empty_table).
Proof.
  intros Hroot Hown. split; try done; [| by apply base.NoDup_nil_2 | simpl; lia].
  exists old_root. split; [done |]. intros j. by rewrite decide_False by (simpl; lia).
Qed.

Lemma filled_start root old_root old guards st ns entry_count :
  built root old_root old guards st ns (fun _ => empty_table) ->
  built root old_root old guards st ns (filled entry_count 0).
Proof.
  intros [B1 B2 B3 B4 B5 B6 B7 B8]. by split.
Qed.

Lemma fill_entries_spec root recursive old_root back old guards k n entry_count :
  recursive_ok recursive -> (recursive < 256 \/ 256 + Z.of_nat k <= recursive) -> (k <= 256)%nat ->
  memory old !! root = Some old_root -> length old_root = 512%nat ->
  old_root !! Z.to_nat recursive = Some back -> target back = Some root -> root ∈ guards ->
  (forall i, 0 <= i < Z.of_nat (length (frame_info (frames old))) ->
     is_Some (memory old !! (i * L0_SIZE))) ->
  (forall j, (256 <= j < 256 + k)%nat -> old_root !! j = Some 0) ->
  (Z.of_nat k - 1) * 512 < entry_count <= Z.of_nat k * 512 -> owned (frames old) guards ->
  let fill := fill_entries root (mkBlock 0 n) 256 (Z.of_nat k) entry_count recursive old in
  if Z.of_nat k <=? free_count (frames old)
  then exists st ns, length ns = k /\
    built root old_root old guards st ns (filled entry_count k) /\ fill = (st, Ok tt)
  else exists st ns, Z.of_nat (length ns) = free_count (frames old) /\
    built root old_root old guards st ns (fun _ => empty_table) /\ fill = (st, Err NoFrame).
Proof.
  intros Hrec Hout Hk Hroot Hlen Hback Htarget Hin Hdom Hfree Hcount Hown. cbv zeta.
  pose proof (allocate_loop root recursive old_root back old guards k Hrec Hout Hk Hlen Hback Htarget
    Hin Hdom Hfree k old [] (built_start _ _ _ _ Hroot Hown) eq_refl) as Ha. cbv zeta in Ha.
  change (256 + Z.of_nat (length [])) with 256 in Ha. unfold fill_entries. cbv zeta.
  destruct (Z.of_nat k <=? free_count (frames old)).
  - destruct Ha as (st1 & ns & Hns & Hb & E). rewrite (bindM_ok _ _ _ _ _ E).
    change (start_address Frame (mkBlock 0 n)) with (@Ok Z 0). rewrite bindM_lift.
    destruct (fill_nodes_loop root recursive old_root back old guards k Hrec Hout Hk Hlen Hback Htarget
      Hin entry_count Hcount k 0 st1 ns (filled_start _ _ _ _ _ _ _ Hb) Hns eq_refl) as (st & Hb' & E').
    exists st, ns. split_and!; [done | done |]. exact E'.
  - destruct Ha as (st1 & ns & Hns & Hb & E). exists st1, ns. split_and!; [done | done |].
    by rewrite (bindM_err _ _ _ _ _ E).
Qed.

(** The checks before the tables are built. *)
Lemma make_checks root n recursive k entry_count st :
  recursive_ok recursive -> 0 < n * 4096 <= LOWER_END ->
  entry_count = div_ceil (n * 4096) (2 ^ 30) -> Z.of_nat k = div_ceil entry_count 512 ->
  (0 < k <= 256)%nat ->
  make root (mkBlock 0 n) recursive st =
    bindM (fill_entries root (mkBlock 0 n) 256 (Z.of_nat k) entry_count recursive)
      (fun _ => liftM (new_impl (mkBlock 0 n) HIGHER_START (Some (Z.of_nat k)))) st.
Proof.
  intros Hrec Hn -> Ek Hk. unfold make, recursive_ok in *. change PAGE_TABLE_ENTRY_COUNT with 512.
  rewrite (proj2 (Z.eqb_neq _ _)), (proj2 (Z.leb_gt _ _)) by lia. cbn [orb].
  replace ((user_root_level_entries.1 <=? recursive) && (recursive <? user_root_level_entries.2))
    with false by (symmetry; apply andb_false_iff; change user_root_level_entries with (32, 256);
      cbn [fst snd]; rewrite Z.leb_gt, Z.ltb_ge; lia).
  unfold Block.size, Block.count. cbn [b_start b_end SIZE_OF FrageMem].
  rewrite usize_sub_ok by (unfold is_usize; lia). rewrite Z.sub_0_r. change L0_SIZE with 4096.
  rewrite usize_mul_ok by (unfold is_usize; lia). rewrite bindM_lift. cbv zeta.
  change (Z.shiftl 1 30) with (2 ^ 30). rewrite <- Ek. change (512 / 2) with 256.
  rewrite (proj2 (Z.ltb_ge _ _)) by lia. rewrite (proj2 (Z.eqb_neq _ _)) by lia.
  destruct (fill_entries root (mkBlock 0 n) 256 (Z.of_nat k) (div_ceil (n * 4096) (2 ^ 30)) recursive st)
    as [st' [[]|e|]] eqn:E; [| by unfold bindM; rewrite E ..].
  rewrite !(bindM_ok _ _ _ _ _ E), bindM_lift. change (page_higher_half 4096) with (page_higher_half L0_SIZE).
  replace (page_higher_half L0_SIZE) with (@Ok Z HIGHER_START) by (vm_compute; reflexivity).
  by rewrite bindM_lift.
Qed.

Lemma make_too_big root n recursive old :
  0 < recursive < 512 -> recursive < 32 \/ 256 <= recursive -> is_usize (n * 4096) -> LOWER_END < n * 4096 ->
  make root (mkBlock 0 n) recursive old = (old, Err NoPage).
Proof.
  intros H1 H2 Hu Hbig. unfold make. change PAGE_TABLE_ENTRY_COUNT with 512.
  rewrite (proj2 (Z.eqb_neq _ _)), (proj2 (Z.leb_gt _ _)) by lia. cbn [orb].
  replace ((user_root_level_entries.1 <=? recursive) && (recursive <? user_root_level_entries.2))
    with false by (symmetry; apply andb_false_iff; change user_root_level_entries with (32, 256);
      cbn [fst snd]; rewrite Z.leb_gt, Z.ltb_ge; lia).
  unfold Block.size, Block.count. cbn [b_start b_end SIZE_OF FrageMem].
  rewrite usize_sub_ok by (unfold is_usize in *; lia). rewrite Z.sub_0_r. change L0_SIZE with 4096.
  rewrite usize_mul_ok by done. rewrite bindM_lift. cbv zeta.
  change (Z.shiftl 1 30) with (2 ^ 30). change (512 / 2) with 256.
  pose proof (div_ceil_spec (n * 4096) (2 ^ 30) ltac:(lia)).
  pose proof (div_ceil_spec (div_ceil (n * 4096) (2 ^ 30)) 512 ltac:(lia)).
  by rewrite (proj2 (Z.ltb_lt _ _)) by lia.
Qed.

(** Page tables in which the window can be built: the root table [old_root] at [root]
    has a recursive entry outside the window and before the last one, the root entries of the window are
    empty, and the frames of the allocator exist. *)
Record window_ready (root recursive : Z) (k : nat) (old : Kmem) (old_root guards : list Z) : Prop := {
  wr_last : recursive <> 511;
  wr_outside : recursive < 256 \/ 256 + Z.of_nat k <= recursive;
  wr_root : memory old !! root = Some old_root;
  wr_length : length old_root = 512%nat;
  wr_back : exists back, old_root !! Z.to_nat recursive = Some back /\ target back = Some root;
  wr_empty : forall j, (256 <= j < 256 + k)%nat -> old_root !! j = Some 0;
  wr_owned : owned (frames old) guards;
  wr_held : root ∈ guards;
  wr_memory : forall i, 0 <= i < Z.of_nat (length (frame_info (frames old))) ->
    is_Some (memory old !! (i * L0_SIZE));
}.

(** What is the same after building [ns] tables of the window: the other entries of the
    root table and all other tables; the new tables are frames nobody used. *)
Definition window_only (root : Z) (old st : Kmem) (old_root guards ns : list Z) : Prop :=
  (exists table, memory st !! root = Some table /\
     forall j, ~ (256 <= j < 256 + length ns)%nat -> table !! j = old_root !! j) /\
  (forall f, f <> root -> f ∉ ns -> memory st !! f = memory old !! f) /\
  NoDup ns /\ Forall (fun m => m ∉ guards) ns /\ owned (frames st) (ns ++ guards).

Lemma built_window_only root old_root old guards st ns tables :
  built root old_root old guards st ns tables -> window_only root old st old_root guards ns.
Proof.
  intros Hb. destruct (bl_root _ _ _ _ _ _ _ Hb) as (table & Ht & Hj). split_and!.
  - exists table. split; [done |]. intros j Hn. by rewrite Hj, decide_False.
  - apply (bl_rest _ _ _ _ _ _ _ Hb).
  - apply (bl_nodup _ _ _ _ _ _ _ Hb).
  - eapply list.Forall_impl; [apply (bl_fresh _ _ _ _ _ _ _ Hb) | simpl; tauto].
  - apply (bl_owned _ _ _ _ _ _ _ Hb).
Qed.

(** The part of [make] after the checks. *)
Lemma make_ready root old_root old guards n recursive :
  let size := n * 4096 in
  let k := Z.to_nat (div_ceil size (2 ^ 39)) in
  0 < size <= LOWER_END -> recursive_ok recursive ->
  window_ready root recursive k old old_root guards ->
  if Z.of_nat k <=? free_count (frames old) then
    exists st p ns, make root (mkBlock 0 n) recursive old = (st, Ok p) /\
      (forall a, 0 <= a < PHYS_END ->
         map_phys p a = if a <? size then Ok (HIGHER_START + a) else Err Overflow) /\
      (forall a, 0 <= a < size ->
         processor_translate (memory st) root (HIGHER_START + a) = Some a) /\
      length ns = k /\ window_only root old st old_root guards ns
  else
    exists st ns, make root (mkBlock 0 n) recursive old = (st, Err NoFrame) /\
      Z.of_nat (length ns) = free_count (frames old) /\ window_only root old st old_root guards ns /\
      Forall (fun m => memory st !! m = Some empty_table) ns.
Proof.
  intros size k Hsize Hrec [_ Hout Hroot Hlen (back & Hback & Htarget) Hfree Hown Hin Hdom].
  set (ec := div_ceil size (2 ^ 30)).
  pose proof (div_ceil_spec size (2 ^ 30) ltac:(lia)) as C1. fold ec in C1.
  pose proof (div_ceil_spec ec 512 ltac:(lia)) as C2.
  assert (Ek : Z.of_nat k = div_ceil ec 512).
  { unfold k. pose proof (div_ceil_spec size (2 ^ 39) ltac:(lia)). 
    pose proof (div_ceil_nonneg size (2 ^ 39) ltac:(lia) ltac:(lia)). lia. }
  assert (Hk : (0 < k <= 256)%nat) by lia.
  rewrite (make_checks root n recursive k ec old Hrec Hsize eq_refl Ek Hk).
  pose proof (fill_entries_spec root recursive old_root back old guards k n ec Hrec Hout ltac:(lia) Hroot
    Hlen Hback Htarget Hin Hdom Hfree ltac:(lia) Hown) as Hf. cbv zeta in Hf.
  destruct (Z.of_nat k <=? free_count (frames old)).
  - destruct Hf as (st & ns & Hns & Hb & E). rewrite (bindM_ok _ _ _ _ _ E).
    rewrite new_impl_spec by lia.
    eexists st, _, ns. split; [done |]. split_and!; try done; [| | by eapply built_window_only].
    + intros a Ha. apply map_phys_spec; lia.
    + intros a Ha. eapply built_translate; [exact Hb | done | lia | |].
      * apply Z.div_lt_upper_bound; lia.
      * apply Z.div_lt_upper_bound; lia.
  - destruct Hf as (st & ns & Hns & Hb & E). exists st, ns. rewrite (bindM_err _ _ _ _ _ E).
    split_and!; [done | done | by eapply built_window_only |].
    apply Forall_lookup. intros i m Hm. by rewrite (bl_tables _ _ _ _ _ _ _ Hb i m Hm).
Qed.

(** C14. Building the window on physical memory that starts at 0.  The arguments are
    checked before anything changes: a recursive entry that is 0 or out of range is
    refused with [InvalidArgument], one in the user's part with [PermissionDenied], and
    more memory than fits into the upper half with [NoPage].  Otherwise, if the page
    tables are ready for the window ([window_ready]: the recursive entry is valid,
    outside the window and not the last one, and the root entries of the window are
    empty), building it succeeds exactly when there are as many free frames as root
    entries are needed.  Then every address of physical memory is mapped to a virtual
    address that the processor translates back to it, and addresses beyond are refused
    with [Overflow].  If the frames run out the answer is [NoFrame], and all free frames
    have become empty tables of the window.  In both cases the other entries of the root
    table and all other tables are unchanged, and the new tables are frames nobody
    used. *)
Theorem phys2virt_make_correct root old_root old guards n recursive :
  let size := n * 4096 in
  let k := Z.to_nat (div_ceil size (2 ^ 39)) in
  0 < size -> is_usize size -> 0 <= recursive ->
  if (recursive =? 0) || (512 <=? recursive) then
    make root (mkBlock 0 n) recursive old = (old, Err InvalidArgument)
  else if (32 <=? recursive) && (recursive <? 256) then
    make root (mkBlock 0 n) recursive old = (old, Err PermissionDenied)
  else if LOWER_END <? size then
    make root (mkBlock 0 n) recursive old = (old, Err NoPage)
  else
    window_ready root recursive k old old_root guards ->
    if Z.of_nat k <=? free_count (frames old) then
      exists st p ns, make root (mkBlock 0 n) recursive old = (st, Ok p) /\
        (forall a, 0 <= a < PHYS_END ->
           map_phys p a = if a <? size then Ok (HIGHER_START + a) else Err Overflow) /\
        (forall a, 0 <= a < size ->
           processor_translate (memory st) root (HIGHER_START + a) = Some a) /\
        length ns = k /\ window_only root old st old_root guards ns
    else
      exists st ns, make root (mkBlock 0 n) recursive old = (st, Err NoFrame) /\
        Z.of_nat (length ns) = free_count (frames old) /\ window_only root old st old_root guards ns /\
        Forall (fun m => memory st !! m = Some empty_table) ns.
Proof.
  intros size k Hpos Hsize Hrec.
  destruct ((recursive =? 0) || (512 <=? recursive)) eqn:E1.
  { unfold make. change PAGE_TABLE_ENTRY_COUNT with 512. by rewrite E1. }
  destruct ((32 <=? recursive) && (recursive <? 256)) eqn:E2.
  { unfold make. change PAGE_TABLE_ENTRY_COUNT with 512. rewrite E1.
    change user_root_level_entries with (32, 256). cbn [fst snd]. by rewrite E2. }
  apply orb_false_iff in E1 as [E0%Z.eqb_neq E1%Z.leb_gt].
  apply andb_false_iff in E2. rewrite Z.leb_gt, Z.ltb_ge in E2.
  destruct (Z.ltb_spec LOWER_END size) as [E3|E3].
  - apply make_too_big; [lia | lia | done | done].
  - intros Hw. apply make_ready; [lia | | done]. pose proof (wr_last _ _ _ _ _ _ Hw). unfold recursive_ok. lia.
Qed.

(** ** Examples *)

(** Some frames of memory, the root table in the second with entry 1 pointing back
    to it. *)
Definition sample_root : list Z := <[1%nat := root_pte 4096]> empty_table.
Definition sample_memory : Kmem :=
  mkKmem FrameAllocator.sample
    (<[4096 := sample_root]> (list_to_map ((fun i => (i * 4096, empty_table)) <$>
       seqZ 0 (Z.of_nat (length (frame_info FrameAllocator.sample)))))).

(** The last entry cannot be used for the recursive mapping: the page of the root
    table is then the last one, and the block of that page is built from the next
    page, which does not exist. *)
Example last_entry_panics : node_page 511 511 = Panic.
Proof. vm_compute. reflexivity. Qed.

(** A recursive entry inside the window passes the checks and the root table is
    then cleared through it. *)
Example clobbered_root :
  let st := mkKmem FrameAllocator.sample
    (<[4096 := <[256%nat := root_pte 4096]> empty_table]> (memory sample_memory)) in
  memory (allocate_root_entry 4096 256 256 st).1 !! 4096 = Some empty_table.
Proof. vm_compute. reflexivity. Qed.

Lemma sample_free j : (256 <= j < 257)%nat -> sample_root !! j = Some 0.
Proof. intros Hj. assert (j = 256%nat) as -> by lia. reflexivity. Qed.

Lemma sample_dom i : 0 <= i < Z.of_nat (length (frame_info (frames sample_memory))) ->
  is_Some (memory sample_memory !! (i * L0_SIZE)).
Proof.
  intros Hi. change (Z.of_nat _) with 6 in Hi.
  assert (i = 0 \/ i = 1 \/ i = 2 \/ i = 3 \/ i = 4 \/ i = 5) as Hc by lia.
  destruct Hc as [->|[->|[->|[->|[->| ->]]]]]; vm_compute; by eexists.
Qed.

Example sample_target : target (root_pte 4096) = Some 4096.
Proof. vm_compute. reflexivity. Qed.

Example sample_root_table : memory sample_memory !! 4096 = Some sample_root.
Proof. vm_compute. reflexivity. Qed.

Example sample_enough :
  (Z.of_nat (Z.to_nat (div_ceil (300000 * 4096) (2 ^ 39))) <=? free_count (frames sample_memory)) = true.
Proof. vm_compute. reflexivity. Qed.

Lemma sample_ready : window_ready 4096 1 1 sample_memory sample_root [0; 4096].
Proof.
  split; [done | left; lia | apply sample_root_table | reflexivity | | apply sample_free | apply sample_owned | |
    apply sample_dom].
  - exists (root_pte 4096). split; [reflexivity | apply sample_target].
  - by right; left.
Qed.

Lemma phys2virt_make_correct_witness :
  exists st p, make 4096 (mkBlock 0 300000) 1 sample_memory = (st, Ok p) /\
    map_phys p 1200000000 = Ok (HIGHER_START + 1200000000) /\
    processor_translate (memory st) 4096 (HIGHER_START + 1200000000) = Some 1200000000.
Proof.
  pose proof (phys2virt_make_correct 4096 sample_root sample_memory [0; 4096] 300000 1) as H.
  cbv zeta in H. rewrite sample_enough in H. destruct H as (st & p & ns & E & Hm & Ht & _).
  - lia.
  - split; lia.
  - lia.
  - exact sample_ready.
  - exists st, p. split; [exact E |]. split; [by rewrite Hm by lia | apply Ht; lia].
Defined.
