(* ===== verification/Backtrace.v ===== *)
(** * Stack traces

    [ku/src/backtrace/mod.rs]: the walk along the frame pointers of a stack, which
    runs when something has already gone wrong and must survive arbitrary
    contents of the stack.  The memory is a function [load] from addresses to
    words; the state of the walk records the addresses of the frames it reads. *)

From stdpp Require Import base list numbers option tactics.
From Stdlib Require Import ZArith Lia.
From S2P Require Import Prelude Addr Frage Block.

Open Scope Z_scope.
Open Scope outcome_scope.

Record StackFrame := { outer : Z; return_address : Z }.

Definition frame_default : StackFrame := {| outer := 0; return_address := 0 |}.

(** [mem::size_of::<StackFrame>()] and its alignment. *)
Definition FRAME_SIZE : Z := 16.
Definition FRAME_ALIGN : Z := 8.

Record Backtrace := {
  lower_limit : Z;
  stack : Block;
  stack_frame : StackFrame;
}.

Section Walk.
Context (load : Z -> Z).

Definition frame_at (a : Z) : StackFrame := {| outer := load a; return_address := load (a + 8) |}.

Definition validate (frame : Z) : M (list Z) StackFrame :=
  let! virt := liftM (addr_new VirtTag frame) in
  let! ptr := liftM (Virt.try_into_ref virt FRAME_ALIGN) in
  let! f := (fun reads => (reads ++ [ptr], Ok (frame_at ptr))) in
  let! _ := liftM (addr_new VirtTag (outer f)) in
  let! _ := liftM (addr_new VirtTag (return_address f)) in
  retM f.

(** [StackFrame::outer]: the new lower limit and the outer frame. *)
Definition outer_frame (f : StackFrame) (limit : Z) (stack : Block) :
    M (list Z) (Z * option StackFrame) :=
  let! outer_start := liftM (unwrap (addr_new VirtTag (outer f))) in
  if (outer_start =? 0) || negb (is_same_half VirtTag outer_start limit) || (outer_start <? limit)
  then retM (limit, None)
  else
    let! block := okM (
      let! outer_end := liftM (addr_add VirtTag outer_start FRAME_SIZE) in
      liftM (block_new Virtual outer_start outer_end)) in
    match block with
    | None => retM (limit, None)
    | Some block =>
        let! start := liftM (start_address Virtual block) in
        let! next := okM (liftM (addr_add VirtTag start FRAME_SIZE)) in
        let limit := default limit next in
        if contains_block stack block then
          let! f := okM (validate (outer f)) in
          retM (limit, f)
        else retM (limit, None)
    end.

Definition next (b : Backtrace) : M (list Z) (Backtrace * option StackFrame) :=
  if outer (stack_frame b) =? 0 then retM (b, None)
  else
    let! (limit, f) := outer_frame (stack_frame b) (lower_limit b) (stack b) in
    retM ({| lower_limit := limit; stack := stack b; stack_frame := default frame_default f |},
          Some (stack_frame b)).

(** The loop over the iterator; [None] is a loop that has not ended after [fuel]
    calls of [next]. *)
Fixpoint walk (fuel : nat) (b : Backtrace) : M (list Z) (option (list StackFrame)) :=
  match fuel with
  | O => retM None
  | S fuel =>
      let! (b, f) := next b in
      match f with
      | None => retM (Some [])
      | Some f => let! rest := walk fuel b in retM (cons f <$> rest)
      end
  end.

(** ** Constructors *)

(** The feature [conservative-backtraces] is an argument. *)
Definition stack_size (conservative : bool) : Z := if conservative then 1 else 32 * L0_SIZE.

Definition backtrace_new_impl (conservative : bool) (rbp rsp : Z) (f : StackFrame) : outcome Backtrace :=
  let? limit := addr_new VirtTag rsp in
  let? end_ := usize_add rbp (stack_size conservative) in
  let? block := block_from_index Virtual rbp end_ in
  let? pages := enclosing VirtTag block in
  let? stack := block_of_frages VirtTag L0_SIZE pages in
  Ok {| lower_limit := limit; stack := stack; stack_frame := f |}.

Definition backtrace_new (conservative : bool) (rbp rsp : Z) : M (list Z) Backtrace :=
  let! f := validate rbp in
  liftM (backtrace_new_impl conservative rbp rsp f).

Definition with_context (conservative : bool) (rbp rip rsp : Z) : outcome Backtrace :=
  backtrace_new_impl conservative rbp rsp {| outer := rbp; return_address := rip |}.

(** The registers that [Backtrace::current] reads are arguments. *)
Definition with_stack (conservative : bool) (rbp rsp : Z) (stack : Block) : M (list Z) Backtrace :=
  let! b := backtrace_new conservative rbp rsp in
  retM {| lower_limit := lower_limit b; stack := stack; stack_frame := stack_frame b |}.

End Walk.

Definition backtrace_default : Backtrace :=
  {| lower_limit := 0; stack := block_zero; stack_frame := frame_default |}.

(** ** What the walk reads *)

Section Safety.
Context (load : Z -> Z) (Hload : forall a, is_usize (load a)).

(** A frame the walk may read. *)
Definition readable (stack : Block) (limit a : Z) : Prop :=
  a mod 8 = 0 /\ limit <= a /\ b_start stack <= a /\ a + 16 <= b_end stack.

Lemma virt_new_cases a : addr_new VirtTag a = Ok a \/ addr_new VirtTag a = Err InvalidArgument.
Proof. apply (tag_new_cases (T := VirtTag)). Qed.

Lemma try_into_ref_ok a :
  Virt.try_into_ref a FRAME_ALIGN = if (a mod 8 =? 0) && negb (a =? 0) then Ok a
    else Err (if a mod 8 =? 0 then Null else InvalidAlignment).
Proof.
  unfold Virt.try_into_ref, Virt.try_into_ptr. change FRAME_ALIGN with 8.
  assert (E : is_multiple_of a 8 = (a mod 8 =? 0)).
  { apply eq_true_iff_eq. rewrite is_multiple_of_divide, Z.eqb_eq by lia.
    symmetry. apply Z.mod_divide. lia. }
  rewrite E. destruct (a mod 8 =? 0); cbn [andb negb]; [| done]. by destruct (a =? 0).
Qed.

(** Whether the frame at [a] passes the checks. *)
Definition plausible (a : Z) : bool :=
  is_ok (addr_new VirtTag (load a)) && is_ok (addr_new VirtTag (load (a + 8))).

Lemma frame_validate_spec a reads : valid VirtTag a ->
  okM (validate load a) reads =
    if (a mod 8 =? 0) && negb (a =? 0)
    then (reads ++ [a], Ok (if plausible a then Some (frame_at load a) else None))
    else (reads, Ok None).
Proof.
  intros Hv. unfold okM, validate. rewrite (valid_new a Hv : addr_new VirtTag a = Ok a), bindM_lift.
  rewrite try_into_ref_ok. destruct ((a mod 8 =? 0) && negb (a =? 0)) eqn:E.
  - rewrite bindM_lift. unfold bindM, liftM, retM, plausible. cbn [frame_at outer return_address].
    destruct (virt_new_cases (load a)) as [->| ->]; [| done]. cbn [is_ok andb].
    destruct (virt_new_cases (load (a + 8))) as [->| ->]; done.
  - unfold bindM, liftM. done.
Qed.

Lemma plausible_valid a : plausible a = true -> valid VirtTag (load a).
Proof.
  unfold plausible. intros [H _]%andb_true_iff. split; [done |].
  destruct (virt_new_cases (load a)) as [E|E]; [exact E |]. by rewrite E in H.
Qed.

(** The block of a frame exists unless it crosses the end of a half. *)
Definition fits_half (a : Z) : Prop :=
  valid VirtTag (a + 16) /\ is_same_half VirtTag a (a + 16) = true.

Lemma frame_block a (reads : list Z) : valid VirtTag a ->
  let c : M (list Z) _ := okM (let! outer_end := liftM (addr_add VirtTag a FRAME_SIZE) in
                liftM (block_new Virtual a outer_end)) in
  (fits_half a /\ c reads = (reads, Ok (Some (mkBlock a (a + 16)))) /\
     addr_add VirtTag a FRAME_SIZE = Ok (a + 16)) \/
  (~ fits_half a /\ c reads = (reads, Ok None)).
Proof.
  intros Hv c. unfold c, okM, bindM, liftM. change FRAME_SIZE with 16.
  destruct (addr_add VirtTag a 16) as [e|e|] eqn:Ee.
  - apply addr_add_spec in Ee as (-> & Ve & Hh); [| done | done]. left. split; [done |].
    assert (Hm : valid VirtTag (a + 16 - 1) /\ is_same_half VirtTag a (a + 16 - 1) = true)
      by (apply (half_convex (T := VirtTag) a _ (a + 16)); [done | done | done | lia]).
    pose proof (valid_usize _ Hv) as U1. pose proof (valid_usize _ Ve) as U2.
    assert (Hwf : block_wf Virtual (mkBlock a (a + 16))).
    { split; unfold last_index; cbn [b_start b_end SIZE_OF AddrMem mem_tag];
        rewrite ?(proj2 (Z.ltb_lt a (a + 16))) by lia; rewrite ?Z.mul_1_r; tauto || lia. }
    unfold block_new. cbn [mem_index AddrMem]. rewrite (wf_from_index _ _ Hwf). by split.
  - right. split; [| done]. intros [Ve Hh].
    pose proof (proj2 (addr_add_spec a 16 (a + 16) Hv ltac:(lia)) (conj eq_refl (conj Ve Hh))). congruence.
  - exfalso. unfold addr_add, addr_new, check_half, ok_or in Ee.
    destruct (checked_add a 16) as [x|]; [| done]. 
    destruct (tag_new_cases (T := VirtTag) x) as [E|E]; rewrite E in Ee; [| done].
    by destruct (is_same_half VirtTag a x).
Qed.

(** The outer frame is read only where it may be, or not at all. *)
Lemma outer_frame_cases f limit stack reads : valid VirtTag (outer f) ->
  (exists limit', outer_frame load f limit stack reads = (reads, Ok (limit', None))) \/
  (readable stack limit (outer f) /\ valid VirtTag (outer f + 16) /\
   outer_frame load f limit stack reads = (reads ++ [outer f],
     Ok (outer f + 16, if plausible (outer f) then Some (frame_at load (outer f)) else None))).
Proof.
  intros Hv. unfold outer_frame. set (a := outer f) in *.
  rewrite (valid_new a Hv : addr_new VirtTag a = Ok a). cbn [unwrap]. rewrite bindM_lift.
  destruct ((a =? 0) || _ || _) eqn:Eg; [left; by exists limit |].
  apply orb_false_iff in Eg as [[Ea _]%orb_false_iff Elim].
  destruct (frame_block a reads Hv) as [([Ve Hh] & Eb & Eadd)|[_ Eb]];
    rewrite (bindM_ok _ _ _ _ _ Eb); [| left; by exists limit].
  change (start_address Virtual (mkBlock a (a + 16))) with (@Ok Z a). rewrite bindM_lift, Eadd.
  rewrite (bindM_ok _ _ reads reads (Some (a + 16)) eq_refl). cbn [default]. unfold contains_block. cbn [b_start b_end].
  destruct ((b_start stack <=? a) && (a + 16 <=? b_end stack)) eqn:Ec; [| left; by eexists].
  unfold bindM. rewrite frame_validate_spec by done. rewrite Ea. cbn [negb]. rewrite andb_true_r.
  destruct (a mod 8 =? 0) eqn:E8; [| left; by eexists].
  right. split; [unfold readable; bool_simp; lia |]. split; [done |]. by destruct (plausible a).
Qed.

(** A frame of an intact stack: its checks pass, it is next to be reached. *)
Definition intact (stack : Block) (limit a : Z) : Prop :=
  readable stack limit a /\ a <> 0 /\ valid VirtTag a /\ is_same_half VirtTag a limit = true /\
  fits_half a /\ plausible a = true.

Lemma outer_frame_intact f limit stack reads : intact stack limit (outer f) ->
  outer_frame load f limit stack reads =
    (reads ++ [outer f], Ok (outer f + 16, Some (frame_at load (outer f)))).
Proof.
  intros ((H8 & Hl & Hs & He) & H0 & Hv & Hh & Hf & Hp). unfold outer_frame. set (a := outer f) in *.
  rewrite (valid_new a Hv : addr_new VirtTag a = Ok a). cbn [unwrap]. rewrite bindM_lift, Hh.
  rewrite (proj2 (Z.eqb_neq a 0)), (proj2 (Z.ltb_ge a limit)) by done. cbn [orb negb].
  destruct (frame_block a reads Hv) as [(_ & Eb & Eadd)|[N _]]; [| done].
  rewrite (bindM_ok _ _ _ _ _ Eb).
  change (start_address Virtual (mkBlock a (a + 16))) with (@Ok Z a). rewrite bindM_lift, Eadd.
  rewrite (bindM_ok _ _ reads reads (Some (a + 16)) eq_refl). cbn [default].
  unfold contains_block. cbn [b_start b_end].
  rewrite (proj2 (Z.leb_le _ _) Hs), (proj2 (Z.leb_le _ _) He). cbn [andb].
  unfold bindM. rewrite frame_validate_spec by done.
  rewrite (proj2 (Z.eqb_eq _ _) H8), (proj2 (Z.eqb_neq a 0)) by done. cbn [andb negb].
  by rewrite Hp.
Qed.

(** ** The walk *)

Lemma walk_ended fuel b reads : outer (stack_frame b) = 0 ->
  walk load (S fuel) b reads = (reads, Ok (Some [])).
Proof. intros E. cbn [walk]. unfold next. by rewrite E. Qed.

Lemma walk_step fuel b reads reads' limit f : outer (stack_frame b) <> 0 ->
  outer_frame load (stack_frame b) (lower_limit b) (stack b) reads = (reads', Ok (limit, f)) ->
  walk load (S fuel) b reads =
    bindM (walk load fuel {| lower_limit := limit; stack := stack b;
                             stack_frame := default frame_default f |})
      (fun rest => retM (cons (stack_frame b) <$> rest)) reads'.
Proof.
  intros E0 E. cbn [walk]. unfold next. rewrite (proj2 (Z.eqb_neq _ 0) E0).
  unfold bindM at 1. unfold bindM at 1. by rewrite E.
Qed.

(** The addresses of frames that follow each other without overlap. *)
Fixpoint ascend (stack : Block) (limit : Z) (l : list Z) : Prop :=
  match l with
  | [] => True
  | a :: l => readable stack limit a /\ ascend stack (a + 16) l
  end.

(** The calls of [next] that are enough: one for each frame that fits between the
    limit and the end of the stack, one for the frame at hand, one for the end. *)
Definition walk_fuel (b : Backtrace) : nat :=
  Z.to_nat ((b_end (stack b) - lower_limit b) / FRAME_SIZE) + 2.

Lemma walk_fuel_step b a f : readable (stack b) (lower_limit b) a ->
  (walk_fuel {| lower_limit := a + 16; stack := stack b; stack_frame := f |} < walk_fuel b)%nat.
Proof.
  intros (_ & Hl & _ & He). unfold walk_fuel. cbn [stack lower_limit]. change FRAME_SIZE with 16.
  set (l := lower_limit b) in *. set (e := b_end (stack b)) in *.
  pose proof (Z.div_le_mono (e - (a + 16)) (e - l + (-1) * 16) 16 ltac:(lia) ltac:(lia)) as H.
  rewrite Z.div_add in H by lia.
  pose proof (Z.div_le_mono 16 (e - l) 16 ltac:(lia) ltac:(lia)) as H1. change (16 / 16) with 1 in H1. lia.
Qed.

Lemma frame_default_valid : valid VirtTag (outer frame_default).
Proof. split; [vm_compute; split; congruence | reflexivity]. Qed.

Lemma walk_ends fuel : forall b reads, valid VirtTag (outer (stack_frame b)) ->
  (walk_fuel b <= fuel)%nat ->
  exists frames seen, walk load fuel b reads = (reads ++ seen, Ok (Some frames)) /\
    ascend (stack b) (lower_limit b) seen.
Proof.
  induction fuel as [|fuel IH]; intros b reads Hv Hf; [unfold walk_fuel in Hf; lia |].
  destruct (Z.eq_dec (outer (stack_frame b)) 0) as [E0|E0].
  { exists [], []. rewrite walk_ended, app_nil_r by done. done. }
  destruct (outer_frame_cases _ (lower_limit b) (stack b) reads Hv) as [[limit E]|(Hr & _ & E)];
    rewrite (walk_step _ _ _ _ _ _ E0 E); cbn [default].
  - destruct fuel as [|fuel]; [unfold walk_fuel in Hf; lia |]. unfold bindM.
    rewrite walk_ended by done. exists [stack_frame b], []. by rewrite app_nil_r.
  - set (a := outer (stack_frame b)) in *.
    edestruct (IH {| lower_limit := a + 16; stack := stack b; stack_frame := default frame_default
        (if plausible a then Some (frame_at load a) else None) |} (reads ++ [a])) as (fs & seen & Ew & Ha).
    + cbn [stack_frame]. destruct (plausible a) eqn:Ep; [by apply plausible_valid | apply frame_default_valid].
    + pose proof (walk_fuel_step b a (default frame_default
        (if plausible a then Some (frame_at load a) else None)) Hr). lia.
    + unfold bindM. rewrite Ew. exists (stack_frame b :: fs), (a :: seen).
      rewrite <- app_assoc. split; [done |]. by split.
Qed.

End Safety.

(** The frames of an intact stack from the one at [a] on, and where they are.  The
    last one has no outer frame, and is not reported. *)
Inductive call_chain (load : Z -> Z) (stack : Block) : Z -> Z -> list Z -> list StackFrame -> Prop :=
  | chain_last limit a : intact load stack limit a -> load a = 0 ->
      call_chain load stack limit a [a] []
  | chain_outer limit a addrs frames : intact load stack limit a -> load a <> 0 ->
      call_chain load stack (a + 16) (load a) addrs frames ->
      call_chain load stack limit a (a :: addrs) (frame_at load a :: frames).

Lemma call_chain_walk load stack limit a addrs frames :
  call_chain load stack limit a addrs frames ->
  forall f reads, outer f = a ->
  exists enough : nat, forall fuel, (enough <= fuel)%nat ->
    walk load fuel {| lower_limit := limit; stack := stack; stack_frame := f |} reads =
      (reads ++ addrs, Ok (Some (f :: frames))).
Proof.
  induction 1 as [limit a Hi E|limit a addrs frames Hi E _ IH]; intros f reads <-.
  - exists 2%nat. intros fuel Hf. do 2 (destruct fuel as [|fuel]; [lia |]).
    erewrite walk_step by (apply Hi || apply outer_frame_intact, Hi). cbn [default].
    unfold bindM. by rewrite walk_ended.
  - destruct (IH (frame_at load (outer f)) (reads ++ [outer f]) eq_refl) as [enough He].
    exists (S enough). intros fuel Hf. destruct fuel as [|fuel]; [lia |].
    erewrite walk_step by (apply Hi || apply outer_frame_intact, Hi). cbn [default].
    unfold bindM. cbn [Backtrace.stack]. rewrite He by lia. by rewrite <- app_assoc.
Qed.

Lemma walk_more load fuel : forall more b reads reads' frames, (fuel <= more)%nat ->
  walk load fuel b reads = (reads', Ok (Some frames)) ->
  walk load more b reads = (reads', Ok (Some frames)).
Proof.
  induction fuel as [|fuel IH]; intros more b reads reads' frames Hm E; [done |].
  destruct more as [|more]; [lia |]. cbn [walk] in *. unfold bindM at 1 in E. unfold bindM at 1.
  destruct (next load b reads) as [r [[b' f]|e|]] eqn:En; [| done..].
  destruct f as [f|]; [| done]. unfold bindM in *.
  destruct (walk load fuel b' r) as [r' [[rest|]|e|]] eqn:Ew; [| done..].
  by rewrite (IH more _ _ _ _ ltac:(lia) Ew).
Qed.

(** ** Every trace *)

(** How the code makes a trace.  [Backtrace::current] is [new] on the registers of
    the processor. *)
Inductive created (load : Z -> Z) : Backtrace -> Prop :=
  | created_new conservative rbp rsp reads reads' b : is_usize rbp ->
      backtrace_new load conservative rbp rsp reads = (reads', Ok b) -> created load b
  | created_context conservative rbp rip rsp b : is_usize rbp ->
      with_context conservative rbp rip rsp = Ok b -> created load b
  | created_default : created load backtrace_default
  | created_stack conservative rbp rsp stack reads reads' b : is_usize rbp ->
      with_stack load conservative rbp rsp stack reads = (reads', Ok b) -> created load b.

Lemma new_impl_ok conservative rbp rsp f b : is_usize rbp ->
  backtrace_new_impl conservative rbp rsp f = Ok b ->
  stack_frame b = f /\ valid VirtTag rbp.
Proof.
  intros Hu E. unfold backtrace_new_impl in E.
  destruct (addr_new VirtTag rsp) as [limit| |]; [| done..].
  destruct (usize_add rbp (stack_size conservative)) as [e| |] eqn:Ee; [| done..].
  destruct (block_from_index Virtual rbp e) as [block| |] eqn:Eb; [| done..].
  destruct (enclosing VirtTag block) as [pages| |]; [| done..].
  destruct (block_of_frages VirtTag L0_SIZE pages) as [stack| |]; [| done..].
  simplify_eq/=. split; [done |].
  assert (is_usize e) by (unfold usize_add in Ee; destruct (fits_usize _) eqn:Ef; [| done]; simplify_eq; by apply fits_usize_true).
  apply (block_from_index_spec (M := Virtual)) in Eb as [_ Hb]; [| done..].
  pose proof (wf_start _ _ Hb) as Hv. cbn in Hv. by rewrite Z.mul_1_r in Hv.
Qed.

Lemma validate_ok load a reads reads' f : (forall x, is_usize (load x)) ->
  validate load a reads = (reads', Ok f) -> valid VirtTag (outer f).
Proof.
  intros Hl E. unfold validate, bindM, liftM in E.
  destruct (addr_new VirtTag a) as [v| |]; [| done..].
  destruct (Virt.try_into_ref v FRAME_ALIGN) as [p| |]; [| done..].
  destruct (virt_new_cases (outer (frame_at load p))) as [Eo|Eo]; rewrite Eo in E; [| done].
  destruct (addr_new VirtTag (return_address (frame_at load p))); [| done..].
  unfold retM in E. simplify_eq. split; [apply Hl | exact Eo].
Qed.

Lemma backtrace_new_valid load conservative rbp rsp reads reads' b :
  (forall x, is_usize (load x)) -> is_usize rbp ->
  backtrace_new load conservative rbp rsp reads = (reads', Ok b) -> valid VirtTag (outer (stack_frame b)).
Proof.
  intros Hl Hu E. unfold backtrace_new, bindM in E.
  destruct (validate load rbp reads) as [r [f| |]] eqn:Ev; [| done..].
  unfold liftM in E. injection E as _ E. apply new_impl_ok in E as [-> _]; [| done].
  by eapply validate_ok.
Qed.

Lemma created_valid load b : (forall x, is_usize (load x)) -> created load b ->
  valid VirtTag (outer (stack_frame b)).
Proof.
  intros Hl. destruct 1 as [c rbp rsp reads reads' b Hu E|c rbp rip rsp b Hu E| |c rbp rsp st reads reads' b Hu E].
  - by eapply backtrace_new_valid.
  - by apply new_impl_ok in E as [-> ?].
  - apply frame_default_valid.
  - unfold with_stack, bindM in E.
    destruct (backtrace_new load c rbp rsp reads) as [r [b0| |]] eqn:En; [| done..].
    unfold retM in E. injection E as _ <-. cbn [stack_frame]. by eapply backtrace_new_valid.
Qed.

(** C28. The walk of a stack trace survives every contents of the memory: however
    the trace was made, [walk_fuel] calls of [next] reach the end of the loop
    without a panic; beyond the creation of the trace it reads only aligned frames that lie
    in the stack it was given, at or above the stack pointer, each above the one
    before.  On an intact stack it reports the frame at hand and all its outer
    frames in order, except the outermost one, whose link is zero. *)
Theorem backtrace_walk_safe load b reads :
  (forall a, is_usize (load a)) -> created load b ->
  (exists frames seen,
    (forall fuel, (walk_fuel b <= fuel)%nat ->
       walk load fuel b reads = (reads ++ seen, Ok (Some frames))) /\
    ascend (stack b) (lower_limit b) seen /\
    (forall addrs outers,
       call_chain load (stack b) (lower_limit b) (outer (stack_frame b)) addrs outers ->
       seen = addrs /\ frames = stack_frame b :: outers)).
Proof.
  intros Hl Hc. pose proof (created_valid _ _ Hl Hc) as Hv.
  destruct (walk_ends load Hl (walk_fuel b) b reads Hv (le_n _)) as (frames & seen & E & Ha).
  exists frames, seen. split; [| split; [exact Ha |]].
  - intros fuel Hf. by apply (walk_more load (walk_fuel b)).
  - intros addrs outers Hch.
    destruct (call_chain_walk _ _ _ _ _ _ Hch (stack_frame b) reads eq_refl) as [enough He].
    pose proof (walk_more load (walk_fuel b) (max enough (walk_fuel b)) b _ _ _ ltac:(lia) E) as E1.
    specialize (He (max enough (walk_fuel b)) ltac:(lia)).
    assert (Eb : b = {| lower_limit := lower_limit b; stack := stack b; stack_frame := stack_frame b |})
      by by destruct b.
    rewrite <- Eb, E1 in He. injection He as He ->. by apply app_inv_head in He.
Qed.

(** The caller of [with_context] expects an error for a frame pointer it cannot
    follow, but the guess of the end of the stack is not checked: near the end of
    the address space the addition overflows, and near the end of the lower
    half [enclosing] has no end address. *)
Example with_context_panics :
  with_context false (2 ^ 64 - 16) 4096 4096 = Panic /\
  with_context false (2 ^ 47 - 32 * L0_SIZE) 4096 4096 = Panic.
Proof. split; by vm_compute. Qed.

(** A stack of three frames. *)
Definition sample_memory (a : Z) : Z :=
  if a =? 4096 then 4128 else if a =? 4104 then 17 else
  if a =? 4128 then 4160 else if a =? 4136 then 18 else
  if a =? 4168 then 19 else 0.

Lemma sample_memory_usize a : is_usize (sample_memory a).
Proof. unfold sample_memory. repeat case_match; vm_compute; split; congruence. Qed.

Definition sample_trace : Backtrace :=
  match snd (backtrace_new sample_memory false 4096 4080 []) with
  | Ok b => b
  | _ => backtrace_default
  end.

Lemma sample_trace_created : created sample_memory sample_trace.
Proof.
  apply (created_new _ false 4096 4080 [] [4096]); [vm_compute; split; congruence |]. by vm_compute.
Qed.

Lemma sample_trace_chain :
  call_chain sample_memory (stack sample_trace) (lower_limit sample_trace) 4128 [4128; 4160]
    [{| outer := 4160; return_address := 18 |}].
Proof.
  assert (I : forall limit a, limit = 4080 /\ a = 4128 \/ limit = 4144 /\ a = 4160 ->
    intact sample_memory (stack sample_trace) limit a).
  { intros limit a [[-> ->]|[-> ->]]; vm_compute; repeat split; congruence. }
  apply (chain_outer sample_memory (stack sample_trace) _ 4128 [4160] []); [apply I; vm_compute; auto | by vm_compute |].
  apply (chain_last _ _ (4128 + 16) 4160); [apply I; auto | done].
Qed.

Lemma backtrace_walk_safe_witness :
  exists frames seen, walk sample_memory (walk_fuel sample_trace) sample_trace [] = (seen, Ok (Some frames)) /\
    seen = [4128; 4160] /\
    frames = [{| outer := 4128; return_address := 17 |}; {| outer := 4160; return_address := 18 |}].
Proof.
  destruct (backtrace_walk_safe sample_memory sample_trace [] sample_memory_usize sample_trace_created)
    as (frames & seen & E & _ & Hc).
  exists frames, seen. split; [apply E, le_n |].
  exact (Hc _ _ sample_trace_chain).
Defined.
